(* ===== verification/_CoqProject ===== *)
-Q . S2P
Prelude.v
StrEncodings.v
Endian.v
ArithUint256.v
Compact.v
BlockStream.v
Keccak.v
Fips202.v
DevSha3.v
MerkleDamgard.v
Fips180.v
Sha256.v
Sha512.v
Sha1.v
Ripemd160.v
Hash.v
SipHash.v
Script.v
Serialize.v
Transaction.v
Coins.v
Compressor.v
Interpreter.v
SigHash.v
VerifyScript.v
Standard.v
Base58.v
Block.v
Merkle.v
PartialMerkle.v
BlockIndex.v
Chain.v
TicketPool.v
CoinsUpdate.v
Pow.v
VersionBits.v
Validation.v
TxVerify.v
BlockCheck.v
Bloom.v
AcceptHeader.v
ForkChoice.v
Linking.v
BestChain.v
Genesis.v
