(* ===== verification/Prelude.v ===== *)
(** * Verification of TSC-POW-SHA3

    The node of the TSC chain (src/src): a proof-of-work chain in the line of
    Bitcoin 0.15 and Qtum whose block hash is SHA3-256, whose blocks are also signed
    by five tickets drawn from a pool, and whose outputs may carry contracts for a
    virtual machine.  This development models the part of the node that decides
    what is valid, from the bytes of a message to the tree of blocks: hash
    functions, encodings, transactions and scripts, the set of
    coins, headers and blocks, and the ticket pool.

    ** How the program is modelled

    - A machine integer is a [Z]; [u8], [u32], [i32], [u64], [i64] below write out the
      wrap-around of each width, at the places where the code computes in that width.
      Bytes are [Z]s below 256, byte strings, scripts, [uint256] and [uint160] lists of them.
    - A function that can fail an assertion, throw, or read where nothing is defined returns
      [option]; [None] stands for that outcome only.  A refusal of the
      program ([return false], a script error, a [CValidationState]) is a value.
      So a theorem that a call is [Some] says that no assertion fails and nothing is read
      out of range.
    - State is passed explicitly: the heap of [CBlockIndex] objects with pointers as
      keys, the coin cache, the ticket pool, the version bits caches, the validation state.
      Objects that the code shares through pointers are shared through the heap.
    - Loops are structural, or recursive on fuel that the theorems show to suffice: the length of
      the script for the script machine and the scans, the height of an entry for the walks
      up the tree, the number of candidates for the search of the best chain, of waiting blocks for
      linking, the levels of a Merkle tree (at most 32), the number of digits in base conversions.
    - Each definition is named after what it models and computes; the map beside this
      library gives the lines of the source for each.

    ** The parts and how they interact

    Hashing.  Endian.v (crypto/common.h), BlockStream.v and MerkleDamgard.v (what the
    hasher classes share), Sha256.v, Sha512.v, Sha1.v, Ripemd160.v (crypto/),
    Keccak.v (crypto/sha3), DevSha3.v (the Keccak of libdevcore), Hash.v (hash.h,
    HMAC), SipHash.v; MurmurHash3 is in Bloom.v.  References: Fips180.v, Fips202.v.  The class
    [HashAlg] is what the compositions ask of a hasher, [StreamHash] what a
    hasher asks of its buffer.

    Numbers and texts.  ArithUint256.v and Compact.v (arith_uint256.h and .cpp),
    StrEncodings.v (utilstrencodings, uint256.h), Base58.v (base58.cpp).

    Wire formats.  Serialize.v (serialize.h): codecs, with the classes [Serializable] and
    [Canonical]; Transaction.v (primitives/transaction.h), Block.v
    (primitives/block.h), Compressor.v (compressor.h, coins.h, undo.h).

    Scripts.  Script.v (script/script.h), Interpreter.v, SigHash.v and VerifyScript.v
    (script/interpreter.cpp), Standard.v (script/standard.cpp).  The interpreter
    sees signatures and lock times through the interface [BaseSignatureChecker];
    VerifyScript.v implements it for a transaction, with the check of an elliptic
    curve signature as a parameter.

    Coins.  Coins.v (coins.h and .cpp): the interface [CoinsView] with its laws, and the
    write-back cache that implements it over any other view; CoinsUpdate.v (UpdateCoins,
    DisconnectBlock of validation.cpp) works on it.

    The chain.  Merkle.v (consensus/merkle.cpp), PartialMerkle.v (merkleblock.cpp),
    BlockIndex.v (chain.h, AddToBlockIndex), Chain.v (CChain), Pow.v (pow.cpp,
    chainparams.cpp), VersionBits.v (versionbits.cpp), TicketPool.v (ticketpool.cpp and its
    callers), Genesis.v (CreateGenesisBlock).  Bloom.v (bloom.cpp) has the filters, and the block that a
    node makes for a client with a filter (merkleblock.cpp).

    Validation.  Validation.v (consensus/validation.h, consensus.h), TxVerify.v
    (consensus/tx_verify.cpp), BlockCheck.v (CheckBlock, the contextual checks and the witness commitment
    of validation.cpp), AcceptHeader.v (AcceptBlockHeader, ProcessNewBlockHeaders), ForkChoice.v (the
    candidates for the tip and the operations on them), Linking.v and BestChain.v (their theorems).

    A header enters through [ProcessNewBlockHeaders], which calls [CheckBlockHeader]
    (proof of work, Pow.v), [ContextualCheckBlockHeader] (the required target and
    the checkpoints, over BlockIndex.v) and [AddToBlockIndex].  A block enters through
    [CheckLuckySignatures] (TicketPool.v), [CheckBlock] (Merkle.v, TxVerify.v, Standard.v) and
    [ContextualCheckBlock] (VersionBits.v, the witness root of Merkle.v); its transactions
    meet the coins in [CheckTxInputs] and [UpdateCoins], and the scripts in [VerifyScript].
    A block that was stored is linked by [ReceivedBlockTransactions]; [FindMostWorkChain] says
    which chain to follow, [InvalidBlockFound] what happens when that fails.

    ** What the theorems show

    - The hash functions are the standards' functions, whatever the lengths of the
      writes; the block hash and the transaction identifiers are SHA3-256 of
      the serializations.
    - Every format reads back what it writes, and where it matters (transactions, blocks, addresses,
      partial trees, coins) accepts little else, which the theorem describes.
    - The limb loops compute 256-bit arithmetic; the compact target and the retargeting are the
      closed formulas wherever no product overflows, and a theorem exhibits the overflow
      of the parameters of the main network.
    - The script machine never fails an assertion, keeps its limits, and
      verifies the standard spends exactly when they should be; every flag only
      restricts; a signature commits to what it should.
    - The coin cache is the map of coins, through any stack of caches; connecting and
      disconnecting a block are inverse; no block creates more value than it declares.
    - The tree of headers stays well formed, rooted at the genesis block and worked for; the
      version bits follow BIP 9; Merkle roots and partial trees are binding, up to two different pairs of
      nodes of 32 bytes, among those that the two computations hash, with the same hash.
    - [CheckTransaction], [CheckTxInputs], [CheckBlock], [AcceptBlockHeader] and the
      others accept exactly what their specification says, and say why they refuse.
    - The candidates for the tip are exactly the unmarked entries whose chain has arrived and that are not worse than the
      tip, whatever the order of arrival; the search for the best chain ends, misses no chain
      that can be followed, and never returns one that leaves the active chain through a block that was found invalid.
    - A client with a filter is sent, with a proof, every transaction that is relevant for it, also those that spend
      what matched before; the rolling filter remembers the last keys, as many as it was made for.
    - The ticket pool holds the tickets bought and not drawn or expired, and a block passes
      only with the signatures of five different tickets of the pool.  Above height 5000 this needs a seed
      that is read within bounds ([seed_in_bounds]); with the others the model fails, and the theorems say so.

    Several theorems are about faults of the code: their comments say so, and they
    are stated as the code behaves ([negative_seed_out_of_bounds],
    [signers_stay_in_the_pool], [mainnet_retarget_overflow], [header_time_unchecked],
    [filter_without_functions], [dev_sha3_is_keccak]).

    ** Bounds

    A hash is of less than 4 GiB written (the lengths the hashers count); heights are below
    2^31 - 1; a Merkle tree has at most 2^31 leaves and a partial tree 2^30 (the code allows
    17895697); [GetLocator] is for heights below 2^29; amounts are below 2^60
    where a coin is stored, no chain has 2^32 transactions and the node links fewer than 2^31 blocks; coin heights below 2^30; a block is at most 50 million bytes, more
    than the governance contracts can set (32 million); Base58 texts are below 2^28 bytes.

    ** Parameters

    Code that is not in src/ or is a library is an argument: libsecp256k1 (validity, decompression
    and recovery of keys, verification of signatures, low S), the memory an
    allocation takes, the sizes of filters (computed in floating point) and their random tweak, the
    undo files, reading a block from disk, and the container of the ticket pool
    ([TicketSet], whose laws [TicketSetLaws] a sorted list satisfies).  The facts that theorems use of
    them are hypotheses with the meaning their documentation gives.

    ** Not modelled

    - The virtual machine and its state (cpp-ethereum but for its Keccak and RLP of a string), the
      contract side of ConnectBlock (ByteCodeExec, the transactions a contract
      makes, state and UTXO roots), ConnectTip and DisconnectTip and what calls them
      (ActivateBestChain, InvalidateBlock), and the governance contracts (tsc/): they run
      in the library, whose state database is outside of what the kernel can compute with.
    - Files and databases: the block and undo files, LevelDB (leveldb/, dbwrapper.cpp,
      txdb.cpp), wallet files, logs.  Their formats are modelled, their contents are parameters.
    - The network (net.cpp, net_processing.cpp but for CheckSigwithAddress), the RPC and HTTP
      servers, the miner and stake threads, the wallet, the graphical interface (qt/): mostly
      input and output, timers and threads, or policy that consensus does not depend on.
    - The memory pool and its policy (txmempool.cpp, policy/), the checks of proofs of stake (pos.cpp),
      which no block reaches since [IsProofOfStake] is false.
    - Vendored libraries: secp256k1, univalue, cryptopp, easylogging++, leveldb, and the
      AES and ChaCha20 of crypto/, which only the wallet and the random generator use.
    - Locks and threads: the modelled functions run under cs_main; the parallel check of scripts
      is the sequential one. *)

From stdpp Require Import base numbers list option gmap.
From Stdlib Require Import ZArith Lia ZifyNat.

#[global] Open Scope Z_scope.

(** ** Machine integers

    A C++ [uintN_t] is a [Z] in [[0, 2^N)]; every operation that can leave the
    range is followed by the wrap-around the language prescribes. *)

Definition u8 (z : Z) : Z := z mod 256.
Definition u16 (z : Z) : Z := z mod 65536.
Definition u32 (z : Z) : Z := z mod 4294967296.
Definition u64 (z : Z) : Z := z mod 18446744073709551616.

(** Conversion to a signed type (two's complement). *)
Definition i32 (z : Z) : Z := (z + 2147483648) mod 4294967296 - 2147483648.
Definition i64 (z : Z) : Z :=
  (z + 9223372036854775808) mod 18446744073709551616 - 9223372036854775808.

Definition is_u8 (z : Z) : Prop := 0 ≤ z < 256.
Definition is_u32 (z : Z) : Prop := 0 ≤ z < 4294967296.
Definition is_u64 (z : Z) : Prop := 0 ≤ z < 18446744073709551616.

(** Hint databases of the development: [word] proves ranges of machine
    integers, [digits] rewrites with the positional-notation lemmas. *)
Create HintDb word discriminated.
Create Rewrite HintDb digits.

Lemma u8_range z : is_u8 (u8 z).
Proof. unfold is_u8, u8. apply Z.mod_pos_bound. lia. Qed.
Lemma u32_range z : is_u32 (u32 z).
Proof. unfold is_u32, u32. apply Z.mod_pos_bound. lia. Qed.
Lemma u64_range z : is_u64 (u64 z).
Proof. unfold is_u64, u64. apply Z.mod_pos_bound. lia. Qed.
Lemma u8_small z : is_u8 z → u8 z = z.
Proof. apply Z.mod_small. Qed.
Lemma u32_small z : is_u32 z → u32 z = z.
Proof. apply Z.mod_small. Qed.
Lemma u64_small z : is_u64 z → u64 z = z.
Proof. apply Z.mod_small. Qed.
Lemma u32_add_l a b : u32 (u32 a + b) = u32 (a + b).
Proof. unfold u32. by rewrite Z.add_mod_idemp_l by lia. Qed.
Lemma u32_add_r a b : u32 (a + u32 b) = u32 (a + b).
Proof. unfold u32. by rewrite Z.add_mod_idemp_r by lia. Qed.
Lemma u64_add_l a b : u64 (u64 a + b) = u64 (a + b).
Proof. unfold u64. by rewrite Z.add_mod_idemp_l by lia. Qed.
Lemma u64_add_r a b : u64 (a + u64 b) = u64 (a + b).
Proof. unfold u64. by rewrite Z.add_mod_idemp_r by lia. Qed.
Lemma i32_small z : -2147483648 ≤ z < 2147483648 → i32 z = z.
Proof. intros. unfold i32. rewrite Z.mod_small by lia. lia. Qed.
Lemma i64_small z : -9223372036854775808 ≤ z < 9223372036854775808 → i64 z = z.
Proof. intros. unfold i64. rewrite Z.mod_small by lia. lia. Qed.

#[export] Hint Resolve u8_range u32_range u64_range : word.

(** Division facts in the form the proofs below use them. *)
Ltac zdiv := zify; Z.div_mod_to_equations; nia.
Ltac zlin := zify; Z.div_mod_to_equations; lia.
(** Linear arithmetic through the range predicates. *)
Ltac word_lia := unfold is_u8, is_u32, is_u64 in *; lia.

(** ** Bit-level facts about bounded integers *)

Lemma testbit_high a n i : 0 ≤ a < 2 ^ n → 0 ≤ n → n ≤ i → Z.testbit a i = false.
Proof.
  intros Ha Hn Hi. rewrite <- (Z.mod_small a (2 ^ n)) by done.
  by apply Z.mod_pow2_bits_high.
Qed.

Lemma bounded_of_bits a n :
  0 ≤ a → 0 ≤ n → (∀ i, n ≤ i → Z.testbit a i = false) → a < 2 ^ n.
Proof.
  intros Ha Hn Hb. destruct (decide (a < 2 ^ n)) as [|Hge]; [done|exfalso].
  assert (0 < 2 ^ n) by (apply Z.pow_pos_nonneg; lia).
  assert (Hl : n ≤ Z.log2 a) by (apply Z.log2_le_pow2; lia).
  specialize (Hb (Z.log2 a) Hl). rewrite Z.bit_log2 in Hb by lia. done.
Qed.

Lemma land_bounded a b n : 0 ≤ n → 0 ≤ a < 2 ^ n → 0 ≤ b → 0 ≤ Z.land a b < 2 ^ n.
Proof.
  intros Hn Ha Hb. assert (0 ≤ Z.land a b) by (apply Z.land_nonneg; lia).
  split; [done|]. apply bounded_of_bits; [done|done|]. intros i Hi.
  by rewrite Z.land_spec, (testbit_high a n) by done.
Qed.

Lemma lor_bounded a b n : 0 ≤ n → 0 ≤ a < 2 ^ n → 0 ≤ b < 2 ^ n → 0 ≤ Z.lor a b < 2 ^ n.
Proof.
  intros Hn Ha Hb. assert (0 ≤ Z.lor a b) by (apply Z.lor_nonneg; lia).
  split; [done|]. apply bounded_of_bits; [done|done|]. intros i Hi.
  by rewrite Z.lor_spec, (testbit_high a n), (testbit_high b n) by done.
Qed.

Lemma lxor_bounded a b n : 0 ≤ n → 0 ≤ a < 2 ^ n → 0 ≤ b < 2 ^ n → 0 ≤ Z.lxor a b < 2 ^ n.
Proof.
  intros Hn Ha Hb. assert (0 ≤ Z.lxor a b) by (apply Z.lxor_nonneg; lia).
  split; [done|]. apply bounded_of_bits; [done|done|]. intros i Hi.
  by rewrite Z.lxor_spec, (testbit_high a n), (testbit_high b n) by done.
Qed.

(** Disjoint bit fields: [lor] is addition. *)
Lemma lor_add_disjoint a b n :
  0 ≤ n → 0 ≤ a < 2 ^ n → Z.lor a (Z.shiftl b n) = a + b * 2 ^ n.
Proof.
  intros Hn Ha. rewrite <- Z.shiftl_mul_pow2 by done.
  rewrite Z.add_nocarry_lxor.
  - apply Z.bits_inj'. intros i Hi. rewrite Z.lor_spec, Z.lxor_spec.
    destruct (decide (i < n)).
    + rewrite (Z.shiftl_spec_low b n i) by done. by destruct (Z.testbit a i).
    + rewrite (testbit_high a n i) by lia. done.
  - apply Z.bits_inj'. intros i Hi. rewrite Z.land_spec, Z.bits_0.
    destruct (decide (i < n)).
    + rewrite (Z.shiftl_spec_low b n i) by done. apply andb_false_r.
    + by rewrite (testbit_high a n i) by lia.
Qed.

(** [x & (2^n - 1)] is [x mod 2^n]. *)
Lemma land_ones_mod x n : 0 ≤ n → Z.land x (Z.ones n) = x mod 2 ^ n.
Proof. intros. by apply Z.land_ones. Qed.

(** ** Positional notation

    Byte strings (base [256]) and 32-bit limb arrays (base [2^32]) are both
    little-endian digit lists. *)

Section Digits.
Context (B : Z).

Fixpoint from_digits (l : list Z) : Z :=
  match l with
  | [] => 0
  | d :: l' => d + B * from_digits l'
  end.

Fixpoint to_digits (n : nat) (x : Z) : list Z :=
  match n with
  | O => []
  | S n' => x mod B :: to_digits n' (x / B)
  end.

Definition digits_ok (l : list Z) : Prop := Forall (λ d, 0 ≤ d < B) l.

Lemma length_to_digits n x : length (to_digits n x) = n.
Proof. revert x. induction n; intros; simpl; auto. Qed.

Lemma from_digits_app l1 l2 :
  from_digits (l1 ++ l2) = from_digits l1 + B ^ Z.of_nat (length l1) * from_digits l2.
Proof.
  induction l1 as [|d l1 IH]; cbn [app from_digits length].
  - rewrite Z.pow_0_r. lia.
  - rewrite IH, Nat2Z.inj_succ, Z.pow_succ_r by lia. lia.
Qed.

Lemma from_digits_zeros n : from_digits (replicate n 0) = 0.
Proof. induction n as [|n IH]; simpl; [done|]. rewrite IH. lia. Qed.

Context (HB : 1 < B).

Lemma to_digits_ok n x : digits_ok (to_digits n x).
Proof.
  revert x. induction n; intros x; simpl; constructor.
  - apply Z.mod_pos_bound. lia.
  - apply IHn.
Qed.

Lemma from_digits_bound l :
  digits_ok l → 0 ≤ from_digits l < B ^ Z.of_nat (length l).
Proof.
  induction 1 as [|d l Hd _ IH]; cbn [from_digits length]; [rewrite Z.pow_0_r; lia|].
  rewrite Nat2Z.inj_succ, Z.pow_succ_r by lia. nia.
Qed.

Lemma from_to_digits n x : from_digits (to_digits n x) = x mod B ^ Z.of_nat n.
Proof.
  revert x. induction n as [|n IH]; intros x; cbn [to_digits from_digits].
  - by rewrite Z.pow_0_r, Z.mod_1_r.
  - rewrite IH, Nat2Z.inj_succ, Z.pow_succ_r by lia.
    rewrite Z.rem_mul_r; [lia|lia|]. apply Z.pow_pos_nonneg; lia.
Qed.

Lemma to_from_digits l : digits_ok l → to_digits (length l) (from_digits l) = l.
Proof.
  induction 1 as [|d l Hd _ IH]; cbn [from_digits length to_digits]; [done|].
  rewrite (Z.mul_comm B), Z.mod_add, Z.div_add by lia.
  rewrite Z.mod_small, Z.div_small by lia. by rewrite Z.add_0_l, IH.
Qed.

Lemma from_digits_inj l1 l2 :
  digits_ok l1 → digits_ok l2 → length l1 = length l2 →
  from_digits l1 = from_digits l2 → l1 = l2.
Proof.
  intros H1 H2 Hlen Heq.
  rewrite <- (to_from_digits l1), <- (to_from_digits l2) by done. congruence.
Qed.

Lemma to_digits_small n x :
  0 ≤ x < B ^ Z.of_nat n → from_digits (to_digits n x) = x.
Proof. intros. by rewrite from_to_digits, Z.mod_small. Qed.

Lemma to_digits_mod n x : to_digits n (x mod B ^ Z.of_nat n) = to_digits n x.
Proof.
  apply from_digits_inj; auto using to_digits_ok.
  - by rewrite !length_to_digits.
  - rewrite !from_to_digits. apply Z.mod_mod. apply Z.pow_nonzero; lia.
Qed.
End Digits.

Abbreviation bytes := (list Z) (only parsing).
Abbreviation bytes_ok := (digits_ok 256).
#[export] Hint Rewrite length_to_digits from_digits_app : digits.

Lemma bytes_ok_cons b l : bytes_ok (b :: l) ↔ is_u8 b ∧ bytes_ok l.
Proof. unfold digits_ok. apply Forall_cons_iff. Qed.
Lemma bytes_ok_app l1 l2 : bytes_ok (l1 ++ l2) ↔ bytes_ok l1 ∧ bytes_ok l2.
Proof. apply Forall_app. Qed.
Lemma bytes_ok_nil : bytes_ok [].
Proof. constructor. Qed.
Lemma bytes_ok_1 b : is_u8 b → bytes_ok [b].
Proof. intros Hb. constructor; [done|constructor]. Qed.
(** Decided by evaluation on literals. *)
Lemma bytes_ok_compute l : forallb (λ b, (0 <=? b) && (b <? 256)) l = true → bytes_ok l.
Proof. 
  induction l as [|b l IH]; cbn [forallb]; intros H; [constructor|].
  rewrite !andb_true_iff in H. destruct H as [Hb Hl]. constructor; [lia|by apply IH].
Qed.
#[export] Hint Resolve bytes_ok_nil bytes_ok_1 : word.

(** ** Assignments

    [var x := e ;; rest] is the C++ statement [x = e; rest]; it is kept as a
    function application so that a proof can name the assigned value once. *)
Definition assign {A B} (e : A) (rest : A → B) : B := rest e.
Notation "'var' x := e ;; rest" := (assign e (λ x, rest))
  (at level 10, x name, e at level 99, rest at level 200).

Lemma assign_eq {A B} (e : A) (rest : A → B) : assign e rest = rest e.
Proof. reflexivity. Qed.
Lemma foldl_step {A B} (f : A → B → A) a x l : foldl f a (x :: l) = foldl f (f a x) l.
Proof. reflexivity. Qed.

(** ** Loops

    [for (int i = lo; i < lo + n; i++) s = body(i, s)]. *)
Fixpoint for_from {A} (n lo : nat) (body : nat → A → A) (s : A) : A :=
  match n with
  | O => s
  | S n' => for_from n' (S lo) body (body lo s)
  end.
Abbreviation for_to n := (for_from n 0).

(** The rule for counted loops: an invariant indexed by the loop counter. *)
Lemma for_from_inv {A} (P : nat → A → Prop) n lo body (s : A) :
  P lo s →
  (∀ i s', (lo ≤ i < lo + n)%nat → P i s' → P (S i) (body i s')) →
  P (lo + n)%nat (for_from n lo body s).
Proof.
  revert lo s. induction n as [|n IH]; intros lo s H0 Hstep; simpl.
  - by rewrite Nat.add_0_r.
  - replace (lo + S n)%nat with (S lo + n)%nat by lia. apply IH.
    + apply Hstep; [lia|done].
    + intros. apply Hstep; [lia|done].
Qed.

(** ** Lists *)

Lemma list_eq_total {A} `{!Inhabited A} (l1 l2 : list A) :
  length l1 = length l2 →
  (∀ i, (i < length l1)%nat → l1 !!! i = l2 !!! i) → l1 = l2.
Proof.
  intros Hlen H. apply list_eq_same_length with (n := length l1); [done|done|].
  intros i x y Hi H1 H2. specialize (H i Hi).
  by rewrite (list_lookup_total_correct l1 i x H1),
    (list_lookup_total_correct l2 i y H2) in H.
Qed.
