(* ===== verification/StrEncodings.v ===== *)
(** * String encodings and opaque blobs (src/src/utilstrencodings.h and .cpp,
    uint256.h and .cpp)

    Hexadecimal, base 64 and base 32, and the 160- and 256-bit blobs with their
    hexadecimal forms.  A [std::string] is the list of its bytes; a C string
    ends at its first NUL, and reading at the end of the list reads that
    NUL. *)

From stdpp Require Import base numbers list option.
From Stdlib Require Import ZArith Lia ZifyNat ZifyBool.
From Stdlib Require String Ascii.
Import String.StringSyntax.
From S2P Require Import Prelude.

(** The bytes of a string literal. *)
Definition str (s : String.string) : bytes := map (λ a, Z.of_N (Ascii.N_of_ascii a)) (String.list_ascii_of_string s).
Arguments str _%_string_scope.

(** ** The C library functions used *)
Fixpoint skip_while (p : Z → bool) (s : bytes) : bytes :=
  match s with c :: r => if p c then skip_while p r else s | [] => [] end.
Fixpoint take_while (p : Z → bool) (s : bytes) : bytes :=
  match s with c :: r => if p c then c :: take_while p r else [] | [] => [] end.
Definition c_str (s : bytes) : bytes := take_while (λ c, negb (c =? 0)) s.
Definition isspace (c : Z) : bool := (9 <=? c) && (c <=? 13) || (c =? 32).
Definition tolower (c : Z) : Z := if (65 <=? c) && (c <=? 90) then c + 32 else c.
(** [psz[i]] of a C string. *)
Definition char_at (s : bytes) (i : nat) : Z := nth i s 0.

(** ** Hexadecimal *)
Definition p_util_hexdigit : list Z :=
  [ -1; -1; -1; -1; -1; -1; -1; -1; -1; -1; -1; -1; -1; -1; -1; -1; -1; -1; -1; -1; -1; -1; -1; -1; -1; -1; -1; -1; -1; -1; -1; -1;
    -1; -1; -1; -1; -1; -1; -1; -1; -1; -1; -1; -1; -1; -1; -1; -1; 0; 1; 2; 3; 4; 5; 6; 7; 8; 9; -1; -1; -1; -1; -1; -1;
    -1; 10; 11; 12; 13; 14; 15; -1; -1; -1; -1; -1; -1; -1; -1; -1; -1; -1; -1; -1; -1; -1; -1; -1; -1; -1; -1; -1; -1; -1; -1; -1;
    -1; 10; 11; 12; 13; 14; 15; -1; -1; -1; -1; -1; -1; -1; -1; -1; -1; -1; -1; -1; -1; -1; -1; -1; -1; -1; -1; -1; -1; -1; -1; -1;
    -1; -1; -1; -1; -1; -1; -1; -1; -1; -1; -1; -1; -1; -1; -1; -1; -1; -1; -1; -1; -1; -1; -1; -1; -1; -1; -1; -1; -1; -1; -1; -1;
    -1; -1; -1; -1; -1; -1; -1; -1; -1; -1; -1; -1; -1; -1; -1; -1; -1; -1; -1; -1; -1; -1; -1; -1; -1; -1; -1; -1; -1; -1; -1; -1;
    -1; -1; -1; -1; -1; -1; -1; -1; -1; -1; -1; -1; -1; -1; -1; -1; -1; -1; -1; -1; -1; -1; -1; -1; -1; -1; -1; -1; -1; -1; -1; -1;
    -1; -1; -1; -1; -1; -1; -1; -1; -1; -1; -1; -1; -1; -1; -1; -1; -1; -1; -1; -1; -1; -1; -1; -1; -1; -1; -1; -1; -1; -1; -1; -1 ].
Definition HexDigit (c : Z) : Z := nth (Z.to_nat (u8 c)) p_util_hexdigit (-1).

Definition IsHex (s : bytes) : bool :=
  forallb (λ c, negb (HexDigit c <? 0)) s && (0 <? length s)%nat && (length s mod 2 =? 0)%nat.
Definition IsHexNumber (s : bytes) : bool :=
  let starting_location :=
    if (2 <? length s)%nat && (char_at s 0 =? 48) && (char_at s 1 =? 120) then 2%nat else 0%nat in
  forallb (λ c, negb (HexDigit c <? 0)) (drop starting_location s) && (starting_location <? length s)%nat.

Fixpoint ParseHex_loop (psz vch : bytes) : bytes :=
  match psz with
  | [] => vch
  | a :: r =>
      if isspace a then ParseHex_loop r vch
      else
        let c := HexDigit a in
        if c =? -1 then vch
        else match r with
             | [] => vch
             | b :: r' =>
                 let n := u8 (Z.shiftl c 4) in
                 let c := HexDigit b in
                 if c =? -1 then vch else ParseHex_loop r' (vch ++ [Z.lor n c])
             end
  end.
Definition ParseHex (s : bytes) : bytes := ParseHex_loop (c_str s) [].

Definition hexmap : list Z := str "0123456789abcdef".
Fixpoint HexStr_loop (fSpaces first : bool) (v : bytes) : bytes :=
  match v with
  | [] => []
  | val :: r =>
      (if fSpaces && negb first then [32] else []) ++
      [nth (Z.to_nat (Z.shiftr val 4)) hexmap 0; nth (Z.to_nat (Z.land val 15)) hexmap 0] ++
      HexStr_loop fSpaces false r
  end.
Definition HexStr (v : bytes) (fSpaces : bool) : bytes := HexStr_loop fSpaces true v.

(** ** Blobs of [WIDTH] bytes *)
Definition GetHex (data : bytes) : bytes := HexStr (rev data) false.
(** [sprintf("%02x")] on each byte in turn. *)
Definition GetReverseHex (data : bytes) : bytes :=
  concat (map (λ b, [nth (Z.to_nat (Z.shiftr b 4)) hexmap 0; nth (Z.to_nat (Z.land b 15)) hexmap 0]) data).

(** The loop from the last digit to the first, two digits to a byte; the bytes
    it does not reach stay zero. *)
Fixpoint SetHex_loop (WIDTH : nat) (digits : list Z) : bytes :=
  match WIDTH with
  | O => []
  | S w =>
      match digits with
      | [] => replicate WIDTH 0
      | [d] => u8 (HexDigit d) :: replicate w 0
      | d :: e :: r => Z.lor (u8 (HexDigit d)) (u8 (Z.shiftl (u8 (HexDigit e)) 4)) :: SetHex_loop w r
      end
  end.
Definition skip_0x (psz : bytes) : bytes :=
  if (char_at psz 0 =? 48) && (tolower (char_at psz 1) =? 120) then drop 2 psz else psz.
Definition hex_chars (psz : bytes) : bytes :=
  take_while (λ c, negb (HexDigit c =? -1)) (skip_0x (skip_while isspace psz)).
Definition SetHex (WIDTH : nat) (s : bytes) : bytes :=
  SetHex_loop WIDTH (rev (hex_chars (c_str s))).
Definition SetReverseHex (WIDTH : nat) (s : bytes) : bytes := rev (SetHex WIDTH s).

Definition uint256S (s : bytes) : bytes := SetHex 32 s.

Definition blob_IsNull (data : bytes) : bool := forallb (λ x, x =? 0) data.
(** [memcmp]. *)
Fixpoint blob_Compare (a b : bytes) : Z :=
  match a, b with
  | x :: a', y :: b' => if x =? y then blob_Compare a' b' else x - y
  | _, _ => 0
  end.
Definition GetUint64 (data : bytes) (pos : nat) : Z :=
  let ptr := drop (pos * 8) data in
  foldr (λ i acc, Z.lor (Z.shiftl (char_at ptr i) (8 * Z.of_nat i)) acc) 0 (seq 0 8).

(** ** Base 64 *)
Definition pbase64 : list Z := str "ABCDEFGHIJKLMNOPQRSTUVWXYZabcdefghijklmnopqrstuvwxyz0123456789+/".
Definition enc64 (i : Z) : Z := nth (Z.to_nat i) pbase64 0.
Fixpoint EncodeBase64_loop (pch strRet : bytes) (mode : nat) (left' : Z) : bytes * nat * Z :=
  match pch with
  | [] => (strRet, mode, left')
  | enc :: r =>
      match mode with
      | 0%nat => EncodeBase64_loop r (strRet ++ [enc64 (Z.shiftr enc 2)]) 1 (Z.shiftl (Z.land enc 3) 4)
      | 1%nat => EncodeBase64_loop r (strRet ++ [enc64 (Z.lor left' (Z.shiftr enc 4))]) 2 (Z.shiftl (Z.land enc 15) 2)
      | _ => EncodeBase64_loop r (strRet ++ [enc64 (Z.lor left' (Z.shiftr enc 6)); enc64 (Z.land enc 63)]) 0 left'
      end
  end.
Definition EncodeBase64_end '((strRet, mode, left') : bytes * nat * Z) : bytes :=
  match mode with
  | 0%nat => strRet
  | 1%nat => strRet ++ [enc64 left'; 61; 61]
  | _ => strRet ++ [enc64 left'; 61]
  end.
Definition EncodeBase64 (pch : bytes) : bytes := EncodeBase64_end (EncodeBase64_loop pch [] 0 0).

Definition decode64_table : list Z :=
  [ -1; -1; -1; -1; -1; -1; -1; -1; -1; -1; -1; -1; -1; -1; -1; -1; -1; -1; -1; -1; -1; -1; -1; -1; -1; -1; -1; -1; -1; -1; -1; -1;
    -1; -1; -1; -1; -1; -1; -1; -1; -1; -1; -1; 62; -1; -1; -1; 63; 52; 53; 54; 55; 56; 57; 58; 59; 60; 61; -1; -1; -1; -1; -1; -1;
    -1; 0; 1; 2; 3; 4; 5; 6; 7; 8; 9; 10; 11; 12; 13; 14; 15; 16; 17; 18; 19; 20; 21; 22; 23; 24; 25; -1; -1; -1; -1; -1;
    -1; 26; 27; 28; 29; 30; 31; 32; 33; 34; 35; 36; 37; 38; 39; 40; 41; 42; 43; 44; 45; 46; 47; 48; 49; 50; 51; -1; -1; -1; -1; -1;
    -1; -1; -1; -1; -1; -1; -1; -1; -1; -1; -1; -1; -1; -1; -1; -1; -1; -1; -1; -1; -1; -1; -1; -1; -1; -1; -1; -1; -1; -1; -1; -1;
    -1; -1; -1; -1; -1; -1; -1; -1; -1; -1; -1; -1; -1; -1; -1; -1; -1; -1; -1; -1; -1; -1; -1; -1; -1; -1; -1; -1; -1; -1; -1; -1;
    -1; -1; -1; -1; -1; -1; -1; -1; -1; -1; -1; -1; -1; -1; -1; -1; -1; -1; -1; -1; -1; -1; -1; -1; -1; -1; -1; -1; -1; -1; -1; -1;
    -1; -1; -1; -1; -1; -1; -1; -1; -1; -1; -1; -1; -1; -1; -1; -1; -1; -1; -1; -1; -1; -1; -1; -1; -1; -1; -1; -1; -1; -1; -1; -1 ].
Definition dec64 (c : Z) : Z := nth (Z.to_nat (u8 c)) decode64_table (-1).
(** The loop stops at the first character outside the alphabet and returns the
    rest of the string. *)
Fixpoint DecodeBase64_loop (p vchRet : bytes) (mode : nat) (left' : Z) : bytes * bytes * nat * Z :=
  match p with
  | [] => (p, vchRet, mode, left')
  | c :: r =>
      let dec := dec64 c in
      if dec =? -1 then (p, vchRet, mode, left')
      else match mode with
           | 0%nat => DecodeBase64_loop r vchRet 1 dec
           | 1%nat => DecodeBase64_loop r (vchRet ++ [u8 (Z.lor (Z.shiftl left' 2) (Z.shiftr dec 4))]) 2 (Z.land dec 15)
           | 2%nat => DecodeBase64_loop r (vchRet ++ [u8 (Z.lor (Z.shiftl left' 4) (Z.shiftr dec 2))]) 3 (Z.land dec 3)
           | _ => DecodeBase64_loop r (vchRet ++ [u8 (Z.lor (Z.shiftl left' 6) dec)]) 0 left'
           end
  end.
(** The bytes and the invalid flag. *)
Definition DecodeBase64_end '((p, vchRet, mode, left') : bytes * bytes * nat * Z) : bytes * bool :=
  (vchRet,
   match mode with
   | 0%nat => false
   | 1%nat => true
   | 2%nat => negb (left' =? 0) || negb (char_at p 0 =? 61) || negb (char_at p 1 =? 61) || negb (dec64 (char_at p 2) =? -1)
   | _ => negb (left' =? 0) || negb (char_at p 0 =? 61) || negb (dec64 (char_at p 1) =? -1)
   end).
Definition DecodeBase64 (p : bytes) : bytes * bool := DecodeBase64_end (DecodeBase64_loop p [] 0 0).

(** ** Base 32 *)
Definition pbase32 : list Z := str "abcdefghijklmnopqrstuvwxyz234567".
Definition enc32 (i : Z) : Z := nth (Z.to_nat i) pbase32 0.
Fixpoint EncodeBase32_loop (pch strRet : bytes) (mode : nat) (left' : Z) : bytes * nat * Z :=
  match pch with
  | [] => (strRet, mode, left')
  | enc :: r =>
      match mode with
      | 0%nat => EncodeBase32_loop r (strRet ++ [enc32 (Z.shiftr enc 3)]) 1 (Z.shiftl (Z.land enc 7) 2)
      | 1%nat => EncodeBase32_loop r (strRet ++ [enc32 (Z.lor left' (Z.shiftr enc 6)); enc32 (Z.land (Z.shiftr enc 1) 31)]) 2 (Z.shiftl (Z.land enc 1) 4)
      | 2%nat => EncodeBase32_loop r (strRet ++ [enc32 (Z.lor left' (Z.shiftr enc 4))]) 3 (Z.shiftl (Z.land enc 15) 1)
      | 3%nat => EncodeBase32_loop r (strRet ++ [enc32 (Z.lor left' (Z.shiftr enc 7)); enc32 (Z.land (Z.shiftr enc 2) 31)]) 4 (Z.shiftl (Z.land enc 3) 3)
      | _ => EncodeBase32_loop r (strRet ++ [enc32 (Z.lor left' (Z.shiftr enc 5)); enc32 (Z.land enc 31)]) 0 left'
      end
  end.
Definition nPadding : list nat := [0; 6; 4; 3; 1]%nat.
Definition EncodeBase32_end '((strRet, mode, left') : bytes * nat * Z) : bytes :=
  match mode with
  | 0%nat => strRet
  | _ => strRet ++ [enc32 left'] ++ replicate (nth mode nPadding 0%nat) 61
  end.
Definition EncodeBase32 (pch : bytes) : bytes := EncodeBase32_end (EncodeBase32_loop pch [] 0 0).

Definition decode32_table : list Z :=
  [ -1; -1; -1; -1; -1; -1; -1; -1; -1; -1; -1; -1; -1; -1; -1; -1; -1; -1; -1; -1; -1; -1; -1; -1; -1; -1; -1; -1; -1; -1; -1; -1;
    -1; -1; -1; -1; -1; -1; -1; -1; -1; -1; -1; -1; -1; -1; -1; -1; -1; -1; 26; 27; 28; 29; 30; 31; -1; -1; -1; -1; -1; -1; -1; -1;
    -1; 0; 1; 2; 3; 4; 5; 6; 7; 8; 9; 10; 11; 12; 13; 14; 15; 16; 17; 18; 19; 20; 21; 22; 23; 24; 25; -1; -1; -1; -1; -1;
    -1; 0; 1; 2; 3; 4; 5; 6; 7; 8; 9; 10; 11; 12; 13; 14; 15; 16; 17; 18; 19; 20; 21; 22; 23; 24; 25; -1; -1; -1; -1; -1;
    -1; -1; -1; -1; -1; -1; -1; -1; -1; -1; -1; -1; -1; -1; -1; -1; -1; -1; -1; -1; -1; -1; -1; -1; -1; -1; -1; -1; -1; -1; -1; -1;
    -1; -1; -1; -1; -1; -1; -1; -1; -1; -1; -1; -1; -1; -1; -1; -1; -1; -1; -1; -1; -1; -1; -1; -1; -1; -1; -1; -1; -1; -1; -1; -1;
    -1; -1; -1; -1; -1; -1; -1; -1; -1; -1; -1; -1; -1; -1; -1; -1; -1; -1; -1; -1; -1; -1; -1; -1; -1; -1; -1; -1; -1; -1; -1; -1;
    -1; -1; -1; -1; -1; -1; -1; -1; -1; -1; -1; -1; -1; -1; -1; -1; -1; -1; -1; -1; -1; -1; -1; -1; -1; -1; -1; -1; -1; -1; -1; -1 ].
Definition dec32 (c : Z) : Z := nth (Z.to_nat (u8 c)) decode32_table (-1).
Fixpoint DecodeBase32_loop (p vchRet : bytes) (mode : nat) (left' : Z) : bytes * bytes * nat * Z :=
  match p with
  | [] => (p, vchRet, mode, left')
  | c :: r =>
      let dec := dec32 c in
      if dec =? -1 then (p, vchRet, mode, left')
      else match mode with
           | 0%nat => DecodeBase32_loop r vchRet 1 dec
           | 1%nat => DecodeBase32_loop r (vchRet ++ [u8 (Z.lor (Z.shiftl left' 3) (Z.shiftr dec 2))]) 2 (Z.land dec 3)
           | 2%nat => DecodeBase32_loop r vchRet 3 (Z.lor (Z.shiftl left' 5) dec)
           | 3%nat => DecodeBase32_loop r (vchRet ++ [u8 (Z.lor (Z.shiftl left' 1) (Z.shiftr dec 4))]) 4 (Z.land dec 15)
           | 4%nat => DecodeBase32_loop r (vchRet ++ [u8 (Z.lor (Z.shiftl left' 4) (Z.shiftr dec 1))]) 5 (Z.land dec 1)
           | 5%nat => DecodeBase32_loop r vchRet 6 (Z.lor (Z.shiftl left' 5) dec)
           | 6%nat => DecodeBase32_loop r (vchRet ++ [u8 (Z.lor (Z.shiftl left' 2) (Z.shiftr dec 3))]) 7 (Z.land dec 7)
           | _ => DecodeBase32_loop r (vchRet ++ [u8 (Z.lor (Z.shiftl left' 5) dec)]) 0 left'
           end
  end.
(** [k] padding characters, and nothing of the alphabet after them. *)
Definition bad_padding (p : bytes) (left' : Z) (k : nat) : bool :=
  negb (left' =? 0) || negb (forallb (λ i, char_at p i =? 61) (seq 0 k)) || negb (dec32 (char_at p k) =? -1).
Definition DecodeBase32_end '((p, vchRet, mode, left') : bytes * bytes * nat * Z) : bytes * bool :=
  (vchRet,
   match mode with
   | 0%nat => false
   | 2%nat => bad_padding p left' 6
   | 4%nat => bad_padding p left' 4
   | 5%nat => bad_padding p left' 3
   | 7%nat => bad_padding p left' 1
   | _ => true
   end).
Definition DecodeBase32 (p : bytes) : bytes * bool := DecodeBase32_end (DecodeBase32_loop p [] 0 0).

(** ** Proofs *)

(** A closed property of all small integers is checked by evaluation. *)
Lemma forall_below (n : nat) (p : Z → bool) x :
  forallb (λ i, p (Z.of_nat i)) (seq 0 n) = true → 0 ≤ x < Z.of_nat n → p x = true.
Proof.
  intros Hp Hx. rewrite forallb_forall in Hp. specialize (Hp (Z.to_nat x)).
  rewrite in_seq, Z2Nat.id in Hp by lia. apply Hp. lia.
Qed.

(** Bit fields as arithmetic. *)
Lemma shl_lor x y n : 0 ≤ n → 0 ≤ y < 2 ^ n → Z.lor (Z.shiftl x n) y = x * 2 ^ n + y.
Proof. intros. rewrite Z.lor_comm, lor_add_disjoint by done. lia. Qed.
Lemma land_mask x n m : m = Z.ones n → 0 ≤ n → Z.land x m = x mod 2 ^ n.
Proof. intros -> ?. by apply Z.land_ones. Qed.
Lemma shr_div x n : 0 ≤ n → Z.shiftr x n = x / 2 ^ n.
Proof. apply Z.shiftr_div_pow2. Qed.
Ltac fields :=
  rewrite ?(land_mask _ 1 1), ?(land_mask _ 2 3), ?(land_mask _ 3 7), ?(land_mask _ 4 15), ?(land_mask _ 5 31), ?(land_mask _ 6 63) by (reflexivity || lia);
  rewrite ?shr_div by lia;
  repeat match goal with |- context [Z.lor (Z.shiftl ?x ?n) ?y] => rewrite (shl_lor x y n) by (rewrite ?Z.shiftl_mul_pow2 by lia; cbn; zlin) end;
  rewrite ?Z.shiftl_mul_pow2 by lia; unfold u8; cbn; zlin.

(** Characters of the alphabets. *)
Lemma HexDigit_hexmap d : 0 ≤ d < 16 →
  HexDigit (nth (Z.to_nat d) hexmap 0) = d ∧ isspace (nth (Z.to_nat d) hexmap 0) = false ∧
  nth (Z.to_nat d) hexmap 0 ≠ 0.
Proof.
  intros Hd. pose proof (forall_below 16 (λ d, (HexDigit (nth (Z.to_nat d) hexmap 0) =? d)
    && negb (isspace (nth (Z.to_nat d) hexmap 0)) && negb (nth (Z.to_nat d) hexmap 0 =? 0)) d eq_refl Hd) as H.
  cbv beta in H. rewrite !andb_true_iff, !negb_true_iff in H. destruct H as [[H1 H2] H3]. split_and!; [lia|done|lia].
Qed.
Lemma dec_enc64 i : 0 ≤ i < 64 → dec64 (enc64 i) = i.
Proof.
  intros Hi. pose proof (forall_below 64 (λ d, dec64 (enc64 d) =? d) i eq_refl Hi) as H. cbv beta in H. lia.
Qed.
Lemma dec_enc32 i : 0 ≤ i < 32 → dec32 (enc32 i) = i.
Proof.
  intros Hi. pose proof (forall_below 32 (λ d, dec32 (enc32 d) =? d) i eq_refl Hi) as H. cbv beta in H. lia.
Qed.
Lemma HexDigit_range c : -1 ≤ HexDigit c < 16.
Proof.
  pose proof (forall_below 256 (λ d, (-1 <=? HexDigit d) && (HexDigit d <? 16)) (u8 c) eq_refl (u8_range c)) as H.
  cbv beta in H. unfold HexDigit in H |- *. rewrite (u8_small (u8 c)) in H by apply u8_range. lia.
Qed.

(** *** Base 64: three bytes, four characters *)
Definition quad64 (a b c : Z) : bytes :=
  [enc64 (Z.shiftr a 2); enc64 (Z.lor (Z.shiftl (Z.land a 3) 4) (Z.shiftr b 4));
   enc64 (Z.lor (Z.shiftl (Z.land b 15) 2) (Z.shiftr c 6)); enc64 (Z.land c 63)].

(** Decoding one character of the alphabet. *)
Lemma DecodeBase64_enc i s ret mode l :
  0 ≤ i < 64 →
  DecodeBase64_loop (enc64 i :: s) ret mode l =
  match mode with
  | 0%nat => DecodeBase64_loop s ret 1 i
  | 1%nat => DecodeBase64_loop s (ret ++ [u8 (Z.lor (Z.shiftl l 2) (Z.shiftr i 4))]) 2 (Z.land i 15)
  | 2%nat => DecodeBase64_loop s (ret ++ [u8 (Z.lor (Z.shiftl l 4) (Z.shiftr i 2))]) 3 (Z.land i 3)
  | _ => DecodeBase64_loop s (ret ++ [u8 (Z.lor (Z.shiftl l 6) i)]) 0 l
  end.
Proof.
  intros Hi. cbn [DecodeBase64_loop]. rewrite dec_enc64 by done. by replace (i =? -1) with false by lia.
Qed.

Lemma DecodeBase64_pad s ret mode l : DecodeBase64_loop (61 :: s) ret mode l = (61 :: s, ret, mode, l).
Proof. reflexivity. Qed.
Lemma eqb_zero x : x = 0 → (x =? 0) = true.
Proof. lia. Qed.

Lemma DecodeBase64_quad a b c s ret l :
  is_u8 a → is_u8 b → is_u8 c →
  ∃ l', DecodeBase64_loop (quad64 a b c ++ s) ret 0 l = DecodeBase64_loop s (ret ++ [a; b; c]) 0 l'.
Proof.
  unfold is_u8. intros Ha Hb Hc. unfold quad64. cbn [app].
  rewrite !DecodeBase64_enc by fields. rewrite <- !app_assoc. cbn [app]. eexists. do 3 f_equal; [fields|]. f_equal; [fields|]. f_equal. fields.
Qed.

Lemma triples_ind (P : bytes → Prop) :
  P [] → (∀ a, P [a]) → (∀ a b, P [a; b]) → (∀ a b c r, P r → P (a :: b :: c :: r)) → ∀ l, P l.
Proof.
  intros H0 H1 H2 H3. fix IH 1. intros [|a [|b [|c r]]]; [done|done|done|]. apply H3, IH.
Qed.

(** The encoder's output in groups. *)
Fixpoint groups64 (v : bytes) : bytes :=
  match v with
  | [] => []
  | [a] => [enc64 (Z.shiftr a 2); enc64 (Z.shiftl (Z.land a 3) 4); 61; 61]
  | [a; b] => [enc64 (Z.shiftr a 2); enc64 (Z.lor (Z.shiftl (Z.land a 3) 4) (Z.shiftr b 4)); enc64 (Z.shiftl (Z.land b 15) 2); 61]
  | a :: b :: c :: r => quad64 a b c ++ groups64 r
  end.

Lemma EncodeBase64_groups v ret l : EncodeBase64_end (EncodeBase64_loop v ret 0 l) = ret ++ groups64 v.
Proof.
  revert ret l. induction v as [|a|a b|a b c r IH] using triples_ind; intros ret l;
    cbn [EncodeBase64_loop EncodeBase64_end groups64]; rewrite ?app_nil_r, <- ?app_assoc; try done.
  rewrite IH, <- !app_assoc. reflexivity.
Qed.

Lemma DecodeBase64_groups v dst l :
  bytes_ok v → DecodeBase64_end (DecodeBase64_loop (groups64 v) dst 0 l) = (dst ++ v, false).
Proof.
  revert dst l. induction v as [|a|a b|a b c r IH] using triples_ind; intros dst l Hv; cbn [groups64];
    rewrite ?bytes_ok_cons in Hv; unfold is_u8 in Hv.
  - cbn. by rewrite app_nil_r.
  - rewrite !DecodeBase64_enc, DecodeBase64_pad by fields. cbn [DecodeBase64_end].
    rewrite eqb_zero by fields. f_equal. do 2 f_equal. fields.
  - rewrite !DecodeBase64_enc, DecodeBase64_pad by fields. cbn [DecodeBase64_end].
    rewrite eqb_zero, <- app_assoc by fields. cbn [app]. f_equal. do 2 f_equal; [fields|]. f_equal. fields.
  - destruct (DecodeBase64_quad a b c (groups64 r) dst l) as [l' ->]; [word_lia..|].
    rewrite IH, <- app_assoc by apply Hv. done.
Qed.


(** *** Base 32: five bytes, eight characters *)
Lemma DecodeBase32_enc i s ret mode l :
  0 ≤ i < 32 →
  DecodeBase32_loop (enc32 i :: s) ret mode l =
  match mode with
  | 0%nat => DecodeBase32_loop s ret 1 i
  | 1%nat => DecodeBase32_loop s (ret ++ [u8 (Z.lor (Z.shiftl l 3) (Z.shiftr i 2))]) 2 (Z.land i 3)
  | 2%nat => DecodeBase32_loop s ret 3 (Z.lor (Z.shiftl l 5) i)
  | 3%nat => DecodeBase32_loop s (ret ++ [u8 (Z.lor (Z.shiftl l 1) (Z.shiftr i 4))]) 4 (Z.land i 15)
  | 4%nat => DecodeBase32_loop s (ret ++ [u8 (Z.lor (Z.shiftl l 4) (Z.shiftr i 1))]) 5 (Z.land i 1)
  | 5%nat => DecodeBase32_loop s ret 6 (Z.lor (Z.shiftl l 5) i)
  | 6%nat => DecodeBase32_loop s (ret ++ [u8 (Z.lor (Z.shiftl l 2) (Z.shiftr i 3))]) 7 (Z.land i 7)
  | _ => DecodeBase32_loop s (ret ++ [u8 (Z.lor (Z.shiftl l 5) i)]) 0 l
  end.
Proof.
  intros Hi. cbn [DecodeBase32_loop]. rewrite dec_enc32 by done. by replace (i =? -1) with false by lia.
Qed.
Lemma DecodeBase32_pad s ret mode l : DecodeBase32_loop (61 :: s) ret mode l = (61 :: s, ret, mode, l).
Proof. reflexivity. Qed.
Lemma bad_padding_ok k l : (k < 8)%nat → l = 0 → bad_padding (replicate k 61) l k = false.
Proof. intros Hk ->. do 8 (destruct k as [|k]; [reflexivity|]). lia. Qed.

Lemma quintuples_ind (P : bytes → Prop) :
  P [] → (∀ a, P [a]) → (∀ a b, P [a; b]) → (∀ a b c, P [a; b; c]) → (∀ a b c d, P [a; b; c; d]) →
  (∀ a b c d e r, P r → P (a :: b :: c :: d :: e :: r)) → ∀ l, P l.
Proof.
  intros H0 H1 H2 H3 H4 H5. fix IH 1. intros [|a [|b [|c [|d [|e r]]]]]; [done..|]. apply H5, IH.
Qed.

(** The eight characters of five bytes; a short group uses a prefix. *)
Definition oct32 (a b c d e : Z) : bytes :=
  [enc32 (Z.shiftr a 3); enc32 (Z.lor (Z.shiftl (Z.land a 7) 2) (Z.shiftr b 6)); enc32 (Z.land (Z.shiftr b 1) 31);
   enc32 (Z.lor (Z.shiftl (Z.land b 1) 4) (Z.shiftr c 4)); enc32 (Z.lor (Z.shiftl (Z.land c 15) 1) (Z.shiftr d 7));
   enc32 (Z.land (Z.shiftr d 2) 31); enc32 (Z.lor (Z.shiftl (Z.land d 3) 3) (Z.shiftr e 5)); enc32 (Z.land e 31)].
Fixpoint groups32 (v : bytes) : bytes :=
  match v with
  | [] => []
  | [a] => take 1 (oct32 a 0 0 0 0) ++ [enc32 (Z.shiftl (Z.land a 7) 2)] ++ replicate 6 61
  | [a; b] => take 3 (oct32 a b 0 0 0) ++ [enc32 (Z.shiftl (Z.land b 1) 4)] ++ replicate 4 61
  | [a; b; c] => take 4 (oct32 a b c 0 0) ++ [enc32 (Z.shiftl (Z.land c 15) 1)] ++ replicate 3 61
  | [a; b; c; d] => take 6 (oct32 a b c d 0) ++ [enc32 (Z.shiftl (Z.land d 3) 3)] ++ replicate 1 61
  | a :: b :: c :: d :: e :: r => oct32 a b c d e ++ groups32 r
  end.

Lemma EncodeBase32_groups v ret l : EncodeBase32_end (EncodeBase32_loop v ret 0 l) = ret ++ groups32 v.
Proof.
  revert ret l. induction v as [|a|a b|a b c|a b c d|a b c d e r IH] using quintuples_ind; intros ret l;
    cbn [EncodeBase32_loop EncodeBase32_end groups32]; rewrite ?app_nil_r, <- ?app_assoc; try done.
  rewrite IH, <- !app_assoc. reflexivity.
Qed.

(** The bytes of a group, equal entry by entry. *)
Ltac same_bytes := repeat lazymatch goal with
  | |- (_ :: _) = (_ :: _) => refine (f_equal2 cons _ _); [fields|]
  | |- ?l = ?l => reflexivity
  end.

Lemma DecodeBase32_oct a b c d e s ret l :
  is_u8 a → is_u8 b → is_u8 c → is_u8 d → is_u8 e →
  ∃ l', DecodeBase32_loop (oct32 a b c d e ++ s) ret 0 l = DecodeBase32_loop s (ret ++ [a; b; c; d; e]) 0 l'.
Proof.
  unfold is_u8. intros Ha Hb Hc Hd He. unfold oct32. cbn [app].
  rewrite !DecodeBase32_enc by fields. rewrite <- !app_assoc. cbn [app]. eexists. do 2 f_equal. same_bytes.
Qed.

Lemma DecodeBase32_groups v dst l :
  bytes_ok v → DecodeBase32_end (DecodeBase32_loop (groups32 v) dst 0 l) = (dst ++ v, false).
Proof.
  revert dst l. induction v as [|a|a b|a b c|a b c d|a b c d e r IH] using quintuples_ind; intros dst l Hv; cbn [groups32];
    rewrite ?bytes_ok_cons in Hv; unfold is_u8 in Hv.
  1: cbn; by rewrite app_nil_r.
  5: { destruct (DecodeBase32_oct a b c d e (groups32 r) dst l) as [l' ->]; [word_lia..|].
    rewrite IH, <- app_assoc by apply Hv. done. }
  all: unfold oct32; cbn [take app].
  all: rewrite !DecodeBase32_enc by fields; cbn [replicate]; rewrite DecodeBase32_pad; cbn [DecodeBase32_end].
  1: rewrite (bad_padding_ok 6) by (lia || fields).
  2: rewrite (bad_padding_ok 4) by (lia || fields).
  3: rewrite (bad_padding_ok 3) by (lia || fields).
  4: rewrite (bad_padding_ok 1) by (lia || fields).
  all: rewrite <- ?app_assoc; cbn [app]; do 2 f_equal; same_bytes.
Qed.

(** *** Hexadecimal *)
Definition pair (b : Z) : bytes :=
  [nth (Z.to_nat (Z.shiftr b 4)) hexmap 0; nth (Z.to_nat (Z.land b 15)) hexmap 0].

Lemma nibbles b : is_u8 b → 0 ≤ Z.shiftr b 4 < 16 ∧ 0 ≤ Z.land b 15 < 16 ∧
  Z.lor (u8 (Z.shiftl (Z.shiftr b 4) 4)) (Z.land b 15) = b.
Proof.
  unfold is_u8. intros Hb. assert (H : 0 ≤ Z.shiftr b 4 < 16) by fields. split_and!; [fields..|].
  rewrite u8_small by (unfold is_u8; fields). fields.
Qed.

(** What a hexadecimal string consists of. *)
Definition hexchar (c : Z) : Prop := ∃ d, 0 ≤ d < 16 ∧ c = nth (Z.to_nat d) hexmap 0.
Lemma pair_hexchars b : is_u8 b → Forall hexchar (pair b).
Proof. intros Hb. destruct (nibbles b Hb) as (H1 & H2 & _). constructor; [by exists (Z.shiftr b 4)|]. constructor; [by exists (Z.land b 15)|constructor]. Qed.
Lemma pairs_hexchars v : bytes_ok v → Forall hexchar (concat (map pair v)).
Proof.
  induction v as [|b v IH]; intros Hv; [constructor|]. apply bytes_ok_cons in Hv as [Hb Hv].
  cbn [map concat]. apply Forall_app; auto using pair_hexchars.
Qed.
Lemma take_while_all p s : Forall (λ c, p c = true) s → take_while p s = s.
Proof. induction 1 as [|c s Hc _ IH]; cbn; [done|]. by rewrite Hc, IH. Qed.
Lemma c_str_hexchars s : Forall (λ c, hexchar c ∨ c = 32) s → c_str s = s.
Proof.
  intros Hs. apply take_while_all. eapply List.Forall_impl; [|exact Hs]. intros c [(d & Hd & ->)| ->]; [|done].
  destruct (HexDigit_hexmap d Hd) as (_ & _ & H0). lia.
Qed.

Lemma hex_chars_hexchars s : Forall hexchar s → hex_chars s = s.
Proof.
  intros Hs. unfold hex_chars.
  assert (skip_while isspace s = s) as ->.
  { destruct Hs as [|c s (d & Hd & ->) _]; cbn [skip_while]; [done|]. by destruct (HexDigit_hexmap d Hd) as (_ & -> & _). }
  assert (skip_0x s = s) as ->.
  { unfold skip_0x. destruct s as [|a [|b s]]; [done|by rewrite andb_false_r|].
    inversion Hs as [|? ? _ H']; subst. inversion H' as [|? ? (d & Hd & ->) _]; subst.
    change (char_at _ 1) with (nth (Z.to_nat d) hexmap 0).
    pose proof (forall_below 16 (λ d, negb (tolower (nth (Z.to_nat d) hexmap 0) =? 120)) d eq_refl Hd) as H.
    cbv beta in H. apply negb_true_iff in H. by rewrite H, andb_false_r. }
  apply take_while_all. eapply List.Forall_impl; [|exact Hs]. intros c (d & Hd & ->).
  destruct (HexDigit_hexmap d Hd) as (-> & _). by replace (d =? -1) with false by lia.
Qed.

Lemma HexStr_pairs first v : HexStr_loop false first v = concat (map pair v).
Proof. revert first. induction v as [|b v IH]; intros first; [done|]. cbn [HexStr_loop map concat andb]. by rewrite IH. Qed.

Lemma ParseHex_pair b s acc : is_u8 b → ParseHex_loop (pair b ++ s) acc = ParseHex_loop s (acc ++ [b]).
Proof.
  intros Hb. destruct (nibbles b Hb) as (H1 & H2 & H3). unfold pair. cbn [app ParseHex_loop].
  destruct (HexDigit_hexmap _ H1) as (-> & -> & _). destruct (HexDigit_hexmap _ H2) as (-> & _ & _).
  rewrite H3. by replace (_ =? -1) with false by lia; replace (Z.land b 15 =? -1) with false by lia.
Qed.
Lemma ParseHex_space s acc : ParseHex_loop (32 :: s) acc = ParseHex_loop s acc.
Proof. reflexivity. Qed.

Lemma ParseHex_HexStr sp first v acc :
  bytes_ok v → ParseHex_loop (HexStr_loop sp first v) acc = acc ++ v.
Proof.
  revert first acc. induction v as [|b v IH]; intros first acc Hv; [by rewrite app_nil_r|].
  apply bytes_ok_cons in Hv as [Hb Hv]. cbn [HexStr_loop]. fold (pair b).
  destruct (sp && negb first); cbn [app]; rewrite ?ParseHex_space, (ParseHex_pair b), IH, <- app_assoc by done; done.
Qed.

Lemma HexStr_chars sp first v : bytes_ok v → Forall (λ c, hexchar c ∨ c = 32) (HexStr_loop sp first v).
Proof.
  revert first. induction v as [|b v IH]; intros first Hv; [constructor|]. apply bytes_ok_cons in Hv as [Hb Hv].
  cbn [HexStr_loop]. fold (pair b). apply Forall_app. split; [destruct (sp && negb first); [constructor; [by right|]|]; constructor|].
  apply Forall_app. split; [|by apply IH]. eapply List.Forall_impl; [|by apply pair_hexchars]. by left.
Qed.

(** The digits, last first, are the number in base 16. *)
Lemma SetHex_loop_spec W ds :
  Forall (λ c, 0 ≤ HexDigit c) ds →
  length (SetHex_loop W ds) = W ∧ bytes_ok (SetHex_loop W ds) ∧
  from_digits 256 (SetHex_loop W ds) = from_digits 16 (map HexDigit ds) mod 256 ^ Z.of_nat W.
Proof.
  assert (Hzeros : ∀ n, bytes_ok (replicate n 0)).
  { induction n as [|n IH]; [constructor|]. constructor; [lia|exact IH]. }
  assert (Hlen : ∀ n, length (replicate n 0) = n) by (intros; apply length_replicate).
  revert ds. induction W as [|w IH]; intros ds Hds.
  { split_and!; [done|apply bytes_ok_nil|]. change (256 ^ Z.of_nat 0) with 1. by rewrite Z.mod_1_r. }
  assert (HP : 256 ^ Z.of_nat (S w) = 256 * 256 ^ Z.of_nat w) by (rewrite Nat2Z.inj_succ, Z.pow_succ_r by lia; done).
  assert (Hpos : 0 < 256 ^ Z.of_nat w) by (apply Z.pow_pos_nonneg; lia).
  destruct ds as [|d [|e ds]]; cbn [SetHex_loop map from_digits].
  - split_and!; [apply Hlen|apply (Hzeros (S w))|]. by rewrite (from_digits_zeros 256 (S w)), Z.mod_0_l by lia.
  - pose proof (HexDigit_range d). inversion Hds; subst. rewrite u8_small by word_lia. cbn [length].
    split_and!; [by rewrite Hlen|apply bytes_ok_cons; split; [word_lia|apply Hzeros]|].
    cbn [from_digits]. rewrite from_digits_zeros, Z.mod_small by (rewrite HP; nia). lia.
  - pose proof (HexDigit_range d). pose proof (HexDigit_range e). inversion Hds as [|? ? Hd Hds']; subst. inversion Hds' as [|? ? He Hr]; subst.
    rewrite (u8_small (HexDigit d)), (u8_small (HexDigit e)), (u8_small (Z.shiftl _ _)) by (unfold is_u8; rewrite ?Z.shiftl_mul_pow2; lia).
    rewrite lor_add_disjoint by lia.
    destruct (IH ds Hr) as (I1 & I2 & I3). cbn [length]. split_and!; [by rewrite I1|apply bytes_ok_cons; split; [word_lia|done]|].
    cbn [from_digits]. rewrite I3. set (X := from_digits 16 (map HexDigit ds)) in *. rewrite HP.
    set (A := HexDigit d + HexDigit e * 2 ^ 4). assert (HA : 0 ≤ A < 256) by (unfold A; lia).
    replace (HexDigit d + 16 * (HexDigit e + 16 * X)) with (A + X * 256) by (unfold A; lia).
    rewrite Z.rem_mul_r, Z.mod_add, Z.div_add by lia. by rewrite (Z.mod_small A), (Z.div_small A) by done.
Qed.

Lemma SetHex_loop_pairs data :
  bytes_ok data → SetHex_loop (length data) (rev (concat (map pair (rev data)))) = data.
Proof.
  induction data as [|b data IH]; intros Hv; [done|]. apply bytes_ok_cons in Hv as [Hb Hv].
  cbn [rev length]. rewrite map_app, concat_app. cbn [map concat]. rewrite app_nil_r, rev_app_distr.
  destruct (nibbles b Hb) as (N1 & N2 & N3).
  change (rev (pair b)) with [nth (Z.to_nat (Z.land b 15)) hexmap 0; nth (Z.to_nat (Z.shiftr b 4)) hexmap 0].
  cbn [app SetHex_loop]. destruct (HexDigit_hexmap _ N1) as [-> _]. destruct (HexDigit_hexmap _ N2) as [-> _].
  rewrite IH, (u8_small (Z.land b 15)), (u8_small (Z.shiftr b 4)), Z.lor_comm by (done || word_lia). by rewrite N3.
Qed.

Lemma SetHex_pairs data : bytes_ok data → SetHex (length data) (concat (map pair (rev data))) = data.
Proof.
  intros Hd. unfold SetHex. assert (Hh : Forall hexchar (concat (map pair (rev data)))) by (apply pairs_hexchars; by apply Forall_rev).
  rewrite c_str_hexchars, hex_chars_hexchars by (done || (eapply List.Forall_impl; [|exact Hh]; by left)).
  by apply SetHex_loop_pairs.
Qed.

(** The value read: the digits modulo the width. *)
Lemma take_while_Forall p s : Forall (λ c, p c = true) (take_while p s).
Proof. induction s as [|c s IH]; cbn [take_while]; [constructor|]. destruct (p c) eqn:E; constructor; done. Qed.
Lemma SetHex_value W s :
  length (SetHex W s) = W ∧ bytes_ok (SetHex W s) ∧
  from_digits 256 (SetHex W s) = from_digits 16 (map HexDigit (rev (hex_chars (c_str s)))) mod 256 ^ Z.of_nat W.
Proof.
  apply SetHex_loop_spec. apply Forall_rev. eapply List.Forall_impl; [|apply take_while_Forall].
  intros c Hc. cbv beta in Hc. pose proof (HexDigit_range c). lia.
Qed.

(** ** Properties *)

(** Hexadecimal round trips.  A blob is read back from [GetHex] by [SetHex]
    and from [GetReverseHex] by [SetReverseHex]; a byte string is read back from
    [HexStr], with or without spaces, by [ParseHex]; and [IsHex] accepts exactly
    the nonempty outputs. *)
Theorem hex_roundtrip (data : bytes) (fSpaces : bool) :
  bytes_ok data →
  SetHex (length data) (GetHex data) = data ∧
  SetReverseHex (length data) (GetReverseHex data) = data ∧
  ParseHex (HexStr data fSpaces) = data ∧
  IsHex (HexStr data false) = negb (length data =? 0)%nat.
Proof.
  intros Hd. split_and!.
  - unfold GetHex, HexStr. rewrite HexStr_pairs. by apply SetHex_pairs.
  - unfold SetReverseHex. change (GetReverseHex data) with (concat (map pair data)).
    rewrite <- (rev_involutive data) at 2. rewrite <- length_rev, SetHex_pairs by (by apply Forall_rev). apply rev_involutive.
  - unfold ParseHex, HexStr. rewrite c_str_hexchars by (by apply HexStr_chars). by rewrite ParseHex_HexStr.
  - unfold HexStr, IsHex. rewrite HexStr_pairs.
    assert (Hl : length (concat (map pair data)) = (length data * 2)%nat).
    { clear. induction data as [|b v IH]; [done|]. cbn [map concat length pair app]. rewrite IH. lia. }
    rewrite Hl, Nat.Div0.mod_mul. rewrite (proj2 (forallb_forall _ _)); [destruct data; done|].
    intros c Hc. pose proof (pairs_hexchars data Hd) as Hh. rewrite List.Forall_forall in Hh. destruct (Hh c Hc) as (d & Hd' & ->).
    destruct (HexDigit_hexmap d Hd') as (-> & _). lia.
Qed.

Lemma hex_roundtrip_witness :
  GetHex [0x12; 0xab] = str "ab12" ∧
  SetHex 2 (GetHex [0x12; 0xab]) = [0x12; 0xab] ∧ SetReverseHex 2 (GetReverseHex [0x12; 0xab]) = [0x12; 0xab] ∧
  ParseHex (HexStr [0x12; 0xab] true) = [0x12; 0xab] ∧ IsHex (HexStr [0x12; 0xab] false) = true.
Proof.
  split; [reflexivity|]. apply (hex_roundtrip [0x12; 0xab] true).
  apply bytes_ok_cons; split; [word_lia|]. apply bytes_ok_1. word_lia.
Defined.

(** Base 64 and base 32 round trips: the decoders return every byte string
    the encoders were given and accept the padding. *)
Theorem base64_base32_roundtrip (v : bytes) :
  bytes_ok v → DecodeBase64 (EncodeBase64 v) = (v, false) ∧ DecodeBase32 (EncodeBase32 v) = (v, false).
Proof.
  intros Hv. unfold EncodeBase64, EncodeBase32, DecodeBase64, DecodeBase32.
  rewrite EncodeBase64_groups, EncodeBase32_groups. cbn [app].
  by rewrite DecodeBase64_groups, DecodeBase32_groups.
Qed.

Lemma base64_base32_roundtrip_witness :
  EncodeBase64 (str "Ma") = str "TWE=" ∧ EncodeBase32 (str "Ma") = str "jvqq====" ∧
  DecodeBase64 (EncodeBase64 (str "Ma")) = (str "Ma", false) ∧ DecodeBase32 (EncodeBase32 (str "Ma")) = (str "Ma", false).
Proof.
  split; [reflexivity|]. split; [reflexivity|]. apply (base64_base32_roundtrip (str "Ma")).
  change (str "Ma") with [77; 97]. (apply bytes_ok_cons; split; [word_lia|]; apply bytes_ok_1; word_lia).
Defined.
