(* ===== verification/Endian.v ===== *)
(** * Fixed-width integers in memory (src/src/crypto/common.h) and bit rotation

    The conversion functions between integers and byte arrays; a byte array is
    the list of its bytes from the lowest address. *)

From stdpp Require Import base numbers list.
From Stdlib Require Import ZArith Lia ZifyNat.
From S2P Require Import Prelude.

Definition ReadLE16 (p : bytes) : Z := from_digits 256 (take 2 p).
Definition ReadLE32 (p : bytes) : Z := from_digits 256 (take 4 p).
Definition ReadLE64 (p : bytes) : Z := from_digits 256 (take 8 p).
Definition WriteLE16 (x : Z) : bytes := to_digits 256 2 x.
Definition WriteLE32 (x : Z) : bytes := to_digits 256 4 x.
Definition WriteLE64 (x : Z) : bytes := to_digits 256 8 x.
Definition ReadBE32 (p : bytes) : Z := from_digits 256 (rev (take 4 p)).
Definition ReadBE64 (p : bytes) : Z := from_digits 256 (rev (take 8 p)).
Definition WriteBE32 (x : Z) : bytes := rev (to_digits 256 4 x).
Definition WriteBE64 (x : Z) : bytes := rev (to_digits 256 8 x).

(** [CountBits]: the shift loop, at most 64 iterations. *)
Fixpoint CountBits_loop (fuel : nat) (x ret : Z) : Z :=
  match fuel with
  | O => ret
  | S fuel' => if x =? 0 then ret else CountBits_loop fuel' (Z.shiftr x 1) (ret + 1)
  end.
Definition CountBits (x : Z) : Z := CountBits_loop 65 x 0.

(** ** Lengths and round trips *)

Lemma length_WriteBE32 x : length (WriteBE32 x) = 4%nat.
Proof. unfold WriteBE32. by rewrite length_rev, length_to_digits. Qed.
Lemma length_WriteBE64 x : length (WriteBE64 x) = 8%nat.
Proof. unfold WriteBE64. by rewrite length_rev, length_to_digits. Qed.
Lemma length_WriteLE64 x : length (WriteLE64 x) = 8%nat.
Proof. apply length_to_digits. Qed.

Lemma from_digits_u32 l : bytes_ok l → (length l ≤ 4)%nat → is_u32 (from_digits 256 l).
Proof.
  intros Hl Hn. pose proof (from_digits_bound 256 ltac:(lia) l Hl).
  assert (256 ^ Z.of_nat (length l) ≤ 256 ^ 4) by (apply Z.pow_le_mono_r; lia).
  change (256 ^ 4) with 4294967296 in *. word_lia.
Qed.

Lemma from_digits_u64 l : bytes_ok l → (length l ≤ 8)%nat → is_u64 (from_digits 256 l).
Proof.
  intros Hl Hn. pose proof (from_digits_bound 256 ltac:(lia) l Hl).
  assert (256 ^ Z.of_nat (length l) ≤ 256 ^ 8) by (apply Z.pow_le_mono_r; lia).
  change (256 ^ 8) with 18446744073709551616 in *. word_lia.
Qed.

Lemma rev_bytes_ok l : bytes_ok l → bytes_ok (rev l).
Proof. apply Forall_rev. Qed.

Lemma ReadBE32_u32 p : bytes_ok p → is_u32 (ReadBE32 p).
Proof.
  intros Hp. apply from_digits_u32; [by apply rev_bytes_ok, Forall_take|].
  rewrite length_rev, length_take. lia.
Qed.
Lemma ReadBE64_u64 p : bytes_ok p → is_u64 (ReadBE64 p).
Proof.
  intros Hp. apply from_digits_u64; [by apply rev_bytes_ok, Forall_take|].
  rewrite length_rev, length_take. lia.
Qed.

Lemma WriteBE32_ok x : bytes_ok (WriteBE32 x).
Proof. apply rev_bytes_ok, to_digits_ok. lia. Qed.
Lemma WriteBE64_ok x : bytes_ok (WriteBE64 x).
Proof. apply rev_bytes_ok, to_digits_ok. lia. Qed.
Lemma WriteLE64_ok x : bytes_ok (WriteLE64 x).
Proof. apply to_digits_ok. lia. Qed.

Lemma ReadBE64_WriteBE64 x l : is_u64 x → ReadBE64 (WriteBE64 x ++ l) = x.
Proof.
  intros Hx. unfold ReadBE64, WriteBE64. rewrite take_app_length' by (by rewrite length_rev, length_to_digits).
  rewrite rev_involutive. apply to_digits_small; [lia|]. word_lia.
Qed.

Lemma ReadLE64_WriteLE64 x l : is_u64 x → ReadLE64 (WriteLE64 x ++ l) = x.
Proof.
  intros Hx. unfold ReadLE64, WriteLE64. rewrite take_app_length' by (by rewrite length_to_digits).
  apply to_digits_small; [lia|]. word_lia.
Qed.

Lemma CountBits_loop_spec fuel x ret :
  0 ≤ x < 2 ^ Z.of_nat fuel →
  CountBits_loop fuel x ret = ret + (if x =? 0 then 0 else Z.log2 x + 1).
Proof.
  revert x ret. induction fuel as [|fuel IH]; intros x ret Hx.
  - change (2 ^ Z.of_nat 0) with 1 in Hx. replace x with 0 by lia. simpl. lia.
  - cbn [CountBits_loop]. destruct (Z.eqb_spec x 0) as [->|Hne]; [lia|].
    rewrite Nat2Z.inj_succ, Z.pow_succ_r in Hx by lia.
    rewrite Z.shiftr_div_pow2 by lia. change (2 ^ 1) with 2.
    rewrite IH by zlin. destruct (Z.eqb_spec (x / 2) 0) as [E|E].
    + assert (x = 1) as -> by zlin. simpl. lia.
    + assert (0 < x / 2) by zlin.
      assert (Z.log2 x = Z.log2 (x / 2) + 1); [|lia].
      rewrite (Z.div_mod x 2) at 1 by lia.
      destruct (Z.mod_pos_bound x 2); [lia|].
      destruct (decide (x mod 2 = 0)) as [->|].
      * rewrite Z.add_0_r, Z.log2_double by lia. lia.
      * replace (x mod 2) with 1 by lia. rewrite Z.log2_succ_double by lia. lia.
Qed.

(** [CountBits] is the bit length. *)
Lemma CountBits_spec x : is_u64 x → CountBits x = if x =? 0 then 0 else Z.log2 x + 1.
Proof. intros Hx. unfold CountBits. rewrite CountBits_loop_spec; [lia|]. word_lia. Qed.
