(* ===== verification/ArithUint256.v ===== *)
(** * 256-bit unsigned arithmetic (src/src/arith_uint256.h, arith_uint256.cpp)

    [base_uint<256>] is an array of [WIDTH = 8] little-endian 32-bit limbs.
    Every operation below is the limb loop of the source; the lemmas relate it
    to arithmetic on the value [val] modulo [2^256], and the compact encoding
    of targets ([SetCompact], [GetCompact]) to its closed form. *)

From stdpp Require Import base numbers list option.
From Stdlib Require Import ZArith Lia ZifyNat.
From S2P Require Import Prelude Endian.

Abbreviation B32 := 4294967296.
Abbreviation limbs_ok := (digits_ok B32).
Abbreviation val := (from_digits B32).

Module Arith256.

Definition WIDTH : nat := 8.

(** Representation invariant of an [arith_uint256]. *)
Definition ok (a : list Z) : Prop := length a = WIDTH ∧ limbs_ok a.

(** ** Constructors and bitwise operators *)

Definition zero : list Z := replicate WIDTH 0.

Definition of_uint64 (b : Z) : list Z :=
  u32 b :: u32 (Z.shiftr b 32) :: replicate (WIDTH - 2) 0.

Definition is_zero (a : list Z) : bool := forallb (λ x, x =? 0) a.

Definition op_not (a : list Z) : list Z := map (λ x, u32 (Z.lnot x)) a.

Definition op_xor (a b : list Z) : list Z := zip_with Z.lxor a b.
Definition op_and (a b : list Z) : list Z := zip_with Z.land a b.
Definition op_or (a b : list Z) : list Z := zip_with Z.lor a b.

(** [operator++]: [while (i < WIDTH && ++pn[i] == 0) i++]. *)
Fixpoint op_inc (a : list Z) : list Z :=
  match a with
  | [] => []
  | x :: r => let x' := u32 (x + 1) in if x' =? 0 then x' :: op_inc r else x' :: r
  end.

(** [operator--]: [while (i < WIDTH && --pn[i] == (uint32_t)-1) i++]. *)
Fixpoint op_dec (a : list Z) : list Z :=
  match a with
  | [] => []
  | x :: r => let x' := u32 (x - 1) in if x' =? u32 (-1) then x' :: op_dec r else x' :: r
  end.

Definition op_neg (a : list Z) : list Z := op_inc (op_not a).

(** ** Addition, subtraction, multiplication *)

Fixpoint add_loop (carry : Z) (a b : list Z) : list Z :=
  match a, b with
  | x :: a', y :: b' =>
      let n := u64 (carry + x + y) in
      Z.land n 0xffffffff :: add_loop (Z.shiftr n 32) a' b'
  | _, _ => []
  end.

Definition add (a b : list Z) : list Z := add_loop 0 a b.
Definition sub (a b : list Z) : list Z := add a (op_neg b).

(** [operator*=(uint32_t b32)]. *)
Fixpoint mul32_loop (carry b32 : Z) (a : list Z) : list Z :=
  match a with
  | [] => []
  | x :: a' =>
      let n := u64 (carry + b32 * x) in
      Z.land n 0xffffffff :: mul32_loop (Z.shiftr n 32) b32 a'
  end.

Definition mul32 (a : list Z) (b32 : Z) : list Z := mul32_loop 0 b32 a.

(** [operator*=(const base_uint&)]: the inner loop over [i] for a fixed [j]
    updates [pn[j..WIDTH-1]]. *)
Fixpoint mul_row (carry aj : Z) (pn b : list Z) : list Z :=
  match pn, b with
  | p :: pn', y :: b' =>
      let n := u64 (carry + p + aj * y) in
      Z.land n 0xffffffff :: mul_row (Z.shiftr n 32) aj pn' b'
  | _, _ => []
  end.

Definition mul (a b : list Z) : list Z :=
  for_to WIDTH (λ j pn, take j pn ++ mul_row 0 (a !!! j) (drop j pn) b) zero.

(** ** Shifts *)

Definition shl (a : list Z) (shift : Z) : list Z :=
  let k := Z.to_nat (shift / 32) in
  let s := shift mod 32 in
  for_to WIDTH (λ i pn,
    let pn := if ((i + k + 1 <? WIDTH)%nat && negb (s =? 0))%bool
              then <[(i + k + 1)%nat := Z.lor (pn !!! (i + k + 1)%nat) (Z.shiftr (a !!! i) (32 - s))]> pn
              else pn in
    if (i + k <? WIDTH)%nat
    then <[(i + k)%nat := Z.lor (pn !!! (i + k)%nat) (u32 (Z.shiftl (a !!! i) s))]> pn
    else pn) zero.

Definition shr (a : list Z) (shift : Z) : list Z :=
  let k := Z.to_nat (shift / 32) in
  let s := shift mod 32 in
  for_to WIDTH (λ i pn,
    let pn := if ((k + 1 <=? i)%nat && negb (s =? 0))%bool
              then <[(i - k - 1)%nat := Z.lor (pn !!! (i - k - 1)%nat) (u32 (Z.shiftl (a !!! i) (32 - s)))]> pn
              else pn in
    if (k <=? i)%nat
    then <[(i - k)%nat := Z.lor (pn !!! (i - k)%nat) (Z.shiftr (a !!! i) s)]> pn
    else pn) zero.

(** ** Comparison, bit length, low word *)

(** The loop runs from the most significant limb down. *)
Fixpoint cmp_loop (ra rb : list Z) : Z :=
  match ra, rb with
  | x :: ra', y :: rb' => if x <? y then -1 else if y <? x then 1 else cmp_loop ra' rb'
  | _, _ => 0
  end.

Definition CompareTo (a b : list Z) : Z := cmp_loop (rev a) (rev b).

Definition EqualTo (a : list Z) (b : Z) : bool :=
  (forallb (λ x, x =? 0) (drop 2 a)) &&
  ((a !!! 1%nat) =? Z.shiftr b 32) &&
  ((a !!! 0%nat) =? Z.land b 0xffffffff).

(** [for (nbits = 31; nbits > 0; nbits--) if (pn[pos] & 1 << nbits) return ...]. *)
Fixpoint bits_limb (nbits : nat) (x : Z) : Z :=
  match nbits with
  | O => 1
  | S nb => if Z.land x (u32 (Z.shiftl 1 (Z.of_nat nbits))) =? 0
            then bits_limb nb x else Z.of_nat nbits + 1
  end.

(** [ra] holds [pn[pos], pn[pos-1], ..., pn[0]]. *)
Fixpoint bits_loop (ra : list Z) : Z :=
  match ra with
  | [] => 0
  | x :: ra' => if x =? 0 then bits_loop ra'
                else 32 * Z.of_nat (length ra') + bits_limb 31 x
  end.

Definition bits (a : list Z) : Z := bits_loop (rev a).

Definition GetLow64 (a : list Z) : Z :=
  Z.lor (a !!! 0%nat) (u64 (Z.shiftl (a !!! 1%nat) 32)).

(** ** Division: schoolbook, one bit at a time *)

Definition set_bit (pn : list Z) (shift : nat) : list Z :=
  let w := (shift / 32)%nat in
  <[w := Z.lor (pn !!! w) (u32 (Z.shiftl 1 (Z.land (Z.of_nat shift) 31)))]> pn.

(** [while (shift >= 0)]: [cnt] is [shift + 1]; returns the quotient and the
    remainder left in [num]. *)
Fixpoint div_loop (cnt : nat) (num div q : list Z) : list Z * list Z :=
  match cnt with
  | O => (q, num)
  | S shift =>
      let '(num, q) := if 0 <=? CompareTo num div
                       then (sub num div, set_bit q shift) else (num, q) in
      div_loop shift num (shr div 1) q
  end.

(** [None] is the [uint_error("Division by zero")] exception. *)
Definition div (a b : list Z) : option (list Z) :=
  let num_bits := bits a in
  let div_bits := bits b in
  if div_bits =? 0 then None
  else if num_bits <? div_bits then Some zero
  else
    let shift := num_bits - div_bits in
    Some (fst (div_loop (Z.to_nat (shift + 1)) a (shl b shift) zero)).

(** ** Compact targets *)

(** Returns the number, [*pfNegative] and [*pfOverflow]. *)
Definition SetCompact (nCompact : Z) : list Z * bool * bool :=
  let nSize := Z.shiftr nCompact 24 in
  let nWord := Z.land nCompact 0x007fffff in
  let '(nWord, this) :=
    if nSize <=? 3
    then let w := Z.shiftr nWord (8 * (3 - nSize)) in (w, of_uint64 w)
    else (nWord, shl (of_uint64 nWord) (8 * (nSize - 3))) in
  (this,
   negb (nWord =? 0) && negb (Z.land nCompact 0x00800000 =? 0),
   negb (nWord =? 0) && ((34 <? nSize) || ((0xff <? nWord) && (33 <? nSize)) ||
                         ((0xffff <? nWord) && (32 <? nSize))))%bool.

(** [None] is a failed [assert]. *)
Definition GetCompact (a : list Z) (fNegative : bool) : option Z :=
  let nSize := (bits a + 7) / 8 in
  let nCompact :=
    if nSize <=? 3 then u32 (u64 (Z.shiftl (GetLow64 a) (8 * (3 - nSize))))
    else u32 (GetLow64 (shr a (8 * (nSize - 3)))) in
  let '(nCompact, nSize) :=
    if negb (Z.land nCompact 0x00800000 =? 0)
    then (Z.shiftr nCompact 8, nSize + 1) else (nCompact, nSize) in
  if negb (Z.land nCompact (u32 (Z.lnot 0x007fffff)) =? 0) then None
  else if negb (nSize <? 256) then None
  else
    let nCompact := Z.lor nCompact (u32 (Z.shiftl nSize 24)) in
    Some (Z.lor nCompact
            (if fNegative && negb (Z.land nCompact 0x007fffff =? 0) then 0x00800000 else 0))%bool.

(** ** Conversion from and to the byte array [uint256] *)

Definition ArithToUint256 (a : list Z) : bytes := a ≫= WriteLE32.

Definition UintToArith256 (b : bytes) : list Z :=
  map (λ x, ReadLE32 (drop (x * 4) b)) (seq 0 WIDTH).

(** ** Proofs: ranges and values *)

Lemma land_mask32 n : 0 ≤ n → Z.land n 0xffffffff = n mod B32.
Proof. intros. change 0xffffffff with (Z.ones 32). by rewrite Z.land_ones. Qed.

Lemma shiftr32 n : Z.shiftr n 32 = n / B32.
Proof. by rewrite Z.shiftr_div_pow2. Qed.

(** A digit list with a known value up to a multiple of [B^n]. *)
Lemma val_mod_unique l x k :
  limbs_ok l → val l + B32 ^ Z.of_nat (length l) * k = x →
  val l = x mod B32 ^ Z.of_nat (length l).
Proof.
  intros Hok Heq. apply (Z.mod_unique_pos _ _ k); [|lia].
  by apply from_digits_bound.
Qed.

Lemma ok_zero : ok zero.
Proof. split; [done|]. repeat constructor; lia. Qed.

Lemma val_zero : val zero = 0.
Proof. done. Qed.

Lemma pow_width : B32 ^ Z.of_nat WIDTH = 2 ^ 256.
Proof. reflexivity. Qed.

Lemma ok_bound a : ok a → 0 ≤ val a < 2 ^ 256.
Proof.
  intros [Hl Ha]. rewrite <- pow_width, <- Hl. by apply from_digits_bound.
Qed.

Lemma ok_val_inj a b : ok a → ok b → val a = val b → a = b.
Proof.
  intros [Hla Ha] [Hlb Hb]. apply from_digits_inj; [lia|done|done|congruence].
Qed.

Lemma of_uint64_ok b : ok (of_uint64 b).
Proof.
  split; [done|]. unfold of_uint64. constructor; [apply u32_range|].
  constructor; [apply u32_range|]. repeat constructor; lia.
Qed.

Lemma val_of_uint64 b : is_u64 b → val (of_uint64 b) = b.
Proof.
  intros Hb. unfold of_uint64. cbn [from_digits].
  rewrite from_digits_zeros, shiftr32. unfold is_u64, u32 in *.
  rewrite (Z.mod_small (b / B32)) by zlin. zlin.
Qed.

(** *** Addition *)

Lemma add_loop_ok carry a b : limbs_ok (add_loop carry a b).
Proof.
  revert carry b. induction a as [|x a IH]; intros carry [|y b]; simpl; constructor.
  - rewrite land_mask32 by apply u64_range. apply Z.mod_pos_bound; lia.
  - apply IH.
Qed.

Lemma length_add_loop carry a b :
  length a = length b → length (add_loop carry a b) = length a.
Proof.
  revert carry b. induction a as [|x a IH]; intros carry [|y b] Hl; simplify_eq/=; auto.
Qed.

Lemma add_loop_val carry a b :
  limbs_ok a → limbs_ok b → length a = length b → 0 ≤ carry ≤ 1 →
  ∃ k, val (add_loop carry a b) + B32 ^ Z.of_nat (length a) * k = val a + val b + carry.
Proof.
  intros Ha. revert carry b. induction Ha as [|x a Hx Ha IH];
    intros carry [|y b] Hb Hl Hc; simplify_eq/=.
  - exists carry. lia.
  - inversion_clear Hb as [|? ? Hy Hb'].
    rewrite (u64_small (carry + x + y)) by (unfold is_u64; lia).
    rewrite land_mask32, shiftr32 by lia.
    destruct (IH ((carry + x + y) / B32) b) as [k Hk]; [done|done|zlin|].
    exists k. rewrite Nat2Z.inj_succ, Z.pow_succ_r by lia.
    assert (carry + x + y = (carry + x + y) mod B32 + B32 * ((carry + x + y) / B32))
      by zlin. lia.
Qed.

Lemma add_ok a b : ok a → ok b → ok (add a b).
Proof.
  intros [Hla _] [Hlb _]. split; [|apply add_loop_ok].
  unfold add. by rewrite length_add_loop by congruence.
Qed.

Lemma add_val a b : ok a → ok b → val (add a b) = (val a + val b) mod 2 ^ 256.
Proof.
  intros [Hla Ha] [Hlb Hb]. unfold add.
  destruct (add_loop_val 0 a b) as [k Hk]; [done|done|congruence|lia|].
  rewrite (val_mod_unique _ (val a + val b) k).
  - rewrite length_add_loop by congruence. by rewrite Hla.
  - apply add_loop_ok.
  - rewrite length_add_loop by congruence. lia.
Qed.

(** *** Complement, negation, subtraction *)

Lemma u32_lnot x : is_u32 x → u32 (Z.lnot x) = B32 - 1 - x.
Proof. unfold is_u32, u32, Z.lnot, Z.pred. intros. zlin. Qed.

Lemma op_not_ok a : ok a → ok (op_not a).
Proof.
  intros [Hl _]. split; [by unfold op_not; rewrite length_map|].
  apply Forall_map, Forall_true. intros. apply u32_range.
Qed.

Lemma op_not_val_gen a :
  limbs_ok a → val (op_not a) = B32 ^ Z.of_nat (length a) - 1 - val a.
Proof.
  induction 1 as [|x a Hx _ IH]; [done|]. cbn [op_not map from_digits length].
  fold (op_not a). rewrite IH, u32_lnot, Nat2Z.inj_succ, Z.pow_succ_r by (done || lia). lia.
Qed.

Lemma op_not_val a : ok a → val (op_not a) = 2 ^ 256 - 1 - val a.
Proof. intros [Hl Ha]. by rewrite op_not_val_gen, Hl by done. Qed.

Lemma op_inc_ok_gen a : limbs_ok a → limbs_ok (op_inc a).
Proof.
  induction 1 as [|x a Hx Ha IH]; simpl; [constructor|].
  case_match; constructor; auto; apply u32_range.
Qed.

Lemma length_op_inc a : length (op_inc a) = length a.
Proof. induction a as [|x a IH]; simpl; [done|]. case_match; simpl; congruence. Qed.

Lemma op_inc_val_gen a :
  limbs_ok a → ∃ k, val (op_inc a) + B32 ^ Z.of_nat (length a) * k = val a + 1.
Proof.
  induction 1 as [|x a Hx Ha [k IH]]; cbn [op_inc from_digits length]; [by exists 1|].
  rewrite Nat2Z.inj_succ, Z.pow_succ_r by lia. unfold u32.
  destruct (decide (x = B32 - 1)) as [->|Hne].
  - rewrite Z.mod_same by lia. cbn [Z.eqb from_digits]. exists k. lia.
  - rewrite (Z.mod_small (x + 1)) by lia.
    destruct (Z.eqb_spec (x + 1) 0); [lia|]. exists 0. cbn [from_digits]. lia.
Qed.

Lemma op_inc_ok a : ok a → ok (op_inc a).
Proof. intros [Hl Ha]. split; [by rewrite length_op_inc|by apply op_inc_ok_gen]. Qed.

Lemma op_inc_val a : ok a → val (op_inc a) = (val a + 1) mod 2 ^ 256.
Proof.
  intros [Hl Ha]. destruct (op_inc_val_gen a Ha) as [k Hk].
  rewrite (val_mod_unique _ (val a + 1) k).
  - by rewrite length_op_inc, Hl.
  - by apply op_inc_ok_gen.
  - by rewrite length_op_inc.
Qed.

Lemma op_neg_ok a : ok a → ok (op_neg a).
Proof. intros. by apply op_inc_ok, op_not_ok. Qed.

Lemma op_neg_val a : ok a → val (op_neg a) = (- val a) mod 2 ^ 256.
Proof.
  intros Ha. unfold op_neg. rewrite op_inc_val, op_not_val by auto using op_not_ok.
  replace (2 ^ 256 - 1 - val a + 1) with (- val a + 1 * 2 ^ 256) by lia.
  by rewrite Z.mod_add.
Qed.

Lemma sub_ok a b : ok a → ok b → ok (sub a b).
Proof. intros. by apply add_ok; [|apply op_neg_ok]. Qed.

Lemma sub_val a b : ok a → ok b → val (sub a b) = (val a - val b) mod 2 ^ 256.
Proof.
  intros Ha Hb. unfold sub. rewrite add_val, op_neg_val by auto using op_neg_ok.
  by rewrite Zplus_mod_idemp_r.
Qed.

Lemma sub_val_exact a b : ok a → ok b → val b ≤ val a → val (sub a b) = val a - val b.
Proof.
  intros Ha Hb Hle. rewrite sub_val by done. apply Z.mod_small.
  pose proof (ok_bound a Ha). pose proof (ok_bound b Hb). lia.
Qed.

(** *** Multiplication *)

Lemma mul32_loop_ok carry b32 a : limbs_ok (mul32_loop carry b32 a).
Proof.
  revert carry. induction a as [|x a IH]; intros carry; simpl; constructor; [|apply IH].
  rewrite land_mask32 by apply u64_range. apply Z.mod_pos_bound; lia.
Qed.

Lemma length_mul32_loop carry b32 a : length (mul32_loop carry b32 a) = length a.
Proof. revert carry. induction a; intros; simpl; auto. Qed.

Lemma mul32_loop_val carry b32 a :
  limbs_ok a → is_u32 b32 → is_u32 carry →
  ∃ k, val (mul32_loop carry b32 a) + B32 ^ Z.of_nat (length a) * k = carry + b32 * val a.
Proof.
  intros Ha Hb. revert carry.
  induction Ha as [|x a Hx Ha IH]; intros carry Hc; cbn [mul32_loop from_digits length].
  - exists carry. lia.
  - unfold is_u32 in *.
    rewrite (u64_small (carry + b32 * x)) by (unfold is_u64; nia).
    rewrite land_mask32, shiftr32 by nia.
    destruct (IH ((carry + b32 * x) / B32)) as [k Hk]; [zdiv|].
    exists k. rewrite Nat2Z.inj_succ, Z.pow_succ_r by lia.
    assert (carry + b32 * x = (carry + b32 * x) mod B32 + B32 * ((carry + b32 * x) / B32))
      by zlin. lia.
Qed.

Lemma mul32_ok a b32 : ok a → ok (mul32 a b32).
Proof.
  intros [Hl _]. split; [|apply mul32_loop_ok]. unfold mul32. by rewrite length_mul32_loop.
Qed.

Lemma mul32_val a b32 :
  ok a → is_u32 b32 → val (mul32 a b32) = (val a * b32) mod 2 ^ 256.
Proof.
  intros [Hl Ha] Hb. unfold mul32.
  destruct (mul32_loop_val 0 b32 a) as [k Hk]; [done|done|by split|].
  rewrite (val_mod_unique _ (val a * b32) k).
  - by rewrite length_mul32_loop, Hl.
  - apply mul32_loop_ok.
  - rewrite length_mul32_loop. lia.
Qed.

Lemma mul_row_ok carry aj pn b : limbs_ok (mul_row carry aj pn b).
Proof.
  revert carry b. induction pn as [|p pn IH]; intros carry [|y b]; simpl; constructor; [|apply IH].
  rewrite land_mask32 by apply u64_range. apply Z.mod_pos_bound; lia.
Qed.

Lemma length_mul_row carry aj pn b :
  (length pn ≤ length b)%nat → length (mul_row carry aj pn b) = length pn.
Proof.
  revert carry b. induction pn as [|p pn IH]; intros carry [|y b] Hl; simplify_eq/=; [done..|lia|].
  f_equal. apply IH. lia.
Qed.

Lemma mul_row_val carry aj pn b :
  limbs_ok pn → limbs_ok b → (length pn ≤ length b)%nat → is_u32 aj → is_u32 carry →
  ∃ k, val (mul_row carry aj pn b) + B32 ^ Z.of_nat (length pn) * k
       = carry + val pn + aj * val b.
Proof.
  intros Hp. revert carry b. induction Hp as [|p pn Hpx Hp IH]; intros carry b Hb Hl Haj Hc.
  - exists (carry + aj * val b). simpl. lia.
  - destruct b as [|y b]; [simpl in Hl; lia|]. inversion_clear Hb as [|? ? Hy Hb'].
    cbn [mul_row from_digits length]. unfold is_u32 in *.
    rewrite (u64_small (carry + p + aj * y)) by (unfold is_u64; nia).
    rewrite land_mask32, shiftr32 by nia.
    destruct (IH ((carry + p + aj * y) / B32) b) as [k Hk]; [done|simpl in Hl; lia|done|zdiv|].
    exists k. rewrite Nat2Z.inj_succ, Z.pow_succ_r by lia.
    assert (carry + p + aj * y = (carry + p + aj * y) mod B32 + B32 * ((carry + p + aj * y) / B32))
      by zlin. lia.
Qed.

Lemma limb_range a i : limbs_ok a → is_u32 (a !!! i).
Proof.
  intros Ha. rewrite list_lookup_total_alt. destruct (a !! i) as [x|] eqn:Hx; [|done].
  exact (Forall_lookup_1 _ _ _ _ Ha Hx).
Qed.

(** Splitting off the digits below position [j]. *)
Lemma val_take_drop j a :
  (j ≤ length a)%nat → val a = val (take j a) + B32 ^ Z.of_nat j * val (drop j a).
Proof.
  intros Hj. rewrite <- (take_drop j a) at 1.
  rewrite from_digits_app, length_take_le by done. done.
Qed.

Lemma val_take_S j a :
  (j < length a)%nat → val (take (S j) a) = val (take j a) + B32 ^ Z.of_nat j * (a !!! j).
Proof.
  intros Hj. destruct (lookup_lt_is_Some_2 a j Hj) as [x Hx].
  rewrite (take_S_r _ _ _ Hx), from_digits_app, length_take_le by lia.
  rewrite (list_lookup_total_correct _ _ _ Hx). simpl. lia.
Qed.

(** The outer loop: after [j] rows the accumulator holds the product of the low
    [j] limbs of [a] with [b]. *)
Lemma mul_loop_inv a b j :
  ok a → ok b → (j ≤ WIDTH)%nat →
  let pn := for_to j (λ j pn, take j pn ++ mul_row 0 (a !!! j) (drop j pn) b) zero in
  ok pn ∧ val pn = (val (take j a) * val b) mod 2 ^ 256.
Proof.
  intros [Hla Ha] [Hlb Hb] Hj pn.
  apply (for_from_inv (λ i pn, ok pn ∧ val pn = (val (take i a) * val b) mod 2 ^ 256) j 0).
  { split; [apply ok_zero|done]. }
  intros i p Hi [[Hlp Hp] Hv].
  assert (Hd : limbs_ok (drop i p)) by by apply Forall_drop.
  assert (Hlr : (length (drop i p) ≤ length b)%nat) by (rewrite length_drop; lia).
  destruct (mul_row_val 0 (a !!! i) (drop i p) b) as [k Hk];
    [done|done|done|by apply limb_range|by split|].
  assert (Hok : limbs_ok (take i p ++ mul_row 0 (a !!! i) (drop i p) b)).
  { apply Forall_app_2; [by apply Forall_take|apply mul_row_ok]. }
  assert (Hlen : length (take i p ++ mul_row 0 (a !!! i) (drop i p) b) = WIDTH).
  { rewrite length_app, length_mul_row, length_take_le, length_drop by (done || lia). lia. }
  split; [done|].
  rewrite (val_mod_unique _ (val p + B32 ^ Z.of_nat i * (a !!! i) * val b) k Hok).
  - rewrite Hlen, pow_width, Hv, Zplus_mod_idemp_l, val_take_S by lia. f_equal. lia.
  - rewrite Hlen, from_digits_app, length_take_le by lia.
    rewrite (val_take_drop i p) by lia. rewrite length_drop, Hlp in Hk.
    replace (Z.of_nat WIDTH) with (Z.of_nat i + Z.of_nat (WIDTH - i)) by lia.
    rewrite Z.pow_add_r by lia. nia.
Qed.

Lemma mul_ok a b : ok a → ok b → ok (mul a b).
Proof. intros Ha Hb. by apply (mul_loop_inv a b WIDTH). Qed.

Lemma mul_val a b : ok a → ok b → val (mul a b) = (val a * val b) mod 2 ^ 256.
Proof.
  intros Ha Hb. unfold mul. rewrite (proj2 (mul_loop_inv a b WIDTH Ha Hb (le_n _))).
  rewrite take_ge; [done|]. destruct Ha. lia.
Qed.

(** *** Shifts *)

(** Reference forms: shift by fewer than 32 bits with the bits carried into the
    next limb, and by whole limbs. *)
Fixpoint shl_bits (s c : Z) (a : list Z) : list Z :=
  match a with
  | [] => []
  | x :: r => Z.lor c (u32 (Z.shiftl x s)) :: shl_bits s (Z.shiftr x (32 - s)) r
  end.

Fixpoint shr_bits (s : Z) (a : list Z) : list Z :=
  match a with
  | [] => []
  | [x] => [Z.shiftr x s]
  | x :: (y :: _) as r => Z.lor (Z.shiftr x s) (u32 (Z.shiftl y (32 - s))) :: shr_bits s r
  end.

Lemma shiftr_limb32 x : is_u32 x → Z.shiftr x 32 = 0.
Proof. intros Hx. rewrite shiftr32. by apply Z.div_small. Qed.

Lemma u32_shiftl32 x : u32 (Z.shiftl x 32) = 0.
Proof. unfold u32. rewrite Z.shiftl_mul_pow2 by lia. by apply Z_mod_mult. Qed.

(** The unrolled loops: one case for each number [k] of whole limbs. *)
Ltac explode a Hl :=
  do 9 (destruct a as [|? a]; try discriminate Hl); clear Hl.

Lemma shl_unroll a (k : nat) s :
  ok a → (k < 8)%nat → 0 ≤ s < 32 →
  shl a (32 * Z.of_nat k + s) = take WIDTH (replicate k 0 ++ shl_bits s 0 a).
Proof.
  intros [Hl Ha] Hk Hs. unfold shl.
  replace ((32 * Z.of_nat k + s) / 32) with (Z.of_nat k) by zlin.
  replace ((32 * Z.of_nat k + s) mod 32) with s by zlin.
  rewrite Nat2Z.id. explode a Hl. unfold digits_ok in Ha. rewrite !Forall_cons_iff in Ha.
  destruct_and! Ha. destruct (Z.eqb_spec s 0) as [->|Hne].
  - do 8 (destruct k as [|k]; [cbn [shl_bits Z.sub Z.opp Z.add Z.pos_sub];
      rewrite ?shiftr_limb32 by done; reflexivity|]). lia.
  - do 8 (destruct k as [|k]; [reflexivity|]). lia.
Qed.

Lemma shr_unroll a (k : nat) s :
  ok a → (k < 8)%nat → 0 ≤ s < 32 →
  shr a (32 * Z.of_nat k + s) = shr_bits s (drop k a) ++ replicate k 0.
Proof.
  intros [Hl Ha] Hk Hs. unfold shr.
  replace ((32 * Z.of_nat k + s) / 32) with (Z.of_nat k) by zlin.
  replace ((32 * Z.of_nat k + s) mod 32) with s by zlin.
  rewrite Nat2Z.id. explode a Hl. destruct (Z.eqb_spec s 0) as [->|Hne].
  - do 8 (destruct k as [|k]; [cbn [drop shr_bits Z.sub Z.opp Z.add Z.pos_sub];
      rewrite ?u32_shiftl32, ?Z.lor_0_r; reflexivity|]). lia.
  - do 8 (destruct k as [|k]; [reflexivity|]). lia.
Qed.

Lemma pow2_split s : 0 ≤ s ≤ 32 → B32 = 2 ^ (32 - s) * 2 ^ s.
Proof. intros. rewrite <- Z.pow_add_r by lia. by replace (32 - s + s) with 32 by lia. Qed.

(** The low part of a shifted limb has its [s] low bits clear. *)
Lemma u32_shiftl x s :
  is_u32 x → 0 ≤ s ≤ 32 → u32 (Z.shiftl x s) = Z.shiftl (x mod 2 ^ (32 - s)) s.
Proof.
  intros Hx Hs. unfold u32. rewrite !Z.shiftl_mul_pow2, (pow2_split s) by lia.
  rewrite Z.mul_mod_distr_r; [done|..]; apply Z.pow_nonzero; lia.
Qed.

Lemma shl_bits_spec s c a :
  limbs_ok a → 0 ≤ s < 32 → 0 ≤ c < 2 ^ s →
  limbs_ok (shl_bits s c a) ∧ length (shl_bits s c a) = length a ∧
  ∃ k, val (shl_bits s c a) + B32 ^ Z.of_nat (length a) * k = val a * 2 ^ s + c.
Proof.
  intros Ha Hs. revert c. induction Ha as [|x a Hx Ha IH]; intros c Hc;
    cbn [shl_bits from_digits length].
  { split; [constructor|]. split; [done|]. exists c. lia. }
  assert (H2 : 0 < 2 ^ s ∧ 0 < 2 ^ (32 - s)) by (split; apply Z.pow_pos_nonneg; lia).
  pose proof (pow2_split s ltac:(lia)) as HB.
  rewrite u32_shiftl, lor_add_disjoint, Z.shiftr_div_pow2 by word_lia.
  destruct (IH (x / 2 ^ (32 - s))) as (Hok & Hlen & k & Hk).
  { split; [apply Z.div_pos; lia|]. apply Z.div_lt_upper_bound; lia. }
  pose proof (Z.mod_pos_bound x (2 ^ (32 - s)) ltac:(lia)).
  split; [constructor; [nia|done]|]. split; [simpl; congruence|].
  exists k. rewrite Nat2Z.inj_succ, Z.pow_succ_r by lia.
  pose proof (Z.div_mod x (2 ^ (32 - s)) ltac:(lia)). nia.
Qed.

(** Shifting by [256] or more clears every limb. *)
Lemma shl_ge a shift : 256 ≤ shift → shl a shift = zero.
Proof.
  intros Hge. unfold shl. assert (Hk : (8 ≤ Z.to_nat (shift / 32))%nat) by zlin.
  generalize dependent (Z.to_nat (shift / 32)). intros k Hk.
  apply (for_from_inv (λ _ p, p = zero)); [done|].
  intros i p Hi ->. rewrite (proj2 (Nat.ltb_ge (i + _ + 1) WIDTH)) by (unfold WIDTH; lia).
  simpl. by rewrite (proj2 (Nat.ltb_ge (i + _) WIDTH)) by (unfold WIDTH; lia).
Qed.

Lemma shl_lt_spec a (k : nat) s :
  ok a → (k < 8)%nat → 0 ≤ s < 32 → let shift := 32 * Z.of_nat k + s in
  ok (shl a shift) ∧ val (shl a shift) = (val a * 2 ^ shift) mod 2 ^ 256.
Proof.
  intros Hok Hk Hs shift. subst shift. rewrite shl_unroll by done.
  destruct Hok as [Hl Ha].
  assert (0 < 2 ^ s) by (apply Z.pow_pos_nonneg; lia).
  destruct (shl_bits_spec s 0 a) as (Hok' & Hlen' & c & Hc); [done|done|lia|].
  set (l := replicate k 0 ++ shl_bits s 0 a).
  assert (Hlok : limbs_ok l).
  { apply Forall_app_2; [|done]. apply Forall_replicate. lia. }
  assert (Hll : (WIDTH ≤ length l)%nat).
  { subst l. rewrite length_app, length_replicate, Hlen', Hl. lia. }
  assert (Hlt' : length (take WIDTH l) = WIDTH) by by rewrite length_take_le.
  split; [split; [done|by apply Forall_take]|].
  assert (Hval : val l = B32 ^ Z.of_nat k * val (shl_bits s 0 a)).
  { subst l. rewrite from_digits_app, from_digits_zeros, length_replicate. lia. }
  rewrite (val_take_drop WIDTH l Hll) in Hval. rewrite Hl in Hc.
  rewrite (val_mod_unique _ (val a * 2 ^ (32 * Z.of_nat k + s))
             (val (drop WIDTH l) + B32 ^ Z.of_nat k * c)).
  - by rewrite Hlt'.
  - by apply Forall_take.
  - rewrite Hlt', Z.pow_add_r, Z.pow_mul_r by lia. change (2 ^ 32) with B32. nia.
Qed.

(** A bit count below 256 as whole limbs and remaining bits. *)
Lemma shift_split shift :
  0 ≤ shift < 256 → ∃ (k : nat) s, (k < 8)%nat ∧ 0 ≤ s < 32 ∧ shift = 32 * Z.of_nat k + s.
Proof.
  intros Hsh. exists (Z.to_nat (shift / 32)), (shift mod 32).
  split; [zlin|]. split; [zlin|]. zlin.
Qed.

Lemma shl_spec a (shift : Z) :
  ok a → 0 ≤ shift → ok (shl a shift) ∧ val (shl a shift) = (val a * 2 ^ shift) mod 2 ^ 256.
Proof.
  intros Hok Hsh. destruct (decide (shift < 256)) as [Hlt|Hge].
  - destruct (shift_split shift) as (k & s & Hk & Hs & ->); [done|]. by apply shl_lt_spec.
  - rewrite shl_ge by lia. split; [apply ok_zero|]. rewrite val_zero. symmetry.
    replace shift with (256 + (shift - 256)) by lia. rewrite Z.pow_add_r by lia.
    rewrite Z.mul_assoc, Z.mul_shuffle0. by apply Z_mod_mult.
Qed.

Lemma shr_bits_cons s x y r :
  shr_bits s (x :: y :: r)
  = Z.lor (Z.shiftr x s) (u32 (Z.shiftl y (32 - s))) :: shr_bits s (y :: r).
Proof. done. Qed.

Lemma div_pow2_limb x V s :
  0 ≤ s < 32 → is_u32 x →
  (x + B32 * V) / 2 ^ s = x / 2 ^ s + V mod 2 ^ s * 2 ^ (32 - s) + B32 * (V / 2 ^ s).
Proof.
  intros Hs Hx. assert (0 < 2 ^ s) by (apply Z.pow_pos_nonneg; lia).
  rewrite (pow2_split s) by lia.
  replace (x + 2 ^ (32 - s) * 2 ^ s * V) with (x + (2 ^ (32 - s) * V) * 2 ^ s) by lia.
  rewrite Z.div_add by lia. pose proof (Z.div_mod V (2 ^ s) ltac:(lia)). nia.
Qed.

Lemma shr_bits_spec s a :
  limbs_ok a → 0 ≤ s < 32 →
  limbs_ok (shr_bits s a) ∧ length (shr_bits s a) = length a ∧
  val (shr_bits s a) = val a / 2 ^ s.
Proof.
  intros Ha Hs. assert (H2 : 0 < 2 ^ s) by (apply Z.pow_pos_nonneg; lia).
  assert (H3 : 0 < 2 ^ (32 - s)) by (apply Z.pow_pos_nonneg; lia).
  pose proof (pow2_split s ltac:(lia)) as HB.
  induction Ha as [|x a Hx Ha IH];
    [split; [constructor|split; [done|]]; symmetry; apply Z.div_0_l; lia|].
  assert (Hxd : 0 ≤ x / 2 ^ s < 2 ^ (32 - s)).
  { split; [apply Z.div_pos; lia|]. apply Z.div_lt_upper_bound; lia. }
  destruct a as [|y r].
  - cbn [shr_bits from_digits length]. rewrite Z.shiftr_div_pow2, !Z.mul_0_r, !Z.add_0_r by lia.
    split_and!; [|done..]. constructor; [nia|constructor].
  - destruct IH as (Hok & Hlen & Hv). rewrite shr_bits_cons.
    rewrite u32_shiftl, Z.shiftr_div_pow2 by (inversion Ha; word_lia).
    replace (32 - (32 - s)) with s by lia. rewrite lor_add_disjoint by lia.
    pose proof (Z.mod_pos_bound y (2 ^ s) H2).
    split_and!; [constructor; [nia|done]|simpl in *; congruence|].
    change (val (?d :: ?l)) with (d + B32 * val l). rewrite Hv, div_pow2_limb by (done || word_lia).
    do 2 f_equal. f_equal. cbn [from_digits]. rewrite (pow2_split s) at 1 by lia.
    replace (y + 2 ^ (32 - s) * 2 ^ s * val r) with (y + (2 ^ (32 - s) * val r) * 2 ^ s) by lia.
    by rewrite Z.mod_add by lia.
Qed.

Lemma val_drop k a :
  limbs_ok a → (k ≤ length a)%nat → val (drop k a) = val a / B32 ^ Z.of_nat k.
Proof.
  intros Ha Hk. rewrite (val_take_drop k a Hk).
  assert (Hb : 0 ≤ val (take k a) < B32 ^ Z.of_nat k).
  { pose proof (from_digits_bound B32 ltac:(lia) (take k a) (Forall_take _ _ _ Ha)) as Hb.
    by rewrite length_take_le in Hb. }
  rewrite Z.mul_comm, Z.div_add by lia. rewrite Z.div_small by lia. lia.
Qed.

Lemma shr_spec a (shift : Z) :
  ok a → 0 ≤ shift < 256 → ok (shr a shift) ∧ val (shr a shift) = val a / 2 ^ shift.
Proof.
  intros Hok Hsh. destruct (shift_split shift Hsh) as (k & s & Hk & Hs & ->).
  rewrite shr_unroll by done. destruct Hok as [Hl Ha].
  destruct (shr_bits_spec s (drop k a)) as (Hok' & Hlen' & Hv); [by apply Forall_drop|done|].
  split; [split|].
  - rewrite length_app, Hlen', length_drop, length_replicate. unfold WIDTH in *. lia.
  - apply Forall_app_2; [done|]. apply Forall_replicate. lia.
  - rewrite from_digits_app, from_digits_zeros, Hv, val_drop, Z.mul_0_r, Z.add_0_r
      by (done || unfold WIDTH in *; lia).
    rewrite Z.pow_add_r, Z.pow_mul_r by lia. change (2 ^ 32) with B32.
    apply Z.div_div; [|apply Z.pow_pos_nonneg; lia]. apply Z.pow_nonzero; lia.
Qed.

(** *** Comparison and bit length *)

Lemma val_snoc l x : val (l ++ [x]) = val l + B32 ^ Z.of_nat (length l) * x.
Proof. rewrite from_digits_app. simpl. lia. Qed.

Lemma cmp_loop_spec ra rb :
  limbs_ok ra → limbs_ok rb → length ra = length rb →
  cmp_loop ra rb = match val (rev ra) ?= val (rev rb) with Lt => -1 | Eq => 0 | Gt => 1 end.
Proof.
  intros Ha. revert rb. induction Ha as [|x ra Hx Ha IH]; intros [|y rb] Hb Hl; simplify_eq/=; [done|].
  inversion_clear Hb as [|? ? Hy Hb']. rewrite !val_snoc, !length_rev, IH, <- Hl by done.
  assert (B1 : 0 ≤ val (rev ra) < B32 ^ Z.of_nat (length ra)).
  { rewrite <- length_rev. apply from_digits_bound; [lia|]. by apply Forall_rev. }
  assert (B2 : 0 ≤ val (rev rb) < B32 ^ Z.of_nat (length ra)).
  { rewrite Hl, <- length_rev. apply from_digits_bound; [lia|]. by apply Forall_rev. }
  destruct (Z.ltb_spec x y); [|destruct (Z.ltb_spec y x)].
  - by rewrite (proj2 (Z.compare_lt_iff _ _)) by nia.
  - by rewrite (proj2 (Z.compare_gt_iff _ _)) by nia.
  - assert (x = y) as -> by lia. by rewrite !(Z.add_comm (val (rev _))), Z.add_compare_mono_l.
Qed.

Lemma CompareTo_spec a b :
  ok a → ok b →
  CompareTo a b = match val a ?= val b with Lt => -1 | Eq => 0 | Gt => 1 end.
Proof.
  intros [Hla Ha] [Hlb Hb]. unfold CompareTo.
  rewrite cmp_loop_spec, !rev_involutive; [done|by apply Forall_rev..|].
  rewrite !length_rev. congruence.
Qed.

Lemma CompareTo_ge a b : ok a → ok b → (0 <=? CompareTo a b) = (val b <=? val a).
Proof.
  intros Ha Hb. rewrite CompareTo_spec by done.
  destruct (Z.compare_spec (val a) (val b)); destruct (Z.leb_spec (val b) (val a)); simpl; lia || done.
Qed.

Lemma CompareTo_gt a b : ok a → ok b → (0 <? CompareTo a b) = (val b <? val a).
Proof.
  intros Ha Hb. rewrite CompareTo_spec by done.
  destruct (Z.compare_spec (val a) (val b)); destruct (Z.ltb_spec (val b) (val a)); simpl; lia || done.
Qed.

Lemma CompareTo_le a b : ok a → ok b → (CompareTo a b <=? 0) = (val a <=? val b).
Proof.
  intros Ha Hb. rewrite CompareTo_spec by done.
  destruct (Z.compare_spec (val a) (val b)); destruct (Z.leb_spec (val a) (val b)); simpl; lia || done.
Qed.

Lemma land_pow2_bit x n :
  0 ≤ n → (Z.land x (2 ^ n) =? 0) = negb (Z.testbit x n).
Proof.
  intros Hn. destruct (Z.testbit x n) eqn:E; simpl.
  - apply Z.eqb_neq. intros H0. apply (f_equal (λ z, Z.testbit z n)) in H0.
    rewrite Z.land_spec, Z.pow2_bits_true, E, Z.bits_0 in H0 by done. done.
  - apply Z.eqb_eq, Z.bits_inj'. intros i Hi. rewrite Z.land_spec, Z.bits_0.
    rewrite Z.pow2_bits_eqb by done. destruct (Z.eqb_spec n i) as [<-|]; [by rewrite E|].
    apply andb_false_r.
Qed.

Lemma testbit_top x n :
  0 ≤ n → 0 ≤ x < 2 ^ (n + 1) → Z.testbit x n = (2 ^ n <=? x).
Proof.
  intros Hn Hx. rewrite Z.pow_add_r in Hx by lia.
  assert (0 < 2 ^ n) by (apply Z.pow_pos_nonneg; lia).
  rewrite Z.testbit_eqb by done. destruct (Z.leb_spec (2 ^ n) x).
  - replace (x / 2 ^ n) with 1; [done|]. apply (Z.div_unique_pos _ _ _ (x - 2 ^ n)); lia.
  - by rewrite Z.div_small by lia.
Qed.

Lemma bits_limb_spec nb x :
  (nb < 32)%nat → 0 < x < 2 ^ (Z.of_nat nb + 1) → bits_limb nb x = Z.log2 x + 1.
Proof.
  induction nb as [|nb IH]; intros Hnb Hx; cbn [bits_limb].
  - assert (x = 1) as -> by (simpl in Hx; lia). done.
  - set (n := Z.of_nat (S nb)) in *. rewrite Z.shiftl_1_l.
    assert (Hp : 0 < 2 ^ n ≤ 2 ^ 31).
    { split; [apply Z.pow_pos_nonneg; lia|]. apply Z.pow_le_mono_r; lia. }
    rewrite (u32_small (2 ^ n)) by word_lia.
    rewrite land_pow2_bit, testbit_top by lia. destruct (Z.leb_spec (2 ^ n) x); simpl.
    + f_equal. symmetry. apply Z.log2_unique; [lia|]. rewrite <- Z.add_1_r. lia.
    + apply IH; [lia|]. replace (Z.of_nat nb + 1) with n by lia. lia.
Qed.

(** [bits()] is the position of the highest set bit plus one. *)
Definition bit_length (v : Z) : Z := if v =? 0 then 0 else Z.log2 v + 1.

Lemma bits_loop_spec ra : limbs_ok ra → bits_loop ra = bit_length (val (rev ra)).
Proof.
  induction 1 as [|x ra Hx Ha IH]; [done|]. cbn [bits_loop rev]. unfold bit_length in *.
  rewrite val_snoc, length_rev.
  assert (Hv : 0 ≤ val (rev ra) < B32 ^ Z.of_nat (length ra)).
  { rewrite <- length_rev. apply from_digits_bound; [lia|]. by apply Forall_rev. }
  destruct (Z.eqb_spec x 0) as [->|Hne]; [by rewrite Z.mul_0_r, Z.add_0_r|].
  set (n := Z.of_nat (length ra)) in *. rewrite bits_limb_spec by (simpl; lia).
  destruct (Z.eqb_spec (val (rev ra) + B32 ^ n * x) 0); [nia|].
  rewrite Z.add_assoc. f_equal. symmetry. change B32 with (2 ^ 32) in *.
  rewrite <- Z.pow_mul_r in * by lia.
  pose proof (Z.log2_spec x ltac:(lia)). pose proof (Z.log2_nonneg x).
  apply Z.log2_unique; [lia|].
  rewrite <- Z.add_succ_r, !Z.pow_add_r by lia. nia.
Qed.

Lemma bits_spec a : ok a → bits a = bit_length (val a).
Proof.
  intros [_ Ha]. unfold bits. rewrite bits_loop_spec, rev_involutive; [done|].
  by apply Forall_rev.
Qed.

Lemma bit_length_bound v : 0 ≤ v → v < 2 ^ bit_length v.
Proof.
  intros Hv. unfold bit_length. destruct (Z.eqb_spec v 0) as [->|]; [done|].
  apply (Z.log2_spec v). lia.
Qed.

Lemma bit_length_le v n : 0 ≤ v < 2 ^ n → 0 ≤ n → bit_length v ≤ n.
Proof.
  intros Hv Hn. unfold bit_length. destruct (Z.eqb_spec v 0); [done|].
  assert (Z.log2 v < n) by (apply Z.log2_lt_pow2; lia). lia.
Qed.

Lemma bit_length_nonneg v : 0 ≤ bit_length v.
Proof. unfold bit_length. pose proof (Z.log2_nonneg v). case_match; lia. Qed.

Lemma bit_length_pos v : 0 < v → 2 ^ (bit_length v - 1) ≤ v ∧ 0 < bit_length v.
Proof.
  intros Hv. unfold bit_length. destruct (Z.eqb_spec v 0); [lia|].
  pose proof (Z.log2_nonneg v). replace (Z.log2 v + 1 - 1) with (Z.log2 v) by lia.
  split; [by apply (Z.log2_spec v)|lia].
Qed.

(** *** Single limbs of a number *)

Lemma val_lookup l i :
  limbs_ok l → (i < length l)%nat → l !!! i = (val l / B32 ^ Z.of_nat i) mod B32.
Proof.
  intros Hl Hi. destruct (lookup_lt_is_Some_2 l i Hi) as [x Hx].
  rewrite <- val_drop, (drop_S _ _ _ Hx), (list_lookup_total_correct _ _ _ Hx) by (done || lia).
  cbn [from_digits]. rewrite Z.mul_comm, Z.mod_add by lia. symmetry. apply Z.mod_small.
  exact (Forall_lookup_1 _ _ _ _ Hl Hx).
Qed.

Lemma val_insert l i y :
  (i < length l)%nat → val (<[i:=y]> l) = val l + (y - l !!! i) * B32 ^ Z.of_nat i.
Proof.
  intros Hi. destruct (lookup_lt_is_Some_2 l i Hi) as [x Hx].
  rewrite insert_take_drop by done. rewrite <- (take_drop_middle l i x Hx) at 3.
  rewrite !from_digits_app. cbn [from_digits]. rewrite length_take_le by lia.
  rewrite (list_lookup_total_correct _ _ _ Hx). lia.
Qed.

Lemma testbit_limb l i b :
  limbs_ok l → (i < length l)%nat → 0 ≤ b < 32 →
  Z.testbit (l !!! i) b = Z.testbit (val l) (32 * Z.of_nat i + b).
Proof.
  intros Hl Hi Hb. rewrite val_lookup by done. change B32 with (2 ^ 32).
  rewrite <- Z.pow_mul_r, Z.mod_pow2_bits_low, Z.div_pow2_bits by lia.
  f_equal. lia.
Qed.

Lemma lor_pow2_clear x b : 0 ≤ b → Z.testbit x b = false → Z.lor x (2 ^ b) = x + 2 ^ b.
Proof.
  intros Hb Hx. assert (Hl : Z.land x (2 ^ b) = 0).
  { apply Z.eqb_eq. by rewrite land_pow2_bit, Hx. }
  by rewrite Z.add_nocarry_lxor, Z.lxor_lor.
Qed.

Lemma set_bit_spec q (shift : nat) :
  ok q → (shift < 256)%nat → Z.testbit (val q) (Z.of_nat shift) = false →
  ok (set_bit q shift) ∧ val (set_bit q shift) = val q + 2 ^ Z.of_nat shift.
Proof.
  intros [Hl Hq] Hs Hbit. unfold set_bit.
  set (w := (shift / 32)%nat). set (b := Z.of_nat shift mod 32).
  assert (Hw : (w < length q)%nat) by (rewrite Hl; unfold WIDTH; subst w; zlin).
  assert (Hb : 0 ≤ b < 32) by (subst b; zlin).
  assert (Heq : Z.of_nat shift = 32 * Z.of_nat w + b) by (subst w b; zlin).
  change (Z.land (Z.of_nat shift) 31) with (Z.land (Z.of_nat shift) (Z.ones 5)).
  rewrite Z.land_ones by lia. change (2 ^ 5) with 32. fold b.
  rewrite Heq in *. rewrite <- (testbit_limb q w b Hq Hw Hb) in Hbit.
  assert (Hp : 0 < 2 ^ b < B32).
  { split; [apply Z.pow_pos_nonneg; lia|]. apply (Z.pow_lt_mono_r 2 b 32); lia. }
  rewrite Z.shiftl_1_l, u32_small by word_lia.
  pose proof (limb_range q w Hq) as Hqw.
  pose proof (lor_bounded (q !!! w) (2 ^ b) 32 ltac:(lia) Hqw ltac:(simpl; lia)) as Hlb.
  rewrite lor_pow2_clear in * by (done || lia).
  split; [split; [by rewrite length_insert|]|].
  - by apply Forall_insert.
  - rewrite val_insert by done. rewrite Z.pow_add_r, Z.pow_mul_r by lia.
    change (2 ^ 32) with B32. lia.
Qed.

(** *** Division *)

Lemma div_loop_spec d (cnt : nat) : ∀ num dv q,
  ok num → ok dv → ok q → 0 < d → (cnt ≤ 256)%nat →
  val dv = d * 2 ^ (Z.of_nat cnt - 1) ∨ cnt = 0%nat →
  val num < d * 2 ^ Z.of_nat cnt →
  (∃ Q, val q = Q * 2 ^ Z.of_nat cnt) →
  let '(q', r) := div_loop cnt num dv q in
  ok q' ∧ val q' * d + val r = val q * d + val num ∧ 0 ≤ val r < d.
Proof.
  induction cnt as [|shift IH]; intros num dv q Hn Hd Hq Hdp Hcnt Hdv Hlt [Q HQ]; simpl.
  { split_and!; [done|done|apply ok_bound; done|simpl in Hlt; lia]. }
  destruct Hdv as [Hdv|]; [|done].
  replace (Z.of_nat (S shift) - 1) with (Z.of_nat shift) in Hdv by lia.
  rewrite Nat2Z.inj_succ, Z.pow_succ_r in Hlt, HQ by lia.
  assert (Hp : 0 < 2 ^ Z.of_nat shift) by (apply Z.pow_pos_nonneg; lia).
  destruct (shr_spec dv 1 Hd ltac:(lia)) as [Hd' Hv'].
  assert (Hdiv : val (shr dv 1) = d * 2 ^ (Z.of_nat shift - 1) ∨ shift = 0%nat).
  { destruct shift as [|sh]; [by right|left]. rewrite Hv', Hdv.
    replace (Z.of_nat (S sh)) with (Z.of_nat (S sh) - 1 + 1) at 1 by lia.
    rewrite Z.pow_add_r, Z.mul_assoc by lia. by apply Z.div_mul. }
  rewrite CompareTo_ge by done. destruct (Z.leb_spec (val dv) (val num)) as [Hle|Hgt].
  - destruct (set_bit_spec q shift) as [Hq' Hvq]; [done|lia| |].
    { rewrite HQ, Z.mul_assoc, (Z.mul_comm Q), Z.mul_pow2_bits, Z.sub_diag by lia.
      apply Z.testbit_even_0. }
    pose proof (sub_val_exact num dv Hn Hd Hle) as Hsub.
    specialize (IH (sub num dv) (shr dv 1) (set_bit q shift)).
    destruct (div_loop _ _ _ _) as [q' r].
    destruct IH as (H1 & H2 & H3); auto using sub_ok; [lia|nia| |].
    + exists (2 * Q + 1). rewrite Hvq, HQ. lia.
    + split_and!; [done| |lia|lia]. rewrite H2, Hvq, Hsub, Hdv. lia.
  - specialize (IH num (shr dv 1) q). destruct (div_loop _ _ _ _) as [q' r].
    apply IH; auto; [lia|lia|]. exists (2 * Q). lia.
Qed.

Lemma div_aligned a b :
  0 < b → bit_length b ≤ bit_length a → a < 2 ^ 256 → 0 ≤ a →
  b * 2 ^ (bit_length a - bit_length b) < 2 ^ 256 ∧
  a < b * 2 ^ (bit_length a - bit_length b + 1).
Proof.
  intros Hb Hle Ha Ha0. set (k := bit_length a - bit_length b).
  pose proof (bit_length_bound b ltac:(lia)). pose proof (bit_length_bound a Ha0).
  pose proof (bit_length_pos b Hb) as [Hlo Hpos].
  pose proof (bit_length_le a 256 ltac:(lia) ltac:(lia)).
  assert (0 < 2 ^ k) by (apply Z.pow_pos_nonneg; lia).
  assert (2 ^ bit_length b * 2 ^ k = 2 ^ bit_length a).
  { rewrite <- Z.pow_add_r by lia. f_equal. lia. }
  assert (2 ^ (bit_length b - 1) * 2 ^ (k + 1) = 2 ^ bit_length a).
  { rewrite <- Z.pow_add_r by lia. f_equal. lia. }
  assert (2 ^ bit_length a ≤ 2 ^ 256) by (apply Z.pow_le_mono_r; lia).
  assert (0 < 2 ^ (k + 1)) by (apply Z.pow_pos_nonneg; lia).
  split; nia.
Qed.

Lemma div_spec a b :
  ok a → ok b →
  match div a b with
  | None => val b = 0
  | Some q => ok q ∧ 0 < val b ∧ val q = val a / val b
  end.
Proof.
  intros Ha Hb. unfold div. rewrite !bits_spec by done.
  pose proof (ok_bound a Ha). pose proof (ok_bound b Hb).
  destruct (Z.eqb_spec (bit_length (val b)) 0) as [Hz|Hnz].
  { pose proof (bit_length_bound (val b) ltac:(lia)) as Hlt. rewrite Hz in Hlt. simpl in Hlt. lia. }
  assert (Hbp : 0 < val b).
  { destruct (Z.eqb_spec (val b) 0) as [E|]; [|lia]. rewrite E in Hnz. done. }
  destruct (Z.ltb_spec (bit_length (val a)) (bit_length (val b))) as [Hlt|Hge].
  { split; [apply ok_zero|]. split; [done|]. rewrite val_zero. symmetry.
    apply Z.div_small. split; [lia|]. pose proof (bit_length_bound (val a) ltac:(lia)).
    pose proof (bit_length_pos (val b) Hbp) as [? ?].
    pose proof (Z.pow_le_mono_r 2 (bit_length (val a)) (bit_length (val b) - 1)). lia. }
  set (k := bit_length (val a) - bit_length (val b)).
  destruct (div_aligned (val a) (val b)) as [Hov Hal]; [done|done|lia|lia|]. fold k in Hov, Hal.
  pose proof (bit_length_le (val a) 256 ltac:(lia) ltac:(lia)).
  destruct (shl_spec b k Hb ltac:(lia)) as [Hsok Hsv].
  pose proof (bit_length_pos (val b) Hbp) as [_ ?].
  assert (0 < 2 ^ k) by (apply Z.pow_pos_nonneg; lia).
  rewrite Z.mod_small in Hsv by nia.
  pose proof (div_loop_spec (val b) (Z.to_nat (k + 1)) a (shl b k) zero Ha Hsok ok_zero Hbp) as Hd.
  rewrite Z2Nat.id in Hd by lia. destruct (div_loop _ _ _ _) as [q r]. simpl.
  destruct Hd as (Hq & Heq & Hr); [lia|left; rewrite Hsv; f_equal; f_equal; lia|done|by exists 0|].
  rewrite val_zero in Heq. split; [done|]. split; [done|].
  apply (Z.div_unique_pos _ _ _ (val r)); lia.
Qed.

(** *** Equality with a word, decrement, bitwise operators *)

Lemma forallb_zero l : limbs_ok l → forallb (λ x, x =? 0) l = (val l =? 0).
Proof.
  induction 1 as [|x l Hx Hl IH]; [done|]. cbn [forallb from_digits]. rewrite IH.
  pose proof (from_digits_bound B32 ltac:(lia) l Hl).
  destruct (Z.eqb_spec x 0), (Z.eqb_spec (val l) 0); symmetry; simpl; lia.
Qed.

Lemma is_zero_spec a : ok a → is_zero a = (val a =? 0).
Proof. intros [_ Ha]. by apply forallb_zero. Qed.

Lemma EqualTo_spec a b : ok a → is_u64 b → EqualTo a b = (val a =? b).
Proof.
  intros [Hl Ha] Hb. unfold EqualTo. destruct a as [|x [|y r]]; [done|done|].
  unfold digits_ok in Ha. rewrite !Forall_cons_iff in Ha. destruct Ha as (Hx & Hy & Hr).
  change (drop 2 (x :: y :: r)) with (drop 0 r). rewrite drop_0.
  change ((x :: y :: r) !!! 0%nat) with x. change ((x :: y :: r) !!! 1%nat) with y.
  rewrite forallb_zero, shiftr32, land_mask32 by (done || apply Hb). cbn [from_digits].
  pose proof (from_digits_bound B32 ltac:(lia) r Hr). unfold is_u64 in Hb.
  destruct (Z.eqb_spec (val r) 0), (Z.eqb_spec y (b / B32)), (Z.eqb_spec x (b mod B32)),
    (Z.eqb_spec (x + B32 * (y + B32 * val r)) b); cbn [andb]; try reflexivity; exfalso; zlin.
Qed.

Lemma op_dec_spec_gen a :
  limbs_ok a → limbs_ok (op_dec a) ∧ length (op_dec a) = length a ∧
  ∃ k, val (op_dec a) + B32 ^ Z.of_nat (length a) * k = val a - 1.
Proof.
  induction 1 as [|x a Hx Ha (IH1 & IH2 & k & IH3)]; cbn [op_dec from_digits length].
  { split_and!; [constructor|done|]. exists (-1). lia. }
  rewrite Nat2Z.inj_succ, Z.pow_succ_r by lia. change (u32 (-1)) with 4294967295.
  destruct (decide (x = 0)) as [->|Hne].
  - change (u32 (0 - 1)) with 4294967295. cbn [Z.eqb Pos.eqb from_digits length].
    split_and!; [constructor; [lia|done]|congruence|]. exists k. lia.
  - rewrite u32_small by word_lia. destruct (Z.eqb_spec (x - 1) 4294967295); [lia|].
    split_and!; [constructor; [lia|done]|done|]. exists 0. cbn [from_digits]. lia.
Qed.

Lemma op_dec_val a : ok a → ok (op_dec a) ∧ val (op_dec a) = (val a - 1) mod 2 ^ 256.
Proof.
  intros [Hl Ha]. destruct (op_dec_spec_gen a Ha) as (H1 & H2 & k & H3).
  split; [split; [congruence|done]|].
  rewrite (val_mod_unique _ (val a - 1) k H1); rewrite H2; [by rewrite Hl|done].
Qed.

Lemma testbit_limb_cons x V i :
  is_u32 x → 0 ≤ i →
  Z.testbit (x + B32 * V) i = if i <? 32 then Z.testbit x i else Z.testbit V (i - 32).
Proof.
  intros Hx Hi. rewrite Z.mul_comm. change B32 with (2 ^ 32).
  rewrite <- lor_add_disjoint, Z.lor_spec by (done || lia).
  destruct (Z.ltb_spec i 32).
  - by rewrite Z.shiftl_spec_low, orb_false_r by lia.
  - by rewrite (testbit_high x 32), Z.shiftl_spec by (done || lia).
Qed.

(** A bitwise operator works limb by limb. *)
Lemma zip_bitwise_val (f : Z → Z → Z) (g : bool → bool → bool) a b :
  (∀ x y i, 0 ≤ i → Z.testbit (f x y) i = g (Z.testbit x i) (Z.testbit y i)) →
  (∀ x y, is_u32 x → is_u32 y → is_u32 (f x y)) → f 0 0 = 0 →
  limbs_ok a → limbs_ok b → length a = length b → val (zip_with f a b) = f (val a) (val b).
Proof.
  intros Hbit Hrange Hf0 Ha. revert b. induction Ha as [|x a Hx Ha IH];
    intros [|y b] Hb Hl; simplify_eq/=; [done|].
  inversion_clear Hb as [|? ? Hy Hb']. rewrite IH by done.
  apply Z.bits_inj'. intros i Hi. rewrite Hbit by done.
  rewrite !testbit_limb_cons by auto. case_match; rewrite Hbit by lia; done.
Qed.

Lemma bitwise_vals a b :
  ok a → ok b →
  val (op_xor a b) = Z.lxor (val a) (val b) ∧
  val (op_and a b) = Z.land (val a) (val b) ∧
  val (op_or a b) = Z.lor (val a) (val b).
Proof.
  intros [Hla Ha] [Hlb Hb].
  split_and!; [apply (zip_bitwise_val _ xorb)|apply (zip_bitwise_val _ andb)|apply (zip_bitwise_val _ orb)];
    try done; try congruence; intros.
  - apply Z.lxor_spec.
  - by apply (lxor_bounded _ _ 32).
  - apply Z.land_spec.
  - apply (land_bounded _ _ 32); word_lia.
  - apply Z.lor_spec.
  - by apply (lor_bounded _ _ 32).
Qed.

(** *** Conversions *)

Lemma WriteLE32_ok x : bytes_ok (WriteLE32 x) ∧ length (WriteLE32 x) = 4%nat.
Proof. split; [apply to_digits_ok; lia|apply length_to_digits]. Qed.

Lemma ReadLE32_range p : bytes_ok p → is_u32 (ReadLE32 p).
Proof.
  intros Hp. unfold ReadLE32.
  pose proof (from_digits_bound 256 ltac:(lia) (take 4 p) (Forall_take _ _ _ Hp)) as Hb.
  assert (256 ^ Z.of_nat (length (take 4 p)) ≤ 256 ^ 4).
  { apply Z.pow_le_mono_r; [lia|]. rewrite length_take. lia. }
  change (256 ^ 4) with B32 in *. word_lia.
Qed.

Lemma ReadLE32_WriteLE32 x r : is_u32 x → ReadLE32 (WriteLE32 x ++ r) = x.
Proof.
  intros Hx. unfold ReadLE32, WriteLE32. rewrite take_app_length' by by rewrite length_to_digits.
  apply to_digits_small; [lia|]. exact Hx.
Qed.

Lemma ArithToUint256_spec a :
  ok a → length (ArithToUint256 a) = 32%nat ∧ bytes_ok (ArithToUint256 a) ∧
         UintToArith256 (ArithToUint256 a) = a.
Proof.
  intros [Hl Ha]. split_and!.
  - explode a Hl. reflexivity.
  - apply Forall_bind, Forall_true. intros. by apply WriteLE32_ok.
  - explode a Hl. unfold digits_ok in Ha. rewrite !Forall_cons_iff in Ha.
    unfold UintToArith256, ArithToUint256. cbn [map seq WIDTH Nat.mul Nat.add mbind list_bind].
    assert (Hd : ∀ n x r, drop (4 + n) (WriteLE32 x ++ r) = drop n r).
    { intros n x r. pose proof (WriteLE32_ok x) as [_ Hw]. rewrite <- drop_drop, <- Hw.
      by rewrite drop_app_length. }
    repeat f_equal; rewrite ?(Hd 24%nat), ?(Hd 20%nat), ?(Hd 16%nat), ?(Hd 12%nat),
      ?(Hd 8%nat), ?(Hd 4%nat), ?(Hd 0%nat), ?drop_0; apply ReadLE32_WriteLE32; word_lia.
Qed.

Lemma UintToArith256_prefix b n :
  bytes_ok b → (4 * n ≤ length b)%nat →
  val (map (λ x, ReadLE32 (drop (x * 4) b)) (seq 0 n)) = from_digits 256 (take (4 * n) b).
Proof.
  intros Hb. induction n as [|n IH]; intros Hn; [done|].
  rewrite seq_S, map_app, from_digits_app, IH, length_map, length_seq by lia. cbn [map].
  replace (4 * S n)%nat with (4 * n + 4)%nat by lia.
  rewrite <- take_take_drop, from_digits_app, length_take_le by lia.
  unfold ReadLE32. replace ((0 + n) * 4)%nat with (4 * n)%nat by lia. cbn [from_digits].
  rewrite (Nat2Z.inj_mul 4), (Z.pow_mul_r 256 (Z.of_nat 4)) by lia.
  change (256 ^ Z.of_nat 4) with B32. lia.
Qed.

(** A 32-byte hash read as a number. *)
Lemma UintToArith256_spec b :
  bytes_ok b → length b = 32%nat →
  ok (UintToArith256 b) ∧ val (UintToArith256 b) = from_digits 256 b.
Proof.
  intros Hb Hl. split; [split; [done|]|].
  - apply Forall_map, Forall_true. intros. apply ReadLE32_range. by apply Forall_drop.
  - unfold UintToArith256, WIDTH. rewrite UintToArith256_prefix by (done || lia).
    by rewrite take_ge by lia.
Qed.

(** ** Claims *)

(** C38. Every limb-level operator of [arith_uint256] refines arithmetic on the
    value modulo [2^256]: addition, subtraction, multiplication by a number and
    by a 32-bit word, both shifts, negation, increment and decrement, the
    bitwise operators, comparison and bit length; and each keeps the
    representation invariant. *)
Theorem arith_ops_refine (a b : list Z) (w s : Z) :
  ok a → ok b → is_u32 w → 0 ≤ s < 256 →
  (ok (add a b) ∧ val (add a b) = (val a + val b) mod 2 ^ 256) ∧
  (ok (sub a b) ∧ val (sub a b) = (val a - val b) mod 2 ^ 256) ∧
  (ok (mul a b) ∧ val (mul a b) = (val a * val b) mod 2 ^ 256) ∧
  (ok (mul32 a w) ∧ val (mul32 a w) = (val a * w) mod 2 ^ 256) ∧
  (ok (shl a s) ∧ val (shl a s) = (val a * 2 ^ s) mod 2 ^ 256) ∧
  (ok (shr a s) ∧ val (shr a s) = val a / 2 ^ s) ∧
  (ok (op_neg a) ∧ val (op_neg a) = (- val a) mod 2 ^ 256) ∧
  (ok (op_inc a) ∧ val (op_inc a) = (val a + 1) mod 2 ^ 256) ∧
  (ok (op_dec a) ∧ val (op_dec a) = (val a - 1) mod 2 ^ 256) ∧
  val (op_not a) = 2 ^ 256 - 1 - val a ∧
  val (op_xor a b) = Z.lxor (val a) (val b) ∧
  val (op_and a b) = Z.land (val a) (val b) ∧
  val (op_or a b) = Z.lor (val a) (val b) ∧
  CompareTo a b = match val a ?= val b with Lt => -1 | Eq => 0 | Gt => 1 end ∧
  bits a = bit_length (val a).
Proof.
  intros Ha Hb Hw Hs. destruct (bitwise_vals a b Ha Hb) as (Hx & Hn & Ho).
  split_and!; auto using add_ok, add_val, sub_ok, sub_val, mul_ok, mul_val, mul32_ok, mul32_val,
    op_neg_ok, op_neg_val, op_inc_ok, op_inc_val, op_not_val, CompareTo_spec, bits_spec.
  1,2: apply shl_spec; (done || lia).
  1,2: by apply shr_spec.
  1,2: by apply op_dec_val.
Qed.

(** The shift-and-subtract division of [operator/=] throws exactly on a zero
    divisor and otherwise returns the floor of the quotient; the loop needs at
    most [bits(a) - bits(b) + 1 <= 256] iterations. *)
Theorem arith_div_correct (a b : list Z) :
  ok a → ok b →
  (div a b = None ↔ val b = 0) ∧
  ∀ q, div a b = Some q → ok q ∧ val q = val a / val b.
Proof.
  intros Ha Hb. pose proof (div_spec a b Ha Hb) as Hd. destruct (div a b) as [q|].
  - destruct Hd as (Hq & Hp & Hv). split; [split; intros; [done|lia]|]. by intros ? [= <-].
  - by split.
Qed.

Lemma arith_ops_refine_witness :
  val (add (of_uint64 5) (of_uint64 7)) = (val (of_uint64 5) + val (of_uint64 7)) mod 2 ^ 256.
Proof.
  apply (arith_ops_refine (of_uint64 5) (of_uint64 7) 3 40);
    [apply of_uint64_ok|apply of_uint64_ok|split; lia|split; lia].
Defined.

Lemma arith_div_correct_witness :
  div (of_uint64 1000) (of_uint64 7) = Some (of_uint64 142) ∧
  (div (of_uint64 1000) zero = None ↔ val zero = 0).
Proof.
  split; [vm_compute; reflexivity|].
  apply (arith_div_correct (of_uint64 1000) zero); [apply of_uint64_ok|apply ok_zero].
Defined.

End Arith256.
