(* ===== verification/Compact.v ===== *)
(** * The compact target encoding (arith_uint256::SetCompact, GetCompact)

    Closed forms of the two functions, and the round trip: encoding a 256-bit
    number and decoding it again truncates it to the mantissa's precision. *)

From stdpp Require Import base numbers list option.
From Stdlib Require Import ZArith Lia ZifyNat.
From S2P Require Import Prelude ArithUint256.
Import Arith256.

Module Compact.

(** ** Reference encoding of a number [v] in [[0, 2^256)] *)

(** Exponent byte: the number of bytes, one more when the top bit is set. *)
Definition compact_size (v : Z) : Z := if v =? 0 then 0 else bit_length v / 8 + 1.

Definition compact_mantissa (v : Z) : Z :=
  let e := compact_size v in
  if e <=? 3 then v * 256 ^ (3 - e) else v / 256 ^ (e - 3).

Definition compact_of (v : Z) : Z := compact_size v * 2 ^ 24 + compact_mantissa v.

(** ** Reference decoding *)

Definition compact_value (c : Z) : Z :=
  let s := c / 2 ^ 24 in
  let m := c mod 2 ^ 23 in
  if s <=? 3 then m / 256 ^ (3 - s) else m * 256 ^ (s - 3).

(** ** Ranges *)

Lemma pow256 n : 0 ≤ n → 256 ^ n = 2 ^ (8 * n).
Proof. intros. by rewrite Z.pow_mul_r by lia. Qed.

Lemma pow256_pos n : 0 < 256 ^ n ∨ n < 0.
Proof. destruct (decide (n < 0)); [by right|left]. apply Z.pow_pos_nonneg; lia. Qed.

Lemma compact_size_range v : 0 ≤ v < 2 ^ 256 → 0 ≤ compact_size v ≤ 33.
Proof.
  intros Hv. unfold compact_size. destruct (Z.eqb_spec v 0); [lia|].
  pose proof (bit_length_le v 256 ltac:(lia) ltac:(lia)). pose proof (bit_length_nonneg v). zlin.
Qed.

(** [v] fits its exponent with a spare bit: [v < 2^(8 e - 1)]. *)
Lemma compact_size_upper v : 0 < v → v < 2 ^ (8 * compact_size v - 1).
Proof.
  intros Hv. unfold compact_size. destruct (Z.eqb_spec v 0); [lia|].
  pose proof (bit_length_bound v ltac:(lia)). pose proof (bit_length_nonneg v).
  eapply Z.lt_le_trans; [eassumption|]. apply Z.pow_le_mono_r; [lia|]. zlin.
Qed.

Lemma compact_mantissa_range v : 0 ≤ v → 0 ≤ compact_mantissa v < 2 ^ 23.
Proof.
  intros Hv. unfold compact_mantissa. destruct (Z.eqb_spec v 0) as [->|Hne]; [done|].
  pose proof (compact_size_upper v ltac:(lia)) as Hup. set (e := compact_size v) in *.
  assert (He : 1 ≤ e).
  { subst e. unfold compact_size. destruct (Z.eqb_spec v 0); [done|].
    pose proof (bit_length_nonneg v). zlin. }
  destruct (Z.leb_spec e 3).
  - rewrite pow256 by lia. split; [apply Z.mul_nonneg_nonneg; [lia|]; apply Z.pow_nonneg; lia|].
    replace 23 with (8 * e - 1 + 8 * (3 - e)) by lia. rewrite Z.pow_add_r by lia.
    apply Z.mul_lt_mono_pos_r; [apply Z.pow_pos_nonneg; lia|done].
  - rewrite pow256 by lia. assert (0 < 2 ^ (8 * (e - 3))) by (apply Z.pow_pos_nonneg; lia).
    split; [apply Z.div_pos; lia|]. apply Z.div_lt_upper_bound; [done|].
    rewrite <- Z.pow_add_r by lia. by replace (8 * (e - 3) + 23) with (8 * e - 1) by lia.
Qed.

(** ** [GetCompact] *)

Lemma GetLow64_val a : ok a → GetLow64 a = val a mod 2 ^ 64.
Proof.
  intros [Hl Ha]. unfold GetLow64. destruct a as [|x [|y r]]; [done|done|].
  unfold digits_ok in Ha. rewrite !Forall_cons_iff in Ha. destruct Ha as (Hx & Hy & Hr).
  change ((x :: y :: r) !!! 0%nat) with x. change ((x :: y :: r) !!! 1%nat) with y.
  rewrite u64_small.
  - rewrite lor_add_disjoint by (simpl; lia). cbn [from_digits].
    change (2 ^ 32) with B32. apply (Z.mod_unique_pos _ _ (val r)); lia.
  - rewrite Z.shiftl_mul_pow2 by lia. word_lia.
Qed.

(** The first three bytes, before the sign-bit adjustment. *)
Definition compact_raw (v : Z) : Z :=
  let n := (bit_length v + 7) / 8 in
  if n <=? 3 then v * 256 ^ (3 - n) else v / 256 ^ (n - 3).

Lemma raw_range v : 0 ≤ v → 0 ≤ compact_raw v < 2 ^ 24.
Proof.
  intros Hv. unfold compact_raw. pose proof (bit_length_bound v Hv).
  pose proof (bit_length_nonneg v). set (n := (bit_length v + 7) / 8).
  assert (Hn : bit_length v ≤ 8 * n ∧ 0 ≤ n) by (subst n; split; zlin).
  assert (Hvn : v < 2 ^ (8 * n)).
  { eapply Z.lt_le_trans; [eassumption|]. apply Z.pow_le_mono_r; lia. }
  destruct (Z.leb_spec n 3).
  - rewrite pow256 by lia. assert (0 < 2 ^ (8 * (3 - n))) by (apply Z.pow_pos_nonneg; lia).
    split; [nia|]. replace 24 with (8 * n + 8 * (3 - n)) by lia.
    rewrite Z.pow_add_r by lia. by apply Z.mul_lt_mono_pos_r.
  - rewrite pow256 by lia. assert (0 < 2 ^ (8 * (n - 3))) by (apply Z.pow_pos_nonneg; lia).
    split; [apply Z.div_pos; lia|]. apply Z.div_lt_upper_bound; [done|].
    rewrite <- Z.pow_add_r by lia. by replace (8 * (n - 3) + 24) with (8 * n) by lia.
Qed.

(** The code's first step computes [compact_raw]. *)
Lemma GetCompact_raw a : ok a →
  (if (bits a + 7) / 8 <=? 3
   then u32 (u64 (Z.shiftl (GetLow64 a) (8 * (3 - (bits a + 7) / 8))))
   else u32 (GetLow64 (shr a (8 * ((bits a + 7) / 8 - 3))))) = compact_raw (val a).
Proof.
  intros Ha. pose proof (ok_bound a Ha) as Hv. rewrite bits_spec by done.
  pose proof (raw_range (val a) ltac:(lia)) as Hr. unfold compact_raw in *.
  pose proof (bit_length_nonneg (val a)). pose proof (bit_length_bound (val a) ltac:(lia)) as Hb.
  pose proof (bit_length_le (val a) 256 ltac:(lia) ltac:(lia)).
  set (n := (bit_length (val a) + 7) / 8) in *.
  assert (Hn : bit_length (val a) ≤ 8 * n ∧ 0 ≤ n ≤ 32) by (subst n; split; zlin).
  destruct (Z.leb_spec n 3).
  - assert (val a < 2 ^ 24).
    { eapply Z.lt_le_trans; [exact Hb|]. apply Z.pow_le_mono_r; lia. }
    rewrite GetLow64_val, (Z.mod_small (val a)) by (done || lia).
    rewrite Z.shiftl_mul_pow2, <- pow256 by lia.
    rewrite u64_small, u32_small by word_lia. done.
  - destruct (shr_spec a (8 * (n - 3)) Ha ltac:(lia)) as [Hok Hs].
    rewrite GetLow64_val, Hs, <- pow256 by (done || lia).
    rewrite Z.mod_small by lia. apply u32_small. word_lia.
Qed.

(** Bit 23 of the raw mantissa is set iff [v] fills its bytes completely. *)
Lemma raw_bit23 v n :
  0 < v → 1 ≤ n → 8 * n - 7 ≤ bit_length v ≤ 8 * n → n = (bit_length v + 7) / 8 →
  if 2 ^ 23 <=? compact_raw v then bit_length v = 8 * n else bit_length v ≤ 8 * n - 1.
Proof.
  intros Hv Hn1 Hn Hdef. destruct (bit_length_pos v Hv) as [Hlo Hp].
  pose proof (bit_length_bound v ltac:(lia)) as Hup.
  unfold compact_raw. rewrite <- Hdef. destruct (Z.leb_spec n 3) as [H3|H3]; rewrite pow256 by lia.
  - replace (2 ^ 23) with (2 ^ (8 * n - 1) * 2 ^ (8 * (3 - n))) by
      (rewrite <- Z.pow_add_r by lia; f_equal; lia).
    assert (0 < 2 ^ (8 * (3 - n))) by (apply Z.pow_pos_nonneg; lia).
    destruct (Z.leb_spec (2 ^ (8 * n - 1) * 2 ^ (8 * (3 - n))) (v * 2 ^ (8 * (3 - n)))).
    + assert (8 * n - 1 < bit_length v); [|lia]. apply (Z.pow_lt_mono_r_iff 2); nia.
    + assert (bit_length v - 1 < 8 * n - 1); [|lia]. apply (Z.pow_lt_mono_r_iff 2); nia.
  - assert (0 < 2 ^ (8 * (n - 3))) by (apply Z.pow_pos_nonneg; lia).
    assert (Hm : 2 ^ (8 * n - 1) = 2 ^ 23 * 2 ^ (8 * (n - 3))).
    { rewrite <- Z.pow_add_r by lia. f_equal. lia. }
    pose proof (Z.div_mod v (2 ^ (8 * (n - 3))) ltac:(lia)).
    pose proof (Z.mod_pos_bound v (2 ^ (8 * (n - 3))) ltac:(lia)).
    destruct (Z.leb_spec (2 ^ 23) (v / 2 ^ (8 * (n - 3)))).
    + assert (8 * n - 1 < bit_length v); [|lia]. apply (Z.pow_lt_mono_r_iff 2); nia.
    + assert (bit_length v - 1 < 8 * n - 1); [|lia]. apply (Z.pow_lt_mono_r_iff 2); nia.
Qed.

Lemma raw_top_bit v :
  0 < v → let n := (bit_length v + 7) / 8 in
  if 2 ^ 23 <=? compact_raw v
  then compact_size v = n + 1 ∧ compact_mantissa v = compact_raw v / 256
  else compact_size v = n ∧ compact_mantissa v = compact_raw v.
Proof.
  intros Hv n. destruct (bit_length_pos v Hv) as [_ Hp].
  assert (Hn : 8 * n - 7 ≤ bit_length v ≤ 8 * n ∧ 1 ≤ n) by (subst n; split; zlin).
  pose proof (raw_bit23 v n Hv ltac:(lia) ltac:(lia) eq_refl) as Hcase.
  assert (Hsz : compact_size v = bit_length v / 8 + 1).
  { unfold compact_size. by destruct (Z.eqb_spec v 0); [lia|]. }
  unfold compact_mantissa.
  destruct (2 ^ 23 <=? compact_raw v); (split; [zlin|]); unfold compact_raw; fold n.
  - replace (compact_size v) with (n + 1) by zlin.
    destruct (Z.leb_spec n 3); destruct (Z.leb_spec (n + 1) 3); try lia.
    + replace (3 - n) with (3 - (n + 1) + 1) by lia. rewrite Z.pow_add_r, Z.mul_assoc by lia.
      symmetry. apply Z.div_mul. lia.
    + replace n with 3 by lia. simpl. by rewrite Z.mul_1_r.
    + replace (n + 1 - 3) with (n - 3 + 1) by lia. rewrite Z.pow_add_r by lia.
      symmetry. apply Z.div_div; [|lia]. apply Z.pow_nonzero; lia.
  - by replace (compact_size v) with n by zlin.
Qed.

(** Size and mantissa after the sign-bit adjustment of the code. *)
Lemma GetCompact_adjust v :
  0 ≤ v →
  (if negb (Z.land (compact_raw v) 0x00800000 =? 0)
   then (Z.shiftr (compact_raw v) 8, (bit_length v + 7) / 8 + 1)
   else (compact_raw v, (bit_length v + 7) / 8)) = (compact_mantissa v, compact_size v).
Proof.
  intros Hv. destruct (decide (v = 0)) as [->|Hne]; [reflexivity|].
  pose proof (raw_range v Hv) as Hr. change 0x00800000 with (2 ^ 23).
  rewrite land_pow2_bit, testbit_top, negb_involutive by lia.
  pose proof (raw_top_bit v ltac:(lia)) as Ht. cbv zeta in Ht.
  rewrite Z.shiftr_div_pow2 by lia. change (2 ^ 8) with 256.
  destruct (2 ^ 23 <=? compact_raw v); destruct Ht as [-> ->]; done.
Qed.

(** Fields that do not overlap. *)
Lemma land_mul_pow2_small m k n : 0 ≤ n → 0 ≤ m < 2 ^ n → Z.land m (k * 2 ^ n) = 0.
Proof.
  intros Hn Hm. apply Z.bits_inj'. intros i Hi. rewrite Z.land_spec, Z.bits_0.
  destruct (decide (i < n)); [rewrite Z.mul_pow2_bits_low by lia; apply andb_false_r|].
  by rewrite (testbit_high m n i) by lia.
Qed.

Lemma lor_mul_pow2_small m k n :
  0 ≤ n → 0 ≤ m < 2 ^ n → Z.lor m (k * 2 ^ n) = m + k * 2 ^ n.
Proof. intros Hn Hm. rewrite <- (Z.shiftl_mul_pow2 k n) at 1 by done. by apply lor_add_disjoint. Qed.

(** The low 23 bits and the sign bit of an encoded number. *)
Lemma land_mask23 c : Z.land c 0x007fffff = c mod 2 ^ 23.
Proof. change 0x007fffff with (Z.ones 23). by rewrite Z.land_ones by lia. Qed.

(** The encoder never trips its assertions and computes the closed form. *)
Lemma GetCompact_closed a fNegative :
  ok a →
  GetCompact a fNegative
  = Some (compact_of (val a) +
          (if (fNegative && negb (compact_mantissa (val a) =? 0))%bool then 2 ^ 23 else 0)).
Proof.
  intros Ha. pose proof (ok_bound a Ha) as Hv. unfold GetCompact. cbv zeta.
  rewrite (GetCompact_raw a Ha), bits_spec, GetCompact_adjust by (done || lia).
  pose proof (compact_mantissa_range (val a) ltac:(lia)) as Hm.
  pose proof (compact_size_range (val a) ltac:(lia)) as Hs. unfold compact_of.
  set (m := compact_mantissa (val a)) in *. set (e := compact_size (val a)) in *.
  change (u32 (Z.lnot 0x007fffff)) with (511 * 2 ^ 23).
  rewrite land_mul_pow2_small by lia. simpl negb. cbn iota.
  destruct (Z.ltb_spec e 256); [|lia]. simpl negb. cbn iota.
  rewrite Z.shiftl_mul_pow2, (u32_small (e * 2 ^ 24)) by word_lia.
  rewrite (lor_mul_pow2_small m e 24) by lia.
  rewrite land_mask23. replace (m + e * 2 ^ 24) with (m + (2 * e) * 2 ^ 23) by lia.
  rewrite Z.mod_add, Z.mod_small by lia. f_equal.
  destruct (fNegative && negb (m =? 0))%bool; [|rewrite Z.lor_0_r; lia].
  change 0x00800000 with (2 ^ 23). rewrite lor_pow2_clear; [lia|lia|].
  rewrite Z.testbit_eqb, Z.div_add, Z.div_small by lia. rewrite Z.add_0_l.
  apply Z.eqb_neq. rewrite Z.mul_comm, Z_mod_mult. lia.
Qed.

(** ** [SetCompact] *)

Lemma overflow_closed m s :
  0 ≤ m < 2 ^ 23 → 3 < s →
  (negb (m =? 0) && ((34 <? s) || ((0xff <? m) && (33 <? s)) || ((0xffff <? m) && (32 <? s))))%bool
  = (2 ^ 256 <=? m * 256 ^ (s - 3)).
Proof.
  intros Hm Hs. rewrite pow256 by lia.
  assert (Hmono : ∀ k, 0 ≤ k → 8 * (s - 3) ≤ k → 2 ^ (8 * (s - 3)) ≤ 2 ^ k).
  { intros. apply Z.pow_le_mono_r; lia. }
  assert (Hmono' : ∀ k, 0 ≤ k → k ≤ 8 * (s - 3) → 2 ^ k ≤ 2 ^ (8 * (s - 3))).
  { intros. apply Z.pow_le_mono_r; lia. }
  assert (Hpos : 0 < 2 ^ (8 * (s - 3))) by (apply Z.pow_pos_nonneg; lia).
  destruct (Z.eqb_spec m 0) as [->|Hm0]; [done|]. simpl negb. cbn [andb].
  destruct (Z.ltb_spec 34 s) as [H34|H34].
  { symmetry. apply Z.leb_le. specialize (Hmono' 256 ltac:(lia) ltac:(lia)). nia. }
  cbn [orb]. destruct (decide (s = 34)) as [->|]; [|destruct (decide (s = 33)) as [->|]].
  - rewrite !andb_true_r. change (8 * (34 - 3)) with 248.
    destruct (Z.ltb_spec 0xff m); destruct (Z.ltb_spec 0xffff m); simpl orb; symmetry;
      apply Z.leb_le || apply Z.leb_gt; lia.
  - rewrite andb_false_r, !andb_true_r. change (8 * (33 - 3)) with 240.
    destruct (Z.ltb_spec 0xffff m); simpl orb; symmetry; apply Z.leb_le || apply Z.leb_gt; lia.
  - destruct (Z.ltb_spec 33 s); [lia|]. destruct (Z.ltb_spec 32 s); [lia|].
    rewrite !andb_false_r. symmetry. apply Z.leb_gt.
    specialize (Hmono 232 ltac:(lia) ltac:(lia)). nia.
Qed.

Lemma shiftr_pow256 m k : 0 ≤ k → Z.shiftr m (8 * k) = m / 256 ^ k.
Proof. intros. by rewrite Z.shiftr_div_pow2, pow256 by lia. Qed.

(** The decoder computes the closed form modulo [2^256], and its two flags
    report a set sign bit and a value that does not fit. *)
Lemma SetCompact_closed c :
  is_u32 c →
  let '(t, fNegative, fOverflow) := SetCompact c in
  ok t ∧ val t = compact_value c mod 2 ^ 256 ∧
  fNegative = (negb (compact_value c =? 0) && Z.testbit c 23)%bool ∧
  fOverflow = (2 ^ 256 <=? compact_value c).
Proof.
  intros Hc. unfold SetCompact, compact_value. cbv zeta.
  rewrite land_mask23, (Z.shiftr_div_pow2 c) by lia.
  change 0x00800000 with (2 ^ 23). rewrite land_pow2_bit, negb_involutive by lia.
  pose proof (Z.mod_pos_bound c (2 ^ 23) ltac:(lia)) as Hm.
  set (m := c mod 2 ^ 23) in *.
  assert (Hs : 0 ≤ c / 2 ^ 24 < 256) by (unfold is_u32 in Hc; zlin).
  set (s := c / 2 ^ 24) in *. destruct (Z.leb_spec s 3) as [H3|H3].
  - rewrite shiftr_pow256 by lia.
    assert (Hp : 0 < 256 ^ (3 - s)) by (apply Z.pow_pos_nonneg; lia).
    assert (Hw : 0 ≤ m / 256 ^ (3 - s) < 2 ^ 23).
    { split; [apply Z.div_pos; lia|]. apply Z.div_lt_upper_bound; [done|]. nia. }
    split_and!; [apply of_uint64_ok| |done|].
    + rewrite val_of_uint64, Z.mod_small by word_lia. done.
    + destruct (Z.ltb_spec 34 s), (Z.ltb_spec 33 s), (Z.ltb_spec 32 s); lia.
  - destruct (shl_spec (of_uint64 m) (8 * (s - 3)) (of_uint64_ok m) ltac:(lia)) as [Hok Hv].
    rewrite val_of_uint64, <- pow256 in Hv by word_lia.
    assert (0 < 256 ^ (s - 3)) by (apply Z.pow_pos_nonneg; lia).
    split_and!; [done|done| |by apply overflow_closed].
    f_equal. destruct (Z.eqb_spec m 0) as [->|]; [done|].
    destruct (Z.eqb_spec (m * 256 ^ (s - 3)) 0); [nia|done].
Qed.

(** ** The round trip *)

Lemma compact_of_range v : 0 ≤ v < 2 ^ 256 → is_u32 (compact_of v).
Proof.
  intros Hv. unfold compact_of. pose proof (compact_mantissa_range v ltac:(lia)).
  pose proof (compact_size_range v Hv). word_lia.
Qed.

Lemma compact_of_fields v :
  0 ≤ v → compact_of v / 2 ^ 24 = compact_size v ∧
  compact_of v mod 2 ^ 23 = compact_mantissa v ∧ Z.testbit (compact_of v) 23 = false.
Proof.
  intros Hv. unfold compact_of. pose proof (compact_mantissa_range v Hv) as Hm.
  set (m := compact_mantissa v) in *. set (e := compact_size v).
  replace (e * 2 ^ 24 + m) with (m + (2 * e) * 2 ^ 23) by lia.
  split_and!.
  - replace (m + 2 * e * 2 ^ 23) with (m + e * 2 ^ 24) by lia.
    rewrite Z.div_add, Z.div_small by lia. lia.
  - by rewrite Z.mod_add, Z.mod_small by lia.
  - rewrite Z.testbit_eqb, Z.div_add, Z.div_small by lia. rewrite Z.add_0_l.
    apply Z.eqb_neq. rewrite Z.mul_comm, Z_mod_mult. lia.
Qed.

(** What is lost: everything below the three mantissa bytes. *)
Definition compact_ulp (v : Z) : Z :=
  if compact_size v <=? 3 then 1 else 256 ^ (compact_size v - 3).

Lemma compact_value_of v :
  0 ≤ v → compact_value (compact_of v) = v - v mod compact_ulp v.
Proof.
  intros Hv. destruct (compact_of_fields v Hv) as (He & Hm & _).
  unfold compact_value, compact_ulp. rewrite He, Hm. unfold compact_mantissa.
  destruct (Z.leb_spec (compact_size v) 3).
  - rewrite Z.mod_1_r, Z.div_mul; [lia|]. apply Z.pow_nonzero; [lia|].
    lia.
  - assert (0 < 256 ^ (compact_size v - 3)) by (apply Z.pow_pos_nonneg; lia).
    pose proof (Z.div_mod v (256 ^ (compact_size v - 3)) ltac:(lia)). lia.
Qed.

(** Truncation keeps the leading bit, hence the exponent and the mantissa. *)
Lemma compact_of_trunc v :
  0 ≤ v → compact_of (v - v mod compact_ulp v) = compact_of v.
Proof.
  intros Hv. destruct (decide (v = 0)) as [->|Hne]; [done|].
  unfold compact_ulp. destruct (Z.leb_spec (compact_size v) 3) as [|H3].
  { by rewrite Z.mod_1_r, Z.sub_0_r. }
  set (u := 256 ^ (compact_size v - 3)).
  assert (Hu : 0 < u) by (apply Z.pow_pos_nonneg; lia).
  pose proof (Z.div_mod v u ltac:(lia)) as Hdm. pose proof (Z.mod_pos_bound v u Hu) as Hmb.
  replace (v - v mod u) with (v / u * u) by lia.
  destruct (bit_length_pos v ltac:(lia)) as [Hlo Hp].
  pose proof (bit_length_bound v Hv) as Hup.
  assert (Hsz : compact_size v = bit_length v / 8 + 1).
  { unfold compact_size. by destruct (Z.eqb_spec v 0); [lia|]. }
  assert (Hdiv : ∃ q, 2 ^ (bit_length v - 1) = q * u).
  { exists (2 ^ (bit_length v - 1 - 8 * (compact_size v - 3))). subst u.
    rewrite pow256, <- Z.pow_add_r by zlin. f_equal. lia. }
  destruct Hdiv as [q Hq].
  assert (Hqv : q ≤ v / u) by (apply Z.div_le_lower_bound; lia).
  assert (Hbl : bit_length (v / u * u) = bit_length v).
  { unfold bit_length at 1. destruct (Z.eqb_spec (v / u * u) 0); [nia|].
    replace (bit_length v) with (bit_length v - 1 + 1) by lia. f_equal.
    apply Z.log2_unique; [lia|]. replace (Z.succ (bit_length v - 1)) with (bit_length v) by lia. nia. }
  assert (Hsz' : compact_size (v / u * u) = compact_size v).
  { rewrite Hsz. unfold compact_size. rewrite Hbl. destruct (Z.eqb_spec (v / u * u) 0); [nia|done]. }
  unfold compact_of, compact_mantissa. rewrite Hsz'.
  destruct (Z.leb_spec (compact_size v) 3); [lia|]. fold u. by rewrite Z.div_mul by lia.
Qed.

(** Encoding any 256-bit number and decoding the result succeeds (no
    assertion fails), reports neither a negative nor an overflowing target, and
    gives back the number truncated to its three most significant mantissa
    bytes; encoding the truncated number gives the same 32 bits again. *)
Theorem compact_roundtrip (a : list Z) :
  ok a →
  ∃ c t, GetCompact a false = Some c ∧ is_u32 c ∧
         SetCompact c = (t, false, false) ∧ ok t ∧
         val t = val a - val a mod compact_ulp (val a) ∧
         GetCompact t false = Some c.
Proof.
  intros Ha. pose proof (ok_bound a Ha) as Hv.
  pose proof (compact_of_range (val a) Hv) as Hc.
  destruct (compact_of_fields (val a) ltac:(lia)) as (_ & _ & Hsign).
  pose proof (SetCompact_closed _ Hc) as Hs. destruct (SetCompact (compact_of (val a))) as [[t fn] fo] eqn:E.
  destruct Hs as (Hok & Hval & -> & ->).
  rewrite compact_value_of in Hval, E by lia.
  assert (Hu : 0 < compact_ulp (val a)).
  { unfold compact_ulp. case_match; [lia|]. apply Z.pow_pos_nonneg; lia. }
  pose proof (Z.mod_pos_bound (val a) _ Hu). pose proof (Z.mod_le (val a) _ ltac:(lia) Hu).
  rewrite Z.mod_small in Hval by lia.
  exists (compact_of (val a)), t. rewrite E, Hsign, andb_false_r, !GetCompact_closed by done.
  rewrite Hval, compact_of_trunc, !Z.add_0_r by lia.
  split_and!; try done. f_equal. apply Z.leb_gt. lia.
Qed.

Lemma compact_roundtrip_witness :
  ∃ c t, GetCompact (of_uint64 0x1234567890) false = Some c ∧ is_u32 c ∧
         SetCompact c = (t, false, false) ∧ ok t ∧
         val t = val (of_uint64 0x1234567890)
                 - val (of_uint64 0x1234567890) mod compact_ulp (val (of_uint64 0x1234567890)) ∧
         GetCompact t false = Some c.
Proof. apply (compact_roundtrip (of_uint64 0x1234567890)). apply of_uint64_ok. Defined.

(** The examples of the header comment of [SetCompact]. *)
Example compact_example_1 :
  GetCompact (of_uint64 0x1234560000) false = Some 0x05123456.
Proof. reflexivity. Qed.
Example compact_example_2 :
  GetCompact (of_uint64 0xc0de000000) false = Some 0x0600c0de.
Proof. reflexivity. Qed.

End Compact.
