(* ===== verification/BlockStream.v ===== *)
(** * Block-buffered streaming

    Every hash function of src/src/crypto consumes its input through a
    [Write(data, len)] that cuts the stream into fixed-size blocks, whatever the
    lengths of the individual writes.  [absorb] is the reference: it feeds the
    complete blocks of a message to a compression function and returns the
    chaining state with the bytes left over.  The class [StreamHash] is the
    interface between a hasher object (its buffer and counters) and this
    reference; the clients below rely on its laws only. *)

From stdpp Require Import base numbers list.
From Stdlib Require Import ZArith Lia ZifyNat.
From S2P Require Import Prelude.

(** [memcpy(dst + pos, src, len)]. *)
Definition memcpy (dst : bytes) (pos : nat) (src : bytes) : bytes :=
  take pos dst ++ src ++ drop (pos + length src) dst.

Lemma length_memcpy dst pos src :
  (pos + length src ≤ length dst)%nat → length (memcpy dst pos src) = length dst.
Proof. intros. unfold memcpy. rewrite !length_app, length_take, length_drop. lia. Qed.

Lemma take_memcpy dst pos src :
  (pos ≤ length dst)%nat → take (pos + length src) (memcpy dst pos src) = take pos dst ++ src.
Proof.
  intros. unfold memcpy. rewrite app_assoc, take_app_length'; [done|].
  rewrite length_app, length_take. lia.
Qed.

(** ** Array loops *)

Lemma for_from_S {A} n lo (body : nat → A → A) s :
  for_from (S n) lo body s = body (lo + n)%nat (for_from n lo body s).
Proof.
  revert lo s. induction n as [|n IH]; intros lo s.
  - simpl. by rewrite Nat.add_0_r.
  - change (for_from (S (S n)) lo body s) with (for_from (S n) (S lo) body (body lo s)).
    rewrite IH. simpl. f_equal. lia.
Qed.

Lemma for_from_shift {A} n k lo (body : nat → A → A) s :
  for_from n lo (λ i, body (k + i)%nat) s = for_from n (k + lo) body s.
Proof.
  revert lo s. induction n as [|n IH]; intros lo s; simpl; [done|].
  rewrite IH. by rewrite Nat.add_succ_r.
Qed.

Lemma for_from_ext {A} n lo (f g : nat → A → A) s :
  (∀ i s, (lo ≤ i < lo + n)%nat → f i s = g i s) → for_from n lo f s = for_from n lo g s.
Proof.
  revert lo s. induction n as [|n IH]; intros lo s Hfg; simpl; [done|].
  rewrite Hfg by lia. apply IH. intros. apply Hfg. lia.
Qed.

(** [for (i = 0; i < n; i++) a[i] = g(i, a[i])]. *)
Lemma for_to_modify {A} `{!Inhabited A} (g : nat → A → A) n (l : list A) :
  (n ≤ length l)%nat →
  for_to n (λ i l, <[i := g i (l !!! i)]> l) l = map (λ i, g i (l !!! i)) (seq 0 n) ++ drop n l.
Proof.
  intros Hn. induction n as [|n IH]; [by rewrite drop_0|].
  rewrite for_from_S, IH by lia. rewrite Nat.add_0_l.
  destruct (lookup_lt_is_Some_2 l n) as [x Hx]; [lia|].
  rewrite (drop_S l x n Hx).
  rewrite insert_app_r_alt by (rewrite length_map, length_seq; lia).
  rewrite lookup_total_app_r by (rewrite length_map, length_seq; lia).
  rewrite length_map, length_seq, Nat.sub_diag.
  rewrite seq_S, map_app, <- app_assoc. simpl.
  by rewrite (list_lookup_total_correct l n x Hx).
Qed.

(** [for (i = lo; i < lo + n; i++) b[i] = f(i)]. *)
Lemma for_from_set (f : nat → Z) n lo (b : bytes) :
  (lo + n ≤ length b)%nat →
  for_from n lo (λ i b, <[i := f i]> b) b = memcpy b lo (map f (seq lo n)).
Proof.
  intros Hn. unfold memcpy. rewrite length_map, length_seq.
  induction n as [|n IH].
  { simpl. by rewrite Nat.add_0_r, take_drop. }
  rewrite for_from_S, IH by lia.
  destruct (lookup_lt_is_Some_2 b (lo + n)%nat) as [x Hx]; [lia|].
  rewrite (drop_S b x _ Hx), app_assoc.
  assert (Hl : length (take lo b ++ map f (seq lo n)) = (lo + n)%nat).
  { rewrite length_app, length_take, length_map, length_seq. lia. }
  rewrite insert_app_r_alt by lia. rewrite Hl, Nat.sub_diag.
  rewrite seq_S, map_app, <- !app_assoc. simpl. by rewrite Nat.add_succ_r.
Qed.

Lemma lookup_total_map_seq {A} `{!Inhabited A} (f : nat → A) lo n i :
  (i < n)%nat → map f (seq lo n) !!! i = f (lo + i)%nat.
Proof.
  intros Hi. apply list_lookup_total_correct. rewrite (list_lookup_fmap f).
  by rewrite (lookup_seq_lt lo n i Hi).
Qed.

Lemma map_lookup_seq {A} `{!Inhabited A} (l : list A) n :
  (n ≤ length l)%nat → map (λ i, l !!! i) (seq 0 n) = take n l.
Proof.
  intros Hn. apply list_eq_total.
  - rewrite length_map, length_seq, length_take. lia.
  - intros i Hi. rewrite length_map, length_seq in Hi.
    rewrite lookup_total_map_seq, lookup_total_take by done. by case_decide.
Qed.

(** [for (i = 0; i != n; i++) b[pos + i] = src[i]]. *)
Lemma for_to_copy n pos (src b : bytes) :
  (n ≤ length src)%nat → (pos + n ≤ length b)%nat →
  for_to n (λ i b, <[(pos + i)%nat := src !!! i]> b) b = memcpy b pos (take n src).
Proof.
  intros Hs Hb.
  rewrite (for_from_ext n 0 _ (λ i, (λ j b, <[j := src !!! (j - pos)%nat]> b) (pos + i)%nat)).
  2:{ intros i l _. f_equal. f_equal. lia. }
  rewrite (for_from_shift n pos 0 (λ j b, <[j := src !!! (j - pos)%nat]> b)), Nat.add_0_r.
  rewrite for_from_set by done. f_equal. rewrite <- map_lookup_seq by done.
  apply list_eq_total; [by rewrite !length_map, !length_seq|].
  intros i Hi. rewrite length_map, length_seq in Hi. rewrite !lookup_total_map_seq by done.
  f_equal. lia.
Qed.

Section Absorb.
Context {St : Type} (bs : nat) (step : St → bytes → St).

Fixpoint absorb_go (fuel : nat) (s : St) (m : bytes) : St * bytes :=
  match fuel with
  | O => (s, m)
  | S fuel' => if (bs <=? length m)%nat then absorb_go fuel' (step s (take bs m)) (drop bs m)
               else (s, m)
  end.

(** Complete blocks consumed, and the remaining bytes. *)
Definition absorb (s : St) (m : bytes) : St * bytes := absorb_go (length m) s m.

Context (Hbs : (0 < bs)%nat).

Lemma absorb_go_fuel n1 n2 s m :
  (length m ≤ n1)%nat → (length m ≤ n2)%nat → absorb_go n1 s m = absorb_go n2 s m.
Proof.
  revert n2 s m. induction n1 as [|n1 IH]; intros [|n2] s m H1 H2; simpl; try done;
    destruct (Nat.leb_spec bs (length m)); try done; try lia.
  apply IH; rewrite length_drop; lia.
Qed.

Lemma absorb_lt s m : (length m < bs)%nat → absorb s m = (s, m).
Proof.
  intros Hlt. unfold absorb. destruct (length m) eqn:E; simpl; [done|].
  destruct (Nat.leb_spec bs (length m)); [lia|done].
Qed.

Lemma absorb_ge s m :
  (bs ≤ length m)%nat → absorb s m = absorb (step s (take bs m)) (drop bs m).
Proof.
  intros Hge. unfold absorb. destruct (length m) as [|n] eqn:E; [lia|]. simpl.
  rewrite E, (proj2 (Nat.leb_le bs (S n))) by lia.
  apply absorb_go_fuel; rewrite length_drop; lia.
Qed.

(** Induction following the blocks of a message. *)
Lemma block_ind (P : St → bytes → Prop) :
  (∀ s m, (length m < bs)%nat → P s m) →
  (∀ s m, (bs ≤ length m)%nat → P (step s (take bs m)) (drop bs m) → P s m) →
  ∀ s m, P s m.
Proof.
  intros Hsmall Hbig s m. remember (length m) as n eqn:E. revert s m E.
  induction (lt_wf n) as [n _ IH]. intros s m ->.
  destruct (Nat.lt_ge_cases (length m) bs); [by apply Hsmall|].
  apply Hbig; [done|]. apply (IH (length m - bs)%nat); [lia|]. by rewrite length_drop.
Qed.

(** Streaming: the second part continues where the first one stopped. *)
Lemma absorb_app s m1 m2 :
  absorb s (m1 ++ m2) = absorb (fst (absorb s m1)) (snd (absorb s m1) ++ m2).
Proof.
  revert s m1. apply (block_ind (λ s m1, absorb s (m1 ++ m2) = absorb (fst (absorb s m1)) (snd (absorb s m1) ++ m2))).
  - intros s m Hlt. by rewrite (absorb_lt s m).
  - intros s m Hge IH. rewrite (absorb_ge s m), <- IH by done.
    rewrite absorb_ge by (rewrite length_app; lia).
    rewrite take_app_le, drop_app_le by done. done.
Qed.

Lemma absorb_rest s m : length (snd (absorb s m)) = (length m mod bs)%nat.
Proof.
  revert s m. apply (block_ind (λ s m, length (snd (absorb s m)) = (length m mod bs)%nat)).
  - intros s m Hlt. rewrite absorb_lt by done. by rewrite Nat.mod_small.
  - intros s m Hge IH. rewrite absorb_ge, IH, length_drop by done.
    replace (length m) with (length m - bs + 1 * bs)%nat at 2 by lia.
    by rewrite Nat.Div0.mod_add.
Qed.

Lemma absorb_rest_lt s m : (length (snd (absorb s m)) < bs)%nat.
Proof. rewrite absorb_rest. apply Nat.mod_upper_bound. lia. Qed.

Lemma absorb_block s m : length m = bs → absorb s m = (step s m, []).
Proof.
  intros Hl. rewrite absorb_ge, take_ge, drop_ge by lia. apply absorb_lt. simpl. lia.
Qed.
End Absorb.

(** Compression functions that agree on the reachable states. *)
Lemma absorb_ext {St} bs (f g : St → bytes → St) (P : St → Prop) s m :
  (0 < bs)%nat → P s → (∀ s blk, P s → f s blk = g s blk ∧ P (g s blk)) →
  absorb bs f s m = absorb bs g s m ∧ P (fst (absorb bs g s m)).
Proof.
  intros Hbs HP Hfg. revert s m HP.
  apply (block_ind bs g Hbs (λ s m, P s → absorb bs f s m = absorb bs g s m ∧ P (fst (absorb bs g s m)))).
  - intros s m Hlt HP. by rewrite !absorb_lt.
  - intros s m Hge IH HP. destruct (Hfg s (take bs m) HP) as [E HP'].
    rewrite !(absorb_ge bs _ Hbs s m) by done. rewrite E. by apply IH.
Qed.

(** ** The interface of a hasher object

    [sh_view h] is what the object has consumed: the chaining state after the
    complete blocks, and the pending bytes of its buffer. *)
Class StreamHash (H St : Type) := {
  sh_bs : nat;
  sh_step : St → bytes → St;
  sh_ok : H → Prop;
  sh_view : H → St * bytes;
  sh_write : H → bytes → H;
  sh_bs_pos : (0 < sh_bs)%nat;
  sh_write_ok : ∀ h m, sh_ok h → sh_ok (sh_write h m);
  sh_write_view : ∀ h m, sh_ok h →
    sh_view (sh_write h m) = absorb sh_bs sh_step (fst (sh_view h)) (snd (sh_view h) ++ m);
}.

Section Client.
Context `{!StreamHash H St}.

(** A sequence of [Write] calls. *)
Definition writes (h : H) (chunks : list bytes) : H := foldl sh_write h chunks.

Lemma writes_ok h chunks : sh_ok h → sh_ok (writes h chunks).
Proof.
  revert h. induction chunks as [|c cs IH]; intros h Hok; simpl; [done|].
  apply IH. by apply sh_write_ok.
Qed.

(** Cutting the input into chunks does not matter. *)
Lemma writes_view h chunks :
  sh_ok h → (length (snd (sh_view h)) < sh_bs)%nat →
  sh_view (writes h chunks)
  = absorb sh_bs sh_step (fst (sh_view h)) (snd (sh_view h) ++ concat chunks).
Proof.
  revert h. induction chunks as [|c cs IH]; intros h Hok Hlt.
  - simpl. rewrite app_nil_r, (absorb_lt _ _ sh_bs_pos) by done. by destruct (sh_view h).
  - change (writes h (c :: cs)) with (writes (sh_write h c) cs). simpl concat.
    assert (Hok' : sh_ok (sh_write h c)) by (by apply sh_write_ok).
    rewrite IH; [|done|rewrite sh_write_view by done; apply absorb_rest_lt, sh_bs_pos].
    by rewrite app_assoc, (absorb_app _ _ sh_bs_pos _ (_ ++ c)), <- (sh_write_view h c) by done.
Qed.

Lemma writes_single h chunks :
  sh_ok h → (length (snd (sh_view h)) < sh_bs)%nat →
  sh_view (writes h chunks) = sh_view (sh_write h (concat chunks)).
Proof. intros. by rewrite writes_view, sh_write_view. Qed.
End Client.
