(* ===== verification/Keccak.v ===== *)
(** * Keccak and SHA3-256 (src/src/crypto/sha3/Keccak.cpp, src/src/crypto/sha3.cpp)

    The block hash of the chain.  [Module Keccak] translates the sponge object
    [keccakState], its update, padding and digest functions, and the
    permutation [keccakf] with its in-place lane updates; [Module CSha3] the
    hasher class on top of it.  The reference they are compared with is in
    Fips202.v. *)

From stdpp Require Import base numbers list option.
From Stdlib Require Import ZArith Lia ZifyNat.
From S2P Require Import Prelude BlockStream.

Module Keccak.

(** ** Rotation.h, Endian.h *)

Definition rotateLeft (x n : Z) : Z :=
  let mask := 8 * 8 - 1 in
  let n := Z.land n mask in
  Z.lor (u64 (Z.shiftl x n)) (Z.shiftr x (Z.land (- n) mask)).

Definition swapEndian16 (v : Z) : Z :=
  let b0 := u8 (Z.shiftr v 8) in
  let b1 := u8 v in
  Z.lor (u16 (Z.shiftl (Z.land b1 0x00FF) 8)) (Z.land b0 0x00FF).

Definition swapEndian32 (v : Z) : Z :=
  let b0 := swapEndian16 (u16 (Z.shiftr v 16)) in
  let b1 := swapEndian16 (u16 v) in
  Z.lor (u32 (Z.shiftl (Z.land b1 0x0000FFFF) 16)) (Z.land b0 0x0000FFFF).

Definition swapEndian64 (v : Z) : Z :=
  let b0 := swapEndian32 (u32 (Z.shiftr v 32)) in
  let b1 := swapEndian32 (u32 v) in
  Z.lor (u64 (Z.shiftl (Z.land b1 0x00000000FFFFFFFF) 32)) (Z.land b0 0x00000000FFFFFFFF).

(** The test truncates [0xff00] to its low byte, whatever the host. *)
Definition littleEndian : bool := u8 0xff00 =? 0.

Definition LittleToNative (v : Z) : Z := if littleEndian then v else swapEndian64 v.

(** ** Constants *)

Definition RC : list Z :=
  [0x0000000000000001; 0x0000000000008082; 0x800000000000808a;
   0x8000000080008000; 0x000000000000808b; 0x0000000080000001;
   0x8000000080008081; 0x8000000000008009; 0x000000000000008a;
   0x0000000000000088; 0x0000000080008009; 0x000000008000000a;
   0x000000008000808b; 0x800000000000008b; 0x8000000000008089;
   0x8000000000008003; 0x8000000000008002; 0x8000000000000080;
   0x000000000000800a; 0x800000008000000a; 0x8000000080008081;
   0x8000000000008080; 0x0000000080000001; 0x8000000080008008].

Definition R : list Z :=
  [0; 1; 62; 28; 27; 36; 44; 6; 55; 20; 3; 10; 43;
   25; 39; 41; 45; 15; 21; 8; 18; 2; 61; 56; 14].

(** ** The permutation *)

(** [index(x)]: the recursion adds 5 until the argument is non-negative; the
    fuel [-x] is more than the number of additions. *)
Fixpoint index_go (fuel : nat) (x : Z) : Z :=
  match fuel with
  | O => Z.rem x 5
  | S fuel' => if x <? 0 then index_go fuel' (x + 5) else Z.rem x 5
  end.
Definition index1 (x : Z) : nat := Z.to_nat (index_go (Z.to_nat (- x)) x).
Definition index2 (x y : Z) : nat := (index1 x + 5 * index1 y)%nat.

Record keccakfState := KfState { B : list Z; C : list Z; D : list Z }.

(** [C[x] = A[x,0] ^ ... ^ A[x,4]]. *)
Definition column_parities (A C : list Z) : list Z :=
  for_to 5 (λ x C,
    let x' := Z.of_nat x in
    <[x := Z.lxor (Z.lxor (Z.lxor (Z.lxor (A !!! index2 x' 0) (A !!! index2 x' 1))
             (A !!! index2 x' 2)) (A !!! index2 x' 3)) (A !!! index2 x' 4)]> C) C.

(** [D[x] = C[x-1] ^ rotateLeft(C[x+1], 1)] and the column update; the source
    writes the two loops out. *)
Definition theta (C : list Z) (AD : list Z * list Z) : list Z * list Z :=
  for_to 5 (λ x '(A, D),
    let x' := Z.of_nat x in
    let D := <[x := Z.lxor (C !!! index1 (x' - 1)) (rotateLeft (C !!! index1 (x' + 1)) 1)]> D in
    (for_to 5 (λ y A,
       let y' := Z.of_nat y in
       <[index2 x' y' := Z.lxor (A !!! index2 x' y') (D !!! x)]> A) A, D)) AD.

(** [B[index(y, 2x+3y)] = rotateLeft(A[i], R[i])]. *)
Definition rho_pi (A B : list Z) : list Z :=
  for_to 5 (λ x B,
    for_to 5 (λ y B,
      let x' := Z.of_nat x in
      let y' := Z.of_nat y in
      let i := index2 x' y' in
      <[index2 y' (x' * 2 + 3 * y') := rotateLeft (A !!! i) (R !!! i)]> B) B) B.

(** [A[i] = B[i] ^ (~B[index(x+1,y)] & B[index(x+2,y)])]; [~] on [uint64_t]. *)
Definition not64 (x : Z) : Z := u64 (Z.lnot x).

Definition chi (B A : list Z) : list Z :=
  for_to 5 (λ x A,
    for_to 5 (λ y A,
      let x' := Z.of_nat x in
      let y' := Z.of_nat y in
      let i := index2 x' y' in
      <[i := Z.lxor (B !!! i)
               (Z.land (not64 (B !!! index2 (x' + 1) y')) (B !!! index2 (x' + 2) y'))]> A) A) A.

Definition keccakf_round (n : nat) (s : list Z * keccakfState) : list Z * keccakfState :=
  let '(A, k) := s in
  let C' := column_parities A (C k) in
  let '(A, D') := theta C' (A, D k) in
  let B' := rho_pi A (B k) in
  let A := chi B' A in
  (<[0%nat := Z.lxor (A !!! 0%nat) (RC !!! n)]> A, KfState B' C' D').

(** The local [kState] is uninitialised in the source; every entry is written
    before it is read ([keccakf_round_kstate]), zeros stand for its content. *)
Definition keccakf (A : list Z) : list Z :=
  fst (for_to 24 keccakf_round
         (A, KfState (replicate 25 0) (replicate 5 0) (replicate 5 0))).

(** ** The sponge object *)

Record keccakState := KState {
  A : list Z;
  blockLen : nat;
  buffer : bytes;
  bufferLen : nat;
  length : Z;
  d : Z
}.

Definition shakeCreate (length d_ : Z) : keccakState :=
  let blockLen := Z.to_nat (u32 (200 - 2 * (length / 8))) in
  KState (replicate 25 0) blockLen (replicate blockLen 0) 0 length d_.

Definition keccakCreate (length : Z) : keccakState :=
  let blockLen := Z.to_nat (u32 (200 - 2 * (length / 8))) in
  KState (replicate 25 0) blockLen (replicate blockLen 0) 0 length length.

Definition keccakReset (s : keccakState) : keccakState :=
  let A' := for_to 25 (λ i A, <[i := 0]> A) (A s) in
  KState A' (blockLen s) (buffer s) 0 (length s) (d s).

(** [((uint64_t* )buffer)[i]] on a little-endian host. *)
Definition lane (buffer : bytes) (i : nat) : Z := from_digits 256 (take 8 (drop (8 * i) buffer)).

Definition xor_block (bl : nat) (buffer : bytes) (A : list Z) : list Z :=
  for_to (bl / 8) (λ i A, <[i := Z.lxor (A !!! i) (LittleToNative (lane buffer i))]> A) A.

Definition keccakProcessBuffer (s : keccakState) : keccakState :=
  let A' := xor_block (blockLen s) (buffer s) (A s) in
  KState (keccakf A') (blockLen s) (buffer s) 0 (length s) (d s).

(** [keccakUpdate(uint8_t input, state)]. *)
Definition keccakUpdate_byte (input : Z) (s : keccakState) : keccakState :=
  let s1 := KState (A s) (blockLen s) (<[bufferLen s := input]> (buffer s))
              (S (bufferLen s)) (length s) (d s) in
  if (bufferLen s1 =? blockLen s1)%nat then keccakProcessBuffer s1 else s1.

(** One iteration of the loop of [keccakUpdate(input, off, len, state)]:
    [input] is the rest [input + off .. input + off + len]. *)
Definition update_iter (input : bytes) (s : keccakState) : bytes * keccakState :=
  let len := List.length input in
  let cpLen := if (len <? blockLen s - bufferLen s)%nat then len
               else (blockLen s - bufferLen s)%nat in
  let buffer' := for_to cpLen (λ i b, <[(bufferLen s + i)%nat := input !!! i]> b) (buffer s) in
  let s1 := KState (A s) (blockLen s) buffer' (bufferLen s + cpLen) (length s) (d s) in
  (drop cpLen input,
   if (bufferLen s1 =? blockLen s1)%nat then keccakProcessBuffer s1 else s1).

(** [while (len > 0)]; each iteration consumes at least one byte when
    [bufferLen < blockLen], so [len] iterations are enough. *)
Fixpoint update_loop (fuel : nat) (input : bytes) (s : keccakState) : keccakState :=
  match fuel with
  | O => s
  | S fuel' => match input with
               | [] => s
               | _ => let '(input', s') := update_iter input s in update_loop fuel' input' s'
               end
  end.

Definition keccakUpdate (input : bytes) (s : keccakState) : keccakState :=
  update_loop (List.length input) input s.

(** ** Padding and digest *)

(** The three padding functions differ in their first byte (and in the byte
    used when the first and the last coincide). *)
Definition add_padding (one two : Z) (s : keccakState) : keccakState :=
  let bl := bufferLen s in
  let b := buffer s in
  let b' :=
    if (bl + 1 =? blockLen s)%nat then <[bl := one]> b
    else
      let b := <[bl := two]> b in
      let b := for_from (blockLen s - 1 - (bl + 1)) (bl + 1) (λ i b, <[i := 0]> b) b in
      <[(blockLen s - 1)%nat := 0x80]> b in
  KState (A s) (blockLen s) b' bl (length s) (d s).

Definition sha3AddPadding : keccakState → keccakState := add_padding 0x86 0x06.
Definition keccakAddPadding : keccakState → keccakState := add_padding 0x81 0x01.
Definition shakeAddPadding : keccakState → keccakState := add_padding 0x9F 0x1F.

(** [(unsigned char)((b >> (8*j)) & 0xFF)] for [j < n]. *)
Definition lane_bytes (n : nat) (b : Z) : bytes :=
  map (λ j, u8 (Z.land (Z.shiftr b (8 * Z.of_nat j)) 0xFF)) (seq 0 n).

Definition digest (s : keccakState) (hashLength : Z) (paddingFunc : keccakState → keccakState)
    : bytes * keccakState :=
  let lengthInBytes := Z.to_nat (hashLength / 8) in
  let lengthInQuads := (lengthInBytes / 8)%nat in
  let rollOverData := negb (lengthInBytes mod 8 =? 0)%nat in
  let s := keccakProcessBuffer (paddingFunc s) in
  let tmp := for_to lengthInQuads (λ i tmp, tmp ++ lane_bytes 8 (A s !!! i)) [] in
  let tmp := if rollOverData
             then tmp ++ lane_bytes (lengthInBytes mod 8) (A s !!! lengthInQuads)
             else tmp in
  (tmp, keccakReset s).

Definition keccakDigest (s : keccakState) := digest s (length s) keccakAddPadding.
Definition sha3Digest (s : keccakState) := digest s (length s) sha3AddPadding.
Definition shakeDigest (s : keccakState) := digest s (d s) shakeAddPadding.


(** ** The permutation, lane by lane

    The loops are evaluated on a state of 25 symbolic lanes; the 25 positions
    are then compared one by one. *)

Ltac explode l :=
  match goal with
  | H : List.length l = ?n |- _ =>
      let rec go l n :=
        lazymatch n with
        | O => destruct l; [clear H|discriminate H]
        | S ?n' => let x := fresh "a" in let l' := fresh "l" in
                   destruct l as [|x l']; [discriminate H|go l' n']
        end in go l n
  end.
Ltac cases5 x :=
  lazymatch goal with
  | H : (x < 5)%nat |- _ =>
      destruct x as [|[|[|[|[|x]]]]]; [clear H|clear H|clear H|clear H|clear H|exfalso; lia]
  end.
Ltac lanes := cbv -[Z.lxor Z.land Z.lor Z.shiftl Z.shiftr Z.testbit rotateLeft not64 R RC].

Definition parity (A : list Z) (x : nat) : Z :=
  Z.lxor (Z.lxor (Z.lxor (Z.lxor (A !!! x) (A !!! (5 + x)%nat))
    (A !!! (10 + x)%nat)) (A !!! (15 + x)%nat)) (A !!! (20 + x)%nat).

Lemma column_parities_spec A C :
  List.length A = 25%nat → List.length C = 5%nat →
  column_parities A C = map (parity A) (seq 0 5).
Proof. intros HA HC. explode A. explode C. by lanes. Qed.

Lemma theta_spec C A D :
  List.length C = 5%nat → List.length A = 25%nat → List.length D = 5%nat →
  theta C (A, D) =
    (map (λ k, Z.lxor (A !!! k)
       (Z.lxor (C !!! ((k mod 5 + 4) mod 5)%nat) (rotateLeft (C !!! ((k mod 5 + 1) mod 5)%nat) 1)))
       (seq 0 25),
     map (λ x, Z.lxor (C !!! ((x + 4) mod 5)%nat) (rotateLeft (C !!! ((x + 1) mod 5)%nat) 1))
       (seq 0 5)).
Proof. intros HC HA HD. explode C. explode A. explode D. by lanes. Qed.

(** Position [5y+x] of [B] comes from position [(x+3y, x)] of [A]. *)
Definition pi_src (k : nat) : nat :=
  (5 * (k mod 5) + (k mod 5 + 3 * (k / 5)) mod 5)%nat.

Lemma rho_pi_spec A B :
  List.length A = 25%nat → List.length B = 25%nat →
  rho_pi A B = map (λ k, rotateLeft (A !!! pi_src k) (R !!! pi_src k)) (seq 0 25).
Proof. intros HA HB. explode A. explode B. by lanes. Qed.

Lemma chi_spec B A :
  List.length A = 25%nat → List.length B = 25%nat →
  chi B A = map (λ k, Z.lxor (B !!! k)
    (Z.land (not64 (B !!! (5 * (k / 5) + (k mod 5 + 1) mod 5)%nat))
       (B !!! (5 * (k / 5) + (k mod 5 + 2) mod 5)%nat))) (seq 0 25).
Proof. intros HA HB. explode A. explode B. by lanes. Qed.

(** One round as a function of the 25 lanes. *)
Definition theta_lanes (A : list Z) : list Z :=
  map (λ k, Z.lxor (A !!! k)
    (Z.lxor (parity A ((k mod 5 + 4) mod 5)) (rotateLeft (parity A ((k mod 5 + 1) mod 5)) 1)))
    (seq 0 25).
Definition rho_pi_lanes (A : list Z) : list Z :=
  map (λ k, rotateLeft (A !!! pi_src k) (R !!! pi_src k)) (seq 0 25).
Definition chi_lanes (B : list Z) : list Z :=
  map (λ k, Z.lxor (B !!! k)
    (Z.land (not64 (B !!! (5 * (k / 5) + (k mod 5 + 1) mod 5)%nat))
       (B !!! (5 * (k / 5) + (k mod 5 + 2) mod 5)%nat))) (seq 0 25).
Definition iota_lanes (n : nat) (A : list Z) : list Z := <[0%nat := Z.lxor (A !!! 0%nat) (RC !!! n)]> A.
Definition round_lanes (n : nat) (A : list Z) : list Z :=
  iota_lanes n (chi_lanes (rho_pi_lanes (theta_lanes A))).

Definition kstate_ok (k : keccakfState) : Prop :=
  List.length (B k) = 25%nat ∧ List.length (C k) = 5%nat ∧ List.length (D k) = 5%nat.

Lemma length_round_lanes n A : List.length (round_lanes n A) = 25%nat.
Proof. unfold round_lanes, iota_lanes. by rewrite length_insert. Qed.

Lemma theta_lanes_eq A :
  map (λ k, Z.lxor (A !!! k)
    (Z.lxor (map (parity A) (seq 0 5) !!! ((k mod 5 + 4) mod 5)%nat)
       (rotateLeft (map (parity A) (seq 0 5) !!! ((k mod 5 + 1) mod 5)%nat) 1))) (seq 0 25)
  = theta_lanes A.
Proof. cbv -[Z.lxor rotateLeft parity]. reflexivity. Qed.

(** The scratch arrays are dead at the start of a round. *)
Lemma keccakf_round_kstate n A k :
  List.length A = 25%nat → kstate_ok k →
  ∃ k', keccakf_round n (A, k) = (round_lanes n A, k') ∧ kstate_ok k'.
Proof.
  intros HA (HB & HC & HD). unfold keccakf_round.
  rewrite column_parities_spec, theta_spec by done.
  rewrite rho_pi_spec, chi_spec, theta_lanes_eq by done. eexists. split; [reflexivity|by split_and!].
Qed.

Lemma keccakf_rounds A k n m :
  List.length A = 25%nat → kstate_ok k →
  fst (for_from n m keccakf_round (A, k)) = foldl (λ A i, round_lanes i A) A (seq m n).
Proof.
  revert A k m. induction n as [|n IH]; intros A k m HA Hk; [done|].
  cbn [for_from seq foldl].
  destruct (keccakf_round_kstate m A k HA Hk) as (k' & -> & Hk').
  apply IH; [apply length_round_lanes|done].
Qed.

Lemma keccakf_spec A :
  List.length A = 25%nat → keccakf A = foldl (λ A i, round_lanes i A) A (seq 0 24).
Proof. intros HA. unfold keccakf. by rewrite keccakf_rounds. Qed.

Lemma length_keccakf A : List.length A = 25%nat → List.length (keccakf A) = 25%nat.
Proof.
  intros HA. rewrite keccakf_spec by done.
  change (seq 0 24) with (seq 0 23 ++ [23%nat]). rewrite foldl_app. apply length_round_lanes.
Qed.

(** ** Ranges *)

Lemma is_u64_pow z : is_u64 z ↔ 0 ≤ z < 2 ^ 64.
Proof. done. Qed.

Lemma rotateLeft_testbit x n z :
  is_u64 x → 0 ≤ n < 64 → 0 ≤ z < 64 →
  Z.testbit (rotateLeft x n) z = Z.testbit x ((z - n) mod 64).
Proof.
  intros Hx Hn Hz. unfold rotateLeft. change (8 * 8 - 1) with (Z.ones 6).
  rewrite !Z.land_ones by lia. change (2 ^ 6) with 64.
  rewrite (Z.mod_small n) by lia. rewrite Z.lor_spec. unfold u64.
  change 18446744073709551616 with (2 ^ 64). rewrite Z.mod_pow2_bits_low by lia.
  rewrite Z.shiftl_spec, Z.shiftr_spec by lia.
  destruct (decide (n = 0)) as [->|Hn0].
  - change (-0 mod 64) with 0. rewrite Z.add_0_r, Z.sub_0_r, Z.mod_small by lia. apply orb_diag.
  - replace (- n mod 64) with (64 - n) by (rewrite Z.mod_opp_l_nz; rewrite ?(Z.mod_small n); lia).
    destruct (decide (n ≤ z)).
    + rewrite (testbit_high x 64 (z + (64 - n))) by (rewrite <- ?is_u64_pow; first [done|lia]).
      rewrite Z.mod_small by lia. apply orb_false_r.
    + rewrite (Z.testbit_neg_r x (z - n)) by lia. rewrite orb_false_l. f_equal.
      rewrite <- (Z.mod_add _ 1) by lia. rewrite Z.mod_small; lia.
Qed.

Lemma rotateLeft_range x n : is_u64 x → is_u64 (rotateLeft x n).
Proof.
  intros Hx. apply is_u64_pow. unfold rotateLeft. apply lor_bounded; [lia|apply u64_range|].
  rewrite Z.shiftr_div_pow2.
  - assert (0 < 2 ^ Z.land (- Z.land n (8 * 8 - 1)) (8 * 8 - 1)).
    { apply Z.pow_pos_nonneg; [lia|]. apply Z.land_nonneg. by right. }
    unfold is_u64 in Hx. split; [apply Z.div_pos; lia|].
    apply Z.le_lt_trans with x; [|lia]. apply Z.div_le_upper_bound; [lia|]. nia.
  - apply Z.land_nonneg. by right.
Qed.

Lemma lxor_u64 a b : is_u64 a → is_u64 b → is_u64 (Z.lxor a b).
Proof. apply (lxor_bounded a b 64). lia. Qed.
Lemma land_u64 a b : is_u64 a → is_u64 b → is_u64 (Z.land a b).
Proof. intros Ha [Hb _]. by apply (land_bounded a b 64). Qed.
Lemma not64_u64 a : is_u64 (not64 a).
Proof. apply u64_range. Qed.
#[local] Hint Resolve rotateLeft_range lxor_u64 land_u64 not64_u64 : word.

Abbreviation lanes_ok := (Forall is_u64).

Lemma lookup_u64 A k : lanes_ok A → is_u64 (A !!! k).
Proof.
  intros HA. rewrite list_lookup_total_alt. destruct (A !! k) as [a|] eqn:E; simpl.
  - by apply (Forall_lookup_1 _ _ _ _ HA E).
  - done.
Qed.
#[local] Hint Resolve lookup_u64 : word.

Lemma RC_u64 n : is_u64 (RC !!! n).
Proof. apply lookup_u64. repeat constructor; lia. Qed.
#[local] Hint Resolve RC_u64 : word.

Lemma lanes_map_ok f : (∀ k, is_u64 (f k)) → lanes_ok (map f (seq 0 25)).
Proof. intros Hf. apply List.Forall_forall. intros x (k & <- & _)%in_map_iff. apply Hf. Qed.

Lemma parity_u64 A x : lanes_ok A → is_u64 (parity A x).
Proof. intros HA. unfold parity. auto 10 with word. Qed.
#[local] Hint Resolve parity_u64 : word.

Lemma theta_lanes_ok A : lanes_ok A → lanes_ok (theta_lanes A).
Proof. intros HA. apply lanes_map_ok. auto with word. Qed.
Lemma rho_pi_lanes_ok A : lanes_ok A → lanes_ok (rho_pi_lanes A).
Proof. intros HA. apply lanes_map_ok. auto with word. Qed.
Lemma chi_lanes_ok A : lanes_ok A → lanes_ok (chi_lanes A).
Proof. intros HA. apply lanes_map_ok. auto with word. Qed.
Lemma iota_lanes_ok n A : lanes_ok A → lanes_ok (iota_lanes n A).
Proof. intros HA. apply Forall_insert; auto with word. Qed.
Lemma round_lanes_ok n A : lanes_ok A → lanes_ok (round_lanes n A).
Proof.
  intros HA. by apply iota_lanes_ok, chi_lanes_ok, rho_pi_lanes_ok, theta_lanes_ok.
Qed.

Lemma keccakf_ok A : List.length A = 25%nat → lanes_ok A → lanes_ok (keccakf A).
Proof.
  intros HA Hok. rewrite keccakf_spec by done. clear HA. revert A Hok.
  induction (seq 0 24) as [|i l IH]; intros A Hok; simpl; [done|].
  apply IH. by apply round_lanes_ok.
Qed.

(** ** The sponge object as a block stream *)

#[local] Opaque keccakf.

(** The buffer is full-size and never full between calls. *)
Definition sponge_ok (bs : nat) (s : keccakState) : Prop :=
  List.length (A s) = 25%nat ∧ blockLen s = bs ∧ List.length (buffer s) = bs ∧
  (bufferLen s < bs)%nat.

(** Absorbing one block. *)
Definition block_step (bs : nat) (A : list Z) (blk : bytes) : list Z := keccakf (xor_block bs blk A).

Definition sponge_view (s : keccakState) : list Z * bytes := (A s, take (bufferLen s) (buffer s)).

Lemma length_xor_block bs blk A : List.length (xor_block bs blk A) = List.length A.
Proof.
  unfold xor_block. apply (for_from_inv (λ _ A', List.length A' = List.length A)); [done|].
  intros. by rewrite length_insert.
Qed.

Lemma length_block_step bs A blk :
  List.length A = 25%nat → List.length (block_step bs A blk) = 25%nat.
Proof. intros HA. apply length_keccakf. by rewrite length_xor_block. Qed.

(** What one iteration of the update loop does to the view. *)
Lemma update_iter_spec bs input s :
  sponge_ok bs s → input ≠ [] →
  ∃ rest s', update_iter input s = (rest, s') ∧ sponge_ok bs s' ∧
    (List.length rest < List.length input)%nat ∧
    absorb bs (block_step bs) (A s) (snd (sponge_view s) ++ input)
    = absorb bs (block_step bs) (A s') (snd (sponge_view s') ++ rest) ∧
    length s' = length s ∧ d s' = d s.
Proof.
  intros (HA & Hb & Hbuf & Hlt) Hne. unfold update_iter. rewrite Hb.
  set (n := if (List.length input <? bs - bufferLen s)%nat then _ else _).
  assert (Hn : (0 < n ∧ n ≤ List.length input ∧ bufferLen s + n ≤ bs)%nat).
  { subst n. destruct input; [done|]. cbn [List.length].
    case_match eqn:E; [apply Nat.ltb_lt in E|apply Nat.ltb_ge in E]; lia. }
  rewrite for_to_copy by lia. set (b' := memcpy _ _ _).
  assert (Hb' : List.length b' = bs).
  { subst b'. rewrite length_memcpy by (rewrite length_take; lia). done. }
  assert (Htk : take (bufferLen s + n) b' = take (bufferLen s) (buffer s) ++ take n input).
  { subst b'. rewrite <- take_memcpy by lia. by rewrite length_take, Nat.min_l by lia. }
  cbn [bufferLen blockLen].
  eexists (drop n input), _. split; [reflexivity|]. rewrite length_drop.
  destruct (Nat.eqb_spec (bufferLen s + n) bs) as [Heq|Hneq].
  - split; [unfold sponge_ok; cbn; split_and!; rewrite ?Hb'; try lia; by apply length_block_step|].
    split; [lia|]. split; [|done]. cbn [sponge_view snd A bufferLen buffer].
    rewrite <- (take_drop n input) at 1. rewrite app_assoc, <- Htk, Heq.
    rewrite take_ge by lia. rewrite (absorb_ge bs (block_step bs)).
    + by rewrite take_app_length', drop_app_length'.
    + lia.
    + rewrite length_app. lia.
  - split; [unfold sponge_ok; cbn; split_and!; (done || lia)|]. split; [lia|]. split; [|done].
    cbn [sponge_view snd A bufferLen buffer].
    by rewrite Htk, <- app_assoc, take_drop.
Qed.

Lemma sponge_view_nil bs s :
  (0 < bs)%nat → sponge_ok bs s →
  sponge_view s = absorb bs (block_step bs) (A s) (snd (sponge_view s) ++ []).
Proof.
  intros Hbs (_ & _ & Hbuf & Hlt). rewrite app_nil_r, absorb_lt; [done|done|].
  cbn [sponge_view snd]. rewrite length_take. lia.
Qed.

Lemma update_loop_spec bs fuel input s :
  (0 < bs)%nat → sponge_ok bs s → (List.length input ≤ fuel)%nat →
  let s' := update_loop fuel input s in
  sponge_ok bs s' ∧
  sponge_view s' = absorb bs (block_step bs) (A s) (snd (sponge_view s) ++ input) ∧
  length s' = length s ∧ d s' = d s.
Proof.
  intros Hbs. revert input s. induction fuel as [|fuel IH]; intros [|b input] s Hok Hlen.
  1,3: cbn; split; [done|]; split; [|done]; by apply sponge_view_nil.
  - simpl in Hlen. lia.
  - destruct (update_iter_spec bs (b :: input) s Hok) as (rest & s' & E & Hok' & Hr & Hab & Hl & Hd);
      [done|]. cbn [update_loop]. rewrite E. rewrite Hab. rewrite <- Hl, <- Hd.
    apply IH; [done|]. cbn [List.length] in Hlen, Hr. lia.
Qed.

Lemma keccakUpdate_spec bs input s :
  (0 < bs)%nat → sponge_ok bs s →
  sponge_ok bs (keccakUpdate input s) ∧
  sponge_view (keccakUpdate input s)
  = absorb bs (block_step bs) (A s) (snd (sponge_view s) ++ input) ∧
  length (keccakUpdate input s) = length s ∧ d (keccakUpdate input s) = d s.
Proof. intros Hbs Hok. by apply update_loop_spec. Qed.

(** SHA3-256 has rate 1088, a block of 136 bytes. *)
#[global] Program Instance sponge_stream : StreamHash keccakState (list Z) := {|
  sh_bs := 136;
  sh_step := block_step 136;
  sh_ok s := sponge_ok 136 s ∧ length s = 256;
  sh_view := sponge_view;
  sh_write s m := keccakUpdate m s
|}.
Next Obligation. lia. Qed.
Next Obligation.
  intros h m [Hok Hl]. destruct (keccakUpdate_spec 136 m h) as (H1 & _ & H2 & _); [lia|done|].
  split; [done|congruence].
Qed.
Next Obligation. intros h m [Hok _]. by apply keccakUpdate_spec; [lia|]. Qed.

(** ** Padding *)

(** The bytes the SHA-3 padding adds to [n] pending bytes of a block. *)
Definition pad_bytes (one two : Z) (bs n : nat) : bytes :=
  if (n + 1 =? bs)%nat then [one] else two :: replicate (bs - n - 2) 0 ++ [0x80].

Lemma length_pad_bytes one two bs n :
  (n < bs)%nat → List.length (pad_bytes one two bs n) = (bs - n)%nat.
Proof.
  intros Hn. unfold pad_bytes. destruct (Nat.eqb_spec (n + 1) bs); simpl; [lia|].
  rewrite length_app, length_replicate. simpl. lia.
Qed.

Lemma take_insert_S (l : bytes) n x :
  (n < List.length l)%nat → take (n + 1) (<[n := x]> l) = take n l ++ [x].
Proof.
  intros Hn. rewrite insert_take_drop by done.
  rewrite take_app_ge by (rewrite length_take; lia).
  rewrite length_take. replace (n + 1 - _)%nat with 1%nat by lia. done.
Qed.

Lemma add_padding_spec bs one two s :
  sponge_ok bs s →
  add_padding one two s =
  KState (A s) bs (snd (sponge_view s) ++ pad_bytes one two bs (bufferLen s))
    (bufferLen s) (length s) (d s).
Proof.
  intros (HA & Hb & Hbuf & Hlt). unfold add_padding. rewrite Hb. f_equal.
  cbn [sponge_view snd]. unfold pad_bytes. set (n := bufferLen s) in *.
  destruct (Nat.eqb_spec (n + 1) bs) as [He|Hne].
  - rewrite insert_take_drop by lia. rewrite (drop_ge (buffer s)) by lia. done.
  - rewrite for_from_set by (rewrite length_insert; lia).
    replace (bs - 1 - (n + 1))%nat with (bs - n - 2)%nat by lia.
    replace (map (λ _, 0) (seq (n + 1) (bs - n - 2))) with (replicate (bs - n - 2) 0).
    2:{ apply list_eq_total; [by rewrite length_map, length_seq, length_replicate|].
        intros i Hi. rewrite length_replicate in Hi.
        by rewrite lookup_total_map_seq, lookup_total_replicate_2. }
    unfold memcpy. rewrite length_replicate.
    replace (n + 1 + (bs - n - 2))%nat with (bs - 1)%nat by lia.
    rewrite take_insert_S by lia. rewrite drop_insert_lt by lia.
    destruct (lookup_lt_is_Some_2 (buffer s) (bs - 1)) as [z Hz]; [lia|].
    rewrite (drop_S _ z _ Hz), (drop_ge _ (S (bs - 1))) by lia.
    rewrite app_assoc.
    rewrite insert_app_r_alt by (rewrite !length_app, length_take, length_replicate; simpl; lia).
    rewrite !length_app, length_take, length_replicate. simpl.
    replace (bs - 1 - _)%nat with 0%nat by lia. simpl.
    by rewrite <- !app_assoc.
Qed.

(** ** Digest *)

Lemma keccakReset_spec s :
  List.length (A s) = 25%nat →
  keccakReset s = KState (replicate 25 0) (blockLen s) (buffer s) 0 (length s) (d s).
Proof. intros HA. destruct s as [A ? ? ? ? ?]. cbn in HA. explode A. reflexivity. Qed.

(** The four lanes of a 256-bit digest. *)
Definition digest256 (A : list Z) : bytes := concat (map (lane_bytes 8) (take 4 A)).

Lemma length_digest256 A : List.length A = 25%nat → List.length (digest256 A) = 32%nat.
Proof. intros HA. explode A. reflexivity. Qed.

Lemma sha3Digest_spec bs s :
  sponge_ok bs s → length s = 256 →
  fst (sha3Digest s) = digest256 (block_step bs (A s)
    (snd (sponge_view s) ++ pad_bytes 0x86 0x06 bs (bufferLen s))).
Proof.
  intros Hok Hl. unfold sha3Digest, digest, sha3AddPadding.
  rewrite (add_padding_spec bs) by done. rewrite Hl. change (Z.to_nat (256 / 8)) with 32%nat.
  unfold keccakProcessBuffer. cbn [fst A blockLen buffer].
  fold (block_step bs (A s) (snd (sponge_view s) ++ pad_bytes 0x86 0x06 bs (bufferLen s))).
  assert (HA : List.length (block_step bs (A s)
    (snd (sponge_view s) ++ pad_bytes 0x86 0x06 bs (bufferLen s))) = 25%nat)
    by (apply length_block_step, Hok).
  destruct (block_step _ _ _) as [|a0 [|a1 [|a2 [|a3 l]]]]; try discriminate HA.
  reflexivity.
Qed.

End Keccak.

Module CSha3.
Import Keccak.

(** ** The hasher class (crypto/sha3.h, crypto/sha3.cpp) *)

Definition bufferSize : Z := 4096.
Definition hashWidth : Z := 256.
Definition OUTPUT_SIZE : nat := 32.

Definition Init : keccakState := keccakCreate hashWidth.

(** The loop of [Write]: [pos] is an [unsigned int], [len] a [size_t], so the
    difference is taken modulo 2^64 and the sum modulo 2^32.  [bytesRead] keeps
    its value from the previous iteration.  [None]: still running when the fuel
    is used up. *)
Fixpoint write_loop (fuel : nat) (data : bytes) (len pos bytesRead : Z) (Kst : keccakState)
    : option keccakState :=
  match fuel with
  | O => None
  | S fuel' =>
      let bytesRead := if u64 (len - pos) <? bufferSize then u32 (len - pos) else bytesRead in
      let buf := take (Z.to_nat bytesRead) (drop (Z.to_nat pos) data) in
      let Kst := keccakUpdate buf Kst in
      if bytesRead <? bufferSize then Some Kst
      else write_loop fuel' data len (u32 (pos + bytesRead)) bytesRead Kst
  end.

Definition Write (Kst : keccakState) (data : bytes) : option keccakState :=
  write_loop (S (List.length data)) data (Z.of_nat (List.length data)) 0 bufferSize Kst.

(** [Finalize] copies 32 bytes of the digest and frees the object. *)
Definition Finalize (Kst : keccakState) : bytes := take OUTPUT_SIZE (fst (sha3Digest Kst)).

(** A hasher used for a sequence of writes. *)
Fixpoint Writes (Kst : keccakState) (chunks : list bytes) : option keccakState :=
  match chunks with
  | [] => Some Kst
  | c :: cs => Kst' ← Write Kst c; Writes Kst' cs
  end.

Definition hash (chunks : list bytes) : option bytes :=
  Kst ← Writes Init chunks; Some (Finalize Kst).


(** The interface laws, read for [keccakUpdate]. *)
Lemma stream_bs : sh_bs (StreamHash := sponge_stream) = 136%nat.
Proof. reflexivity. Qed.
Lemma stream_step : sh_step (StreamHash := sponge_stream) = block_step 136.
Proof. reflexivity. Qed.
Lemma stream_view : sh_view (StreamHash := sponge_stream) = sponge_view.
Proof. reflexivity. Qed.
Lemma update_ok Kst m : sh_ok Kst → sh_ok (keccakUpdate m Kst).
Proof. exact (sh_write_ok Kst m). Qed.
Lemma update_view Kst m : sh_ok Kst →
  sh_view (keccakUpdate m Kst) = absorb sh_bs sh_step (fst (sh_view Kst)) (snd (sh_view Kst) ++ m).
Proof. exact (sh_write_view Kst m). Qed.

(** [Write] hands the data on in chunks of 4096 bytes. *)
Lemma write_loop_spec fuel data pos Kst :
  sh_ok Kst → Z.of_nat (List.length data) < 2 ^ 32 → 0 ≤ pos ≤ Z.of_nat (List.length data) →
  Z.of_nat (List.length data) - pos < Z.of_nat fuel →
  ∃ K', write_loop fuel data (Z.of_nat (List.length data)) pos bufferSize Kst = Some K' ∧
    sh_ok K' ∧
    sh_view K' = absorb sh_bs sh_step (fst (sh_view Kst)) (snd (sh_view Kst) ++ drop (Z.to_nat pos) data).
Proof.
  intros Hok Hlen. revert pos Kst Hok.
  induction fuel as [|fuel IH]; intros pos Kst Hok Hpos Hf; [lia|]. cbn [write_loop].
  rewrite u64_small, u32_small by word_lia. unfold bufferSize in *.
  destruct (Z.ltb_spec (Z.of_nat (List.length data) - pos) 4096) as [Hlt|Hge].
  - rewrite (proj2 (Z.ltb_lt _ 4096)) by done. eexists. split; [reflexivity|].
    split; [by apply update_ok|].
    rewrite take_ge by (rewrite length_drop; lia).
    by rewrite update_view.
  - rewrite (proj2 (Z.ltb_ge 4096 4096)) by lia. rewrite u32_small by word_lia.
    set (c := take (Z.to_nat 4096) (drop (Z.to_nat pos) data)).
    assert (Hok' : sh_ok (keccakUpdate c Kst)) by (by apply update_ok).
    destruct (IH (pos + 4096) (keccakUpdate c Kst)) as (K' & -> & HK & Hv); [done|lia|lia|].
    exists K'. split; [done|]. split; [done|]. rewrite Hv.
    rewrite (update_view Kst c Hok).
    rewrite <- (absorb_app _ _ sh_bs_pos), <- app_assoc. f_equal. f_equal. subst c.
    rewrite Z2Nat.inj_add by lia. by rewrite <- drop_drop, take_drop.
Qed.

Lemma Write_spec Kst data :
  sh_ok Kst → Z.of_nat (List.length data) < 2 ^ 32 →
  ∃ K', Write Kst data = Some K' ∧ sh_ok K' ∧
    sh_view K' = absorb sh_bs sh_step (fst (sh_view Kst)) (snd (sh_view Kst) ++ data).
Proof.
  intros Hok Hlen. destruct (write_loop_spec (S (List.length data)) data 0 Kst)
    as (K' & HW & HK & Hv); [done|done|lia|lia|]. eauto.
Qed.

Lemma Writes_spec chunks Kst :
  sh_ok Kst → Forall (λ c, Z.of_nat (List.length c) < 2 ^ 32) chunks →
  (List.length (snd (sh_view Kst)) < sh_bs)%nat →
  ∃ K', Writes Kst chunks = Some K' ∧ sh_ok K' ∧
    sh_view K' = absorb sh_bs sh_step (fst (sh_view Kst)) (snd (sh_view Kst) ++ concat chunks).
Proof.
  intros Hok Hc. revert Kst Hok. induction Hc as [|c cs Hc Hcs IH]; intros Kst Hok Hlt.
  - exists Kst. split; [done|]. split; [done|].
    simpl concat. rewrite app_nil_r, absorb_lt; [|apply sh_bs_pos|done].
    by destruct (sh_view Kst).
  - destruct (Write_spec Kst c Hok Hc) as (K1 & HW & HK1 & Hv1).
    destruct (IH K1 HK1) as (K' & HWs & HK & Hv).
    { rewrite Hv1. apply absorb_rest_lt, sh_bs_pos. }
    exists K'. cbn [Writes]. rewrite HW. simpl mbind. split; [done|]. split; [done|].
    rewrite Hv, Hv1. cbn [concat]. by rewrite app_assoc, <- (absorb_app _ _ sh_bs_pos).
Qed.

(** An input of 4 GiB or more never ends: [pos] wraps to 0 before
    [len - pos] falls below the chunk size. *)
Lemma write_loop_diverges fuel data len pos Kst :
  2 ^ 32 ≤ len < 2 ^ 63 → 0 ≤ pos < 2 ^ 32 → pos mod 4096 = 0 →
  write_loop fuel data len pos bufferSize Kst = None.
Proof.
  intros Hlen. revert pos Kst. induction fuel as [|fuel IH]; intros pos Kst Hpos Hm; [done|].
  cbn [write_loop]. unfold bufferSize.
  assert (pos ≤ 2 ^ 32 - 4096) by zlin.
  rewrite u64_small by word_lia. rewrite (proj2 (Z.ltb_ge (len - pos) 4096)) by lia.
  rewrite (proj2 (Z.ltb_ge 4096 4096)) by lia. apply IH.
  - apply u32_range.
  - unfold u32. zlin.
Qed.

Lemma Write_diverges Kst data :
  2 ^ 32 ≤ Z.of_nat (List.length data) < 2 ^ 63 → ∀ fuel,
  write_loop fuel data (Z.of_nat (List.length data)) 0 bufferSize Kst = None.
Proof. intros Hlen fuel. by apply write_loop_diverges. Qed.

Lemma Init_ok : sh_ok Init ∧ sh_view Init = (replicate 25 0, []).
Proof. split; [|reflexivity]. split; [|reflexivity]. unfold sponge_ok. cbn. split_and!; lia || done. Qed.

(** The digest of a sequence of writes in terms of the reference cutter. *)
Definition sha3_of (A : list Z) (rest : bytes) : bytes :=
  digest256 (block_step 136 A (rest ++ pad_bytes 0x86 0x06 136 (List.length rest))).

Lemma hash_spec chunks :
  Forall (λ c, Z.of_nat (List.length c) < 2 ^ 32) chunks →
  hash chunks = Some (let '(A, rest) := absorb 136 (block_step 136) (replicate 25 0) (concat chunks) in
                      sha3_of A rest).
Proof.
  intros Hc. destruct Init_ok as [Hi Hv]. unfold hash.
  destruct (Writes_spec chunks Init Hi Hc) as (K' & -> & [HK HL] & HvK); [rewrite Hv; cbn; lia|].
  simpl mbind. f_equal. rewrite Hv in HvK. cbn [fst snd app] in HvK.
  rewrite stream_bs, stream_step, stream_view in HvK. rewrite <- HvK. unfold Finalize, sha3_of. cbn [sponge_view].
  destruct HK as (HA & Hb & Hbuf & Hlt).
  rewrite (sha3Digest_spec 136) by done. cbn [sponge_view snd].
  replace (List.length (take (bufferLen K') (buffer K'))) with (bufferLen K')
    by (rewrite length_take; lia).
  apply take_ge. rewrite length_digest256; [done|]. by apply length_block_step.
Qed.

End CSha3.
