(* ===== verification/Fips202.v ===== *)
(** * SHA3-256 against FIPS 202

    [Module Fips202] is the standard's definition at the level of bits: the
    step mappings on the 5x5x64 state array, the round constants and rotation
    offsets by their generating algorithms, the sponge with [pad10*1], and
    SHA3-256 as [KECCAK[512](M || 01, 256)].  The rest of the file proves that
    the code of Keccak.v computes it. *)

From stdpp Require Import base numbers list option.
From Stdlib Require Import ZArith Lia ZifyNat.
From S2P Require Import Prelude BlockStream Keccak.

Module Fips202.

(** ** State arrays (FIPS 202, section 3.1): [A[x,y,z] = S[64(5y+x)+z]] *)
Definition get (S : list bool) (x y z : nat) : bool := nth (64 * (5 * y + x) + z) S false.
Definition tabulate (f : nat → nat → nat → bool) : list bool :=
  map (λ k, f (k / 64 mod 5)%nat (k / 320)%nat (k mod 64)%nat) (seq 0 1600).

(** ** Step mappings (section 3.2) *)
Definition parity (S : list bool) (x z : nat) : bool :=
  xorb (get S x 0 z) (xorb (get S x 1 z) (xorb (get S x 2 z) (xorb (get S x 3 z) (get S x 4 z)))).
Definition theta (S : list bool) : list bool :=
  tabulate (λ x y z, xorb (get S x y z)
    (xorb (parity S ((x + 4) mod 5) z) (parity S ((x + 1) mod 5) ((z + 63) mod 64)))).

(** Offsets: from (1,0), at step t the lane (x,y) gets (t+1)(t+2)/2 and the
    next lane is (y, 2x+3y). *)
Fixpoint rho_offset_go (fuel t cx cy x y : nat) : nat :=
  match fuel with
  | O => 0%nat
  | S fuel' => if ((cx =? x) && (cy =? y))%nat then ((t + 1) * (t + 2) / 2)%nat
               else rho_offset_go fuel' (t + 1) cy ((2 * cx + 3 * cy) mod 5) x y
  end.
Definition rho_offset (x y : nat) : nat := rho_offset_go 24 0 1 0 x y.
Definition rho (S : list bool) : list bool :=
  tabulate (λ x y z, get S x y ((z + 64 - rho_offset x y mod 64) mod 64)).

Definition pi (S : list bool) : list bool :=
  tabulate (λ x y z, get S ((x + 3 * y) mod 5) x z).

Definition chi (S : list bool) : list bool :=
  tabulate (λ x y z, xorb (get S x y z)
    (xorb (get S ((x + 1) mod 5) y z) true && get S ((x + 2) mod 5) y z)).

(** Round constants: the linear feedback shift register [rc]. *)
Definition lfsr (R : list bool) : list bool :=
  let R := false :: R in
  let r8 := nth 8 R false in
  take 8 (zip_with xorb R [r8; false; false; false; r8; r8; r8; false; false]).
Definition rc (t : nat) : bool :=
  nth 0 (Nat.iter (t mod 255) lfsr [true; false; false; false; false; false; false; false]) false.
(** Bit [2^j - 1] of [RC] is [rc(j + 7 ir)], the others are zero. *)
Definition RC (ir z : nat) : bool :=
  existsb (λ j, if (z =? 2 ^ j - 1)%nat then rc (j + 7 * ir) else false) (seq 0 7).
Definition iota (ir : nat) (S : list bool) : list bool :=
  tabulate (λ x y z, if ((x =? 0) && (y =? 0))%nat then xorb (get S x y z) (RC ir z)
                     else get S x y z).

Definition Rnd (S : list bool) (ir : nat) : list bool := iota ir (chi (pi (rho (theta S)))).
(** KECCAK-p[1600, 24]. *)
Definition keccak_p (S : list bool) : list bool := foldl Rnd S (seq 0 24).

(** ** Sponge (section 4) *)
Fixpoint sponge_absorb (fuel r : nat) (S : list bool) (P : list bool) : list bool :=
  match fuel with
  | O => S
  | S fuel' =>
      if (length P <? r)%nat then S
      else sponge_absorb fuel' r
             (keccak_p (zip_with xorb S (take r P ++ replicate (1600 - r) false))) (drop r P)
  end.
Definition pad10s1 (x m : nat) : list bool :=
  [true] ++ replicate ((x - (m + 2) mod x) mod x) false ++ [true].
(** KECCAK[c](N, d) for an output that fits in one block. *)
Definition KECCAK (c : nat) (N : list bool) (dlen : nat) : list bool :=
  let r := (1600 - c)%nat in
  let P := N ++ pad10s1 r (length N) in
  take dlen (sponge_absorb (length P) r (replicate 1600 false) P).

Definition SHA3_256 (M : list bool) : list bool := KECCAK 512 (M ++ [false; true]) 256.

(** Bytes to bits (appendix B.1): least significant bit first. *)
Definition word_bits (n : nat) (w : Z) : list bool :=
  map (λ i, Z.testbit w (Z.of_nat i)) (seq 0 n).
Definition bytes_bits (l : bytes) : list bool := concat (map (word_bits 8) l).
End Fips202.

(** ** Refinement *)
Module Fips202Refinement.
Import Fips202.

(** *** Bit strings of words *)

Lemma length_word_bits n w : length (word_bits n w) = n.
Proof. unfold word_bits. by rewrite length_map, length_seq. Qed.

Lemma nth_word_bits n w i : (i < n)%nat → nth i (word_bits n w) false = Z.testbit w (Z.of_nat i).
Proof.
  intros Hi. unfold word_bits.
  rewrite (nth_indep _ false (Z.testbit w (Z.of_nat 0))) by (rewrite length_map, length_seq; lia).
  rewrite (map_nth (λ i, Z.testbit w (Z.of_nat i))), seq_nth by done. done.
Qed.

Lemma nth_concat_words n (l : list Z) q r :
  (q < length l)%nat → (r < n)%nat →
  nth (n * q + r) (concat (map (word_bits n) l)) false = Z.testbit (l !!! q) (Z.of_nat r).
Proof.
  revert q. induction l as [|w l IH]; intros q Hq Hr; simpl in *; [lia|].
  destruct q as [|q].
  - rewrite app_nth1 by (rewrite length_word_bits; lia).
    rewrite Nat.mul_0_r. by apply nth_word_bits.
  - rewrite app_nth2 by (rewrite length_word_bits; lia). rewrite length_word_bits.
    replace (n * S q + r - n)%nat with (n * q + r)%nat by lia. apply IH; lia.
Qed.

Lemma length_concat_words n l : length (concat (map (word_bits n) l)) = (n * length l)%nat.
Proof. induction l; simpl; rewrite ?length_app, ?length_word_bits; lia. Qed.

(** *** The state array of 25 lanes *)

Definition lane_bits (A : list Z) : list bool := concat (map (word_bits 64) A).

Lemma length_lane_bits A : length A = 25%nat → length (lane_bits A) = 1600%nat.
Proof. intros HA. unfold lane_bits. by rewrite length_concat_words, HA. Qed.

Lemma get_lane_bits A x y z :
  length A = 25%nat → (x < 5)%nat → (y < 5)%nat → (z < 64)%nat →
  get (lane_bits A) x y z = Z.testbit (A !!! (5 * y + x)%nat) (Z.of_nat z).
Proof. intros HA Hx Hy Hz. unfold get, lane_bits. apply nth_concat_words; lia. Qed.

Lemma length_tabulate f : length (tabulate f) = 1600%nat.
Proof. unfold tabulate. by rewrite length_map, length_seq. Qed.

Lemma nth_tabulate f k :
  (k < 1600)%nat → nth k (tabulate f) false = f (k / 64 mod 5)%nat (k / 320)%nat (k mod 64)%nat.
Proof.
  intros Hk. unfold tabulate. set (F := λ k, f (k / 64 mod 5)%nat (k / 320)%nat (k mod 64)%nat).
  rewrite (nth_indep _ false (F 0%nat)) by (rewrite length_map, length_seq; lia).
  by rewrite (map_nth F), seq_nth.
Qed.

Lemma get_tabulate f x y z :
  (x < 5)%nat → (y < 5)%nat → (z < 64)%nat → get (tabulate f) x y z = f x y z.
Proof.
  intros Hx Hy Hz. unfold get. rewrite nth_tabulate by lia.
  f_equal; zlin.
Qed.

Lemma tabulate_lanes f A :
  length A = 25%nat →
  (∀ x y z, (x < 5)%nat → (y < 5)%nat → (z < 64)%nat →
     f x y z = Z.testbit (A !!! (5 * y + x)%nat) (Z.of_nat z)) →
  tabulate f = lane_bits A.
Proof.
  intros HA Hf. apply (nth_ext _ _ false false).
  { by rewrite length_tabulate, length_lane_bits. }
  intros k Hk. rewrite length_tabulate in Hk. rewrite nth_tabulate by done.
  rewrite Hf by zlin. rewrite <- (nth_concat_words 64) by zlin.
  unfold lane_bits. f_equal. zlin.
Qed.

Lemma tabulate_ext f g :
  (∀ x y z, (x < 5)%nat → (y < 5)%nat → (z < 64)%nat → f x y z = g x y z) →
  tabulate f = tabulate g.
Proof.
  intros Hfg. unfold tabulate. apply map_ext_in. intros k [_ Hk]%in_seq.
  apply Hfg; zlin.
Qed.

(** *** The step mappings *)

Lemma parity_lanes A x z :
  length A = 25%nat → (x < 5)%nat → (z < 64)%nat →
  parity (lane_bits A) x z = Z.testbit (Keccak.parity A x) (Z.of_nat z).
Proof.
  intros HA Hx Hz. unfold parity, Keccak.parity. rewrite !get_lane_bits by lia.
  rewrite !Z.lxor_spec, !xorb_assoc. done.
Qed.

Lemma rotl_bit (A : list Z) (x n z : nat) :
  is_u64 (A !!! x) → (n < 64)%nat → (z < 64)%nat →
  Z.testbit (Keccak.rotateLeft (A !!! x) (Z.of_nat n)) (Z.of_nat z)
  = Z.testbit (A !!! x) (Z.of_nat ((z + 64 - n) mod 64)).
Proof.
  intros HA Hn Hz. rewrite Keccak.rotateLeft_testbit by (done || lia). f_equal. zlin.
Qed.

Lemma theta_refines A :
  length A = 25%nat → Forall is_u64 A → theta (lane_bits A) = lane_bits (Keccak.theta_lanes A).
Proof.
  intros HA Hok. apply tabulate_lanes; [done|]. intros x y z Hx Hy Hz.
  unfold Keccak.theta_lanes. rewrite lookup_total_map_seq by lia.
  rewrite Nat.add_0_l. replace ((5 * y + x) mod 5)%nat with x by zlin.
  rewrite !Z.lxor_spec, get_lane_bits, !parity_lanes by zlin. f_equal. f_equal.
  rewrite Keccak.rotateLeft_testbit; [|by apply Keccak.parity_u64|lia|lia]. f_equal. zlin.
Qed.

(** The table [R] is the sequence of triangular numbers along the orbit. *)
Lemma R_table x y : (x < 5)%nat → (y < 5)%nat →
  Keccak.R !!! (5 * y + x)%nat = Z.of_nat (rho_offset x y mod 64).
Proof.
  intros Hx Hy.
  destruct x as [|[|[|[|[|x]]]]], y as [|[|[|[|[|y]]]]]; try lia; vm_compute; reflexivity.
Qed.

Lemma rho_pi_refines A :
  length A = 25%nat → Forall is_u64 A → pi (rho (lane_bits A)) = lane_bits (Keccak.rho_pi_lanes A).
Proof.
  intros HA Hok. apply tabulate_lanes; [done|]. intros x y z Hx Hy Hz.
  unfold rho. rewrite get_tabulate by zlin.
  unfold Keccak.rho_pi_lanes. rewrite lookup_total_map_seq by lia. rewrite Nat.add_0_l.
  replace (Keccak.pi_src (5 * y + x)) with (5 * x + (x + 3 * y) mod 5)%nat
    by (unfold Keccak.pi_src; replace ((5 * y + x) mod 5)%nat with x by zlin;
        replace ((5 * y + x) / 5)%nat with y by zlin; done).
  rewrite R_table, rotl_bit by (first [apply Keccak.lookup_u64; done|zlin]).
  by rewrite get_lane_bits by zlin.
Qed.

Lemma not64_bit a z : (z < 64)%nat →
  Z.testbit (Keccak.not64 a) (Z.of_nat z) = negb (Z.testbit a (Z.of_nat z)).
Proof.
  intros Hz. unfold Keccak.not64, u64. change 18446744073709551616 with (2 ^ 64).
  rewrite Z.mod_pow2_bits_low by lia. apply Z.lnot_spec. lia.
Qed.

Lemma chi_refines A :
  length A = 25%nat → Forall is_u64 A → chi (lane_bits A) = lane_bits (Keccak.chi_lanes A).
Proof.
  intros HA Hok. apply tabulate_lanes; [done|]. intros x y z Hx Hy Hz.
  unfold Keccak.chi_lanes. rewrite lookup_total_map_seq by lia. rewrite Nat.add_0_l.
  replace ((5 * y + x) mod 5)%nat with x by zlin. replace ((5 * y + x) / 5)%nat with y by zlin.
  rewrite Z.lxor_spec, Z.land_spec, not64_bit, !get_lane_bits by zlin.
  by rewrite xorb_true_r.
Qed.

(** The table [RC] is the output of the shift register. *)
Lemma RC_table n z : (n < 24)%nat → (z < 64)%nat →
  Z.testbit (Keccak.RC !!! n) (Z.of_nat z) = RC n z.
Proof.
  intros Hn Hz.
  assert (H : forallb (λ n, forallb (λ z, Bool.eqb (Z.testbit (Keccak.RC !!! n) (Z.of_nat z)) (RC n z))
    (seq 0 64)) (seq 0 24) = true) by (vm_compute; reflexivity).
  rewrite forallb_forall in H. specialize (H n). rewrite forallb_forall in H.
  apply eqb_prop, H; apply in_seq; lia.
Qed.

Lemma iota_refines n A :
  length A = 25%nat → (n < 24)%nat → iota n (lane_bits A) = lane_bits (Keccak.iota_lanes n A).
Proof.
  intros HA Hn. unfold Keccak.iota_lanes. apply tabulate_lanes; [by rewrite length_insert|].
  intros x y z Hx Hy Hz. rewrite get_lane_bits by done.
  destruct (decide (5 * y + x = 0)%nat) as [E|E].
  - rewrite E, list_lookup_total_insert_eq by lia. replace x with 0%nat by lia.
    replace y with 0%nat by lia. by rewrite Z.lxor_spec, RC_table.
  - rewrite list_lookup_total_insert_ne by lia.
    destruct (Nat.eqb_spec x 0), (Nat.eqb_spec y 0); simpl; (done || lia).
Qed.

Lemma Rnd_refines n A :
  length A = 25%nat → Forall is_u64 A → (n < 24)%nat →
  Rnd (lane_bits A) n = lane_bits (Keccak.round_lanes n A).
Proof.
  intros HA Hok Hn. unfold Rnd, Keccak.round_lanes.
  rewrite theta_refines, rho_pi_refines, chi_refines, iota_refines;
    auto using Keccak.theta_lanes_ok, Keccak.rho_pi_lanes_ok.
Qed.

Lemma keccak_p_refines A :
  length A = 25%nat → Forall is_u64 A → keccak_p (lane_bits A) = lane_bits (Keccak.keccakf A).
Proof.
  intros HA Hok. rewrite Keccak.keccakf_spec by done. unfold keccak_p.
  assert (Hl : Forall (λ n, (n < 24)%nat) (seq 0 24)) by (apply List.Forall_forall; intros n [_ ?]%in_seq; lia).
  revert A HA Hok. induction Hl as [|n l Hn _ IH]; intros A HA Hok; simpl; [done|].
  rewrite Rnd_refines by done.
  apply IH; [apply Keccak.length_round_lanes|by apply Keccak.round_lanes_ok].
Qed.

(** *** Bytes and lanes *)

Lemma bytes_bits_app l1 l2 : bytes_bits (l1 ++ l2) = bytes_bits l1 ++ bytes_bits l2.
Proof. unfold bytes_bits. by rewrite map_app, concat_app. Qed.
Lemma lane_bits_app l1 l2 : lane_bits (l1 ++ l2) = lane_bits l1 ++ lane_bits l2.
Proof. unfold lane_bits. by rewrite map_app, concat_app. Qed.
Lemma length_bytes_bits l : length (bytes_bits l) = (8 * length l)%nat.
Proof. apply length_concat_words. Qed.

Lemma take_bytes_bits n l : (n ≤ length l)%nat → take (8 * n) (bytes_bits l) = bytes_bits (take n l).
Proof.
  intros Hn. rewrite <- (take_drop n l) at 1. rewrite bytes_bits_app.
  apply take_app_length'. rewrite length_bytes_bits, length_take. lia.
Qed.
Lemma drop_bytes_bits n l : (n ≤ length l)%nat → drop (8 * n) (bytes_bits l) = bytes_bits (drop n l).
Proof.
  intros Hn. rewrite <- (take_drop n l) at 1. rewrite bytes_bits_app.
  apply drop_app_length'. rewrite length_bytes_bits, length_take. lia.
Qed.

Lemma word_bits_split m d w :
  0 ≤ d < 256 → word_bits (8 + m) (d + 256 * w) = word_bits 8 d ++ word_bits m w.
Proof.
  intros Hd. apply (nth_ext _ _ false false).
  { by rewrite length_app, !length_word_bits. }
  intros i Hi. rewrite length_word_bits in Hi. rewrite nth_word_bits by done.
  replace (d + 256 * w) with (Z.lor d (Z.shiftl w 8))
    by (rewrite lor_add_disjoint by lia; lia).
  rewrite Z.lor_spec. destruct (decide (i < 8)%nat).
  - rewrite app_nth1, nth_word_bits by (rewrite ?length_word_bits; lia).
    rewrite Z.shiftl_spec_low by lia. apply orb_false_r.
  - rewrite app_nth2, nth_word_bits by (rewrite ?length_word_bits; lia).
    rewrite (testbit_high d 8) by lia. rewrite length_word_bits, Z.shiftl_spec by lia.
    simpl. f_equal. lia.
Qed.

Lemma word_bits_digits l :
  bytes_ok l → word_bits (8 * length l) (from_digits 256 l) = bytes_bits l.
Proof.
  induction 1 as [|d l Hd _ IH]; [done|]. cbn [from_digits length].
  replace (8 * S (length l))%nat with (8 + 8 * length l)%nat by lia.
  rewrite word_bits_split by done. by rewrite IH.
Qed.

Lemma block_lanes n blk :
  length blk = (8 * n)%nat → bytes_ok blk → lane_bits (map (Keccak.lane blk) (seq 0 n)) = bytes_bits blk.
Proof.
  revert blk. induction n as [|n IH]; intros blk Hl Hok.
  - by destruct blk.
  - cbn [seq map]. rewrite <- seq_shift, map_map.
    rewrite (map_ext _ (Keccak.lane (drop 8 blk)))
      by (intros i; unfold Keccak.lane; rewrite drop_drop; do 3 f_equal; lia).
    change (lane_bits (?a :: ?l)) with (word_bits 64 a ++ lane_bits l).
    rewrite IH; [|rewrite length_drop; lia|by apply Forall_drop].
    unfold Keccak.lane. rewrite Nat.mul_0_r, drop_0.
    assert (H8 : length (take 8 blk) = 8%nat) by (rewrite length_take; lia).
    replace (word_bits 64) with (word_bits (8 * length (take 8 blk))) by (by rewrite H8).
    rewrite word_bits_digits by (by apply Forall_take).
    by rewrite <- bytes_bits_app, take_drop.
Qed.

Lemma word_bits_lxor n a b : word_bits n (Z.lxor a b) = zip_with xorb (word_bits n a) (word_bits n b).
Proof.
  unfold word_bits. induction (seq 0 n) as [|i l IH]; simpl; [done|].
  by rewrite Z.lxor_spec, IH.
Qed.

Lemma lane_bits_lxor (A : list Z) f n :
  (n ≤ length A)%nat →
  lane_bits (map (λ i, Z.lxor (A !!! i) (f i)) (seq 0 n))
  = zip_with xorb (lane_bits (take n A)) (lane_bits (map f (seq 0 n))).
Proof.
  intros Hn. rewrite <- map_lookup_seq by done. unfold lane_bits. rewrite !map_map.
  induction (seq 0 n) as [|i l IH]; cbn [map concat]; [done|].
  rewrite zip_with_app by (by rewrite !length_word_bits). by rewrite IH, word_bits_lxor.
Qed.

Lemma zip_with_xorb_false (l : list bool) : zip_with xorb l (replicate (length l) false) = l.
Proof. induction l as [|b l IH]; simpl; [done|]. by rewrite IH, xorb_false_r. Qed.

(** *** The sponge *)

Lemma xor_block_refines A blk :
  length A = 25%nat → length blk = 136%nat → bytes_ok blk →
  zip_with xorb (lane_bits A) (bytes_bits blk ++ replicate 512 false)
  = lane_bits (Keccak.xor_block 136 blk A).
Proof.
  intros HA Hb Hok. unfold Keccak.xor_block. change (136 / 8)%nat with 17%nat.
  rewrite (for_to_modify (λ i a, Z.lxor a (Keccak.LittleToNative (Keccak.lane blk i)))) by lia.
  change Keccak.LittleToNative with (λ v : Z, v). cbv beta.
  rewrite lane_bits_app, lane_bits_lxor by lia. rewrite block_lanes by done.
  rewrite <- (take_drop 17 A) at 1. rewrite lane_bits_app.
  assert (Hlt : length (lane_bits (take 17 A)) = 1088%nat).
  { unfold lane_bits. rewrite length_concat_words, length_take, HA. done. }
  rewrite zip_with_app by (rewrite length_bytes_bits, Hlt, Hb; done). f_equal.
  assert (Hld : length (lane_bits (drop 17 A)) = 512%nat).
  { unfold lane_bits. rewrite length_concat_words, length_drop, HA. done. }
  rewrite <- Hld. apply zip_with_xorb_false.
Qed.

Lemma lane_u64 blk i : bytes_ok blk → is_u64 (Keccak.lane blk i).
Proof.
  intros Hok. unfold Keccak.lane.
  assert (Hl : bytes_ok (take 8 (drop (8 * i) blk))) by (by apply Forall_take, Forall_drop).
  pose proof (from_digits_bound 256 ltac:(lia) _ Hl) as Hb.
  assert (256 ^ Z.of_nat (length (take 8 (drop (8 * i) blk))) ≤ 256 ^ 8).
  { apply Z.pow_le_mono_r; [lia|]. rewrite length_take. lia. }
  change (256 ^ 8) with 18446744073709551616 in *. word_lia.
Qed.

Lemma xor_block_ok A blk :
  length A = 25%nat → bytes_ok blk → Forall is_u64 A → Forall is_u64 (Keccak.xor_block 136 blk A).
Proof.
  intros HA Hok Hu. unfold Keccak.xor_block.
  apply (for_from_inv (λ _ A, Forall is_u64 A)); [done|]. intros i A' _ HA'.
  apply Forall_insert; [done|]. apply Keccak.lxor_u64; [by apply Keccak.lookup_u64|].
  by apply lane_u64.
Qed.

Lemma block_step_ok A blk :
  length A = 25%nat → bytes_ok blk → Forall is_u64 A → Forall is_u64 (Keccak.block_step 136 A blk).
Proof.
  intros HA Hok Hu. unfold Keccak.block_step. apply Keccak.keccakf_ok.
  - by rewrite Keccak.length_xor_block.
  - by apply xor_block_ok.
Qed.

Lemma block_step_refines A blk :
  length A = 25%nat → length blk = 136%nat → bytes_ok blk → Forall is_u64 A →
  keccak_p (zip_with xorb (lane_bits A) (bytes_bits blk ++ replicate 512 false))
  = lane_bits (Keccak.block_step 136 A blk).
Proof.
  intros HA Hb Hok Hu. rewrite xor_block_refines by done. apply keccak_p_refines.
  - by rewrite Keccak.length_xor_block.
  - by apply xor_block_ok.
Qed.

Lemma sponge_absorb_refines fuel A P :
  length A = 25%nat → Forall is_u64 A → bytes_ok P → (length P ≤ fuel)%nat →
  sponge_absorb fuel 1088 (lane_bits A) (bytes_bits P)
  = lane_bits (fst (absorb 136 (Keccak.block_step 136) A P)).
Proof.
  revert A P. induction fuel as [|fuel IH]; intros A P HA Hu Hok Hf.
  { destruct P; [done|simpl in Hf; lia]. }
  cbn [sponge_absorb]. rewrite length_bytes_bits.
  destruct (Nat.ltb_spec (8 * length P) 1088) as [Hlt|Hge].
  - by rewrite absorb_lt by lia.
  - change 1088%nat with (8 * 136)%nat. rewrite take_bytes_bits, drop_bytes_bits by lia.
    change (1600 - 8 * 136)%nat with 512%nat.
    assert (length (take 136 P) = 136%nat) by (rewrite length_take; lia).
    assert (bytes_ok (take 136 P)) by (by apply Forall_take).
    rewrite block_step_refines, absorb_ge by (done || lia).
    apply IH; [by apply Keccak.length_block_step|by apply block_step_ok|by apply Forall_drop|].
    rewrite length_drop. lia.
Qed.

(** *** Padding and output *)

Lemma bytes_bits_zeros n : bytes_bits (replicate n 0) = replicate (8 * n) false.
Proof.
  induction n as [|n IH]; [done|]. replace (8 * S n)%nat with (8 + 8 * n)%nat by lia.
  rewrite replicate_add, <- IH. done.
Qed.

(** [0x06 00 .. 00 80] is the suffix [01] followed by [pad10*1]. *)
Lemma pad_refines n :
  bytes_bits (Keccak.pad_bytes 0x86 0x06 136 (n mod 136))
  = [false; true] ++ pad10s1 1088 (8 * n + 2).
Proof.
  unfold Keccak.pad_bytes, pad10s1.
  destruct (Nat.eqb_spec (n mod 136 + 1) 136) as [E|E].
  - replace ((1088 - (8 * n + 2 + 2) mod 1088) mod 1088)%nat with 4%nat by zlin. reflexivity.
  - assert (Hr : (n mod 136 < 136)%nat) by (apply Nat.mod_upper_bound; lia).
    replace ((1088 - (8 * n + 2 + 2) mod 1088) mod 1088)%nat
      with (5 + 8 * (136 - n mod 136 - 2) + 7)%nat by zlin.
    rewrite !replicate_add. change (6 :: ?l) with ([6] ++ l).
    rewrite !bytes_bits_app, bytes_bits_zeros. cbn [app]. rewrite <- !app_assoc. reflexivity.
Qed.

Lemma absorb_padded one two (m : bytes) A0 :
  length A0 = 25%nat →
  let '(A, rest) := absorb 136 (Keccak.block_step 136) A0 m in
  fst (absorb 136 (Keccak.block_step 136) A0 (m ++ Keccak.pad_bytes one two 136 (length m mod 136)))
  = Keccak.block_step 136 A (rest ++ Keccak.pad_bytes one two 136 (length rest)).
Proof.
  intros HA. rewrite absorb_app by lia.
  pose proof (absorb_rest 136 (Keccak.block_step 136) ltac:(lia) A0 m) as Hr.
  destruct (absorb 136 _ A0 m) as [A rest]. cbn [fst snd] in *. rewrite <- Hr.
  rewrite absorb_block; [done|lia|].
  assert (n136 : (length rest < 136)%nat) by (rewrite Hr; apply Nat.mod_upper_bound; lia).
  rewrite length_app, Keccak.length_pad_bytes by done. lia.
Qed.

Lemma lane_bytes_bits a : bytes_bits (Keccak.lane_bytes 8 a) = word_bits 64 a.
Proof.
  apply (nth_ext _ _ false false).
  { by rewrite length_bytes_bits, length_word_bits. }
  intros k Hk. rewrite length_bytes_bits in Hk. change (length _) with 8%nat in Hk.
  rewrite nth_word_bits by lia. rewrite (Nat.div_mod_eq k 8) at 1.
  unfold bytes_bits. rewrite nth_concat_words by (change (length (Keccak.lane_bytes 8 a)) with 8%nat; zlin).
  unfold Keccak.lane_bytes. rewrite lookup_total_map_seq by zlin.
  change 255 with (Z.ones 8). rewrite Z.land_ones by lia. unfold u8. change 256 with (2 ^ 8).
  rewrite Z.mod_mod, Z.mod_pow2_bits_low, Z.shiftr_spec by zlin. f_equal. zlin.
Qed.

Lemma digest_refines A : length A = 25%nat →
  bytes_bits (Keccak.digest256 A) = take 256 (lane_bits A).
Proof.
  intros HA. rewrite <- (take_drop 4 A) at 2. rewrite lane_bits_app.
  assert (H4 : length (take 4 A) = 4%nat) by (rewrite length_take; lia).
  rewrite take_app_length' by (unfold lane_bits; rewrite length_concat_words, H4; done).
  unfold Keccak.digest256, lane_bits.
  induction (take 4 A) as [|a l IH] in |- *; [done|]. cbn [map concat].
  by rewrite bytes_bits_app, lane_bytes_bits, IH.
Qed.

Lemma lane_bytes_ok n a : bytes_ok (Keccak.lane_bytes n a).
Proof.
  apply List.Forall_forall. intros x (j & <- & _)%in_map_iff. apply u8_range.
Qed.

Lemma digest256_ok A : bytes_ok (Keccak.digest256 A).
Proof.
  unfold Keccak.digest256. apply Forall_concat.
  induction (take 4 A); simpl; constructor; [apply lane_bytes_ok|done].
Qed.

Lemma sha3_of_format A rest :
  length A = 25%nat → length (CSha3.sha3_of A rest) = 32%nat ∧ bytes_ok (CSha3.sha3_of A rest).
Proof.
  intros HA. unfold CSha3.sha3_of. split; [|apply digest256_ok].
  by apply Keccak.length_digest256, Keccak.length_block_step.
Qed.

Lemma absorb_step_inv (m : bytes) A :
  length A = 25%nat → length (fst (absorb 136 (Keccak.block_step 136) A m)) = 25%nat.
Proof.
  revert A m. apply (block_ind 136 (Keccak.block_step 136) ltac:(lia)
    (λ A m, length A = 25%nat → length (fst (absorb 136 (Keccak.block_step 136) A m)) = 25%nat)).
  - intros A m Hlt HA. by rewrite absorb_lt by lia.
  - intros A m Hge IH HA. rewrite absorb_ge by lia. by apply IH, Keccak.length_block_step.
Qed.

Lemma pad_bytes_ok one two n : is_u8 one → is_u8 two → bytes_ok (Keccak.pad_bytes one two 136 n).
Proof.
  intros H1 H2. unfold Keccak.pad_bytes. case_match; [by apply bytes_ok_1|]. apply bytes_ok_cons. split; [done|].
  apply Forall_app; split; [apply Forall_replicate; lia|]. repeat constructor; lia.
Qed.

(** The sponge with any padding that stands for a suffix and [pad10*1]. *)
Lemma padded_refines one two sfx (m : bytes) :
  is_u8 one → is_u8 two →
  (∀ n, bytes_bits (Keccak.pad_bytes one two 136 (n mod 136)) = sfx ++ pad10s1 1088 (8 * n + length sfx)) →
  bytes_ok m →
  let '(A, rest) := absorb 136 (Keccak.block_step 136) (replicate 25 0) m in
  bytes_bits (Keccak.digest256 (Keccak.block_step 136 A (rest ++ Keccak.pad_bytes one two 136 (length rest))))
  = KECCAK 512 (bytes_bits m ++ sfx) 256.
Proof.
  intros H1 H2 Hsfx Hok. pose proof (absorb_padded one two m (replicate 25 0) eq_refl) as Hpad.
  pose proof (absorb_step_inv m (replicate 25 0) eq_refl) as HA.
  destruct (absorb 136 _ (replicate 25 0) m) as [A rest]. cbn [fst] in HA.
  rewrite digest_refines by (by apply Keccak.length_block_step).
  rewrite <- Hpad. unfold KECCAK. change (1600 - 512)%nat with 1088%nat.
  f_equal. rewrite (length_app (bytes_bits m)), (length_bytes_bits m).
  rewrite <- app_assoc, <- Hsfx, <- bytes_bits_app.
  change (replicate 1600 false) with (lane_bits (replicate 25 0)).
  symmetry. apply sponge_absorb_refines.
  - done.
  - apply Forall_replicate. word_lia.
  - apply Forall_app. split; [done|by apply pad_bytes_ok].
  - rewrite length_bytes_bits. lia.
Qed.

(** The digest function of Keccak.v is the standard's SHA3-256. *)
Lemma sha3_of_refines (m : bytes) :
  bytes_ok m →
  let '(A, rest) := absorb 136 (Keccak.block_step 136) (replicate 25 0) m in
  bytes_bits (CSha3.sha3_of A rest) = SHA3_256 (bytes_bits m).
Proof. intros Hok. apply padded_refines; [word_lia|word_lia|exact pad_refines|done]. Qed.

Lemma hash_is_SHA3 (chunks : list bytes) :
  Forall (λ c, Z.of_nat (length c) < 2 ^ 32) chunks → Forall bytes_ok chunks →
  ∃ h, CSha3.hash chunks = Some h ∧ length h = 32%nat ∧ bytes_ok h ∧
    bytes_bits h = SHA3_256 (bytes_bits (concat chunks)).
Proof.
  intros Hlen Hok. rewrite CSha3.hash_spec by done.
  assert (Hm : bytes_ok (concat chunks)) by (by apply Forall_concat).
  pose proof (sha3_of_refines _ Hm) as Href.
  pose proof (absorb_step_inv (concat chunks) (replicate 25 0) eq_refl) as HA.
  destruct (absorb 136 _ (replicate 25 0) (concat chunks)) as [A rest]. cbn [fst] in HA.
  destruct (sha3_of_format A rest HA) as [Hl Hb].
  exists (CSha3.sha3_of A rest). by split_and!.
Qed.

(** The hash of one object given by its serialization. *)
Lemma SHA3_of_bytes (m : bytes) :
  Z.of_nat (length m) < 2 ^ 32 → bytes_ok m →
  ∃ h, CSha3.hash [m] = Some h ∧ length h = 32%nat ∧ bytes_ok h ∧ bytes_bits h = SHA3_256 (bytes_bits m).
Proof.
  intros Hl Hm. destruct (hash_is_SHA3 [m]) as (h & H1 & H2 & H3 & H4); [by constructor..|].
  exists h. cbn [concat] in H4. by rewrite app_nil_r in H4.
Qed.

(** C23. SHA3-256.  Feeding any sequence of chunks, each shorter than 4 GiB, to
    a fresh [CSHA3] object and finalizing it terminates and returns 32 bytes
    that are, bit for bit, the FIPS 202 function SHA3-256 of the concatenated
    input: neither the chunking nor the internal 4096-byte copies matter. *)
Theorem csha3_is_sha3_256 (chunks : list bytes) :
  Forall (λ c, Z.of_nat (length c) < 2 ^ 32) chunks → Forall bytes_ok chunks →
  ∃ h, CSha3.hash chunks = Some h ∧ length h = 32%nat ∧ bytes_ok h ∧
    bytes_bits h = SHA3_256 (bytes_bits (concat chunks)).
Proof. apply hash_is_SHA3. Qed.

Lemma csha3_is_sha3_256_witness :
  ∃ h, CSha3.hash [[97; 98]; []; [99]] = Some h ∧ length h = 32%nat ∧ bytes_ok h ∧
    bytes_bits h = SHA3_256 (bytes_bits [97; 98; 99]).
Proof.
  apply (csha3_is_sha3_256 [[97; 98]; []; [99]]).
  - repeat constructor.
  - repeat constructor; lia.
Defined.
End Fips202Refinement.
