(* ===== verification/DevSha3.v ===== *)
(** * The second Keccak of the repository (src/src/cpp-ethereum/libdevcore/SHA3.cpp)

    The virtual machine hashes with an implementation of its own, over an array
    of 200 bytes that the permutation reads as 25 words of the little-endian
    host.  [Module DevSha3] translates it and shows that it computes the same
    function as the sponge object of Keccak.v with the original Keccak padding. *)

From stdpp Require Import base numbers list option.
From Stdlib Require Import ZArith Lia ZifyNat.
From S2P Require Import Prelude BlockStream Keccak Fips202.

Module DevSha3.
Import Keccak.

(** ** Constants *)
Definition rho : list Z :=
  [1; 3; 6; 10; 15; 21;
   28; 36; 45; 55; 2; 14;
   27; 41; 56; 8; 25; 43;
   62; 18; 39; 61; 20; 44].
Definition pi : list nat :=
  [10; 7; 11; 17; 18; 3;
   5; 16; 8; 21; 24; 4;
   15; 23; 19; 13; 12; 2;
   20; 14; 22; 9; 6; 1]%nat.
Definition dev_RC : list Z :=
  [1; 0x8082; 0x800000000000808a; 0x8000000080008000;
   0x808b; 0x80000001; 0x8000000080008081; 0x8000000000008009;
   0x8a; 0x88; 0x80008009; 0x8000000a;
   0x8000808b; 0x800000000000008b; 0x8000000000008089; 0x8000000000008003;
   0x8000000000008002; 0x8000000000000080; 0x800a; 0x800000008000000a;
   0x8000000080008081; 0x8000000000008080; 0x80000001; 0x8000000080008008].

(** ** The permutation *)

(** The macro shifts a 64-bit word. *)
Definition rol (x s : Z) : Z := Z.lor (u64 (Z.shiftl x s)) (Z.shiftr x (64 - s)).

(** The scratch words [b] are all written before they are read in each step. *)
Definition dev_theta (a b : list Z) : list Z * list Z :=
  let b := for_to 5 (λ x b,
             let b := <[x := 0]> b in
             for_to 5 (λ y b, <[x := Z.lxor (b !!! x) (a !!! (x + 5 * y)%nat)]> b) b) b in
  let a := for_to 5 (λ x a,
             for_to 5 (λ y a,
               let k := (5 * y + x)%nat in
               <[k := Z.lxor (a !!! k) (Z.lxor (b !!! ((x + 4) mod 5)%nat) (rol (b !!! ((x + 1) mod 5)%nat) 1))]> a) a) a in
  (a, b).
Definition dev_rho_pi (a b : list Z) : list Z * list Z :=
  let '(a, b, _) :=
    for_to 24 (λ x '(a, b, t),
      let b := <[0%nat := a !!! (pi !!! x)]> b in
      let a := <[pi !!! x := rol t (rho !!! x)]> a in
      (a, b, b !!! 0%nat)) (a, b, a !!! 1%nat) in
  (a, b).
Definition dev_chi (a b : list Z) : list Z * list Z :=
  for_to 5 (λ y '(a, b),
    let y := (5 * y)%nat in
    let b := for_to 5 (λ x b, <[x := a !!! (y + x)%nat]> b) b in
    let a := for_to 5 (λ x a,
               <[(y + x)%nat := Z.lxor (b !!! x) (Z.land (not64 (b !!! ((x + 1) mod 5)%nat)) (b !!! ((x + 2) mod 5)%nat))]> a) a in
    (a, b)) (a, b).
Definition dev_round (i : nat) (s : list Z * list Z) : list Z * list Z :=
  let '(a, b) := s in
  let '(a, b) := dev_theta a b in
  let '(a, b) := dev_rho_pi a b in
  let '(a, b) := dev_chi a b in
  (<[0%nat := Z.lxor (a !!! 0%nat) (dev_RC !!! i)]> a, b).
Definition dev_keccakf (a : list Z) : list Z := fst (for_to 24 dev_round (a, replicate 5 0)).

(** ** The sponge *)

(** [a[i] ^= v] on byte [i] of the words. *)
Definition xor_byte (i : nat) (v : Z) (a : list Z) : list Z :=
  <[(i / 8)%nat := Z.lxor (a !!! (i / 8)%nat) (Z.shiftl v (8 * Z.of_nat (i mod 8)))]> a.
Definition get_byte (a : list Z) (i : nat) : Z := u8 (Z.shiftr (a !!! (i / 8)%nat) (8 * Z.of_nat (i mod 8))).
(** [xorin(dst, src, len)] and [setout(src, dst, len)]. *)
Definition xorin (src : bytes) (len : nat) (a : list Z) : list Z := for_to len (λ i a, xor_byte i (src !!! i) a) a.
Definition setout (a : list Z) (len : nat) : bytes := map (get_byte a) (seq 0 len).

(** [foldP] over the input, then over the output; each turn shortens what is
    left by [rate]. *)
Fixpoint fold_in (fuel : nat) (rate : nat) (a : list Z) (input : bytes) : list Z * bytes :=
  match fuel with
  | O => (a, input)
  | S fuel' =>
      if (rate <=? List.length input)%nat then fold_in fuel' rate (dev_keccakf (xorin input rate a)) (drop rate input)
      else (a, input)
  end.
Fixpoint fold_out (fuel : nat) (rate : nat) (a : list Z) (outlen : nat) (out : bytes) : list Z * nat * bytes :=
  match fuel with
  | O => (a, outlen, out)
  | S fuel' =>
      if (rate <=? outlen)%nat then fold_out fuel' rate (dev_keccakf a) (outlen - rate) (out ++ setout a rate)
      else (a, outlen, out)
  end.
(** [None] is the return value -1. *)
Definition hash (outlen : nat) (input : bytes) (rate : nat) (delim : Z) : option bytes :=
  if (200 <=? rate)%nat then None
  else
    let '(a, input) := fold_in (List.length input) rate (replicate 25 0) input in
    let inlen := List.length input in
    let a := xor_byte inlen delim a in
    let a := xor_byte (rate - 1) 0x80 a in
    let a := xorin input inlen a in
    let a := dev_keccakf a in
    let '(a, outlen, out) := fold_out outlen rate a outlen [] in
    Some (out ++ setout a outlen).
(** [defsha3] and [defshake]. *)
Definition sha3_bits (bits : nat) (outlen : nat) (input : bytes) : option bytes :=
  if (bits / 8 <? outlen)%nat then None else hash outlen input (200 - bits / 4) 0x01.
Definition shake_bits (bits : nat) (outlen : nat) (input : bytes) : option bytes :=
  hash outlen input (200 - bits / 4) 0x1f.
(** [dev::sha3(_input)]. *)
Definition sha3 (input : bytes) : option bytes := sha3_bits 256 32 input.

Example keccak_of_empty_string :
  sha3 [0x80] = Some [0x56; 0xe8; 0x1f; 0x17; 0x1b; 0xcc; 0x55; 0xa6; 0xff; 0x83; 0x45; 0xe6; 0x92; 0xc0; 0xf8; 0x6e;
    0x5b; 0x48; 0xe0; 0x1b; 0x99; 0x6c; 0xad; 0xc0; 0x01; 0x62; 0x2f; 0xb5; 0xe3; 0x63; 0xb4; 0x21].
Proof. vm_compute. reflexivity. Qed.

(** ** The permutation is that of Keccak.v *)

Ltac words := cbv -[Z.lxor Z.land Z.lor Z.shiftl Z.shiftr Z.testbit rol not64 rho dev_RC].

Lemma rol_rotateLeft x s : 0 < s < 64 → rol x s = rotateLeft x s.
Proof.
  intros Hs. unfold rol, rotateLeft. change (8 * 8 - 1) with (Z.ones 6). rewrite !Z.land_ones by lia. change (2 ^ 6) with 64.
  rewrite (Z.mod_small s) by lia. by replace (- s mod 64) with (64 - s) by (rewrite Z.mod_opp_l_nz; rewrite ?(Z.mod_small s); lia).
Qed.

Lemma rotateLeft_0 x : is_u64 x → rotateLeft x 0 = x.
Proof. intros Hx. unfold rotateLeft. cbn. rewrite Z.shiftr_0_r, Z.shiftl_0_r, u64_small by done. apply Z.lor_diag. Qed.
Lemma R_range k : (k < 25)%nat → k ≠ 0%nat → 0 < R !!! pi_src k < 64.
Proof. intros Hk Hne. do 25 (destruct k as [|k]; [first [done|split; reflexivity]|]). lia. Qed.

Definition parity0 (a : list Z) (x : nat) : Z :=
  Z.lxor (Z.lxor (Z.lxor (Z.lxor (Z.lxor 0 (a !!! x)) (a !!! (x + 5)%nat))
    (a !!! (x + 10)%nat)) (a !!! (x + 15)%nat)) (a !!! (x + 20)%nat).
Lemma parity0_parity a x : parity0 a x = parity a x.
Proof.
  unfold parity0, parity. rewrite Z.lxor_0_l.
  by rewrite (Nat.add_comm x 5), (Nat.add_comm x 10), (Nat.add_comm x 15), (Nat.add_comm x 20).
Qed.

Lemma dev_theta_spec a b : List.length a = 25%nat → List.length b = 5%nat → ∃ b', List.length b' = 5%nat ∧
  dev_theta a b = (map (λ k, Z.lxor (a !!! k)
    (Z.lxor (parity0 a ((k mod 5 + 4) mod 5)) (rol (parity0 a ((k mod 5 + 1) mod 5)) 1))) (seq 0 25), b').
Proof. intros HA HB. explode a. explode b. eexists. split; [|words; reflexivity]. reflexivity. Qed.

Lemma dev_rho_pi_spec a b : List.length a = 25%nat → List.length b = 5%nat → ∃ b', List.length b' = 5%nat ∧
  dev_rho_pi a b = (map (λ k, if (k =? 0)%nat then a !!! 0%nat else rol (a !!! pi_src k) (R !!! pi_src k)) (seq 0 25), b').
Proof. intros HA HB. explode a. explode b. eexists. split; [|words; reflexivity]. reflexivity. Qed.

Lemma dev_chi_spec a b : List.length a = 25%nat → List.length b = 5%nat → ∃ b', List.length b' = 5%nat ∧
  dev_chi a b = (chi_lanes a, b').
Proof. intros HA HB. explode a. explode b. eexists. split; [|words; reflexivity]. reflexivity. Qed.

Lemma dev_round_spec i a b :
  List.length a = 25%nat → lanes_ok a → List.length b = 5%nat →
  ∃ b', List.length b' = 5%nat ∧ dev_round i (a, b) = (round_lanes i a, b').
Proof.
  intros HA Hok HB. unfold dev_round.
  destruct (dev_theta_spec a b HA HB) as (b1 & HB1 & ->).
  replace (map _ (seq 0 25)) with (theta_lanes a).
  2: { apply map_ext. intros k. by rewrite !parity0_parity, rol_rotateLeft by lia. }
  destruct (dev_rho_pi_spec (theta_lanes a) b1 ltac:(done) HB1) as (b2 & HB2 & ->).
  replace (map _ (seq 0 25)) with (rho_pi_lanes (theta_lanes a)).
  2: { apply map_ext_in. intros k Hk%in_seq. destruct (Nat.eqb_spec k 0) as [->|Hne].
       - apply rotateLeft_0, lookup_u64, theta_lanes_ok, Hok.
       - symmetry. apply rol_rotateLeft. apply R_range; lia. }
  destruct (dev_chi_spec (rho_pi_lanes (theta_lanes a)) b2 ltac:(done) HB2) as (b3 & HB3 & ->).
  exists b3. split; [done|]. reflexivity.
Qed.

(** The loop, unfolded without evaluating its body. *)
Lemma for_from_unfold {A} n m (f : nat → A → A) s : for_from (S n) m f s = for_from n (S m) f (f m s).
Proof. reflexivity. Qed.

Lemma dev_rounds n m a b :
  List.length a = 25%nat → lanes_ok a → List.length b = 5%nat →
  fst (for_from n m dev_round (a, b)) = foldl (λ A i, round_lanes i A) a (seq m n).
Proof.
  revert m a b. induction n as [|n IH]; intros m a b HA Hok HB; [done|]. rewrite for_from_unfold. cbn [seq foldl].
  destruct (dev_round_spec m a b HA Hok HB) as (b' & HB' & ->). apply IH; [apply length_round_lanes|by apply round_lanes_ok|done].
Qed.

Lemma dev_keccakf_keccakf a : List.length a = 25%nat → lanes_ok a → dev_keccakf a = keccakf a.
Proof.
  intros HA Hok. rewrite keccakf_spec by done. transitivity (fst (for_to 24 dev_round (a, replicate 5 0))); [reflexivity|].
  by apply dev_rounds.
Qed.
(** ** The sponge *)

(** The words after a byte string has been combined with them. *)
Definition xored (a : list Z) (l : bytes) : list Z := map (λ k, Z.lxor (a !!! k) (lane l k)) (seq 0 25).

Lemma lxor_disjoint x v (j : nat) : 0 ≤ x < 256 ^ Z.of_nat j → 0 ≤ v → Z.lxor x (Z.shiftl v (8 * Z.of_nat j)) = x + 256 ^ Z.of_nat j * v.
Proof.
  intros Hx Hv. assert (HP : 256 ^ Z.of_nat j = 2 ^ (8 * Z.of_nat j)) by (rewrite Z.pow_mul_r by lia; done). rewrite HP in *.
  rewrite Z.shiftl_mul_pow2 by lia. rewrite <- Z.add_nocarry_lxor; [lia|]. apply Z.bits_inj'. intros i Hi.
  rewrite Z.land_spec, Z.bits_0. destruct (Z.lt_ge_cases i (8 * Z.of_nat j)).
  - by rewrite Z.mul_pow2_bits_low, andb_false_r.
  - rewrite (testbit_high x (8 * Z.of_nat j) i) by (done || lia). done.
Qed.

Lemma lane_snoc l v k : bytes_ok l → 0 ≤ v → (List.length l < 200)%nat →
  lane (l ++ [v]) k = if (k =? List.length l / 8)%nat then Z.lxor (lane l k) (Z.shiftl v (8 * Z.of_nat (List.length l mod 8))) else lane l k.
Proof.
  intros Hl Hv Hn. unfold lane. set (n := List.length l) in *. destruct (Nat.eqb_spec k (n / 8)) as [->|Hne].
  - assert (Hd : List.length (drop (8 * (n / 8)) l) = (n mod 8)%nat) by (rewrite length_drop; fold n; zlin).
    rewrite drop_app_le by (fold n; zlin). rewrite !take_ge by (rewrite ?length_app, Hd; cbn; zlin).
    rewrite from_digits_app, Hd. cbn [from_digits]. rewrite Z.mul_0_r, Z.add_0_r. symmetry. apply lxor_disjoint; [|done].
    rewrite <- Hd. apply from_digits_bound; [lia|by apply Forall_drop].
  - destruct (Nat.lt_ge_cases k (n / 8)).
    + f_equal. rewrite drop_app_le by (fold n; zlin). apply take_app_le. rewrite length_drop. fold n. zlin.
    + rewrite !drop_ge by (rewrite ?length_app; cbn; fold n; zlin). done.
Qed.

Lemma xored_snoc a l v : bytes_ok l → 0 ≤ v → (List.length l < 200)%nat →
  xor_byte (List.length l) v (xored a l) = xored a (l ++ [v]).
Proof.
  intros Hl Hv Hn. unfold xor_byte. set (i := (List.length l / 8)%nat). assert (Hi : (i < 25)%nat) by (unfold i; zlin).
  apply list_eq_total; [by rewrite length_insert|]. intros k Hk. rewrite length_insert in Hk. change (k < 25)%nat in Hk.
  unfold xored at 3. rewrite lookup_total_map_seq, lane_snoc by done. cbn [Nat.add].
  destruct (Nat.eqb_spec k (List.length l / 8)) as [->|Hne].
  - fold i. rewrite list_lookup_total_insert_eq by done. unfold xored. rewrite lookup_total_map_seq by done. by rewrite Z.lxor_assoc.
  - rewrite list_lookup_total_insert_ne by (unfold i; lia). unfold xored. by rewrite lookup_total_map_seq.
Qed.

Lemma xored_nil a : List.length a = 25%nat → xored a [] = a.
Proof. intros Ha. explode a. unfold xored, lane. cbn. by rewrite !Z.lxor_0_r. Qed.
Lemma xorin_xored a input len : List.length a = 25%nat → bytes_ok input → (len ≤ List.length input)%nat → (len ≤ 200)%nat →
  xorin input len a = xored a (take len input).
Proof.
  intros Ha Hb. induction len as [|len IH]; intros Hl H2; [by rewrite xored_nil|].
  unfold xorin in *. rewrite for_from_S, IH by lia. cbn [Nat.add].
  replace (take (S len) input) with (take len input ++ [input !!! len])
    by (symmetry; apply take_S_r, list_lookup_lookup_total_lt; lia).
  assert (List.length (take len input) = len) as E by (rewrite length_take; lia).
  rewrite <- E at 1. apply xored_snoc; [by apply Forall_take| |lia].
  eapply (Forall_lookup_total_1 is_u8); [done|lia].
Qed.

Lemma xor_byte_comm i v j w a : List.length a = 25%nat → xor_byte i v (xor_byte j w a) = xor_byte j w (xor_byte i v a).
Proof.
  intros Ha. unfold xor_byte. destruct (decide (i / 8 = j / 8)%nat) as [E|Hne].
  - rewrite E. destruct (Nat.lt_ge_cases (j / 8) 25).
    + rewrite !list_insert_insert_eq. f_equal. rewrite !list_lookup_total_insert_eq by lia. rewrite !Z.lxor_assoc. f_equal. apply Z.lxor_comm.
    + by rewrite !list_insert_ge by (rewrite ?length_insert; lia).
  - rewrite !list_lookup_total_insert_ne by done. by apply list_insert_insert_ne.
Qed.
Lemma xor_byte_xorin i v input len a : List.length a = 25%nat → xorin input len (xor_byte i v a) = xor_byte i v (xorin input len a).
Proof.
  intros Ha. unfold xorin. induction len as [|len IH]; [done|]. rewrite !for_from_S, IH. apply xor_byte_comm.
  clear IH. induction len as [|len IH]; [done|]. rewrite for_from_S. unfold xor_byte at 1. by rewrite length_insert.
Qed.
Lemma xor_byte_twice i v w a : List.length a = 25%nat → (i < 200)%nat → xor_byte i v (xor_byte i w a) = xor_byte i (Z.lxor w v) a.
Proof.
  intros Ha Hi. unfold xor_byte. rewrite list_insert_insert_eq, list_lookup_total_insert_eq by zlin.
  by rewrite Z.lxor_assoc, <- Z.shiftl_lxor.
Qed.

Lemma xored_zeros a l n : bytes_ok l → (List.length l + n ≤ 200)%nat → xored a (l ++ replicate n 0) = xored a l.
Proof.
  intros Hl. induction n as [|n IH]; intros Hn; [by rewrite app_nil_r|].
  rewrite replicate_S_end, app_assoc, <- xored_snoc.
  - rewrite IH by lia. unfold xor_byte. rewrite Z.shiftl_0_l, Z.lxor_0_r. apply list_insert_id.
    apply list_lookup_lookup_total_lt. change (List.length (xored a l)) with 25%nat. rewrite length_app, length_replicate. zlin.
  - apply bytes_ok_app. split; [done|]. apply Forall_replicate. lia.
  - lia.
  - rewrite length_app, length_replicate. lia.
Qed.

Lemma xored_xor_block a blk : List.length a = 25%nat → List.length blk = 136%nat → xored a blk = xor_block 136 blk a.
Proof.
  intros Ha Hb. unfold xor_block. change (136 / 8)%nat with 17%nat.
  rewrite (for_to_modify (λ i x, Z.lxor x (LittleToNative (lane blk i)))) by lia.
  apply list_eq_total; [rewrite length_app, length_drop, length_map, length_seq; cbn; lia|].
  intros k Hk. change (k < 25)%nat in Hk. unfold xored. rewrite lookup_total_map_seq by done. cbn [Nat.add].
  destruct (Nat.lt_ge_cases k 17).
  - rewrite lookup_total_app_l by (rewrite length_map, length_seq; lia). by rewrite lookup_total_map_seq by lia.
  - rewrite lookup_total_app_r by (rewrite length_map, length_seq; lia). rewrite length_map, length_seq, lookup_total_drop.
    unfold lane. rewrite drop_ge by lia. cbn. rewrite Z.lxor_0_r. f_equal. lia.
Qed.

(** The last block: the two framing bytes and the rest of the input. *)
Lemma last_block a input delim :
  List.length a = 25%nat → bytes_ok input → (List.length input < 136)%nat → is_u8 delim →
  let n := List.length input in
  xorin input n (xor_byte 135 0x80 (xor_byte n delim a))
  = xor_block 136 (input ++ pad_bytes (Z.lxor delim 0x80) delim 136 n) a.
Proof.
  intros Ha Hb Hn Hd n. rewrite !xor_byte_xorin by (try done; unfold xor_byte; by rewrite length_insert).
  rewrite xorin_xored by (done || lia). rewrite take_ge by lia.
  rewrite <- xored_xor_block; [|done|rewrite length_app, length_pad_bytes by done; lia].
  unfold pad_bytes. fold n. destruct (Nat.eqb_spec (n + 1) 136) as [E|E].
  - assert (n = 135%nat) as E' by lia. rewrite E' at 1. rewrite xor_byte_twice by (done || lia).
    rewrite <- E'. unfold n at 1. apply xored_snoc; [done| |lia]. apply Z.lxor_nonneg. unfold is_u8 in Hd. lia.
  - unfold n at 1. rewrite xored_snoc by (done || lia || apply Hd).
    assert (Hd1 : bytes_ok (input ++ [delim])) by (apply bytes_ok_app; split; [done|by apply bytes_ok_1]).
    rewrite <- (xored_zeros a (input ++ [delim]) (136 - n - 2)); [|done|rewrite length_app; cbn; lia].
    set (l := (input ++ [delim]) ++ replicate (136 - n - 2) 0).
    assert (Hl : List.length l = 135%nat) by (unfold l; rewrite !length_app, length_replicate; cbn; lia).
    assert (Hlb : bytes_ok l) by (apply bytes_ok_app; split; [done|apply Forall_replicate; lia]).
    pose proof (xored_snoc a l 0x80 Hlb ltac:(lia) ltac:(lia)) as Hx. rewrite Hl in Hx. rewrite Hx.
    unfold l. by rewrite <- !app_assoc.
Qed.

(** ** Absorbing and squeezing *)

Lemma xorin_block a input : List.length a = 25%nat → lanes_ok a → bytes_ok input → (136 ≤ List.length input)%nat →
  dev_keccakf (xorin input 136 a) = block_step 136 a (take 136 input).
Proof.
  intros Ha Hok Hb Hn. rewrite xorin_xored by (done || lia).
  assert (bytes_ok (take 136 input)) by (by apply Forall_take).
  rewrite xored_xor_block; [|done|rewrite length_take; lia].
  apply dev_keccakf_keccakf; [by rewrite length_xor_block|by apply Fips202Refinement.xor_block_ok].
Qed.

Lemma fold_in_absorb fuel a input :
  List.length a = 25%nat → lanes_ok a → bytes_ok input → (List.length input ≤ fuel)%nat →
  fold_in fuel 136 a input = absorb 136 (block_step 136) a input ∧
  lanes_ok (fst (absorb 136 (block_step 136) a input)) ∧ bytes_ok (snd (absorb 136 (block_step 136) a input)).
Proof.
  revert a input. induction fuel as [|fuel IH]; intros a input Ha Hok Hb Hf.
  - rewrite absorb_lt by lia. done.
  - cbn [fold_in]. destruct (Nat.leb_spec 136 (List.length input)).
    + assert (bytes_ok (take 136 input)) by (by apply Forall_take).
      rewrite xorin_block, absorb_ge by (done || lia). apply IH.
      * by apply length_block_step.
      * by apply Fips202Refinement.block_step_ok.
      * by apply Forall_drop.
      * rewrite length_drop. lia.
    + by rewrite absorb_lt by lia.
Qed.

Lemma setout_digest a : List.length a = 25%nat → setout a 32 = digest256 a.
Proof.
  assert (Hm : ∀ x, u8 (Z.land x 0xff) = u8 x).
  { intros x. change 0xff with (Z.ones 8). rewrite Z.land_ones by lia. unfold u8. change (2 ^ 8) with 256. by rewrite Z.mod_mod. }
  intros Ha. explode a. unfold digest256, lane_bytes. cbn [take map seq concat app]. rewrite !Hm. reflexivity.
Qed.

Lemma final_block a rest :
  List.length a = 25%nat → lanes_ok a → bytes_ok rest → (List.length rest < 136)%nat →
  dev_keccakf (xorin rest (List.length rest) (xor_byte 135 0x80 (xor_byte (List.length rest) 0x01 a)))
  = block_step 136 a (rest ++ pad_bytes 0x81 0x01 136 (List.length rest)).
Proof.
  intros Ha Hok Hrb Hlt. pose proof (last_block a rest 0x01 Ha Hrb Hlt ltac:(word_lia)) as Hlast. cbv zeta in Hlast.
  change (Z.lxor 0x01 0x80) with 0x81 in Hlast. rewrite Hlast. unfold block_step. apply dev_keccakf_keccakf.
  - by rewrite length_xor_block.
  - apply Fips202Refinement.xor_block_ok; [done| |done]. apply bytes_ok_app. split; [done|].
    by apply Fips202Refinement.pad_bytes_ok; word_lia.
Qed.

Lemma fold_out_short fuel a n : (n < 136)%nat → fold_out fuel 136 a n [] = (a, n, []).
Proof. intros Hn. destruct fuel; [done|]. cbn [fold_out]. destruct (Nat.leb_spec 136 n); [lia|done]. Qed.

Lemma pad01_refines n :
  Fips202.bytes_bits (pad_bytes 0x81 0x01 136 (n mod 136)) = [] ++ Fips202.pad10s1 1088 (8 * n + 0).
Proof.
  rewrite Nat.add_0_r. unfold pad_bytes, Fips202.pad10s1.
  destruct (Nat.eqb_spec (n mod 136 + 1) 136) as [E|E].
  - replace ((1088 - (8 * n + 2) mod 1088) mod 1088)%nat with 6%nat by zlin. reflexivity.
  - assert (Hr : (n mod 136 < 136)%nat) by (apply Nat.mod_upper_bound; lia).
    replace ((1088 - (8 * n + 2) mod 1088) mod 1088)%nat
      with (7 + 8 * (136 - n mod 136 - 2) + 7)%nat by zlin.
    rewrite !replicate_add. change (1 :: ?l) with ([1] ++ l).
    rewrite !Fips202Refinement.bytes_bits_app, Fips202Refinement.bytes_bits_zeros. cbn [app]. rewrite <- !app_assoc. reflexivity.
Qed.

(** ** Properties *)

(** C39. The virtual machine's hash: its permutation is the same function as
    the one of the block hash on every state of 25 words, and for every input it
    returns 32 bytes that are the Keccak sponge of FIPS 202 with capacity 512
    on the input, without the suffix that distinguishes SHA3-256.  So it is the
    Keccak-256 of Ethereum and not the SHA3-256 that the comments of SHA3.h (lines 35 to 47)
    announce; [dev_sha3_not_sha3_256] shows that they differ on the empty input. *)
Theorem dev_sha3_is_keccak (input : bytes) (H : bytes_ok input) :
  (∀ a, List.length a = 25%nat → lanes_ok a → dev_keccakf a = keccakf a) ∧
  ∃ h, sha3 input = Some h ∧ List.length h = 32%nat ∧ bytes_ok h ∧
    Fips202.bytes_bits h = Fips202.KECCAK 512 (Fips202.bytes_bits input) 256.
Proof.
  split; [apply dev_keccakf_keccakf|].
  unfold sha3, sha3_bits, hash. change (256 / 8 <? 32)%nat with false. change (200 - 256 / 4)%nat with 136%nat.
  change (200 <=? 136)%nat with false. cbv iota.
  assert (H0 : lanes_ok (replicate 25 0)) by (apply Forall_replicate; word_lia).
  destruct (fold_in_absorb (List.length input) (replicate 25 0) input eq_refl H0 H ltac:(lia)) as (-> & Hok & Hrb).
  pose proof (Fips202Refinement.padded_refines 0x81 0x01 [] input ltac:(word_lia) ltac:(word_lia) pad01_refines H) as Hspec.
  rewrite app_nil_r in Hspec.
  pose proof (Fips202Refinement.absorb_step_inv input (replicate 25 0) eq_refl) as Ha.
  pose proof (absorb_rest 136 (block_step 136) ltac:(lia) (replicate 25 0) input) as Hr.
  destruct (absorb 136 _ (replicate 25 0) input) as [a rest]. cbn [fst snd] in *.
  assert (Hlt : (List.length rest < 136)%nat) by (rewrite Hr; apply Nat.mod_upper_bound; lia).
  change (136 - 1)%nat with 135%nat.
  rewrite (final_block a rest Ha Hok Hrb Hlt).
  assert (Hl : List.length (block_step 136 a (rest ++ pad_bytes 0x81 0x01 136 (List.length rest))) = 25%nat) by (by apply length_block_step).
  rewrite (fold_out_short 32 _ 32) by lia. rewrite (setout_digest _ Hl).
  eexists. split; [reflexivity|]. cbn [app]. split_and!; [by apply length_digest256|apply Fips202Refinement.digest256_ok|done].
Qed.
(** On the empty input the hash is not SHA3-256. *)
Lemma dev_sha3_not_sha3_256 : ∃ h, sha3 [] = Some h ∧ Fips202.bytes_bits h ≠ Fips202.SHA3_256 [].
Proof.
  destruct (Fips202Refinement.SHA3_of_bytes []) as (h & E & _ & _ & Hh); [done|apply bytes_ok_nil|].
  change (Fips202.bytes_bits []) with (@nil bool) in Hh. rewrite <- Hh. vm_compute in E. injection E as <-.
  eexists. split; [vm_compute; reflexivity|]. vm_compute. discriminate.
Qed.
Lemma dev_sha3_is_keccak_witness :
  (∃ h, sha3 [0x80] = Some h) ∧ ∃ h, sha3 [0x80] = Some h ∧ List.length h = 32%nat ∧ bytes_ok h ∧
    Fips202.bytes_bits h = Fips202.KECCAK 512 (Fips202.bytes_bits [0x80]) 256.
Proof. split; [by eexists|]. apply (dev_sha3_is_keccak [0x80]). by apply bytes_ok_compute. Defined.
End DevSha3.
