(* ===== verification/MerkleDamgard.v ===== *)
(** * The hasher objects of SHA-256, SHA-1, RIPEMD-160 and SHA-512

    The four classes [CSHA256], [CSHA1], [CRIPEMD160] and [CSHA512] have the
    same shape: a chaining state [s], a one-block buffer [buf] and a byte
    counter [bytes].  The section below gives their [Write] and [Finalize] for
    any block size and compression function [Transform], proves that [Write]
    streams (an instance of [StreamHash]) and that [Finalize] returns the
    Merkle-Damgard hash of everything written.  [HashAlg] is the interface
    under which the compositions of hash.h and the HMAC classes use them. *)

From stdpp Require Import base numbers list.
From Stdlib Require Import ZArith Lia ZifyNat.
From S2P Require Import Prelude Endian BlockStream.

(** ** What a client may rely on

    [ha_fed h m]: the object [h] has been created and fed the bytes [m]. *)
Class HashAlg (H : Type) := {
  ha_new : H;
  ha_write : H → bytes → H;
  ha_finalize : H → bytes;
  ha_digest : bytes → bytes;
  ha_outlen : nat;
  ha_fed : H → bytes → Prop;
  ha_fed_new : ha_fed ha_new [];
  ha_fed_write : ∀ h m d, ha_fed h m → ha_fed (ha_write h d) (m ++ d);
  ha_finalize_spec : ∀ h m, ha_fed h m → Z.of_nat (length m) < 2 ^ 61 →
    ha_finalize h = ha_digest m;
  ha_digest_length : ∀ m, length (ha_digest m) = ha_outlen;
}.

Section HashClient.
Context `{!HashAlg H}.

Lemma ha_fed_writes h m chunks :
  ha_fed h m → ha_fed (foldl ha_write h chunks) (m ++ concat chunks).
Proof.
  revert h m. induction chunks as [|c cs IH]; intros h m Hf; simpl; [by rewrite app_nil_r|].
  rewrite app_assoc. by apply IH, ha_fed_write.
Qed.

(** Any sequence of writes on a fresh object. *)
Lemma ha_writes chunks :
  Z.of_nat (length (concat chunks)) < 2 ^ 61 →
  ha_finalize (foldl ha_write ha_new chunks) = ha_digest (concat chunks).
Proof.
  intros Hlen. apply ha_finalize_spec; [|done].
  apply (ha_fed_writes ha_new []), ha_fed_new.
Qed.
End HashClient.

Record hasher (St : Type) := Hasher { s : St; buf : bytes; nbytes : Z }.
Arguments Hasher {St}.
Arguments s {St}.
Arguments buf {St}.
Arguments nbytes {St}.

Section MD.
Context {St : Type} (bs : nat) (Transform : St → bytes → St).

(** [while (end >= data + bs) { Transform(s, data); bytes += bs; data += bs; }] *)
Fixpoint chunk_loop (fuel : nat) (h : hasher St) (data : bytes) : hasher St * bytes :=
  match fuel with
  | O => (h, data)
  | S fuel' =>
      if (bs <=? length data)%nat
      then chunk_loop fuel'
             (Hasher (Transform (s h) (take bs data)) (buf h) (u64 (nbytes h + Z.of_nat bs)))
             (drop bs data)
      else (h, data)
  end.

(** [if (bufsize && bufsize + len >= bs)]: fill the buffer, and process it. *)
Definition fill_buffer (h : hasher St) (data : bytes) (bufsize : nat) : hasher St * bytes * nat :=
  if (negb (bufsize =? 0) && (bs <=? bufsize + length data))%nat then
    let b := memcpy (buf h) bufsize (take (bs - bufsize) data) in
    (Hasher (Transform (s h) b) b (u64 (nbytes h + Z.of_nat (bs - bufsize))),
     drop (bs - bufsize) data, 0%nat)
  else (h, data, bufsize).

(** [if (end > data)]: fill the buffer with what remains. *)
Definition save_rest (h : hasher St) (data : bytes) (bufsize : nat) : hasher St :=
  if (0 <? length data)%nat
  then Hasher (s h) (memcpy (buf h) bufsize data) (u64 (nbytes h + Z.of_nat (length data)))
  else h.

Definition md_write (h : hasher St) (data : bytes) : hasher St :=
  let bufsize := Z.to_nat (nbytes h mod Z.of_nat bs) in
  let '(h, data, bufsize) := fill_buffer h data bufsize in
  let '(h, data) := chunk_loop (length data) h data in
  save_rest h data bufsize.

(** [Finalize] up to the output: [pad] is 0x80 followed by zeros, [lb] the
    size of the length field and [sizedesc] its encoding. *)
Definition md_padding (h : hasher St) (lb : nat) (sizedesc : Z → bytes) : hasher St :=
  let desc := sizedesc (u64 (Z.shiftl (nbytes h) 3)) in
  let npad := (1 + (2 * bs - lb - 1 - Z.to_nat (nbytes h mod Z.of_nat bs)) mod bs)%nat in
  let h := md_write h (take npad (0x80 :: replicate (bs - 1) 0)) in
  md_write h desc.

(** ** Streaming *)
Context (Hbs : (0 < bs)%nat) (Hdiv : 18446744073709551616 mod Z.of_nat bs = 0).

Definition md_ok (h : hasher St) : Prop := length (buf h) = bs ∧ is_u64 (nbytes h).
Definition pending (h : hasher St) : nat := Z.to_nat (nbytes h mod Z.of_nat bs).
Definition md_step (sn : St * Z) (blk : bytes) : St * Z :=
  (Transform (fst sn) blk, u64 (snd sn + Z.of_nat bs)).
Definition md_view (h : hasher St) : (St * Z) * bytes :=
  ((s h, u64 (nbytes h - Z.of_nat (pending h))), take (pending h) (buf h)).

Lemma u64_mod_bs x : u64 x mod Z.of_nat bs = x mod Z.of_nat bs.
Proof.
  unfold u64. apply Z.mod_divide in Hdiv as [k Hk]; [|lia].
  rewrite Hk. assert (0 < k) by nia. rewrite (Z.mul_comm k), Z.rem_mul_r by lia.
  rewrite Z.mul_comm, Z.mod_add by lia. apply Z.mod_mod. lia.
Qed.

Lemma pending_lt h : (pending h < bs)%nat.
Proof. unfold pending. pose proof (Z.mod_pos_bound (nbytes h) (Z.of_nat bs)). lia. Qed.

Lemma length_view_rest h : md_ok h → length (snd (md_view h)) = pending h.
Proof. intros [Hb _]. pose proof (pending_lt h). simpl. rewrite length_take. lia. Qed.

(** A hasher with an empty pending buffer. *)
Lemma chunk_loop_spec fuel h data :
  md_ok h → pending h = 0%nat → (length data ≤ fuel)%nat →
  let '(h', rest) := chunk_loop fuel h data in
  md_ok h' ∧ pending h' = 0%nat ∧ buf h' = buf h ∧
  ((s h', nbytes h'), rest) = absorb bs md_step (s h, nbytes h) data.
Proof.
  revert h data. induction fuel as [|fuel IH]; intros h data Hok Hp Hlen.
  - destruct data; [|simpl in Hlen; lia]. cbn [chunk_loop]. by rewrite absorb_lt.
  - cbn [chunk_loop]. destruct (Nat.leb_spec bs (length data)) as [Hge|Hlt].
    + rewrite absorb_ge by done. apply IH.
      * split; [apply Hok|apply u64_range].
      * unfold pending in *. cbn [nbytes]. rewrite u64_mod_bs.
        rewrite <- (Z.mul_1_l (Z.of_nat bs)) at 1. by rewrite Z.mod_add by lia.
      * rewrite length_drop. lia.
    + by rewrite absorb_lt.
Qed.

(** The other two parts of [Write], and the whole. *)
Lemma save_rest_spec h data :
  md_ok h → (pending h + length data < bs)%nat →
  let h' := save_rest h data (pending h) in
  md_ok h' ∧ fst (md_view h') = fst (md_view h) ∧ snd (md_view h') = snd (md_view h) ++ data.
Proof.
  intros Hok Hlt. unfold save_rest. destruct data as [|b l].
  { simpl. by rewrite app_nil_r. }
  change (0 <? length (b :: l))%nat with true. cbv iota zeta. set (data := b :: l) in *.
  pose proof (pending_lt h) as Hp. destruct Hok as [Hb Hn].
  assert (Hp' : pending (Hasher (s h) (memcpy (buf h) (pending h) data)
                  (u64 (nbytes h + Z.of_nat (length data)))) = (pending h + length data)%nat).
  { unfold pending in *. cbn [nbytes]. rewrite u64_mod_bs.
    rewrite <- Z.add_mod_idemp_l by lia.
    pose proof (Z.mod_pos_bound (nbytes h) (Z.of_nat bs)).
    rewrite Z.mod_small by lia. lia. }
  split; [|unfold md_view; rewrite Hp'; cbn [fst snd s nbytes buf]; split].
  - split; [|apply u64_range]. cbn [buf]. rewrite length_memcpy; [done|].
    lia.
  - f_equal.
    replace (u64 (nbytes h + Z.of_nat (length data)) - Z.of_nat (pending h + length data))
      with (u64 (nbytes h + Z.of_nat (length data)) + - Z.of_nat (pending h + length data)) by lia.
    rewrite u64_add_l. f_equal. lia.
  - by rewrite take_memcpy by lia.
Qed.

Lemma fill_buffer_spec h data :
  md_ok h →
  let '(h', data', bufsize') := fill_buffer h data (pending h) in
  md_ok h' ∧ bufsize' = pending h' ∧
  (pending h' = 0%nat ∨ (pending h' + length data' < bs)%nat) ∧
  absorb bs md_step (fst (md_view h)) (snd (md_view h) ++ data)
  = absorb bs md_step (fst (md_view h')) (snd (md_view h') ++ data').
Proof.
  intros [Hb Hn]. unfold fill_buffer. pose proof (pending_lt h) as Hp.
  destruct (Nat.eqb_spec (pending h) 0) as [E|E]; cbn [negb andb].
  { split_and!; try done. by left. }
  destruct (Nat.leb_spec bs (pending h + length data)) as [Hge|Hlt].
  2:{ split_and!; try done. by right. }
  set (b := memcpy _ _ _). assert (Hlb : length b = bs).
  { subst b. rewrite length_memcpy; [done|]. rewrite length_take. lia. }
  assert (Hbe : b = take (pending h) (buf h) ++ take (bs - pending h) data).
  { rewrite <- (take_ge b bs) by lia. subst b.
    replace bs with (pending h + length (take (bs - pending h) data))%nat at 1
      by (rewrite length_take; lia). by apply take_memcpy; lia. }
  assert (Hp' : pending (Hasher (Transform (s h) b) b (u64 (nbytes h + Z.of_nat (bs - pending h)))) = 0%nat).
  { unfold pending in *. cbn [nbytes]. rewrite u64_mod_bs.
    pose proof (Z.mod_pos_bound (nbytes h) (Z.of_nat bs)).
    rewrite <- Z.add_mod_idemp_l by lia.
    replace (nbytes h mod Z.of_nat bs + _) with (1 * Z.of_nat bs) by lia.
    by rewrite Z.mod_mul by lia. }
  split; [by split; [|apply u64_range]|]. split; [by rewrite Hp'|]. split; [by left|].
  unfold md_view. rewrite Hp'. cbn [fst snd s nbytes buf].
  rewrite <- (take_drop (bs - pending h) data) at 1. rewrite app_assoc, <- Hbe.
  rewrite (absorb_ge bs md_step Hbs) by (rewrite length_app; lia).
  rewrite take_app_length', drop_app_length' by done.
  rewrite take_0. cbn [app]. f_equal. unfold md_step. cbn [fst snd]. f_equal.
  rewrite Z.sub_0_r, u64_add_l.
  rewrite (u64_small (u64 _)) by apply u64_range. f_equal. lia.
Qed.

Lemma md_write_spec h data :
  md_ok h →
  md_ok (md_write h data) ∧
  md_view (md_write h data) = absorb bs md_step (fst (md_view h)) (snd (md_view h) ++ data).
Proof.
  intros Hok. unfold md_write. fold (pending h).
  pose proof (fill_buffer_spec h data Hok) as Hf.
  destruct (fill_buffer h data (pending h)) as [[h1 d1] n1].
  destruct Hf as (Hok1 & -> & Hcase & Hab). rewrite Hab.
  destruct Hcase as [H0|Hlt].
  - pose proof (chunk_loop_spec (length d1) h1 d1 Hok1 H0 (le_n _)) as Hc.
    destruct (chunk_loop (length d1) h1 d1) as [h2 d2]. destruct Hc as (Hok2 & Hp2 & Hb2 & Hab2).
    assert (Hd2 : (length d2 < bs)%nat).
    { apply (f_equal snd) in Hab2. cbn [snd] in Hab2. rewrite Hab2. by apply absorb_rest_lt. }
    rewrite H0, <- Hp2.
    destruct (save_rest_spec h2 d2 Hok2) as (Hok3 & Hv1 & Hv2); [lia|].
    split; [done|]. unfold md_view at 2 3. rewrite H0, take_0. cbn [fst snd app].
    rewrite Z.sub_0_r, (u64_small (nbytes h1)) by apply Hok1. rewrite <- Hab2.
    rewrite (surjective_pairing (md_view _)), Hv1, Hv2. unfold md_view. rewrite Hp2, take_0.
    cbn [fst snd app]. by rewrite Z.sub_0_r, u64_small by apply Hok2.
  - assert (Hcl : chunk_loop (length d1) h1 d1 = (h1, d1)).
    { destruct (length d1) eqn:E; [done|]. cbn [chunk_loop].
      destruct (Nat.leb_spec bs (length d1)); [lia|done]. }
    rewrite Hcl. destruct (save_rest_spec h1 d1 Hok1 Hlt) as (Hok3 & Hv1 & Hv2).
    split; [done|]. rewrite absorb_lt by (rewrite ?length_app, ?length_view_rest; done).
    by rewrite (surjective_pairing (md_view _)), Hv1, Hv2.
Qed.

(** The block loop run as [Transform(s, data, blocks)] on the whole rest of the
    input, for a compression function that reads one block. *)
Definition run_blocks (blocks : nat) (st : St) (data : bytes) : St :=
  fst (Nat.iter blocks (λ '(st, c), (Transform st c, drop bs c)) (st, data)).

Lemma chunk_loop_blocks fuel h data :
  (∀ st c, Transform st (take bs c) = Transform st c) →
  is_u64 (nbytes h) → (length data ≤ fuel)%nat →
  chunk_loop fuel h data =
  let blocks := (length data / bs)%nat in
  (Hasher (run_blocks blocks (s h) data) (buf h) (u64 (nbytes h + Z.of_nat bs * Z.of_nat blocks)),
   drop (bs * blocks) data).
Proof.
  intros Ht. revert h data. induction fuel as [|fuel IH]; intros [st b n] data Hn Hlen.
  { destruct data; [|simpl in Hlen; lia]. cbn in *. rewrite Nat.Div0.div_0_l.
    rewrite Z.mul_0_r, Z.add_0_r, u64_small by done. by rewrite Nat.mul_0_r. }
  cbn [chunk_loop]. destruct (Nat.leb_spec bs (length data)) as [Hge|Hlt].
  - rewrite IH by (rewrite ?length_drop; first [apply u64_range|lia]). rewrite length_drop.
    assert (Hd : (length data / bs = S ((length data - bs) / bs))%nat).
    { replace (length data) with (length data - bs + 1 * bs)%nat at 1 by lia.
      rewrite Nat.div_add by lia. lia. }
    rewrite Hd. cbv zeta. cbn [s buf nbytes]. unfold run_blocks.
    rewrite Nat.iter_succ_r, Ht, u64_add_l, drop_drop. f_equal; [f_equal; f_equal; lia|].
    f_equal. lia.
  - rewrite Nat.div_small by done. cbn [run_blocks Nat.iter s buf nbytes].
    cbv zeta. rewrite Z.mul_0_r, Z.add_0_r, u64_small by done. by rewrite Nat.mul_0_r.
Qed.

(** ** Everything written so far *)
Context (s0 : St).

Definition md_fed (h : hasher St) (m : bytes) : Prop :=
  md_ok h ∧ md_view h = absorb bs md_step (s0, 0) m.

(** The constructor and [Reset]; the content of the buffer is irrelevant. *)
Lemma md_fed_new b : length b = bs → md_fed (Hasher s0 b 0) [].
Proof.
  intros Hb. split; [split; [done|done]|]. rewrite absorb_lt by done.
  unfold md_view, pending. cbn [nbytes s buf]. by rewrite Z.mod_0_l by lia.
Qed.

Lemma md_fed_write h m d : md_fed h m → md_fed (md_write h d) (m ++ d).
Proof.
  intros [Hok Hv]. destruct (md_write_spec h d Hok) as [Hok' Hv'].
  split; [done|]. by rewrite Hv', Hv, <- absorb_app.
Qed.

(** The counter rides along with the chaining state. *)
Lemma absorb_md_step sn m :
  is_u64 (snd sn) →
  absorb bs md_step sn m =
  ((fst (absorb bs Transform (fst sn) m), u64 (snd sn + Z.of_nat (length m - length m mod bs))),
   snd (absorb bs Transform (fst sn) m)).
Proof.
  revert sn m. apply (block_ind bs md_step Hbs (λ sn m, is_u64 (snd sn) →
    absorb bs md_step sn m =
    ((fst (absorb bs Transform (fst sn) m), u64 (snd sn + Z.of_nat (length m - length m mod bs))),
     snd (absorb bs Transform (fst sn) m)))).
  - intros [st n] m Hlt Hn. rewrite !absorb_lt by done. rewrite Nat.mod_small by done.
    rewrite Nat.sub_diag, Z.add_0_r, u64_small by done. done.
  - intros [st n] m Hge IH Hn. rewrite absorb_ge, IH by (done || apply u64_range).
    rewrite (absorb_ge bs Transform Hbs _ m) by done. cbn [md_step fst snd].
    rewrite u64_add_l, length_drop. f_equal. f_equal. f_equal.
    assert (Hm : ((length m - bs) mod bs = length m mod bs)%nat).
    { replace (length m) with (length m - bs + 1 * bs)%nat at 2 by lia.
      by rewrite Nat.Div0.mod_add. }
    rewrite Hm. pose proof (Nat.Div0.mod_le (length m - bs) bs). lia.
Qed.

Lemma md_fed_nbytes h m : md_fed h m → nbytes h = u64 (Z.of_nat (length m)).
Proof.
  intros [[Hb Hn] Hv]. pose proof (length_view_rest h (conj Hb Hn)) as Hl.
  rewrite Hv, absorb_rest in Hl by done.
  rewrite absorb_md_step in Hv by done. apply (f_equal (snd ∘ fst)) in Hv. cbn [compose fst snd md_view] in Hv.
  assert (E : u64 (nbytes h) = u64 (Z.of_nat (length m - length m mod bs) + Z.of_nat (pending h))).
  { rewrite <- u64_add_l. rewrite Z.add_0_l in Hv. rewrite <- Hv, u64_add_l. f_equal. lia. }
  rewrite (u64_small (nbytes h)) in E by done. rewrite E, <- Hl.
  pose proof (Nat.Div0.mod_le (length m) bs). f_equal. lia.
Qed.

Lemma md_fed_s h m : md_fed h m → s h = fst (absorb bs Transform s0 m).
Proof. intros [_ Hv]. rewrite absorb_md_step in Hv by done. by apply (f_equal (fst ∘ fst)) in Hv. Qed.

(** ** Padding *)
Context (lb : nat) (sizedesc : Z → bytes).
Context (Hlb : (lb < bs)%nat) (Hdesc : ∀ x, length (sizedesc x) = lb).

(** One bit, the smallest number of zeros that fills the last block, and the
    length in bits. *)
Definition md_pad (n : nat) : bytes :=
  0x80 :: replicate ((2 * bs - lb - 1 - n mod bs) mod bs) 0 ++ sizedesc (8 * Z.of_nat n).

(** The reference hash: compress the padded message block by block. *)
Definition md_ref (m : bytes) : St := fst (absorb bs Transform s0 (m ++ md_pad (length m))).

Lemma md_pad_fills m : snd (absorb bs Transform s0 (m ++ md_pad (length m))) = [].
Proof.
  apply nil_length_inv. rewrite absorb_rest by done. unfold md_pad.
  rewrite length_app. cbn [length]. rewrite length_app, length_replicate, Hdesc.
  pose proof (Nat.mod_upper_bound (length m) bs ltac:(lia)).
  pose proof (Nat.div_mod_eq (length m) bs) as Hdm.
  set (q := (length m / bs)%nat) in *. set (r := (length m mod bs)%nat) in *.
  destruct (decide (bs ≤ 2 * bs - lb - 1 - r)%nat) as [Hc|Hc].
  - replace (2 * bs - lb - 1 - r)%nat with (bs - lb - 1 - r + 1 * bs)%nat by lia.
    rewrite Nat.Div0.mod_add, (Nat.mod_small (bs - lb - 1 - r)) by lia.
    replace (_ + _)%nat with ((q + 1) * bs)%nat by nia. apply Nat.Div0.mod_mul.
  - rewrite (Nat.mod_small (2 * bs - lb - 1 - r)) by lia.
    replace (_ + _)%nat with ((q + 2) * bs)%nat by nia. apply Nat.Div0.mod_mul.
Qed.

Lemma md_padding_spec h m :
  md_fed h m → Z.of_nat (length m) < 2 ^ 61 → s (md_padding h lb sizedesc) = md_ref m.
Proof.
  intros Hfed Hlen. unfold md_padding. pose proof (md_fed_nbytes h m Hfed) as Hn.
  rewrite u64_small in Hn by word_lia. rewrite Hn.
  rewrite Z.shiftl_mul_pow2, Z.mul_comm by lia. change (2 ^ 3) with 8.
  rewrite u64_small by word_lia.
  rewrite <- Nat2Z.inj_mod, Nat2Z.id. set (k := ((2 * bs - lb - 1 - length m mod bs) mod bs)%nat).
  assert (Hk : (k < bs)%nat) by (apply Nat.mod_upper_bound; lia).
  replace (take (1 + k) (128 :: replicate (bs - 1) 0)) with (128 :: replicate k 0)
    by (simpl; by rewrite take_replicate, Nat.min_l by lia).
  rewrite (md_fed_s _ ((m ++ 128 :: replicate k 0) ++ sizedesc (8 * Z.of_nat (length m)))).
  - unfold md_ref, md_pad. fold k. by rewrite <- app_assoc.
  - by apply md_fed_write, md_fed_write.
Qed.
End MD.

Lemma md_ref_ext {St} bs (f g : St → bytes → St) (P : St → Prop) s0 lb sizedesc m :
  (0 < bs)%nat → P s0 → (∀ s blk, P s → f s blk = g s blk ∧ P (g s blk)) →
  md_ref bs f s0 lb sizedesc m = md_ref bs g s0 lb sizedesc m ∧ P (md_ref bs g s0 lb sizedesc m).
Proof.
  intros Hbs HP Hfg. unfold md_ref.
  destruct (absorb_ext bs f g P s0 (m ++ md_pad bs lb sizedesc (length m))) as [E H]; [done..|].
  by rewrite E.
Qed.
