(* ===== verification/Fips180.v ===== *)
(** * SHA-256 and SHA-512 as FIPS 180-4 defines them

    One section for both word sizes: [w] is the word length, [wrap] reduction
    modulo [2^w], and the six rotation-and-shift functions are parameters.
    The message schedule is the indexed recurrence of the standard and the
    compression loop works on eight working variables. *)

From stdpp Require Import base numbers list.
From Stdlib Require Import ZArith Lia ZifyNat.
From S2P Require Import Prelude.

Module Fips180.

(** Section 4.1. *)
Definition Ch (x y z : Z) : Z := Z.lxor (Z.land x y) (Z.land (Z.lnot x) z).
Definition Maj (x y z : Z) : Z := Z.lxor (Z.lxor (Z.land x y) (Z.land x z)) (Z.land y z).
Definition Parity (x y z : Z) : Z := Z.lxor (Z.lxor x y) z.

(** The forms with fewer operations that the source uses. *)
Lemma Ch_alt x y z : Z.lxor z (Z.land x (Z.lxor y z)) = Ch x y z.
Proof.
  unfold Ch. apply Z.bits_inj'. intros i Hi.
  rewrite !Z.lxor_spec, !Z.land_spec, Z.lxor_spec, Z.lnot_spec by done.
  by destruct (Z.testbit x i), (Z.testbit y i), (Z.testbit z i).
Qed.
Lemma Maj_alt x y z : Z.lor (Z.land x y) (Z.land z (Z.lor x y)) = Maj x y z.
Proof.
  unfold Maj. apply Z.bits_inj'. intros i Hi.
  rewrite !Z.lxor_spec, !Z.lor_spec, !Z.land_spec, Z.lor_spec.
  by destruct (Z.testbit x i), (Z.testbit y i), (Z.testbit z i).
Qed.

Section Sha2.
Context (w : Z).
Definition wrap (z : Z) : Z := z mod 2 ^ w.
Definition ROTR (n x : Z) : Z := Z.lor (Z.shiftr x n) (wrap (Z.shiftl x (w - n))).
Definition SHR (n x : Z) : Z := Z.shiftr x n.

Context (Sigma0 Sigma1 sigma0 sigma1 : Z → Z).

(** [W_t = sigma1(W_(t-2)) + W_(t-7) + sigma0(W_(t-15)) + W_(t-16)], appended
    [n] times to the message words. *)
Fixpoint schedule (n : nat) (W : list Z) : list Z :=
  match n with
  | O => W
  | S n' =>
      let t := length W in
      schedule n' (W ++ [wrap (sigma1 (W !!! (t - 2)%nat) + W !!! (t - 7)%nat
                               + sigma0 (W !!! (t - 15)%nat) + W !!! (t - 16)%nat)])
  end.

Definition vars : Type := Z * Z * Z * Z * Z * Z * Z * Z.

(** Step 3 of section 6.2.2 (6.4.2). *)
Definition step (v : vars) (kw : Z * Z) : vars :=
  let '(a, b, c, d, e, f, g, h) := v in
  let T1 := wrap (h + Sigma1 e + Ch e f g + fst kw + snd kw) in
  let T2 := wrap (Sigma0 a + Maj a b c) in
  (wrap (T1 + T2), a, b, c, wrap (d + T1), e, f, g).

Definition add_vars (H : list Z) (v : vars) : list Z :=
  let '(a, b, c, d, e, f, g, h) := v in
  zip_with (λ x y, wrap (x + y)) H [a; b; c; d; e; f; g; h].

Definition init_vars (H : list Z) : vars :=
  (H !!! 0%nat, H !!! 1%nat, H !!! 2%nat, H !!! 3%nat,
   H !!! 4%nat, H !!! 5%nat, H !!! 6%nat, H !!! 7%nat).

(** The compression function for the [16] message words [M] and constants [K]. *)
Definition compress (K : list Z) (H M : list Z) : list Z :=
  add_vars H (foldl step (init_vars H) (zip K (schedule (length K - 16) M))).

End Sha2.

(** ** Constants (sections 4.2.2, 4.2.3 and 5.3)

    [k] is the first [w] bits of the fractional part of the square (cube) root
    of [p]: the root of [p] scaled by [2^w] lies in [[q 2^w + k, q 2^w + k + 1)]
    with [q] the integer part. *)
Definition frac_root (e w p q k : Z) : bool :=
  (q ^ e <=? p) && (p <? (q + 1) ^ e) && (0 <=? k) && (k <? 2 ^ w) &&
  ((q * 2 ^ w + k) ^ e <=? p * 2 ^ (e * w)) && (p * 2 ^ (e * w) <? (q * 2 ^ w + k + 1) ^ e).

Definition is_frac_root (e w p k : Z) : bool :=
  existsb (λ q, frac_root e w p (Z.of_nat q) k) (seq 1 20).

(** [n] big-endian words of [w] bits packed in one numeral. *)
Definition unpack (w : Z) (n : nat) (z : Z) : list Z := rev (to_digits (2 ^ w) n z).

Definition primes80 : list Z :=
  filter (λ p, forallb (λ d, negb (p mod Z.of_nat d =? 0)) (seq 2 (Z.to_nat (Z.sqrt p) - 1)) = true)
    (map Z.of_nat (seq 2 408)).

End Fips180.
