(* ===== verification/Sha256.v ===== *)
(** * SHA-256 (src/src/crypto/sha256.cpp)

    The compression function with its 64 unrolled rounds and in-place message
    schedule, the hasher class, and the proof that they compute the function
    of Fips180.v. *)

From stdpp Require Import base numbers list.
From Stdlib Require Import ZArith Lia ZifyNat.
From S2P Require Import Prelude Endian BlockStream MerkleDamgard Fips180.

Module Sha256.

(** ** Internal functions *)

Definition Ch (x y z : Z) : Z := Z.lxor z (Z.land x (Z.lxor y z)).
Definition Maj (x y z : Z) : Z := Z.lor (Z.land x y) (Z.land z (Z.lor x y)).
Definition Sigma0 (x : Z) : Z :=
  Z.lxor (Z.lxor (Z.lor (Z.shiftr x 2) (u32 (Z.shiftl x 30))) (Z.lor (Z.shiftr x 13) (u32 (Z.shiftl x 19))))
    (Z.lor (Z.shiftr x 22) (u32 (Z.shiftl x 10))).
Definition Sigma1 (x : Z) : Z :=
  Z.lxor (Z.lxor (Z.lor (Z.shiftr x 6) (u32 (Z.shiftl x 26))) (Z.lor (Z.shiftr x 11) (u32 (Z.shiftl x 21))))
    (Z.lor (Z.shiftr x 25) (u32 (Z.shiftl x 7))).
Definition sigma0 (x : Z) : Z :=
  Z.lxor (Z.lxor (Z.lor (Z.shiftr x 7) (u32 (Z.shiftl x 25))) (Z.lor (Z.shiftr x 18) (u32 (Z.shiftl x 14))))
    (Z.shiftr x 3).
Definition sigma1 (x : Z) : Z :=
  Z.lxor (Z.lxor (Z.lor (Z.shiftr x 17) (u32 (Z.shiftl x 15))) (Z.lor (Z.shiftr x 19) (u32 (Z.shiftl x 13))))
    (Z.shiftr x 10).

(** One round; the by-reference arguments [d] and [h] are returned. *)
Definition Round (a b c d e f g h k w : Z) : Z * Z :=
  let t1 := u32 (u32 (u32 (u32 (h + Sigma1 e) + Ch e f g) + k) + w) in
  let t2 := u32 (Sigma0 a + Maj a b c) in
  (u32 (d + t1), u32 (t1 + t2)).

Definition Initialize : list Z :=
  [0x6a09e667; 0xbb67ae85; 0x3c6ef372; 0xa54ff53a;
   0x510e527f; 0x9b05688c; 0x1f83d9ab; 0x5be0cd19].

(** One block of [Transform]. *)
Definition transform_block (s : list Z) (chunk : bytes) : list Z :=
  let a := s !!! 0%nat in let b := s !!! 1%nat in let c := s !!! 2%nat in let d := s !!! 3%nat in
  let e := s !!! 4%nat in let f := s !!! 5%nat in let g := s !!! 6%nat in let h := s !!! 7%nat in

  var w0 := ReadBE32 (drop 0 chunk) ;; let '(d, h) := Round a b c d e f g h 0x428a2f98 w0 in
  var w1 := ReadBE32 (drop 4 chunk) ;; let '(c, g) := Round h a b c d e f g 0x71374491 w1 in
  var w2 := ReadBE32 (drop 8 chunk) ;; let '(b, f) := Round g h a b c d e f 0xb5c0fbcf w2 in
  var w3 := ReadBE32 (drop 12 chunk) ;; let '(a, e) := Round f g h a b c d e 0xe9b5dba5 w3 in
  var w4 := ReadBE32 (drop 16 chunk) ;; let '(h, d) := Round e f g h a b c d 0x3956c25b w4 in
  var w5 := ReadBE32 (drop 20 chunk) ;; let '(g, c) := Round d e f g h a b c 0x59f111f1 w5 in
  var w6 := ReadBE32 (drop 24 chunk) ;; let '(f, b) := Round c d e f g h a b 0x923f82a4 w6 in
  var w7 := ReadBE32 (drop 28 chunk) ;; let '(e, a) := Round b c d e f g h a 0xab1c5ed5 w7 in
  var w8 := ReadBE32 (drop 32 chunk) ;; let '(d, h) := Round a b c d e f g h 0xd807aa98 w8 in
  var w9 := ReadBE32 (drop 36 chunk) ;; let '(c, g) := Round h a b c d e f g 0x12835b01 w9 in
  var w10 := ReadBE32 (drop 40 chunk) ;; let '(b, f) := Round g h a b c d e f 0x243185be w10 in
  var w11 := ReadBE32 (drop 44 chunk) ;; let '(a, e) := Round f g h a b c d e 0x550c7dc3 w11 in
  var w12 := ReadBE32 (drop 48 chunk) ;; let '(h, d) := Round e f g h a b c d 0x72be5d74 w12 in
  var w13 := ReadBE32 (drop 52 chunk) ;; let '(g, c) := Round d e f g h a b c 0x80deb1fe w13 in
  var w14 := ReadBE32 (drop 56 chunk) ;; let '(f, b) := Round c d e f g h a b 0x9bdc06a7 w14 in
  var w15 := ReadBE32 (drop 60 chunk) ;; let '(e, a) := Round b c d e f g h a 0xc19bf174 w15 in

  var w0 := u32 (w0 + u32 (u32 (sigma1 w14 + w9) + sigma0 w1)) ;; let '(d, h) := Round a b c d e f g h 0xe49b69c1 w0 in
  var w1 := u32 (w1 + u32 (u32 (sigma1 w15 + w10) + sigma0 w2)) ;; let '(c, g) := Round h a b c d e f g 0xefbe4786 w1 in
  var w2 := u32 (w2 + u32 (u32 (sigma1 w0 + w11) + sigma0 w3)) ;; let '(b, f) := Round g h a b c d e f 0x0fc19dc6 w2 in
  var w3 := u32 (w3 + u32 (u32 (sigma1 w1 + w12) + sigma0 w4)) ;; let '(a, e) := Round f g h a b c d e 0x240ca1cc w3 in
  var w4 := u32 (w4 + u32 (u32 (sigma1 w2 + w13) + sigma0 w5)) ;; let '(h, d) := Round e f g h a b c d 0x2de92c6f w4 in
  var w5 := u32 (w5 + u32 (u32 (sigma1 w3 + w14) + sigma0 w6)) ;; let '(g, c) := Round d e f g h a b c 0x4a7484aa w5 in
  var w6 := u32 (w6 + u32 (u32 (sigma1 w4 + w15) + sigma0 w7)) ;; let '(f, b) := Round c d e f g h a b 0x5cb0a9dc w6 in
  var w7 := u32 (w7 + u32 (u32 (sigma1 w5 + w0) + sigma0 w8)) ;; let '(e, a) := Round b c d e f g h a 0x76f988da w7 in
  var w8 := u32 (w8 + u32 (u32 (sigma1 w6 + w1) + sigma0 w9)) ;; let '(d, h) := Round a b c d e f g h 0x983e5152 w8 in
  var w9 := u32 (w9 + u32 (u32 (sigma1 w7 + w2) + sigma0 w10)) ;; let '(c, g) := Round h a b c d e f g 0xa831c66d w9 in
  var w10 := u32 (w10 + u32 (u32 (sigma1 w8 + w3) + sigma0 w11)) ;; let '(b, f) := Round g h a b c d e f 0xb00327c8 w10 in
  var w11 := u32 (w11 + u32 (u32 (sigma1 w9 + w4) + sigma0 w12)) ;; let '(a, e) := Round f g h a b c d e 0xbf597fc7 w11 in
  var w12 := u32 (w12 + u32 (u32 (sigma1 w10 + w5) + sigma0 w13)) ;; let '(h, d) := Round e f g h a b c d 0xc6e00bf3 w12 in
  var w13 := u32 (w13 + u32 (u32 (sigma1 w11 + w6) + sigma0 w14)) ;; let '(g, c) := Round d e f g h a b c 0xd5a79147 w13 in
  var w14 := u32 (w14 + u32 (u32 (sigma1 w12 + w7) + sigma0 w15)) ;; let '(f, b) := Round c d e f g h a b 0x06ca6351 w14 in
  var w15 := u32 (w15 + u32 (u32 (sigma1 w13 + w8) + sigma0 w0)) ;; let '(e, a) := Round b c d e f g h a 0x14292967 w15 in

  var w0 := u32 (w0 + u32 (u32 (sigma1 w14 + w9) + sigma0 w1)) ;; let '(d, h) := Round a b c d e f g h 0x27b70a85 w0 in
  var w1 := u32 (w1 + u32 (u32 (sigma1 w15 + w10) + sigma0 w2)) ;; let '(c, g) := Round h a b c d e f g 0x2e1b2138 w1 in
  var w2 := u32 (w2 + u32 (u32 (sigma1 w0 + w11) + sigma0 w3)) ;; let '(b, f) := Round g h a b c d e f 0x4d2c6dfc w2 in
  var w3 := u32 (w3 + u32 (u32 (sigma1 w1 + w12) + sigma0 w4)) ;; let '(a, e) := Round f g h a b c d e 0x53380d13 w3 in
  var w4 := u32 (w4 + u32 (u32 (sigma1 w2 + w13) + sigma0 w5)) ;; let '(h, d) := Round e f g h a b c d 0x650a7354 w4 in
  var w5 := u32 (w5 + u32 (u32 (sigma1 w3 + w14) + sigma0 w6)) ;; let '(g, c) := Round d e f g h a b c 0x766a0abb w5 in
  var w6 := u32 (w6 + u32 (u32 (sigma1 w4 + w15) + sigma0 w7)) ;; let '(f, b) := Round c d e f g h a b 0x81c2c92e w6 in
  var w7 := u32 (w7 + u32 (u32 (sigma1 w5 + w0) + sigma0 w8)) ;; let '(e, a) := Round b c d e f g h a 0x92722c85 w7 in
  var w8 := u32 (w8 + u32 (u32 (sigma1 w6 + w1) + sigma0 w9)) ;; let '(d, h) := Round a b c d e f g h 0xa2bfe8a1 w8 in
  var w9 := u32 (w9 + u32 (u32 (sigma1 w7 + w2) + sigma0 w10)) ;; let '(c, g) := Round h a b c d e f g 0xa81a664b w9 in
  var w10 := u32 (w10 + u32 (u32 (sigma1 w8 + w3) + sigma0 w11)) ;; let '(b, f) := Round g h a b c d e f 0xc24b8b70 w10 in
  var w11 := u32 (w11 + u32 (u32 (sigma1 w9 + w4) + sigma0 w12)) ;; let '(a, e) := Round f g h a b c d e 0xc76c51a3 w11 in
  var w12 := u32 (w12 + u32 (u32 (sigma1 w10 + w5) + sigma0 w13)) ;; let '(h, d) := Round e f g h a b c d 0xd192e819 w12 in
  var w13 := u32 (w13 + u32 (u32 (sigma1 w11 + w6) + sigma0 w14)) ;; let '(g, c) := Round d e f g h a b c 0xd6990624 w13 in
  var w14 := u32 (w14 + u32 (u32 (sigma1 w12 + w7) + sigma0 w15)) ;; let '(f, b) := Round c d e f g h a b 0xf40e3585 w14 in
  var w15 := u32 (w15 + u32 (u32 (sigma1 w13 + w8) + sigma0 w0)) ;; let '(e, a) := Round b c d e f g h a 0x106aa070 w15 in

  var w0 := u32 (w0 + u32 (u32 (sigma1 w14 + w9) + sigma0 w1)) ;; let '(d, h) := Round a b c d e f g h 0x19a4c116 w0 in
  var w1 := u32 (w1 + u32 (u32 (sigma1 w15 + w10) + sigma0 w2)) ;; let '(c, g) := Round h a b c d e f g 0x1e376c08 w1 in
  var w2 := u32 (w2 + u32 (u32 (sigma1 w0 + w11) + sigma0 w3)) ;; let '(b, f) := Round g h a b c d e f 0x2748774c w2 in
  var w3 := u32 (w3 + u32 (u32 (sigma1 w1 + w12) + sigma0 w4)) ;; let '(a, e) := Round f g h a b c d e 0x34b0bcb5 w3 in
  var w4 := u32 (w4 + u32 (u32 (sigma1 w2 + w13) + sigma0 w5)) ;; let '(h, d) := Round e f g h a b c d 0x391c0cb3 w4 in
  var w5 := u32 (w5 + u32 (u32 (sigma1 w3 + w14) + sigma0 w6)) ;; let '(g, c) := Round d e f g h a b c 0x4ed8aa4a w5 in
  var w6 := u32 (w6 + u32 (u32 (sigma1 w4 + w15) + sigma0 w7)) ;; let '(f, b) := Round c d e f g h a b 0x5b9cca4f w6 in
  var w7 := u32 (w7 + u32 (u32 (sigma1 w5 + w0) + sigma0 w8)) ;; let '(e, a) := Round b c d e f g h a 0x682e6ff3 w7 in
  var w8 := u32 (w8 + u32 (u32 (sigma1 w6 + w1) + sigma0 w9)) ;; let '(d, h) := Round a b c d e f g h 0x748f82ee w8 in
  var w9 := u32 (w9 + u32 (u32 (sigma1 w7 + w2) + sigma0 w10)) ;; let '(c, g) := Round h a b c d e f g 0x78a5636f w9 in
  var w10 := u32 (w10 + u32 (u32 (sigma1 w8 + w3) + sigma0 w11)) ;; let '(b, f) := Round g h a b c d e f 0x84c87814 w10 in
  var w11 := u32 (w11 + u32 (u32 (sigma1 w9 + w4) + sigma0 w12)) ;; let '(a, e) := Round f g h a b c d e 0x8cc70208 w11 in
  var w12 := u32 (w12 + u32 (u32 (sigma1 w10 + w5) + sigma0 w13)) ;; let '(h, d) := Round e f g h a b c d 0x90befffa w12 in
  var w13 := u32 (w13 + u32 (u32 (sigma1 w11 + w6) + sigma0 w14)) ;; let '(g, c) := Round d e f g h a b c 0xa4506ceb w13 in
  let '(f, b) := Round c d e f g h a b 0xbef9a3f7 (u32 (u32 (u32 (w14 + sigma1 w12) + w7) + sigma0 w15)) in
  let '(e, a) := Round b c d e f g h a 0xc67178f2 (u32 (u32 (u32 (w15 + sigma1 w13) + w8) + sigma0 w0)) in

  [u32 (s !!! 0%nat + a); u32 (s !!! 1%nat + b); u32 (s !!! 2%nat + c); u32 (s !!! 3%nat + d);
   u32 (s !!! 4%nat + e); u32 (s !!! 5%nat + f); u32 (s !!! 6%nat + g); u32 (s !!! 7%nat + h)].

(** [Transform(s, chunk, blocks)]. *)
Definition Transform (s : list Z) (chunk : bytes) (blocks : nat) : list Z :=
  fst (Nat.iter blocks (λ '(s, chunk), (transform_block s chunk, drop 64 chunk)) (s, chunk)).

(** ** The hasher class *)

Definition hasher := MerkleDamgard.hasher (list Z).
#[global] Typeclasses Opaque hasher.

(** [CSHA256()] and [Reset]. *)
Definition CSHA256 : hasher := Hasher Initialize (replicate 64 0) 0.
Definition Reset (h : hasher) : hasher := Hasher Initialize (buf h) 0.

(** [Write]; the middle part hands all complete blocks to [Transform] at once. *)
Definition Write (h : hasher) (data : bytes) : hasher :=
  let bufsize := Z.to_nat (nbytes h mod 64) in
  let '(h, data, bufsize) := fill_buffer 64 (λ s b, Transform s b 1) h data bufsize in
  let '(h, data) :=
    if (64 <=? length data)%nat then
      let blocks := (length data / 64)%nat in
      (Hasher (Transform (s h) data blocks) (buf h) (u64 (nbytes h + 64 * Z.of_nat blocks)),
       drop (64 * blocks) data)
    else (h, data) in
  save_rest h data bufsize.

Definition Finalize (h : hasher) : bytes :=
  let pad := 0x80 :: replicate 63 0 in
  let sizedesc := WriteBE64 (u64 (Z.shiftl (nbytes h) 3)) in
  let h := Write h (take (Z.to_nat (1 + (119 - nbytes h mod 64) mod 64)) pad) in
  let h := Write h sizedesc in
  WriteBE32 (s h !!! 0%nat) ++ WriteBE32 (s h !!! 1%nat) ++ WriteBE32 (s h !!! 2%nat) ++
  WriteBE32 (s h !!! 3%nat) ++ WriteBE32 (s h !!! 4%nat) ++ WriteBE32 (s h !!! 5%nat) ++
  WriteBE32 (s h !!! 6%nat) ++ WriteBE32 (s h !!! 7%nat).

(** [SelfTest(tr)] for any implementation of [Transform]. *)
Definition SelfTest (tr : list Z → bytes → nat → list Z) : bool :=
  let in1 := 0x80 :: replicate 63 0 in
  let in2 := replicate 64 32 ++ 0x80 :: replicate 61 0 ++ [2; 0] in
  let init := Initialize in
  let out1 := [0xe3b0c442; 0x98fc1c14; 0x9afbf4c8; 0x996fb924; 0x27ae41e4; 0x649b934c; 0xa495991b; 0x7852b855] in
  let out2 := [0xce4153b0; 0x147c2a86; 0x3ed4298e; 0xe0676bc8; 0x79fc77a1; 0x2abe1f49; 0xb2b055df; 0x1069523e] in
  if negb (bool_decide (tr init [] 0%nat = init)) then false
  else if negb (bool_decide (tr init in1 1%nat = out1)) then false
  else if negb (bool_decide (tr init in2 2%nat = out2)) then false
  else true.

(** ** The standard's function for this word size *)

(** Four constants per line. *)
Definition K : list Z :=
  [0x428a2f9871374491b5c0fbcfe9b5dba5;
   0x3956c25b59f111f1923f82a4ab1c5ed5;
   0xd807aa9812835b01243185be550c7dc3;
   0x72be5d7480deb1fe9bdc06a7c19bf174;
   0xe49b69c1efbe47860fc19dc6240ca1cc;
   0x2de92c6f4a7484aa5cb0a9dc76f988da;
   0x983e5152a831c66db00327c8bf597fc7;
   0xc6e00bf3d5a7914706ca635114292967;
   0x27b70a852e1b21384d2c6dfc53380d13;
   0x650a7354766a0abb81c2c92e92722c85;
   0xa2bfe8a1a81a664bc24b8b70c76c51a3;
   0xd192e819d6990624f40e3585106aa070;
   0x19a4c1161e376c082748774c34b0bcb5;
   0x391c0cb34ed8aa4a5b9cca4f682e6ff3;
   0x748f82ee78a5636f84c878148cc70208;
   0x90befffaa4506cebbef9a3f7c67178f2]
  ≫= Fips180.unpack 32 4.

Definition ref_compress (H : list Z) (chunk : bytes) : list Z :=
  Fips180.compress 32
    (λ x, Z.lxor (Z.lxor (Fips180.ROTR 32 2 x) (Fips180.ROTR 32 13 x)) (Fips180.ROTR 32 22 x))
    (λ x, Z.lxor (Z.lxor (Fips180.ROTR 32 6 x) (Fips180.ROTR 32 11 x)) (Fips180.ROTR 32 25 x))
    (λ x, Z.lxor (Z.lxor (Fips180.ROTR 32 7 x) (Fips180.ROTR 32 18 x)) (Fips180.SHR 3 x))
    (λ x, Z.lxor (Z.lxor (Fips180.ROTR 32 17 x) (Fips180.ROTR 32 19 x)) (Fips180.SHR 10 x))
    K H (map (λ i, ReadBE32 (drop (4 * i) chunk)) (seq 0 16)).

(** The constants are the fractional parts of the cube and square roots of the
    first primes. *)
Lemma sha256_K_constants : forallb (λ pk, Fips180.is_frac_root 3 32 (fst pk) (snd pk)) (zip Fips180.primes80 K) = true.
Proof. vm_compute. reflexivity. Qed.
Lemma sha256_K_length : length K = 64%nat.
Proof. reflexivity. Qed.
Lemma sha256_Initialize_constants :
  forallb (λ pk, Fips180.is_frac_root 2 32 (fst pk) (snd pk)) (zip Fips180.primes80 Initialize) = true.
Proof. vm_compute. reflexivity. Qed.

(** ** The unrolled rounds compute the standard's loop *)

Lemma sha256_Ch_ref x y z : Ch x y z = Fips180.Ch x y z.
Proof. apply Fips180.Ch_alt. Qed.
Lemma sha256_Maj_ref x y z : Maj x y z = Fips180.Maj x y z.
Proof. apply Fips180.Maj_alt. Qed.

Lemma sha256_wrap_sum a b c d e : u32 (u32 (u32 (u32 (a + b) + c) + d) + e) = u32 (a + b + c + d + e).
Proof. by rewrite (u32_add_l (a + b)), (u32_add_l (a + b + c)), u32_add_l. Qed.

(** A round permutes the roles of the working variables. *)
Lemma sha256_step_Round a b c d e f g h k w :
  Fips180.step 32 Sigma0 Sigma1 (a, b, c, d, e, f, g, h) (k, w)
  = let '(d', h') := Round a b c d e f g h k w in (h', a, b, c, d', e, f, g).
Proof.
  unfold Fips180.step, Round. cbn [fst snd]. cbv zeta. change (Fips180.wrap 32) with u32.
  rewrite <- sha256_Ch_ref, <- sha256_Maj_ref.
  by rewrite (sha256_wrap_sum h), !u32_add_l.
Qed.

(** [w0 += sigma1(w14) + w9 + sigma0(w1)] is one step of the schedule. *)
Lemma sha256_schedule_word w0 x y z : u32 (w0 + u32 (u32 (x + y) + z)) = Fips180.wrap 32 (x + y + z + w0).
Proof.
  change (Fips180.wrap 32) with u32. rewrite u32_add_r. replace (w0 + (u32 (x + y) + z)) with (u32 (x + y) + (z + w0)) by lia.
  rewrite u32_add_l. f_equal. lia.
Qed.
Lemma sha256_schedule_word' w0 x y z : u32 (u32 (u32 (w0 + x) + y) + z) = Fips180.wrap 32 (x + y + z + w0).
Proof. change (Fips180.wrap 32) with u32. rewrite (u32_add_l (w0 + x)), u32_add_l. f_equal. lia. Qed.

Lemma sha256_ref_compress_eq H chunk :
  ref_compress H chunk
  = Fips180.compress 32 Sigma0 Sigma1 sigma0 sigma1 K H
      [ReadBE32 (drop 0 chunk); ReadBE32 (drop 4 chunk); ReadBE32 (drop 8 chunk); ReadBE32 (drop 12 chunk); ReadBE32 (drop 16 chunk); ReadBE32 (drop 20 chunk); ReadBE32 (drop 24 chunk); ReadBE32 (drop 28 chunk); ReadBE32 (drop 32 chunk); ReadBE32 (drop 36 chunk); ReadBE32 (drop 40 chunk); ReadBE32 (drop 44 chunk); ReadBE32 (drop 48 chunk); ReadBE32 (drop 52 chunk); ReadBE32 (drop 56 chunk); ReadBE32 (drop 60 chunk)].
Proof. reflexivity. Qed.

Lemma sha256_schedule_S n W :
  Fips180.schedule 32 sigma0 sigma1 (S n) W
  = Fips180.schedule 32 sigma0 sigma1 n
      (W ++ [Fips180.wrap 32 (sigma1 (W !!! (length W - 2)%nat) + W !!! (length W - 7)%nat
               + sigma0 (W !!! (length W - 15)%nat) + W !!! (length W - 16)%nat)]).
Proof. reflexivity. Qed.

Ltac schedule_step :=
  rewrite sha256_schedule_S; cbn [app length Nat.sub lookup_total list_lookup_total];
  match goal with |- context [Fips180.wrap 32 ?e] => remember (Fips180.wrap 32 e) end.

Ltac round_step :=
  lazymatch goal with
  | |- assign ?e _ = _ =>
      first [is_var e | rewrite sha256_schedule_word];
      try match goal with H : _ = ?x |- assign ?x _ = _ => rewrite <- H end;
      match goal with |- assign ?v ?k = ?r => change (k v = r); cbv beta end
  | |- _ = Fips180.add_vars _ _ (foldl _ _ ((?k, ?w) :: _)) =>
      rewrite foldl_step, sha256_step_Round;
      try (rewrite sha256_schedule_word';
           match goal with H : _ = ?x |- context [Round _ _ _ _ _ _ _ _ k ?x] => rewrite <- H end);
      destruct (Round _ _ _ _ _ _ _ _ k w)
  end.

Lemma sha256_transform_block_ref s chunk : length s = 8%nat → transform_block s chunk = ref_compress s chunk.
Proof.
  intros Hs. rewrite sha256_ref_compress_eq. unfold Fips180.compress. change (length K - 16)%nat with 48%nat.
  unfold transform_block.
  generalize (ReadBE32 (drop 0 chunk)) (ReadBE32 (drop 4 chunk)) (ReadBE32 (drop 8 chunk)) (ReadBE32 (drop 12 chunk)) (ReadBE32 (drop 16 chunk)) (ReadBE32 (drop 20 chunk)) (ReadBE32 (drop 24 chunk)) (ReadBE32 (drop 28 chunk)) (ReadBE32 (drop 32 chunk)) (ReadBE32 (drop 36 chunk)) (ReadBE32 (drop 40 chunk)) (ReadBE32 (drop 44 chunk)) (ReadBE32 (drop 48 chunk)) (ReadBE32 (drop 52 chunk)) (ReadBE32 (drop 56 chunk)) (ReadBE32 (drop 60 chunk)).
  intros.
  destruct s as [|? [|? [|? [|? [|? [|? [|? [|? [|? ?]]]]]]]]]; try discriminate Hs.
  cbn [lookup_total list_lookup_total]. unfold Fips180.init_vars.
  cbn [lookup_total list_lookup_total].
  do 48 schedule_step. cbn [Fips180.schedule]. let k := eval vm_compute in K in change K with k. cbn [zip zip_with].
  repeat round_step.
  reflexivity.
Qed.

(** ** The hasher class *)

Lemma sha256_read_take i chunk : (i ≤ 60)%nat → ReadBE32 (drop i (take 64 chunk)) = ReadBE32 (drop i chunk).
Proof.
  intros Hi. unfold ReadBE32.
  rewrite skipn_firstn_comm, take_take. do 3 f_equal. lia.
Qed.

(** [Transform] reads 64 bytes. *)
Lemma sha256_transform_block_take s chunk : transform_block s (take 64 chunk) = transform_block s chunk.
Proof.
  unfold transform_block.
  rewrite (sha256_read_take 0), (sha256_read_take 4), (sha256_read_take 8), (sha256_read_take 12), (sha256_read_take 16),
    (sha256_read_take 20), (sha256_read_take 24), (sha256_read_take 28), (sha256_read_take 32), (sha256_read_take 36), (sha256_read_take 40),
    (sha256_read_take 44), (sha256_read_take 48), (sha256_read_take 52), (sha256_read_take 56), (sha256_read_take 60) by lia.
  reflexivity.
Qed.

#[local] Opaque transform_block.

Lemma sha256_Write_md h data :
  md_ok 64 h → Write h data = md_write 64 transform_block h data.
Proof.
  intros Hok. unfold Write, md_write. change (Z.of_nat 64) with 64.
  change (λ s b, Transform s b 1) with transform_block.
  pose proof (fill_buffer_spec 64 transform_block ltac:(lia) eq_refl h data Hok) as Hf.
  unfold pending in Hf. change (Z.of_nat 64) with 64 in Hf.
  destruct (fill_buffer 64 transform_block h data _) as [[h1 d1] n1]. destruct Hf as (Hok1 & _).
  rewrite (chunk_loop_blocks 64 transform_block) by
    (first [lia | apply sha256_transform_block_take | apply Hok1]).
  cbv zeta. destruct (Nat.leb_spec 64 (length d1)) as [Hge|Hlt]; [done|].
  rewrite Nat.div_small by done. destruct h1 as [st b n].
  cbn [run_blocks Nat.iter fst s buf nbytes]. rewrite Z.mul_0_r, Z.add_0_r, u64_small by apply Hok1.
  done.
Qed.

(** The digest of the standard. *)
Definition sha256 (m : bytes) : bytes := md_ref 64 ref_compress Initialize 8 WriteBE64 m ≫= WriteBE32.

Lemma sha256_ref_compress_length H chunk : length H = 8%nat → length (ref_compress H chunk) = 8%nat.
Proof.
  intros Hl. unfold ref_compress, Fips180.compress, Fips180.add_vars.
  destruct (foldl _ _ _) as [[[[[[[a b] c] d] e] f] g] h]. rewrite length_zip_with, Hl. done.
Qed.

Lemma sha256_md_ref_transform m :
  md_ref 64 transform_block Initialize 8 WriteBE64 m = md_ref 64 ref_compress Initialize 8 WriteBE64 m ∧
  length (md_ref 64 ref_compress Initialize 8 WriteBE64 m) = 8%nat.
Proof.
  apply (md_ref_ext 64 _ _ (λ st, length st = 8%nat)); [lia|done|]. intros st blk Hst.
  split; [by apply sha256_transform_block_ref|by apply sha256_ref_compress_length].
Qed.

Abbreviation fed := (md_fed 64 transform_block Initialize).

Lemma sha256_fed_write h m d : fed h m → fed (Write h d) (m ++ d).
Proof.
  intros Hf. rewrite sha256_Write_md by apply Hf. by apply md_fed_write; [lia|done|].
Qed.

Lemma sha256_Finalize_spec h m : fed h m → Z.of_nat (length m) < 2 ^ 61 → Finalize h = sha256 m.
Proof.
  intros Hf Hlen. unfold Finalize, sha256.
  destruct (sha256_md_ref_transform m) as [E H8]. rewrite <- E in H8 |- *.
  pose proof (md_padding_spec 64 transform_block ltac:(lia) eq_refl Initialize 8 WriteBE64 ltac:(lia) h m Hf Hlen) as Hp.
  rewrite <- Hp in H8 |- *. clear E Hp.
  unfold md_padding in *. change (Z.of_nat 64) with 64 in *.
  set (npad := (1 + (2 * 64 - 8 - 1 - Z.to_nat (nbytes h mod 64)) mod 64)%nat) in *.
  replace (Z.to_nat (1 + (119 - nbytes h mod 64) mod 64)) with npad by (subst npad; zlin).
  assert (Hok : md_ok 64 h) by apply Hf. rewrite (sha256_Write_md h) by done.
  rewrite sha256_Write_md by (apply md_write_spec; [lia|done|done]).
  change (replicate (64 - 1) 0) with (replicate 63 0) in *.
  set (st := s (md_write 64 transform_block _ _)) in *.
  destruct st as [|? [|? [|? [|? [|? [|? [|? [|? [|? ?]]]]]]]]]; try discriminate H8. reflexivity.
Qed.

#[global] Program Instance sha256_alg : HashAlg hasher := {|
  ha_new := CSHA256; ha_write := Write; ha_finalize := Finalize;
  ha_digest := sha256; ha_outlen := 32; ha_fed h m := fed h m
|}.
Next Obligation. apply md_fed_new; [lia|done]. Qed.
Next Obligation. intros. by apply sha256_fed_write. Qed.
Next Obligation. intros. by apply sha256_Finalize_spec. Qed.
Next Obligation.
  intros m. unfold sha256. destruct (sha256_md_ref_transform m) as [_ H8].
  destruct (md_ref _ _ _ _ _ _) as [|? [|? [|? [|? [|? [|? [|? [|? [|? ?]]]]]]]]]; try discriminate H8.
  unfold mbind, list_bind. by rewrite !length_app, !length_WriteBE32.
Qed.

(** SHA-256.  Any sequence of [Write] calls on a new [CSHA256] object
    followed by [Finalize] returns the FIPS 180-4 hash of the concatenated input
    (below 2^61 bytes): the 64 unrolled rounds with the in-place schedule are
    the standard's compression function, and neither the chunking nor the
    buffer matters. *)
Theorem sha256_correct (chunks : list bytes) :
  Z.of_nat (length (concat chunks)) < 2 ^ 61 →
  Finalize (foldl Write CSHA256 chunks)
  = md_ref 64 ref_compress Initialize 8 WriteBE64 (concat chunks) ≫= WriteBE32.
Proof. apply (ha_writes (HashAlg0 := sha256_alg)). Qed.

Lemma sha256_correct_witness :
  Finalize (foldl Write CSHA256 [[97]; [98; 99]])
  = md_ref 64 ref_compress Initialize 8 WriteBE64 [97; 98; 99] ≫= WriteBE32.
Proof. apply (sha256_correct [[97]; [98; 99]]). simpl. lia. Defined.

(** The self test run at start-up passes. *)
Lemma sha256_SelfTest_passes : SelfTest Transform = true.
Proof. vm_compute. reflexivity. Qed.

End Sha256.
