(* ===== verification/Sha512.v ===== *)
(** * SHA-512 (src/src/crypto/sha512.cpp)

    The compression function with its 80 unrolled rounds and in-place message
    schedule, the hasher class, and the proof that they compute the function
    of Fips180.v. *)

From stdpp Require Import base numbers list.
From Stdlib Require Import ZArith Lia ZifyNat.
From S2P Require Import Prelude Endian BlockStream MerkleDamgard Fips180.

Module Sha512.

(** ** Internal functions *)

Definition Ch (x y z : Z) : Z := Z.lxor z (Z.land x (Z.lxor y z)).
Definition Maj (x y z : Z) : Z := Z.lor (Z.land x y) (Z.land z (Z.lor x y)).
Definition Sigma0 (x : Z) : Z :=
  Z.lxor (Z.lxor (Z.lor (Z.shiftr x 28) (u64 (Z.shiftl x 36))) (Z.lor (Z.shiftr x 34) (u64 (Z.shiftl x 30))))
    (Z.lor (Z.shiftr x 39) (u64 (Z.shiftl x 25))).
Definition Sigma1 (x : Z) : Z :=
  Z.lxor (Z.lxor (Z.lor (Z.shiftr x 14) (u64 (Z.shiftl x 50))) (Z.lor (Z.shiftr x 18) (u64 (Z.shiftl x 46))))
    (Z.lor (Z.shiftr x 41) (u64 (Z.shiftl x 23))).
Definition sigma0 (x : Z) : Z :=
  Z.lxor (Z.lxor (Z.lor (Z.shiftr x 1) (u64 (Z.shiftl x 63))) (Z.lor (Z.shiftr x 8) (u64 (Z.shiftl x 56))))
    (Z.shiftr x 7).
Definition sigma1 (x : Z) : Z :=
  Z.lxor (Z.lxor (Z.lor (Z.shiftr x 19) (u64 (Z.shiftl x 45))) (Z.lor (Z.shiftr x 61) (u64 (Z.shiftl x 3))))
    (Z.shiftr x 6).

(** One round; the by-reference arguments [d] and [h] are returned. *)
Definition Round (a b c d e f g h k w : Z) : Z * Z :=
  let t1 := u64 (u64 (u64 (u64 (h + Sigma1 e) + Ch e f g) + k) + w) in
  let t2 := u64 (Sigma0 a + Maj a b c) in
  (u64 (d + t1), u64 (t1 + t2)).

Definition Initialize : list Z :=
  [0x6a09e667f3bcc908; 0xbb67ae8584caa73b; 0x3c6ef372fe94f82b; 0xa54ff53a5f1d36f1;
   0x510e527fade682d1; 0x9b05688c2b3e6c1f; 0x1f83d9abfb41bd6b; 0x5be0cd19137e2179].

(** One block of [Transform]. *)
Definition transform_block (s : list Z) (chunk : bytes) : list Z :=
  let a := s !!! 0%nat in let b := s !!! 1%nat in let c := s !!! 2%nat in let d := s !!! 3%nat in
  let e := s !!! 4%nat in let f := s !!! 5%nat in let g := s !!! 6%nat in let h := s !!! 7%nat in

  var w0 := ReadBE64 (drop 0 chunk) ;; let '(d, h) := Round a b c d e f g h 0x428a2f98d728ae22 w0 in
  var w1 := ReadBE64 (drop 8 chunk) ;; let '(c, g) := Round h a b c d e f g 0x7137449123ef65cd w1 in
  var w2 := ReadBE64 (drop 16 chunk) ;; let '(b, f) := Round g h a b c d e f 0xb5c0fbcfec4d3b2f w2 in
  var w3 := ReadBE64 (drop 24 chunk) ;; let '(a, e) := Round f g h a b c d e 0xe9b5dba58189dbbc w3 in
  var w4 := ReadBE64 (drop 32 chunk) ;; let '(h, d) := Round e f g h a b c d 0x3956c25bf348b538 w4 in
  var w5 := ReadBE64 (drop 40 chunk) ;; let '(g, c) := Round d e f g h a b c 0x59f111f1b605d019 w5 in
  var w6 := ReadBE64 (drop 48 chunk) ;; let '(f, b) := Round c d e f g h a b 0x923f82a4af194f9b w6 in
  var w7 := ReadBE64 (drop 56 chunk) ;; let '(e, a) := Round b c d e f g h a 0xab1c5ed5da6d8118 w7 in
  var w8 := ReadBE64 (drop 64 chunk) ;; let '(d, h) := Round a b c d e f g h 0xd807aa98a3030242 w8 in
  var w9 := ReadBE64 (drop 72 chunk) ;; let '(c, g) := Round h a b c d e f g 0x12835b0145706fbe w9 in
  var w10 := ReadBE64 (drop 80 chunk) ;; let '(b, f) := Round g h a b c d e f 0x243185be4ee4b28c w10 in
  var w11 := ReadBE64 (drop 88 chunk) ;; let '(a, e) := Round f g h a b c d e 0x550c7dc3d5ffb4e2 w11 in
  var w12 := ReadBE64 (drop 96 chunk) ;; let '(h, d) := Round e f g h a b c d 0x72be5d74f27b896f w12 in
  var w13 := ReadBE64 (drop 104 chunk) ;; let '(g, c) := Round d e f g h a b c 0x80deb1fe3b1696b1 w13 in
  var w14 := ReadBE64 (drop 112 chunk) ;; let '(f, b) := Round c d e f g h a b 0x9bdc06a725c71235 w14 in
  var w15 := ReadBE64 (drop 120 chunk) ;; let '(e, a) := Round b c d e f g h a 0xc19bf174cf692694 w15 in

  var w0 := u64 (w0 + u64 (u64 (sigma1 w14 + w9) + sigma0 w1)) ;; let '(d, h) := Round a b c d e f g h 0xe49b69c19ef14ad2 w0 in
  var w1 := u64 (w1 + u64 (u64 (sigma1 w15 + w10) + sigma0 w2)) ;; let '(c, g) := Round h a b c d e f g 0xefbe4786384f25e3 w1 in
  var w2 := u64 (w2 + u64 (u64 (sigma1 w0 + w11) + sigma0 w3)) ;; let '(b, f) := Round g h a b c d e f 0x0fc19dc68b8cd5b5 w2 in
  var w3 := u64 (w3 + u64 (u64 (sigma1 w1 + w12) + sigma0 w4)) ;; let '(a, e) := Round f g h a b c d e 0x240ca1cc77ac9c65 w3 in
  var w4 := u64 (w4 + u64 (u64 (sigma1 w2 + w13) + sigma0 w5)) ;; let '(h, d) := Round e f g h a b c d 0x2de92c6f592b0275 w4 in
  var w5 := u64 (w5 + u64 (u64 (sigma1 w3 + w14) + sigma0 w6)) ;; let '(g, c) := Round d e f g h a b c 0x4a7484aa6ea6e483 w5 in
  var w6 := u64 (w6 + u64 (u64 (sigma1 w4 + w15) + sigma0 w7)) ;; let '(f, b) := Round c d e f g h a b 0x5cb0a9dcbd41fbd4 w6 in
  var w7 := u64 (w7 + u64 (u64 (sigma1 w5 + w0) + sigma0 w8)) ;; let '(e, a) := Round b c d e f g h a 0x76f988da831153b5 w7 in
  var w8 := u64 (w8 + u64 (u64 (sigma1 w6 + w1) + sigma0 w9)) ;; let '(d, h) := Round a b c d e f g h 0x983e5152ee66dfab w8 in
  var w9 := u64 (w9 + u64 (u64 (sigma1 w7 + w2) + sigma0 w10)) ;; let '(c, g) := Round h a b c d e f g 0xa831c66d2db43210 w9 in
  var w10 := u64 (w10 + u64 (u64 (sigma1 w8 + w3) + sigma0 w11)) ;; let '(b, f) := Round g h a b c d e f 0xb00327c898fb213f w10 in
  var w11 := u64 (w11 + u64 (u64 (sigma1 w9 + w4) + sigma0 w12)) ;; let '(a, e) := Round f g h a b c d e 0xbf597fc7beef0ee4 w11 in
  var w12 := u64 (w12 + u64 (u64 (sigma1 w10 + w5) + sigma0 w13)) ;; let '(h, d) := Round e f g h a b c d 0xc6e00bf33da88fc2 w12 in
  var w13 := u64 (w13 + u64 (u64 (sigma1 w11 + w6) + sigma0 w14)) ;; let '(g, c) := Round d e f g h a b c 0xd5a79147930aa725 w13 in
  var w14 := u64 (w14 + u64 (u64 (sigma1 w12 + w7) + sigma0 w15)) ;; let '(f, b) := Round c d e f g h a b 0x06ca6351e003826f w14 in
  var w15 := u64 (w15 + u64 (u64 (sigma1 w13 + w8) + sigma0 w0)) ;; let '(e, a) := Round b c d e f g h a 0x142929670a0e6e70 w15 in

  var w0 := u64 (w0 + u64 (u64 (sigma1 w14 + w9) + sigma0 w1)) ;; let '(d, h) := Round a b c d e f g h 0x27b70a8546d22ffc w0 in
  var w1 := u64 (w1 + u64 (u64 (sigma1 w15 + w10) + sigma0 w2)) ;; let '(c, g) := Round h a b c d e f g 0x2e1b21385c26c926 w1 in
  var w2 := u64 (w2 + u64 (u64 (sigma1 w0 + w11) + sigma0 w3)) ;; let '(b, f) := Round g h a b c d e f 0x4d2c6dfc5ac42aed w2 in
  var w3 := u64 (w3 + u64 (u64 (sigma1 w1 + w12) + sigma0 w4)) ;; let '(a, e) := Round f g h a b c d e 0x53380d139d95b3df w3 in
  var w4 := u64 (w4 + u64 (u64 (sigma1 w2 + w13) + sigma0 w5)) ;; let '(h, d) := Round e f g h a b c d 0x650a73548baf63de w4 in
  var w5 := u64 (w5 + u64 (u64 (sigma1 w3 + w14) + sigma0 w6)) ;; let '(g, c) := Round d e f g h a b c 0x766a0abb3c77b2a8 w5 in
  var w6 := u64 (w6 + u64 (u64 (sigma1 w4 + w15) + sigma0 w7)) ;; let '(f, b) := Round c d e f g h a b 0x81c2c92e47edaee6 w6 in
  var w7 := u64 (w7 + u64 (u64 (sigma1 w5 + w0) + sigma0 w8)) ;; let '(e, a) := Round b c d e f g h a 0x92722c851482353b w7 in
  var w8 := u64 (w8 + u64 (u64 (sigma1 w6 + w1) + sigma0 w9)) ;; let '(d, h) := Round a b c d e f g h 0xa2bfe8a14cf10364 w8 in
  var w9 := u64 (w9 + u64 (u64 (sigma1 w7 + w2) + sigma0 w10)) ;; let '(c, g) := Round h a b c d e f g 0xa81a664bbc423001 w9 in
  var w10 := u64 (w10 + u64 (u64 (sigma1 w8 + w3) + sigma0 w11)) ;; let '(b, f) := Round g h a b c d e f 0xc24b8b70d0f89791 w10 in
  var w11 := u64 (w11 + u64 (u64 (sigma1 w9 + w4) + sigma0 w12)) ;; let '(a, e) := Round f g h a b c d e 0xc76c51a30654be30 w11 in
  var w12 := u64 (w12 + u64 (u64 (sigma1 w10 + w5) + sigma0 w13)) ;; let '(h, d) := Round e f g h a b c d 0xd192e819d6ef5218 w12 in
  var w13 := u64 (w13 + u64 (u64 (sigma1 w11 + w6) + sigma0 w14)) ;; let '(g, c) := Round d e f g h a b c 0xd69906245565a910 w13 in
  var w14 := u64 (w14 + u64 (u64 (sigma1 w12 + w7) + sigma0 w15)) ;; let '(f, b) := Round c d e f g h a b 0xf40e35855771202a w14 in
  var w15 := u64 (w15 + u64 (u64 (sigma1 w13 + w8) + sigma0 w0)) ;; let '(e, a) := Round b c d e f g h a 0x106aa07032bbd1b8 w15 in

  var w0 := u64 (w0 + u64 (u64 (sigma1 w14 + w9) + sigma0 w1)) ;; let '(d, h) := Round a b c d e f g h 0x19a4c116b8d2d0c8 w0 in
  var w1 := u64 (w1 + u64 (u64 (sigma1 w15 + w10) + sigma0 w2)) ;; let '(c, g) := Round h a b c d e f g 0x1e376c085141ab53 w1 in
  var w2 := u64 (w2 + u64 (u64 (sigma1 w0 + w11) + sigma0 w3)) ;; let '(b, f) := Round g h a b c d e f 0x2748774cdf8eeb99 w2 in
  var w3 := u64 (w3 + u64 (u64 (sigma1 w1 + w12) + sigma0 w4)) ;; let '(a, e) := Round f g h a b c d e 0x34b0bcb5e19b48a8 w3 in
  var w4 := u64 (w4 + u64 (u64 (sigma1 w2 + w13) + sigma0 w5)) ;; let '(h, d) := Round e f g h a b c d 0x391c0cb3c5c95a63 w4 in
  var w5 := u64 (w5 + u64 (u64 (sigma1 w3 + w14) + sigma0 w6)) ;; let '(g, c) := Round d e f g h a b c 0x4ed8aa4ae3418acb w5 in
  var w6 := u64 (w6 + u64 (u64 (sigma1 w4 + w15) + sigma0 w7)) ;; let '(f, b) := Round c d e f g h a b 0x5b9cca4f7763e373 w6 in
  var w7 := u64 (w7 + u64 (u64 (sigma1 w5 + w0) + sigma0 w8)) ;; let '(e, a) := Round b c d e f g h a 0x682e6ff3d6b2b8a3 w7 in
  var w8 := u64 (w8 + u64 (u64 (sigma1 w6 + w1) + sigma0 w9)) ;; let '(d, h) := Round a b c d e f g h 0x748f82ee5defb2fc w8 in
  var w9 := u64 (w9 + u64 (u64 (sigma1 w7 + w2) + sigma0 w10)) ;; let '(c, g) := Round h a b c d e f g 0x78a5636f43172f60 w9 in
  var w10 := u64 (w10 + u64 (u64 (sigma1 w8 + w3) + sigma0 w11)) ;; let '(b, f) := Round g h a b c d e f 0x84c87814a1f0ab72 w10 in
  var w11 := u64 (w11 + u64 (u64 (sigma1 w9 + w4) + sigma0 w12)) ;; let '(a, e) := Round f g h a b c d e 0x8cc702081a6439ec w11 in
  var w12 := u64 (w12 + u64 (u64 (sigma1 w10 + w5) + sigma0 w13)) ;; let '(h, d) := Round e f g h a b c d 0x90befffa23631e28 w12 in
  var w13 := u64 (w13 + u64 (u64 (sigma1 w11 + w6) + sigma0 w14)) ;; let '(g, c) := Round d e f g h a b c 0xa4506cebde82bde9 w13 in
  var w14 := u64 (w14 + u64 (u64 (sigma1 w12 + w7) + sigma0 w15)) ;; let '(f, b) := Round c d e f g h a b 0xbef9a3f7b2c67915 w14 in
  var w15 := u64 (w15 + u64 (u64 (sigma1 w13 + w8) + sigma0 w0)) ;; let '(e, a) := Round b c d e f g h a 0xc67178f2e372532b w15 in

  var w0 := u64 (w0 + u64 (u64 (sigma1 w14 + w9) + sigma0 w1)) ;; let '(d, h) := Round a b c d e f g h 0xca273eceea26619c w0 in
  var w1 := u64 (w1 + u64 (u64 (sigma1 w15 + w10) + sigma0 w2)) ;; let '(c, g) := Round h a b c d e f g 0xd186b8c721c0c207 w1 in
  var w2 := u64 (w2 + u64 (u64 (sigma1 w0 + w11) + sigma0 w3)) ;; let '(b, f) := Round g h a b c d e f 0xeada7dd6cde0eb1e w2 in
  var w3 := u64 (w3 + u64 (u64 (sigma1 w1 + w12) + sigma0 w4)) ;; let '(a, e) := Round f g h a b c d e 0xf57d4f7fee6ed178 w3 in
  var w4 := u64 (w4 + u64 (u64 (sigma1 w2 + w13) + sigma0 w5)) ;; let '(h, d) := Round e f g h a b c d 0x06f067aa72176fba w4 in
  var w5 := u64 (w5 + u64 (u64 (sigma1 w3 + w14) + sigma0 w6)) ;; let '(g, c) := Round d e f g h a b c 0x0a637dc5a2c898a6 w5 in
  var w6 := u64 (w6 + u64 (u64 (sigma1 w4 + w15) + sigma0 w7)) ;; let '(f, b) := Round c d e f g h a b 0x113f9804bef90dae w6 in
  var w7 := u64 (w7 + u64 (u64 (sigma1 w5 + w0) + sigma0 w8)) ;; let '(e, a) := Round b c d e f g h a 0x1b710b35131c471b w7 in
  var w8 := u64 (w8 + u64 (u64 (sigma1 w6 + w1) + sigma0 w9)) ;; let '(d, h) := Round a b c d e f g h 0x28db77f523047d84 w8 in
  var w9 := u64 (w9 + u64 (u64 (sigma1 w7 + w2) + sigma0 w10)) ;; let '(c, g) := Round h a b c d e f g 0x32caab7b40c72493 w9 in
  var w10 := u64 (w10 + u64 (u64 (sigma1 w8 + w3) + sigma0 w11)) ;; let '(b, f) := Round g h a b c d e f 0x3c9ebe0a15c9bebc w10 in
  var w11 := u64 (w11 + u64 (u64 (sigma1 w9 + w4) + sigma0 w12)) ;; let '(a, e) := Round f g h a b c d e 0x431d67c49c100d4c w11 in
  var w12 := u64 (w12 + u64 (u64 (sigma1 w10 + w5) + sigma0 w13)) ;; let '(h, d) := Round e f g h a b c d 0x4cc5d4becb3e42b6 w12 in
  var w13 := u64 (w13 + u64 (u64 (sigma1 w11 + w6) + sigma0 w14)) ;; let '(g, c) := Round d e f g h a b c 0x597f299cfc657e2a w13 in
  let '(f, b) := Round c d e f g h a b 0x5fcb6fab3ad6faec (u64 (u64 (u64 (w14 + sigma1 w12) + w7) + sigma0 w15)) in
  let '(e, a) := Round b c d e f g h a 0x6c44198c4a475817 (u64 (u64 (u64 (w15 + sigma1 w13) + w8) + sigma0 w0)) in

  [u64 (s !!! 0%nat + a); u64 (s !!! 1%nat + b); u64 (s !!! 2%nat + c); u64 (s !!! 3%nat + d);
   u64 (s !!! 4%nat + e); u64 (s !!! 5%nat + f); u64 (s !!! 6%nat + g); u64 (s !!! 7%nat + h)].

(** ** The hasher class *)

Definition hasher := MerkleDamgard.hasher (list Z).
#[global] Typeclasses Opaque hasher.

Definition CSHA512 : hasher := Hasher Initialize (replicate 128 0) 0.
Definition Reset (h : hasher) : hasher := Hasher Initialize (buf h) 0.

Definition Write : hasher → bytes → hasher := md_write 128 transform_block.

Definition sizedesc (nbits : Z) : bytes := replicate 8 0 ++ WriteBE64 nbits.

Definition Finalize (h : hasher) : bytes :=
  let pad := 0x80 :: replicate 127 0 in
  let sizedesc := sizedesc (u64 (Z.shiftl (nbytes h) 3)) in
  let h := Write h (take (Z.to_nat (1 + (239 - nbytes h mod 128) mod 128)) pad) in
  let h := Write h sizedesc in
  WriteBE64 (s h !!! 0%nat) ++ WriteBE64 (s h !!! 1%nat) ++ WriteBE64 (s h !!! 2%nat) ++
  WriteBE64 (s h !!! 3%nat) ++ WriteBE64 (s h !!! 4%nat) ++ WriteBE64 (s h !!! 5%nat) ++
  WriteBE64 (s h !!! 6%nat) ++ WriteBE64 (s h !!! 7%nat).

(** ** The standard's function for this word size *)

(** Four constants per line. *)
Definition K : list Z :=
  [0x428a2f98d728ae227137449123ef65cdb5c0fbcfec4d3b2fe9b5dba58189dbbc;
   0x3956c25bf348b53859f111f1b605d019923f82a4af194f9bab1c5ed5da6d8118;
   0xd807aa98a303024212835b0145706fbe243185be4ee4b28c550c7dc3d5ffb4e2;
   0x72be5d74f27b896f80deb1fe3b1696b19bdc06a725c71235c19bf174cf692694;
   0xe49b69c19ef14ad2efbe4786384f25e30fc19dc68b8cd5b5240ca1cc77ac9c65;
   0x2de92c6f592b02754a7484aa6ea6e4835cb0a9dcbd41fbd476f988da831153b5;
   0x983e5152ee66dfaba831c66d2db43210b00327c898fb213fbf597fc7beef0ee4;
   0xc6e00bf33da88fc2d5a79147930aa72506ca6351e003826f142929670a0e6e70;
   0x27b70a8546d22ffc2e1b21385c26c9264d2c6dfc5ac42aed53380d139d95b3df;
   0x650a73548baf63de766a0abb3c77b2a881c2c92e47edaee692722c851482353b;
   0xa2bfe8a14cf10364a81a664bbc423001c24b8b70d0f89791c76c51a30654be30;
   0xd192e819d6ef5218d69906245565a910f40e35855771202a106aa07032bbd1b8;
   0x19a4c116b8d2d0c81e376c085141ab532748774cdf8eeb9934b0bcb5e19b48a8;
   0x391c0cb3c5c95a634ed8aa4ae3418acb5b9cca4f7763e373682e6ff3d6b2b8a3;
   0x748f82ee5defb2fc78a5636f43172f6084c87814a1f0ab728cc702081a6439ec;
   0x90befffa23631e28a4506cebde82bde9bef9a3f7b2c67915c67178f2e372532b;
   0xca273eceea26619cd186b8c721c0c207eada7dd6cde0eb1ef57d4f7fee6ed178;
   0x06f067aa72176fba0a637dc5a2c898a6113f9804bef90dae1b710b35131c471b;
   0x28db77f523047d8432caab7b40c724933c9ebe0a15c9bebc431d67c49c100d4c;
   0x4cc5d4becb3e42b6597f299cfc657e2a5fcb6fab3ad6faec6c44198c4a475817]
  ≫= Fips180.unpack 64 4.

Definition ref_compress (H : list Z) (chunk : bytes) : list Z :=
  Fips180.compress 64
    (λ x, Z.lxor (Z.lxor (Fips180.ROTR 64 28 x) (Fips180.ROTR 64 34 x)) (Fips180.ROTR 64 39 x))
    (λ x, Z.lxor (Z.lxor (Fips180.ROTR 64 14 x) (Fips180.ROTR 64 18 x)) (Fips180.ROTR 64 41 x))
    (λ x, Z.lxor (Z.lxor (Fips180.ROTR 64 1 x) (Fips180.ROTR 64 8 x)) (Fips180.SHR 7 x))
    (λ x, Z.lxor (Z.lxor (Fips180.ROTR 64 19 x) (Fips180.ROTR 64 61 x)) (Fips180.SHR 6 x))
    K H (map (λ i, ReadBE64 (drop (8 * i) chunk)) (seq 0 16)).

(** The constants are the fractional parts of the cube and square roots of the
    first primes. *)
Lemma sha512_K_constants : forallb (λ pk, Fips180.is_frac_root 3 64 (fst pk) (snd pk)) (zip Fips180.primes80 K) = true.
Proof. vm_compute. reflexivity. Qed.
Lemma sha512_K_length : length K = 80%nat.
Proof. reflexivity. Qed.
Lemma sha512_Initialize_constants :
  forallb (λ pk, Fips180.is_frac_root 2 64 (fst pk) (snd pk)) (zip Fips180.primes80 Initialize) = true.
Proof. vm_compute. reflexivity. Qed.

(** ** The unrolled rounds compute the standard's loop *)

Lemma sha512_Ch_ref x y z : Ch x y z = Fips180.Ch x y z.
Proof. apply Fips180.Ch_alt. Qed.
Lemma sha512_Maj_ref x y z : Maj x y z = Fips180.Maj x y z.
Proof. apply Fips180.Maj_alt. Qed.

Lemma sha512_wrap_sum a b c d e : u64 (u64 (u64 (u64 (a + b) + c) + d) + e) = u64 (a + b + c + d + e).
Proof. by rewrite (u64_add_l (a + b)), (u64_add_l (a + b + c)), u64_add_l. Qed.

(** A round permutes the roles of the working variables. *)
Lemma sha512_step_Round a b c d e f g h k w :
  Fips180.step 64 Sigma0 Sigma1 (a, b, c, d, e, f, g, h) (k, w)
  = let '(d', h') := Round a b c d e f g h k w in (h', a, b, c, d', e, f, g).
Proof.
  unfold Fips180.step, Round. cbn [fst snd]. cbv zeta. change (Fips180.wrap 64) with u64.
  rewrite <- sha512_Ch_ref, <- sha512_Maj_ref.
  by rewrite (sha512_wrap_sum h), !u64_add_l.
Qed.

(** [w0 += sigma1(w14) + w9 + sigma0(w1)] is one step of the schedule. *)
Lemma sha512_schedule_word w0 x y z : u64 (w0 + u64 (u64 (x + y) + z)) = Fips180.wrap 64 (x + y + z + w0).
Proof.
  change (Fips180.wrap 64) with u64. rewrite u64_add_r. replace (w0 + (u64 (x + y) + z)) with (u64 (x + y) + (z + w0)) by lia.
  rewrite u64_add_l. f_equal. lia.
Qed.
Lemma sha512_schedule_word' w0 x y z : u64 (u64 (u64 (w0 + x) + y) + z) = Fips180.wrap 64 (x + y + z + w0).
Proof. change (Fips180.wrap 64) with u64. rewrite (u64_add_l (w0 + x)), u64_add_l. f_equal. lia. Qed.

Lemma sha512_ref_compress_eq H chunk :
  ref_compress H chunk
  = Fips180.compress 64 Sigma0 Sigma1 sigma0 sigma1 K H
      [ReadBE64 (drop 0 chunk); ReadBE64 (drop 8 chunk); ReadBE64 (drop 16 chunk); ReadBE64 (drop 24 chunk); ReadBE64 (drop 32 chunk); ReadBE64 (drop 40 chunk); ReadBE64 (drop 48 chunk); ReadBE64 (drop 56 chunk); ReadBE64 (drop 64 chunk); ReadBE64 (drop 72 chunk); ReadBE64 (drop 80 chunk); ReadBE64 (drop 88 chunk); ReadBE64 (drop 96 chunk); ReadBE64 (drop 104 chunk); ReadBE64 (drop 112 chunk); ReadBE64 (drop 120 chunk)].
Proof. reflexivity. Qed.

Lemma sha512_schedule_S n W :
  Fips180.schedule 64 sigma0 sigma1 (S n) W
  = Fips180.schedule 64 sigma0 sigma1 n
      (W ++ [Fips180.wrap 64 (sigma1 (W !!! (length W - 2)%nat) + W !!! (length W - 7)%nat
               + sigma0 (W !!! (length W - 15)%nat) + W !!! (length W - 16)%nat)]).
Proof. reflexivity. Qed.

Ltac schedule_step :=
  rewrite sha512_schedule_S; cbn [app length Nat.sub lookup_total list_lookup_total];
  match goal with |- context [Fips180.wrap 64 ?e] => remember (Fips180.wrap 64 e) end.

Ltac round_step :=
  lazymatch goal with
  | |- assign ?e _ = _ =>
      first [is_var e | rewrite sha512_schedule_word];
      try match goal with H : _ = ?x |- assign ?x _ = _ => rewrite <- H end;
      match goal with |- assign ?v ?k = ?r => change (k v = r); cbv beta end
  | |- _ = Fips180.add_vars _ _ (foldl _ _ ((?k, ?w) :: _)) =>
      rewrite foldl_step, sha512_step_Round;
      try (rewrite sha512_schedule_word';
           match goal with H : _ = ?x |- context [Round _ _ _ _ _ _ _ _ k ?x] => rewrite <- H end);
      destruct (Round _ _ _ _ _ _ _ _ k w)
  end.

Lemma sha512_transform_block_ref s chunk : length s = 8%nat → transform_block s chunk = ref_compress s chunk.
Proof.
  intros Hs. rewrite sha512_ref_compress_eq. unfold Fips180.compress. change (length K - 16)%nat with 64%nat.
  unfold transform_block.
  generalize (ReadBE64 (drop 0 chunk)) (ReadBE64 (drop 8 chunk)) (ReadBE64 (drop 16 chunk)) (ReadBE64 (drop 24 chunk)) (ReadBE64 (drop 32 chunk)) (ReadBE64 (drop 40 chunk)) (ReadBE64 (drop 48 chunk)) (ReadBE64 (drop 56 chunk)) (ReadBE64 (drop 64 chunk)) (ReadBE64 (drop 72 chunk)) (ReadBE64 (drop 80 chunk)) (ReadBE64 (drop 88 chunk)) (ReadBE64 (drop 96 chunk)) (ReadBE64 (drop 104 chunk)) (ReadBE64 (drop 112 chunk)) (ReadBE64 (drop 120 chunk)).
  intros.
  destruct s as [|? [|? [|? [|? [|? [|? [|? [|? [|? ?]]]]]]]]]; try discriminate Hs.
  cbn [lookup_total list_lookup_total]. unfold Fips180.init_vars.
  cbn [lookup_total list_lookup_total].
  do 64 schedule_step. cbn [Fips180.schedule]. let k := eval vm_compute in K in change K with k. cbn [zip zip_with].
  repeat round_step.
  reflexivity.
Qed.

(** ** The hasher class *)

#[local] Opaque transform_block.

(** The digest of the standard. *)
Definition sha512 (m : bytes) : bytes := md_ref 128 ref_compress Initialize 16 sizedesc m ≫= WriteBE64.

Lemma sha512_ref_compress_length H chunk : length H = 8%nat → length (ref_compress H chunk) = 8%nat.
Proof.
  intros Hl. unfold ref_compress, Fips180.compress, Fips180.add_vars.
  destruct (foldl _ _ _) as [[[[[[[a b] c] d] e] f] g] h]. rewrite length_zip_with, Hl. done.
Qed.

Lemma sha512_md_ref_transform m :
  md_ref 128 transform_block Initialize 16 sizedesc m = md_ref 128 ref_compress Initialize 16 sizedesc m ∧
  length (md_ref 128 ref_compress Initialize 16 sizedesc m) = 8%nat.
Proof.
  apply (md_ref_ext 128 _ _ (λ st, length st = 8%nat)); [lia|done|]. intros st blk Hst.
  split; [by apply sha512_transform_block_ref|by apply sha512_ref_compress_length].
Qed.

Abbreviation fed := (md_fed 128 transform_block Initialize).

Lemma sha512_fed_write h m d : fed h m → fed (Write h d) (m ++ d).
Proof. intros Hf. by apply md_fed_write; [lia|done|]. Qed.

Lemma sha512_Finalize_spec h m : fed h m → Z.of_nat (length m) < 2 ^ 61 → Finalize h = sha512 m.
Proof.
  intros Hf Hlen. unfold Finalize, sha512.
  destruct (sha512_md_ref_transform m) as [E H8]. rewrite <- E in H8 |- *.
  pose proof (md_padding_spec 128 transform_block ltac:(lia) eq_refl Initialize 16 sizedesc ltac:(lia) h m Hf Hlen) as Hp.
  rewrite <- Hp in H8 |- *. clear E Hp.
  unfold md_padding, Write in *. change (Z.of_nat 128) with 128 in *.
  set (npad := (1 + (2 * 128 - 16 - 1 - Z.to_nat (nbytes h mod 128)) mod 128)%nat) in *.
  replace (Z.to_nat (1 + (239 - nbytes h mod 128) mod 128)) with npad by (subst npad; zlin).
  change (replicate (128 - 1) 0) with (replicate 127 0) in *.
  set (st := s (md_write 128 transform_block _ _)) in *.
  destruct st as [|? [|? [|? [|? [|? [|? [|? [|? [|? ?]]]]]]]]]; try discriminate H8. reflexivity.
Qed.

#[global] Program Instance sha512_alg : HashAlg hasher := {|
  ha_new := CSHA512; ha_write := Write; ha_finalize := Finalize;
  ha_digest := sha512; ha_outlen := 64; ha_fed h m := fed h m
|}.
Next Obligation. apply md_fed_new; [lia|done]. Qed.
Next Obligation. intros. by apply sha512_fed_write. Qed.
Next Obligation. intros. by apply sha512_Finalize_spec. Qed.
Next Obligation.
  intros m. unfold sha512. destruct (sha512_md_ref_transform m) as [_ H8].
  destruct (md_ref _ _ _ _ _ _) as [|? [|? [|? [|? [|? [|? [|? [|? [|? ?]]]]]]]]]; try discriminate H8.
  unfold mbind, list_bind. by rewrite !length_app, !length_WriteBE64.
Qed.

(** SHA-512.  Any sequence of [Write] calls on a new [CSHA512] object
    followed by [Finalize] returns the FIPS 180-4 hash of the concatenated input
    (below 2^61 bytes): the 80 unrolled rounds with the in-place schedule are
    the standard's compression function, and neither the chunking nor the
    buffer matters. *)
Theorem sha512_correct (chunks : list bytes) :
  Z.of_nat (length (concat chunks)) < 2 ^ 61 →
  Finalize (foldl Write CSHA512 chunks)
  = md_ref 128 ref_compress Initialize 16 sizedesc (concat chunks) ≫= WriteBE64.
Proof. apply (ha_writes (HashAlg0 := sha512_alg)). Qed.

Lemma sha512_correct_witness :
  Finalize (foldl Write CSHA512 [[97]; [98; 99]])
  = md_ref 128 ref_compress Initialize 16 sizedesc [97; 98; 99] ≫= WriteBE64.
Proof. apply (sha512_correct [[97]; [98; 99]]). simpl. lia. Defined.


End Sha512.
