(* ===== verification/Sha1.v ===== *)
(** * SHA-1 (src/src/crypto/sha1.cpp)

    Used by the script interpreter's OP_SHA1.  The 80 unrolled rounds, the
    hasher class, and their equality with FIPS 180-4. *)

From stdpp Require Import base numbers list.
From Stdlib Require Import ZArith Lia ZifyNat.
From S2P Require Import Prelude Endian BlockStream MerkleDamgard Fips180.

Module Sha1.

(** ** Internal functions *)

(** One round; [b] and [e] are passed by reference. *)
Definition Round (a b c d e f k w : Z) : Z * Z :=
  let e := u32 (e + u32 (u32 (u32 (Z.lor (u32 (Z.shiftl a 5)) (Z.shiftr a 27) + f) + k) + w)) in
  let b := Z.lor (u32 (Z.shiftl b 30)) (Z.shiftr b 2) in
  (b, e).

Definition f1 (b c d : Z) : Z := Z.lxor d (Z.land b (Z.lxor c d)).
Definition f2 (b c d : Z) : Z := Z.lxor (Z.lxor b c) d.
Definition f3 (b c d : Z) : Z := Z.lor (Z.land b c) (Z.land d (Z.lor b c)).

Definition left (x : Z) : Z := Z.lor (u32 (Z.shiftl x 1)) (Z.shiftr x 31).

Definition Initialize : list Z := [0x67452301; 0xEFCDAB89; 0x98BADCFE; 0x10325476; 0xC3D2E1F0].

Definition k1 : Z := 0x5A827999.
Definition k2 : Z := 0x6ED9EBA1.
Definition k3 : Z := 0x8F1BBCDC.
Definition k4 : Z := 0xCA62C1D6.

Definition Transform (s : list Z) (chunk : bytes) : list Z :=
  let a := s !!! 0%nat in let b := s !!! 1%nat in let c := s !!! 2%nat in
  let d := s !!! 3%nat in let e := s !!! 4%nat in

  var w0 := ReadBE32 (drop 0 chunk) ;; let '(b, e) := Round a b c d e (f1 b c d) k1 w0 in
  var w1 := ReadBE32 (drop 4 chunk) ;; let '(a, d) := Round e a b c d (f1 a b c) k1 w1 in
  var w2 := ReadBE32 (drop 8 chunk) ;; let '(e, c) := Round d e a b c (f1 e a b) k1 w2 in
  var w3 := ReadBE32 (drop 12 chunk) ;; let '(d, b) := Round c d e a b (f1 d e a) k1 w3 in
  var w4 := ReadBE32 (drop 16 chunk) ;; let '(c, a) := Round b c d e a (f1 c d e) k1 w4 in
  var w5 := ReadBE32 (drop 20 chunk) ;; let '(b, e) := Round a b c d e (f1 b c d) k1 w5 in
  var w6 := ReadBE32 (drop 24 chunk) ;; let '(a, d) := Round e a b c d (f1 a b c) k1 w6 in
  var w7 := ReadBE32 (drop 28 chunk) ;; let '(e, c) := Round d e a b c (f1 e a b) k1 w7 in
  var w8 := ReadBE32 (drop 32 chunk) ;; let '(d, b) := Round c d e a b (f1 d e a) k1 w8 in
  var w9 := ReadBE32 (drop 36 chunk) ;; let '(c, a) := Round b c d e a (f1 c d e) k1 w9 in
  var w10 := ReadBE32 (drop 40 chunk) ;; let '(b, e) := Round a b c d e (f1 b c d) k1 w10 in
  var w11 := ReadBE32 (drop 44 chunk) ;; let '(a, d) := Round e a b c d (f1 a b c) k1 w11 in
  var w12 := ReadBE32 (drop 48 chunk) ;; let '(e, c) := Round d e a b c (f1 e a b) k1 w12 in
  var w13 := ReadBE32 (drop 52 chunk) ;; let '(d, b) := Round c d e a b (f1 d e a) k1 w13 in
  var w14 := ReadBE32 (drop 56 chunk) ;; let '(c, a) := Round b c d e a (f1 c d e) k1 w14 in
  var w15 := ReadBE32 (drop 60 chunk) ;; let '(b, e) := Round a b c d e (f1 b c d) k1 w15 in

  var w0 := left (Z.lxor (Z.lxor (Z.lxor w0 w13) w8) w2) ;; let '(a, d) := Round e a b c d (f1 a b c) k1 w0 in
  var w1 := left (Z.lxor (Z.lxor (Z.lxor w1 w14) w9) w3) ;; let '(e, c) := Round d e a b c (f1 e a b) k1 w1 in
  var w2 := left (Z.lxor (Z.lxor (Z.lxor w2 w15) w10) w4) ;; let '(d, b) := Round c d e a b (f1 d e a) k1 w2 in
  var w3 := left (Z.lxor (Z.lxor (Z.lxor w3 w0) w11) w5) ;; let '(c, a) := Round b c d e a (f1 c d e) k1 w3 in
  var w4 := left (Z.lxor (Z.lxor (Z.lxor w4 w1) w12) w6) ;; let '(b, e) := Round a b c d e (f2 b c d) k2 w4 in
  var w5 := left (Z.lxor (Z.lxor (Z.lxor w5 w2) w13) w7) ;; let '(a, d) := Round e a b c d (f2 a b c) k2 w5 in
  var w6 := left (Z.lxor (Z.lxor (Z.lxor w6 w3) w14) w8) ;; let '(e, c) := Round d e a b c (f2 e a b) k2 w6 in
  var w7 := left (Z.lxor (Z.lxor (Z.lxor w7 w4) w15) w9) ;; let '(d, b) := Round c d e a b (f2 d e a) k2 w7 in
  var w8 := left (Z.lxor (Z.lxor (Z.lxor w8 w5) w0) w10) ;; let '(c, a) := Round b c d e a (f2 c d e) k2 w8 in
  var w9 := left (Z.lxor (Z.lxor (Z.lxor w9 w6) w1) w11) ;; let '(b, e) := Round a b c d e (f2 b c d) k2 w9 in
  var w10 := left (Z.lxor (Z.lxor (Z.lxor w10 w7) w2) w12) ;; let '(a, d) := Round e a b c d (f2 a b c) k2 w10 in
  var w11 := left (Z.lxor (Z.lxor (Z.lxor w11 w8) w3) w13) ;; let '(e, c) := Round d e a b c (f2 e a b) k2 w11 in
  var w12 := left (Z.lxor (Z.lxor (Z.lxor w12 w9) w4) w14) ;; let '(d, b) := Round c d e a b (f2 d e a) k2 w12 in
  var w13 := left (Z.lxor (Z.lxor (Z.lxor w13 w10) w5) w15) ;; let '(c, a) := Round b c d e a (f2 c d e) k2 w13 in
  var w14 := left (Z.lxor (Z.lxor (Z.lxor w14 w11) w6) w0) ;; let '(b, e) := Round a b c d e (f2 b c d) k2 w14 in
  var w15 := left (Z.lxor (Z.lxor (Z.lxor w15 w12) w7) w1) ;; let '(a, d) := Round e a b c d (f2 a b c) k2 w15 in

  var w0 := left (Z.lxor (Z.lxor (Z.lxor w0 w13) w8) w2) ;; let '(e, c) := Round d e a b c (f2 e a b) k2 w0 in
  var w1 := left (Z.lxor (Z.lxor (Z.lxor w1 w14) w9) w3) ;; let '(d, b) := Round c d e a b (f2 d e a) k2 w1 in
  var w2 := left (Z.lxor (Z.lxor (Z.lxor w2 w15) w10) w4) ;; let '(c, a) := Round b c d e a (f2 c d e) k2 w2 in
  var w3 := left (Z.lxor (Z.lxor (Z.lxor w3 w0) w11) w5) ;; let '(b, e) := Round a b c d e (f2 b c d) k2 w3 in
  var w4 := left (Z.lxor (Z.lxor (Z.lxor w4 w1) w12) w6) ;; let '(a, d) := Round e a b c d (f2 a b c) k2 w4 in
  var w5 := left (Z.lxor (Z.lxor (Z.lxor w5 w2) w13) w7) ;; let '(e, c) := Round d e a b c (f2 e a b) k2 w5 in
  var w6 := left (Z.lxor (Z.lxor (Z.lxor w6 w3) w14) w8) ;; let '(d, b) := Round c d e a b (f2 d e a) k2 w6 in
  var w7 := left (Z.lxor (Z.lxor (Z.lxor w7 w4) w15) w9) ;; let '(c, a) := Round b c d e a (f2 c d e) k2 w7 in
  var w8 := left (Z.lxor (Z.lxor (Z.lxor w8 w5) w0) w10) ;; let '(b, e) := Round a b c d e (f3 b c d) k3 w8 in
  var w9 := left (Z.lxor (Z.lxor (Z.lxor w9 w6) w1) w11) ;; let '(a, d) := Round e a b c d (f3 a b c) k3 w9 in
  var w10 := left (Z.lxor (Z.lxor (Z.lxor w10 w7) w2) w12) ;; let '(e, c) := Round d e a b c (f3 e a b) k3 w10 in
  var w11 := left (Z.lxor (Z.lxor (Z.lxor w11 w8) w3) w13) ;; let '(d, b) := Round c d e a b (f3 d e a) k3 w11 in
  var w12 := left (Z.lxor (Z.lxor (Z.lxor w12 w9) w4) w14) ;; let '(c, a) := Round b c d e a (f3 c d e) k3 w12 in
  var w13 := left (Z.lxor (Z.lxor (Z.lxor w13 w10) w5) w15) ;; let '(b, e) := Round a b c d e (f3 b c d) k3 w13 in
  var w14 := left (Z.lxor (Z.lxor (Z.lxor w14 w11) w6) w0) ;; let '(a, d) := Round e a b c d (f3 a b c) k3 w14 in
  var w15 := left (Z.lxor (Z.lxor (Z.lxor w15 w12) w7) w1) ;; let '(e, c) := Round d e a b c (f3 e a b) k3 w15 in

  var w0 := left (Z.lxor (Z.lxor (Z.lxor w0 w13) w8) w2) ;; let '(d, b) := Round c d e a b (f3 d e a) k3 w0 in
  var w1 := left (Z.lxor (Z.lxor (Z.lxor w1 w14) w9) w3) ;; let '(c, a) := Round b c d e a (f3 c d e) k3 w1 in
  var w2 := left (Z.lxor (Z.lxor (Z.lxor w2 w15) w10) w4) ;; let '(b, e) := Round a b c d e (f3 b c d) k3 w2 in
  var w3 := left (Z.lxor (Z.lxor (Z.lxor w3 w0) w11) w5) ;; let '(a, d) := Round e a b c d (f3 a b c) k3 w3 in
  var w4 := left (Z.lxor (Z.lxor (Z.lxor w4 w1) w12) w6) ;; let '(e, c) := Round d e a b c (f3 e a b) k3 w4 in
  var w5 := left (Z.lxor (Z.lxor (Z.lxor w5 w2) w13) w7) ;; let '(d, b) := Round c d e a b (f3 d e a) k3 w5 in
  var w6 := left (Z.lxor (Z.lxor (Z.lxor w6 w3) w14) w8) ;; let '(c, a) := Round b c d e a (f3 c d e) k3 w6 in
  var w7 := left (Z.lxor (Z.lxor (Z.lxor w7 w4) w15) w9) ;; let '(b, e) := Round a b c d e (f3 b c d) k3 w7 in
  var w8 := left (Z.lxor (Z.lxor (Z.lxor w8 w5) w0) w10) ;; let '(a, d) := Round e a b c d (f3 a b c) k3 w8 in
  var w9 := left (Z.lxor (Z.lxor (Z.lxor w9 w6) w1) w11) ;; let '(e, c) := Round d e a b c (f3 e a b) k3 w9 in
  var w10 := left (Z.lxor (Z.lxor (Z.lxor w10 w7) w2) w12) ;; let '(d, b) := Round c d e a b (f3 d e a) k3 w10 in
  var w11 := left (Z.lxor (Z.lxor (Z.lxor w11 w8) w3) w13) ;; let '(c, a) := Round b c d e a (f3 c d e) k3 w11 in
  var w12 := left (Z.lxor (Z.lxor (Z.lxor w12 w9) w4) w14) ;; let '(b, e) := Round a b c d e (f2 b c d) k4 w12 in
  var w13 := left (Z.lxor (Z.lxor (Z.lxor w13 w10) w5) w15) ;; let '(a, d) := Round e a b c d (f2 a b c) k4 w13 in
  var w14 := left (Z.lxor (Z.lxor (Z.lxor w14 w11) w6) w0) ;; let '(e, c) := Round d e a b c (f2 e a b) k4 w14 in
  var w15 := left (Z.lxor (Z.lxor (Z.lxor w15 w12) w7) w1) ;; let '(d, b) := Round c d e a b (f2 d e a) k4 w15 in

  var w0 := left (Z.lxor (Z.lxor (Z.lxor w0 w13) w8) w2) ;; let '(c, a) := Round b c d e a (f2 c d e) k4 w0 in
  var w1 := left (Z.lxor (Z.lxor (Z.lxor w1 w14) w9) w3) ;; let '(b, e) := Round a b c d e (f2 b c d) k4 w1 in
  var w2 := left (Z.lxor (Z.lxor (Z.lxor w2 w15) w10) w4) ;; let '(a, d) := Round e a b c d (f2 a b c) k4 w2 in
  var w3 := left (Z.lxor (Z.lxor (Z.lxor w3 w0) w11) w5) ;; let '(e, c) := Round d e a b c (f2 e a b) k4 w3 in
  var w4 := left (Z.lxor (Z.lxor (Z.lxor w4 w1) w12) w6) ;; let '(d, b) := Round c d e a b (f2 d e a) k4 w4 in
  var w5 := left (Z.lxor (Z.lxor (Z.lxor w5 w2) w13) w7) ;; let '(c, a) := Round b c d e a (f2 c d e) k4 w5 in
  var w6 := left (Z.lxor (Z.lxor (Z.lxor w6 w3) w14) w8) ;; let '(b, e) := Round a b c d e (f2 b c d) k4 w6 in
  var w7 := left (Z.lxor (Z.lxor (Z.lxor w7 w4) w15) w9) ;; let '(a, d) := Round e a b c d (f2 a b c) k4 w7 in
  var w8 := left (Z.lxor (Z.lxor (Z.lxor w8 w5) w0) w10) ;; let '(e, c) := Round d e a b c (f2 e a b) k4 w8 in
  var w9 := left (Z.lxor (Z.lxor (Z.lxor w9 w6) w1) w11) ;; let '(d, b) := Round c d e a b (f2 d e a) k4 w9 in
  var w10 := left (Z.lxor (Z.lxor (Z.lxor w10 w7) w2) w12) ;; let '(c, a) := Round b c d e a (f2 c d e) k4 w10 in
  var w11 := left (Z.lxor (Z.lxor (Z.lxor w11 w8) w3) w13) ;; let '(b, e) := Round a b c d e (f2 b c d) k4 w11 in
  var w12 := left (Z.lxor (Z.lxor (Z.lxor w12 w9) w4) w14) ;; let '(a, d) := Round e a b c d (f2 a b c) k4 w12 in
  let '(e, c) := Round d e a b c (f2 e a b) k4 (left (Z.lxor (Z.lxor (Z.lxor w13 w10) w5) w15)) in
  let '(d, b) := Round c d e a b (f2 d e a) k4 (left (Z.lxor (Z.lxor (Z.lxor w14 w11) w6) w0)) in
  let '(c, a) := Round b c d e a (f2 c d e) k4 (left (Z.lxor (Z.lxor (Z.lxor w15 w12) w7) w1)) in

  [u32 (s !!! 0%nat + a); u32 (s !!! 1%nat + b); u32 (s !!! 2%nat + c); u32 (s !!! 3%nat + d);
   u32 (s !!! 4%nat + e)].

(** ** The hasher class *)

Definition hasher := MerkleDamgard.hasher (list Z).
#[global] Typeclasses Opaque hasher.

Definition CSHA1 : hasher := Hasher Initialize (replicate 64 0) 0.
Definition Reset (h : hasher) : hasher := Hasher Initialize (buf h) 0.

Definition Write : hasher → bytes → hasher := md_write 64 Transform.

Definition Finalize (h : hasher) : bytes :=
  let pad := 0x80 :: replicate 63 0 in
  let sizedesc := WriteBE64 (u64 (Z.shiftl (nbytes h) 3)) in
  let h := Write h (take (Z.to_nat (1 + (119 - nbytes h mod 64) mod 64)) pad) in
  let h := Write h sizedesc in
  WriteBE32 (s h !!! 0%nat) ++ WriteBE32 (s h !!! 1%nat) ++ WriteBE32 (s h !!! 2%nat) ++
  WriteBE32 (s h !!! 3%nat) ++ WriteBE32 (s h !!! 4%nat).

(** ** FIPS 180-4, section 6.1 *)

Definition ROTL (n x : Z) : Z := Z.lor (u32 (Z.shiftl x n)) (Z.shiftr x (32 - n)).

Definition ref_f (t : nat) (x y z : Z) : Z :=
  if (t <? 20)%nat then Fips180.Ch x y z
  else if (t <? 40)%nat then Fips180.Parity x y z
  else if (t <? 60)%nat then Fips180.Maj x y z
  else Fips180.Parity x y z.
Definition ref_K (t : nat) : Z :=
  if (t <? 20)%nat then 0x5a827999 else if (t <? 40)%nat then 0x6ed9eba1
  else if (t <? 60)%nat then 0x8f1bbcdc else 0xca62c1d6.

Fixpoint ref_schedule (n : nat) (W : list Z) : list Z :=
  match n with
  | O => W
  | S n' =>
      let t := length W in
      ref_schedule n' (W ++ [ROTL 1 (Z.lxor (Z.lxor (Z.lxor (W !!! (t - 3)%nat) (W !!! (t - 8)%nat))
                                       (W !!! (t - 14)%nat)) (W !!! (t - 16)%nat))])
  end.

Definition ref_step (v : Z * Z * Z * Z * Z) (tw : nat * Z) : Z * Z * Z * Z * Z :=
  let '(a, b, c, d, e) := v in
  let '(t, w) := tw in
  let T := u32 (ROTL 5 a + ref_f t b c d + e + ref_K t + w) in
  (T, a, ROTL 30 b, c, d).

Definition ref_compress (H : list Z) (chunk : bytes) : list Z :=
  let M := map (λ i, ReadBE32 (drop (4 * i) chunk)) (seq 0 16) in
  let '(a, b, c, d, e) :=
    foldl ref_step (H !!! 0%nat, H !!! 1%nat, H !!! 2%nat, H !!! 3%nat, H !!! 4%nat)
      (zip (seq 0 80) (ref_schedule 64 M)) in
  zip_with (λ x y, u32 (x + y)) H [a; b; c; d; e].

(** ** The unrolled rounds compute the standard's loop *)

Lemma f1_ref x y z : f1 x y z = Fips180.Ch x y z.
Proof. apply Fips180.Ch_alt. Qed.
Lemma f3_ref x y z : f3 x y z = Fips180.Maj x y z.
Proof. apply Fips180.Maj_alt. Qed.

Definition code_f (t : nat) (x y z : Z) : Z :=
  if (t <? 20)%nat then f1 x y z else if (t <? 40)%nat then f2 x y z
  else if (t <? 60)%nat then f3 x y z else f2 x y z.
Definition code_k (t : nat) : Z :=
  if (t <? 20)%nat then k1 else if (t <? 40)%nat then k2 else if (t <? 60)%nat then k3 else k4.

Lemma code_f_ref t x y z : ref_f t x y z = code_f t x y z.
Proof. unfold ref_f, code_f. rewrite f1_ref, f3_ref. reflexivity. Qed.

Lemma sha1_step_Round a b c d e t w :
  ref_step (a, b, c, d, e) (t, w)
  = let '(b', e') := Round a b c d e (code_f t b c d) (code_k t) w in (e', a, b', c, d).
Proof.
  unfold ref_step, Round. rewrite code_f_ref. change (ref_K t) with (code_k t).
  change (Z.lor (u32 (Z.shiftl a 5)) (Z.shiftr a 27)) with (ROTL 5 a).
  change (Z.lor (u32 (Z.shiftl b 30)) (Z.shiftr b 2)) with (ROTL 30 b).
  rewrite (u32_add_l (ROTL 5 a + code_f t b c d)), u32_add_l, u32_add_r. do 5 f_equal. lia.
Qed.

Lemma sha1_schedule_word w0 x y z :
  left (Z.lxor (Z.lxor (Z.lxor w0 x) y) z) = ROTL 1 (Z.lxor (Z.lxor (Z.lxor x y) z) w0).
Proof.
  change (left ?v) with (ROTL 1 v). f_equal.
  by rewrite (Z.lxor_comm _ w0), <- !Z.lxor_assoc.
Qed.

Lemma sha1_schedule_S n W :
  ref_schedule (S n) W
  = ref_schedule n (W ++ [ROTL 1 (Z.lxor (Z.lxor (Z.lxor (W !!! (length W - 3)%nat) (W !!! (length W - 8)%nat))
                       (W !!! (length W - 14)%nat)) (W !!! (length W - 16)%nat))]).
Proof. reflexivity. Qed.

Ltac schedule_step :=
  rewrite sha1_schedule_S; cbn [app length Nat.sub lookup_total list_lookup_total];
  match goal with |- context [ROTL 1 ?e] => remember (ROTL 1 e) end.

Ltac round_step :=
  lazymatch goal with
  | |- assign ?e _ = _ =>
      first [is_var e | rewrite sha1_schedule_word];
      try match goal with H : _ = ?x |- assign ?x _ = _ => rewrite <- H end;
      match goal with |- assign ?v ?k = ?r => change (k v = r); cbv beta end
  | |- _ = match foldl _ _ ((?t, ?w) :: _) with _ => _ end =>
      rewrite foldl_step, sha1_step_Round;
      let k := eval cbv [code_k Nat.ltb Nat.leb] in (code_k t) in
      change (code_k t) with k;
      match goal with
      | |- context [code_f t ?x ?y ?z] =>
          let f := eval cbv [code_f Nat.ltb Nat.leb] in (code_f t x y z) in
          change (code_f t x y z) with f
      end;
      try (rewrite sha1_schedule_word;
           match goal with H : _ = ?x |- context [Round _ _ _ _ _ _ _ ?x] => rewrite <- H end);
      destruct (Round _ _ _ _ _ _ _ w)
  end.

Lemma sha1_Transform_ref s chunk : length s = 5%nat → Transform s chunk = ref_compress s chunk.
Proof.
  intros Hs. unfold ref_compress.
  change (map (λ i, ReadBE32 (drop (4 * i) chunk)) (seq 0 16))
    with [ReadBE32 (drop 0 chunk); ReadBE32 (drop 4 chunk); ReadBE32 (drop 8 chunk); ReadBE32 (drop 12 chunk); ReadBE32 (drop 16 chunk); ReadBE32 (drop 20 chunk); ReadBE32 (drop 24 chunk); ReadBE32 (drop 28 chunk); ReadBE32 (drop 32 chunk); ReadBE32 (drop 36 chunk); ReadBE32 (drop 40 chunk); ReadBE32 (drop 44 chunk); ReadBE32 (drop 48 chunk); ReadBE32 (drop 52 chunk); ReadBE32 (drop 56 chunk); ReadBE32 (drop 60 chunk)].
  cbv zeta. unfold Transform.
  generalize (ReadBE32 (drop 0 chunk)) (ReadBE32 (drop 4 chunk)) (ReadBE32 (drop 8 chunk)) (ReadBE32 (drop 12 chunk)) (ReadBE32 (drop 16 chunk)) (ReadBE32 (drop 20 chunk)) (ReadBE32 (drop 24 chunk)) (ReadBE32 (drop 28 chunk)) (ReadBE32 (drop 32 chunk)) (ReadBE32 (drop 36 chunk)) (ReadBE32 (drop 40 chunk)) (ReadBE32 (drop 44 chunk)) (ReadBE32 (drop 48 chunk)) (ReadBE32 (drop 52 chunk)) (ReadBE32 (drop 56 chunk)) (ReadBE32 (drop 60 chunk)).
  intros. destruct s as [|? [|? [|? [|? [|? [|? ?]]]]]]; try discriminate Hs.
  cbn [lookup_total list_lookup_total].
  do 64 schedule_step. cbn [ref_schedule seq zip zip_with].
  repeat round_step. reflexivity.
Qed.

#[local] Opaque Transform.

Definition sha1 (m : bytes) : bytes := md_ref 64 ref_compress Initialize 8 WriteBE64 m ≫= WriteBE32.

Lemma sha1_ref_compress_length H chunk : length H = 5%nat → length (ref_compress H chunk) = 5%nat.
Proof.
  intros Hl. unfold ref_compress. destruct (foldl _ _ _) as [[[[a b] c] d] e].
  rewrite length_zip_with, Hl. done.
Qed.

Lemma sha1_md_ref_transform m :
  md_ref 64 Transform Initialize 8 WriteBE64 m = md_ref 64 ref_compress Initialize 8 WriteBE64 m ∧
  length (md_ref 64 ref_compress Initialize 8 WriteBE64 m) = 5%nat.
Proof.
  apply (md_ref_ext 64 _ _ (λ st, length st = 5%nat)); [lia|done|]. intros st blk Hst.
  split; [by apply sha1_Transform_ref|by apply sha1_ref_compress_length].
Qed.

Abbreviation fed := (md_fed 64 Transform Initialize).

Lemma sha1_Finalize_spec h m : fed h m → Z.of_nat (length m) < 2 ^ 61 → Finalize h = sha1 m.
Proof.
  intros Hf Hlen. unfold Finalize, sha1.
  destruct (sha1_md_ref_transform m) as [E H8]. rewrite <- E in H8 |- *.
  pose proof (md_padding_spec 64 Transform ltac:(lia) eq_refl Initialize 8 WriteBE64 ltac:(lia) h m Hf Hlen) as Hp.
  rewrite <- Hp in H8 |- *. clear E Hp.
  unfold md_padding, Write in *. change (Z.of_nat 64) with 64 in *.
  set (npad := (1 + (2 * 64 - 8 - 1 - Z.to_nat (nbytes h mod 64)) mod 64)%nat) in *.
  replace (Z.to_nat (1 + (119 - nbytes h mod 64) mod 64)) with npad by (subst npad; zlin).
  change (replicate (64 - 1) 0) with (replicate 63 0) in *.
  set (st := s (md_write 64 Transform _ _)) in *.
  destruct st as [|? [|? [|? [|? [|? [|? ?]]]]]]; try discriminate H8. reflexivity.
Qed.

#[global] Program Instance sha1_alg : HashAlg hasher := {|
  ha_new := CSHA1; ha_write := Write; ha_finalize := Finalize;
  ha_digest := sha1; ha_outlen := 20; ha_fed h m := fed h m
|}.
Next Obligation. apply md_fed_new; [lia|done]. Qed.
Next Obligation. intros. by apply md_fed_write; [lia|done|]. Qed.
Next Obligation. intros. by apply sha1_Finalize_spec. Qed.
Next Obligation.
  intros m. unfold sha1. destruct (sha1_md_ref_transform m) as [_ H8].
  destruct (md_ref _ _ _ _ _ _) as [|? [|? [|? [|? [|? [|? ?]]]]]]; try discriminate H8.
  unfold mbind, list_bind. by rewrite !length_app, !length_WriteBE32.
Qed.

(** SHA-1.  Writing any chunks to a new [CSHA1] object and finalizing it
    returns the FIPS 180-4 hash of their concatenation. *)
Theorem sha1_correct (chunks : list bytes) :
  Z.of_nat (length (concat chunks)) < 2 ^ 61 →
  Finalize (foldl Write CSHA1 chunks)
  = md_ref 64 ref_compress Initialize 8 WriteBE64 (concat chunks) ≫= WriteBE32.
Proof. apply (ha_writes (HashAlg0 := sha1_alg)). Qed.

Lemma sha1_correct_witness :
  Finalize (foldl Write CSHA1 [[97]; [98; 99]])
  = md_ref 64 ref_compress Initialize 8 WriteBE64 [97; 98; 99] ≫= WriteBE32.
Proof. apply (sha1_correct [[97]; [98; 99]]). simpl. lia. Defined.

End Sha1.
