(* ===== verification/Ripemd160.v ===== *)
(** * RIPEMD-160 (src/src/crypto/ripemd160.cpp)

    The two interleaved lines of 80 rounds, the hasher class, and their
    equality with the published pseudo-code of RIPEMD-160. *)

From stdpp Require Import base numbers list.
From Stdlib Require Import ZArith Lia ZifyNat.
From S2P Require Import Prelude Endian BlockStream MerkleDamgard.

Module Ripemd160.

(** ** Internal functions *)

Definition not32 (x : Z) : Z := u32 (Z.lnot x).
Definition f1 (x y z : Z) : Z := Z.lxor (Z.lxor x y) z.
Definition f2 (x y z : Z) : Z := Z.lor (Z.land x y) (Z.land (not32 x) z).
Definition f3 (x y z : Z) : Z := Z.lxor (Z.lor x (not32 y)) z.
Definition f4 (x y z : Z) : Z := Z.lor (Z.land x z) (Z.land y (not32 z)).
Definition f5 (x y z : Z) : Z := Z.lxor x (Z.lor y (not32 z)).

Definition Initialize : list Z := [0x67452301; 0xEFCDAB89; 0x98BADCFE; 0x10325476; 0xC3D2E1F0].

Definition rol (x i : Z) : Z := Z.lor (u32 (Z.shiftl x i)) (Z.shiftr x (32 - i)).

(** [a] and [c] are passed by reference. *)
Definition Round (a b c d e f x k r : Z) : Z * Z :=
  let a := u32 (rol (u32 (u32 (u32 (a + f) + x) + k)) r + e) in
  let c := rol c 10 in
  (a, c).

Definition R11 (a b c d e x r : Z) : Z * Z := Round a b c d e (f1 b c d) x 0 r.
Definition R21 (a b c d e x r : Z) : Z * Z := Round a b c d e (f2 b c d) x 0x5A827999 r.
Definition R31 (a b c d e x r : Z) : Z * Z := Round a b c d e (f3 b c d) x 0x6ED9EBA1 r.
Definition R41 (a b c d e x r : Z) : Z * Z := Round a b c d e (f4 b c d) x 0x8F1BBCDC r.
Definition R51 (a b c d e x r : Z) : Z * Z := Round a b c d e (f5 b c d) x 0xA953FD4E r.
Definition R12 (a b c d e x r : Z) : Z * Z := Round a b c d e (f5 b c d) x 0x50A28BE6 r.
Definition R22 (a b c d e x r : Z) : Z * Z := Round a b c d e (f4 b c d) x 0x5C4DD124 r.
Definition R32 (a b c d e x r : Z) : Z * Z := Round a b c d e (f3 b c d) x 0x6D703EF3 r.
Definition R42 (a b c d e x r : Z) : Z * Z := Round a b c d e (f2 b c d) x 0x7A6D76E9 r.
Definition R52 (a b c d e x r : Z) : Z * Z := Round a b c d e (f1 b c d) x 0 r.

Definition Transform (s : list Z) (chunk : bytes) : list Z :=
  let a1 := s !!! 0%nat in let b1 := s !!! 1%nat in let c1 := s !!! 2%nat in
  let d1 := s !!! 3%nat in let e1 := s !!! 4%nat in
  let a2 := a1 in let b2 := b1 in let c2 := c1 in let d2 := d1 in let e2 := e1 in
  var w0 := ReadLE32 (drop 0 chunk) ;;
  var w1 := ReadLE32 (drop 4 chunk) ;;
  var w2 := ReadLE32 (drop 8 chunk) ;;
  var w3 := ReadLE32 (drop 12 chunk) ;;
  var w4 := ReadLE32 (drop 16 chunk) ;;
  var w5 := ReadLE32 (drop 20 chunk) ;;
  var w6 := ReadLE32 (drop 24 chunk) ;;
  var w7 := ReadLE32 (drop 28 chunk) ;;
  var w8 := ReadLE32 (drop 32 chunk) ;;
  var w9 := ReadLE32 (drop 36 chunk) ;;
  var w10 := ReadLE32 (drop 40 chunk) ;;
  var w11 := ReadLE32 (drop 44 chunk) ;;
  var w12 := ReadLE32 (drop 48 chunk) ;;
  var w13 := ReadLE32 (drop 52 chunk) ;;
  var w14 := ReadLE32 (drop 56 chunk) ;;
  var w15 := ReadLE32 (drop 60 chunk) ;;

  let '(a1, c1) := R11 a1 b1 c1 d1 e1 w0 11 in
  let '(a2, c2) := R12 a2 b2 c2 d2 e2 w5 8 in
  let '(e1, b1) := R11 e1 a1 b1 c1 d1 w1 14 in
  let '(e2, b2) := R12 e2 a2 b2 c2 d2 w14 9 in
  let '(d1, a1) := R11 d1 e1 a1 b1 c1 w2 15 in
  let '(d2, a2) := R12 d2 e2 a2 b2 c2 w7 9 in
  let '(c1, e1) := R11 c1 d1 e1 a1 b1 w3 12 in
  let '(c2, e2) := R12 c2 d2 e2 a2 b2 w0 11 in
  let '(b1, d1) := R11 b1 c1 d1 e1 a1 w4 5 in
  let '(b2, d2) := R12 b2 c2 d2 e2 a2 w9 13 in
  let '(a1, c1) := R11 a1 b1 c1 d1 e1 w5 8 in
  let '(a2, c2) := R12 a2 b2 c2 d2 e2 w2 15 in
  let '(e1, b1) := R11 e1 a1 b1 c1 d1 w6 7 in
  let '(e2, b2) := R12 e2 a2 b2 c2 d2 w11 15 in
  let '(d1, a1) := R11 d1 e1 a1 b1 c1 w7 9 in
  let '(d2, a2) := R12 d2 e2 a2 b2 c2 w4 5 in
  let '(c1, e1) := R11 c1 d1 e1 a1 b1 w8 11 in
  let '(c2, e2) := R12 c2 d2 e2 a2 b2 w13 7 in
  let '(b1, d1) := R11 b1 c1 d1 e1 a1 w9 13 in
  let '(b2, d2) := R12 b2 c2 d2 e2 a2 w6 7 in
  let '(a1, c1) := R11 a1 b1 c1 d1 e1 w10 14 in
  let '(a2, c2) := R12 a2 b2 c2 d2 e2 w15 8 in
  let '(e1, b1) := R11 e1 a1 b1 c1 d1 w11 15 in
  let '(e2, b2) := R12 e2 a2 b2 c2 d2 w8 11 in
  let '(d1, a1) := R11 d1 e1 a1 b1 c1 w12 6 in
  let '(d2, a2) := R12 d2 e2 a2 b2 c2 w1 14 in
  let '(c1, e1) := R11 c1 d1 e1 a1 b1 w13 7 in
  let '(c2, e2) := R12 c2 d2 e2 a2 b2 w10 14 in
  let '(b1, d1) := R11 b1 c1 d1 e1 a1 w14 9 in
  let '(b2, d2) := R12 b2 c2 d2 e2 a2 w3 12 in
  let '(a1, c1) := R11 a1 b1 c1 d1 e1 w15 8 in
  let '(a2, c2) := R12 a2 b2 c2 d2 e2 w12 6 in

  let '(e1, b1) := R21 e1 a1 b1 c1 d1 w7 7 in
  let '(e2, b2) := R22 e2 a2 b2 c2 d2 w6 9 in
  let '(d1, a1) := R21 d1 e1 a1 b1 c1 w4 6 in
  let '(d2, a2) := R22 d2 e2 a2 b2 c2 w11 13 in
  let '(c1, e1) := R21 c1 d1 e1 a1 b1 w13 8 in
  let '(c2, e2) := R22 c2 d2 e2 a2 b2 w3 15 in
  let '(b1, d1) := R21 b1 c1 d1 e1 a1 w1 13 in
  let '(b2, d2) := R22 b2 c2 d2 e2 a2 w7 7 in
  let '(a1, c1) := R21 a1 b1 c1 d1 e1 w10 11 in
  let '(a2, c2) := R22 a2 b2 c2 d2 e2 w0 12 in
  let '(e1, b1) := R21 e1 a1 b1 c1 d1 w6 9 in
  let '(e2, b2) := R22 e2 a2 b2 c2 d2 w13 8 in
  let '(d1, a1) := R21 d1 e1 a1 b1 c1 w15 7 in
  let '(d2, a2) := R22 d2 e2 a2 b2 c2 w5 9 in
  let '(c1, e1) := R21 c1 d1 e1 a1 b1 w3 15 in
  let '(c2, e2) := R22 c2 d2 e2 a2 b2 w10 11 in
  let '(b1, d1) := R21 b1 c1 d1 e1 a1 w12 7 in
  let '(b2, d2) := R22 b2 c2 d2 e2 a2 w14 7 in
  let '(a1, c1) := R21 a1 b1 c1 d1 e1 w0 12 in
  let '(a2, c2) := R22 a2 b2 c2 d2 e2 w15 7 in
  let '(e1, b1) := R21 e1 a1 b1 c1 d1 w9 15 in
  let '(e2, b2) := R22 e2 a2 b2 c2 d2 w8 12 in
  let '(d1, a1) := R21 d1 e1 a1 b1 c1 w5 9 in
  let '(d2, a2) := R22 d2 e2 a2 b2 c2 w12 7 in
  let '(c1, e1) := R21 c1 d1 e1 a1 b1 w2 11 in
  let '(c2, e2) := R22 c2 d2 e2 a2 b2 w4 6 in
  let '(b1, d1) := R21 b1 c1 d1 e1 a1 w14 7 in
  let '(b2, d2) := R22 b2 c2 d2 e2 a2 w9 15 in
  let '(a1, c1) := R21 a1 b1 c1 d1 e1 w11 13 in
  let '(a2, c2) := R22 a2 b2 c2 d2 e2 w1 13 in
  let '(e1, b1) := R21 e1 a1 b1 c1 d1 w8 12 in
  let '(e2, b2) := R22 e2 a2 b2 c2 d2 w2 11 in

  let '(d1, a1) := R31 d1 e1 a1 b1 c1 w3 11 in
  let '(d2, a2) := R32 d2 e2 a2 b2 c2 w15 9 in
  let '(c1, e1) := R31 c1 d1 e1 a1 b1 w10 13 in
  let '(c2, e2) := R32 c2 d2 e2 a2 b2 w5 7 in
  let '(b1, d1) := R31 b1 c1 d1 e1 a1 w14 6 in
  let '(b2, d2) := R32 b2 c2 d2 e2 a2 w1 15 in
  let '(a1, c1) := R31 a1 b1 c1 d1 e1 w4 7 in
  let '(a2, c2) := R32 a2 b2 c2 d2 e2 w3 11 in
  let '(e1, b1) := R31 e1 a1 b1 c1 d1 w9 14 in
  let '(e2, b2) := R32 e2 a2 b2 c2 d2 w7 8 in
  let '(d1, a1) := R31 d1 e1 a1 b1 c1 w15 9 in
  let '(d2, a2) := R32 d2 e2 a2 b2 c2 w14 6 in
  let '(c1, e1) := R31 c1 d1 e1 a1 b1 w8 13 in
  let '(c2, e2) := R32 c2 d2 e2 a2 b2 w6 6 in
  let '(b1, d1) := R31 b1 c1 d1 e1 a1 w1 15 in
  let '(b2, d2) := R32 b2 c2 d2 e2 a2 w9 14 in
  let '(a1, c1) := R31 a1 b1 c1 d1 e1 w2 14 in
  let '(a2, c2) := R32 a2 b2 c2 d2 e2 w11 12 in
  let '(e1, b1) := R31 e1 a1 b1 c1 d1 w7 8 in
  let '(e2, b2) := R32 e2 a2 b2 c2 d2 w8 13 in
  let '(d1, a1) := R31 d1 e1 a1 b1 c1 w0 13 in
  let '(d2, a2) := R32 d2 e2 a2 b2 c2 w12 5 in
  let '(c1, e1) := R31 c1 d1 e1 a1 b1 w6 6 in
  let '(c2, e2) := R32 c2 d2 e2 a2 b2 w2 14 in
  let '(b1, d1) := R31 b1 c1 d1 e1 a1 w13 5 in
  let '(b2, d2) := R32 b2 c2 d2 e2 a2 w10 13 in
  let '(a1, c1) := R31 a1 b1 c1 d1 e1 w11 12 in
  let '(a2, c2) := R32 a2 b2 c2 d2 e2 w0 13 in
  let '(e1, b1) := R31 e1 a1 b1 c1 d1 w5 7 in
  let '(e2, b2) := R32 e2 a2 b2 c2 d2 w4 7 in
  let '(d1, a1) := R31 d1 e1 a1 b1 c1 w12 5 in
  let '(d2, a2) := R32 d2 e2 a2 b2 c2 w13 5 in

  let '(c1, e1) := R41 c1 d1 e1 a1 b1 w1 11 in
  let '(c2, e2) := R42 c2 d2 e2 a2 b2 w8 15 in
  let '(b1, d1) := R41 b1 c1 d1 e1 a1 w9 12 in
  let '(b2, d2) := R42 b2 c2 d2 e2 a2 w6 5 in
  let '(a1, c1) := R41 a1 b1 c1 d1 e1 w11 14 in
  let '(a2, c2) := R42 a2 b2 c2 d2 e2 w4 8 in
  let '(e1, b1) := R41 e1 a1 b1 c1 d1 w10 15 in
  let '(e2, b2) := R42 e2 a2 b2 c2 d2 w1 11 in
  let '(d1, a1) := R41 d1 e1 a1 b1 c1 w0 14 in
  let '(d2, a2) := R42 d2 e2 a2 b2 c2 w3 14 in
  let '(c1, e1) := R41 c1 d1 e1 a1 b1 w8 15 in
  let '(c2, e2) := R42 c2 d2 e2 a2 b2 w11 14 in
  let '(b1, d1) := R41 b1 c1 d1 e1 a1 w12 9 in
  let '(b2, d2) := R42 b2 c2 d2 e2 a2 w15 6 in
  let '(a1, c1) := R41 a1 b1 c1 d1 e1 w4 8 in
  let '(a2, c2) := R42 a2 b2 c2 d2 e2 w0 14 in
  let '(e1, b1) := R41 e1 a1 b1 c1 d1 w13 9 in
  let '(e2, b2) := R42 e2 a2 b2 c2 d2 w5 6 in
  let '(d1, a1) := R41 d1 e1 a1 b1 c1 w3 14 in
  let '(d2, a2) := R42 d2 e2 a2 b2 c2 w12 9 in
  let '(c1, e1) := R41 c1 d1 e1 a1 b1 w7 5 in
  let '(c2, e2) := R42 c2 d2 e2 a2 b2 w2 12 in
  let '(b1, d1) := R41 b1 c1 d1 e1 a1 w15 6 in
  let '(b2, d2) := R42 b2 c2 d2 e2 a2 w13 9 in
  let '(a1, c1) := R41 a1 b1 c1 d1 e1 w14 8 in
  let '(a2, c2) := R42 a2 b2 c2 d2 e2 w9 12 in
  let '(e1, b1) := R41 e1 a1 b1 c1 d1 w5 6 in
  let '(e2, b2) := R42 e2 a2 b2 c2 d2 w7 5 in
  let '(d1, a1) := R41 d1 e1 a1 b1 c1 w6 5 in
  let '(d2, a2) := R42 d2 e2 a2 b2 c2 w10 15 in
  let '(c1, e1) := R41 c1 d1 e1 a1 b1 w2 12 in
  let '(c2, e2) := R42 c2 d2 e2 a2 b2 w14 8 in

  let '(b1, d1) := R51 b1 c1 d1 e1 a1 w4 9 in
  let '(b2, d2) := R52 b2 c2 d2 e2 a2 w12 8 in
  let '(a1, c1) := R51 a1 b1 c1 d1 e1 w0 15 in
  let '(a2, c2) := R52 a2 b2 c2 d2 e2 w15 5 in
  let '(e1, b1) := R51 e1 a1 b1 c1 d1 w5 5 in
  let '(e2, b2) := R52 e2 a2 b2 c2 d2 w10 12 in
  let '(d1, a1) := R51 d1 e1 a1 b1 c1 w9 11 in
  let '(d2, a2) := R52 d2 e2 a2 b2 c2 w4 9 in
  let '(c1, e1) := R51 c1 d1 e1 a1 b1 w7 6 in
  let '(c2, e2) := R52 c2 d2 e2 a2 b2 w1 12 in
  let '(b1, d1) := R51 b1 c1 d1 e1 a1 w12 8 in
  let '(b2, d2) := R52 b2 c2 d2 e2 a2 w5 5 in
  let '(a1, c1) := R51 a1 b1 c1 d1 e1 w2 13 in
  let '(a2, c2) := R52 a2 b2 c2 d2 e2 w8 14 in
  let '(e1, b1) := R51 e1 a1 b1 c1 d1 w10 12 in
  let '(e2, b2) := R52 e2 a2 b2 c2 d2 w7 6 in
  let '(d1, a1) := R51 d1 e1 a1 b1 c1 w14 5 in
  let '(d2, a2) := R52 d2 e2 a2 b2 c2 w6 8 in
  let '(c1, e1) := R51 c1 d1 e1 a1 b1 w1 12 in
  let '(c2, e2) := R52 c2 d2 e2 a2 b2 w2 13 in
  let '(b1, d1) := R51 b1 c1 d1 e1 a1 w3 13 in
  let '(b2, d2) := R52 b2 c2 d2 e2 a2 w13 6 in
  let '(a1, c1) := R51 a1 b1 c1 d1 e1 w8 14 in
  let '(a2, c2) := R52 a2 b2 c2 d2 e2 w14 5 in
  let '(e1, b1) := R51 e1 a1 b1 c1 d1 w11 11 in
  let '(e2, b2) := R52 e2 a2 b2 c2 d2 w0 15 in
  let '(d1, a1) := R51 d1 e1 a1 b1 c1 w6 8 in
  let '(d2, a2) := R52 d2 e2 a2 b2 c2 w3 13 in
  let '(c1, e1) := R51 c1 d1 e1 a1 b1 w15 5 in
  let '(c2, e2) := R52 c2 d2 e2 a2 b2 w9 11 in
  let '(b1, d1) := R51 b1 c1 d1 e1 a1 w13 6 in
  let '(b2, d2) := R52 b2 c2 d2 e2 a2 w11 11 in

  let t := s !!! 0%nat in
  [u32 (u32 (s !!! 1%nat + c1) + d2);
   u32 (u32 (s !!! 2%nat + d1) + e2);
   u32 (u32 (s !!! 3%nat + e1) + a2);
   u32 (u32 (s !!! 4%nat + a1) + b2);
   u32 (u32 (t + b1) + c2)].

(** ** The hasher class *)

Definition hasher := MerkleDamgard.hasher (list Z).
#[global] Typeclasses Opaque hasher.

Definition CRIPEMD160 : hasher := Hasher Initialize (replicate 64 0) 0.
Definition Reset (h : hasher) : hasher := Hasher Initialize (buf h) 0.

Definition Write : hasher → bytes → hasher := md_write 64 Transform.

Definition Finalize (h : hasher) : bytes :=
  let pad := 0x80 :: replicate 63 0 in
  let sizedesc := WriteLE64 (u64 (Z.shiftl (nbytes h) 3)) in
  let h := Write h (take (Z.to_nat (1 + (119 - nbytes h mod 64) mod 64)) pad) in
  let h := Write h sizedesc in
  WriteLE32 (s h !!! 0%nat) ++ WriteLE32 (s h !!! 1%nat) ++ WriteLE32 (s h !!! 2%nat) ++
  WriteLE32 (s h !!! 3%nat) ++ WriteLE32 (s h !!! 4%nat).

(** ** The pseudo-code of the specification *)

Definition ref_f (j : nat) (x y z : Z) : Z :=
  if (j <? 16)%nat then Z.lxor (Z.lxor x y) z
  else if (j <? 32)%nat then Z.lor (Z.land x y) (Z.land (not32 x) z)
  else if (j <? 48)%nat then Z.lxor (Z.lor x (not32 y)) z
  else if (j <? 64)%nat then Z.lor (Z.land x z) (Z.land y (not32 z))
  else Z.lxor x (Z.lor y (not32 z)).
Definition ref_K (j : nat) : Z :=
  if (j <? 16)%nat then 0 else if (j <? 32)%nat then 0x5A827999
  else if (j <? 48)%nat then 0x6ED9EBA1 else if (j <? 64)%nat then 0x8F1BBCDC else 0xA953FD4E.
Definition ref_K' (j : nat) : Z :=
  if (j <? 16)%nat then 0x50A28BE6 else if (j <? 32)%nat then 0x5C4DD124
  else if (j <? 48)%nat then 0x6D703EF3 else if (j <? 64)%nat then 0x7A6D76E9 else 0.
Definition ref_r : list nat :=
  [0; 1; 2; 3; 4; 5; 6; 7; 8; 9; 10; 11; 12; 13; 14; 15;
   7; 4; 13; 1; 10; 6; 15; 3; 12; 0; 9; 5; 2; 14; 11; 8;
   3; 10; 14; 4; 9; 15; 8; 1; 2; 7; 0; 6; 13; 11; 5; 12;
   1; 9; 11; 10; 0; 8; 12; 4; 13; 3; 7; 15; 14; 5; 6; 2;
   4; 0; 5; 9; 7; 12; 2; 10; 14; 1; 3; 8; 11; 6; 15; 13]%nat.
Definition ref_r' : list nat :=
  [5; 14; 7; 0; 9; 2; 11; 4; 13; 6; 15; 8; 1; 10; 3; 12;
   6; 11; 3; 7; 0; 13; 5; 10; 14; 15; 8; 12; 4; 9; 1; 2;
   15; 5; 1; 3; 7; 14; 6; 9; 11; 8; 12; 2; 10; 0; 4; 13;
   8; 6; 4; 1; 3; 11; 15; 0; 5; 12; 2; 13; 9; 7; 10; 14;
   12; 15; 10; 4; 1; 5; 8; 7; 6; 2; 13; 14; 0; 3; 9; 11]%nat.
Definition ref_s : list Z :=
  [11; 14; 15; 12; 5; 8; 7; 9; 11; 13; 14; 15; 6; 7; 9; 8;
   7; 6; 8; 13; 11; 9; 7; 15; 7; 12; 15; 9; 11; 7; 13; 12;
   11; 13; 6; 7; 14; 9; 13; 15; 14; 8; 13; 6; 5; 12; 7; 5;
   11; 12; 14; 15; 14; 15; 9; 8; 9; 14; 5; 6; 8; 6; 5; 12;
   9; 15; 5; 11; 6; 8; 13; 12; 5; 12; 13; 14; 11; 8; 5; 6].
Definition ref_s' : list Z :=
  [8; 9; 9; 11; 13; 15; 15; 5; 7; 7; 8; 11; 14; 14; 12; 6;
   9; 13; 15; 7; 12; 8; 9; 11; 7; 7; 12; 7; 6; 15; 13; 11;
   9; 7; 15; 11; 8; 6; 6; 14; 12; 13; 5; 14; 13; 13; 7; 5;
   15; 5; 8; 11; 14; 14; 6; 14; 6; 9; 12; 9; 12; 5; 15; 8;
   8; 5; 12; 9; 12; 5; 14; 6; 8; 13; 6; 5; 15; 13; 11; 11].

Definition vars : Type := Z * Z * Z * Z * Z.
Definition ref_left (X : list Z) (v : vars) (j : nat) : vars :=
  let '(A, B, C, D, E) := v in
  let T := u32 (rol (u32 (A + ref_f j B C D + X !!! (ref_r !!! j) + ref_K j)) (ref_s !!! j) + E) in
  (E, T, B, rol C 10, D).
Definition ref_right (X : list Z) (v : vars) (j : nat) : vars :=
  let '(A, B, C, D, E) := v in
  let T := u32 (rol (u32 (A + ref_f (79 - j) B C D + X !!! (ref_r' !!! j) + ref_K' j)) (ref_s' !!! j) + E) in
  (E, T, B, rol C 10, D).

Definition ref_compress (H : list Z) (chunk : bytes) : list Z :=
  let X := map (λ i, ReadLE32 (drop (4 * i) chunk)) (seq 0 16) in
  let v0 := (H !!! 0%nat, H !!! 1%nat, H !!! 2%nat, H !!! 3%nat, H !!! 4%nat) in
  let '(A, B, C, D, E) := foldl (ref_left X) v0 (seq 0 80) in
  let '(A', B', C', D', E') := foldl (ref_right X) v0 (seq 0 80) in
  [u32 (H !!! 1%nat + C + D'); u32 (H !!! 2%nat + D + E'); u32 (H !!! 3%nat + E + A');
   u32 (H !!! 4%nat + A + B'); u32 (H !!! 0%nat + B + C')].

(** ** The unrolled lines compute the pseudo-code *)

Definition line1 (j : nat) : Z → Z → Z → Z → Z → Z → Z → Z * Z :=
  if (j <? 16)%nat then R11 else if (j <? 32)%nat then R21 else if (j <? 48)%nat then R31
  else if (j <? 64)%nat then R41 else R51.
Definition line2 (j : nat) : Z → Z → Z → Z → Z → Z → Z → Z * Z :=
  if (j <? 16)%nat then R12 else if (j <? 32)%nat then R22 else if (j <? 48)%nat then R32
  else if (j <? 64)%nat then R42 else R52.

Lemma ripemd160_Round_sum a b c d e f x k r :
  Round a b c d e f x k r = (u32 (rol (u32 (a + f + x + k)) r + e), rol c 10).
Proof. unfold Round. by rewrite (u32_add_l (a + f)), u32_add_l. Qed.

Ltac line_cases j :=
  repeat match goal with |- context [(?i <? ?n)%nat] => destruct (Nat.ltb_spec i n); try lia end;
  rewrite ?ripemd160_Round_sum; reflexivity.

Lemma left_line X a b c d e j :
  ref_left X (a, b, c, d, e) j
  = let '(a', c') := line1 j a b c d e (X !!! (ref_r !!! j)) (ref_s !!! j) in (e, a', b, c', d).
Proof.
  unfold ref_left, line1, ref_f, ref_K, R11, R21, R31, R41, R51. line_cases j.
Qed.

Lemma right_line X a b c d e j :
  (j < 80)%nat →
  ref_right X (a, b, c, d, e) j
  = let '(a', c') := line2 j a b c d e (X !!! (ref_r' !!! j)) (ref_s' !!! j) in (e, a', b, c', d).
Proof.
  intros Hj. unfold ref_right, line2, ref_f, ref_K', R12, R22, R32, R42, R52. line_cases j.
Qed.

Ltac line_step f lem line r s :=
  lazymatch goal with
  | |- context [foldl (f ?X) _ (?j :: _)] =>
      rewrite (foldl_step (f X)), (lem X) by lia;
      let g := eval cbv [line Nat.ltb Nat.leb] in (line j) in change (line j) with g;
      let k := eval cbv in (r !!! j) in change (r !!! j) with k;
      let n := eval cbv in (s !!! j) in change (s !!! j) with n;
      cbn [lookup_total list_lookup_total];
      destruct (g _ _ _ _ _ _ n)
  end.

Ltac assign_step :=
  rewrite assign_eq; cbv beta.

Lemma ripemd160_Transform_ref s chunk : length s = 5%nat → Transform s chunk = ref_compress s chunk.
Proof.
  intros Hs. unfold ref_compress.
  change (map (λ i, ReadLE32 (drop (4 * i) chunk)) (seq 0 16))
    with [ReadLE32 (drop 0 chunk); ReadLE32 (drop 4 chunk); ReadLE32 (drop 8 chunk); ReadLE32 (drop 12 chunk); ReadLE32 (drop 16 chunk); ReadLE32 (drop 20 chunk); ReadLE32 (drop 24 chunk); ReadLE32 (drop 28 chunk); ReadLE32 (drop 32 chunk); ReadLE32 (drop 36 chunk); ReadLE32 (drop 40 chunk); ReadLE32 (drop 44 chunk); ReadLE32 (drop 48 chunk); ReadLE32 (drop 52 chunk); ReadLE32 (drop 56 chunk); ReadLE32 (drop 60 chunk)].
  cbv zeta. unfold Transform.
  generalize (ReadLE32 (drop 0 chunk)) (ReadLE32 (drop 4 chunk)) (ReadLE32 (drop 8 chunk)) (ReadLE32 (drop 12 chunk)) (ReadLE32 (drop 16 chunk)) (ReadLE32 (drop 20 chunk)) (ReadLE32 (drop 24 chunk)) (ReadLE32 (drop 28 chunk)) (ReadLE32 (drop 32 chunk)) (ReadLE32 (drop 36 chunk)) (ReadLE32 (drop 40 chunk)) (ReadLE32 (drop 44 chunk)) (ReadLE32 (drop 48 chunk)) (ReadLE32 (drop 52 chunk)) (ReadLE32 (drop 56 chunk)) (ReadLE32 (drop 60 chunk)).
  intros. destruct s as [|? [|? [|? [|? [|? [|? ?]]]]]]; try discriminate Hs.
  cbn [lookup_total list_lookup_total]. do 16 assign_step. cbn [seq].
  do 80 (line_step ref_left left_line line1 ref_r ref_s;
         line_step ref_right right_line line2 ref_r' ref_s').
  cbn [foldl]. by rewrite !u32_add_l.
Qed.

#[local] Opaque Transform.

Definition ripemd160 (m : bytes) : bytes := md_ref 64 ref_compress Initialize 8 WriteLE64 m ≫= WriteLE32.

Lemma ripemd160_ref_compress_length H chunk : length (ref_compress H chunk) = 5%nat.
Proof.
  unfold ref_compress. destruct (foldl _ _ _) as [[[[? ?] ?] ?] ?].
  by destruct (foldl _ _ _) as [[[[? ?] ?] ?] ?].
Qed.

Lemma ripemd160_md_ref_transform m :
  md_ref 64 Transform Initialize 8 WriteLE64 m = md_ref 64 ref_compress Initialize 8 WriteLE64 m ∧
  length (md_ref 64 ref_compress Initialize 8 WriteLE64 m) = 5%nat.
Proof.
  apply (md_ref_ext 64 _ _ (λ st, length st = 5%nat)); [lia|done|]. intros st blk Hst.
  split; [by apply ripemd160_Transform_ref|by apply ripemd160_ref_compress_length].
Qed.

Abbreviation fed := (md_fed 64 Transform Initialize).

Lemma ripemd160_Finalize_spec h m : fed h m → Z.of_nat (length m) < 2 ^ 61 → Finalize h = ripemd160 m.
Proof.
  intros Hf Hlen. unfold Finalize, ripemd160.
  destruct (ripemd160_md_ref_transform m) as [E H8]. rewrite <- E in H8 |- *.
  pose proof (md_padding_spec 64 Transform ltac:(lia) eq_refl Initialize 8 WriteLE64 ltac:(lia) h m Hf Hlen) as Hp.
  rewrite <- Hp in H8 |- *. clear E Hp.
  unfold md_padding, Write in *. change (Z.of_nat 64) with 64 in *.
  set (npad := (1 + (2 * 64 - 8 - 1 - Z.to_nat (nbytes h mod 64)) mod 64)%nat) in *.
  replace (Z.to_nat (1 + (119 - nbytes h mod 64) mod 64)) with npad by (subst npad; zlin).
  change (replicate (64 - 1) 0) with (replicate 63 0) in *.
  set (st := s (md_write 64 Transform _ _)) in *.
  destruct st as [|? [|? [|? [|? [|? [|? ?]]]]]]; try discriminate H8. reflexivity.
Qed.

#[global] Program Instance ripemd160_alg : HashAlg hasher := {|
  ha_new := CRIPEMD160; ha_write := Write; ha_finalize := Finalize;
  ha_digest := ripemd160; ha_outlen := 20; ha_fed h m := fed h m
|}.
Next Obligation. apply md_fed_new; [lia|done]. Qed.
Next Obligation. intros. by apply md_fed_write; [lia|done|]. Qed.
Next Obligation. intros. by apply ripemd160_Finalize_spec. Qed.
Next Obligation.
  intros m. unfold ripemd160. destruct (ripemd160_md_ref_transform m) as [_ H8].
  destruct (md_ref _ _ _ _ _ _) as [|? [|? [|? [|? [|? [|? ?]]]]]]; try discriminate H8.
  reflexivity.
Qed.

(** RIPEMD-160.  Writing any chunks to a new [CRIPEMD160] object and
    finalizing it returns the RIPEMD-160 hash of their concatenation: the
    interleaved unrolled lines are the two loops of the specification, and
    neither the chunking nor the buffer matters. *)
Theorem ripemd160_correct (chunks : list bytes) :
  Z.of_nat (length (concat chunks)) < 2 ^ 61 →
  Finalize (foldl Write CRIPEMD160 chunks)
  = md_ref 64 ref_compress Initialize 8 WriteLE64 (concat chunks) ≫= WriteLE32.
Proof. apply (ha_writes (HashAlg0 := ripemd160_alg)). Qed.

Lemma ripemd160_correct_witness :
  Finalize (foldl Write CRIPEMD160 [[97]; [98; 99]])
  = md_ref 64 ref_compress Initialize 8 WriteLE64 [97; 98; 99] ≫= WriteLE32.
Proof. apply (ripemd160_correct [[97]; [98; 99]]). simpl. lia. Defined.

End Ripemd160.
