(* ===== verification/Hash.v ===== *)
(** * Hash compositions (src/src/hash.h, src/src/hash.cpp, crypto/hmac_sha256.cpp,
      crypto/hmac_sha512.cpp)

    HMAC and the double hashes are clients of the [HashAlg] interface;
    [CHashWriter] sends serialized objects to [CSHA3]; SipHash is in
    SipHash.v, MurmurHash3 in Bloom.v. *)

From stdpp Require Import base numbers list option.
From Stdlib Require Import ZArith Lia ZifyNat.
From S2P Require Import Prelude Endian BlockStream MerkleDamgard.
From S2P Require Import Sha256 Sha512 Ripemd160 Keccak Fips202.

(** ** HMAC *)
Module Hmac.
Section Hmac.
Context `{!HashAlg H} (bs : nat).

Record hmac := HMAC { outer : H; inner : H }.

(** The constructor; [rkey] is overwritten in place between the two writes. *)
Definition CHMAC (key : bytes) : hmac :=
  let rkey := if (length key <=? bs)%nat then key ++ replicate (bs - length key) 0
              else ha_finalize (ha_write ha_new key) ++ replicate (bs - ha_outlen) 0 in
  let rkey := map (λ b, Z.lxor b 0x5c) rkey in
  let outer := ha_write ha_new rkey in
  let rkey := map (λ b, Z.lxor b (Z.lxor 0x5c 0x36)) rkey in
  HMAC outer (ha_write ha_new rkey).

Definition Write (h : hmac) (data : bytes) : hmac := HMAC (outer h) (ha_write (inner h) data).

Definition Finalize (h : hmac) : bytes :=
  let temp := ha_finalize (inner h) in
  ha_finalize (ha_write (outer h) temp).

(** RFC 2104. *)
Definition key_block (K : bytes) : bytes :=
  let K0 := if (bs <? length K)%nat then ha_digest K else K in
  K0 ++ replicate (bs - length K0) 0.
Definition hmac_ref (K m : bytes) : bytes :=
  ha_digest (map (λ b, Z.lxor b 0x5c) (key_block K) ++
             ha_digest (map (λ b, Z.lxor b 0x36) (key_block K) ++ m)).

Context (Hout : (ha_outlen ≤ bs)%nat) (Hbs : Z.of_nat bs < 2 ^ 32).

Lemma length_key_block K : length (key_block K) = bs.
Proof.
  unfold key_block. destruct (Nat.ltb_spec bs (length K));
    rewrite length_app, length_replicate, ?ha_digest_length; lia.
Qed.

Lemma CHMAC_key key :
  Z.of_nat (length key) < 2 ^ 61 →
  (if (length key <=? bs)%nat then key ++ replicate (bs - length key) 0
   else ha_finalize (ha_write ha_new key) ++ replicate (bs - ha_outlen) 0) = key_block key.
Proof.
  intros Hk. unfold key_block. rewrite Nat.leb_antisym.
  destruct (Nat.ltb_spec bs (length key)) as [Hlt|Hge]; simpl; [|done].
  rewrite (ha_finalize_spec _ ([] ++ key)) by (done || apply ha_fed_write, ha_fed_new).
  by rewrite ha_digest_length.
Qed.

Lemma hmac_writes key chunks :
  Z.of_nat (length key) < 2 ^ 61 → Z.of_nat (length (concat chunks)) < 2 ^ 60 →
  Finalize (foldl Write (CHMAC key) chunks) = hmac_ref key (concat chunks).
Proof.
  intros Hk Hm. unfold CHMAC. rewrite CHMAC_key by done. rewrite map_map.
  rewrite (map_ext (λ b, Z.lxor (Z.lxor b 0x5c) (Z.lxor 0x5c 0x36)) (λ b, Z.lxor b 0x36))
    by (intros b; by rewrite Z.lxor_assoc).
  set (o := map _ (key_block key)). set (i := map _ (key_block key)).
  assert (Ho : length o = bs) by (unfold o; by rewrite length_map, length_key_block).
  assert (Hi : length i = bs) by (unfold i; by rewrite length_map, length_key_block).
  assert (Hf : foldl Write (HMAC (ha_write ha_new o) (ha_write ha_new i)) chunks
    = HMAC (ha_write ha_new o) (foldl ha_write (ha_write ha_new i) chunks)).
  { generalize (ha_write ha_new i) as h. induction chunks as [|c cs IH]; intros h; simpl; [done|].
    apply IH. simpl in Hm. rewrite length_app in Hm. lia. }
  rewrite Hf. unfold Finalize. cbn [outer inner].
  rewrite (ha_finalize_spec (foldl ha_write (ha_write ha_new i) chunks) (([] ++ i) ++ concat chunks)).
  - rewrite (ha_finalize_spec _ (([] ++ o) ++ ha_digest (i ++ concat chunks))); [done| |].
    + apply ha_fed_write, ha_fed_write, ha_fed_new.
    + simpl. rewrite length_app, ha_digest_length. lia.
  - apply ha_fed_writes, ha_fed_write, ha_fed_new.
  - simpl. rewrite length_app. lia.
Qed.
End Hmac.

Definition CHMAC_SHA256 (key : bytes) : hmac (H := Sha256.hasher) := CHMAC 64 key.
Definition CHMAC_SHA512 (key : bytes) : hmac (H := Sha512.hasher) := CHMAC 128 key.

(** [BIP32Hash]. *)
Definition BIP32Hash (chainCode : bytes) (nChild header : Z) (data : bytes) : bytes :=
  let num := [Z.land (Z.shiftr nChild 24) 0xFF; Z.land (Z.shiftr nChild 16) 0xFF;
              Z.land (Z.shiftr nChild 8) 0xFF; Z.land (Z.shiftr nChild 0) 0xFF] in
  Finalize (Write (Write (Write (CHMAC_SHA512 chainCode) [header]) data) num).

(** HMAC.  [CHMAC_SHA256] and [CHMAC_SHA512], fed any chunks, return the
    RFC 2104 code of the concatenated message for the key, over the SHA-256 and
    SHA-512 functions of FIPS 180-4; keys longer than a block are hashed
    first. *)
Theorem hmac_correct (key : bytes) (chunks : list bytes) :
  Z.of_nat (length key) < 2 ^ 61 → Z.of_nat (length (concat chunks)) < 2 ^ 60 →
  Finalize (foldl Write (CHMAC_SHA256 key) chunks) = hmac_ref (H := Sha256.hasher) 64 key (concat chunks) ∧
  Finalize (foldl Write (CHMAC_SHA512 key) chunks) = hmac_ref (H := Sha512.hasher) 128 key (concat chunks).
Proof.
  intros Hk Hm. split; apply hmac_writes; try done; cbn; lia.
Qed.

Lemma hmac_correct_witness :
  Finalize (foldl Write (CHMAC_SHA256 [75]) [[1]; [2; 3]]) = hmac_ref (H := Sha256.hasher) 64 [75] [1; 2; 3] ∧
  Finalize (foldl Write (CHMAC_SHA512 [75]) [[1]; [2; 3]]) = hmac_ref (H := Sha512.hasher) 128 [75] [1; 2; 3].
Proof. apply (hmac_correct [75] [[1]; [2; 3]]); simpl; lia. Defined.

(** The child number enters the BIP32 hash big-endian. *)
Lemma BIP32Hash_spec cc nChild header data :
  is_u32 nChild → Z.of_nat (length cc) < 2 ^ 61 → Z.of_nat (length data) < 2 ^ 32 →
  BIP32Hash cc nChild header data
  = hmac_ref (H := Sha512.hasher) 128 cc ([header] ++ data ++ WriteBE32 nChild).
Proof.
  intros Hn Hc Hd. unfold BIP32Hash.
  assert (Hnum : [Z.land (Z.shiftr nChild 24) 0xFF; Z.land (Z.shiftr nChild 16) 0xFF;
    Z.land (Z.shiftr nChild 8) 0xFF; Z.land (Z.shiftr nChild 0) 0xFF] = WriteBE32 nChild).
  { unfold WriteBE32. change 255 with (Z.ones 8). rewrite !Z.land_ones, !Z.shiftr_div_pow2 by lia.
    cbn [to_digits rev app]. rewrite !Z.div_div by lia. change (2 ^ 0) with 1.
    by rewrite Z.div_1_r. }
  rewrite Hnum.
  change (Write (Write (Write ?h ?a) ?b) ?c) with (foldl Write h [a; b; c]).
  unfold CHMAC_SHA512. rewrite (hmac_writes (H := Sha512.hasher) 128).
  - cbn [concat]. by rewrite app_nil_r.
  - cbn. lia.
  - cbn. lia.
  - done.
  - cbn [concat]. rewrite !length_app, length_WriteBE32. cbn. lia.
Qed.
End Hmac.

(** ** The hasher classes of hash.h *)
Module Hashes.

(** [CHash3]: a single SHA-3. *)
Definition CHash3_Init : Keccak.keccakState := CSha3.Init.
Definition CHash3_Write (sha : Keccak.keccakState) (data : bytes) : option Keccak.keccakState :=
  CSha3.Write sha data.
Definition CHash3_Finalize (sha : Keccak.keccakState) : bytes := CSha3.Finalize sha.

(** [CHash256]: double SHA-256. *)
Definition CHash256_Write (sha : Sha256.hasher) (data : bytes) : Sha256.hasher := Sha256.Write sha data.
Definition CHash256_Reset (sha : Sha256.hasher) : Sha256.hasher := Sha256.Reset sha.
Definition CHash256_Finalize (sha : Sha256.hasher) : bytes :=
  let buf := Sha256.Finalize sha in
  Sha256.Finalize (Sha256.Write (Sha256.Reset sha) buf).

(** [CHash160]: RIPEMD-160 of SHA-256. *)
Definition CHash160_Write (sha : Sha256.hasher) (data : bytes) : Sha256.hasher := Sha256.Write sha data.
Definition CHash160_Reset (sha : Sha256.hasher) : Sha256.hasher := Sha256.Reset sha.
Definition CHash160_Finalize (sha : Sha256.hasher) : bytes :=
  let buf := Sha256.Finalize sha in
  Ripemd160.Finalize (Ripemd160.Write Ripemd160.CRIPEMD160 buf).

(** [Hash(begin, end)] with one, two and three ranges. *)
Definition Hash1 (p : bytes) : bytes := CHash256_Finalize (CHash256_Write Sha256.CSHA256 p).
Definition Hash2 (p1 p2 : bytes) : bytes :=
  CHash256_Finalize (CHash256_Write (CHash256_Write Sha256.CSHA256 p1) p2).
Definition Hash3 (p1 p2 p3 : bytes) : bytes :=
  CHash256_Finalize (CHash256_Write (CHash256_Write (CHash256_Write Sha256.CSHA256 p1) p2) p3).
Definition Hash160 (p : bytes) : bytes := CHash160_Finalize (CHash160_Write Sha256.CSHA256 p).

(** [CHashWriter]: the writes of a serialization, in order, into [CHash3]. *)
Fixpoint CHashWriter_write (ctx : Keccak.keccakState) (parts : list bytes) : option Keccak.keccakState :=
  match parts with
  | [] => Some ctx
  | p :: ps => ctx' ← CHash3_Write ctx p; CHashWriter_write ctx' ps
  end.
Definition CHashWriter_GetHash (ctx : Keccak.keccakState) : bytes := CHash3_Finalize ctx.
(** [SerializeHash(obj)]: [parts] are the [write] calls of [Serialize(obj)]. *)
Definition SerializeHash (parts : list bytes) : option bytes :=
  ctx ← CHashWriter_write CHash3_Init parts; Some (CHashWriter_GetHash ctx).

Abbreviation sha_fed := (ha_fed (H := Sha256.hasher)).

Lemma sha256_length m : length (Sha256.sha256 m) = 32%nat.
Proof. exact (ha_digest_length (H := Sha256.hasher) m). Qed.
Lemma sha_fed_write h m d : sha_fed h m → sha_fed (Sha256.Write h d) (m ++ d).
Proof. exact (ha_fed_write (H := Sha256.hasher) h m d). Qed.
Lemma sha_fed_new : sha_fed Sha256.CSHA256 [].
Proof. exact (ha_fed_new (H := Sha256.hasher)). Qed.

Lemma Reset_fed h m : sha_fed h m → sha_fed (Sha256.Reset h) [].
Proof. intros [[Hb _] _]. by apply md_fed_new; [lia|]. Qed.

Lemma CHash256_Finalize_spec h m :
  sha_fed h m → Z.of_nat (length m) < 2 ^ 61 →
  CHash256_Finalize h = Sha256.sha256 (Sha256.sha256 m).
Proof.
  intros Hf Hl. unfold CHash256_Finalize. rewrite (Sha256.sha256_Finalize_spec h m Hf Hl).
  apply Sha256.sha256_Finalize_spec; [|rewrite sha256_length; lia].
  apply (sha_fed_write _ []). by apply Reset_fed with m.
Qed.

Lemma CHash160_Finalize_spec h m :
  sha_fed h m → Z.of_nat (length m) < 2 ^ 61 →
  CHash160_Finalize h = Ripemd160.ripemd160 (Sha256.sha256 m).
Proof.
  intros Hf Hl. unfold CHash160_Finalize. rewrite (Sha256.sha256_Finalize_spec h m Hf Hl).
  apply Ripemd160.ripemd160_Finalize_spec; [|rewrite sha256_length; lia].
  exact (ha_fed_write (H := Ripemd160.hasher) _ [] _ ha_fed_new).
Qed.

(** The composed hashes.  [Hash] of one, two or three ranges is the double
    SHA-256 of their concatenation, and [Hash160] is RIPEMD-160 of SHA-256. *)
Theorem composed_hashes (p1 p2 p3 : bytes) :
  Z.of_nat (length (p1 ++ p2 ++ p3)) < 2 ^ 61 →
  Hash1 p1 = Sha256.sha256 (Sha256.sha256 p1) ∧
  Hash2 p1 p2 = Sha256.sha256 (Sha256.sha256 (p1 ++ p2)) ∧
  Hash3 p1 p2 p3 = Sha256.sha256 (Sha256.sha256 (p1 ++ p2 ++ p3)) ∧
  Hash160 p1 = Ripemd160.ripemd160 (Sha256.sha256 p1).
Proof.
  intros Hl. rewrite !length_app in Hl.
  pose proof (sha_fed_write _ [] p1 sha_fed_new) as H1.
  pose proof (sha_fed_write _ _ p2 H1) as H2. pose proof (sha_fed_write _ _ p3 H2) as H3.
  cbn [app] in H1, H2, H3. rewrite <- app_assoc in H3.
  split; [exact (CHash256_Finalize_spec _ _ H1 ltac:(lia))|].
  split; [refine (CHash256_Finalize_spec _ _ H2 _); rewrite length_app; lia|].
  split; [refine (CHash256_Finalize_spec _ _ H3 _); rewrite !length_app; lia|].
  exact (CHash160_Finalize_spec _ _ H1 ltac:(lia)).
Qed.

Lemma composed_hashes_witness :
  Hash1 [1] = Sha256.sha256 (Sha256.sha256 [1]) ∧
  Hash2 [1] [2; 3] = Sha256.sha256 (Sha256.sha256 [1; 2; 3]) ∧
  Hash3 [1] [2; 3] [] = Sha256.sha256 (Sha256.sha256 [1; 2; 3]) ∧
  Hash160 [1] = Ripemd160.ripemd160 (Sha256.sha256 [1]).
Proof. apply (composed_hashes [1] [2; 3] []). simpl. lia. Defined.

Lemma CHashWriter_write_eq ctx parts : CHashWriter_write ctx parts = CSha3.Writes ctx parts.
Proof.
  revert ctx. induction parts as [|p ps IH]; intros ctx; cbn [CHashWriter_write CSha3.Writes]; [done|].
  unfold CHash3_Write. destruct (CSha3.Write ctx p); simpl; [apply IH|done].
Qed.

Lemma SerializeHash_eq parts : SerializeHash parts = CSha3.hash parts.
Proof. unfold SerializeHash, CSha3.hash. by rewrite CHashWriter_write_eq. Qed.

(** The hash of an object depends only on its serialization, not on how the
    serializer cuts it into writes. *)
Lemma SerializeHash_concat parts parts' :
  Forall (λ c, Z.of_nat (length c) < 2 ^ 32) parts → Forall (λ c, Z.of_nat (length c) < 2 ^ 32) parts' →
  concat parts = concat parts' → SerializeHash parts = SerializeHash parts'.
Proof. intros H1 H2 E. rewrite !SerializeHash_eq, !CSha3.hash_spec by done. by rewrite E. Qed.
End Hashes.
