(* ===== verification/SipHash.v ===== *)
(** * SipHash-2-4 (src/src/hash.cpp)

    The keyed hash of the in-memory tables, as a byte-wise stream and in its
    two specialised versions for 256-bit keys. *)

From stdpp Require Import base numbers list option.
From Stdlib Require Import ZArith Lia ZifyNat.
From S2P Require Import Prelude Endian BlockStream.

Module SipHash.

Definition ROTL (x b : Z) : Z := Z.lor (u64 (Z.shiftl x b)) (Z.shiftr x (64 - b)).

Record sipvec := V { v0 : Z; v1 : Z; v2 : Z; v3 : Z }.

(** The macro [SIPROUND], assignment by assignment. *)
Definition SIPROUND (v : sipvec) : sipvec :=
  let '(V v0 v1 v2 v3) := v in
  let v0 := u64 (v0 + v1) in let v1 := ROTL v1 13 in let v1 := Z.lxor v1 v0 in
  let v0 := ROTL v0 32 in
  let v2 := u64 (v2 + v3) in let v3 := ROTL v3 16 in let v3 := Z.lxor v3 v2 in
  let v0 := u64 (v0 + v3) in let v3 := ROTL v3 21 in let v3 := Z.lxor v3 v0 in
  let v2 := u64 (v2 + v1) in let v1 := ROTL v1 17 in let v1 := Z.lxor v1 v2 in
  let v2 := ROTL v2 32 in
  V v0 v1 v2 v3.

Definition xor3 (t : Z) (v : sipvec) : sipvec := V (v0 v) (v1 v) (v2 v) (Z.lxor (v3 v) t).
Definition xor0 (t : Z) (v : sipvec) : sipvec := V (Z.lxor (v0 v) t) (v1 v) (v2 v) (v3 v).
Definition xor2 (t : Z) (v : sipvec) : sipvec := V (v0 v) (v1 v) (Z.lxor (v2 v) t) (v3 v).
Definition xor_all (v : sipvec) : Z := Z.lxor (Z.lxor (Z.lxor (v0 v) (v1 v)) (v2 v)) (v3 v).

(** [count] is an [int]; it is not wrapped, its overflow is undefined in C++. *)
Record CSipHasher := Sip { v : sipvec; tmp : Z; count : Z }.

Definition init (k0 k1 : Z) : sipvec :=
  V (Z.lxor 0x736f6d6570736575 k0) (Z.lxor 0x646f72616e646f6d k1)
    (Z.lxor 0x6c7967656e657261 k0) (Z.lxor 0x7465646279746573 k1).

Definition new (k0 k1 : Z) : CSipHasher := Sip (init k0 k1) 0 0.

(** [Write(uint64_t)]; [None] is the failed assertion. *)
Definition Write64 (h : CSipHasher) (data : Z) : option CSipHasher :=
  if Z.rem (count h) 8 =? 0 then
    let v := xor3 data (v h) in
    let v := SIPROUND v in
    let v := SIPROUND v in
    let v := xor0 data v in
    Some (Sip v (tmp h) (count h + 8))
  else None.

(** One iteration of [Write(data, size)]. *)
Definition write_byte (h : CSipHasher) (b : Z) : CSipHasher :=
  let t := Z.lor (tmp h) (u64 (Z.shiftl b (8 * Z.rem (count h) 8))) in
  let c := count h + 1 in
  if Z.land c 7 =? 0 then
    let v := xor3 t (v h) in
    let v := SIPROUND v in
    let v := SIPROUND v in
    let v := xor0 t v in
    Sip v 0 c
  else Sip (v h) t c.

Definition Write (h : CSipHasher) (data : bytes) : CSipHasher := foldl write_byte h data.

Definition Finalize (h : CSipHasher) : Z :=
  let t := Z.lor (tmp h) (u64 (Z.shiftl (u64 (count h)) 56)) in
  let v := xor3 t (v h) in
  let v := SIPROUND v in
  let v := SIPROUND v in
  let v := xor0 t v in
  let v := xor2 0xFF v in
  let v := SIPROUND v in
  let v := SIPROUND v in
  let v := SIPROUND v in
  let v := SIPROUND v in
  xor_all v.

(** [uint256::GetUint64(pos)]. *)
Definition GetUint64 (val : bytes) (pos : nat) : Z := ReadLE64 (drop (8 * pos) val).

Definition SipHashUint256 (k0 k1 : Z) (val : bytes) : Z :=
  let d := GetUint64 val 0 in
  let v := V (Z.lxor 0x736f6d6570736575 k0) (Z.lxor 0x646f72616e646f6d k1)
             (Z.lxor 0x6c7967656e657261 k0) (Z.lxor (Z.lxor 0x7465646279746573 k1) d) in
  let v := SIPROUND v in let v := SIPROUND v in
  let v := xor0 d v in
  let d := GetUint64 val 1 in
  let v := xor3 d v in
  let v := SIPROUND v in let v := SIPROUND v in
  let v := xor0 d v in
  let d := GetUint64 val 2 in
  let v := xor3 d v in
  let v := SIPROUND v in let v := SIPROUND v in
  let v := xor0 d v in
  let d := GetUint64 val 3 in
  let v := xor3 d v in
  let v := SIPROUND v in let v := SIPROUND v in
  let v := xor0 d v in
  let v := xor3 (u64 (Z.shiftl 4 59)) v in
  let v := SIPROUND v in let v := SIPROUND v in
  let v := xor0 (u64 (Z.shiftl 4 59)) v in
  let v := xor2 0xFF v in
  let v := SIPROUND v in let v := SIPROUND v in let v := SIPROUND v in let v := SIPROUND v in
  xor_all v.

Definition SipHashUint256Extra (k0 k1 : Z) (val : bytes) (extra : Z) : Z :=
  let d := GetUint64 val 0 in
  let v := V (Z.lxor 0x736f6d6570736575 k0) (Z.lxor 0x646f72616e646f6d k1)
             (Z.lxor 0x6c7967656e657261 k0) (Z.lxor (Z.lxor 0x7465646279746573 k1) d) in
  let v := SIPROUND v in let v := SIPROUND v in
  let v := xor0 d v in
  let d := GetUint64 val 1 in
  let v := xor3 d v in
  let v := SIPROUND v in let v := SIPROUND v in
  let v := xor0 d v in
  let d := GetUint64 val 2 in
  let v := xor3 d v in
  let v := SIPROUND v in let v := SIPROUND v in
  let v := xor0 d v in
  let d := GetUint64 val 3 in
  let v := xor3 d v in
  let v := SIPROUND v in let v := SIPROUND v in
  let v := xor0 d v in
  let d := Z.lor (u64 (Z.shiftl 36 56)) extra in
  let v := xor3 d v in
  let v := SIPROUND v in let v := SIPROUND v in
  let v := xor0 d v in
  let v := xor2 0xFF v in
  let v := SIPROUND v in let v := SIPROUND v in let v := SIPROUND v in let v := SIPROUND v in
  xor_all v.

(** ** The published algorithm: c = 2 rounds per word, d = 4 final rounds *)

Definition compress (v : sipvec) (m : Z) : sipvec := xor0 m (SIPROUND (SIPROUND (xor3 m v))).
Definition compress_block (v : sipvec) (blk : bytes) : sipvec := compress v (from_digits 256 blk).

(** The last word holds the remaining bytes and the length modulo 256. *)
Definition siphash_ref (k0 k1 : Z) (m : bytes) : Z :=
  let '(v, rest) := absorb 8 compress_block (init k0 k1) m in
  let last := from_digits 256 rest + 2 ^ 56 * (Z.of_nat (length m) mod 256) in
  let v := xor2 0xFF (compress v last) in
  xor_all (SIPROUND (SIPROUND (SIPROUND (SIPROUND v)))).

Definition fed (k0 k1 : Z) (h : CSipHasher) (m : bytes) : Prop :=
  let '(w, rest) := absorb 8 compress_block (init k0 k1) m in
  v h = w ∧ tmp h = from_digits 256 rest ∧ count h = Z.of_nat (length m).

Lemma sip_fed_new k0 k1 : fed k0 k1 (new k0 k1) [].
Proof. done. Qed.

Lemma absorb_bytes_ok {St} n (f : St → bytes → St) s m :
  (0 < n)%nat → bytes_ok m → bytes_ok (snd (absorb n f s m)).
Proof.
  intros Hn. revert s m. apply (block_ind n f Hn (λ s m, bytes_ok m → bytes_ok (snd (absorb n f s m)))).
  - intros s m Hlt Hm. by rewrite absorb_lt.
  - intros s m Hge IH Hm. rewrite absorb_ge by done. by apply IH, Forall_drop.
Qed.

(** [t |= b << (8 * (c % 8))] appends a digit. *)
Lemma or_byte l b :
  bytes_ok l → is_u8 b → (length l < 8)%nat →
  Z.lor (from_digits 256 l) (u64 (Z.shiftl b (8 * Z.of_nat (length l)))) = from_digits 256 (l ++ [b]).
Proof.
  intros Hl Hb Hlen. pose proof (from_digits_bound 256 ltac:(lia) l Hl) as Hbd.
  assert (Hp : 256 ^ Z.of_nat (length l) = 2 ^ (8 * Z.of_nat (length l)))
    by (rewrite Z.pow_mul_r by lia; done).
  rewrite u64_small.
  - rewrite lor_add_disjoint, from_digits_app by (rewrite <- ?Hp; first [done|lia]).
    cbn [from_digits]. rewrite Hp. lia.
  - rewrite Z.shiftl_mul_pow2, <- Hp by lia. unfold is_u8, is_u64 in *.
    assert (256 ^ Z.of_nat (length l) ≤ 256 ^ 7) by (apply Z.pow_le_mono_r; lia).
    change (256 ^ 7) with 72057594037927936 in *. nia.
Qed.

Lemma fed_write_byte k0 k1 h m b :
  bytes_ok m → is_u8 b → fed k0 k1 h m → fed k0 k1 (write_byte h b) (m ++ [b]).
Proof.
  unfold fed. intros Hm Hb. rewrite absorb_app by lia.
  pose proof (absorb_rest 8 compress_block ltac:(lia) (init k0 k1) m) as Hr.
  pose proof (absorb_bytes_ok 8 compress_block (init k0 k1) m ltac:(lia) Hm) as Hok.
  destruct (absorb 8 compress_block (init k0 k1) m) as [w rest]. cbn [fst snd] in *.
  intros (Hv & Ht & Hc). unfold write_byte. rewrite Hc.
  assert (Hrem : Z.rem (Z.of_nat (length m)) 8 = Z.of_nat (length rest))
    by (rewrite Z.rem_mod_nonneg by lia; lia).
  rewrite Hrem, Ht, or_byte by (done || (rewrite Hr; apply Nat.mod_upper_bound; lia)).
  change 7 with (Z.ones 3). rewrite Z.land_ones by lia. change (2 ^ 3) with 8.
  assert (Hlt : (length rest < 8)%nat) by (rewrite Hr; apply Nat.mod_upper_bound; lia).
  destruct (decide (length rest = 7)%nat) as [E|E].
  - rewrite (proj2 (Z.eqb_eq ((Z.of_nat (length m) + 1) mod 8) 0)) by zlin.
    rewrite absorb_block by (rewrite ?length_app; simpl; lia). rewrite Hv.
    split_and!; [done|done|]. rewrite length_app. simpl. lia.
  - rewrite (proj2 (Z.eqb_neq ((Z.of_nat (length m) + 1) mod 8) 0)) by zlin.
    rewrite absorb_lt by (rewrite ?length_app; simpl; lia). rewrite length_app. simpl.
    split_and!; [done|done|lia].
Qed.

Lemma sip_fed_write k0 k1 h m d :
  bytes_ok m → bytes_ok d → fed k0 k1 h m → fed k0 k1 (Write h d) (m ++ d).
Proof.
  intros Hm Hd. revert h m Hm. unfold Write. induction Hd as [|b d Hb _ IH]; intros h m Hm Hf; simpl.
  - by rewrite app_nil_r.
  - change (b :: d) with ([b] ++ d). rewrite app_assoc. apply IH; [|by apply fed_write_byte].
    apply Forall_app. split; [done|]. constructor; [done|constructor].
Qed.

Lemma sip_Finalize_spec k0 k1 h m : bytes_ok m → fed k0 k1 h m → Finalize h = siphash_ref k0 k1 m.
Proof.
  unfold fed, siphash_ref. intros Hm.
  pose proof (absorb_rest 8 compress_block ltac:(lia) (init k0 k1) m) as Hr.
  pose proof (absorb_bytes_ok 8 compress_block (init k0 k1) m ltac:(lia) Hm) as Hok.
  destruct (absorb 8 compress_block (init k0 k1) m) as [w rest]. cbn [fst snd] in *.
  intros (Hv & Ht & Hc). unfold Finalize, compress. rewrite Hv, Ht, Hc.
  assert (Hlast : Z.lor (from_digits 256 rest) (u64 (Z.shiftl (u64 (Z.of_nat (length m))) 56))
    = from_digits 256 rest + 2 ^ 56 * (Z.of_nat (length m) mod 256)); [|by rewrite Hlast].
  assert (Hlt : (length rest < 8)%nat) by (rewrite Hr; apply Nat.mod_upper_bound; lia).
  pose proof (from_digits_bound 256 ltac:(lia) rest Hok) as Hbd.
  assert (256 ^ Z.of_nat (length rest) ≤ 256 ^ 7) by (apply Z.pow_le_mono_r; lia).
  replace (u64 (Z.shiftl (u64 (Z.of_nat (length m))) 56))
    with (Z.shiftl (Z.of_nat (length m) mod 256) 56).
  - rewrite lor_add_disjoint by lia. lia.
  - rewrite !Z.shiftl_mul_pow2 by lia. unfold u64. change 18446744073709551616 with (256 * 2 ^ 56).
    rewrite Z.mul_mod_distr_r by lia. f_equal.
    rewrite (Z.rem_mul_r _ 256) by lia. rewrite Z.mul_comm, Z.mod_add by lia.
    by rewrite Z.mod_mod.
Qed.

(** SipHash.  Any sequence of byte writes of any sizes followed by
    [Finalize] computes SipHash-2-4 of the concatenated input. *)
Theorem siphash_stream (k0 k1 : Z) (chunks : list bytes) :
  Forall bytes_ok chunks →
  Finalize (foldl Write (new k0 k1) chunks) = siphash_ref k0 k1 (concat chunks).
Proof.
  intros Hok. apply sip_Finalize_spec; [by apply Forall_concat|].
  assert (Hgen : ∀ h m, bytes_ok m → fed k0 k1 h m → fed k0 k1 (foldl Write h chunks) (m ++ concat chunks)).
  { induction Hok as [|c cs Hc _ IH]; intros h m Hm Hf; simpl; [by rewrite app_nil_r|].
    rewrite app_assoc. apply IH; [by apply Forall_app|by apply sip_fed_write]. }
  by apply (Hgen (new k0 k1) []); [constructor|apply sip_fed_new].
Qed.

Lemma siphash_stream_witness :
  Finalize (foldl Write (new 1 2) [[3; 4]; [5]]) = siphash_ref 1 2 [3; 4; 5].
Proof. apply (siphash_stream 1 2 [[3; 4]; [5]]). repeat constructor; lia. Defined.

(** The words of a 32-byte value, absorbed one by one. *)
Lemma absorb_uint256 w val tl :
  length val = 32%nat → (length tl < 8)%nat →
  absorb 8 compress_block w (val ++ tl)
  = (compress (compress (compress (compress w (GetUint64 val 0)) (GetUint64 val 1))
       (GetUint64 val 2)) (GetUint64 val 3), tl).
Proof.
  intros Hl Ht. do 32 (destruct val as [|? val]; [discriminate Hl|]).
  destruct val; [|discriminate Hl]. cbn [app].
  do 4 (rewrite absorb_ge by (cbn; lia); cbn [take drop]).
  rewrite take_0, drop_0. rewrite absorb_lt by lia. done.
Qed.

(** The specialised versions.  [SipHashUint256] and [SipHashUint256Extra]
    are SipHash-2-4 of the 32 bytes of the value, and of these followed by the
    4 little-endian bytes of [extra], as their comment promises. *)
Theorem siphash_uint256 (k0 k1 : Z) (val : bytes) (extra : Z) :
  length val = 32%nat → bytes_ok val → is_u32 extra →
  SipHashUint256 k0 k1 val = siphash_ref k0 k1 val ∧
  SipHashUint256 k0 k1 val = Finalize (Write (new k0 k1) val) ∧
  SipHashUint256Extra k0 k1 val extra = siphash_ref k0 k1 (val ++ WriteLE32 extra).
Proof.
  intros Hl Hok He.
  assert (E1 : SipHashUint256 k0 k1 val = siphash_ref k0 k1 val).
  { unfold siphash_ref. rewrite <- (app_nil_r val) at 2. rewrite (absorb_uint256 _ val []) by (done || simpl; lia).
    rewrite Hl. reflexivity. }
  split; [done|]. split.
  - rewrite E1. symmetry. apply sip_Finalize_spec; [done|].
    apply (sip_fed_write k0 k1 _ []); [constructor|done|apply sip_fed_new].
  - unfold siphash_ref. rewrite absorb_uint256 by (unfold WriteLE32; rewrite ?length_to_digits; done || lia).
    rewrite length_app, Hl. unfold WriteLE32. rewrite length_to_digits.
    rewrite (to_digits_small 256 ltac:(lia)) by (change (256 ^ Z.of_nat 4) with 4294967296; word_lia).
    change (2 ^ 56 * (Z.of_nat (32 + 4) mod 256)) with (36 * 2 ^ 56).
    rewrite <- lor_add_disjoint by (unfold is_u32 in He; lia).
    unfold SipHashUint256Extra. change (u64 (Z.shiftl 36 56)) with (Z.shiftl 36 56).
    rewrite (Z.lor_comm _ extra). reflexivity.
Qed.

Lemma siphash_uint256_witness :
  SipHashUint256 1 2 (replicate 32 7) = siphash_ref 1 2 (replicate 32 7) ∧
  SipHashUint256 1 2 (replicate 32 7) = Finalize (Write (new 1 2) (replicate 32 7)) ∧
  SipHashUint256Extra 1 2 (replicate 32 7) 9 = siphash_ref 1 2 (replicate 32 7 ++ WriteLE32 9).
Proof.
  apply (siphash_uint256 1 2 (replicate 32 7) 9); [done| |word_lia].
  apply Forall_replicate. lia.
Defined.
End SipHash.
