(* ===== verification/Script.v ===== *)
(** * Scripts (src/src/script/script.h and .cpp)

    Script numbers, the construction of scripts, the instruction reader and the
    scans built on it.  A script is its list of bytes and a position in it the
    list of the bytes that follow; [GetOp] returns [None] where the code
    returns false. *)

From stdpp Require Import base numbers list option.
From Stdlib Require Import ZArith Lia ZifyNat ZifyBool.
From S2P Require Import Prelude Endian StrEncodings.

(** ** Limits and opcodes *)
Definition MAX_SCRIPT_ELEMENT_SIZE : Z := 128000.
Definition MAX_OPS_PER_SCRIPT : Z := 201.
Definition MAX_PUBKEYS_PER_MULTISIG : Z := 20.
Definition MAX_SCRIPT_SIZE : Z := 129000.
Definition MAX_STACK_SIZE : Z := 1000.
Definition LOCKTIME_THRESHOLD : Z := 500000000.

Definition OP_0 : Z := 0x00.
Definition OP_FALSE : Z := OP_0.
Definition OP_PUSHDATA1 : Z := 0x4c.
Definition OP_PUSHDATA2 : Z := 0x4d.
Definition OP_PUSHDATA4 : Z := 0x4e.
Definition OP_1NEGATE : Z := 0x4f.
Definition OP_RESERVED : Z := 0x50.
Definition OP_1 : Z := 0x51.
Definition OP_TRUE : Z := OP_1.
Definition OP_2 : Z := 0x52.
Definition OP_3 : Z := 0x53.
Definition OP_4 : Z := 0x54.
Definition OP_5 : Z := 0x55.
Definition OP_6 : Z := 0x56.
Definition OP_7 : Z := 0x57.
Definition OP_8 : Z := 0x58.
Definition OP_9 : Z := 0x59.
Definition OP_10 : Z := 0x5a.
Definition OP_11 : Z := 0x5b.
Definition OP_12 : Z := 0x5c.
Definition OP_13 : Z := 0x5d.
Definition OP_14 : Z := 0x5e.
Definition OP_15 : Z := 0x5f.
Definition OP_16 : Z := 0x60.
Definition OP_NOP : Z := 0x61.
Definition OP_VER : Z := 0x62.
Definition OP_IF : Z := 0x63.
Definition OP_NOTIF : Z := 0x64.
Definition OP_VERIF : Z := 0x65.
Definition OP_VERNOTIF : Z := 0x66.
Definition OP_ELSE : Z := 0x67.
Definition OP_ENDIF : Z := 0x68.
Definition OP_VERIFY : Z := 0x69.
Definition OP_RETURN : Z := 0x6a.
Definition OP_TOALTSTACK : Z := 0x6b.
Definition OP_FROMALTSTACK : Z := 0x6c.
Definition OP_2DROP : Z := 0x6d.
Definition OP_2DUP : Z := 0x6e.
Definition OP_3DUP : Z := 0x6f.
Definition OP_2OVER : Z := 0x70.
Definition OP_2ROT : Z := 0x71.
Definition OP_2SWAP : Z := 0x72.
Definition OP_IFDUP : Z := 0x73.
Definition OP_DEPTH : Z := 0x74.
Definition OP_DROP : Z := 0x75.
Definition OP_DUP : Z := 0x76.
Definition OP_NIP : Z := 0x77.
Definition OP_OVER : Z := 0x78.
Definition OP_PICK : Z := 0x79.
Definition OP_ROLL : Z := 0x7a.
Definition OP_ROT : Z := 0x7b.
Definition OP_SWAP : Z := 0x7c.
Definition OP_TUCK : Z := 0x7d.
Definition OP_CAT : Z := 0x7e.
Definition OP_SUBSTR : Z := 0x7f.
Definition OP_LEFT : Z := 0x80.
Definition OP_RIGHT : Z := 0x81.
Definition OP_SIZE : Z := 0x82.
Definition OP_INVERT : Z := 0x83.
Definition OP_AND : Z := 0x84.
Definition OP_OR : Z := 0x85.
Definition OP_XOR : Z := 0x86.
Definition OP_EQUAL : Z := 0x87.
Definition OP_EQUALVERIFY : Z := 0x88.
Definition OP_RESERVED1 : Z := 0x89.
Definition OP_RESERVED2 : Z := 0x8a.
Definition OP_1ADD : Z := 0x8b.
Definition OP_1SUB : Z := 0x8c.
Definition OP_2MUL : Z := 0x8d.
Definition OP_2DIV : Z := 0x8e.
Definition OP_NEGATE : Z := 0x8f.
Definition OP_ABS : Z := 0x90.
Definition OP_NOT : Z := 0x91.
Definition OP_0NOTEQUAL : Z := 0x92.
Definition OP_ADD : Z := 0x93.
Definition OP_SUB : Z := 0x94.
Definition OP_MUL : Z := 0x95.
Definition OP_DIV : Z := 0x96.
Definition OP_MOD : Z := 0x97.
Definition OP_LSHIFT : Z := 0x98.
Definition OP_RSHIFT : Z := 0x99.
Definition OP_BOOLAND : Z := 0x9a.
Definition OP_BOOLOR : Z := 0x9b.
Definition OP_NUMEQUAL : Z := 0x9c.
Definition OP_NUMEQUALVERIFY : Z := 0x9d.
Definition OP_NUMNOTEQUAL : Z := 0x9e.
Definition OP_LESSTHAN : Z := 0x9f.
Definition OP_GREATERTHAN : Z := 0xa0.
Definition OP_LESSTHANOREQUAL : Z := 0xa1.
Definition OP_GREATERTHANOREQUAL : Z := 0xa2.
Definition OP_MIN : Z := 0xa3.
Definition OP_MAX : Z := 0xa4.
Definition OP_WITHIN : Z := 0xa5.
Definition OP_RIPEMD160 : Z := 0xa6.
Definition OP_SHA1 : Z := 0xa7.
Definition OP_SHA256 : Z := 0xa8.
Definition OP_HASH160 : Z := 0xa9.
Definition OP_HASH256 : Z := 0xaa.
Definition OP_CODESEPARATOR : Z := 0xab.
Definition OP_CHECKSIG : Z := 0xac.
Definition OP_CHECKSIGVERIFY : Z := 0xad.
Definition OP_CHECKMULTISIG : Z := 0xae.
Definition OP_CHECKMULTISIGVERIFY : Z := 0xaf.
Definition OP_NOP1 : Z := 0xb0.
Definition OP_CHECKLOCKTIMEVERIFY : Z := 0xb1.
Definition OP_NOP2 : Z := OP_CHECKLOCKTIMEVERIFY.
Definition OP_CHECKSEQUENCEVERIFY : Z := 0xb2.
Definition OP_NOP3 : Z := OP_CHECKSEQUENCEVERIFY.
Definition OP_NOP4 : Z := 0xb3.
Definition OP_NOP5 : Z := 0xb4.
Definition OP_NOP6 : Z := 0xb5.
Definition OP_NOP7 : Z := 0xb6.
Definition OP_NOP8 : Z := 0xb7.
Definition OP_NOP9 : Z := 0xb8.
Definition OP_NOP10 : Z := 0xb9.
Definition OP_BUYTICKET : Z := 0xba.
Definition OP_CREATE : Z := 0xc1.
Definition OP_CALL : Z := 0xc2.
Definition OP_SPEND : Z := 0xc3.
Definition OP_GAS_PRICE : Z := 0xf5.
Definition OP_VERSION : Z := 0xf6.
Definition OP_GAS_LIMIT : Z := 0xf7.
Definition OP_DATA : Z := 0xf8.
Definition OP_SMALLINTEGER : Z := 0xfa.
Definition OP_PUBKEYS : Z := 0xfb.
Definition OP_PUBKEYHASH : Z := 0xfd.
Definition OP_PUBKEY : Z := 0xfe.
Definition OP_INVALIDOPCODE : Z := 0xff.
Definition MAX_OPCODE : Z := OP_NOP10.

(** ** Script numbers

    A number is its [int64_t] value; [None] is the exception. *)
Fixpoint abs_bytes (fuel : nat) (absvalue : Z) : bytes :=
  match fuel with
  | O => []
  | S fuel' => if absvalue =? 0 then [] else Z.land absvalue 0xff :: abs_bytes fuel' (Z.shiftr absvalue 8)
  end.
Definition serialize_num (value : Z) : bytes :=
  if value =? 0 then []
  else
    let neg := value <? 0 in
    let absvalue := u64 (if neg then - value else value) in
    let result := abs_bytes 8 absvalue in
    let back := List.last result 0 in
    if negb (Z.land back 0x80 =? 0) then result ++ [if neg then 0x80 else 0]
    else if neg then removelast result ++ [Z.lor back 0x80]
    else result.

(** [result |= vch[i] << 8*i], as an unsigned word. *)
Fixpoint or_bytes (i : Z) (vch : bytes) (result : Z) : Z :=
  match vch with
  | [] => result
  | b :: r => or_bytes (i + 1) r (Z.lor result (u64 (Z.shiftl b (8 * i))))
  end.
Definition set_vch (vch : bytes) : Z :=
  if (length vch =? 0)%nat then 0
  else
    let result := or_bytes 0 vch 0 in
    if negb (Z.land (List.last vch 0) 0x80 =? 0) then
      - i64 (Z.land result (u64 (Z.lnot (Z.shiftl 0x80 (8 * (Z.of_nat (length vch) - 1))))))
    else i64 result.
Definition CScriptNum (vch : bytes) (fRequireMinimal : bool) (nMaxNumSize : nat) : option Z :=
  if (nMaxNumSize <? length vch)%nat then None
  else if fRequireMinimal && (0 <? length vch)%nat && (Z.land (List.last vch 0) 0x7f =? 0)
          && ((length vch <=? 1)%nat || (Z.land (nth (length vch - 2) vch 0) 0x80 =? 0)) then None
  else Some (set_vch vch).
Definition vch_to_uint64 (vch : bytes) : option Z :=
  if (8 <? length vch)%nat then None
  else if (length vch =? 0)%nat then Some 0
  else
    let result := or_bytes 0 vch 0 in
    if negb (Z.land (List.last vch 0) 0x80 =? 0) then None else Some result.
Definition getint (m_value : Z) : Z :=
  if m_value >? 2147483647 then 2147483647 else if m_value <? -2147483648 then -2147483648 else m_value.

(** ** Building scripts *)
Definition push_data (s b : bytes) : bytes :=
  let n := Z.of_nat (length b) in
  s ++ (if n <? OP_PUSHDATA1 then [u8 n]
        else if n <=? 0xff then [OP_PUSHDATA1; u8 n]
        else if n <=? 0xffff then OP_PUSHDATA2 :: WriteLE16 (u16 n)
        else OP_PUSHDATA4 :: WriteLE32 (u32 n)) ++ b.
(** [None] is the exception. *)
Definition push_opcode (s : bytes) (opcode : Z) : option bytes :=
  if (opcode <? 0) || (opcode >? 0xff) then None else Some (s ++ [opcode]).
Definition push_int64 (s : bytes) (n : Z) : bytes :=
  if (n =? -1) || ((n >=? 1) && (n <=? 16)) then s ++ [u8 (n + (OP_1 - 1))]
  else if n =? 0 then s ++ [OP_0]
  else push_data s (serialize_num n).
Definition push_num (s : bytes) (n : Z) : bytes := push_data s (serialize_num n).

(** ** Reading instructions *)

(** The size of an immediate operand and what follows its length field. *)
Definition operand_size (opcode : Z) (pc : bytes) : option (Z * bytes) :=
  if opcode <? OP_PUSHDATA1 then Some (opcode, pc)
  else if opcode =? OP_PUSHDATA1 then
    if Z.of_nat (length pc) <? 1 then None else Some (char_at pc 0, drop 1 pc)
  else if opcode =? OP_PUSHDATA2 then
    if Z.of_nat (length pc) <? 2 then None else Some (ReadLE16 pc, drop 2 pc)
  else
    if Z.of_nat (length pc) <? 4 then None else Some (ReadLE32 pc, drop 4 pc).
Definition GetOp2 (pc : bytes) : option (Z * bytes * bytes) :=
  match pc with
  | [] => None
  | opcode :: pc =>
      if opcode <=? OP_PUSHDATA4 then
        '(nSize, pc) ← operand_size opcode pc;
        if Z.of_nat (length pc) <? nSize then None
        else Some (opcode, take (Z.to_nat nSize) pc, drop (Z.to_nat nSize) pc)
      else Some (opcode, [], pc)
  end.

Definition DecodeOP_N (opcode : Z) : option Z :=
  if opcode =? OP_0 then Some 0
  else if (opcode >=? OP_1) && (opcode <=? OP_16) then Some (opcode - (OP_1 - 1)) else None.
Definition EncodeOP_N (n : Z) : option Z :=
  if negb ((n >=? 0) && (n <=? 16)) then None
  else if n =? 0 then Some OP_0 else Some (OP_1 + n - 1).

(** ** Scans

    Each loop ends at the end of the script or at an instruction that cannot be
    read; the fuel is the length of the script. *)
Fixpoint GetSigOpCount_loop (fuel : nat) (fAccurate : bool) (pc : bytes) (lastOpcode n : Z) : option Z :=
  match pc with
  | [] => Some n
  | _ =>
      match GetOp2 pc with
      | None => Some n
      | Some (opcode, _, pc) =>
          n ← (if (opcode =? OP_CHECKSIG) || (opcode =? OP_CHECKSIGVERIFY) then Some (u32 (n + 1))
               else if (opcode =? OP_CHECKMULTISIG) || (opcode =? OP_CHECKMULTISIGVERIFY) then
                 if fAccurate && (lastOpcode >=? OP_1) && (lastOpcode <=? OP_16) then
                   d ← DecodeOP_N lastOpcode; Some (u32 (n + d))
                 else Some (u32 (n + MAX_PUBKEYS_PER_MULTISIG))
               else Some n);
          match fuel with O => None | S fuel' => GetSigOpCount_loop fuel' fAccurate pc opcode n end
      end
  end.
Definition GetSigOpCount (script : bytes) (fAccurate : bool) : option Z :=
  GetSigOpCount_loop (length script) fAccurate script OP_INVALIDOPCODE 0.

Definition IsPayToScriptHash (script : bytes) : bool :=
  (length script =? 23)%nat && (char_at script 0 =? OP_HASH160) && (char_at script 1 =? 0x14)
  && (char_at script 22 =? OP_EQUAL).

(** The last item pushed by [scriptSig]; [Some None] when the loop returns 0. *)
Fixpoint last_push (fuel : nat) (pc vData : bytes) : option (option bytes) :=
  match pc with
  | [] => Some (Some vData)
  | _ =>
      match GetOp2 pc with
      | None => Some None
      | Some (opcode, vData, pc) =>
          if opcode >? OP_16 then Some None
          else match fuel with O => None | S fuel' => last_push fuel' pc vData end
      end
  end.
Definition GetSigOpCount_p2sh (script scriptSig : bytes) : option Z :=
  if negb (IsPayToScriptHash script) then GetSigOpCount script true
  else
    r ← last_push (length scriptSig) scriptSig [];
    match r with
    | None => Some 0
    | Some vData => GetSigOpCount vData true
    end.

Definition IsPayToPubkey (script : bytes) : bool :=
  ((length script =? 35)%nat && (char_at script 0 =? 33) && (char_at script 34 =? OP_CHECKSIG)
   && ((char_at script 1 =? 0x02) || (char_at script 1 =? 0x03)))
  || ((length script =? 67)%nat && (char_at script 0 =? 65) && (char_at script 66 =? OP_CHECKSIG)
      && (char_at script 1 =? 0x04)).
Definition IsPayToPubkeyHash (script : bytes) : bool :=
  (length script =? 25)%nat && (char_at script 0 =? OP_DUP) && (char_at script 1 =? OP_HASH160)
  && (char_at script 2 =? 0x14) && (char_at script 23 =? OP_EQUALVERIFY) && (char_at script 24 =? OP_CHECKSIG).
Definition IsPayToWitnessScriptHash (script : bytes) : bool :=
  (length script =? 34)%nat && (char_at script 0 =? OP_0) && (char_at script 1 =? 0x20).
(** The version and the program. *)
Definition IsWitnessProgram (script : bytes) : option (Z * bytes) :=
  if (length script <? 4)%nat || (42 <? length script)%nat then None
  else if negb (char_at script 0 =? OP_0) && ((char_at script 0 <? OP_1) || (char_at script 0 >? OP_16)) then None
  else if char_at script 1 + 2 =? Z.of_nat (length script) then
    version ← DecodeOP_N (char_at script 0); Some (version, drop 2 script)
  else None.

Fixpoint IsPushOnly_loop (fuel : nat) (pc : bytes) : option bool :=
  match pc with
  | [] => Some true
  | _ =>
      match GetOp2 pc with
      | None => Some false
      | Some (opcode, _, pc) =>
          if opcode >? OP_16 then Some false
          else match fuel with O => None | S fuel' => IsPushOnly_loop fuel' pc end
      end
  end.
Definition IsPushOnly (script : bytes) : option bool := IsPushOnly_loop (length script) script.

Fixpoint HasValidOps_loop (fuel : nat) (it : bytes) : option bool :=
  match it with
  | [] => Some true
  | _ =>
      match GetOp2 it with
      | None => Some false
      | Some (opcode, item, it) =>
          if (opcode >? MAX_OPCODE) || (Z.of_nat (length item) >? MAX_SCRIPT_ELEMENT_SIZE) then Some false
          else match fuel with O => None | S fuel' => HasValidOps_loop fuel' it end
      end
  end.
Definition HasValidOps (script : bytes) : option bool := HasValidOps_loop (length script) script.

Fixpoint Find_loop (fuel : nat) (op : Z) (pc : bytes) (nFound : Z) : option Z :=
  match pc with
  | [] => Some nFound
  | _ =>
      match GetOp2 pc with
      | None => Some nFound
      | Some (opcode, _, pc) =>
          let nFound := if opcode =? op then nFound + 1 else nFound in
          match fuel with O => None | S fuel' => Find_loop fuel' op pc nFound end
      end
  end.
Definition Find (script : bytes) (op : Z) : option Z := Find_loop (length script) op script 0.

(** [FindAndDelete]: the occurrences of [b] at [pc] are skipped, then one
    instruction is copied. *)
Fixpoint skip_matches (fuel : nat) (b pc : bytes) (nFound : Z) : option (bytes * Z) :=
  if (length b <=? length pc)%nat && bool_decide (take (length b) pc = b) then
    match fuel with O => None | S fuel' => skip_matches fuel' b (drop (length b) pc) (nFound + 1) end
  else Some (pc, nFound).
(** [pc2] is the start of the part not yet copied. *)
Fixpoint FindAndDelete_loop (fuel : nat) (b pc2 pc result : bytes) (nFound : Z) : option (bytes * bytes * Z) :=
  let result := result ++ take (length pc2 - length pc) pc2 in
  '(pc, nFound) ← skip_matches (length pc) b pc nFound;
  match GetOp2 pc with
  | None => Some (result, pc, nFound)
  | Some (_, _, pc') => match fuel with O => None | S fuel' => FindAndDelete_loop fuel' b pc pc' result nFound end
  end.
Definition FindAndDelete (script b : bytes) : option (bytes * Z) :=
  if (length b =? 0)%nat then Some (script, 0)
  else
    '(result, pc2, nFound) ← FindAndDelete_loop (length script) b script script [] 0;
    if nFound >? 0 then Some (result ++ pc2, nFound) else Some (script, nFound).

Definition IsUnspendable (script : bytes) : bool :=
  ((0 <? length script)%nat && (char_at script 0 =? OP_RETURN)) || (Z.of_nat (length script) >? MAX_SCRIPT_SIZE).
Definition HasOpCreate (script : bytes) : option bool := n ← Find script OP_CREATE; Some (n =? 1).
Definition HasOpCall (script : bytes) : option bool := n ← Find script OP_CALL; Some (n =? 1).
Definition HasOpSpend (script : bytes) : bool := (length script =? 1)%nat && (char_at script 0 =? OP_SPEND).
(** The first byte of an empty script is whatever its buffer holds: [None]. *)
Definition HasOpSStx (script : bytes) : option bool :=
  match script with [] => None | c :: _ => Some (c =? OP_BUYTICKET) end.

(** ** Proofs: instructions *)

(** The bytes of an instruction with its operand. *)
Definition op_bytes (opcode : Z) (data : bytes) : bytes :=
  let n := Z.of_nat (length data) in
  opcode :: (if opcode <? OP_PUSHDATA1 then data
             else if opcode =? OP_PUSHDATA1 then u8 n :: data
             else if opcode =? OP_PUSHDATA2 then WriteLE16 n ++ data
             else if opcode =? OP_PUSHDATA4 then WriteLE32 n ++ data
             else data).
Definition op_ok (opcode : Z) (data : bytes) : Prop :=
  is_u8 opcode ∧ bytes_ok data ∧
  let n := Z.of_nat (length data) in
  if opcode <? OP_PUSHDATA1 then n = opcode
  else if opcode =? OP_PUSHDATA1 then n < 256
  else if opcode =? OP_PUSHDATA2 then n < 65536
  else if opcode =? OP_PUSHDATA4 then n < 4294967296
  else data = [].

Lemma opcode_cases op :
  op < OP_PUSHDATA1 ∨ op = OP_PUSHDATA1 ∨ op = OP_PUSHDATA2 ∨ op = OP_PUSHDATA4 ∨ OP_PUSHDATA4 < op.
Proof. unfold OP_PUSHDATA1, OP_PUSHDATA2, OP_PUSHDATA4. lia. Qed.

(** A length field of [k] bytes, read and written. *)
Lemma length_field k (pc : bytes) :
  bytes_ok pc → (k ≤ length pc)%nat →
  pc = to_digits 256 k (from_digits 256 (take k pc)) ++ drop k pc ∧ 0 ≤ from_digits 256 (take k pc) < 256 ^ Z.of_nat k.
Proof.
  intros Hb Hk. assert (Ht : bytes_ok (take k pc)) by (by apply Forall_take).
  assert (Hl : length (take k pc) = k) by (rewrite length_take; lia). split.
  - rewrite <- Hl at 1. rewrite to_from_digits by (lia || done). by rewrite take_drop.
  - rewrite <- Hl at 3. by apply from_digits_bound.
Qed.
Lemma take_written k n (s : bytes) : 0 ≤ n < 256 ^ Z.of_nat k →
  from_digits 256 (take k (to_digits 256 k n ++ s)) = n ∧ drop k (to_digits 256 k n ++ s) = s.
Proof.
  intros Hn. rewrite take_app_length', drop_app_length' by (by rewrite length_to_digits).
  split; [by apply to_digits_small|done].
Qed.

Lemma take_data n (data rest : bytes) : n = Z.of_nat (length data) →
  (Z.of_nat (length (data ++ rest)) <? n) = false ∧ take (Z.to_nat n) (data ++ rest) = data ∧ drop (Z.to_nat n) (data ++ rest) = rest.
Proof.
  intros ->. rewrite Nat2Z.id, take_app_length, drop_app_length, length_app. split_and!; [lia|done|done].
Qed.

(** Writing then reading. *)
Lemma GetOp2_op_bytes op data rest : op_ok op data → GetOp2 (op_bytes op data ++ rest) = Some (op, data, rest).
Proof.
  intros (Hop & Hd & Hn). unfold op_bytes, GetOp2, operand_size. cbn [app].
  destruct (opcode_cases op) as [H|[->|[->|[->|H]]]]; cbn [mbind option_bind].
  - replace (op <? OP_PUSHDATA1) with true in * by lia. replace (op <=? OP_PUSHDATA4) with true by (unfold OP_PUSHDATA1, OP_PUSHDATA4 in *; lia).
    destruct (take_data op data rest (eq_sym Hn)) as (E1 & E2 & E3). cbn [mbind option_bind]. by rewrite E1, E2, E3.
  - cbn in Hn. change (OP_PUSHDATA1 <=? OP_PUSHDATA4) with true. change (OP_PUSHDATA1 <? OP_PUSHDATA1) with false.
    rewrite Z.eqb_refl. cbn [app length]. replace (_ <? 1) with false by lia. cbn [char_at nth drop mbind option_bind].
    rewrite u8_small, drop_0 by word_lia. destruct (take_data _ data rest eq_refl) as (E1 & E2 & E3). by rewrite E1, E2, E3.
  - cbn in Hn. change (OP_PUSHDATA2 <=? OP_PUSHDATA4) with true. change (OP_PUSHDATA2 <? OP_PUSHDATA1) with false.
    change (OP_PUSHDATA2 =? OP_PUSHDATA1) with false. rewrite Z.eqb_refl. unfold ReadLE16, WriteLE16. rewrite <- app_assoc.
    destruct (take_written 2 (Z.of_nat (length data)) (data ++ rest) ltac:(cbn; lia)) as [-> ->].
    rewrite length_app, length_to_digits. replace (_ <? 2) with false by lia. cbn [mbind option_bind].
    destruct (take_data _ data rest eq_refl) as (E1 & E2 & E3). by rewrite E1, E2, E3.
  - cbn in Hn. change (OP_PUSHDATA4 <=? OP_PUSHDATA4) with true. change (OP_PUSHDATA4 <? OP_PUSHDATA1) with false.
    change (OP_PUSHDATA4 =? OP_PUSHDATA1) with false. change (OP_PUSHDATA4 =? OP_PUSHDATA2) with false. rewrite Z.eqb_refl.
    unfold ReadLE32, WriteLE32. rewrite <- app_assoc.
    destruct (take_written 4 (Z.of_nat (length data)) (data ++ rest) ltac:(cbn; lia)) as [-> ->].
    rewrite length_app, length_to_digits. replace (_ <? 4) with false by lia. cbn [mbind option_bind].
    destruct (take_data _ data rest eq_refl) as (E1 & E2 & E3). by rewrite E1, E2, E3.
  - unfold OP_PUSHDATA1, OP_PUSHDATA2, OP_PUSHDATA4 in *.
    replace (op <? 0x4c) with false in * by lia. replace (op =? 0x4c) with false in * by lia.
    replace (op =? 0x4d) with false in * by lia. replace (op =? 0x4e) with false in * by lia. replace (op <=? 0x4e) with false by lia.
    by subst data.
Qed.

(** Reading then writing. *)
Lemma split_data n (pc : bytes) (op : Z) (rest' data : bytes) :
  bytes_ok pc → 0 ≤ n →
  (if Z.of_nat (length pc) <? n then None else Some (op, take (Z.to_nat n) pc, drop (Z.to_nat n) pc)) = Some (op, data, rest') →
  pc = data ++ rest' ∧ Z.of_nat (length data) = n ∧ bytes_ok data.
Proof.
  intros Hb Hn. destruct (Z.ltb_spec (Z.of_nat (length pc)) n) as [|Hle]; [done|]. intros [= <- <-].
  rewrite take_drop, length_take. split_and!; [done|lia|by apply Forall_take].
Qed.

Lemma GetOp2_inv pc op data rest :
  bytes_ok pc → GetOp2 pc = Some (op, data, rest) → op_ok op data ∧ pc = op_bytes op data ++ rest.
Proof.
  intros Hb. destruct pc as [|op' pc]; [done|]. apply bytes_ok_cons in Hb as [Hop Hb]. unfold GetOp2, op_ok, op_bytes.
  destruct (opcode_cases op') as [H|[->|[->|[->|H]]]].
  - replace (op' <=? OP_PUSHDATA4) with true by (unfold OP_PUSHDATA1, OP_PUSHDATA4 in *; lia). unfold operand_size.
    replace (op' <? OP_PUSHDATA1) with true by lia. cbn [mbind option_bind]. intros E.
    assert (op' = op) as <- by (destruct (_ <? op'); congruence).
    destruct (split_data op' pc op' rest data Hb ltac:(word_lia) E) as (-> & Hl & Hd).
    replace (op' <? OP_PUSHDATA1) with true by lia. by split_and!.
  - change (OP_PUSHDATA1 <=? OP_PUSHDATA4) with true. unfold operand_size. change (OP_PUSHDATA1 <? OP_PUSHDATA1) with false.
    rewrite Z.eqb_refl. destruct pc as [|n pc]; [done|]. apply bytes_ok_cons in Hb as [Hn Hb]. cbn [length].
    replace (Z.of_nat (S (length pc)) <? 1) with false by lia. cbn [char_at nth drop mbind option_bind]. rewrite drop_0. intros E.
    assert (OP_PUSHDATA1 = op) as <- by (destruct (_ <? n); congruence).
    destruct (split_data n pc _ rest data Hb ltac:(word_lia) E) as (-> & Hl & Hd). cbn. rewrite Hl, u8_small by done.
    split_and!; [word_lia|done|word_lia|done].
  - change (OP_PUSHDATA2 <=? OP_PUSHDATA4) with true. unfold operand_size. change (OP_PUSHDATA2 <? OP_PUSHDATA1) with false.
    change (OP_PUSHDATA2 =? OP_PUSHDATA1) with false. rewrite Z.eqb_refl.
    destruct (Z.ltb_spec (Z.of_nat (length pc)) 2) as [|H2]; [done|]. cbn [mbind option_bind].
    destruct (length_field 2 pc Hb ltac:(lia)) as [Epc Hn]. unfold ReadLE16. set (n := from_digits 256 (take 2 pc)) in *. intros E.
    assert (OP_PUSHDATA2 = op) as <- by (destruct (_ <? n); congruence).
    destruct (split_data n (drop 2 pc) _ rest data ltac:(by apply Forall_drop) ltac:(lia) E) as (Ed & Hl & Hd).
    rewrite Ed in Epc. change (OP_PUSHDATA2 <? OP_PUSHDATA1) with false. change (OP_PUSHDATA2 =? OP_PUSHDATA1) with false. rewrite Z.eqb_refl.
    rewrite Hl. unfold WriteLE16. cbn [app]. rewrite <- app_assoc, <- Epc. cbn in Hn. split_and!; [word_lia|done|lia|done].
  - change (OP_PUSHDATA4 <=? OP_PUSHDATA4) with true. unfold operand_size. change (OP_PUSHDATA4 <? OP_PUSHDATA1) with false.
    change (OP_PUSHDATA4 =? OP_PUSHDATA1) with false. change (OP_PUSHDATA4 =? OP_PUSHDATA2) with false.
    destruct (Z.ltb_spec (Z.of_nat (length pc)) 4) as [|H2]; [done|]. cbn [mbind option_bind].
    destruct (length_field 4 pc Hb ltac:(lia)) as [Epc Hn]. unfold ReadLE32. set (n := from_digits 256 (take 4 pc)) in *. intros E.
    assert (OP_PUSHDATA4 = op) as <- by (destruct (_ <? n); congruence).
    destruct (split_data n (drop 4 pc) _ rest data ltac:(by apply Forall_drop) ltac:(lia) E) as (Ed & Hl & Hd).
    rewrite Ed in Epc. change (OP_PUSHDATA4 <? OP_PUSHDATA1) with false. change (OP_PUSHDATA4 =? OP_PUSHDATA1) with false.
    change (OP_PUSHDATA4 =? OP_PUSHDATA2) with false. rewrite Z.eqb_refl.
    rewrite Hl. unfold WriteLE32. cbn [app]. rewrite <- app_assoc, <- Epc. cbn in Hn. split_and!; [word_lia|done|lia|done].
  - unfold OP_PUSHDATA1, OP_PUSHDATA2, OP_PUSHDATA4 in *. replace (op' <=? 0x4e) with false by lia. intros [= <- <- <-].
    replace (op' <? 0x4c) with false by lia. replace (op' =? 0x4c) with false by lia.
    replace (op' =? 0x4d) with false by lia. replace (op' =? 0x4e) with false by lia. split_and!; [done|apply bytes_ok_nil|done|done].
Qed.

Lemma GetOp2_shorter pc op data rest : GetOp2 pc = Some (op, data, rest) → (length rest < length pc)%nat.
Proof.
  destruct pc as [|op' pc]; [done|]. unfold GetOp2, operand_size. cbn [length].
  assert (Hd : ∀ k (l : bytes), (length (drop k l) ≤ length l)%nat) by (intros; rewrite length_drop; lia).
  repeat (match goal with |- context [if ?c then _ else _] => destruct c end; cbn [mbind option_bind]; try done);
    intros [= _ _ <-].
  - pose proof (Hd (Z.to_nat op') pc). lia.
  - pose proof (Hd (Z.to_nat (char_at pc 0)) (drop 1 pc)). pose proof (Hd 1%nat pc). lia.
  - pose proof (Hd (Z.to_nat (ReadLE16 pc)) (drop 2 pc)). pose proof (Hd 2%nat pc). lia.
  - pose proof (Hd (Z.to_nat (ReadLE32 pc)) (drop 4 pc)). pose proof (Hd 4%nat pc). lia.
  - lia.
Qed.

(** ** Proofs: scans *)

(** The instructions of a script, and what is left where reading stops. *)
Fixpoint script_ops (fuel : nat) (pc : bytes) : list (Z * bytes) * bytes :=
  match GetOp2 pc, fuel with
  | Some (op, data, rest), S fuel' => let '(l, r) := script_ops fuel' rest in ((op, data) :: l, r)
  | _, _ => ([], pc)
  end.
Definition print_ops (l : list (Z * bytes)) : bytes := concat (map (λ o, op_bytes (fst o) (snd o)) l).

Lemma script_ops_spec fuel pc :
  bytes_ok pc → (length pc ≤ fuel)%nat →
  let '(l, r) := script_ops fuel pc in
  pc = print_ops l ++ r ∧ Forall (λ o, op_ok (fst o) (snd o)) l ∧ GetOp2 r = None.
Proof.
  revert pc. induction fuel as [|fuel IH]; intros pc Hb Hf.
  - destruct pc; [by split_and!|cbn in Hf; lia].
  - cbn [script_ops]. destruct (GetOp2 pc) as [[[op data] rest]|] eqn:E; [|by split_and!].
    pose proof (GetOp2_shorter _ _ _ _ E). destruct (GetOp2_inv _ _ _ _ Hb E) as [Ho Epc].
    assert (Hr : bytes_ok rest) by (rewrite Epc in Hb; by apply bytes_ok_app in Hb as [_ ?]).
    specialize (IH rest Hr ltac:(lia)). destruct (script_ops fuel rest) as [l r]. destruct IH as (E1 & E2 & E3).
    unfold print_ops in *. cbn [map concat fst snd]. rewrite <- app_assoc, <- E1. split_and!; [done|by constructor|done].
Qed.

(** Legacy and accurate signature operation counts of an instruction list. *)
Fixpoint sigops (fAccurate : bool) (last : Z) (l : list (Z * bytes)) : Z :=
  match l with
  | [] => 0
  | (op, _) :: l' =>
      (if (op =? OP_CHECKSIG) || (op =? OP_CHECKSIGVERIFY) then 1
       else if (op =? OP_CHECKMULTISIG) || (op =? OP_CHECKMULTISIGVERIFY) then
         if fAccurate && (last >=? OP_1) && (last <=? OP_16) then last - (OP_1 - 1) else 20
       else 0) + sigops fAccurate op l'
  end.

Lemma GetSigOpCount_loop_spec fuel acc pc last n :
  (length pc ≤ fuel)%nat → is_u32 n →
  GetSigOpCount_loop fuel acc pc last n = Some (u32 (n + sigops acc last (fst (script_ops fuel pc)))).
Proof.
  revert pc last n. induction fuel as [|fuel IH]; intros pc last n Hf Hn.
  - destruct pc; [cbn; by rewrite Z.add_0_r, u32_small|cbn in Hf; lia].
  - destruct pc as [|c pc]; [cbn; by rewrite Z.add_0_r, u32_small|]. cbn [GetSigOpCount_loop script_ops].
    destruct (GetOp2 (c :: pc)) as [[[op data] rest]|] eqn:E; [|cbn; by rewrite Z.add_0_r, u32_small].
    pose proof (GetOp2_shorter _ _ _ _ E). cbn [length] in *.
    specialize (IH rest op). destruct (script_ops fuel rest) as [l r]. cbn [fst sigops] in *.
    assert (Hstep : ∀ d, GetSigOpCount_loop fuel acc rest op (u32 (n + d)) = Some (u32 (n + (d + sigops acc op l)))).
    { intros d. rewrite IH, u32_add_l by (lia || apply u32_range). do 2 f_equal. lia. }
    destruct (_ || _); cbn [mbind option_bind]; [apply Hstep|].
    destruct (_ || _); cbn [mbind option_bind]; [|rewrite <- (u32_small n) at 1 by done; rewrite <- (Z.add_0_r n) at 1; apply Hstep].
    destruct (acc && (last >=? OP_1) && (last <=? OP_16)) eqn:Eacc; cbn [mbind option_bind]; [|apply Hstep].
    unfold DecodeOP_N. replace (last =? OP_0) with false by (unfold OP_0, OP_1 in *; lia).
    replace (_ && _) with true by lia. cbn [mbind option_bind]. apply Hstep.
Qed.

(** Scans that stop at the first instruction that fails a test. *)
Lemma scan_all (p : Z → bytes → bool) (loop : nat → bytes → option bool) :
  (∀ fuel, loop fuel [] = Some true) →
  (∀ fuel pc, pc ≠ [] → loop fuel pc =
     match GetOp2 pc with
     | None => Some false
     | Some (op, data, rest) =>
         if negb (p op data) then Some false
         else match fuel with O => None | S fuel' => loop fuel' rest end
     end) →
  ∀ fuel pc, (length pc ≤ fuel)%nat →
  loop fuel pc = Some (forallb (λ o, p (fst o) (snd o)) (fst (script_ops fuel pc)) && (length (snd (script_ops fuel pc)) =? 0)%nat).
Proof.
  intros H0 H1. induction fuel as [|fuel IH]; intros pc Hf.
  - destruct pc; [by rewrite H0|cbn in Hf; lia].
  - destruct pc as [|c pc]; [by rewrite H0|]. rewrite H1 by done. cbn [script_ops].
    destruct (GetOp2 (c :: pc)) as [[[op data] rest]|] eqn:E; [|done].
    pose proof (GetOp2_shorter _ _ _ _ E). cbn [length] in *.
    destruct (p op data) eqn:Ep; cbn [negb].
    + rewrite IH by lia. destruct (script_ops fuel rest) as [l r]. cbn [fst snd forallb]. by rewrite Ep.
    + destruct (script_ops fuel rest) as [l r]. cbn [fst snd forallb]. by rewrite Ep.
Qed.

Lemma Find_loop_spec fuel op pc n :
  (length pc ≤ fuel)%nat →
  Find_loop fuel op pc n = Some (n + Z.of_nat (length (filter (λ o, fst o = op) (fst (script_ops fuel pc))))).
Proof.
  revert pc n. induction fuel as [|fuel IH]; intros pc n Hf.
  - destruct pc; [cbn; f_equal; lia|cbn in Hf; lia].
  - destruct pc as [|c pc]; [cbn; f_equal; lia|]. cbn [Find_loop script_ops].
    destruct (GetOp2 (c :: pc)) as [[[op' data] rest]|] eqn:E; [|cbn; f_equal; lia].
    pose proof (GetOp2_shorter _ _ _ _ E). cbn [length] in *. rewrite IH by lia.
    destruct (script_ops fuel rest) as [l r]. cbn [fst]. rewrite filter_cons. cbn [fst].
    destruct (Z.eqb_spec op' op), (decide (op' = op)); try done; cbn [length]; f_equal; lia.
Qed.

(** Deleting removes whole occurrences and nothing else. *)
Lemma skip_matches_spec fuel b pc n :
  (0 < length b)%nat → (length pc ≤ fuel)%nat →
  ∃ k pc', skip_matches fuel b pc n = Some (pc', n + Z.of_nat k) ∧ pc = concat (replicate k b) ++ pc' ∧
    ¬ (∃ t, pc' = b ++ t).
Proof.
  intros Hb. revert pc n. induction fuel as [|fuel IH]; intros pc n Hf.
  - destruct pc; [|cbn in Hf; lia]. exists 0%nat, []. cbn. replace (length b <=? 0)%nat with false by lia. cbn.
    split_and!; [do 2 f_equal; lia|done|]. intros [t Ht%(f_equal length)]. rewrite length_app in Ht. cbn in Ht. lia.
  - cbn [skip_matches]. destruct ((length b <=? length pc)%nat && bool_decide (take (length b) pc = b)) eqn:E.
    + apply andb_true_iff in E as [E1 E2%bool_decide_eq_true].
      destruct (IH (drop (length b) pc) (n + 1)) as (k & pc' & -> & E3 & E4); [rewrite length_drop; lia|].
      exists (S k), pc'. split_and!; [do 2 f_equal; lia| |done]. cbn [replicate concat]. rewrite <- app_assoc, <- E3.
      rewrite <- E2 at 1. by rewrite take_drop.
    + exists 0%nat, pc. split_and!; [do 2 f_equal; lia|done|]. intros [t ->]. rewrite take_app_length, bool_decide_eq_true_2 in E by done.
      rewrite length_app in E. lia.
Qed.
Lemma take_prefix (s1 s2 : bytes) : take (length (s1 ++ s2) - length s2) (s1 ++ s2) = s1.
Proof. rewrite length_app, Nat.add_sub. apply take_app_length. Qed.
Lemma GetOp2_suffix pc op data rest : GetOp2 pc = Some (op, data, rest) → ∃ s, pc = s ++ rest.
Proof.
  destruct pc as [|op' pc]; [done|]. unfold GetOp2, operand_size.
  assert (Hd : ∀ k (l : bytes), ∃ s, op' :: l = s ++ drop k l).
  { intros k l. exists (op' :: take k l). cbn. by rewrite take_drop. }
  assert (Hd2 : ∀ j k (l : bytes), ∃ s, op' :: l = s ++ drop k (drop j l)).
  { intros j k l. rewrite drop_drop. apply Hd. }
  repeat (match goal with |- context [if ?c then _ else _] => destruct c end; cbn [mbind option_bind]; try done);
    intros [= _ _ <-]; [apply Hd|apply Hd2..|by exists [op']].
Qed.

Lemma FindAndDelete_loop_spec fuel b s1 pc result n :
  (0 < length b)%nat → (length pc ≤ fuel)%nat →
  ∃ parts ks pc' , FindAndDelete_loop fuel b (s1 ++ pc) pc result n =
      Some (result ++ concat parts, pc', n + Z.of_nat (sum_list ks)) ∧ length parts = length ks ∧
    s1 ++ pc = concat (zip_with (λ p k, p ++ concat (replicate k b)) parts ks) ++ pc'.
Proof.
  intros Hb. revert s1 pc result n. induction fuel as [|fuel IH]; intros s1 pc result n Hf; cbn [FindAndDelete_loop];
    rewrite take_prefix; destruct (skip_matches_spec (length pc) b pc n Hb ltac:(lia)) as (k & pc' & Ek & Epc & Hno);
    rewrite Ek; cbn [mbind option_bind].
  - assert (pc = []) as -> by (destruct pc; [done|cbn in Hf; lia]). symmetry in Epc. apply app_eq_nil in Epc as [Ec ->].
    exists [s1], [k], []. cbn. rewrite Ec, !app_nil_r. split_and!; [do 3 f_equal; lia|done|done].
  - destruct (GetOp2 pc') as [[[op data] rest]|] eqn:E.
    + pose proof (GetOp2_shorter _ _ _ _ E). destruct (GetOp2_suffix _ _ _ _ E) as [s2 E2].
      assert (length rest ≤ fuel)%nat by (rewrite Epc, length_app in Hf; lia).
      rewrite E2. destruct (IH s2 rest (result ++ s1) (n + Z.of_nat k)) as (parts & ks & pc2 & E3 & E4 & E5); [done|].
      exists (s1 :: parts), (k :: ks), pc2. rewrite E3. change (sum_list (k :: ks)) with (k + sum_list ks)%nat.
      rewrite Nat2Z.inj_add, Z.add_assoc. cbn [concat zip_with length]. rewrite <- app_assoc, E4. split_and!; [done|done|].
      rewrite <- !app_assoc, <- E5, <- E2. by rewrite Epc.
    + exists [s1], [k], pc'. cbn. rewrite !app_nil_r. split_and!; [do 2 f_equal; lia|done|]. rewrite <- app_assoc. by rewrite Epc.
Qed.

(** ** Proofs: numbers *)

Lemma land_byte x : Z.land x 0xff = x mod 256.
Proof. by rewrite (land_mask x 8 0xff). Qed.

(** The bytes of a positive number, without leading zeros. *)
Lemma abs_bytes_digits fuel l : bytes_ok l → (length l ≤ fuel)%nat → List.last l 1 ≠ 0 → abs_bytes fuel (from_digits 256 l) = l.
Proof.
  revert l. induction fuel as [|fuel IH]; intros l Hb Hf Hl; [by destruct l; [|cbn in Hf; lia]|].
  destruct l as [|b l]; [done|]. apply bytes_ok_cons in Hb as [Hb0 Hb]. cbn [from_digits abs_bytes].
  pose proof (from_digits_bound 256 ltac:(lia) l Hb) as Hx. set (x := from_digits 256 l) in *.
  assert (Hne : b + 256 * x ≠ 0).
  { intros Hz. assert (b = 0 ∧ x = 0) as [-> Ex] by word_lia. destruct l as [|c l]; [done|].
    assert (Hz' : c :: l = replicate (length (c :: l)) 0).
    { apply (from_digits_inj 256 ltac:(lia)); [done| |by rewrite length_replicate|by rewrite from_digits_zeros].
      clear. induction (length (c :: l)) as [|n IHn]; cbn; constructor; [lia|done]. }
    apply Hl. change (List.last (0 :: c :: l) 1) with (List.last (c :: l) 1). rewrite Hz'.
    clear. cbn [length]. induction (length l) as [|n IHn]; [done|]. exact IHn. }
  replace (_ =? 0) with false by lia. rewrite land_byte, shr_div by lia. change (2 ^ 8) with 256.
  rewrite (Z.mul_comm 256), Z.mod_add, Z.div_add, Z.mod_small, Z.div_small by word_lia. f_equal.
  apply IH; [done|cbn in Hf; lia|]. by destruct l.
Qed.

Lemma abs_bytes_0 fuel : abs_bytes fuel 0 = [].
Proof. by destruct fuel. Qed.
Lemma abs_bytes_spec fuel x : 0 ≤ x < 256 ^ Z.of_nat fuel →
  let l := abs_bytes fuel x in bytes_ok l ∧ from_digits 256 l = x ∧ List.last l 1 ≠ 0 ∧ (length l ≤ fuel)%nat ∧
  (x ≠ 0 → 256 ^ (Z.of_nat (length l) - 1) ≤ x).
Proof.
  revert x. induction fuel as [|fuel IH]; intros x Hx l; [cbn in Hx; subst l; cbn; split_and!; [apply bytes_ok_nil|lia|lia|lia|lia]|].
  unfold l. cbn [abs_bytes]. destruct (Z.eqb_spec x 0) as [->|Hne]; [cbn; split_and!; [apply bytes_ok_nil|lia|lia|lia|lia]|].
  rewrite land_byte, shr_div by lia. change (2 ^ 8) with 256. rewrite Nat2Z.inj_succ, Z.pow_succ_r in Hx by lia.
  destruct (IH (x / 256)) as (H1 & H2 & H3 & H4 & H5); [split; [apply Z.div_pos; lia|apply Z.div_lt_upper_bound; lia]|].
  set (r := abs_bytes fuel (x / 256)) in *. cbn [from_digits length]. split_and!.
  - apply bytes_ok_cons. split; [apply Z.mod_pos_bound; lia|done].
  - rewrite H2. zlin.
  - destruct r as [|c r'] eqn:Er; [|exact H3]. cbn in H2 |- *. zlin.
  - lia.
  - intros _. destruct (Z.eq_dec (x / 256) 0) as [Hz|Hz].
    + assert (r = []) as -> by (unfold r; rewrite Hz; apply abs_bytes_0). change (256 ^ _) with 1. lia.
    + specialize (H5 Hz). replace (Z.of_nat (S (length r)) - 1) with (Z.succ (Z.of_nat (length r) - 1)) by lia.
      destruct r as [|c r']; [cbn in H2; lia|]. rewrite Z.pow_succ_r by (cbn [length]; lia). zlin.
Qed.

(** The unsigned value of up to eight bytes. *)
Lemma or_bytes_spec i vch acc :
  bytes_ok vch → 0 ≤ i → i + Z.of_nat (length vch) ≤ 8 → 0 ≤ acc < 2 ^ (8 * i) →
  or_bytes i vch acc = acc + 2 ^ (8 * i) * from_digits 256 vch.
Proof.
  revert i acc. induction vch as [|b vch IH]; intros i acc Hb Hi Hl Ha; [cbn; lia|].
  apply bytes_ok_cons in Hb as [Hb0 Hb]. cbn [or_bytes from_digits length] in *.
  assert (HP : 0 < 2 ^ (8 * i)) by (apply Z.pow_pos_nonneg; lia).
  assert (HP8 : 2 ^ (8 * (i + 1)) = 2 ^ (8 * i) * 256) by (rewrite Z.mul_add_distr_l, Z.pow_add_r by lia; done).
  assert (HP64 : 2 ^ (8 * (i + 1)) ≤ 2 ^ 64) by (apply Z.pow_le_mono_r; lia).
  rewrite u64_small, lor_add_disjoint by (unfold is_u64; rewrite ?Z.shiftl_mul_pow2; unfold is_u8 in *; nia || lia).
  rewrite IH by (done || unfold is_u8 in *; nia || lia). rewrite HP8. lia.
Qed.

(** Sign and magnitude. *)
Lemma last_split (l : bytes) d : l ≠ [] → l = removelast l ++ [List.last l d].
Proof. apply app_removelast_last. Qed.
Lemma from_digits_snoc l b : from_digits 256 (l ++ [b]) = from_digits 256 l + 256 ^ Z.of_nat (length l) * b.
Proof. rewrite from_digits_app. cbn. lia. Qed.

Lemma set_vch_snoc l b :
  bytes_ok l → is_u8 b → (length l ≤ 7)%nat →
  set_vch (l ++ [b]) =
  let a := from_digits 256 l + 256 ^ Z.of_nat (length l) * (b mod 128) in if 128 <=? b then - a else a.
Proof.
  intros Hl Hb Hlen. unfold set_vch. rewrite length_app. cbn [length]. replace (length l + 1 =? 0)%nat with false by lia.
  rewrite last_last, or_bytes_spec by (try (apply bytes_ok_app; split; [done|by apply bytes_ok_1]); rewrite ?length_app; cbn; lia).
  rewrite from_digits_snoc, Z.add_0_l. change (2 ^ (8 * 0)) with 1. rewrite Z.mul_1_l.
  pose proof (from_digits_bound 256 ltac:(lia) l Hl) as Hx. set (x := from_digits 256 l) in *.
  set (P := 256 ^ Z.of_nat (length l)) in *. assert (HP : 0 < P ≤ 2 ^ 56).
  { unfold P. change 256 with (2 ^ 8). rewrite <- Z.pow_mul_r by lia. split; [apply Z.pow_pos_nonneg; lia|apply Z.pow_le_mono_r; lia]. }
  assert (Hbit : Z.land b 0x80 = (b / 128) * 128).
  { pose proof (forall_below 256 (λ b, Z.land b 0x80 =? (b / 128) * 128) b eq_refl Hb) as H. cbv beta in H. lia. }
  assert (Hmod : b mod 128 = b - 128 * (b / 128)) by (rewrite Z.mod_eq by lia; lia). unfold is_u8 in Hb.
  rewrite Hbit. destruct (Z.leb_spec 128 b) as [Hge|Hlt]; cbv zeta.
  - assert (Hd : b / 128 = 1) by zlin. rewrite Hd in *. change (negb (1 * 128 =? 0)) with true. cbv iota.
    assert (Hmask : Z.land (x + P * b) (u64 (Z.lnot (Z.shiftl 0x80 (8 * (Z.of_nat (length l + 1) - 1))))) = x + P * (b mod 128)).
    { replace (8 * (Z.of_nat (length l + 1) - 1)) with (8 * Z.of_nat (length l)) by lia.
      rewrite Z.shiftl_mul_pow2 by lia. set (k := 8 * Z.of_nat (length l)).
      assert (EP : P = 2 ^ k) by (unfold P, k; rewrite Z.pow_mul_r by lia; done). replace (0x80 * 2 ^ k) with (2 ^ (k + 7)) by (rewrite Z.pow_add_r by lia; lia).
      unfold u64. change 18446744073709551616 with (2 ^ 64).
      rewrite <- Z.land_ones, (Z.land_comm _ (Z.ones 64)), Z.land_assoc, Z.land_ones, Z.mod_small by (lia || nia).
      rewrite <- Z.ldiff_land.
      assert (Elow : x + P * b = x + P * (b mod 128) + 2 ^ (k + 7)) by (rewrite Hmod, EP, Z.pow_add_r by lia; lia).
      rewrite Elow. set (y := x + P * (b mod 128)). assert (Hy : 0 ≤ y < 2 ^ (k + 7)) by (unfold y; rewrite Z.pow_add_r, <- EP by lia; zlin || nia).
      rewrite <- (Z.mul_1_l (2 ^ (k + 7))) at 1. rewrite <- lor_add_disjoint by lia. rewrite Z.shiftl_1_l.
      apply Z.bits_inj'. intros j Hj. rewrite Z.ldiff_spec, Z.lor_spec, Z.pow2_bits_eqb by lia.
      destruct (Z.eqb_spec (k + 7) j) as [<-|]; cbn; rewrite ?orb_true_r, ?orb_false_r, ?andb_true_r, ?andb_false_r; [|done].
      symmetry. by apply (testbit_high y (k + 7)); [done|unfold k; lia|lia]. }
    rewrite Hmask, i64_small; [done|]. split; [nia|]. assert (P * (b mod 128) ≤ P * 127) by nia. nia.
  - assert (Hd : b / 128 = 0) by zlin. rewrite Hd in *. change (negb (0 * 128 =? 0)) with false. cbv iota.
    assert (P * b ≤ P * 127) by nia. rewrite i64_small by (split; nia). by replace (b mod 128) with b by lia.
Qed.

(** No superfluous last byte. *)
Definition minimal (vch : bytes) : Prop :=
  vch = [] ∨ ∃ l b, vch = l ++ [b] ∧ (b mod 128 ≠ 0 ∨ (l ≠ [] ∧ 128 ≤ List.last l 0)).

Lemma high_bit b : is_u8 b → (Z.land b 0x80 =? 0) = (b <? 128) ∧ (Z.land b 0x7f =? 0) = (b mod 128 =? 0) ∧ (b < 128 → Z.lor b 0x80 = b + 128).
Proof.
  intros Hb. pose proof (forall_below 256 (λ b, eqb (Z.land b 0x80 =? 0) (b <? 128) && eqb (Z.land b 0x7f =? 0) (b mod 128 =? 0)
    && (implb (b <? 128) (Z.lor b 0x80 =? b + 128))) b eq_refl Hb) as H. cbv beta in H.
  rewrite !andb_true_iff, !eqb_true_iff in H. destruct H as [[-> ->] H]. split_and!; [done|done|].
  intros Hlt. replace (b <? 128) with true in H by lia. cbn in H. lia.
Qed.
Lemma last_in (l : bytes) : bytes_ok l → l ≠ [] → is_u8 (List.last l 0).
Proof.
  intros Hb Hl. rewrite (last_split l 0 Hl) in Hb. apply bytes_ok_app in Hb as [_ Hb]. by apply bytes_ok_cons in Hb as [? _].
Qed.

Lemma nth_last_but_one (l : bytes) b : l ≠ [] → nth (length l + 1 - 2) (l ++ [b]) 0 = List.last l 0.
Proof.
  intros Hl. rewrite app_nth1 by (destruct l; [done|cbn; lia]). destruct (exists_last Hl) as (l' & c & ->).
  rewrite last_last, length_app. cbn [length]. rewrite app_nth2 by lia.
  by replace (length l' + 1 + 1 - 2 - length l')%nat with 0%nat by lia.
Qed.
Lemma CScriptNum_minimal vch k :
  bytes_ok vch → (length vch ≤ k)%nat → (CScriptNum vch true k = Some (set_vch vch) ↔ minimal vch) ∧
  (CScriptNum vch true k = None ↔ ¬ minimal vch).
Proof.
  intros Hb Hk. unfold CScriptNum. replace (k <? length vch)%nat with false by lia. cbn [andb].
  assert (Hiff : ((0 <? length vch)%nat && (Z.land (List.last vch 0) 0x7f =? 0)
     && ((length vch <=? 1)%nat || (Z.land (nth (length vch - 2) vch 0) 0x80 =? 0))) = false ↔ minimal vch).
  { destruct (decide (vch = [])) as [->|Hne]; [split; [by left|done]|].
    pose proof (last_in vch Hb Hne) as Hlast. rewrite (last_split vch 0 Hne) at 1 3 4 5.
    set (l := removelast vch) in *. set (b := List.last vch 0) in *.
    destruct (high_bit b Hlast) as (_ & -> & _). rewrite length_app. cbn [length].
    replace (0 <? length l + 1)%nat with true by lia. cbn [andb].
    assert (Hl : bytes_ok l) by (rewrite (last_split vch 0 Hne) in Hb; by apply bytes_ok_app in Hb as [? _]).
    rewrite (last_split vch 0 Hne). fold l b.
    assert (Hmin : minimal (l ++ [b]) ↔ b mod 128 ≠ 0 ∨ (l ≠ [] ∧ 128 ≤ List.last l 0)).
    { split; [|intros H; right; by exists l, b]. intros [H|(l' & b' & E & H)]; [by destruct l|]. by apply app_inj_tail in E as [<- <-]. }
    rewrite Hmin. destruct (Z.eqb_spec (b mod 128) 0) as [Hz|Hz]; cbn [andb]; [|by split; [left|]].
    destruct l as [|c l'] eqn:El; [split; [done|intros [?|[? _]]; done]|]. rewrite <- El in *.
    assert (Hln : l ≠ []) by (by rewrite El). assert (Hl1 : (1 ≤ length l)%nat) by (rewrite El; cbn; lia).
    replace (length l + 1 <=? 1)%nat with false by lia. cbn [orb].
    rewrite nth_last_but_one by done.
    destruct (high_bit _ (last_in l Hl Hln)) as (-> & _).
    destruct (Z.ltb_spec (List.last l 0) 128); split; try done; [intros [?|[_ ?]]; [done|lia]|by right]. }
  destruct (_ && _); destruct Hiff as [H1 H2]; (split; split; try done; intros H).
  - by apply H2 in H.
  - intros Hm. by apply H2 in Hm.
  - by apply H1.
  - by specialize (H (H1 eq_refl)).
Qed.

Lemma pow256_bits (n : nat) : 256 ^ Z.of_nat n = 2 ^ (8 * Z.of_nat n).
Proof. rewrite Z.pow_mul_r by lia. done. Qed.

Lemma serialize_set_vch vch :
  bytes_ok vch → (length vch ≤ 8)%nat → minimal vch → serialize_num (set_vch vch) = vch ∧
  ∀ k, (0 < k)%nat → (length vch ≤ k)%nat → Z.abs (set_vch vch) < 2 ^ (8 * Z.of_nat k - 1).
Proof.
  intros Hb Hlen [->|(l & b & -> & Hm)].
  { split; [done|]. intros k Hk _. apply Z.pow_pos_nonneg; lia. }
  apply bytes_ok_app in Hb as [Hl Hb]. apply bytes_ok_cons in Hb as [Hb _].
  rewrite length_app in *. cbn [length] in *. rewrite set_vch_snoc by (done || lia). cbv zeta.
  pose proof (from_digits_bound 256 ltac:(lia) l Hl) as Hx. set (x := from_digits 256 l) in *. rewrite pow256_bits in *.
  set (P := 2 ^ (8 * Z.of_nat (length l))) in *.
  assert (HP : 0 < P ≤ 2 ^ 56) by (unfold P; split; [apply Z.pow_pos_nonneg; lia|apply Z.pow_le_mono_r; lia]).
  pose proof (Z.mod_pos_bound b 128 ltac:(lia)) as Hbm. set (m := b mod 128) in *.
  assert (Hbd : b = m + (if 128 <=? b then 128 else 0)).
  { unfold m, is_u8 in *. destruct (Z.leb_spec 128 b); zlin. }
  assert (Ha : 0 < x + P * m < P * 128).
  { destruct Hm as [Hm|[Hne Hc]]; [fold m in Hm; nia|]. split; [|nia]. assert (0 < x); [|nia].
    unfold x. rewrite (last_split l 0 Hne), from_digits_snoc.
    assert (0 ≤ from_digits 256 (removelast l)).
    { apply (from_digits_bound 256 ltac:(lia)). rewrite (last_split l 0 Hne) in Hl. by apply bytes_ok_app in Hl as [? _]. }
    assert (0 < 256 ^ Z.of_nat (length (removelast l))) by (apply Z.pow_pos_nonneg; lia). nia. }
  assert (Ha64 : 0 < x + P * m < 2 ^ 63) by (split; [lia|nia]).
  split.
  2: { intros k _ Hk. apply Z.lt_le_trans with (2 ^ (8 * Z.of_nat (length l + 1) - 1)); [|apply Z.pow_le_mono_r; lia].
       replace (8 * Z.of_nat (length l + 1) - 1) with (8 * Z.of_nat (length l) + 7) by lia. rewrite Z.pow_add_r by lia. fold P.
       destruct (128 <=? b); lia. }
  set (a := x + P * m) in *.
  assert (Hser : serialize_num (if 128 <=? b then - a else a) =
    let result := abs_bytes 8 a in let back := List.last result 0 in
    if negb (Z.land back 0x80 =? 0) then result ++ [if 128 <=? b then 0x80 else 0]
    else if 128 <=? b then removelast result ++ [Z.lor back 0x80] else result).
  { unfold serialize_num. destruct (128 <=? b).
    - replace (- a =? 0) with false by lia. replace (- a <? 0) with true by lia.
      rewrite Z.opp_involutive, u64_small by word_lia. done.
    - replace (a =? 0) with false by lia. replace (a <? 0) with false by lia. rewrite u64_small by word_lia. done. }
  rewrite Hser. cbv zeta. destruct (Z.eq_dec m 0) as [Hm0|Hm0].
  - destruct Hm as [?|[Hne Hc]]; [done|]. assert (Ea : a = x) by (unfold a; rewrite Hm0; lia).
    rewrite Ea. unfold x. rewrite abs_bytes_digits; [|done|lia|].
    2: { rewrite (last_split l 0 Hne), last_last. lia. }
    destruct (high_bit _ (last_in l Hl Hne)) as (-> & _). replace (_ <? 128) with false by lia. cbn [negb].
    destruct (128 <=? b); f_equal; f_equal; lia.
  - assert (Ea : a = from_digits 256 (l ++ [m])) by (by rewrite from_digits_snoc, pow256_bits).
    assert (Hmb : is_u8 m) by (unfold is_u8; lia).
    rewrite Ea, abs_bytes_digits; [|apply bytes_ok_app; split; [done|by apply bytes_ok_1]|rewrite length_app; cbn; lia|by rewrite last_last].
    rewrite last_last. destruct (high_bit m Hmb) as (-> & _ & Hlor). replace (m <? 128) with true by lia. cbn [negb].
    destruct (128 <=? b) eqn:Eb; [rewrite removelast_last, Hlor by lia; by rewrite Hbd|].
    f_equal. f_equal. lia.
Qed.

Lemma set_vch_serialize v :
  Z.abs v < 2 ^ 63 →
  bytes_ok (serialize_num v) ∧ minimal (serialize_num v) ∧ set_vch (serialize_num v) = v ∧
  ∀ k, (0 < k ≤ 8)%nat → Z.abs v < 2 ^ (8 * Z.of_nat k - 1) → (length (serialize_num v) ≤ k)%nat.
Proof.
  intros Hv. unfold serialize_num. destruct (Z.eqb_spec v 0) as [->|Hne].
  { split_and!; [apply bytes_ok_nil|by left|done|intros; cbn; lia]. }
  assert (Eabs : u64 (if v <? 0 then - v else v) = Z.abs v) by (rewrite u64_small; [|unfold is_u64]; destruct (Z.ltb_spec v 0); lia).
  rewrite Eabs. set (a := Z.abs v) in *. assert (Ha : 0 < a) by lia.
  destruct (abs_bytes_spec 8 a ltac:(cbn; lia)) as (Hd & Hfd & Hl0 & Hlen & Hlow). specialize (Hlow ltac:(lia)).
  set (d := abs_bytes 8 a) in *. cbv zeta.
  assert (Hdn : d ≠ []) by (intros E; rewrite E in Hfd; cbn in Hfd; lia).
  pose proof (last_in d Hd Hdn) as Hc. pose proof (last_split d 0 Hdn) as Ed.
  assert (Hc0 : List.last d 0 ≠ 0) by (rewrite Ed, last_last in Hl0 |- *; rewrite Ed, last_last in Hl0; done).
  set (c := List.last d 0) in *. set (r := removelast d) in *.
  assert (Hr : bytes_ok r) by (rewrite Ed in Hd; by apply bytes_ok_app in Hd as [? _]).
  assert (Hdl : length d = (length r + 1)%nat) by (rewrite Ed, length_app; done).
  assert (Hfr : from_digits 256 r + 256 ^ Z.of_nat (length r) * c = a) by (rewrite <- from_digits_snoc, <- Ed; done).
  pose proof (from_digits_bound 256 ltac:(lia) r Hr) as Hrb. rewrite pow256_bits in Hfr, Hrb.
  set (P := 2 ^ (8 * Z.of_nat (length r))) in *. assert (HP : 0 < P) by (apply Z.pow_pos_nonneg; lia).
  destruct (high_bit c Hc) as (-> & _ & Hlor).
  assert (Hpow : ∀ k (e : Z), (0 < k)%nat → 0 ≤ e → 2 ^ e ≤ a → a < 2 ^ (8 * Z.of_nat k - 1) → e < 8 * Z.of_nat k - 1).
  { intros k e Hk He H1 H2. apply (Z.pow_lt_mono_r_iff 2); lia. }
  destruct (Z.ltb_spec c 128) as [Hlt|Hge]; cbn [negb].
  - assert (Hle : ∀ k, (0 < k ≤ 8)%nat → a < 2 ^ (8 * Z.of_nat k - 1) → (length r + 1 ≤ k)%nat).
    { intros k Hk Hak. pose proof (Hpow k (8 * Z.of_nat (length r)) ltac:(lia) ltac:(lia) ltac:(fold P; nia) Hak). lia. }
    assert (Hlen7 : (length r ≤ 7)%nat) by lia.
    destruct (Z.ltb_spec v 0) as [Hneg|Hpos].
    + rewrite Hlor by done. split_and!.
      * apply bytes_ok_app. split; [done|]. apply bytes_ok_1. unfold is_u8 in *. lia.
      * right. exists r, (c + 128). split; [done|left]. unfold is_u8 in *. zlin.
      * rewrite set_vch_snoc by (done || (unfold is_u8 in *; lia)). cbv zeta. replace (128 <=? c + 128) with true by (unfold is_u8 in *; lia).
        assert ((c + 128) mod 128 = c) as -> by (unfold is_u8 in *; zlin). rewrite pow256_bits. fold P. lia.
      * intros k Hk Hak. rewrite length_app. by apply Hle.
    + rewrite Ed. split_and!.
      * apply bytes_ok_app. split; [done|by apply bytes_ok_1].
      * right. exists r, c. split; [done|left]. rewrite Z.mod_small by (unfold is_u8 in *; lia). done.
      * rewrite set_vch_snoc by done. cbv zeta. replace (128 <=? c) with false by lia.
        rewrite Z.mod_small, pow256_bits by (unfold is_u8 in *; lia). fold P. lia.
      * intros k Hk Hak. rewrite length_app. by apply Hle.
  - assert (Hge2 : 2 ^ (8 * Z.of_nat (length r) + 7) ≤ a) by (rewrite Z.pow_add_r by lia; fold P; change (2 ^ 7) with 128; nia).
    assert (Hle : ∀ k, (0 < k ≤ 8)%nat → a < 2 ^ (8 * Z.of_nat k - 1) → (length d + 1 ≤ k)%nat).
    { intros k Hk Hak. pose proof (Hpow k (8 * Z.of_nat (length r) + 7) ltac:(lia) ltac:(lia) Hge2 Hak). lia. }
    assert (Hd7 : (length d ≤ 7)%nat) by (specialize (Hle 8%nat ltac:(lia) ltac:(cbn; lia)); lia).
    set (t := if v <? 0 then 128 else 0). assert (Ht : is_u8 t) by (unfold t, is_u8; destruct (v <? 0); lia).
    split_and!.
    + apply bytes_ok_app. split; [done|by apply bytes_ok_1].
    + right. exists d, t. split; [done|]. right. split; [done|lia].
    + rewrite set_vch_snoc by done. cbv zeta. assert (Htm : t mod 128 = 0) by (unfold t; by destruct (v <? 0)).
      rewrite Htm, Hfd, Z.mul_0_r, Z.add_0_r. unfold t. destruct (Z.ltb_spec v 0); cbn; lia.
    + intros k Hk Hak. rewrite length_app. by apply Hle.
Qed.

(** ** Proofs: pushes *)

(** The opcode that pushes [n] bytes. *)
Definition push_op (n : Z) : Z :=
  if n <? OP_PUSHDATA1 then n else if n <=? 0xff then OP_PUSHDATA1 else if n <=? 0xffff then OP_PUSHDATA2 else OP_PUSHDATA4.

Lemma push_data_op s b :
  bytes_ok b → Z.of_nat (length b) < 2 ^ 32 →
  let op := push_op (Z.of_nat (length b)) in push_data s b = s ++ op_bytes op b ∧ op_ok op b.
Proof.
  intros Hb Hn. unfold push_data, push_op, op_bytes, op_ok. set (n := Z.of_nat (length b)) in *. assert (0 ≤ n) by lia.
  destruct (Z.ltb_spec n OP_PUSHDATA1) as [H1|H1]; unfold OP_PUSHDATA1 in H1.
  - replace (n <? OP_PUSHDATA1) with true by (unfold OP_PUSHDATA1; lia). rewrite u8_small by (unfold is_u8; lia).
    split; [done|]. split_and!; [unfold is_u8; lia|done|done].
  - destruct (Z.leb_spec n 0xff); [|destruct (Z.leb_spec n 0xffff)]; (split; [|split_and!; [done|done|cbn; lia]]).
    + done.
    + change (OP_PUSHDATA2 <? OP_PUSHDATA1) with false. change (OP_PUSHDATA2 =? OP_PUSHDATA1) with false. rewrite Z.eqb_refl.
      unfold u16. by rewrite Z.mod_small by lia.
    + change (OP_PUSHDATA4 <? OP_PUSHDATA1) with false. change (OP_PUSHDATA4 =? OP_PUSHDATA1) with false.
      change (OP_PUSHDATA4 =? OP_PUSHDATA2) with false. rewrite Z.eqb_refl. by rewrite u32_small by (unfold is_u32; lia).
Qed.

Lemma GetOp2_push s b rest :
  bytes_ok b → Z.of_nat (length b) < 2 ^ 32 →
  ∃ t, push_data s b = s ++ t ∧ GetOp2 (t ++ rest) = Some (push_op (Z.of_nat (length b)), b, rest).
Proof.
  intros Hb Hn. destruct (push_data_op s b Hb Hn) as [E Hok]. eexists. split; [exact E|]. by apply GetOp2_op_bytes.
Qed.

Lemma serialize_num_ok v :
  Z.abs v < 2 ^ 63 → let d := serialize_num v in
  bytes_ok d ∧ minimal d ∧ set_vch d = v ∧ (length d ≤ 8)%nat.
Proof.
  intros Hv. destruct (set_vch_serialize v Hv) as (H1 & H2 & H3 & H4). split_and!; [done..|].
  apply H4; [lia|exact Hv].
Qed.

Lemma last_push_spec fuel pc v :
  (length pc ≤ fuel)%nat →
  last_push fuel pc v = Some (
    let '(l, r) := script_ops fuel pc in
    if forallb (λ o, fst o <=? OP_16) l && (length r =? 0)%nat then Some (List.last (map snd l) v) else None).
Proof.
  revert pc v. induction fuel as [|fuel IH]; intros pc v Hf.
  - destruct pc; [done|cbn in Hf; lia].
  - destruct pc as [|c pc]; [done|]. cbn [last_push script_ops].
    destruct (GetOp2 (c :: pc)) as [[[op data] rest]|] eqn:E; [|done].
    pose proof (GetOp2_shorter _ _ _ _ E). cbn [length] in *. rewrite IH by lia.
    destruct (script_ops fuel rest) as [l r]. cbn [forallb fst snd map].
    replace (op >? OP_16) with (negb (op <=? OP_16)) by lia. destruct (op <=? OP_16); cbn [negb andb]; [|done].
    do 2 f_equal. destruct (_ && _); [|done]. f_equal. destruct l as [|[o d] l]; [done|].
    cbn [map snd]. change (List.last (data :: d :: map snd l) v) with (List.last (d :: map snd l) v).
    clear. revert d. induction l as [|[o e] l IHl]; intros d; [done|]. exact (IHl e).
Qed.

(** The steps of the scans that stop at a failing test. *)
Definition valid_op (op : Z) (data : bytes) : bool :=
  (op <=? MAX_OPCODE) && (Z.of_nat (length data) <=? MAX_SCRIPT_ELEMENT_SIZE).
Lemma IsPushOnly_loop_nil fuel : IsPushOnly_loop fuel [] = Some true.
Proof. by destruct fuel. Qed.
Lemma IsPushOnly_loop_step fuel pc : pc ≠ [] → IsPushOnly_loop fuel pc =
  match GetOp2 pc with
  | None => Some false
  | Some (op, data, rest) =>
      if negb (op <=? OP_16) then Some false
      else match fuel with O => None | S fuel' => IsPushOnly_loop fuel' rest end
  end.
Proof.
  intros Hne. destruct pc; [done|]. destruct fuel; cbn [IsPushOnly_loop]; destruct (GetOp2 _) as [[[op data] rest]|]; try done;
    by replace (op >? OP_16) with (negb (op <=? OP_16)) by lia.
Qed.
Lemma HasValidOps_loop_nil fuel : HasValidOps_loop fuel [] = Some true.
Proof. by destruct fuel. Qed.
Lemma HasValidOps_loop_step fuel pc : pc ≠ [] → HasValidOps_loop fuel pc =
  match GetOp2 pc with
  | None => Some false
  | Some (op, data, rest) =>
      if negb (valid_op op data) then Some false
      else match fuel with O => None | S fuel' => HasValidOps_loop fuel' rest end
  end.
Proof.
  intros Hne. destruct pc; [done|]. unfold valid_op.
  destruct fuel; cbn [HasValidOps_loop]; destruct (GetOp2 _) as [[[op data] rest]|]; try done; rewrite negb_andb;
    replace (op >? MAX_OPCODE) with (negb (op <=? MAX_OPCODE)) by lia;
    by replace (Z.of_nat (length data) >? MAX_SCRIPT_ELEMENT_SIZE)
      with (negb (Z.of_nat (length data) <=? MAX_SCRIPT_ELEMENT_SIZE)) by lia.
Qed.

Lemma FindAndDelete_spec script b : (0 < length b)%nat → ∃ parts ks tail, length parts = length ks ∧
  script = concat (zip_with (λ p k, p ++ concat (replicate k b)) parts ks) ++ tail ∧
  FindAndDelete script b = Some (concat parts ++ tail, Z.of_nat (sum_list ks)).
Proof.
  intros Hb. unfold FindAndDelete. replace (length b =? 0)%nat with false by lia.
  destruct (FindAndDelete_loop_spec (length script) b [] script [] 0 Hb ltac:(lia)) as (parts & ks & tail & E1 & E2 & E3).
  cbn [app] in *. rewrite E1. cbn [mbind option_bind]. exists parts, ks, tail. split_and!; [done..|].
  destruct (_ >? 0) eqn:E; [done|]. rewrite Z.add_0_l in *. do 2 f_equal. rewrite E3 at 1. f_equal.
  assert (Hz : sum_list ks = 0%nat) by lia. clear -Hz E2. revert ks Hz E2.
  induction parts as [|p parts IH]; intros [|k ks] Hz E2; try done. cbn in *.
  assert (k = 0%nat) as -> by lia. cbn. rewrite app_nil_r. f_equal. apply IH; lia.
Qed.

Lemma push_int64_spec v rest : Z.abs v < 2 ^ 63 →
  ∃ op data, GetOp2 (push_int64 [] v ++ rest) = Some (op, data, rest) ∧
     if v =? -1 then op = OP_1NEGATE
     else if (0 <=? v) && (v <=? 16) then DecodeOP_N op = Some v ∧ EncodeOP_N v = Some op
     else op = Z.of_nat (length data) ∧ CScriptNum data true 8 = Some v.
Proof.
  intros Hv. unfold push_int64. destruct (Z.eqb_spec v (-1)) as [->|H1]; [by exists OP_1NEGATE, []|]. cbn [orb].
  destruct (Z.eqb_spec v 0) as [->|H0]; [exists OP_0, []; split; [|by split]; apply (GetOp2_op_bytes OP_0 [] rest);
    split_and!; [done|apply bytes_ok_nil|done]|].
  destruct ((v >=? 1) && (v <=? 16)) eqn:E.
  - replace ((0 <=? v) && (v <=? 16)) with true by lia. exists (OP_1 + v - 1), []. unfold u8. rewrite Z.mod_small by (unfold OP_1; lia).
    cbn [app]. unfold GetOp2, DecodeOP_N, EncodeOP_N, OP_PUSHDATA4, OP_0, OP_1, OP_16 in *.
    replace (v + (0x51 - 1)) with (0x51 + v - 1) by lia. replace (0x51 + v - 1 <=? 0x4e) with false by lia.
    replace (0x51 + v - 1 =? 0x00) with false by lia. replace (_ && _) with true by lia. replace (negb _) with false by lia.
    replace (v =? 0) with false by lia. split_and!; [done|f_equal; lia|f_equal; lia].
  - replace ((0 <=? v) && (v <=? 16)) with false by lia. destruct (serialize_num_ok v Hv) as (H2 & H3 & H4 & H5).
    destruct (GetOp2_push [] (serialize_num v) rest H2 ltac:(lia)) as (t & Et & Hg). cbn [app] in Et. rewrite Et, Hg.
    eexists _, _. split; [done|]. split; [unfold push_op; by replace (_ <? OP_PUSHDATA1) with true by (unfold OP_PUSHDATA1; lia)|].
    destruct (CScriptNum_minimal _ 8 H2 H5) as [[_ ->] _]; [by rewrite H4|done].
Qed.

(** ** Properties *)

(** Instructions and their bytes correspond one to one: [GetOp2] on a script
    gives an opcode, an operand and a rest exactly when the opcode is a byte
    with an operand of the size it announces and the script starts with their
    encoding. The push of any datum below 4 GiB is such an encoding, with
    the shortest of the four forms of length, and reads back as that datum. *)
Theorem script_instruction_roundtrip (pc s b rest : bytes) (op : Z) (data : bytes)
    (Hpc : bytes_ok pc) (Hrest : bytes_ok rest) (Hb : bytes_ok b) (Hn : Z.of_nat (length b) < 2 ^ 32) :
  (GetOp2 pc = Some (op, data, rest) ↔ op_ok op data ∧ pc = op_bytes op data ++ rest) ∧
  (GetOp2 pc = None → ∀ op' data' rest', op_ok op' data' → pc ≠ op_bytes op' data' ++ rest') ∧
  ∃ t, push_data s b = s ++ t ∧ GetOp2 (t ++ rest) = Some (push_op (Z.of_nat (length b)), b, rest) ∧
    (∀ op' r, GetOp2 t = Some (op', b, r) → op' ≤ OP_PUSHDATA4 ∧ r = []).
Proof.
  split_and!.
  - split; [by apply GetOp2_inv|]. intros [Hok ->]. by apply GetOp2_op_bytes.
  - intros E op' data' rest' Hok ->. by rewrite GetOp2_op_bytes in E.
  - destruct (GetOp2_push s b rest Hb Hn) as (t & E & Ht). exists t. split_and!; [done..|]. intros op' r E'.
    destruct (GetOp2_push s b [] Hb Hn) as (t' & E2 & Ht'). rewrite E in E2. apply app_inv_head in E2 as <-.
    rewrite app_nil_r, E' in Ht'. injection Ht' as -> ->. split; [|done]. unfold push_op, OP_PUSHDATA1, OP_PUSHDATA2, OP_PUSHDATA4.
    repeat case_match; lia.
Qed.
Lemma script_instruction_roundtrip_witness :
  GetOp2 [0x02; 0xaa; 0xbb; 0xac] = Some (0x02, [0xaa; 0xbb], [0xac]) ∧
  (GetOp2 [0x02; 0xaa; 0xbb; 0xac] = Some (0x02, [0xaa; 0xbb], [0xac]) ↔
   op_ok 0x02 [0xaa; 0xbb] ∧ [0x02; 0xaa; 0xbb; 0xac] = op_bytes 0x02 [0xaa; 0xbb] ++ [0xac]).
Proof.
  split; [reflexivity|].
  apply (script_instruction_roundtrip [0x02; 0xaa; 0xbb; 0xac] [] [0xaa] [0xac] 0x02 [0xaa; 0xbb]);
    [by apply bytes_ok_compute..|reflexivity].
Defined.

(** The loops over a script terminate and compute, in terms of the
    instructions [ops] that can be read and the [rest] where reading stops:
    the count of signature operations (with the number before a
    CHECKMULTISIG when accurate, 20 otherwise, as a 32-bit number), the tests
    that every instruction is a push or is valid, which fail on an unreadable
    rest, the number of occurrences of an opcode, the count for a
    pay-to-script-hash output from the last item pushed by the input's script,
    and the removal of a byte string: the script is a sequence of parts each
    followed by a number of occurrences of the string, and exactly those
    occurrences are removed and counted. *)
Theorem script_scans (script : bytes) (H : bytes_ok script) :
  let '(ops, rest) := script_ops (length script) script in
  let readable := (length rest =? 0)%nat in
  script = print_ops ops ++ rest ∧ Forall (λ o, op_ok (fst o) (snd o)) ops ∧ GetOp2 rest = None ∧
  (∀ fAccurate, GetSigOpCount script fAccurate = Some (u32 (sigops fAccurate OP_INVALIDOPCODE ops))) ∧
  IsPushOnly script = Some (forallb (λ o, fst o <=? OP_16) ops && readable) ∧
  HasValidOps script =
    Some (forallb (λ o, (fst o <=? MAX_OPCODE) && (Z.of_nat (length (snd o)) <=? MAX_SCRIPT_ELEMENT_SIZE)) ops && readable) ∧
  (∀ op, Find script op = Some (Z.of_nat (length (filter (λ o, fst o = op) ops)))) ∧
  (∀ scriptPubKey, IsPayToScriptHash scriptPubKey = true →
     GetSigOpCount_p2sh scriptPubKey script =
       if forallb (λ o, fst o <=? OP_16) ops && readable then GetSigOpCount (List.last (map snd ops) []) true else Some 0) ∧
  (∀ b, (0 < length b)%nat → ∃ parts ks tail, length parts = length ks ∧
     script = concat (zip_with (λ p k, p ++ concat (replicate k b)) parts ks) ++ tail ∧
     FindAndDelete script b = Some (concat parts ++ tail, Z.of_nat (sum_list ks))).
Proof.
  pose proof (script_ops_spec (length script) script H ltac:(lia)) as Hs.
  pose proof (λ acc, GetSigOpCount_loop_spec (length script) acc script OP_INVALIDOPCODE 0 ltac:(lia) ltac:(done)) as H1.
  pose proof (scan_all (λ op _, op <=? OP_16) IsPushOnly_loop IsPushOnly_loop_nil IsPushOnly_loop_step (length script) script ltac:(lia)) as H2.
  pose proof (scan_all valid_op HasValidOps_loop HasValidOps_loop_nil HasValidOps_loop_step (length script) script ltac:(lia)) as H3.
  pose proof (λ op, Find_loop_spec (length script) op script 0 ltac:(lia)) as H4.
  pose proof (last_push_spec (length script) script [] ltac:(lia)) as H5.
  destruct (script_ops (length script) script) as [ops rest]. destruct Hs as (E1 & E2 & E3). cbn [fst snd] in *. cbv zeta.
  split_and!; try done.
  - intros spk E. unfold GetSigOpCount_p2sh. rewrite E, H5. cbn [negb mbind option_bind]. by destruct (_ && _).
  - intros b Hb. by apply FindAndDelete_spec.
Qed.
Lemma script_scans_witness :
  let script := [OP_1; 0x01; OP_CHECKSIG; OP_1 + 2; OP_CHECKMULTISIG; OP_PUSHDATA1] in
  script_ops 6 script = ([(OP_1, []); (0x01, [OP_CHECKSIG]); (OP_1 + 2, []); (OP_CHECKMULTISIG, [])], [OP_PUSHDATA1]) ∧
  GetSigOpCount script true = Some 3 ∧ GetSigOpCount script false = Some 20 ∧ IsPushOnly script = Some false.
Proof.
  intros script. split; [reflexivity|].
  destruct (script_scans script ltac:(by apply bytes_ok_compute)) as (_ & _ & _ & H1 & H2 & _).
  split; [exact (H1 true)|]. split; [exact (H1 false)|exact H2].
Defined.

(** Numbers on the stack are sign and magnitude with no superfluous byte.
    A number that fits [k] bytes, for [k] up to eight, is written in at most [k]
    bytes and reads back under the minimality test; and [CScriptNum] with that
    test accepts exactly the byte strings of at most [k] bytes that
    some number is written as. A number pushed onto a script with
    [operator<<(int64_t)] reads back as the small-number opcode that stands for it
    or as its bytes. *)
Theorem script_number_roundtrip (k : nat) (Hk : (0 < k ≤ 8)%nat) :
  (∀ v, Z.abs v < 2 ^ (8 * Z.of_nat k - 1) →
     (length (serialize_num v) ≤ k)%nat ∧ CScriptNum (serialize_num v) true k = Some v) ∧
  (∀ vch v, bytes_ok vch → CScriptNum vch true k = Some v →
     serialize_num v = vch ∧ Z.abs v < 2 ^ (8 * Z.of_nat k - 1)) ∧
  (∀ v rest, Z.abs v < 2 ^ 63 → ∃ op data, GetOp2 (push_int64 [] v ++ rest) = Some (op, data, rest) ∧
     if v =? -1 then op = OP_1NEGATE
     else if (0 <=? v) && (v <=? 16) then DecodeOP_N op = Some v ∧ EncodeOP_N v = Some op
     else op = Z.of_nat (length data) ∧ CScriptNum data true 8 = Some v).
Proof.
  split_and!.
  - intros v Hv. assert (Hv8 : Z.abs v < 2 ^ 63).
    { apply Z.lt_le_trans with (1 := Hv), Z.pow_le_mono_r; lia. }
    destruct (set_vch_serialize v Hv8) as (H1 & H2 & H3 & H4). specialize (H4 k Hk Hv). split; [done|].
    destruct (CScriptNum_minimal _ k H1 H4) as [[_ ->] _]; [by rewrite H3|done].
  - intros vch v Hb E. assert (Hl : (length vch ≤ k)%nat).
    { unfold CScriptNum in E. destruct (Nat.ltb_spec k (length vch)); [done|lia]. }
    assert (Hm : minimal vch).
    { destruct (CScriptNum_minimal vch k Hb Hl) as [_ [_ Hnone]]. destruct (decide (CScriptNum vch true k = None)) as [?|Hn]; [congruence|].
      apply (proj1 (CScriptNum_minimal vch k Hb Hl)). clear Hn Hnone. unfold CScriptNum in *. repeat case_match; done. }
    pose proof (proj2 (proj1 (CScriptNum_minimal vch k Hb Hl)) Hm) as E2. rewrite E in E2. injection E2 as ->.
    destruct (serialize_set_vch vch Hb ltac:(lia) Hm) as [H1 H2]. split; [done|]. by apply H2; [lia|].
  - intros v rest Hv. apply push_int64_spec, Hv.
Qed.
Lemma script_number_roundtrip_witness :
  serialize_num (-255) = [0xff; 0x80] ∧ CScriptNum [0xff; 0x80] true 4 = Some (-255) ∧
  CScriptNum [0xff; 0x00; 0x80] true 4 = None ∧ Z.abs (-255) < 2 ^ 31.
Proof.
  destruct (script_number_roundtrip 4 ltac:(lia)) as (H1 & H2 & _).
  split; [reflexivity|]. split; [apply (H1 (-255)); reflexivity|]. split; [reflexivity|].
  apply (H2 [0xff; 0x80]); [by apply bytes_ok_compute|reflexivity].
Defined.
