(* ===== verification/Serialize.v ===== *)
(** * Serialization primitives (src/src/serialize.h)

    A stream is the list of bytes still to be read; [None] is the exception
    [std::ios_base::failure].  The class [Serializable] is what the data types
    of the other files promise: what [Serialize] writes, [Unserialize] reads
    back; [Canonical] adds that nothing else is accepted. *)

From stdpp Require Import base numbers list option.
From Stdlib Require Import ZArith Lia ZifyNat.
From S2P Require Import Prelude Endian.

Abbreviation reader A := (bytes → option (A * bytes)).

(** ** The interfaces *)
Record codec (A : Type) := Codec { enc : A → bytes; dec : reader A; enc_ok : A → Prop }.
Arguments Codec {A}.
Arguments enc {A}.
Arguments dec {A}.
Arguments enc_ok {A}.

Class Serializable {A} (c : codec A) := {
  enc_bytes : ∀ a, enc_ok c a → bytes_ok (enc c a);
  enc_dec : ∀ a r, enc_ok c a → dec c (enc c a ++ r) = Some (a, r);
  dec_wf : ∀ s a r, bytes_ok s → dec c s = Some (a, r) → enc_ok c a ∧ bytes_ok r;
}.

Class Canonical {A} (c : codec A) :=
  dec_enc : ∀ s a r, bytes_ok s → dec c s = Some (a, r) → s = enc c a ++ r.

Definition MAX_SIZE : Z := 0x10000000.

(** [s.read(p, n)]: fails at the end of the data. *)
Definition read (n : nat) : reader bytes := λ s,
  if (n <=? length s)%nat then Some (take n s, drop n s) else None.

(** ** Fixed-width integers *)
Definition ser_writedata8 (x : Z) : bytes := [u8 x].
Definition ser_writedata16 (x : Z) : bytes := WriteLE16 (u16 x).
Definition ser_writedata32 (x : Z) : bytes := WriteLE32 (u32 x).
Definition ser_writedata64 (x : Z) : bytes := WriteLE64 (u64 x).
Definition ser_readdata8 : reader Z := λ s, '(b, s) ← read 1 s; Some (from_digits 256 b, s).
Definition ser_readdata16 : reader Z := λ s, '(b, s) ← read 2 s; Some (ReadLE16 b, s).
Definition ser_readdata32 : reader Z := λ s, '(b, s) ← read 4 s; Some (ReadLE32 b, s).
Definition ser_readdata64 : reader Z := λ s, '(b, s) ← read 8 s; Some (ReadLE64 b, s).

(** ** CompactSize *)
Definition GetSizeOfCompactSize (nSize : Z) : Z :=
  if nSize <? 253 then 1 else if nSize <=? 0xffff then 3 else if nSize <=? 0xffffffff then 5 else 9.

Definition WriteCompactSize (nSize : Z) : bytes :=
  if nSize <? 253 then ser_writedata8 nSize
  else if nSize <=? 0xffff then ser_writedata8 253 ++ ser_writedata16 nSize
  else if nSize <=? 0xffffffff then ser_writedata8 254 ++ ser_writedata32 nSize
  else ser_writedata8 255 ++ ser_writedata64 nSize.

Definition ReadCompactSize : reader Z := λ s,
  '(chSize, s) ← ser_readdata8 s;
  '(nSizeRet, s) ←
    (if chSize <? 253 then Some (chSize, s)
     else if chSize =? 253 then
       '(n, s) ← ser_readdata16 s; if n <? 253 then None else Some (n, s)
     else if chSize =? 254 then
       '(n, s) ← ser_readdata32 s; if n <? 0x10000 then None else Some (n, s)
     else
       '(n, s) ← ser_readdata64 s; if n <? 0x100000000 then None else Some (n, s));
  if nSizeRet >? MAX_SIZE then None else Some (nSizeRet, s).

(** ** VarInt: [I] is an unsigned (or non-negative) type with maximum [M] *)
Fixpoint GetSizeOfVarInt_loop (fuel : nat) (n : Z) : nat :=
  match fuel with
  | O => 0
  | S fuel' => S (if n <=? 0x7F then 0 else GetSizeOfVarInt_loop fuel' (Z.shiftr n 7 - 1))
  end.

(** The array [tmp], from [tmp[len]] on. *)
Fixpoint varint_tmp (fuel : nat) (len : nat) (n : Z) : bytes :=
  match fuel with
  | O => []
  | S fuel' =>
      Z.lor (Z.land n 0x7F) (if (len =? 0)%nat then 0x00 else 0x80)
      :: (if n <=? 0x7F then [] else varint_tmp fuel' (S len) (Z.shiftr n 7 - 1))
  end.

(** [sizeof(n) * 8 = w]; the array holds [(w + 6) / 7] digits. *)
Definition tmp_size (w : nat) : nat := ((w + 6) / 7)%nat.
Definition GetSizeOfVarInt (w : nat) (n : Z) : nat := GetSizeOfVarInt_loop (tmp_size w) n.
(** The digits are written from the last one down to [tmp[0]]. *)
Definition WriteVarInt (w : nat) (n : Z) : bytes := rev (varint_tmp (tmp_size w) 0 n).

Fixpoint ReadVarInt_loop (M n : Z) (s : bytes) : option (Z * bytes) :=
  match s with
  | [] => None
  | chData :: s =>
      if n >? Z.shiftr M 7 then None
      else
        let n := Z.lor (Z.shiftl n 7) (Z.land chData 0x7F) in
        if negb (Z.land chData 0x80 =? 0) then
          if n =? M then None else ReadVarInt_loop M (n + 1) s
        else Some (n, s)
  end.
Definition ReadVarInt (M : Z) : reader Z := ReadVarInt_loop M 0.

(** ** Strings and vectors *)

(** [std::string]: one read of the whole size. *)
Definition ser_string (str : bytes) : bytes := WriteCompactSize (Z.of_nat (length str)) ++ str.
Definition unser_string : reader bytes := λ s,
  '(nSize, s) ← ReadCompactSize s;
  if nSize =? 0 then Some ([], s) else read (Z.to_nat nSize) s.

(** Vectors of bytes: at most 5000000 bytes per read. *)
Definition BLK : nat := Z.to_nat 5000000.
Fixpoint read_blocks (fuel : nat) (left : nat) (v s : bytes) : option (bytes * bytes) :=
  match left, fuel with
  | O, _ => Some (v, s)
  | S _, O => None
  | S _, S fuel' =>
      let blk := Nat.min left BLK in
      '(b, s) ← read blk s;
      read_blocks fuel' (left - blk) (v ++ b) s
  end.
Definition unser_blob : reader bytes := λ s,
  '(nSize, s) ← ReadCompactSize s;
  read_blocks (Z.to_nat nSize) (Z.to_nat nSize) [] s.
(** What [Serialize] writes for a byte vector is what it writes for a string. *)
Definition ser_blob : bytes → bytes := ser_string.

(** Vectors of objects: the elements in order, in batches of
    [batch = 5000000 / sizeof(T)] elements, so that a bogus size does not
    allocate ahead of the data ([Unserialize_impl]). *)
Fixpoint unser_n {A} (c : codec A) (n : nat) (s : bytes) : option (list A * bytes) :=
  match n with
  | O => Some ([], s)
  | S n' => '(a, s) ← dec c s; '(l, s) ← unser_n c n' s; Some (a :: l, s)
  end.
Definition ser_vector {A} (c : codec A) (v : list A) : bytes :=
  WriteCompactSize (Z.of_nat (length v)) ++ concat (map (enc c) v).
Definition unser_vector {A} (c : codec A) : reader (list A) := λ s,
  '(nSize, s) ← ReadCompactSize s; unser_n c (Z.to_nat nSize) s.
Fixpoint unser_batches {A} (c : codec A) (batch fuel i nSize : nat) (v : list A) (s : bytes)
    : option (list A * bytes) :=
  match fuel with
  | O => None
  | S fuel' =>
      if (i <? nSize)%nat then
        let nMid := Nat.min (i + batch) nSize in
        '(l, s) ← unser_n c (nMid - i) s;
        unser_batches c batch fuel' nMid nSize (v ++ l) s
      else Some (v, s)
  end.
Definition Unserialize_impl {A} (c : codec A) (batch : nat) : reader (list A) := λ s,
  '(nSize, s) ← ReadCompactSize s; unser_batches c batch (S (Z.to_nat nSize)) 0 (Z.to_nat nSize) [] s.

(** ** The codecs *)
Definition u8_codec : codec Z := Codec ser_writedata8 ser_readdata8 is_u8.
Definition u16_codec : codec Z := Codec ser_writedata16 ser_readdata16 (λ x, 0 ≤ x < 65536).
Definition u32_codec : codec Z := Codec ser_writedata32 ser_readdata32 is_u32.
Definition u64_codec : codec Z := Codec ser_writedata64 ser_readdata64 is_u64.
(** [int32_t] and [int64_t] are written through the unsigned type. *)
Definition i32_codec : codec Z :=
  Codec ser_writedata32 (λ s, '(x, s) ← ser_readdata32 s; Some (i32 x, s))
    (λ x, -2147483648 ≤ x < 2147483648).
Definition i64_codec : codec Z :=
  Codec ser_writedata64 (λ s, '(x, s) ← ser_readdata64 s; Some (i64 x, s))
    (λ x, -9223372036854775808 ≤ x < 9223372036854775808).
Definition compact_codec : codec Z := Codec WriteCompactSize ReadCompactSize (λ x, 0 ≤ x ≤ MAX_SIZE).
Definition varint_codec (w : nat) : codec Z :=
  Codec (WriteVarInt w) (ReadVarInt (2 ^ Z.of_nat w - 1)) (λ x, 0 ≤ x < 2 ^ Z.of_nat w).
(** An array of [n] bytes ([uint256], [FLATDATA]). *)
Definition array_codec (n : nat) : codec bytes :=
  Codec (λ b, b) (read n) (λ b, length b = n ∧ bytes_ok b).
Definition sized (b : bytes) : Prop := bytes_ok b ∧ Z.of_nat (length b) ≤ MAX_SIZE.
Definition string_codec : codec bytes := Codec ser_string unser_string sized.
Definition blob_codec : codec bytes := Codec ser_blob unser_blob sized.
(** [READWRITE(a); READWRITE(b)], also [std::pair]. *)
Definition pair_codec {A B} (ca : codec A) (cb : codec B) : codec (A * B) :=
  Codec (λ ab, enc ca (fst ab) ++ enc cb (snd ab))
    (λ s, '(a, s) ← dec ca s; '(b, s) ← dec cb s; Some ((a, b), s))
    (λ ab, enc_ok ca (fst ab) ∧ enc_ok cb (snd ab)).
(** An object whose serialized fields are [get b] and which [mk] rebuilds from
    them; an object that holds anything else is not recovered. *)
Definition iso_codec {A B} (c : codec A) (mk : A → B) (get : B → A) : codec B :=
  Codec (λ b, enc c (get b)) (λ s, '(a, s) ← dec c s; Some (mk a, s))
    (λ b, enc_ok c (get b) ∧ mk (get b) = b).
Definition vector_codec {A} (c : codec A) : codec (list A) :=
  Codec (ser_vector c) (unser_vector c)
    (λ v, Forall (enc_ok c) v ∧ Z.of_nat (length v) ≤ MAX_SIZE).

(** ** Reading *)

Lemma read_app b r : read (length b) (b ++ r) = Some (b, r).
Proof.
  unfold read. rewrite length_app, (proj2 (Nat.leb_le _ _)) by lia.
  by rewrite take_app_length, drop_app_length.
Qed.

Lemma read_app' n b r : length b = n → read n (b ++ r) = Some (b, r).
Proof. intros <-. apply read_app. Qed.

Lemma read_inv n s b r : read n s = Some (b, r) → s = b ++ r ∧ length b = n.
Proof.
  unfold read. destruct (Nat.leb_spec n (length s)); [|done]. intros [= <- <-].
  rewrite take_drop, length_take. split; [done|lia].
Qed.

(** A fixed-width integer is [w] bytes, little-endian. *)
Definition fixed_dec (w : nat) : reader Z := λ s, '(b, s) ← read w s; Some (from_digits 256 (take w b), s).

Lemma fixed_enc_dec w x r :
  0 ≤ x < 256 ^ Z.of_nat w → fixed_dec w (to_digits 256 w x ++ r) = Some (x, r).
Proof.
  intros Hx. unfold fixed_dec. rewrite read_app' by apply length_to_digits. cbn.
  by rewrite take_ge, to_digits_small by (rewrite ?length_to_digits; lia).
Qed.

Lemma fixed_dec_inv w s x r :
  bytes_ok s → fixed_dec w s = Some (x, r) →
  s = to_digits 256 w x ++ r ∧ 0 ≤ x < 256 ^ Z.of_nat w ∧ bytes_ok r.
Proof.
  intros Hs. unfold fixed_dec. destruct (read w s) as [[b s']|] eqn:E; [|done]. cbn.
  intros [= <- <-]. apply read_inv in E as [-> Hl]. apply bytes_ok_app in Hs as [Hb Hr].
  rewrite take_ge by lia. rewrite <- Hl. split_and!; [|by apply from_digits_bound| by apply from_digits_bound|done].
  by rewrite to_from_digits.
Qed.

Lemma readdata8_eq s : ser_readdata8 s = fixed_dec 1 s.
Proof.
  unfold ser_readdata8, fixed_dec. destruct (read 1 s) as [[b r]|] eqn:E; [|done].
  apply read_inv in E as [_ Hl]. cbn. by rewrite take_ge by lia.
Qed.

(** All fixed-width codecs, signed or not, are [fixed_dec] up to a conversion. *)
#[global] Instance u8_serializable : Serializable u8_codec.
Proof.
  split; cbn [enc dec enc_ok u8_codec].
  - intros a Ha. unfold ser_writedata8. rewrite u8_small by done. by apply bytes_ok_1.
  - intros a r Ha. rewrite readdata8_eq. unfold ser_writedata8. rewrite u8_small by done.
    replace [a] with (to_digits 256 1 a) by (cbn [to_digits]; by rewrite Z.mod_small).
    by apply fixed_enc_dec.
  - intros s a r Hs. rewrite readdata8_eq. intros (_ & Ha & Hr)%fixed_dec_inv; [|done]. done.
Qed.
#[global] Instance u8_canonical : Canonical u8_codec.
Proof.
  intros s a r Hs. cbn [enc dec u8_codec]. rewrite readdata8_eq. intros (-> & Ha & Hr)%fixed_dec_inv; [|done].
  unfold ser_writedata8, u8. done.
Qed.

Section Fixed.
Context (w : nat) (c : codec Z) (to_u : Z → Z) (of_u : Z → Z).
Context (Henc : ∀ x, enc c x = to_digits 256 w (to_u x)).
Context (Hdec : ∀ s, dec c s = ('(x, s) ← fixed_dec w s; Some (of_u x, s))).
Context (Hok : ∀ x, enc_ok c x → 0 ≤ to_u x < 256 ^ Z.of_nat w ∧ of_u (to_u x) = x).
Context (Hof : ∀ x, 0 ≤ x < 256 ^ Z.of_nat w → enc_ok c (of_u x) ∧ to_u (of_u x) = x).

Lemma fixed_serializable : Serializable c.
Proof.
  split.
  - intros a Ha. rewrite Henc. apply to_digits_ok. lia.
  - intros a r Ha. destruct (Hok a Ha) as [Hb Ho]. rewrite Henc, Hdec, fixed_enc_dec by done.
    cbn. by rewrite Ho.
  - intros s a r Hs. rewrite Hdec. destruct (fixed_dec w s) as [[x s']|] eqn:E; [|done]. cbn.
    intros [= <- <-]. apply fixed_dec_inv in E as (_ & Hx & Hr); [|done].
    split; [by apply Hof|done].
Qed.
Lemma fixed_canonical : Canonical c.
Proof.
  intros s a r Hs. rewrite Hdec. destruct (fixed_dec w s) as [[x s']|] eqn:E; [|done]. cbn.
  intros [= <- <-]. apply fixed_dec_inv in E as (-> & Hx & Hr); [|done].
  rewrite Henc. by rewrite (proj2 (Hof x Hx)).
Qed.
End Fixed.

Ltac fixed w f g :=
  first [apply (fixed_serializable w _ f g)|apply (fixed_canonical w _ f g)]; cbn -[fixed_dec];
  [ done
  | intros s; unfold ser_readdata16, ser_readdata32, ser_readdata64, ReadLE16, ReadLE32, ReadLE64, fixed_dec;
    by destruct (read _ s) as [[? ?]|]
  | .. ].

#[global] Instance u16_serializable : Serializable u16_codec.
Proof. fixed 2%nat u16 (λ x : Z, x); intros x Hx; unfold u16; rewrite Z.mod_small by lia; lia. Qed.
#[global] Instance u16_canonical : Canonical u16_codec.
Proof. fixed 2%nat u16 (λ x : Z, x); intros x Hx; unfold u16; rewrite Z.mod_small by lia; lia. Qed.
#[global] Instance u32_serializable : Serializable u32_codec.
Proof. fixed 4%nat u32 (λ x : Z, x); intros x Hx; unfold is_u32 in *; rewrite u32_small by done; done. Qed.
#[global] Instance u32_canonical : Canonical u32_codec.
Proof. fixed 4%nat u32 (λ x : Z, x); intros x Hx; unfold is_u32 in *; rewrite u32_small by done; done. Qed.
#[global] Instance u64_serializable : Serializable u64_codec.
Proof. fixed 8%nat u64 (λ x : Z, x); intros x Hx; unfold is_u64 in *; rewrite u64_small by done; done. Qed.
#[global] Instance u64_canonical : Canonical u64_codec.
Proof. fixed 8%nat u64 (λ x : Z, x); intros x Hx; unfold is_u64 in *; rewrite u64_small by done; done. Qed.

(** Two's complement conversions invert each other. *)
Lemma i32_u32 x : -2147483648 ≤ x < 2147483648 → i32 (u32 x) = x.
Proof. intros Hx. unfold i32, u32. zlin. Qed.
Lemma u32_i32 x : is_u32 x → u32 (i32 x) = x ∧ -2147483648 ≤ i32 x < 2147483648.
Proof. unfold is_u32, i32, u32. intros Hx. zlin. Qed.
Lemma i64_u64 x : -9223372036854775808 ≤ x < 9223372036854775808 → i64 (u64 x) = x.
Proof. intros Hx. unfold i64, u64. zlin. Qed.
Lemma u64_i64 x : is_u64 x → u64 (i64 x) = x ∧ -9223372036854775808 ≤ i64 x < 9223372036854775808.
Proof. unfold is_u64, i64, u64. intros Hx. zlin. Qed.

#[global] Instance i32_serializable : Serializable i32_codec.
Proof.
  fixed 4%nat u32 i32; intros x Hx.
  - split; [apply u32_range|by apply i32_u32].
  - destruct (u32_i32 x Hx); done.
Qed.
#[global] Instance i32_canonical : Canonical i32_codec.
Proof. fixed 4%nat u32 i32; intros x Hx; by destruct (u32_i32 x Hx). Qed.
#[global] Instance i64_serializable : Serializable i64_codec.
Proof. fixed 8%nat u64 i64; intros x Hx; [split; [apply u64_range|by apply i64_u64]|by destruct (u64_i64 x Hx)]. Qed.
#[global] Instance i64_canonical : Canonical i64_codec.
Proof. fixed 8%nat u64 i64; intros x Hx; by destruct (u64_i64 x Hx). Qed.

#[global] Instance array_serializable n : Serializable (array_codec n).
Proof.
  split; cbn.
  - by intros a [_ Ha].
  - intros a r [Ha _]. by apply read_app'.
  - intros s a r Hs [-> Hl]%read_inv. apply bytes_ok_app in Hs as [? ?]. by split.
Qed.
#[global] Instance array_canonical n : Canonical (array_codec n).
Proof. intros s a r Hs [-> _]%read_inv. done. Qed.

(** The batches do not show: every element is read once, in order. *)
Lemma unser_n_add {A} (c : codec A) n m s :
  unser_n c (n + m) s = ('(l1, s) ← unser_n c n s; '(l2, s) ← unser_n c m s; Some (l1 ++ l2, s)).
Proof.
  revert s. induction n as [|n IH]; intros s; cbn [Nat.add unser_n mbind option_bind].
  - by destruct (unser_n c m s) as [[? ?]|].
  - destruct (dec c s) as [[a s1]|]; [|done]. cbn [mbind option_bind]. rewrite IH.
    destruct (unser_n c n s1) as [[l1 s2]|]; [|done]. cbn [mbind option_bind].
    by destruct (unser_n c m s2) as [[l2 s3]|].
Qed.

Lemma unser_batches_spec {A} (c : codec A) batch fuel i n v s :
  (0 < batch)%nat → (i ≤ n)%nat → (n - i < fuel)%nat →
  unser_batches c batch fuel i n v s = ('(l, s) ← unser_n c (n - i) s; Some (v ++ l, s)).
Proof.
  intros Hb. revert i v s. induction fuel as [|fuel IH]; intros i v s Hi Hf; [lia|]. cbn [unser_batches].
  destruct (Nat.ltb_spec i n) as [Hlt|Hge].
  - cbv zeta. assert (E : (n - i = (i + batch) `min` n - i + (n - (i + batch) `min` n))%nat) by lia.
    rewrite E, unser_n_add. clear E. destruct (unser_n c _ s) as [[l1 s1]|]; [|done]. cbn [mbind option_bind].
    rewrite IH by lia. destruct (unser_n c _ s1) as [[l2 s2]|]; [|done]. cbn [mbind option_bind].
    by rewrite app_assoc.
  - replace (n - i)%nat with 0%nat by lia. cbn. by rewrite app_nil_r.
Qed.

Lemma Unserialize_impl_eq {A} (c : codec A) batch s :
  (0 < batch)%nat → Unserialize_impl c batch s = unser_vector c s.
Proof.
  intros Hb. unfold Unserialize_impl, unser_vector. destruct (ReadCompactSize s) as [[n s']|]; [|done].
  cbn [mbind option_bind]. rewrite unser_batches_spec, Nat.sub_0_r by lia.
  by destruct (unser_n c _ s') as [[? ?]|].
Qed.

Section Products.
Context {A B : Type} (ca : codec A) (cb : codec B).
#[global] Instance pair_serializable `{!Serializable ca, !Serializable cb} : Serializable (pair_codec ca cb).
Proof.
  split; cbn [enc dec enc_ok pair_codec].
  - intros [a b] [Ha Hb]. apply bytes_ok_app. split; by apply enc_bytes.
  - intros [a b] r [Ha Hb]. cbn [fst snd] in *. rewrite <- app_assoc, enc_dec by done.
    cbn [mbind option_bind]. by rewrite enc_dec by done.
  - intros s [a b] r Hs. destruct (dec ca s) as [[a' s']|] eqn:Ea; [|done]. cbn [mbind option_bind].
    destruct (dec cb s') as [[b' s'']|] eqn:Eb; [|done]. cbn [mbind option_bind]. intros [= -> -> ->].
    destruct (dec_wf s a s' Hs Ea) as [Ha Hs']. by destruct (dec_wf s' b r Hs' Eb).
Qed.
#[global] Instance pair_canonical `{!Serializable ca, !Canonical ca, !Canonical cb} : Canonical (pair_codec ca cb).
Proof.
  intros s [a b] r Hs. cbn [enc dec pair_codec fst snd]. destruct (dec ca s) as [[a' s']|] eqn:Ea; [|done].
  cbn [mbind option_bind]. destruct (dec cb s') as [[b' s'']|] eqn:Eb; [|done].
  cbn [mbind option_bind]. intros [= -> -> ->]. destruct (dec_wf s a s' Hs Ea) as [_ Hs'].
  rewrite <- app_assoc, <- (dec_enc s' b r Hs' Eb). by apply dec_enc.
Qed.
Context (mk : A → B) (get : B → A) (Hget : ∀ a, get (mk a) = a).
Lemma iso_serializable `{!Serializable ca} : Serializable (iso_codec ca mk get).
Proof.
  split; cbn [enc dec enc_ok iso_codec].
  - intros b [Hb _]. by apply enc_bytes.
  - intros b r [Hb E]. rewrite enc_dec by done. cbn [mbind option_bind]. by rewrite E.
  - intros s b r Hs. destruct (dec ca s) as [[a s']|] eqn:Ea; [|done]. cbn [mbind option_bind].
    intros [= <- <-]. rewrite Hget. by destruct (dec_wf s a s' Hs Ea).
Qed.
Lemma iso_canonical `{!Canonical ca} : Canonical (iso_codec ca mk get).
Proof.
  intros s b r Hs. cbn [enc dec iso_codec]. destruct (dec ca s) as [[a s']|] eqn:Ea; [|done].
  cbn [mbind option_bind]. intros [= <- <-]. rewrite Hget. by apply dec_enc.
Qed.
End Products.

(** ** CompactSize *)

Lemma dec_inv {A} (c : codec A) `{!Serializable c, !Canonical c} s a r :
  dec c s = Some (a, r) → bytes_ok s → s = enc c a ++ r ∧ enc_ok c a ∧ bytes_ok r.
Proof.
  intros E Hs. destruct (dec_wf s a r Hs E). split; [by apply dec_enc|done].
Qed.

#[global] Arguments ser_readdata8 : simpl never.
#[global] Arguments ser_readdata16 : simpl never.
#[global] Arguments ser_readdata32 : simpl never.
#[global] Arguments ser_readdata64 : simpl never.
#[global] Arguments ser_writedata8 : simpl never.
#[global] Arguments ser_writedata16 : simpl never.
#[global] Arguments ser_writedata32 : simpl never.
#[global] Arguments ser_writedata64 : simpl never.

Lemma rd8 x r : is_u8 x → ser_readdata8 (ser_writedata8 x ++ r) = Some (x, r).
Proof. exact (enc_dec (c := u8_codec) x r). Qed.
Lemma rd16 x r : 0 ≤ x < 65536 → ser_readdata16 (ser_writedata16 x ++ r) = Some (x, r).
Proof. exact (enc_dec (c := u16_codec) x r). Qed.
Lemma rd32 x r : is_u32 x → ser_readdata32 (ser_writedata32 x ++ r) = Some (x, r).
Proof. exact (enc_dec (c := u32_codec) x r). Qed.
Lemma rd64 x r : is_u64 x → ser_readdata64 (ser_writedata64 x ++ r) = Some (x, r).
Proof. exact (enc_dec (c := u64_codec) x r). Qed.

(** What an accepted CompactSize looks like. *)
Lemma ReadCompactSize_inv s x r :
  bytes_ok s → ReadCompactSize s = Some (x, r) →
  s = WriteCompactSize x ++ r ∧ 0 ≤ x ≤ MAX_SIZE ∧ bytes_ok r.
Proof.
  intros Hs. unfold ReadCompactSize. destruct (ser_readdata8 s) as [[ch s1]|] eqn:E; [|done].
  apply (dec_inv u8_codec) in E as (-> & Hch & Hs1); [|done]. cbn in Hch. cbn [mbind option_bind].
  unfold WriteCompactSize, is_u8, is_u32, is_u64 in *.
  destruct (Z.ltb_spec ch 253).
  { cbn [mbind option_bind]. case_match; [done|]. intros [= <- <-].
    rewrite (proj2 (Z.ltb_lt _ _)) by done. split_and!; (done || lia). }
  destruct (Z.eqb_spec ch 253) as [->|Hne1]; [|destruct (Z.eqb_spec ch 254) as [->|Hne2]].
  - destruct (ser_readdata16 s1) as [[n s2]|] eqn:E; [|done]. cbn [mbind option_bind].
    apply (dec_inv u16_codec) in E as (-> & Hn & Hs2); [|done]. cbn in Hn.
    destruct (Z.ltb_spec n 253); [done|]. cbn [mbind option_bind]. case_match; [done|]. intros [= <- <-].
    rewrite (proj2 (Z.ltb_ge n 253)), (proj2 (Z.leb_le n 65535)) by lia. rewrite <- app_assoc.
    split_and!; (done || lia).
  - destruct (ser_readdata32 s1) as [[n s2]|] eqn:E; [|done]. cbn [mbind option_bind].
    apply (dec_inv u32_codec) in E as (-> & Hn & Hs2); [|done]. cbn in Hn. unfold is_u32 in Hn.
    destruct (Z.ltb_spec n 65536); [done|]. cbn [mbind option_bind]. case_match; [done|]. intros [= <- <-].
    rewrite (proj2 (Z.ltb_ge n 253)), (proj2 (Z.leb_gt n 65535)), (proj2 (Z.leb_le n 4294967295)) by lia.
    rewrite <- app_assoc. split_and!; (done || lia).
  - destruct (ser_readdata64 s1) as [[n s2]|] eqn:E; [|done]. cbn [mbind option_bind].
    apply (dec_inv u64_codec) in E as (-> & Hn & Hs2); [|done].
    destruct (Z.ltb_spec n 4294967296); [done|]. cbn [mbind option_bind]. unfold MAX_SIZE. case_match; [done|lia].
Qed.

Lemma ReadCompactSize_app x r :
  0 ≤ x ≤ MAX_SIZE → ReadCompactSize (WriteCompactSize x ++ r) = Some (x, r).
Proof.
  unfold MAX_SIZE. intros Hx. unfold WriteCompactSize, ReadCompactSize, MAX_SIZE.
  assert (Hgt : (x >? 268435456) = false) by lia.
  destruct (Z.ltb_spec x 253) as [H1|H1].
  { rewrite rd8 by word_lia. cbn [mbind option_bind]. rewrite (proj2 (Z.ltb_lt x 253)) by lia. cbn [mbind option_bind]. by rewrite Hgt. }
  destruct (Z.leb_spec x 65535) as [H2|H2]; [|rewrite (proj2 (Z.leb_le x 4294967295)) by lia];
    rewrite <- app_assoc, rd8 by word_lia;
    cbn [mbind option_bind Z.ltb Z.eqb Z.compare Pos.compare Pos.compare_cont Pos.eqb].
  - rewrite rd16 by lia. cbn [mbind option_bind]. rewrite (proj2 (Z.ltb_ge x 253)) by lia. cbn [mbind option_bind]. by rewrite Hgt.
  - rewrite rd32 by word_lia. cbn [mbind option_bind]. rewrite (proj2 (Z.ltb_ge x 65536)) by lia. cbn [mbind option_bind]. by rewrite Hgt.
Qed.

Lemma WriteCompactSize_ok x : 0 ≤ x → bytes_ok (WriteCompactSize x).
Proof.
  intros Hx. unfold WriteCompactSize, ser_writedata8, ser_writedata16, ser_writedata32, ser_writedata64,
    WriteLE16, WriteLE32, WriteLE64.
  repeat case_match; rewrite ?bytes_ok_app;
    repeat split; try (apply to_digits_ok; lia); apply bytes_ok_1, u8_range.
Qed.

#[global] Instance compact_serializable : Serializable compact_codec.
Proof.
  split; cbn [enc dec enc_ok compact_codec].
  - intros a [Ha _]. by apply WriteCompactSize_ok.
  - intros a r Ha. by apply ReadCompactSize_app.
  - intros s a r Hs H. by apply ReadCompactSize_inv in H as (_ & ? & ?).
Qed.
#[global] Instance compact_canonical : Canonical compact_codec.
Proof. intros s a r Hs H. by apply ReadCompactSize_inv in H as (? & _ & _). Qed.

Lemma GetSizeOfCompactSize_spec x :
  0 ≤ x → GetSizeOfCompactSize x = Z.of_nat (length (WriteCompactSize x)).
Proof.
  intros Hx. unfold GetSizeOfCompactSize, WriteCompactSize. repeat case_match; reflexivity.
Qed.

(** ** Strings, byte vectors, vectors *)

Lemma read_blocks_spec fuel n v s :
  (n ≤ fuel)%nat →
  read_blocks fuel n v s = ('(b, s) ← read n s; Some (v ++ b, s)).
Proof.
  revert n v s. induction fuel as [|fuel IH]; intros n v s Hn.
  - replace n with 0%nat by lia. simpl. by rewrite app_nil_r.
  - destruct n as [|n]; [simpl; by rewrite app_nil_r|]. cbn [read_blocks].
    set (N := S n) in *. set (blk := Nat.min N BLK).
    assert (Hb : (0 < blk ≤ N)%nat) by (subst blk; unfold BLK; lia).
    destruct (read blk s) as [[b s']|] eqn:E.
    + cbn [mbind option_bind]. rewrite IH by lia. apply read_inv in E as [-> Hl].
      unfold read. rewrite length_app.
      destruct (Nat.leb_spec (N - blk) (length s')), (Nat.leb_spec N (length b + length s')); try lia; [|done].
      cbn [mbind option_bind]. rewrite take_app_ge, drop_app_ge by lia. rewrite Hl.
      by rewrite app_assoc.
    + cbn [mbind option_bind]. unfold read in E |- *.
      destruct (Nat.leb_spec blk (length s)); [done|].
      destruct (Nat.leb_spec N (length s)); [lia|done].
Qed.

Lemma unser_blob_string s : unser_blob s = unser_string s.
Proof.
  unfold unser_blob, unser_string. destruct (ReadCompactSize s) as [[n s']|]; [|done].
  cbn [mbind option_bind]. rewrite read_blocks_spec by done.
  destruct (Z.eqb_spec n 0) as [->|]; [done|].
  destruct (read (Z.to_nat n) s') as [[b s'']|]; done.
Qed.

#[global] Instance string_serializable : Serializable string_codec.
Proof.
  split; cbn [enc dec enc_ok string_codec]; unfold ser_string, unser_string.
  - intros a [Ha _]. apply bytes_ok_app. split; [apply WriteCompactSize_ok; lia|done].
  - intros a r [Ha Hl]. rewrite <- app_assoc, ReadCompactSize_app by lia. cbn [mbind option_bind].
    destruct (Z.eqb_spec (Z.of_nat (length a)) 0) as [E|E].
    + assert (a = []) as -> by (apply nil_length_inv; lia). done.
    + apply read_app'. lia.
  - intros s a r Hs. destruct (ReadCompactSize s) as [[n s']|] eqn:E; [|done]. cbn [mbind option_bind].
    apply ReadCompactSize_inv in E as (-> & Hn & Hs'); [|done].
    destruct (Z.eqb_spec n 0) as [->|]; [intros [= <- <-]; split; [split; [constructor|done]|done]|].
    intros [-> Hl]%read_inv. apply bytes_ok_app in Hs' as [? ?]. unfold sized. rewrite Hl.
    repeat split; try done. lia.
Qed.
#[global] Instance string_canonical : Canonical string_codec.
Proof.
  intros s a r Hs. cbn [enc dec string_codec]; unfold ser_string, unser_string.
  destruct (ReadCompactSize s) as [[n s']|] eqn:E; [|done]. cbn [mbind option_bind].
  apply ReadCompactSize_inv in E as (-> & Hn & Hs'); [|done].
  destruct (Z.eqb_spec n 0) as [->|]; [by intros [= <- <-]|].
  intros [-> Hl]%read_inv. rewrite Hl, Z2Nat.id, <- app_assoc by lia. done.
Qed.

#[global] Instance blob_serializable : Serializable blob_codec.
Proof.
  split; cbn [enc dec enc_ok blob_codec]; unfold ser_blob.
  - exact (enc_bytes (c := string_codec)).
  - intros a r Ha. rewrite unser_blob_string. by apply (enc_dec (c := string_codec)).
  - intros s a r Hs. rewrite unser_blob_string. by apply (dec_wf (c := string_codec)).
Qed.
#[global] Instance blob_canonical : Canonical blob_codec.
Proof.
  intros s a r Hs. cbn [enc dec blob_codec]. rewrite unser_blob_string.
  by apply (dec_enc (c := string_codec)).
Qed.

(** The vector round trip, element by element. *)
Lemma unser_n_elems {A} (c : codec A) v r :
  Forall (λ a, ∀ r, dec c (enc c a ++ r) = Some (a, r)) v →
  unser_n c (length v) (concat (map (enc c) v) ++ r) = Some (v, r).
Proof.
  induction 1 as [|a v Ha _ IH]; simpl; [done|].
  rewrite <- app_assoc, Ha. simpl. by rewrite IH.
Qed.
Lemma unser_vector_elems {A} (c : codec A) v r :
  Forall (λ a, ∀ r, dec c (enc c a ++ r) = Some (a, r)) v → Z.of_nat (length v) ≤ MAX_SIZE →
  unser_vector c (ser_vector c v ++ r) = Some (v, r).
Proof.
  intros Hv Hl. unfold unser_vector, ser_vector. rewrite <- app_assoc, ReadCompactSize_app by lia.
  cbn [mbind option_bind]. rewrite Nat2Z.id. by apply unser_n_elems.
Qed.

Section VectorLaws.
Context {A} (c : codec A) `{!Serializable c}.

Lemma unser_n_app v r :
  Forall (enc_ok c) v → unser_n c (length v) (concat (map (enc c) v) ++ r) = Some (v, r).
Proof. intros Hv. apply unser_n_elems. revert Hv. apply Forall_impl. intros a Ha r'. by apply enc_dec. Qed.

Lemma unser_n_wf n s v r :
  bytes_ok s → unser_n c n s = Some (v, r) → Forall (enc_ok c) v ∧ length v = n ∧ bytes_ok r.
Proof.
  revert s v. induction n as [|n IH]; intros s v Hs; simpl; [by intros [= <- <-]|].
  destruct (dec c s) as [[a s1]|] eqn:E; [|done]. simpl.
  destruct (unser_n c n s1) as [[l s2]|] eqn:E2; [|done]. simpl. intros [= <- <-].
  destruct (dec_wf s a s1 Hs E) as [Ha Hs1]. destruct (IH s1 l Hs1 E2) as (Hl & <- & Hr).
  split_and!; [by constructor|done|done].
Qed.

#[global] Instance vector_serializable : Serializable (vector_codec c).
Proof.
  split; cbn [enc dec enc_ok vector_codec]; unfold ser_vector, unser_vector.
  - intros v [Hv _]. apply bytes_ok_app. split; [apply WriteCompactSize_ok; lia|].
    induction Hv; simpl; [constructor|]. apply bytes_ok_app. split; [by apply enc_bytes|done].
  - intros v r [Hv Hl]. rewrite <- app_assoc, ReadCompactSize_app by lia. cbn [mbind option_bind].
    rewrite Nat2Z.id. by apply unser_n_app.
  - intros s v r Hs. destruct (ReadCompactSize s) as [[n s']|] eqn:E; [|done]. cbn [mbind option_bind].
    apply ReadCompactSize_inv in E as (_ & Hn & Hs'); [|done].
    intros (Hv & Hl & Hr)%unser_n_wf; [|done]. split_and!; [done|lia|done].
Qed.

#[global] Instance vector_canonical `{!Canonical c} : Canonical (vector_codec c).
Proof.
  intros s v r Hs. cbn [enc dec vector_codec]; unfold ser_vector, unser_vector.
  destruct (ReadCompactSize s) as [[n s']|] eqn:E; [|done]. cbn [mbind option_bind].
  apply ReadCompactSize_inv in E as (-> & Hn & Hs'); [|done]. intros Hd.
  destruct (unser_n_wf _ _ _ _ Hs' Hd) as (_ & Hl & _). rewrite Hl, Z2Nat.id, <- app_assoc by lia.
  f_equal. clear Hs Hn Hl. revert n v s' Hs' Hd. intros n. induction (Z.to_nat n) as [|k IH];
    intros v s' Hs' Hd; simpl in Hd; [by injection Hd as <- <-|].
  destruct (dec c s') as [[a s1]|] eqn:E; [|done]. simpl in Hd.
  destruct (unser_n c k s1) as [[l s2]|] eqn:E2; [|done]. simpl in Hd. injection Hd as <- <-.
  destruct (dec_inv c _ _ _ E Hs') as (-> & _ & Hs1). simpl. rewrite <- app_assoc. f_equal.
  by apply IH.
Qed.
End VectorLaws.

(** ** VarInt *)

(** Numbers with at most [k] digits: below [128 + 128^2 + ... + 128^k]. *)
Fixpoint varint_cap (k : nat) : Z :=
  match k with O => 0 | S k' => 128 * (varint_cap k' + 1) end.

Lemma varint_cap_pow k : 2 ^ (7 * Z.of_nat (S k)) ≤ varint_cap (S k).
Proof.
  induction k as [|k IH]; [done|].
  rewrite Nat2Z.inj_succ, Z.mul_succ_r, Z.pow_add_r by lia. change (2 ^ 7) with 128.
  cbn [varint_cap] in *. lia.
Qed.

Lemma varint_fits w n : (0 < w)%nat → n < 2 ^ Z.of_nat w → n < varint_cap (tmp_size w).
Proof.
  intros Hw Hn. unfold tmp_size. destruct ((w + 6) / 7)%nat as [|k] eqn:E; [zlin|].
  pose proof (varint_cap_pow k). assert (2 ^ Z.of_nat w ≤ 2 ^ (7 * Z.of_nat (S k))); [|lia].
  apply Z.pow_le_mono_r; [lia|]. zlin.
Qed.

(** The recursive description: [vcont m] are the digits of [m], each with its
    continuation bit. *)
Definition vcont (k : nat) (m : Z) : bytes := rev (varint_tmp k 1 m).

Lemma varint_tmp_len k len1 len2 n :
  (0 < len1)%nat → (0 < len2)%nat → varint_tmp k len1 n = varint_tmp k len2 n.
Proof.
  revert len1 len2 n. induction k as [|k IH]; intros len1 len2 n H1 H2; [done|].
  cbn [varint_tmp]. destruct len1, len2; try lia. cbn [Nat.eqb]. f_equal.
  destruct (n <=? 127); [done|apply IH; lia].
Qed.

Lemma vcont_S k m :
  vcont (S k) m = (if m <=? 127 then [] else vcont k (Z.shiftr m 7 - 1)) ++ [Z.lor (Z.land m 127) 128].
Proof.
  unfold vcont. cbn [varint_tmp rev Nat.eqb]. f_equal. destruct (m <=? 127); [done|].
  f_equal. apply varint_tmp_len; lia.
Qed.

Lemma WriteVarInt_S w k n :
  tmp_size w = S k →
  WriteVarInt w n = (if n <=? 127 then [] else vcont k (Z.shiftr n 7 - 1)) ++ [Z.land n 127].
Proof.
  intros Hk. unfold WriteVarInt. rewrite Hk. cbn [varint_tmp rev Nat.eqb]. rewrite Z.lor_0_r.
  f_equal. by destruct (n <=? 127).
Qed.

Lemma land127 x : Z.land x 127 = x mod 128.
Proof. change 127 with (Z.ones 7). by rewrite Z.land_ones by lia. Qed.
Lemma shiftr7 x : Z.shiftr x 7 = x / 128.
Proof. by rewrite Z.shiftr_div_pow2 by lia. Qed.
Lemma lor_digit x d : 0 ≤ d < 128 → Z.lor (Z.shiftl x 7) d = 128 * x + d.
Proof. intros Hd. rewrite Z.lor_comm, lor_add_disjoint by lia. lia. Qed.
Lemma digit_cont d : 0 ≤ d < 128 → Z.lor d 128 = d + 128.
Proof. intros Hd. change 128 with (Z.shiftl 1 7) at 1. rewrite lor_add_disjoint by lia. lia. Qed.

(** The two kinds of bytes. *)
Lemma byte_split b : is_u8 b →
  (b < 128 ∧ Z.land b 127 = b ∧ Z.land b 128 = 0) ∨
  (128 ≤ b ∧ Z.land b 127 = b - 128 ∧ Z.land b 128 ≠ 0).
Proof.
  intros Hb. unfold is_u8 in Hb. rewrite land127. destruct (decide (b < 128)).
  - left. split_and!; [done|zlin|]. apply Z.bits_inj'. intros i Hi. rewrite Z.land_spec, Z.bits_0.
    destruct (decide (i = 7)) as [->|].
    + rewrite (testbit_high b 7) by lia. done.
    + change 128 with (2 ^ 7). rewrite Z.pow2_bits_false by lia. apply andb_false_r.
  - right. split_and!; [lia|zlin|]. intros H. apply (f_equal (λ z, Z.testbit z 7)) in H.
    rewrite Z.land_spec, Z.bits_0 in H. change (Z.testbit 128 7) with true in H.
    rewrite andb_true_r in H. assert (Ht : Z.testbit b 7 = true); [|congruence].
    replace b with (Z.lor (b - 128) (Z.shiftl 1 7)) by (rewrite lor_add_disjoint by lia; lia).
    rewrite Z.lor_spec, Z.shiftl_spec by lia. apply orb_true_r.
Qed.

(** One digit of [ReadVarInt]. *)
Lemma ReadVarInt_cont M n d s :
  0 ≤ d < 128 → n ≤ M / 128 → 128 * n + d < M →
  ReadVarInt_loop M n ((d + 128) :: s) = ReadVarInt_loop M (128 * n + d + 1) s.
Proof.
  intros Hd Hn HM. cbn [ReadVarInt_loop]. rewrite shiftr7.
  destruct (n >? M / 128) eqn:E; [lia|].
  destruct (byte_split (d + 128)) as [(?&?&?)|(_ & -> & Hc)]; [unfold is_u8; lia|lia|].
  rewrite (proj2 (Z.eqb_neq _ _) Hc). cbn [negb]. replace (d + 128 - 128) with d by lia.
  rewrite lor_digit by done. by rewrite (proj2 (Z.eqb_neq (128 * n + d) M)) by lia.
Qed.

Lemma ReadVarInt_last M n d s :
  0 ≤ d < 128 → n ≤ M / 128 → ReadVarInt_loop M n (d :: s) = Some (128 * n + d, s).
Proof.
  intros Hd Hn. cbn [ReadVarInt_loop]. rewrite shiftr7. destruct (n >? M / 128) eqn:E; [lia|].
  destruct (byte_split d) as [(_ & -> & ->)|(?&?&?)]; [unfold is_u8; lia| |lia].
  cbn [Z.eqb negb]. by rewrite lor_digit.
Qed.

Lemma ReadVarInt_vcont k M m s :
  0 ≤ m < varint_cap k → m < M →
  ReadVarInt_loop M 0 (vcont k m ++ s) = ReadVarInt_loop M (m + 1) s.
Proof.
  revert m s. induction k as [|k IH]; intros m s Hm HM; [simpl in Hm; lia|].
  cbn [varint_cap] in Hm. rewrite vcont_S, land127, digit_cont, <- app_assoc by zlin. cbn [app].
  destruct (Z.leb_spec m 127).
  - cbn [app]. rewrite ReadVarInt_cont by zlin. f_equal. zlin.
  - rewrite shiftr7, IH by zlin. rewrite ReadVarInt_cont by zlin. f_equal. zlin.
Qed.

Lemma ReadVarInt_app w n r :
  (0 < w)%nat → 0 ≤ n < 2 ^ Z.of_nat w →
  ReadVarInt (2 ^ Z.of_nat w - 1) (WriteVarInt w n ++ r) = Some (n, r).
Proof.
  intros Hw Hn. pose proof (varint_fits w n Hw (proj2 Hn)) as Hc.
  destruct (tmp_size w) as [|k] eqn:Hk; [simpl in Hc; lia|]. cbn [varint_cap] in Hc.
  rewrite (WriteVarInt_S w k) by done. unfold ReadVarInt.
  rewrite land127, <- app_assoc. cbn [app]. destruct (Z.leb_spec n 127).
  - cbn [app]. rewrite ReadVarInt_last by zlin. do 2 f_equal. zlin.
  - rewrite shiftr7, ReadVarInt_vcont by zlin. rewrite ReadVarInt_last by zlin. do 2 f_equal. zlin.
Qed.

Lemma vcont_fuel k1 k2 m :
  0 ≤ m → m < varint_cap k1 → m < varint_cap k2 → vcont k1 m = vcont k2 m.
Proof.
  revert k2 m. induction k1 as [|k1 IH]; intros [|k2] m Hm H1 H2; try (simpl in *; lia).
  cbn [varint_cap] in H1, H2. rewrite !vcont_S. f_equal. destruct (Z.leb_spec m 127); [done|].
  rewrite shiftr7. apply IH; zlin.
Qed.

(** Nothing else is accepted: a number has one encoding. *)
Lemma ReadVarInt_inv w k n0 s n r :
  tmp_size w = S k → (7 ≤ w)%nat → bytes_ok s → 0 ≤ n0 →
  ReadVarInt_loop (2 ^ Z.of_nat w - 1) n0 s = Some (n, r) →
  128 * n0 ≤ n < 2 ^ Z.of_nat w ∧ bytes_ok r ∧
  (if n0 =? 0 then s else vcont k (n0 - 1) ++ s) = WriteVarInt w n ++ r.
Proof.
  intros Hk Hw Hs. revert n0.
  assert (Hpow : 2 ^ Z.of_nat w = 128 * 2 ^ (Z.of_nat w - 7)).
  { replace (Z.of_nat w) with (7 + (Z.of_nat w - 7)) at 1 by lia. by rewrite Z.pow_add_r by lia. }
  set (P := 2 ^ (Z.of_nat w - 7)) in *. rewrite Hpow.
  induction Hs as [|b s Hb Hs IH]; intros n0 Hn0; [done|].
  cbn [ReadVarInt_loop]. rewrite shiftr7. destruct (n0 >? (128 * P - 1) / 128) eqn:Eg; [done|].
  assert (Hle : n0 < P) by zlin.
  destruct (byte_split b Hb) as [(Hlt & -> & ->)|(Hge & -> & Hc)].
  - cbn [Z.eqb negb]. unfold is_u8 in Hb. rewrite lor_digit by lia. intros [= <- <-].
    split; [lia|]. split; [done|]. rewrite (WriteVarInt_S w k) by done.
    rewrite land127, shiftr7, <- app_assoc. cbn [app].
    replace ((128 * n0 + b) mod 128) with b by zlin.
    replace ((128 * n0 + b) / 128 - 1) with (n0 - 1) by zlin.
    destruct (Z.eqb_spec n0 0), (Z.leb_spec (128 * n0 + b) 127); (done || lia).
  - unfold is_u8 in Hb. rewrite (proj2 (Z.eqb_neq _ _) Hc). cbn [negb].
    rewrite lor_digit by lia. destruct (128 * n0 + (b - 128) =? _) eqn:EM; [done|].
    intros H. destruct (IH (128 * n0 + (b - 128) + 1) ltac:(lia) H) as (Hn & Hr & E). split; [lia|]. split; [done|].
    rewrite <- E. rewrite (proj2 (Z.eqb_neq (128 * n0 + (b - 128) + 1) 0)) by lia.
    replace (128 * n0 + (b - 128) + 1 - 1) with (128 * n0 + (b - 128)) by lia.
    pose proof (varint_fits w n ltac:(lia) ltac:(lia)) as Hc'. rewrite Hk in Hc'. cbn [varint_cap] in Hc'.
    destruct k as [|k]; [simpl in Hc'; lia|]. cbn [varint_cap] in Hc'.
    rewrite (vcont_S k (128 * n0 + (b - 128))), land127, shiftr7, digit_cont, <- app_assoc by zlin. cbn [app].
    replace ((128 * n0 + (b - 128)) mod 128 + 128) with b by zlin.
    replace ((128 * n0 + (b - 128)) / 128 - 1) with (n0 - 1) by zlin.
    destruct (Z.eqb_spec n0 0), (Z.leb_spec (128 * n0 + (b - 128)) 127); try lia; [done|].
    f_equal. apply vcont_fuel; cbn [varint_cap]; zlin.
Qed.

Lemma varint_tmp_ok k len n : bytes_ok (varint_tmp k len n).
Proof.
  revert len n. induction k as [|k IH]; intros len n; cbn [varint_tmp]; [constructor|].
  apply bytes_ok_cons. rewrite land127. split; [|by destruct (n <=? 127); [constructor|]].
  destruct (len =? 0)%nat; [rewrite Z.lor_0_r|rewrite digit_cont by zlin]; unfold is_u8; zlin.
Qed.

Lemma varint_serializable w : (7 ≤ w)%nat → Serializable (varint_codec w).
Proof.
  intros Hw. split; cbn [enc dec enc_ok varint_codec].
  - intros a _. apply rev_bytes_ok, varint_tmp_ok.
  - intros a r Ha. apply ReadVarInt_app; [lia|done].
  - intros s a r Hs H. destruct (tmp_size w) as [|k] eqn:Hk; [unfold tmp_size in Hk; zlin|].
    destruct (ReadVarInt_inv w k 0 s a r Hk Hw Hs ltac:(lia) H) as (? & ? & _). split; [lia|done].
Qed.
Lemma varint_canonical w : (7 ≤ w)%nat → Canonical (varint_codec w).
Proof.
  intros Hw s a r Hs H. destruct (tmp_size w) as [|k] eqn:Hk; [unfold tmp_size in Hk; zlin|].
  by destruct (ReadVarInt_inv w k 0 s a r Hk Hw Hs ltac:(lia) H) as (_ & _ & ?).
Qed.

Lemma varint_size_loop k len n : GetSizeOfVarInt_loop k n = length (varint_tmp k len n).
Proof.
  revert len n. induction k as [|k IH]; intros len n; cbn [GetSizeOfVarInt_loop varint_tmp length]; [done|].
  f_equal. destruct (n <=? 127); [done|apply IH].
Qed.

Lemma varint_tmp_length k len n : (length (varint_tmp k len n) ≤ k)%nat.
Proof.
  revert len n. induction k as [|k IH]; intros len n; cbn [varint_tmp length]; [done|].
  destruct (n <=? 127); simpl; [lia|]. specialize (IH (S len) (Z.shiftr n 7 - 1)). lia.
Qed.

(** Integer encodings.  For CompactSize (up to [MAX_SIZE]) and for VarInt
    of every width from 7 bits: writing and reading back returns the number,
    and a stream that is accepted starts with the encoding of the number it
    yields, so each number has exactly one encoding.  The digits of a VarInt
    fit the local array of [(w + 6) / 7] bytes, and the size functions return
    the number of bytes written. *)
Theorem integer_encodings (w : nat) (n x : Z) (r s : bytes) :
  (7 ≤ w)%nat → 0 ≤ n < 2 ^ Z.of_nat w → 0 ≤ x ≤ MAX_SIZE → bytes_ok s →
  ReadVarInt (2 ^ Z.of_nat w - 1) (WriteVarInt w n ++ r) = Some (n, r) ∧
  (∀ n' r', ReadVarInt (2 ^ Z.of_nat w - 1) s = Some (n', r') → s = WriteVarInt w n' ++ r') ∧
  (length (WriteVarInt w n) ≤ tmp_size w)%nat ∧ GetSizeOfVarInt w n = length (WriteVarInt w n) ∧
  ReadCompactSize (WriteCompactSize x ++ r) = Some (x, r) ∧
  (∀ x' r', ReadCompactSize s = Some (x', r') → s = WriteCompactSize x' ++ r') ∧
  GetSizeOfCompactSize x = Z.of_nat (length (WriteCompactSize x)).
Proof.
  intros Hw Hn Hx Hs. split_and!.
  - apply ReadVarInt_app; [lia|done].
  - intros n' r'. by apply (dec_enc (Canonical := varint_canonical w Hw)).
  - unfold WriteVarInt. rewrite length_rev. apply varint_tmp_length.
  - unfold WriteVarInt, GetSizeOfVarInt. rewrite length_rev. apply varint_size_loop.
  - by apply ReadCompactSize_app.
  - intros x' r' H. by apply ReadCompactSize_inv in H as (? & _ & _).
  - apply GetSizeOfCompactSize_spec. lia.
Qed.

Lemma integer_encodings_witness :
  ReadVarInt (2 ^ Z.of_nat 32 - 1) (WriteVarInt 32 16511 ++ [7]) = Some (16511, [7]) ∧
  (∀ n' r', ReadVarInt (2 ^ Z.of_nat 32 - 1) [0x8E; 0xFE; 1] = Some (n', r') → [0x8E; 0xFE; 1] = WriteVarInt 32 n' ++ r') ∧
  (length (WriteVarInt 32 16511) ≤ tmp_size 32)%nat ∧ GetSizeOfVarInt 32 16511 = length (WriteVarInt 32 16511) ∧
  ReadCompactSize (WriteCompactSize 253 ++ [7]) = Some (253, [7]) ∧
  (∀ x' r', ReadCompactSize [0x8E; 0xFE; 1] = Some (x', r') → [0x8E; 0xFE; 1] = WriteCompactSize x' ++ r') ∧
  GetSizeOfCompactSize 253 = Z.of_nat (length (WriteCompactSize 253)).
Proof.
  apply (integer_encodings 32 16511 253 [7] [0x8E; 0xFE; 1]).
  - lia.
  - change (2 ^ Z.of_nat 32) with 4294967296. lia.
  - unfold MAX_SIZE. lia.
  - repeat (apply bytes_ok_cons; split; [unfold is_u8; lia|]). constructor.
Defined.
