(* ===== verification/Transaction.v ===== *)
(** * Transactions (src/src/primitives/transaction.h and .cpp, amount.h)

    The data of a transaction, its two wire formats, its identifiers and the
    sums of its outputs.  A [uint256] is its 32 bytes, a [CScript] its bytes. *)

From stdpp Require Import base numbers list option countable.
From Stdlib Require Import ZArith Lia ZifyNat.
From S2P Require Import Prelude Endian Hash Fips202 Serialize.

(** ** Amounts *)
Definition COIN : Z := 100000000.
Definition CENT : Z := 1000000.
Definition MAX_MONEY : Z := 1609562500 * COIN + 25 * 20 * CENT.
Definition MoneyRange (nValue : Z) : bool := (nValue >=? 0) && (nValue <=? MAX_MONEY).

(** ** Opaque blobs *)
Definition uint256_null : bytes := replicate 32 0.
Definition IsNull256 (b : bytes) : bool := forallb (λ x, x =? 0) b.
(** [memcmp] on blobs of one size: the sign of the first difference. *)
Fixpoint Compare (a b : bytes) : Z :=
  match a, b with
  | x :: a', y :: b' => if x <? y then -1 else if y <? x then 1 else Compare a' b'
  | _, _ => 0
  end.

(** ** Data *)
Record COutPoint := mkCOutPoint { op_hash : bytes; op_n : Z }.
Definition COutPoint_null : COutPoint := mkCOutPoint uint256_null 0xffffffff.
Definition COutPoint_IsNull (o : COutPoint) : bool := IsNull256 (op_hash o) && (op_n o =? 0xffffffff).
Definition COutPoint_lt (a b : COutPoint) : bool :=
  let cmp := Compare (op_hash a) (op_hash b) in
  (cmp <? 0) || ((cmp =? 0) && (op_n a <? op_n b)).

Record CTxIn := mkCTxIn {
  prevout : COutPoint; scriptSig : bytes; nSequence : Z; scriptWitness : list bytes }.
Definition SEQUENCE_FINAL : Z := 0xffffffff.
Definition SEQUENCE_LOCKTIME_DISABLE_FLAG : Z := 2 ^ 31.
Definition SEQUENCE_LOCKTIME_TYPE_FLAG : Z := 2 ^ 22.
Definition SEQUENCE_LOCKTIME_MASK : Z := 0x0000ffff.
Definition SEQUENCE_LOCKTIME_GRANULARITY : Z := 9.
Record CTxOut := mkCTxOut { nValue : Z; scriptPubKey : bytes }.
Definition CTxOut_IsEmpty (o : CTxOut) : bool := (nValue o =? 0) && (length (scriptPubKey o) =? 0)%nat.
Definition CTxOut_null : CTxOut := mkCTxOut (-1) [].
Definition CTxOut_IsNull (o : CTxOut) : bool := nValue o =? -1.
Record CTransaction := mkCTransaction {
  nVersion : Z; vin : list CTxIn; vout : list CTxOut; nLockTime : Z }.

#[global] Instance COutPoint_eq_dec : EqDecision COutPoint.
Proof. solve_decision. Defined.
#[global] Instance CTxIn_eq_dec : EqDecision CTxIn.
Proof. solve_decision. Defined.
#[global] Instance CTxOut_eq_dec : EqDecision CTxOut.
Proof. solve_decision. Defined.
#[global] Instance CTransaction_eq_dec : EqDecision CTransaction.
Proof. solve_decision. Defined.
#[global] Program Instance COutPoint_countable : Countable COutPoint :=
  inj_countable' (λ o, (op_hash o, op_n o)) (λ p, mkCOutPoint (fst p) (snd p)) _.
Next Obligation. by intros []. Qed.

(** ** Serialization of the parts *)
Definition uint256_codec : codec bytes := array_codec 32.
Definition COutPoint_codec : codec COutPoint :=
  iso_codec (pair_codec uint256_codec u32_codec)
    (λ f, mkCOutPoint (fst f) (snd f)) (λ o, (op_hash o, op_n o)).
(** The witness is not serialized with the input. *)
Definition CTxIn_codec : codec CTxIn :=
  iso_codec (pair_codec COutPoint_codec (pair_codec blob_codec u32_codec))
    (λ f, mkCTxIn (fst f) (fst (snd f)) (snd (snd f)) [])
    (λ i, (prevout i, (scriptSig i, nSequence i))).
Definition CTxOut_codec : codec CTxOut :=
  iso_codec (pair_codec i64_codec blob_codec)
    (λ f, mkCTxOut (fst f) (snd f)) (λ o, (nValue o, scriptPubKey o)).
Definition vin_codec : codec (list CTxIn) := vector_codec CTxIn_codec.
Definition vout_codec : codec (list CTxOut) := vector_codec CTxOut_codec.
Definition stack_codec : codec (list bytes) := vector_codec blob_codec.

(** ** Transactions *)
Definition HasWitness (tx : CTransaction) : bool :=
  existsb (λ i, negb (length (scriptWitness i) =? 0)%nat) (vin tx).

Definition set_witness (i : CTxIn) (stack : list bytes) : CTxIn :=
  mkCTxIn (prevout i) (scriptSig i) (nSequence i) stack.

Definition SerializeTransaction (fAllowWitness : bool) (tx : CTransaction) : bytes :=
  let flags := if fAllowWitness && HasWitness tx then 1 else 0 in
  enc i32_codec (nVersion tx)
  ++ (if negb (flags =? 0) then enc vin_codec [] ++ enc u8_codec flags else [])
  ++ enc vin_codec (vin tx) ++ enc vout_codec (vout tx)
  ++ (if negb (Z.land flags 1 =? 0) then concat (map (λ i, enc stack_codec (scriptWitness i)) (vin tx)) else [])
  ++ enc u32_codec (nLockTime tx).

(** [s >> tx.vin[i].scriptWitness.stack], for each [i]. *)
Fixpoint read_witnesses (v : list CTxIn) (s : bytes) : option (list CTxIn * bytes) :=
  match v with
  | [] => Some ([], s)
  | i :: v' =>
      '(stack, s) ← dec stack_codec s;
      '(v'', s) ← read_witnesses v' s;
      Some (set_witness i stack :: v'', s)
  end.

Definition UnserializeTransaction (fAllowWitness : bool) : reader CTransaction := λ s,
  '(ver, s) ← dec i32_codec s;
  '(ins, s) ← dec vin_codec s;
  '(flags, (ins, (outs, s))) ←
    (if (length ins =? 0)%nat && fAllowWitness then
       '(flags, s) ← dec u8_codec s;
       if negb (flags =? 0) then
         '(ins, s) ← dec vin_codec s; '(outs, s) ← dec vout_codec s; Some (flags, (ins, (outs, s)))
       else Some (flags, (ins, ([], s)))
     else '(outs, s) ← dec vout_codec s; Some (0, (ins, (outs, s))));
  '(flags, (ins, s)) ←
    (if negb (Z.land flags 1 =? 0) && fAllowWitness then
       '(ins, s) ← read_witnesses ins s; Some (Z.lxor flags 1, (ins, s))
     else Some (flags, (ins, s)));
  if negb (flags =? 0) then None
  else
    '(lock, s) ← dec u32_codec s;
    Some (mkCTransaction ver ins outs lock, s).

(** The writes of the serialization reach the hasher one after the other; where
    they are cut does not matter ([Hashes.SerializeHash_concat]). *)
Definition GetHash (tx : CTransaction) : option bytes :=
  Hashes.SerializeHash [SerializeTransaction false tx].
Definition GetWitnessHash (tx : CTransaction) : option bytes :=
  if negb (HasWitness tx) then GetHash tx
  else Hashes.SerializeHash [SerializeTransaction true tx].
Definition GetTotalSize (tx : CTransaction) : Z := Z.of_nat (length (SerializeTransaction true tx)).

Definition IsCoinBase (tx : CTransaction) : bool :=
  (length (vin tx) =? 1)%nat
  && match vin tx with i :: _ => COutPoint_IsNull (prevout i) | [] => false end
  && (1 <=? length (vout tx))%nat.
Definition IsCoinStake (tx : CTransaction) : bool :=
  (0 <? length (vin tx))%nat
  && match vin tx with i :: _ => negb (COutPoint_IsNull (prevout i)) | [] => false end
  && (2 <=? length (vout tx))%nat
  && match vout tx with o :: _ => CTxOut_IsEmpty o | [] => false end.
Definition IsNormalTx (tx : CTransaction) : bool := negb (IsCoinBase tx) && negb (IsCoinStake tx).

(** [nValueOut += ...] on [int64_t]; [None] is the exception. *)
Fixpoint GetValueOut_loop (outs : list CTxOut) (nValueOut : Z) : option Z :=
  match outs with
  | [] => Some nValueOut
  | tx_out :: outs =>
      let nValueOut := i64 (nValueOut + nValue tx_out) in
      if negb (MoneyRange (nValue tx_out)) || negb (MoneyRange nValueOut) then None
      else GetValueOut_loop outs nValueOut
  end.
Definition GetValueOut (tx : CTransaction) : option Z := GetValueOut_loop (vout tx) 0.

Fixpoint GetCoinBaseRealOut_loop (outs : list CTxOut) (nValueOut i : Z) : option Z :=
  match outs with
  | [] => Some nValueOut
  | tx_out :: outs =>
      let nValueOut := i64 (nValueOut + nValue tx_out) in
      let i := i + 1 in
      if negb (MoneyRange (nValue tx_out)) || negb (MoneyRange nValueOut) then None
      else if i =? 6 then Some nValueOut else GetCoinBaseRealOut_loop outs nValueOut i
  end.
Definition GetCoinBaseRealOut (tx : CTransaction) : option Z := GetCoinBaseRealOut_loop (vout tx) 0 0.

(** ** Proofs: the codecs *)

#[global] Instance uint256_serializable : Serializable uint256_codec.
Proof. apply _. Qed.
#[global] Instance uint256_canonical : Canonical uint256_codec.
Proof. apply _. Qed.
#[global] Instance COutPoint_serializable : Serializable COutPoint_codec.
Proof. apply iso_serializable; [by intros []|apply _]. Qed.
#[global] Instance COutPoint_canonical : Canonical COutPoint_codec.
Proof. apply iso_canonical; [by intros []|apply _]. Qed.
#[global] Instance CTxIn_serializable : Serializable CTxIn_codec.
Proof. apply iso_serializable; [by intros [? []]|apply _]. Qed.
#[global] Instance CTxIn_canonical : Canonical CTxIn_codec.
Proof. apply iso_canonical; [by intros [? []]|apply _]. Qed.
#[global] Instance CTxOut_serializable : Serializable CTxOut_codec.
Proof. apply iso_serializable; [by intros []|apply _]. Qed.
#[global] Instance CTxOut_canonical : Canonical CTxOut_codec.
Proof. apply iso_canonical; [by intros []|apply _]. Qed.

#[global] Instance vin_serializable : Serializable vin_codec.
Proof. apply _. Qed.
#[global] Instance vin_canonical : Canonical vin_codec.
Proof. apply _. Qed.
#[global] Instance vout_serializable : Serializable vout_codec.
Proof. apply _. Qed.
#[global] Instance vout_canonical : Canonical vout_codec.
Proof. apply _. Qed.
#[global] Instance stack_serializable : Serializable stack_codec.
Proof. apply _. Qed.
#[global] Instance stack_canonical : Canonical stack_codec.
Proof. apply _. Qed.

(** ** Well-formed transactions *)
Definition strip_in (i : CTxIn) : CTxIn := set_witness i [].
Definition strip (tx : CTransaction) : CTransaction :=
  mkCTransaction (nVersion tx) (map strip_in (vin tx)) (vout tx) (nLockTime tx).

(** Every field in the range of its type, every vector within [MAX_SIZE]. *)
Definition tx_ok (tx : CTransaction) : Prop :=
  enc_ok i32_codec (nVersion tx) ∧ enc_ok vin_codec (map strip_in (vin tx)) ∧
  Forall (λ i, enc_ok stack_codec (scriptWitness i)) (vin tx) ∧
  enc_ok vout_codec (vout tx) ∧ enc_ok u32_codec (nLockTime tx).

Lemma strip_in_idem i : strip_in (strip_in i) = strip_in i.
Proof. done. Qed.
Lemma enc_vin_strip v : enc vin_codec (map strip_in v) = enc vin_codec v.
Proof.
  unfold vin_codec, vector_codec. cbn [enc]. unfold ser_vector. rewrite length_map. f_equal.
  f_equal. rewrite map_map. by apply map_ext.
Qed.
Lemma dec_vin_stripped s v r :
  dec vin_codec s = Some (v, r) → bytes_ok s → map strip_in v = v.
Proof.
  intros E Hs. destruct (dec_wf s v r Hs E) as [[Hv _] _]. clear E.
  induction Hv as [|i v Hi _ IH]; [done|]. cbn [map]. rewrite IH. f_equal. destruct Hi as [_ E].
  by rewrite <- E.
Qed.

Lemma empty_stack_ok : enc_ok stack_codec [].
Proof. split; [constructor|]. done. Qed.

Lemma HasWitness_false v lock ver outs :
  HasWitness (mkCTransaction ver v outs lock) = false → map strip_in v = v.
Proof.
  unfold HasWitness. cbn [vin]. induction v as [|[p s q w] v IH]; [done|]. cbn [existsb map scriptWitness].
  intros [Hw Hv]%orb_false_iff. rewrite IH by done. f_equal. by destruct w.
Qed.
Lemma HasWitness_strip tx : HasWitness (strip tx) = false.
Proof. unfold HasWitness, strip. cbn [vin]. induction (vin tx); [done|]. done. Qed.

Lemma tx_ok_strip tx : tx_ok tx → tx_ok (strip tx).
Proof.
  intros (Hv & Hi & Hw & Ho & Hl). split_and!; try done; cbn [strip vin].
  - rewrite map_map. exact Hi.
  - clear. induction (vin tx); constructor; [apply empty_stack_ok|done].
Qed.

Section Opaque.
#[local] Opaque i32_codec u8_codec u32_codec vin_codec vout_codec stack_codec.

Lemma read_witnesses_app v r :
  Forall (λ i, enc_ok stack_codec (scriptWitness i)) v →
  read_witnesses (map strip_in v) (concat (map (λ i, enc stack_codec (scriptWitness i)) v) ++ r) = Some (v, r).
Proof.
  induction 1 as [|i v Hi Hv IH]; cbn [map concat read_witnesses]; [done|].
  rewrite <- app_assoc, enc_dec by done. cbn [mbind option_bind]. rewrite IH. cbn [mbind option_bind].
  by destruct i.
Qed.

Lemma read_witnesses_inv v s v' r :
  read_witnesses v s = Some (v', r) → bytes_ok s →
  s = concat (map (λ i, enc stack_codec (scriptWitness i)) v') ++ r ∧ bytes_ok r ∧
  map strip_in v' = map strip_in v ∧ Forall (λ i, enc_ok stack_codec (scriptWitness i)) v'.
Proof.
  revert s v'. induction v as [|i v IH]; intros s v'; cbn [read_witnesses].
  - by intros [= <- <-] Hs.
  - destruct (dec stack_codec s) as [[st s1]|] eqn:E1; [|done]. cbn [mbind option_bind].
    destruct (read_witnesses v s1) as [[v1 s2]|] eqn:E2; [|done]. cbn [mbind option_bind].
    intros [= <- <-] Hs. destruct (dec_inv _ _ _ _ E1 Hs) as (-> & Hst & Hs1).
    destruct (IH s1 v1 E2 Hs1) as (-> & Hr & Hm & Hf). cbn [map concat]. rewrite <- app_assoc, Hm.
    split_and!; try done. by constructor.
Qed.

(** What the reader makes of the extended format. *)
Definition extended (tx : CTransaction) : bytes :=
  enc i32_codec (nVersion tx) ++ enc vin_codec [] ++ enc u8_codec 1
  ++ enc vin_codec (vin tx) ++ enc vout_codec (vout tx)
  ++ concat (map (λ i, enc stack_codec (scriptWitness i)) (vin tx)) ++ enc u32_codec (nLockTime tx).
Definition basic (tx : CTransaction) : bytes :=
  enc i32_codec (nVersion tx) ++ enc vin_codec (vin tx) ++ enc vout_codec (vout tx)
  ++ enc u32_codec (nLockTime tx).

Lemma SerializeTransaction_eq w tx :
  SerializeTransaction w tx = if w && HasWitness tx then extended tx else basic tx.
Proof.
  unfold SerializeTransaction, extended, basic. destruct (w && HasWitness tx); cbn -[app concat map]; [|done].
  by rewrite <- !app_assoc.
Qed.

Lemma u8_1_ok : enc_ok u8_codec 1.
Proof. change (is_u8 1). word_lia. Qed.

Lemma read_extended tx r :
  tx_ok tx → UnserializeTransaction true (extended tx ++ r) = Some (tx, r).
Proof.
  intros (Hv & Hi & Hw & Ho & Hl). unfold UnserializeTransaction, extended. rewrite <- !app_assoc.
  rewrite enc_dec by done. cbn [mbind option_bind].
  rewrite (enc_dec (c := vin_codec) []) by (split; [constructor|done]). cbn [mbind option_bind length Nat.eqb andb].
  rewrite enc_dec by apply u8_1_ok. cbn [mbind option_bind Z.eqb negb].
  rewrite <- enc_vin_strip, enc_dec by done. cbn [mbind option_bind].
  rewrite enc_dec by done. cbn [mbind option_bind]. change (Z.land 1 1) with 1. cbn [Z.eqb negb andb].
  rewrite read_witnesses_app by done. cbn [mbind option_bind]. change (Z.lxor 1 1) with 0. cbn [Z.eqb negb].
  rewrite enc_dec by done. cbn [mbind option_bind]. by destruct tx.
Qed.


Lemma read_basic w tx r :
  tx_ok tx → w = false ∨ vin tx ≠ [] ∨ vout tx = [] →
  UnserializeTransaction w (basic tx ++ r) = Some (strip tx, r).
Proof.
  intros (Hv & Hi & Hw & Ho & Hl) Hc. unfold UnserializeTransaction, basic. rewrite <- !app_assoc.
  rewrite enc_dec by done. cbn [mbind option_bind].
  rewrite <- enc_vin_strip, enc_dec by done. cbn [mbind option_bind]. rewrite length_map.
  destruct ((length (vin tx) =? 0)%nat && w) eqn:Eb.
  - apply andb_true_iff in Eb as [El ->]. apply Nat.eqb_eq, nil_length_inv in El.
    destruct Hc as [?|[?|Hvo]]; [done..|].
    replace (enc vout_codec (vout tx)) with (enc u8_codec 0) by (by rewrite Hvo).
    rewrite enc_dec by (change (is_u8 0); word_lia).
    cbn [mbind option_bind Z.eqb negb]. change (Z.land 0 1) with 0. cbn [Z.eqb negb andb mbind option_bind].
    rewrite enc_dec by done. cbn [mbind option_bind]. unfold strip. by rewrite El, Hvo.
  - rewrite enc_dec by done. cbn [mbind option_bind]. change (Z.land 0 1) with 0. cbn [Z.eqb negb andb mbind option_bind].
    rewrite enc_dec by done. done.
Qed.

Lemma vin_stripped_witness v ver outs lock :
  map strip_in v = v → HasWitness (mkCTransaction ver v outs lock) = false.
Proof.
  intros E. rewrite <- (HasWitness_strip (mkCTransaction ver v outs lock)). unfold strip. cbn.
  by rewrite E.
Qed.

(** Everything the reader accepts. *)
Lemma UnserializeTransaction_inv w s tx r :
  UnserializeTransaction w s = Some (tx, r) → bytes_ok s →
  tx_ok tx ∧ bytes_ok r ∧
  (s = SerializeTransaction w tx ++ r ∨ w = true ∧ HasWitness tx = false ∧ s = extended tx ++ r).
Proof.
  unfold UnserializeTransaction. intros E Hs.
  destruct (dec i32_codec s) as [[ver s1]|] eqn:E1; [|done]. cbn [mbind option_bind] in E.
  destruct (dec_inv _ _ _ _ E1 Hs) as (-> & Hver & Hs1).
  destruct (dec vin_codec s1) as [[ins s2]|] eqn:E2; [|done]. cbn [mbind option_bind] in E.
  destruct (dec_inv _ _ _ _ E2 Hs1) as (-> & Hins & Hs2).
  pose proof (dec_vin_stripped _ _ _ E2 Hs1) as Hstrip.
  destruct ((length ins =? 0)%nat && w) eqn:Ec.
  - apply andb_true_iff in Ec as [El ->]. apply Nat.eqb_eq, nil_length_inv in El. subst ins.
    destruct (dec u8_codec s2) as [[flags s3]|] eqn:E3; [|done]. cbn [mbind option_bind] in E.
    destruct (dec_inv _ _ _ _ E3 Hs2) as (-> & Hfl & Hs3).
    destruct (Z.eqb_spec flags 0) as [->|Hf]; cbn [negb] in E.
    + cbn [mbind option_bind] in E. change (Z.land 0 1) with 0 in E. cbn [Z.eqb negb andb mbind option_bind] in E.
      destruct (dec u32_codec s3) as [[lock s4]|] eqn:E4; [|done]. cbn [mbind option_bind] in E.
      injection E as <- <-. destruct (dec_inv _ _ _ _ E4 Hs3) as (-> & Hlock & Hs4).
      split; [|split; [done|left]]; [by split_and!|].
      rewrite SerializeTransaction_eq. cbn. unfold basic. cbn [nVersion vin vout nLockTime].
      by rewrite <- !app_assoc.
    + destruct (dec vin_codec s3) as [[ins s4]|] eqn:E4; [|done]. cbn [mbind option_bind] in E.
      destruct (dec_inv _ _ _ _ E4 Hs3) as (-> & Hins' & Hs4).
      pose proof (dec_vin_stripped _ _ _ E4 Hs3) as Hstrip'.
      destruct (dec vout_codec s4) as [[outs s5]|] eqn:E5; [|done]. cbn [mbind option_bind] in E.
      destruct (dec_inv _ _ _ _ E5 Hs4) as (-> & Houts & Hs5). rewrite andb_true_r in E.
      destruct (negb (Z.land flags 1 =? 0)).
      2:{ cbn [mbind option_bind] in E. by rewrite (proj2 (Z.eqb_neq flags 0) Hf) in E. }
      destruct (read_witnesses ins s5) as [[ins' s6]|] eqn:E6; [|done]. cbn [mbind option_bind] in E.
      destruct (read_witnesses_inv _ _ _ _ E6 Hs5) as (-> & Hs6 & Hm & Hw).
      destruct (Z.eqb_spec (Z.lxor flags 1) 0) as [Hx|]; [|done]. apply Z.lxor_eq in Hx as ->. cbn [negb] in E.
      destruct (dec u32_codec s6) as [[lock s7]|] eqn:E7; [|done]. cbn [mbind option_bind] in E.
      injection E as <- <-. destruct (dec_inv _ _ _ _ E7 Hs6) as (-> & Hlock & Hs7).
      rewrite Hstrip' in Hm.
      split; [|split; [done|]]; [split_and!; cbn; try done; by rewrite Hm|].
      rewrite SerializeTransaction_eq.
      destruct (HasWitness _) eqn:Ew; [left|right; split; [done|split; [done|]]];
        cbn [andb]; unfold extended; cbn [nVersion vin vout nLockTime]; rewrite <- !app_assoc;
        by rewrite <- Hm, enc_vin_strip.
  - destruct (dec vout_codec s2) as [[outs s3]|] eqn:E3; [|done]. cbn [mbind option_bind] in E.
    destruct (dec_inv _ _ _ _ E3 Hs2) as (-> & Houts & Hs3).
    change (Z.land 0 1) with 0 in E. cbn [Z.eqb negb andb mbind option_bind] in E.
    destruct (dec u32_codec s3) as [[lock s4]|] eqn:E4; [|done]. cbn [mbind option_bind] in E.
    injection E as <- <-. destruct (dec_inv _ _ _ _ E4 Hs3) as (-> & Hlock & Hs4).
    split; [|split; [done|left]].
    + split_and!; cbn; try done; [by rewrite Hstrip|]. rewrite <- Hstrip. apply Forall_map, Forall_true.
      intros. apply empty_stack_ok.
    + rewrite SerializeTransaction_eq, vin_stripped_witness, andb_false_r by done.
      unfold basic. cbn [nVersion vin vout nLockTime]. by rewrite <- !app_assoc.
Qed.

(** Without inputs, the number of outputs is taken for the flags. *)
Lemma dec_flags n s :
  2 ≤ n → ∃ flags s', dec u8_codec (WriteCompactSize n ++ s) = Some (flags, s') ∧ 2 ≤ flags < 256.
Proof.
  intros Hn. unfold WriteCompactSize.
  destruct (Z.ltb_spec n 253).
  { exists n, s. split; [|lia]. apply rd8. word_lia. }
  destruct (n <=? 0xffff); [|destruct (n <=? 0xffffffff)]; rewrite <- app_assoc;
    (eexists _, _; split; [apply rd8; word_lia|lia]).
Qed.

Lemma read_no_inputs tx r :
  tx_ok tx → vin tx = [] → (2 ≤ length (vout tx))%nat →
  UnserializeTransaction true (basic tx ++ r) = None.
Proof.
  intros (Hv & Hi & Hw & Ho & Hl) Hin Hout. unfold UnserializeTransaction, basic. rewrite <- !app_assoc.
  rewrite enc_dec by done. cbn [mbind option_bind].
  rewrite <- enc_vin_strip, enc_dec by done. cbn [mbind option_bind]. rewrite Hin. cbn [map length Nat.eqb andb].
  change (enc vout_codec (vout tx)) with (ser_vector CTxOut_codec (vout tx)).
  unfold ser_vector. rewrite <- app_assoc.
  match goal with |- context [WriteCompactSize ?n ++ ?s] => destruct (dec_flags n s) as (flags & s' & -> & Hf) end; [lia|].
  cbn [mbind option_bind]. rewrite (proj2 (Z.eqb_neq flags 0)) by lia. cbn [negb].
  destruct (dec vin_codec s') as [[ins s4]|]; [|done]. cbn [mbind option_bind].
  destruct (dec vout_codec s4) as [[outs s5]|]; [|done]. cbn [mbind option_bind]. rewrite andb_true_r.
  destruct (negb (Z.land flags 1 =? 0)).
  - destruct (read_witnesses ins s5) as [[ins' s6]|]; [|done]. cbn [mbind option_bind].
    destruct (Z.eqb_spec (Z.lxor flags 1) 0) as [E|]; [apply Z.lxor_eq in E; lia|done].
  - cbn [mbind option_bind]. by rewrite (proj2 (Z.eqb_neq flags 0)) by lia.
Qed.
End Opaque.

(** ** Properties of the wire formats *)

(** Transactions survive the wire.  A well-formed transaction with inputs
    (or with neither inputs nor outputs) is read back as it was written when
    witnesses are allowed, and without its witnesses when they are not; one
    with no input and at least two outputs is written in a form the reader
    always rejects, since its output count is taken for flags. *)
Theorem transaction_roundtrip (tx : CTransaction) (r : bytes) :
  tx_ok tx →
  (vin tx ≠ [] ∨ vout tx = [] →
   UnserializeTransaction true (SerializeTransaction true tx ++ r) = Some (tx, r)) ∧
  UnserializeTransaction false (SerializeTransaction false tx ++ r) = Some (strip tx, r) ∧
  (vin tx = [] → (2 ≤ length (vout tx))%nat →
   UnserializeTransaction true (SerializeTransaction true tx ++ r) = None).
Proof.
  intros Hok. rewrite !SerializeTransaction_eq. cbn [andb]. split_and!.
  - intros Hc. destruct (HasWitness tx) eqn:Ew; [by apply read_extended|].
    rewrite read_basic by auto. f_equal. f_equal. destruct tx. unfold strip. cbn.
    by apply HasWitness_false in Ew as ->.
  - apply read_basic; auto.
  - intros Hin Hout. unfold HasWitness. rewrite Hin. cbn [existsb]. by apply read_no_inputs.
Qed.

Definition tx_example : CTransaction :=
  mkCTransaction 2 [mkCTxIn COutPoint_null [0x51] 0xffffffff [[1; 2]; []]] [mkCTxOut 50 [0x51]; mkCTxOut 7 []] 0.

(** A decision procedure for [tx_ok], enough for concrete transactions. *)
Definition u8sb (b : bytes) : bool := forallb (λ x, (0 <=? x) && (x <? 256)) b.
Definition sizedb (b : bytes) : bool := u8sb b && (Z.of_nat (length b) <=? MAX_SIZE).
Definition u32b (x : Z) : bool := (0 <=? x) && (x <? 4294967296).
Definition in_okb (i : CTxIn) : bool :=
  u8sb (op_hash (prevout i)) && (length (op_hash (prevout i)) =? 32)%nat && u32b (op_n (prevout i))
  && sizedb (scriptSig i) && u32b (nSequence i)
  && forallb sizedb (scriptWitness i) && (Z.of_nat (length (scriptWitness i)) <=? MAX_SIZE).
Definition out_okb (o : CTxOut) : bool :=
  (-9223372036854775808 <=? nValue o) && (nValue o <? 9223372036854775808) && sizedb (scriptPubKey o).
Definition tx_okb (tx : CTransaction) : bool :=
  (-2147483648 <=? nVersion tx) && (nVersion tx <? 2147483648) && u32b (nLockTime tx)
  && forallb in_okb (vin tx) && (Z.of_nat (length (vin tx)) <=? MAX_SIZE)
  && forallb out_okb (vout tx) && (Z.of_nat (length (vout tx)) <=? MAX_SIZE).

Lemma u8sb_ok b : u8sb b = true → bytes_ok b.
Proof.
  intros Hb. apply List.Forall_forall. intros x Hx.
  pose proof (proj1 (forallb_forall _ b) Hb x Hx) as H. cbn in H. lia.
Qed.
Lemma sizedb_ok b : sizedb b = true → sized b.
Proof. intros [Hb Hl]%andb_true_iff. split; [by apply u8sb_ok|by apply Z.leb_le]. Qed.
Lemma forallb_Forall {A} (f : A → bool) (P : A → Prop) l :
  (∀ x, f x = true → P x) → forallb f l = true → Forall P l.
Proof.
  intros HP Hf. apply List.Forall_forall. intros x Hx. by apply HP, (proj1 (forallb_forall f l)).
Qed.
Lemma tx_okb_ok tx : tx_okb tx = true → tx_ok tx.
Proof.
  unfold tx_okb. intros ((((((Hv1 & Hv2)%andb_true_iff & Hl)%andb_true_iff & Hi)%andb_true_iff & Hil)%andb_true_iff
    & Ho)%andb_true_iff & Hol)%andb_true_iff.
  assert (Hins : Forall (λ i, in_okb i = true) (vin tx)) by (by apply (forallb_Forall in_okb)).
  split_and!.
  - cbn. lia.
  - split; [|rewrite length_map; by apply Z.leb_le]. apply Forall_map. revert Hins. apply Forall_impl.
    intros [[h n] s q w] ((((((H1 & H2)%andb_true_iff & H3)%andb_true_iff & H4)%andb_true_iff & H5)%andb_true_iff
      & H6)%andb_true_iff & H7)%andb_true_iff. cbn in *.
    apply u8sb_ok in H1. apply Nat.eqb_eq in H2. apply sizedb_ok in H4. unfold u32b in H3, H5.
    split; [|done]. split; [|split; [done|cbn; word_lia]]. split; [|done]. split; [done|cbn; word_lia].
  - revert Hins. apply Forall_impl.
    intros i (((((_ & _)%andb_true_iff & _)%andb_true_iff & _)%andb_true_iff & H6)%andb_true_iff & H7)%andb_true_iff.
    split; [|by apply Z.leb_le]. by apply (forallb_Forall sizedb _ _ sizedb_ok).
  - split; [|by apply Z.leb_le]. revert Ho. apply forallb_Forall.
    intros [v s] ((H1 & H2)%andb_true_iff & H3)%andb_true_iff. cbn in *. split; [|done].
    split; [cbn; lia|by apply sizedb_ok].
  - unfold u32b in Hl. cbn. word_lia.
Qed.

Lemma transaction_roundtrip_witness :
  (vin tx_example ≠ [] ∨ vout tx_example = [] →
   UnserializeTransaction true (SerializeTransaction true tx_example ++ [9]) = Some (tx_example, [9])) ∧
  UnserializeTransaction false (SerializeTransaction false tx_example ++ [9]) = Some (strip tx_example, [9]) ∧
  (vin tx_example = [] → (2 ≤ length (vout tx_example))%nat →
   UnserializeTransaction true (SerializeTransaction true tx_example ++ [9]) = None).
Proof. apply (transaction_roundtrip tx_example [9]). apply tx_okb_ok. reflexivity. Defined.

(** C30. What the reader accepts.  Every accepted stream yields a well-formed
    transaction and is that transaction's own serialization, except that a
    stream with the witness flag and only empty witness stacks is accepted too
    although no transaction is written that way. *)
Theorem transaction_canonical (w : bool) (s : bytes) (tx : CTransaction) (r : bytes) :
  bytes_ok s → UnserializeTransaction w s = Some (tx, r) →
  tx_ok tx ∧
  (s = SerializeTransaction w tx ++ r ∨ w = true ∧ HasWitness tx = false ∧ s = extended tx ++ r).
Proof.
  intros Hs E. destruct (UnserializeTransaction_inv w s tx r E Hs) as (H1 & _ & H2). done.
Qed.

(** A transaction with no witness in the extended format. *)
Lemma transaction_canonical_witness :
  bytes_ok (extended (strip tx_example)) ∧
  tx_ok (strip tx_example) ∧
  (extended (strip tx_example) = SerializeTransaction true (strip tx_example) ++ [] ∨
   true = true ∧ HasWitness (strip tx_example) = false ∧ extended (strip tx_example) = extended (strip tx_example) ++ []).
Proof.
  assert (H : bytes_ok (extended (strip tx_example))) by (apply u8sb_ok; reflexivity).
  split; [exact H|]. apply (transaction_canonical true _ _ []); [exact H|reflexivity].
Defined.

(** ** Identifiers *)

Lemma extended_ok tx : tx_ok tx → bytes_ok (extended tx).
Proof.
  intros (Hv & Hi & Hw & Ho & Hl). unfold extended. rewrite !bytes_ok_app. split_and!.
  - by apply enc_bytes.
  - apply enc_bytes. split; [constructor|done].
  - apply enc_bytes, u8_1_ok.
  - rewrite <- enc_vin_strip. by apply enc_bytes.
  - by apply enc_bytes.
  - apply Forall_concat, Forall_map. revert Hw. apply Forall_impl. intros i Hi'. by apply enc_bytes.
  - by apply enc_bytes.
Qed.
Lemma basic_ok tx : tx_ok tx → bytes_ok (basic tx).
Proof.
  intros (Hv & Hi & Hw & Ho & Hl). unfold basic. rewrite !bytes_ok_app, <- enc_vin_strip.
  split_and!; by apply enc_bytes.
Qed.
Lemma basic_strip tx : basic (strip tx) = basic tx.
Proof. unfold basic, strip. cbn [nVersion vin vout nLockTime]. by rewrite enc_vin_strip. Qed.

(** The basic format determines the transaction up to its witnesses. *)
Lemma basic_inj tx tx' : tx_ok tx → tx_ok tx' → basic tx = basic tx' → strip tx = strip tx'.
Proof.
  intros H H' E. pose proof (read_basic false tx [] H (or_introl eq_refl)) as R.
  pose proof (read_basic false tx' [] H' (or_introl eq_refl)) as R'. congruence.
Qed.

(** Transaction identifiers.  [GetHash] is the SHA3-256 digest of the
    serialization without witnesses: it ignores the witnesses, and what it
    hashes is the same for two transactions exactly when they agree but for
    their witnesses.  [GetWitnessHash] is the digest of the extended format
    for a transaction with a witness, and [GetHash] otherwise. *)
Theorem transaction_hash (tx tx' : CTransaction) :
  tx_ok tx → tx_ok tx' →
  Z.of_nat (length (basic tx)) < 2 ^ 32 → Z.of_nat (length (extended tx)) < 2 ^ 32 →
  (∃ h, GetHash tx = Some h ∧ length h = 32%nat ∧
     Fips202.Fips202.bytes_bits h = Fips202.Fips202.SHA3_256 (Fips202.Fips202.bytes_bits (basic tx))) ∧
  (∃ h, GetWitnessHash tx = Some h ∧ length h = 32%nat ∧
     Fips202.Fips202.bytes_bits h =
     Fips202.Fips202.SHA3_256 (Fips202.Fips202.bytes_bits (if HasWitness tx then extended tx else basic tx))) ∧
  GetHash (strip tx) = GetHash tx ∧
  (SerializeTransaction false tx = SerializeTransaction false tx' ↔ strip tx = strip tx').
Proof.
  intros H H' Hb He. unfold GetWitnessHash, GetHash. rewrite !SerializeTransaction_eq. cbn [andb].
  rewrite !Hashes.SerializeHash_eq, basic_strip.
  destruct (Fips202Refinement.SHA3_of_bytes (basic tx) Hb (basic_ok tx H)) as (h1 & E1 & L1 & _ & S1).
  destruct (Fips202Refinement.SHA3_of_bytes (extended tx) He (extended_ok tx H)) as (h2 & E2 & L2 & _ & S2).
  split; [exact (ex_intro _ h1 (conj E1 (conj L1 S1)))|]. split; [|split; [reflexivity|split; [by apply basic_inj|]]].
  - destruct (HasWitness tx); cbn [negb];
      [exact (ex_intro _ h2 (conj E2 (conj L2 S2)))|exact (ex_intro _ h1 (conj E1 (conj L1 S1)))].
  - intros E. by rewrite <- basic_strip, E, basic_strip.
Qed.

Lemma transaction_hash_witness :
  (∃ h, GetHash tx_example = Some h ∧ length h = 32%nat ∧
     Fips202.Fips202.bytes_bits h = Fips202.Fips202.SHA3_256 (Fips202.Fips202.bytes_bits (basic tx_example))) ∧
  (∃ h, GetWitnessHash tx_example = Some h ∧ length h = 32%nat ∧
     Fips202.Fips202.bytes_bits h = Fips202.Fips202.SHA3_256 (Fips202.Fips202.bytes_bits
       (if HasWitness tx_example then extended tx_example else basic tx_example))) ∧
  GetHash (strip tx_example) = GetHash tx_example ∧
  (SerializeTransaction false tx_example = SerializeTransaction false (strip tx_example) ↔
   strip tx_example = strip (strip tx_example)).
Proof.
  apply (transaction_hash tx_example (strip tx_example)).
  - apply tx_okb_ok. reflexivity.
  - apply tx_okb_ok. reflexivity.
  - vm_compute. reflexivity.
  - vm_compute. reflexivity.
Defined.

(** ** Amounts *)

Lemma MoneyRange_spec v : MoneyRange v = true ↔ 0 ≤ v ≤ MAX_MONEY.
Proof. unfold MoneyRange. lia. Qed.

Definition sum_values (outs : list CTxOut) : Z := foldr (λ o acc, nValue o + acc) 0 outs.

Lemma sum_values_nonneg outs : Forall (λ o, 0 ≤ nValue o) outs → 0 ≤ sum_values outs.
Proof. induction 1; cbn [sum_values foldr]; [done|]. unfold sum_values in *. lia. Qed.

Definition all_in_range (outs : list CTxOut) (acc : Z) : Prop :=
  Forall (λ o, 0 ≤ nValue o) outs ∧ acc + sum_values outs ≤ MAX_MONEY.

Lemma GetValueOut_loop_spec outs acc :
  0 ≤ acc ≤ MAX_MONEY → Forall (λ o, enc_ok i64_codec (nValue o)) outs →
  (all_in_range outs acc → GetValueOut_loop outs acc = Some (acc + sum_values outs)) ∧
  (¬ all_in_range outs acc → GetValueOut_loop outs acc = None).
Proof.
  revert acc. induction outs as [|o outs IH]; intros acc Hacc Hok; cbn [GetValueOut_loop].
  { unfold all_in_range. cbn. split; [intros _; f_equal; lia|]. intros []. split; [constructor|lia]. }
  apply Forall_cons_iff in Hok as [Ho Hok]. cbn in Ho.
  destruct (MoneyRange (nValue o)) eqn:E1; cbn [negb orb].
  2:{ split; [|done]. intros [[H0 H1]%Forall_cons_iff H2]. cbn [sum_values foldr] in H2.
      pose proof (sum_values_nonneg outs H1). unfold sum_values in *.
      assert (MoneyRange (nValue o) = true) by (apply MoneyRange_spec; lia). congruence. }
  apply MoneyRange_spec in E1. rewrite i64_small by (unfold MAX_MONEY, COIN, CENT in *; lia).
  destruct (MoneyRange (acc + nValue o)) eqn:E2; cbn [negb].
  - apply MoneyRange_spec in E2. destruct (IH (acc + nValue o) E2 Hok) as [IH1 IH2].
    unfold all_in_range, sum_values in *. cbn [foldr]. rewrite Forall_cons_iff. split.
    + intros [[_ H1] H2]. rewrite IH1 by (split; [done|lia]). f_equal. lia.
    + intros H. apply IH2. intros [H1 H2]. apply H. split; [split; [lia|done]|lia].
  - split; [|done]. intros [[H0 H1]%Forall_cons_iff H2]. cbn [sum_values foldr] in H2.
    pose proof (sum_values_nonneg outs H1). unfold sum_values in *.
    assert (MoneyRange (acc + nValue o) = true) by (apply MoneyRange_spec; lia). congruence.
Qed.

Lemma GetCoinBaseRealOut_loop_spec outs acc i :
  0 ≤ i < 6 →
  GetCoinBaseRealOut_loop outs acc i = GetValueOut_loop (take (Z.to_nat (6 - i)) outs) acc.
Proof.
  revert acc i. induction outs as [|o outs IH]; intros acc i Hi; cbn [GetCoinBaseRealOut_loop].
  - by rewrite take_nil.
  - replace (Z.to_nat (6 - i)) with (S (Z.to_nat (6 - (i + 1)))) by lia. cbn [take GetValueOut_loop].
    destruct (negb (MoneyRange (nValue o)) || _); [done|].
    destruct (Z.eqb_spec (i + 1) 6); [|apply IH; lia].
    replace (Z.to_nat (6 - (i + 1))) with 0%nat by lia. by rewrite take_0.
Qed.

(** Output sums.  For a well-formed transaction [GetValueOut] is the sum
    of the output values when they are non-negative and the sum is at most
    [MAX_MONEY], and throws otherwise, without overflow of the 64-bit sum
    escaping the check; [GetCoinBaseRealOut] does the same for the first six
    outputs. *)
Theorem value_out_correct (tx : CTransaction) :
  tx_ok tx →
  (all_in_range (vout tx) 0 → GetValueOut tx = Some (sum_values (vout tx))) ∧
  (¬ all_in_range (vout tx) 0 → GetValueOut tx = None) ∧
  (all_in_range (take 6 (vout tx)) 0 → GetCoinBaseRealOut tx = Some (sum_values (take 6 (vout tx)))) ∧
  (¬ all_in_range (take 6 (vout tx)) 0 → GetCoinBaseRealOut tx = None).
Proof.
  intros (_ & _ & _ & [Ho _] & _).
  assert (Hv : Forall (λ o, enc_ok i64_codec (nValue o)) (vout tx)).
  { revert Ho. apply Forall_impl. intros o [[H _] _]. exact H. }
  assert (Hm : 0 ≤ 0 ≤ MAX_MONEY) by done.
  unfold GetValueOut, GetCoinBaseRealOut. rewrite (GetCoinBaseRealOut_loop_spec _ 0 0) by lia.
  destruct (GetValueOut_loop_spec (vout tx) 0 Hm Hv).
  destruct (GetValueOut_loop_spec (take 6 (vout tx)) 0 Hm ltac:(by apply Forall_take)). done.
Qed.

Lemma value_out_correct_witness :
  tx_ok tx_example ∧ GetValueOut tx_example = Some 57 ∧
  ((all_in_range (vout tx_example) 0 → GetValueOut tx_example = Some (sum_values (vout tx_example))) ∧
   (¬ all_in_range (vout tx_example) 0 → GetValueOut tx_example = None) ∧
   (all_in_range (take 6 (vout tx_example)) 0 →
    GetCoinBaseRealOut tx_example = Some (sum_values (take 6 (vout tx_example)))) ∧
   (¬ all_in_range (take 6 (vout tx_example)) 0 → GetCoinBaseRealOut tx_example = None)).
Proof.
  assert (H : tx_ok tx_example) by (apply tx_okb_ok; reflexivity).
  split; [exact H|]. split; [reflexivity|]. exact (value_out_correct tx_example H).
Defined.

(** ** The order on outpoints, the key order of the maps that hold coins *)

Lemma Compare_refl a : Compare a a = 0.
Proof. induction a as [|x a IH]; [done|]. cbn [Compare]. by rewrite Z.ltb_irrefl. Qed.
Lemma Compare_antisym a b : Compare b a = - Compare a b.
Proof.
  revert b. induction a as [|x a IH]; intros [|y b]; cbn [Compare]; try done.
  destruct (Z.ltb_spec x y), (Z.ltb_spec y x); try lia; done || apply IH.
Qed.
Lemma Compare_eq a b : length a = length b → Compare a b = 0 → a = b.
Proof.
  revert b. induction a as [|x a IH]; intros [|y b] Hl; cbn [Compare]; try done.
  destruct (Z.ltb_spec x y); [done|]. destruct (Z.ltb_spec y x); [done|]. intros E.
  rewrite (IH b) by (simpl in Hl; (lia || done)). f_equal. lia.
Qed.
Lemma Compare_lt_trans a b c :
  length a = length b → length b = length c → Compare a b < 0 → Compare b c < 0 → Compare a c < 0.
Proof.
  revert b c. induction a as [|x a IH]; intros [|y b] [|z c]; cbn [Compare length]; try done.
  intros H1 H2. destruct (Z.ltb_spec x y), (Z.ltb_spec y x), (Z.ltb_spec y z), (Z.ltb_spec z y),
    (Z.ltb_spec x z), (Z.ltb_spec z x); try lia. apply IH; lia.
Qed.

(** The order on outpoints (hash bytes first, then index) is a strict total
    order on the outpoints with 32-byte hashes, as the ordered containers
    need. *)
Theorem outpoint_order (a b c : COutPoint) :
  length (op_hash a) = 32%nat → length (op_hash b) = 32%nat → length (op_hash c) = 32%nat →
  COutPoint_lt a a = false ∧
  (COutPoint_lt a b = true → COutPoint_lt b c = true → COutPoint_lt a c = true) ∧
  (COutPoint_lt a b = true ∨ a = b ∨ COutPoint_lt b a = true) ∧
  (COutPoint_lt a b = true → COutPoint_lt b a = false).
Proof.
  intros Ha Hb Hc. unfold COutPoint_lt.
  pose proof (Compare_antisym (op_hash a) (op_hash b)) as Hab.
  pose proof (Compare_eq (op_hash a) (op_hash b) ltac:(lia)) as Eab.
  pose proof (Compare_eq (op_hash b) (op_hash c) ltac:(lia)) as Ebc.
  pose proof (Compare_lt_trans (op_hash a) (op_hash b) (op_hash c) ltac:(lia) ltac:(lia)) as Habc.
  rewrite (Compare_refl (op_hash a)), Hab. split_and!.
  - lia.
  - intros H1 H2. apply orb_true_iff in H1, H2. destruct H1 as [H1|H1], H2 as [H2|H2].
    + lia.
    + apply andb_true_iff in H2 as [H2 _]. rewrite <- (Ebc ltac:(lia)). lia.
    + apply andb_true_iff in H1 as [H1 _]. rewrite (Eab ltac:(lia)). lia.
    + apply andb_true_iff in H1 as [H1 H1'], H2 as [H2 H2'].
      rewrite (Eab ltac:(lia)), (Ebc ltac:(lia)), Compare_refl. lia.
  - destruct (Z.lt_trichotomy (Compare (op_hash a) (op_hash b)) 0) as [|[E|]]; [lia| |lia].
    destruct (Z.lt_trichotomy (op_n a) (op_n b)) as [|[En|]]; [lia| |lia].
    right. left. destruct a, b. cbn in *. by rewrite (Eab E), En.
  - lia.
Qed.

Lemma outpoint_order_witness :
  let a := mkCOutPoint uint256_null 1 in let b := mkCOutPoint uint256_null 2 in
  COutPoint_lt a b = true ∧
  (COutPoint_lt a a = false ∧
   (COutPoint_lt a b = true → COutPoint_lt b COutPoint_null = true → COutPoint_lt a COutPoint_null = true) ∧
   (COutPoint_lt a b = true ∨ a = b ∨ COutPoint_lt b a = true) ∧
   (COutPoint_lt a b = true → COutPoint_lt b a = false)).
Proof. split; [reflexivity|]. apply (outpoint_order _ _ COutPoint_null); reflexivity. Defined.
