(* ===== verification/Coins.v ===== *)
(** * The set of unspent outputs (src/src/coins.h, src/src/coins.cpp)

    [CoinsView] is the virtual interface of the source, as a class: what a view
    is asked for, and in [CoinsViewLaws] what it promises, in terms of the
    function from outpoints to unspent coins that it stands for.
    [CCoinsViewCache] is the write-back cache over any view.  It is itself a
    view, so that caches stack; the theorems show that it implements the plain
    map of coins, that its [FRESH] and [DIRTY] flags are always justified and
    that flushing moves the contents down.

    Reading through a cache loads entries, so every operation returns the new
    state.  [None] is a failed assertion or an exception. *)

From stdpp Require Import base numbers list option gmap.
From Stdlib Require Import ZArith Lia.
From S2P Require Import Prelude Script Serialize Transaction.

(** ** Coins *)
Record Coin := mkCoin { out : CTxOut; fCoinBase : bool; fCoinStake : bool; coin_nHeight : Z }.
#[global] Instance Coin_eq_dec : EqDecision Coin.
Proof. solve_decision. Defined.

(** The height is a bit field of 30 bits. *)
Definition new_Coin (outIn : CTxOut) (nHeightIn : Z) (fCoinBaseIn fCoinStakeIn : bool) : Coin :=
  mkCoin outIn fCoinBaseIn fCoinStakeIn (nHeightIn mod 2 ^ 30).
Definition coinEmpty : Coin := mkCoin CTxOut_null false false 0.
Definition Coin_Clear (c : Coin) : Coin := mkCoin CTxOut_null false false 0.
Definition IsSpent (c : Coin) : bool := CTxOut_IsNull (out c).

Record CCoinsCacheEntry := mkEntry { coin : Coin; flags : Z }.
Definition DIRTY : Z := 1.
Definition FRESH : Z := 2.
Definition new_entry : CCoinsCacheEntry := mkEntry coinEmpty 0.
Definition is_dirty (e : CCoinsCacheEntry) : bool := negb (Z.land (flags e) DIRTY =? 0).
Definition is_fresh (e : CCoinsCacheEntry) : bool := negb (Z.land (flags e) FRESH =? 0).
Abbreviation CCoinsMap := (gmap COutPoint CCoinsCacheEntry).

(** ** The interface *)
Class CoinsView (V : Type) := {
  view_GetCoin : COutPoint → V → option Coin * V;
  view_GetBestBlock : V → bytes * V;
  view_BatchWrite : CCoinsMap → bytes → V → option (bool * V) }.

(** [HaveCoin] of a view that does not override it. *)
Definition view_HaveCoin `{CoinsView V} (outpoint : COutPoint) (v : V) : bool * V :=
  let '(r, v) := view_GetCoin outpoint v in (bool_decide (is_Some r), v).

(** What a batch of cache entries says about an outpoint. *)
Definition unspent (c : Coin) : option Coin := if IsSpent c then None else Some c.
Definition apply_batch (coins : COutPoint → option Coin) (m : CCoinsMap) (o : COutPoint) : option Coin :=
  match m !! o with
  | Some e => if is_dirty e then unspent (coin e) else coins o
  | None => coins o
  end.
(** A modified entry is marked [FRESH] only where the view has no coin. *)
Definition batch_ok (coins : COutPoint → option Coin) (m : CCoinsMap) : Prop :=
  ∀ o e, m !! o = Some e → is_dirty e = true → is_fresh e = true → coins o = None.

Class CoinsViewLaws (V : Type) `{CoinsView V} := {
  view_ok : V → Prop;
  view_coins : V → COutPoint → option Coin;
  view_best : V → bytes;
  view_unspent v o c : view_ok v → view_coins v o = Some c → IsSpent c = false;
  view_GetCoin_law o v : view_ok v → ∃ v', view_GetCoin o v = (view_coins v o, v') ∧
    view_ok v' ∧ (∀ o', view_coins v' o' = view_coins v o') ∧ view_best v' = view_best v;
  view_GetBestBlock_law v : view_ok v → ∃ v', view_GetBestBlock v = (view_best v, v') ∧
    view_ok v' ∧ (∀ o', view_coins v' o' = view_coins v o') ∧ view_best v' = view_best v;
  view_BatchWrite_law m h v : view_ok v → batch_ok (view_coins v) m → IsNull256 h = false →
    ∃ v', view_BatchWrite m h v = Some (true, v') ∧ view_ok v' ∧
      (∀ o, view_coins v' o = apply_batch (view_coins v) m o) ∧ view_best v' = h }.

(** ** The cache *)
Section Cache.
Context {V : Type} `{CoinsView V}.
(** The bytes allocated for a coin's script: a matter of the allocator and of
    the growth of vectors. *)
Context (DynamicMemoryUsage : Coin → Z).

Record CCoinsViewCache := mkCache {
  cbase : V; hashBlock : bytes; cacheCoins : CCoinsMap; cachedCoinsUsage : Z }.

Definition new_CCoinsViewCache (baseIn : V) : CCoinsViewCache := mkCache baseIn uint256_null ∅ 0.

(** The entry of an outpoint, loaded if the base has it. *)
Definition FetchCoin (outpoint : COutPoint) (s : CCoinsViewCache) : option CCoinsCacheEntry * CCoinsViewCache :=
  match cacheCoins s !! outpoint with
  | Some e => (Some e, s)
  | None =>
      match view_GetCoin outpoint (cbase s) with
      | (None, base) => (None, mkCache base (hashBlock s) (cacheCoins s) (cachedCoinsUsage s))
      | (Some tmp, base) =>
          let ret := mkEntry tmp (if IsSpent tmp then FRESH else 0) in
          (Some ret, mkCache base (hashBlock s) (<[outpoint := ret]> (cacheCoins s))
             (u64 (cachedCoinsUsage s + DynamicMemoryUsage tmp)))
      end
  end.

Definition GetCoin (outpoint : COutPoint) (s : CCoinsViewCache) : option Coin * CCoinsViewCache :=
  let '(it, s) := FetchCoin outpoint s in
  (match it with Some e => if IsSpent (coin e) then None else Some (coin e) | None => None end, s).

Definition AddCoin (outpoint : COutPoint) (c : Coin) (possible_overwrite : bool) (s : CCoinsViewCache) : option CCoinsViewCache :=
  if IsSpent c then None
  else if IsUnspendable (scriptPubKey (out c)) then Some s
  else
    let '(it, usage) := match cacheCoins s !! outpoint with
                        | Some e => (e, u64 (cachedCoinsUsage s - DynamicMemoryUsage (coin e)))
                        | None => (new_entry, cachedCoinsUsage s)
                        end in
    if negb possible_overwrite && negb (IsSpent (coin it)) then None
    else
      let fresh := if possible_overwrite then false else negb (is_dirty it) in
      let flags := Z.lor (flags it) (Z.lor DIRTY (if fresh then FRESH else 0)) in
      Some (mkCache (cbase s) (hashBlock s) (<[outpoint := mkEntry c flags]> (cacheCoins s))
              (u64 (usage + DynamicMemoryUsage c))).

(** The coin that is moved out, if the outpoint has an entry. *)
Definition SpendCoin (outpoint : COutPoint) (s : CCoinsViewCache) : option Coin * CCoinsViewCache :=
  match FetchCoin outpoint s with
  | (None, s) => (None, s)
  | (Some it, s) =>
      let usage := u64 (cachedCoinsUsage s - DynamicMemoryUsage (coin it)) in
      let m := if is_fresh it then delete outpoint (cacheCoins s)
               else <[outpoint := mkEntry (Coin_Clear (coin it)) (Z.lor (flags it) DIRTY)]> (cacheCoins s) in
      (Some (coin it), mkCache (cbase s) (hashBlock s) m usage)
  end.

Definition AccessCoin (outpoint : COutPoint) (s : CCoinsViewCache) : Coin * CCoinsViewCache :=
  match FetchCoin outpoint s with
  | (None, s) => (coinEmpty, s)
  | (Some it, s) => (coin it, s)
  end.

Definition HaveCoin (outpoint : COutPoint) (s : CCoinsViewCache) : bool * CCoinsViewCache :=
  match FetchCoin outpoint s with
  | (None, s) => (false, s)
  | (Some it, s) => (negb (IsSpent (coin it)), s)
  end.
Definition HaveCoinInCache (outpoint : COutPoint) (s : CCoinsViewCache) : bool :=
  match cacheCoins s !! outpoint with Some it => negb (IsSpent (coin it)) | None => false end.

Definition GetBestBlock (s : CCoinsViewCache) : bytes * CCoinsViewCache :=
  if IsNull256 (hashBlock s) then
    let '(h, base) := view_GetBestBlock (cbase s) in (h, mkCache base h (cacheCoins s) (cachedCoinsUsage s))
  else (hashBlock s, s).
Definition SetBestBlock (hashBlockIn : bytes) (s : CCoinsViewCache) : CCoinsViewCache :=
  mkCache (cbase s) hashBlockIn (cacheCoins s) (cachedCoinsUsage s).

(** One entry of the child's map. *)
Definition write_entry (o : COutPoint) (e : CCoinsCacheEntry) (s : CCoinsViewCache) : option CCoinsViewCache :=
  if negb (is_dirty e) then Some s
  else
    match cacheCoins s !! o with
    | None =>
        if is_fresh e && IsSpent (coin e) then Some s
        else
          let flags := if is_fresh e then Z.lor DIRTY FRESH else DIRTY in
          Some (mkCache (cbase s) (hashBlock s) (<[o := mkEntry (coin e) flags]> (cacheCoins s))
                  (u64 (cachedCoinsUsage s + DynamicMemoryUsage (coin e))))
    | Some itUs =>
        if is_fresh e && negb (IsSpent (coin itUs)) then None
        else if is_fresh itUs && IsSpent (coin e) then
          Some (mkCache (cbase s) (hashBlock s) (delete o (cacheCoins s))
                  (u64 (cachedCoinsUsage s - DynamicMemoryUsage (coin itUs))))
        else
          Some (mkCache (cbase s) (hashBlock s)
                  (<[o := mkEntry (coin e) (Z.lor (flags itUs) DIRTY)]> (cacheCoins s))
                  (u64 (u64 (cachedCoinsUsage s - DynamicMemoryUsage (coin itUs)) + DynamicMemoryUsage (coin e))))
    end.
Fixpoint write_entries (l : list (COutPoint * CCoinsCacheEntry)) (s : CCoinsViewCache) : option CCoinsViewCache :=
  match l with
  | [] => Some s
  | (o, e) :: l => s ← write_entry o e s; write_entries l s
  end.
(** The order of the hash table's entries is that of [map_to_list]; by
    [write_entries_spec] the result is the same map in any order. *)
Definition BatchWrite (mapCoins : CCoinsMap) (hashBlockIn : bytes) (s : CCoinsViewCache) : option (bool * CCoinsViewCache) :=
  s ← write_entries (map_to_list mapCoins) s;
  Some (true, SetBestBlock hashBlockIn s).

Definition Flush (s : CCoinsViewCache) : option (bool * CCoinsViewCache) :=
  '(fOk, base) ← view_BatchWrite (cacheCoins s) (hashBlock s) (cbase s);
  Some (fOk, mkCache base (hashBlock s) ∅ 0).

Definition Uncache (o : COutPoint) (s : CCoinsViewCache) : CCoinsViewCache :=
  match cacheCoins s !! o with
  | Some it =>
      if flags it =? 0 then
        mkCache (cbase s) (hashBlock s) (delete o (cacheCoins s)) (u64 (cachedCoinsUsage s - DynamicMemoryUsage (coin it)))
      else s
  | None => s
  end.
Definition GetCacheSize (s : CCoinsViewCache) : Z := u32 (Z.of_nat (size (cacheCoins s))).

(** ** Transactions *)
Fixpoint GetValueIn_loop (v : list CTxIn) (nResult : Z) (s : CCoinsViewCache) : Z * CCoinsViewCache :=
  match v with
  | [] => (nResult, s)
  | i :: v => let '(c, s) := AccessCoin (prevout i) s in GetValueIn_loop v (i64 (nResult + nValue (out c))) s
  end.
Definition GetValueIn (tx : CTransaction) (s : CCoinsViewCache) : Z * CCoinsViewCache :=
  if IsCoinBase tx then (0, s) else GetValueIn_loop (vin tx) 0 s.

Fixpoint HaveInputs_loop (v : list CTxIn) (s : CCoinsViewCache) : bool * CCoinsViewCache :=
  match v with
  | [] => (true, s)
  | i :: v => let '(b, s) := HaveCoin (prevout i) s in if b then HaveInputs_loop v s else (false, s)
  end.
Definition HaveInputs (tx : CTransaction) (s : CCoinsViewCache) : bool * CCoinsViewCache :=
  if negb (IsCoinBase tx) then HaveInputs_loop (vin tx) s else (true, s).

Fixpoint AddCoins_loop (fCoinbase fCoinstake : bool) (txid : bytes) (nHeight : Z) (check : bool)
    (i : Z) (v : list CTxOut) (s : CCoinsViewCache) : option CCoinsViewCache :=
  match v with
  | [] => Some s
  | o :: v =>
      let outpoint := mkCOutPoint txid (u32 i) in
      let '(overwrite, s) := if check then HaveCoin outpoint s else (fCoinbase, s) in
      s ← AddCoin outpoint (new_Coin o nHeight fCoinbase fCoinstake) overwrite s;
      AddCoins_loop fCoinbase fCoinstake txid nHeight check (i + 1) v s
  end.
Definition AddCoins (tx : CTransaction) (nHeight : Z) (check : bool) (s : CCoinsViewCache) : option CCoinsViewCache :=
  txid ← GetHash tx;
  AddCoins_loop (IsCoinBase tx) (IsCoinStake tx) txid nHeight check 0 (vout tx) s.

(** ** Coins by transaction *)
Definition MIN_TRANSACTION_OUTPUT_WEIGHT : Z := 4 * Z.of_nat (length (enc CTxOut_codec CTxOut_null)).
Definition MAX_OUTPUTS_PER_BLOCK : Z := 8000000 / MIN_TRANSACTION_OUTPUT_WEIGHT.
Fixpoint AccessByTxid_loop (fuel : nat) (txid : bytes) (n : Z) (s : CCoinsViewCache) : option (Coin * CCoinsViewCache) :=
  if n <? MAX_OUTPUTS_PER_BLOCK then
    let '(alternate, s) := AccessCoin (mkCOutPoint txid n) s in
    if negb (IsSpent alternate) then Some (alternate, s)
    else match fuel with O => None | S fuel => AccessByTxid_loop fuel txid (n + 1) s end
  else Some (coinEmpty, s).
Definition AccessByTxid (txid : bytes) (s : CCoinsViewCache) : option (Coin * CCoinsViewCache) :=
  AccessByTxid_loop (Z.to_nat MAX_OUTPUTS_PER_BLOCK) txid 0 s.
(** The loop returns in its first turn. *)
Definition AccessByticketTxid (txid : bytes) (s : CCoinsViewCache) : Coin * CCoinsViewCache :=
  if 0 <? MAX_OUTPUTS_PER_BLOCK then AccessCoin (mkCOutPoint txid 0) s else (coinEmpty, s).
End Cache.
Arguments CCoinsViewCache V : clear implicits.

(** ** The cache is a view *)
#[global] Instance cache_view {V} `{CoinsView V} (DynamicMemoryUsage : Coin → Z) : CoinsView (CCoinsViewCache V) := {|
  view_GetCoin := GetCoin DynamicMemoryUsage;
  view_GetBestBlock := GetBestBlock;
  view_BatchWrite := BatchWrite DynamicMemoryUsage |}.

(** ** What a cache stands for *)

(** Two states of a view that nobody can tell apart. *)
Definition same_view {V} `{CoinsViewLaws V} (v v' : V) : Prop :=
  view_ok v' ∧ (∀ o, view_coins v' o = view_coins v o) ∧ view_best v' = view_best v.

Section CacheLaws.
Context {V : Type} `{CoinsViewLaws V} (DynamicMemoryUsage : Coin → Z).
Implicit Types (s : CCoinsViewCache V) (o : COutPoint) (e : CCoinsCacheEntry) (c : Coin).
Abbreviation usage := DynamicMemoryUsage.
(** A cleared coin holds no memory. *)
Context (usage_cleared : usage coinEmpty = 0).

(** An entry is justified by the coin [b] of the base: [FRESH] only without a
    coin there, and without [DIRTY] the entry is that coin. *)
Definition entry_ok (b : option Coin) e : Prop :=
  0 ≤ flags e < 4 ∧ (is_fresh e = true → b = None) ∧ (is_dirty e = false → unspent (coin e) = b).
Definition total_usage (m : CCoinsMap) : Z := map_fold (λ _ e n, usage (coin e) + n) 0 m.
Definition cache_coins s o : option Coin :=
  match cacheCoins s !! o with Some e => unspent (coin e) | None => view_coins (cbase s) o end.
Definition cache_best s : bytes := if IsNull256 (hashBlock s) then view_best (cbase s) else hashBlock s.
Record cache_ok s : Prop := {
  cache_base_ok : view_ok (cbase s);
  cache_entries_ok o e : cacheCoins s !! o = Some e → entry_ok (view_coins (cbase s) o) e;
  cache_usage_ok : cachedCoinsUsage s = u64 (total_usage (cacheCoins s)) }.

Definition same_cache s s' : Prop := cache_ok s' ∧ (∀ o, cache_coins s' o = cache_coins s o) ∧ cache_best s' = cache_best s.

Lemma same_cache_refl s : cache_ok s → same_cache s s.
Proof. done. Qed.
Lemma same_cache_trans s1 s2 s3 : same_cache s1 s2 → same_cache s2 s3 → same_cache s1 s3.
Proof. intros (_ & H1 & H2) (Hok & H3 & H4). split; [done|]. split; [|by rewrite H4]. intros o. by rewrite H3. Qed.

(** *** Flags and memory accounting *)
Lemma flags_cases f : 0 ≤ f < 4 → f = 0 ∨ f = 1 ∨ f = 2 ∨ f = 3.
Proof. lia. Qed.
Ltac flag_absurd H := exfalso; vm_compute in H; discriminate H.
Lemma u64_sub_l a b : u64 (u64 a - b) = u64 (a - b).
Proof. unfold u64. by rewrite Zminus_mod_idemp_l. Qed.

Lemma total_usage_insert_new m o e : m !! o = None → total_usage (<[o := e]> m) = usage (coin e) + total_usage m.
Proof. intros Hm. unfold total_usage. rewrite map_fold_insert_L; [done|intros; lia|done]. Qed.
Lemma total_usage_delete m o e : m !! o = Some e → total_usage (delete o m) = total_usage m - usage (coin e).
Proof.
  intros Hm. unfold total_usage. rewrite (map_fold_delete_L _ _ o e m); [lia|intros; lia|done].
Qed.
Lemma total_usage_insert m o e e' : m !! o = Some e → total_usage (<[o := e']> m) = total_usage m - usage (coin e) + usage (coin e').
Proof.
  intros Hm. rewrite <- insert_delete_eq, total_usage_insert_new by apply lookup_delete_eq.
  rewrite (total_usage_delete m o e Hm). lia.
Qed.

(** *** Changing one entry *)
Lemma cache_insert_ok s o e u :
  cache_ok s → entry_ok (view_coins (cbase s) o) e → u = u64 (total_usage (<[o := e]> (cacheCoins s))) →
  let s' := mkCache (cbase s) (hashBlock s) (<[o := e]> (cacheCoins s)) u in
  cache_ok s' ∧ (∀ o', cache_coins s' o' = if decide (o' = o) then unspent (coin e) else cache_coins s o') ∧
  cache_best s' = cache_best s.
Proof.
  intros [Hb He Hu] Hok -> s'. split_and!; [|intros o'|done].
  - split; [done| |done]. intros o' e'. cbn. rewrite lookup_insert_Some. intros [[<- <-]|[Hne Hl]]; [done|by apply He].
  - unfold cache_coins. cbn. destruct (decide (o' = o)) as [->|Hne]; [by rewrite lookup_insert_eq|by rewrite lookup_insert_ne].
Qed.
Lemma cache_delete_ok s o u :
  cache_ok s → u = u64 (total_usage (delete o (cacheCoins s))) →
  let s' := mkCache (cbase s) (hashBlock s) (delete o (cacheCoins s)) u in
  cache_ok s' ∧ (∀ o', cache_coins s' o' = if decide (o' = o) then view_coins (cbase s) o else cache_coins s o') ∧
  cache_best s' = cache_best s.
Proof.
  intros [Hb He Hu] -> s'. split_and!; [|intros o'|done].
  - split; [done| |done]. intros o' e'. cbn. rewrite lookup_delete_Some. intros [Hne Hl]. by apply He.
  - unfold cache_coins. cbn. destruct (decide (o' = o)) as [->|Hne]; [by rewrite lookup_delete_eq|by rewrite lookup_delete_ne].
Qed.
(** The base is replaced by an indistinguishable one. *)
Lemma cache_base_same s b :
  cache_ok s → same_view (cbase s) b → same_cache s (mkCache b (hashBlock s) (cacheCoins s) (cachedCoinsUsage s)).
Proof.
  intros [Hb He Hu] (Hb' & Hc & Hbest). split_and!.
  - split; [done| |done]. cbn. intros o e Hl. rewrite Hc. by apply He.
  - intros o. unfold cache_coins. cbn. by rewrite Hc.
  - unfold cache_best. cbn. by rewrite Hbest.
Qed.

Lemma unspent_base s o : view_ok (cbase s) → view_coins (cbase s) o ≫= unspent = view_coins (cbase s) o.
Proof.
  intros Hb. destruct (view_coins (cbase s) o) as [c|] eqn:E; [|done]. cbn. unfold unspent. by rewrite (view_unspent _ _ _ Hb E).
Qed.

(** *** Reading *)
Lemma FetchCoin_spec o s : cache_ok s → ∃ r s', FetchCoin usage o s = (r, s') ∧ same_cache s s' ∧
  cacheCoins s' !! o = r ∧ r ≫= (λ e, unspent (coin e)) = cache_coins s o ∧ (r = None → view_coins (cbase s') o = None).
Proof.
  intros Hok. unfold FetchCoin. destruct (cacheCoins s !! o) as [e|] eqn:E.
  { exists (Some e), s. split_and!; try done. unfold cache_coins. by rewrite E. }
  destruct (view_GetCoin_law o (cbase s) (cache_base_ok s Hok)) as (b & -> & Hsame).
  pose proof (cache_base_same s b Hok Hsame) as (Hok' & Hc' & Hb'). pose proof Hsame as (Hbok & Hcb & _).
  assert (Hco : cache_coins s o = view_coins (cbase s) o) by (unfold cache_coins; by rewrite E).
  destruct (view_coins (cbase s) o) as [c|] eqn:Ec.
  - pose proof (view_unspent _ _ _ (cache_base_ok s Hok) Ec) as Hs. rewrite Hs.
    destruct (cache_insert_ok _ o (mkEntry c 0) (u64 (cachedCoinsUsage s + usage c)) Hok') as (H1 & H2 & H3).
    + cbn. rewrite Hcb, Ec. split; [cbn; lia|]. split; [done|]. intros _. unfold unspent. cbn. by rewrite Hs.
    + cbn. rewrite total_usage_insert_new by done. rewrite (cache_usage_ok s Hok), u64_add_l. cbn. f_equal. lia.
    + eexists _, _. split; [reflexivity|]. cbn in *. rewrite lookup_insert_eq. split_and!; [|done| |done].
      * split_and!; [done| |by rewrite H3]. intros o'. rewrite H2. case_decide as Hd; [|by rewrite Hc'].
        subst o'. rewrite Hco. unfold unspent. by rewrite Hs.
      * unfold unspent. cbn. by rewrite Hs, Hco.
  - eexists _, _. split; [reflexivity|]. split_and!; [done|done|by rewrite Hco|]. intros _. cbn. by rewrite Hcb.
Qed.

Lemma GetCoin_spec o s : cache_ok s → ∃ s', GetCoin usage o s = (cache_coins s o, s') ∧ same_cache s s'.
Proof.
  intros Hok. destruct (FetchCoin_spec o s Hok) as (r & s' & E & Hs & _ & Hr & _). unfold GetCoin. rewrite E.
  exists s'. split; [|done]. rewrite <- Hr. destruct r as [e|]; [|done]. reflexivity.
Qed.
Lemma HaveCoin_spec o s : cache_ok s → ∃ s', HaveCoin usage o s = (bool_decide (is_Some (cache_coins s o)), s') ∧ same_cache s s'.
Proof.
  intros Hok. destruct (FetchCoin_spec o s Hok) as (r & s' & E & Hs & _ & Hr & _). unfold HaveCoin. rewrite E, <- Hr.
  exists s'. split; [|done]. destruct r as [e|]; cbn; [|done]. unfold unspent. by destruct (IsSpent (coin e)).
Qed.
Lemma AccessCoin_spec o s : cache_ok s → ∃ c s', AccessCoin usage o s = (c, s') ∧ unspent c = cache_coins s o ∧ same_cache s s'.
Proof.
  intros Hok. destruct (FetchCoin_spec o s Hok) as (r & s' & E & Hs & _ & Hr & _). unfold AccessCoin. rewrite E, <- Hr.
  destruct r as [e|]; eexists _, s'; (split; [reflexivity|done]).
Qed.
Lemma GetBestBlock_spec s : cache_ok s → ∃ s', GetBestBlock s = (cache_best s, s') ∧ same_cache s s' ∧ hashBlock s' = cache_best s.
Proof.
  intros Hok. unfold GetBestBlock, cache_best. destruct (IsNull256 (hashBlock s)) eqn:E; [|by exists s; split_and!; [|apply same_cache_refl|]].
  destruct (view_GetBestBlock_law (cbase s) (cache_base_ok s Hok)) as (b & -> & Hsame).
  pose proof (cache_base_same s b Hok Hsame) as (Hok' & Hc' & Hb').
  eexists. split; [reflexivity|]. split; [|done]. split_and!.
  - destruct Hok' as [H1 H2 H3]. by split.
  - exact Hc'.
  - destruct Hsame as (_ & _ & Hbest). unfold cache_best. rewrite E. cbn [hashBlock cbase]. rewrite Hbest.
    by destruct (IsNull256 (view_best (cbase s))).
Qed.

(** *** Writing *)
Lemma AddCoin_spec o c overwrite s :
  cache_ok s → IsSpent c = false → (overwrite = false → cache_coins s o = None) →
  ∃ s', AddCoin usage o c overwrite s = Some s' ∧ cache_ok s' ∧ cache_best s' = cache_best s ∧
    ∀ o', cache_coins s' o' =
      if decide (o' = o) then (if IsUnspendable (scriptPubKey (out c)) then cache_coins s o else Some c) else cache_coins s o'.
Proof.
  intros Hok Hc Hov. unfold AddCoin. rewrite Hc. destruct (IsUnspendable _).
  { exists s. split_and!; try done. intros o'. case_decide; congruence. }
  assert (Hu : unspent c = Some c) by (unfold unspent; by rewrite Hc).
  destruct (cacheCoins s !! o) as [it|] eqn:E.
  - destruct (cache_entries_ok s Hok o it E) as (Hf & Hfresh & Hclean).
    assert (Hco : cache_coins s o = unspent (coin it)) by (unfold cache_coins; by rewrite E).
    assert (Hn : negb overwrite && negb (IsSpent (coin it)) = false).
    { destruct overwrite; [done|]. specialize (Hov eq_refl). rewrite Hco in Hov. unfold unspent in Hov. by destruct (IsSpent (coin it)). }
    rewrite Hn. set (fl := Z.lor _ _).
    destruct (cache_insert_ok s o (mkEntry c fl) (u64 (u64 (cachedCoinsUsage s - usage (coin it)) + usage c)) Hok) as (H1 & H2 & H3).
    + assert (Hfl : 0 ≤ fl < 4 ∧ is_dirty (mkEntry c fl) = true ∧ (is_fresh (mkEntry c fl) = true →
        is_fresh it = true ∨ (overwrite = false ∧ is_dirty it = false))).
      { unfold fl, is_dirty, is_fresh in *. cbn [flags]. destruct overwrite, (flags_cases _ Hf) as [-> | [-> | [-> | ->]]]; cbn; split_and!; try done; auto; lia. }
      destruct Hfl as (Hfl & Hd & Hfr). split; [done|]. rewrite Hd. split; [|done]. intros Hx. destruct (Hfr Hx) as [?|[-> Hcl]]; [by apply Hfresh|].
      rewrite <- (Hclean Hcl), <- Hco. by apply Hov.
    + rewrite (total_usage_insert _ _ it) by done. rewrite (cache_usage_ok s Hok), u64_sub_l, u64_add_l. done.
    + eexists. split; [reflexivity|]. split_and!; [done|done|]. intros o'. rewrite H2. cbn [coin]. by rewrite Hu.
  - cbn [new_entry coin flags]. rewrite andb_false_r.
    assert (Hco : cache_coins s o = view_coins (cbase s) o) by (unfold cache_coins; by rewrite E).
    set (fl := Z.lor _ _).
    destruct (cache_insert_ok s o (mkEntry c fl) (u64 (cachedCoinsUsage s + usage c)) Hok) as (H1 & H2 & H3).
    + unfold entry_ok, fl, is_fresh, is_dirty. cbn [flags].
      destruct overwrite; (split; [by vm_compute|]); (split; [|intros Hx; flag_absurd Hx]); [intros Hx; flag_absurd Hx|].
      intros _. rewrite <- Hco. by apply Hov.
    + rewrite total_usage_insert_new by done. rewrite (cache_usage_ok s Hok), u64_add_l. cbn. f_equal. lia.
    + eexists. split; [reflexivity|]. split_and!; [done|done|]. intros o'. rewrite H2. cbn [coin]. by rewrite Hu.
Qed.

(** The coin that is moved out may be one already spent. *)
Lemma SpendCoin_spec o s : cache_ok s → ∃ r s', SpendCoin usage o s = (r, s') ∧ r ≫= unspent = cache_coins s o ∧
  cache_ok s' ∧ cache_best s' = cache_best s ∧ ∀ o', cache_coins s' o' = if decide (o' = o) then None else cache_coins s o'.
Proof.
  intros Hok. unfold SpendCoin. destruct (FetchCoin_spec o s Hok) as (r & s1 & -> & (Hok1 & Hc1 & Hb1) & Hl & Hr & Hnone).
  destruct r as [it|].
  - destruct (cache_entries_ok s1 Hok1 o it Hl) as (Hf & Hfresh & Hclean). eexists _, _. split; [reflexivity|]. split; [exact Hr|].
    destruct (is_fresh it) eqn:Efr.
    + destruct (cache_delete_ok s1 o (u64 (cachedCoinsUsage s1 - usage (coin it))) Hok1) as (H1 & H2 & H3).
      * rewrite (total_usage_delete _ _ it) by done. by rewrite (cache_usage_ok s1 Hok1), u64_sub_l.
      * split_and!; [done|by rewrite H3|]. intros o'. rewrite H2, Hc1. case_decide; [by apply Hfresh|done].
    + destruct (cache_insert_ok s1 o (mkEntry (Coin_Clear (coin it)) (Z.lor (flags it) DIRTY))
        (u64 (cachedCoinsUsage s1 - usage (coin it))) Hok1) as (H1 & H2 & H3).
      * unfold entry_ok, is_fresh, is_dirty in *. cbn [flags].
        destruct (flags_cases _ Hf) as [E|[E|[E|E]]]; rewrite E in *; try flag_absurd Efr;
          (split; [by vm_compute|]); split; intros Hx; flag_absurd Hx.
      * rewrite (total_usage_insert _ _ it) by done. cbn [coin]. change (Coin_Clear _) with coinEmpty.
        rewrite usage_cleared, (cache_usage_ok s1 Hok1), u64_sub_l. f_equal. lia.
      * split_and!; [done|by rewrite H3|]. intros o'. rewrite H2, Hc1. by case_decide.
  - exists None, s1. split_and!; [done|exact Hr|done|done|]. intros o'. rewrite Hc1. case_decide as Hd; [|done]. subst o'. by rewrite <- Hr.
Qed.

Lemma Uncache_spec o s : cache_ok s → same_cache s (Uncache usage o s).
Proof.
  intros Hok. unfold Uncache. destruct (cacheCoins s !! o) as [it|] eqn:E; [|done].
  destruct (Z.eqb_spec (flags it) 0) as [Hz|]; [|done].
  destruct (cache_entries_ok s Hok o it E) as (_ & _ & Hclean).
  destruct (cache_delete_ok s o (u64 (cachedCoinsUsage s - usage (coin it))) Hok) as (H1 & H2 & H3).
  - rewrite (total_usage_delete _ _ it) by done. by rewrite (cache_usage_ok s Hok), u64_sub_l.
  - split_and!; [done| |done]. intros o'. rewrite H2. case_decide as Hd; [|done]. subst o'. unfold cache_coins. rewrite E.
    symmetry. apply Hclean. unfold is_dirty. by rewrite Hz.
Qed.

(** *** Batches *)
Lemma write_entry_spec o e s :
  cache_ok s → (is_dirty e = true → is_fresh e = true → cache_coins s o = None) →
  ∃ s', write_entry usage o e s = Some s' ∧ cache_ok s' ∧ cache_best s' = cache_best s ∧ hashBlock s' = hashBlock s ∧
    ∀ o', cache_coins s' o' = if decide (o' = o) then (if is_dirty e then unspent (coin e) else cache_coins s o) else cache_coins s o'.
Proof.
  intros Hok Hpre. unfold write_entry. destruct (is_dirty e) eqn:Ed; cbn [negb].
  2: { exists s. split_and!; try done. intros o'. case_decide; congruence. }
  specialize (Hpre eq_refl). destruct (cacheCoins s !! o) as [it|] eqn:E.
  - destruct (cache_entries_ok s Hok o it E) as (Hf & Hfresh & Hclean).
    assert (Hco : cache_coins s o = unspent (coin it)) by (unfold cache_coins; by rewrite E).
    assert (Hn : is_fresh e && negb (IsSpent (coin it)) = false).
    { destruct (is_fresh e); [|done]. specialize (Hpre eq_refl). rewrite Hco in Hpre. unfold unspent in Hpre. by destruct (IsSpent (coin it)). }
    rewrite Hn. destruct (is_fresh it && IsSpent (coin e)) eqn:Edel.
    + apply andb_true_iff in Edel as [Efr Esp].
      destruct (cache_delete_ok s o (u64 (cachedCoinsUsage s - usage (coin it))) Hok) as (H1 & H2 & H3).
      * rewrite (total_usage_delete _ _ it) by done. by rewrite (cache_usage_ok s Hok), u64_sub_l.
      * eexists. split; [reflexivity|]. split_and!; [done|done|done|]. intros o'. rewrite H2. case_decide; [|done].
        unfold unspent. rewrite Esp. by apply Hfresh.
    + destruct (cache_insert_ok s o (mkEntry (coin e) (Z.lor (flags it) DIRTY))
        (u64 (u64 (cachedCoinsUsage s - usage (coin it)) + usage (coin e))) Hok) as (H1 & H2 & H3).
      * unfold entry_ok, is_fresh, is_dirty in *. cbn [flags].
        destruct (flags_cases _ Hf) as [E'|[E'|[E'|E']]]; rewrite E' in *; (split; [by vm_compute|]);
          split; intros Hx; first [flag_absurd Hx|by apply Hfresh].
      * rewrite (total_usage_insert _ _ it) by done. by rewrite (cache_usage_ok s Hok), u64_sub_l, u64_add_l.
      * eexists. split; [reflexivity|]. split_and!; [done|done|done|]. intros o'. by rewrite H2.
  - assert (Hco : cache_coins s o = view_coins (cbase s) o) by (unfold cache_coins; by rewrite E).
    destruct (is_fresh e && IsSpent (coin e)) eqn:Efs.
    + apply andb_true_iff in Efs as [Efr Esp]. exists s. split_and!; try done. intros o'. case_decide as Hd; [|done]. subst o'.
      unfold unspent. rewrite Esp. by apply Hpre.
    + destruct (cache_insert_ok s o (mkEntry (coin e) (if is_fresh e then Z.lor DIRTY FRESH else DIRTY))
        (u64 (cachedCoinsUsage s + usage (coin e))) Hok) as (H1 & H2 & H3).
      * destruct (is_fresh e) eqn:Efr; unfold entry_ok, is_dirty, is_fresh; cbn [flags]; (split; [by vm_compute|]); (split; [|intros Hx; flag_absurd Hx]); [|intros Hx; flag_absurd Hx].
        intros _. rewrite <- Hco. by apply Hpre.
      * rewrite total_usage_insert_new by done. rewrite (cache_usage_ok s Hok), u64_add_l. cbn. f_equal. lia.
      * eexists. split; [reflexivity|]. split_and!; [done|done|done|]. intros o'. by rewrite H2.
Qed.

(** In whatever order the entries come. *)
Lemma write_entries_spec l s :
  cache_ok s → NoDup l.*1 →
  (∀ o e, (o, e) ∈ l → is_dirty e = true → is_fresh e = true → cache_coins s o = None) →
  ∃ s', write_entries usage l s = Some s' ∧ cache_ok s' ∧ cache_best s' = cache_best s ∧ hashBlock s' = hashBlock s ∧
    ∀ o, cache_coins s' o = apply_batch (cache_coins s) (list_to_map l) o.
Proof.
  revert s. induction l as [|[o e] l IH]; intros s Hok Hnd Hpre; [by exists s|].
  cbn [write_entries fmap list_fmap fst] in *. apply NoDup_cons in Hnd as [Hin Hnd].
  destruct (write_entry_spec o e s Hok) as (s1 & -> & Hok1 & Hb1 & Hh1 & Hc1); [apply Hpre; by left|].
  cbn [mbind option_bind]. destruct (IH s1 Hok1 Hnd) as (s' & -> & Hok' & Hb' & Hh' & Hc').
  - intros o' e' He' Hd Hf. rewrite Hc1. case_decide as E; [|by apply (Hpre o' e'); [right|..]].
    subst o'. destruct Hin. by apply list_elem_of_fmap_2 with (f := fst) in He'.
  - exists s'. split_and!; [done|done|by rewrite Hb'|by rewrite Hh'|]. intros o'. rewrite Hc'. unfold apply_batch.
    cbn [list_to_map foldr]. rewrite Hc1. destruct (decide (o' = o)) as [->|Hne].
    + rewrite lookup_insert_eq. rewrite not_elem_of_list_to_map_1 by done. done.
    + rewrite lookup_insert_ne by done. done.
Qed.
Lemma BatchWrite_spec m h s :
  cache_ok s → batch_ok (cache_coins s) m → IsNull256 h = false →
  ∃ s', BatchWrite usage m h s = Some (true, s') ∧ cache_ok s' ∧
    (∀ o, cache_coins s' o = apply_batch (cache_coins s) m o) ∧ cache_best s' = h.
Proof.
  intros Hok Hm Hh. unfold BatchWrite.
  destruct (write_entries_spec (map_to_list m) s Hok (NoDup_fst_map_to_list m)) as (s' & -> & Hok' & Hb & Hh' & Hc).
  - intros o e He%elem_of_map_to_list. by apply Hm.
  - cbn [mbind option_bind]. eexists. split; [reflexivity|]. rewrite list_to_map_to_list in Hc. split_and!.
    + by destruct Hok'.
    + exact Hc.
    + unfold cache_best, SetBestBlock. cbn [hashBlock]. by rewrite Hh.
Qed.

Lemma Flush_spec s :
  cache_ok s → IsNull256 (hashBlock s) = false →
  ∃ s', Flush s = Some (true, s') ∧ same_cache s s' ∧ cacheCoins s' = ∅ ∧ hashBlock s' = hashBlock s ∧
    (∀ o, view_coins (cbase s') o = cache_coins s o) ∧ view_best (cbase s') = hashBlock s.
Proof.
  intros Hok Hh. unfold Flush.
  destruct (view_BatchWrite_law (cacheCoins s) (hashBlock s) (cbase s) (cache_base_ok s Hok)) as (b & -> & Hb & Hc & Hbest).
  - intros o e He _ Hf. by apply (cache_entries_ok s Hok o e He).
  - done.
  - cbn [mbind option_bind].
    assert (Hco : ∀ o, view_coins b o = cache_coins s o).
    { intros o. rewrite Hc. unfold apply_batch, cache_coins. destruct (cacheCoins s !! o) as [e|] eqn:E; [|done].
      destruct (is_dirty e) eqn:Ed; [done|]. symmetry. by apply (cache_entries_ok s Hok o e E). }
    eexists. split; [reflexivity|]. split_and!; [|done|done|done|done]. split_and!.
    + split; [done| |done]. cbn. intros o e. by rewrite lookup_empty.
    + intros o. unfold cache_coins at 1. cbn. by rewrite lookup_empty.
    + unfold cache_best. cbn [hashBlock]. by rewrite Hh.
Qed.

(** *** Stacking *)
#[global] Program Instance cache_laws : CoinsViewLaws (CCoinsViewCache V) (H := cache_view usage) := {|
  view_ok := cache_ok; view_coins := cache_coins; view_best := cache_best |}.
Next Obligation.
  intros s o c Hok. unfold cache_coins. destruct (cacheCoins s !! o) as [e|].
  - unfold unspent. destruct (IsSpent (coin e)) eqn:E; [done|]. by intros [= <-].
  - apply view_unspent. by apply cache_base_ok.
Qed.
Next Obligation. intros o s Hok. by apply GetCoin_spec. Qed.
Next Obligation. intros s Hok. destruct (GetBestBlock_spec s Hok) as (s' & E & Hs & _). by exists s'. Qed.
Next Obligation. intros m h s Hok Hm Hh. by apply BatchWrite_spec. Qed.

End CacheLaws.

(** ** The abstract set of coins *)

(** A view that is its own specification: the function from outpoints to
    unspent coins and the block it belongs to. *)
Record plain_view := mkPlain { plain_coins : COutPoint → option Coin; plain_best : bytes }.
#[global] Instance plain_CoinsView : CoinsView plain_view := {|
  view_GetCoin o v := (plain_coins v o, v);
  view_GetBestBlock v := (plain_best v, v);
  view_BatchWrite m h v := if IsNull256 h then None else Some (true, mkPlain (apply_batch (plain_coins v) m) h) |}.
#[global] Program Instance plain_laws : CoinsViewLaws plain_view := {|
  view_ok v := ∀ o c, plain_coins v o = Some c → IsSpent c = false;
  view_coins := plain_coins; view_best := plain_best |}.
Next Obligation. intros v o c Hok Hc. by apply (Hok o). Qed.
Next Obligation. intros o v Hok. by exists v. Qed.
Next Obligation. intros v Hok. by exists v. Qed.
Next Obligation.
  intros m h v Hok Hm Hh. eexists. cbn. rewrite Hh. split; [reflexivity|]. split_and!; [|done|done]. intros o c. cbn.
  unfold apply_batch. destruct (m !! o) as [e|]; [|apply Hok]. destruct (is_dirty e); [|apply Hok].
  unfold unspent. destruct (IsSpent (coin e)) eqn:E; [done|]. by intros [= <-].
Qed.

Inductive coins_op :=
  | OpGetCoin (o : COutPoint) | OpHaveCoin (o : COutPoint) | OpAccessCoin (o : COutPoint)
  | OpAddCoin (o : COutPoint) (c : Coin) (possible_overwrite : bool) | OpSpendCoin (o : COutPoint)
  | OpUncache (o : COutPoint) | OpGetBestBlock | OpSetBestBlock (h : bytes) | OpFlush.
Inductive coins_answer := ACoin (r : option Coin) | ABool (b : bool) | AHash (h : bytes) | ADone.

Definition set_coin (C : COutPoint → option Coin) (o : COutPoint) (r : option Coin) : COutPoint → option Coin :=
  λ o', if decide (o' = o) then r else C o'.
(** The promise of a cache, and what it asks of its user: coins added are
    unspent and, without the overwrite flag, new; the best block is set or has
    been asked for before a flush. *)
Definition spec_step (op : coins_op) (st : plain_view * bool) : option (coins_answer * (plain_view * bool)) :=
  let '(mkPlain C h, known) := st in
  match op with
  | OpGetCoin o | OpAccessCoin o => Some (ACoin (C o), st)
  | OpHaveCoin o => Some (ABool (bool_decide (is_Some (C o))), st)
  | OpAddCoin o c overwrite =>
      if IsSpent c || (negb overwrite && bool_decide (is_Some (C o))) then None
      else Some (ADone, (mkPlain (if IsUnspendable (scriptPubKey (out c)) then C else set_coin C o (Some c)) h, known))
  | OpSpendCoin o => Some (ACoin (C o), (mkPlain (set_coin C o None) h, known))
  | OpUncache o => Some (ADone, st)
  | OpGetBestBlock => Some (AHash h, (mkPlain C h, negb (IsNull256 h)))
  | OpSetBestBlock h => if IsNull256 h then None else Some (ADone, (mkPlain C h, true))
  | OpFlush => if known then Some (ABool true, st) else None
  end.
Fixpoint spec_run (ops : list coins_op) (st : plain_view * bool) : option (list coins_answer * (plain_view * bool)) :=
  match ops with
  | [] => Some ([], st)
  | op :: ops => '(a, st) ← spec_step op st; '(l, st) ← spec_run ops st; Some (a :: l, st)
  end.

(** The same operations on a cache; of a coin only what is unspent is compared. *)
Definition cache_step {V} `{CoinsView V} (usage : Coin → Z) (op : coins_op) (s : CCoinsViewCache V) :
    option (coins_answer * CCoinsViewCache V) :=
  match op with
  | OpGetCoin o => let '(r, s) := GetCoin usage o s in Some (ACoin r, s)
  | OpHaveCoin o => let '(b, s) := HaveCoin usage o s in Some (ABool b, s)
  | OpAccessCoin o => let '(c, s) := AccessCoin usage o s in Some (ACoin (unspent c), s)
  | OpAddCoin o c overwrite => s ← AddCoin usage o c overwrite s; Some (ADone, s)
  | OpSpendCoin o => let '(r, s) := SpendCoin usage o s in Some (ACoin (r ≫= unspent), s)
  | OpUncache o => Some (ADone, Uncache usage o s)
  | OpGetBestBlock => let '(h, s) := GetBestBlock s in Some (AHash h, s)
  | OpSetBestBlock h => Some (ADone, SetBestBlock h s)
  | OpFlush => '(b, s) ← Flush s; Some (ABool b, s)
  end.
Fixpoint cache_run {V} `{CoinsView V} (usage : Coin → Z) (ops : list coins_op) (s : CCoinsViewCache V) :
    option (list coins_answer * CCoinsViewCache V) :=
  match ops with
  | [] => Some ([], s)
  | op :: ops => '(a, s) ← cache_step usage op s; '(l, s) ← cache_run usage ops s; Some (a :: l, s)
  end.

(** A cache that stands for an abstract state. *)
Definition represents {V} `{CoinsViewLaws V} (usage : Coin → Z) (s : CCoinsViewCache V) (st : plain_view * bool) : Prop :=
  cache_ok usage s ∧ (∀ o, cache_coins s o = plain_coins (fst st) o) ∧ cache_best s = plain_best (fst st) ∧
  (snd st = true → hashBlock s = plain_best (fst st) ∧ IsNull256 (hashBlock s) = false).

Section Refinement.
Context {V : Type} `{CoinsViewLaws V} (usage : Coin → Z) (usage_cleared : usage coinEmpty = 0).
Implicit Types (s : CCoinsViewCache V).

(** The best block a cache has stored survives every operation but [SetBestBlock]. *)
Lemma FetchCoin_hash o s : hashBlock (snd (FetchCoin usage o s)) = hashBlock s.
Proof. unfold FetchCoin. destruct (cacheCoins s !! o); [done|]. by destruct (view_GetCoin _ _) as [[]]. Qed.
Lemma AddCoin_hash o c b s s' : AddCoin usage o c b s = Some s' → hashBlock s' = hashBlock s.
Proof.
  unfold AddCoin. destruct (IsSpent c); [done|]. destruct (IsUnspendable _); [by intros [= <-]|].
  destruct (cacheCoins s !! o) as [it|]; destruct (negb b && _); try done; by intros [= <-].
Qed.

Lemma represents_same s s' st : represents usage s st → same_cache usage s s' → hashBlock s' = hashBlock s → represents usage s' st.
Proof.
  intros (Hok & Hc & Hb & Hk) (Hok' & Hc' & Hb') Hh. split_and!; [done| |by rewrite Hb'|by rewrite Hh]. intros o. by rewrite Hc'.
Qed.

Lemma cache_step_refines op s st a st' :
  represents usage s st → spec_step op st = Some (a, st') → ∃ s', cache_step usage op s = Some (a, s') ∧ represents usage s' st'.
Proof.
  intros Hr. pose proof Hr as (Hok & Hc & Hb & Hk). destruct st as [[C h] known]. cbn [fst snd plain_coins plain_best] in *.
  destruct op as [o|o|o|o c ov|o|o| |h'|]; cbn [spec_step cache_step].
  - intros [= <- <-]. destruct (GetCoin_spec usage o s Hok) as (s' & E & Hs). rewrite E, Hc. eexists. split; [done|].
    apply (represents_same s); [done..|]. pose proof (FetchCoin_hash o s) as Hf. unfold GetCoin in E.
    destruct (FetchCoin usage o s). by injection E as _ <-.
  - intros [= <- <-]. destruct (HaveCoin_spec usage o s Hok) as (s' & E & Hs). rewrite E, Hc. eexists. split; [done|].
    apply (represents_same s); [done..|]. pose proof (FetchCoin_hash o s) as Hf. unfold HaveCoin in E.
    destruct (FetchCoin usage o s) as [[]]; by injection E as _ <-.
  - intros [= <- <-]. destruct (AccessCoin_spec usage o s Hok) as (c & s' & E & Hu & Hs). rewrite E, Hu, Hc. eexists. split; [done|].
    apply (represents_same s); [done..|]. pose proof (FetchCoin_hash o s) as Hf. unfold AccessCoin in E.
    destruct (FetchCoin usage o s) as [[]]; by injection E as _ <-.
  - destruct (IsSpent c) eqn:Es; [done|]. cbn [orb]. destruct (negb ov && bool_decide (is_Some (C o))) eqn:En; [done|]. intros [= <- <-].
    destruct (AddCoin_spec usage o c ov s Hok Es) as (s' & E & Hok' & Hb' & Hc').
    { intros ->. rewrite Hc. cbn in En. apply bool_decide_eq_false in En. by destruct (C o); [destruct En|]. }
    rewrite E. cbn [mbind option_bind]. eexists. split; [done|]. split_and!; cbn [fst snd plain_coins plain_best].
    + done.
    + intros o'. rewrite Hc'. unfold set_coin. destruct (IsUnspendable _); case_decide; rewrite ?Hc; congruence.
    + by rewrite Hb'.
    + by rewrite (AddCoin_hash o c ov s s' E).
  - intros [= <- <-]. destruct (SpendCoin_spec usage usage_cleared o s Hok) as (r & s' & E & Hr' & Hok' & Hb' & Hc').
    rewrite E, Hr', Hc. eexists. split; [done|]. split_and!; cbn [fst snd plain_coins plain_best].
    + done.
    + intros o'. rewrite Hc'. unfold set_coin. case_decide; [done|apply Hc].
    + by rewrite Hb'.
    + pose proof (FetchCoin_hash o s) as Hf. unfold SpendCoin in E.
      destruct (FetchCoin usage o s) as [[it|] s1]; injection E as _ <-; cbn in *; by rewrite Hf.
  - intros [= <- <-]. eexists. split; [done|]. apply (represents_same s); [done|by apply Uncache_spec|].
    unfold Uncache. destruct (cacheCoins s !! o) as [it|]; [|done]. by destruct (_ =? 0).
  - intros [= <- <-]. destruct (GetBestBlock_spec usage s Hok) as (s' & E & (Hok' & Hc' & Hb') & Hh). rewrite E, Hb. eexists. split; [done|].
    split_and!; cbn [fst snd plain_coins plain_best]; [done| |by rewrite Hb'|].
    + intros o. by rewrite Hc'.
    + intros Hn. rewrite Hh, Hb. by destruct (IsNull256 h).
  - destruct (IsNull256 h') eqn:En; [done|]. intros [= <- <-]. eexists. split; [done|]. split_and!; cbn [fst snd plain_coins plain_best].
    + by destruct Hok.
    + exact Hc.
    + unfold cache_best, SetBestBlock. cbn [hashBlock]. by rewrite En.
    + done.
  - destruct known; [|done]. intros [= <- <-]. destruct (Hk eq_refl) as [Hh Hn].
    destruct (Flush_spec usage s Hok Hn) as (s' & E & Hs & _ & Hh' & _). rewrite E. cbn [mbind option_bind].
    eexists. split; [done|]. by apply (represents_same s).
Qed.

Lemma cache_run_refines ops s st l st' :
  represents usage s st → spec_run ops st = Some (l, st') → ∃ s', cache_run usage ops s = Some (l, s') ∧ represents usage s' st'.
Proof.
  revert s st l. induction ops as [|op ops IH]; intros s st l Hr; cbn [spec_run cache_run].
  - intros [= <- <-]. by exists s.
  - destruct (spec_step op st) as [[a st1]|] eqn:E; [|done]. cbn [mbind option_bind].
    destruct (spec_run ops st1) as [[l1 st2]|] eqn:E1; [|done]. cbn [mbind option_bind]. intros [= <- <-].
    destruct (cache_step_refines op s st a st1 Hr E) as (s1 & -> & Hr1). cbn [mbind option_bind].
    destruct (IH s1 st1 l1 Hr1 E1) as (s2 & -> & Hr2). cbn [mbind option_bind]. by exists s2.
Qed.
End Refinement.

(** ** Properties *)

(** C22. The cache implements the plain set of coins.  Over any base that keeps the
    promises of a view, in particular over another cache, every sequence of
    operations that respects the contract of the abstract state runs on the cache without a failed
    assertion or exception and gives the same answers, and the cache still
    represents the abstract state: loading, the [FRESH] shortcut, removal of
    unmodified entries and flushing are invisible, and the memory counter is
    exact. *)
Theorem coins_cache_refines {V : Type} `{CoinsViewLaws V} (usage : Coin → Z) (ops : list coins_op)
    (s : CCoinsViewCache V) (st st' : plain_view * bool) (l : list coins_answer)
    (Hu : usage coinEmpty = 0) (Hs : represents usage s st) (Hrun : spec_run ops st = Some (l, st')) :
  ∃ s', cache_run usage ops s = Some (l, s') ∧ represents usage s' st' ∧
    cachedCoinsUsage s' = u64 (total_usage usage (cacheCoins s')).
Proof.
  destruct (cache_run_refines usage Hu ops s st l st' Hs Hrun) as (s' & E & Hr). exists s'. split_and!; [done..|].
  by apply cache_usage_ok, Hr.
Qed.

(** Two caches over a base with one coin. *)
Definition outpoint_example (n : Z) : COutPoint := mkCOutPoint (replicate 32 7) n.
Definition coin_example (v : Z) : Coin := mkCoin (mkCTxOut v [OP_1]) false false 5.
Definition base_example : plain_view :=
  mkPlain (λ o, if decide (o = outpoint_example 0) then Some (coin_example 10) else None) (replicate 32 1).
Definition usage_example (c : Coin) : Z := Z.of_nat (length (scriptPubKey (out c))).
Definition stack_example : CCoinsViewCache (CCoinsViewCache plain_view) := new_CCoinsViewCache (new_CCoinsViewCache base_example).
Definition ops_example : list coins_op :=
  [OpGetBestBlock; OpSpendCoin (outpoint_example 0); OpHaveCoin (outpoint_example 0);
   OpAddCoin (outpoint_example 1) (coin_example 20) false; OpFlush; OpGetCoin (outpoint_example 1);
   OpSpendCoin (outpoint_example 1); OpFlush; OpGetCoin (outpoint_example 1)].

Lemma new_cache_represents {V} `{CoinsViewLaws V} (usage : Coin → Z) (v : V) :
  view_ok v → represents usage (new_CCoinsViewCache v) (mkPlain (view_coins v) (view_best v), false).
Proof.
  intros Hv. split_and!; [|done|done|done]. split; [done| |done]. intros o e. cbn. by rewrite lookup_empty.
Qed.
Lemma coins_cache_refines_witness :
  ∃ s', cache_run (H := cache_view usage_example) usage_example ops_example stack_example =
    Some ([AHash (replicate 32 1); ACoin (Some (coin_example 10)); ABool false; ADone; ABool true;
           ACoin (Some (coin_example 20)); ACoin (Some (coin_example 20)); ABool true; ACoin None], s') ∧
    cachedCoinsUsage s' = u64 (total_usage usage_example (cacheCoins s')).
Proof.
  assert (Hb : view_ok base_example) by (intros o c; cbn; case_decide; [by intros [= <-]|done]).
  assert (Hu : usage_example coinEmpty = 0) by reflexivity.
  pose proof (new_cache_represents usage_example base_example Hb) as (Hok & _).
  pose proof (new_cache_represents (H0 := cache_laws usage_example) usage_example (new_CCoinsViewCache base_example) Hok) as Hr.
  destruct (coins_cache_refines (H0 := cache_laws usage_example) usage_example ops_example stack_example _ _ _ Hu Hr eq_refl)
    as (s' & E & _ & Hus).
  exists s'. split; [|exact Hus]. rewrite E. vm_compute. reflexivity.
Defined.

(** C36. Flushing moves the whole state of the cache into its base and empties
    the cache, without changing what either stands for: afterwards the base
    itself has the coins and the best block that the cache showed.  As a base, a
    cache applies exactly the modified entries of any batch whose [FRESH] marks
    are justified, whatever it has loaded itself; and adding a coin without the
    overwrite flag over an unspent entry, or adding a spent coin, raises an error. *)
Theorem coins_flush_correct {V : Type} `{CoinsViewLaws V} (usage : Coin → Z) (s : CCoinsViewCache V)
    (Hs : cache_ok usage s) :
  (IsNull256 (hashBlock s) = false → ∃ s', Flush s = Some (true, s') ∧ same_cache usage s s' ∧ cacheCoins s' = ∅ ∧
     (∀ o, view_coins (cbase s') o = cache_coins s o) ∧ view_best (cbase s') = cache_best s) ∧
  (∀ m h, batch_ok (cache_coins s) m → IsNull256 h = false → ∃ s', BatchWrite usage m h s = Some (true, s') ∧ cache_ok usage s' ∧
     (∀ o, cache_coins s' o = apply_batch (cache_coins s) m o) ∧ cache_best s' = h) ∧
  (∀ o c e, IsSpent c = true ∨ (IsUnspendable (scriptPubKey (out c)) = false ∧ cacheCoins s !! o = Some e ∧ IsSpent (coin e) = false) →
     AddCoin usage o c false s = None).
Proof.
  split_and!.
  - intros Hh. destruct (Flush_spec usage s Hs Hh) as (s' & H1 & H2 & H3 & _ & H5 & H6). exists s'. split_and!; try done; [apply H2..|].
    unfold cache_best. by rewrite Hh.
  - intros m h. by apply BatchWrite_spec.
  - intros o c e. unfold AddCoin. intros [->|(Hun & He & Hsp)]; [done|]. destruct (IsSpent c); [done|].
    rewrite Hun, He. cbn [negb andb]. by rewrite Hsp.
Qed.
Lemma coins_flush_correct_witness :
  let s := snd (FetchCoin usage_example (outpoint_example 0) (snd (GetBestBlock (new_CCoinsViewCache base_example)))) in
  ∃ s', Flush s = Some (true, s') ∧ cacheCoins s' = ∅ ∧ plain_coins (cbase s') (outpoint_example 0) = Some (coin_example 10).
Proof.
  intros s.
  assert (Hb : view_ok base_example) by (intros o c; cbn; case_decide; [by intros [= <-]|done]).
  pose proof (new_cache_represents usage_example base_example Hb) as (Hok & _).
  destruct (GetBestBlock_spec usage_example _ Hok) as (s1 & E1 & (Hok1 & _) & _).
  destruct (FetchCoin_spec usage_example (outpoint_example 0) s1 Hok1) as (r & s2 & E2 & (Hok2 & _) & _).
  assert (Es : s = s2) by (unfold s; rewrite E1; cbn [snd]; by rewrite E2).
  destruct (coins_flush_correct usage_example s ltac:(by rewrite Es)) as (Hf & _).
  destruct (Hf eq_refl) as (s' & H1 & _ & H2 & H3 & _). exists s'. split; [exact H1|]. split; [exact H2|].
  etransitivity; [exact (H3 (outpoint_example 0))|]. vm_compute. reflexivity.
Defined.
