(* ===== verification/Compressor.v ===== *)
(** * Compact forms of outputs, coins and undo records
      (src/src/compressor.h, src/src/compressor.cpp, src/src/coins.h, src/src/undo.h)

    The coin database and the undo files store amounts without trailing zeros and the
    usual output scripts by their hash or key.  Public keys are checked and decompressed by libsecp256k1, a library:
    its two answers are parameters here, with the one fact the format
    relies on. *)

From stdpp Require Import base numbers list option.
From Stdlib Require Import ZArith Lia ZifyNat ZifyBool.
From S2P Require Import Prelude StrEncodings Script Serialize Transaction Coins.

(** ** Amounts *)
Fixpoint strip_zeros (fuel : nat) (n e : Z) : Z * Z :=
  match fuel with
  | O => (n, e)
  | S fuel => if (n mod 10 =? 0) && (e <? 9) then strip_zeros fuel (n / 10) (e + 1) else (n, e)
  end.
(** [None] is the failed assertion. *)
Definition CompressAmount (n : Z) : option Z :=
  if n =? 0 then Some 0
  else
    let '(n, e) := strip_zeros 9 n 0 in
    if e <? 9 then
      let d := n mod 10 in
      if (d >=? 1) && (d <=? 9) then Some (u64 (1 + (n / 10 * 9 + d - 1) * 10 + e)) else None
    else Some (u64 (1 + (n - 1) * 10 + 9)).
Fixpoint add_zeros (e : nat) (n : Z) : Z :=
  match e with O => n | S e => add_zeros e (u64 (n * 10)) end.
Definition DecompressAmount (x : Z) : Z :=
  if x =? 0 then 0
  else
    let x := x - 1 in
    let e := x mod 10 in
    let x := x / 10 in
    let n := if e <? 9 then let d := x mod 9 + 1 in u64 (x / 9 * 10 + d) else u64 (x + 1) in
    add_zeros (Z.to_nat e) n.

(** The undo information of a transaction: the coins its inputs spent. *)
Abbreviation CTxUndo := (list Coin).

(** ** Scripts *)
Section ScriptCompressor.
(** [CPubKey::IsFullyValid] and [CPubKey::Decompress] (the key decompressed, if
    that succeeds). *)
Context (IsFullyValid : bytes → bool) (pubkey_Decompress : bytes → option bytes).

Definition nSpecialScripts : Z := 6.
(** [CPubKey::GetLen] and [CPubKey::Set]; an invalid key is the byte 0xFF. *)
Definition pubkey_GetLen (chHeader : Z) : nat :=
  if (chHeader =? 2) || (chHeader =? 3) then 33%nat
  else if (chHeader =? 4) || (chHeader =? 6) || (chHeader =? 7) then 65%nat else 0%nat.
Definition pubkey_Set (b : bytes) : bytes :=
  let len := match b with [] => 0%nat | c :: _ => pubkey_GetLen c end in
  if negb (len =? 0)%nat && (len =? length b)%nat then b else [0xFF].

Definition IsToKeyID (script : bytes) : option bytes :=
  if (length script =? 25)%nat && (char_at script 0 =? OP_DUP) && (char_at script 1 =? OP_HASH160)
     && (char_at script 2 =? 20) && (char_at script 23 =? OP_EQUALVERIFY) && (char_at script 24 =? OP_CHECKSIG)
  then Some (take 20 (drop 3 script)) else None.
Definition IsToScriptID (script : bytes) : option bytes :=
  if (length script =? 23)%nat && (char_at script 0 =? OP_HASH160) && (char_at script 1 =? 20)
     && (char_at script 22 =? OP_EQUAL)
  then Some (take 20 (drop 2 script)) else None.
(** The key, when the function returns true. *)
Definition IsToPubKey (script : bytes) : option bytes :=
  if (length script =? 35)%nat && (char_at script 0 =? 33) && (char_at script 34 =? OP_CHECKSIG)
     && ((char_at script 1 =? 0x02) || (char_at script 1 =? 0x03))
  then Some (pubkey_Set (take 33 (drop 1 script)))
  else if (length script =? 67)%nat && (char_at script 0 =? 65) && (char_at script 66 =? OP_CHECKSIG)
     && (char_at script 1 =? 0x04)
  then let pubkey := pubkey_Set (take 65 (drop 1 script)) in if IsFullyValid pubkey then Some pubkey else None
  else None.
Definition Compress (script : bytes) : option bytes :=
  match IsToKeyID script with
  | Some keyID => Some (0x00 :: keyID)
  | None =>
      match IsToScriptID script with
      | Some scriptID => Some (0x01 :: scriptID)
      | None =>
          match IsToPubKey script with
          | Some pubkey =>
              let x := take 32 (drop 1 pubkey) in
              if (char_at pubkey 0 =? 0x02) || (char_at pubkey 0 =? 0x03) then Some (char_at pubkey 0 :: x)
              else if char_at pubkey 0 =? 0x04 then Some (Z.lor 0x04 (Z.land (char_at pubkey 64) 0x01) :: x)
              else None
          | None => None
          end
      end
  end.
Definition GetSpecialSize (nSize : Z) : nat :=
  if (nSize =? 0) || (nSize =? 1) then 20%nat
  else if (nSize =? 2) || (nSize =? 3) || (nSize =? 4) || (nSize =? 5) then 32%nat else 0%nat.
(** The script is left as it was when the key is not valid; [None] is the failed assertion. *)
Definition Decompress (nSize : Z) (vin script : bytes) : option bytes :=
  if nSize =? 0 then Some (OP_DUP :: OP_HASH160 :: 20 :: take 20 vin ++ [OP_EQUALVERIFY; OP_CHECKSIG])
  else if nSize =? 1 then Some (OP_HASH160 :: 20 :: take 20 vin ++ [OP_EQUAL])
  else if (nSize =? 2) || (nSize =? 3) then Some (33 :: nSize :: take 32 vin ++ [OP_CHECKSIG])
  else if (nSize =? 4) || (nSize =? 5) then
    match pubkey_Decompress (pubkey_Set (nSize - 2 :: take 32 vin)) with
    | None => Some script
    | Some pubkey => if (length pubkey =? 65)%nat then Some (65 :: pubkey ++ [OP_CHECKSIG]) else None
    end
  else Some script.

Definition script_Serialize (script : bytes) : bytes :=
  match Compress script with
  | Some compr => compr
  | None => WriteVarInt 32 (u32 (Z.of_nat (length script) + nSpecialScripts)) ++ script
  end.
(** [script] is the contents before; skipping beyond the end of the stream is an error. *)
Definition script_Unserialize (script : bytes) : reader bytes := λ s,
  '(nSize, s) ← ReadVarInt (2 ^ 32 - 1) s;
  if nSize <? nSpecialScripts then
    '(vch, s) ← read (GetSpecialSize nSize) s;
    script ← Decompress nSize vch script; Some (script, s)
  else
    let nSize := nSize - nSpecialScripts in
    if nSize >? MAX_SCRIPT_SIZE then
      if Z.of_nat (length s) <? nSize then None else Some (script ++ [OP_RETURN], drop (Z.to_nat nSize) s)
    else read (Z.to_nat nSize) s.

(** ** Outputs, coins and undo records *)
Definition txout_Serialize (o : CTxOut) : option bytes :=
  nVal ← CompressAmount (u64 (nValue o));
  Some (WriteVarInt 64 nVal ++ script_Serialize (scriptPubKey o)).
(** Into a new output, whose script is empty. *)
Definition txout_Unserialize : reader CTxOut := λ s,
  '(nVal, s) ← ReadVarInt (2 ^ 64 - 1) s;
  '(script, s) ← script_Unserialize [] s;
  Some (mkCTxOut (i64 (DecompressAmount nVal)) script, s).

Definition coin_code (c : Coin) : Z :=
  u32 (coin_nHeight c * 4 + (if fCoinBase c then 1 else 0) + (if fCoinStake c then 2 else 0)).
Definition Coin_Serialize (c : Coin) : option bytes :=
  if IsSpent c then None
  else o ← txout_Serialize (out c); Some (WriteVarInt 32 (coin_code c) ++ o).
Definition Coin_Unserialize : reader Coin := λ s,
  '(code, s) ← ReadVarInt (2 ^ 32 - 1) s;
  '(o, s) ← txout_Unserialize s;
  Some (mkCoin o (negb (Z.land code 1 =? 0)) (negb (Z.land (Z.shiftr code 1) 1 =? 0)) (Z.shiftr code 2), s).

(** The version byte of old undo files is there unless the height is 0. *)
Definition TxInUndo_Serialize (c : Coin) : option bytes :=
  o ← txout_Serialize (out c);
  Some (WriteVarInt 32 (coin_code c) ++ (if coin_nHeight c >? 0 then [0] else []) ++ o).
Definition TxInUndo_Unserialize : reader Coin := λ s,
  '(nCode, s) ← ReadVarInt (2 ^ 32 - 1) s;
  let nHeight := Z.shiftr nCode 2 in
  '(_, s) ← (if nHeight >? 0 then ReadVarInt (2 ^ 31 - 1) s else Some (0, s));
  '(o, s) ← txout_Unserialize s;
  Some (mkCoin o (negb (Z.land nCode 1 =? 0)) (negb (Z.land (Z.shiftr nCode 1) 1 =? 0)) nHeight, s).

Definition MIN_TRANSACTION_INPUT_WEIGHT : Z := 4 * Z.of_nat (length (enc CTxIn_codec (mkCTxIn COutPoint_null [] 0xffffffff []))).
Definition MAX_INPUTS_PER_BLOCK : Z := 8000000 / MIN_TRANSACTION_INPUT_WEIGHT.
Definition CTxUndo_Serialize (vprevout : CTxUndo) : option bytes :=
  l ← mapM TxInUndo_Serialize vprevout; Some (WriteCompactSize (Z.of_nat (length vprevout)) ++ concat l).
Fixpoint read_undos (n : nat) (s : bytes) : option (CTxUndo * bytes) :=
  match n with
  | O => Some ([], s)
  | S n => '(c, s) ← TxInUndo_Unserialize s; '(l, s) ← read_undos n s; Some (c :: l, s)
  end.
Definition CTxUndo_Unserialize : reader CTxUndo := λ s,
  '(count, s) ← ReadCompactSize s;
  if count >? MAX_INPUTS_PER_BLOCK then None else read_undos (Z.to_nat count) s.

(** The block's records, one per transaction but the coinbase. *)
Definition CBlockUndo_Serialize (vtxundo : list CTxUndo) : option bytes :=
  l ← mapM CTxUndo_Serialize vtxundo; Some (WriteCompactSize (Z.of_nat (length vtxundo)) ++ concat l).
Fixpoint read_tx_undos (n : nat) (s : bytes) : option (list CTxUndo * bytes) :=
  match n with
  | O => Some ([], s)
  | S n => '(u, s) ← CTxUndo_Unserialize s; '(l, s) ← read_tx_undos n s; Some (u :: l, s)
  end.
Definition CBlockUndo_Unserialize : reader (list CTxUndo) := λ s,
  '(count, s) ← ReadCompactSize s; read_tx_undos (Z.to_nat count) s.
End ScriptCompressor.

(** ** Proofs: amounts *)

Lemma strip_zeros_spec fuel n e :
  0 < n → 0 ≤ e → e + Z.of_nat fuel = 9 →
  let '(m, e') := strip_zeros fuel n e in
  n * 10 ^ e = m * 10 ^ e' ∧ e ≤ e' ≤ 9 ∧ 0 < m ≤ n ∧ (e' < 9 → m mod 10 ≠ 0).
Proof.
  revert n e. induction fuel as [|fuel IH]; intros n e Hn He Hf; cbn [strip_zeros].
  - replace e with 9 by lia. split; [done|]. split; [lia|]. split; [lia|]. lia.
  - destruct ((n mod 10 =? 0) && (e <? 9)) eqn:E.
    + specialize (IH (n / 10) (e + 1) ltac:(zlin) ltac:(lia) ltac:(lia)). destruct (strip_zeros fuel (n / 10) (e + 1)) as [m e'].
      destruct IH as (H1 & H2 & H3 & H4). rewrite Z.pow_add_r in H1 by lia. assert (n = 10 * (n / 10)) by zlin.
      split; [nia|]. split; [lia|]. split; [zlin|done].
    + split; [done|]. split; [lia|]. split; [lia|]. lia.
Qed.

Lemma add_zeros_spec e n : 0 ≤ n → n * 10 ^ Z.of_nat e < 2 ^ 64 → add_zeros e n = n * 10 ^ Z.of_nat e.
Proof.
  revert n. induction e as [|e IH]; intros n Hn Hb; [cbn; lia|]. cbn [add_zeros].
  rewrite Nat2Z.inj_succ, Z.pow_succ_r in * by lia. assert (0 < 10 ^ Z.of_nat e) by (apply Z.pow_pos_nonneg; lia).
  rewrite u64_small by (unfold is_u64; nia). rewrite IH by nia. nia.
Qed.

Lemma CompressAmount_spec n : 0 ≤ n < 2 ^ 60 → ∃ x, CompressAmount n = Some x ∧ is_u64 x ∧ DecompressAmount x = n.
Proof.
  intros Hn. unfold CompressAmount. destruct (Z.eqb_spec n 0) as [->|Hne]; [by exists 0|].
  pose proof (strip_zeros_spec 9 n 0 ltac:(lia) ltac:(lia) ltac:(lia)) as H.
  destruct (strip_zeros 9 n 0) as [m e]. destruct H as (Hv & He & Hm & Hd). rewrite Z.pow_0_r, Z.mul_1_r in Hv.
  assert (Hz : add_zeros (Z.to_nat e) m = n).
  { rewrite add_zeros_spec; rewrite ?Z2Nat.id by lia; lia. }
  destruct (Z.ltb_spec e 9) as [Hlt|Hge].
  - specialize (Hd Hlt). replace ((m mod 10 >=? 1) && (m mod 10 <=? 9)) with true by (assert (0 ≤ m mod 10 < 10) by zlin; lia).
    eexists. split; [reflexivity|]. set (q := m / 10). set (d := m mod 10). assert (Hmd : m = 10 * q + d ∧ 1 ≤ d ≤ 9) by (unfold q, d in *; zlin).
    rewrite u64_small by (unfold is_u64; lia). split; [unfold is_u64; lia|]. unfold DecompressAmount.
    replace (_ =? 0) with false by lia.
    replace (1 + (q * 9 + d - 1) * 10 + e - 1) with (e + (q * 9 + (d - 1)) * 10) by lia.
    rewrite Z.mod_add, (Z.mod_small e) by lia. rewrite Z.div_add, (Z.div_small e) by lia. rewrite (proj2 (Z.ltb_lt e 9)) by lia.
    replace (0 + (q * 9 + (d - 1))) with (d - 1 + q * 9) by lia.
    rewrite Z.mod_add, (Z.mod_small (d - 1)) by lia. rewrite Z.div_add, (Z.div_small (d - 1)) by lia.
    replace ((0 + q) * 10 + (d - 1 + 1)) with m by lia. by rewrite u64_small by (unfold is_u64; lia).
  - assert (e = 9) as -> by lia. eexists. split; [reflexivity|]. rewrite u64_small by (unfold is_u64; lia).
    split; [unfold is_u64; lia|]. unfold DecompressAmount. replace (_ =? 0) with false by lia.
    replace (1 + (m - 1) * 10 + 9 - 1) with (9 + (m - 1) * 10) by lia.
    rewrite Z.mod_add by lia. change (9 mod 10 <? 9) with false. cbv iota. rewrite Z.div_add by lia. change (9 / 10) with 0.
    replace (0 + (m - 1) + 1) with m by lia. rewrite u64_small by (unfold is_u64; lia). exact Hz.
Qed.

Lemma CompressAmount_total n : is_u64 n → CompressAmount n ≠ None.
Proof.
  intros Hn. unfold CompressAmount. destruct (Z.eqb_spec n 0); [done|].
  pose proof (strip_zeros_spec 9 n 0 ltac:(unfold is_u64 in Hn; lia) ltac:(lia) ltac:(lia)) as H.
  destruct (strip_zeros 9 n 0) as [m e]. destruct H as (_ & He & Hm & Hd). destruct (Z.ltb_spec e 9) as [Hlt|]; [|done].
  specialize (Hd Hlt). replace ((m mod 10 >=? 1) && (m mod 10 <=? 9)) with true by (assert (0 ≤ m mod 10 < 10) by zlin; lia). done.
Qed.

(** ** Proofs: scripts *)

Lemma split_last (r : bytes) n k : length r = (n + k)%nat → ∃ l t, r = l ++ t ∧ length l = n ∧ length t = k.
Proof. intros Hl. exists (take n r), (drop n r). rewrite take_drop, length_take, length_drop. split_and!; lia || done. Qed.
Lemma char_at_app (l t : bytes) i : char_at (l ++ t) (length l + i) = char_at t i.
Proof. unfold char_at. rewrite app_nth2 by lia. f_equal. lia. Qed.

(** The byte [k] of [pre ++ l ++ t], when [pre] has [p] bytes and [l] has [n]. *)
Lemma char_at_tail (pre l t : bytes) i : char_at (pre ++ l ++ t) (length pre + length l + i) = char_at t i.
Proof. rewrite app_assoc, <- length_app. apply char_at_app. Qed.

Lemma IsToKeyID_inv script h : IsToKeyID script = Some h →
  length h = 20%nat ∧ script = [OP_DUP; OP_HASH160; 20] ++ h ++ [OP_EQUALVERIFY; OP_CHECKSIG].
Proof.
  unfold IsToKeyID. destruct script as [|a [|b [|c r]]]; cbn [length]; try done.
  destruct (_ && _) eqn:E; [|done]. rewrite !andb_true_iff in E. destruct E as [[[[[El E0] E1] E2] E23] E24].
  intros [= <-]. cbn [drop] in *. rewrite drop_0. destruct (split_last r 20 2 ltac:(lia)) as (l & t & -> & Hl & Ht).
  rewrite take_app_length' by done. destruct t as [|x [|y [|]]]; try done.
  pose proof (char_at_tail [a; b; c] l [x; y] 0) as H0. pose proof (char_at_tail [a; b; c] l [x; y] 1) as H1.
  rewrite Hl in H0, H1. cbn in *. rewrite H0 in E23. rewrite H1 in E24. split; [done|]. repeat f_equal; lia.
Qed.
Lemma IsToScriptID_inv script h : IsToScriptID script = Some h →
  length h = 20%nat ∧ script = [OP_HASH160; 20] ++ h ++ [OP_EQUAL].
Proof.
  unfold IsToScriptID. destruct script as [|a [|b r]]; cbn [length]; try done.
  destruct (_ && _) eqn:E; [|done]. rewrite !andb_true_iff in E. destruct E as [[[El E0] E1] E22].
  intros [= <-]. cbn [drop] in *. rewrite drop_0. destruct (split_last r 20 1 ltac:(lia)) as (l & t & -> & Hl & Ht).
  rewrite take_app_length' by done. destruct t as [|x [|]]; try done.
  pose proof (char_at_tail [a; b] l [x] 0) as H0. rewrite Hl in H0. cbn in *. rewrite H0 in E22.
  split; [done|]. repeat f_equal; lia.
Qed.
Lemma IsToPubKey_inv IsFullyValid script pk : IsToPubKey IsFullyValid script = Some pk →
  (∃ p x, (p = 2 ∨ p = 3) ∧ length x = 32%nat ∧ pk = p :: x ∧ script = 33 :: pk ++ [OP_CHECKSIG]) ∨
  (∃ x y, length x = 32%nat ∧ length y = 32%nat ∧ pk = 4 :: x ++ y ∧ IsFullyValid pk = true ∧ script = 65 :: pk ++ [OP_CHECKSIG]).
Proof.
  unfold IsToPubKey. destruct script as [|a [|b r]]; cbn [length]; try done.
  destruct (_ && _) eqn:E; [|destruct (_ && (char_at _ 1 =? 4)) eqn:E2; [|done]].
  - rewrite !andb_true_iff, orb_true_iff in E. destruct E as [[[El E0] E34] E1]. intros [= <-]. left.
    destruct (split_last r 32 1 ltac:(lia)) as (l & t & -> & Hl & Ht). destruct t as [|z [|]]; try done.
    pose proof (char_at_tail [a; b] l [z] 0) as H0. rewrite Hl in H0. cbn in *. rewrite H0 in E34. exists b, l.
    rewrite take_app_length' by done. assert (Hb : b = 2 ∨ b = 3) by lia.
    assert (Hset : pubkey_Set (b :: l) = b :: l) by (unfold pubkey_Set; cbn [length]; rewrite Hl; by destruct Hb as [-> | ->]).
    rewrite Hset.
    split_and!; [done|done|done|]. cbn [app]. repeat f_equal; lia.
  - rewrite !andb_true_iff in E2. destruct E2 as [[[El E0] E66] E1]. intros H. right.
    destruct (split_last r 64 1 ltac:(lia)) as (l & t & -> & Hl & Ht). destruct t as [|z [|]]; try done.
    pose proof (char_at_tail [a; b] l [z] 0) as H0. rewrite Hl in H0. cbn in *. rewrite H0 in E66.
    rewrite take_app_length' in H by done. assert (b = 4) as -> by lia.
    assert (Hset : pubkey_Set (4 :: l) = 4 :: l) by (unfold pubkey_Set; cbn [length]; by rewrite Hl). rewrite Hset in H.
    destruct (IsFullyValid (4 :: l)) eqn:Ev; [|done]. injection H as <-.
    exists (take 32 l), (drop 32 l). rewrite take_drop, length_take, length_drop.
    split_and!; [lia|lia|done|done|]. cbn [app]. repeat f_equal; lia.
Qed.

(** A first byte below 128 is a whole number. *)
Lemma ReadVarInt_small b s : b = 0 ∨ b = 1 ∨ b = 2 ∨ b = 3 ∨ b = 4 ∨ b = 5 → ReadVarInt (2 ^ 32 - 1) (b :: s) = Some (b, s).
Proof. by intros [->|[->|[->|[->|[->| ->]]]]]. Qed.

Section Proofs.
Context (IsFullyValid : bytes → bool) (pubkey_Decompress : bytes → option bytes).
(** What is relied on: the compressed form of a valid key decompresses to it. *)
Context (decompress_valid : ∀ x y, length x = 32%nat → length y = 32%nat → IsFullyValid (4 :: x ++ y) = true →
  pubkey_Decompress ((2 + Z.land (List.last y 0) 1) :: x) = Some (4 :: x ++ y)).
Abbreviation Compress := (Compress IsFullyValid).
Abbreviation script_Serialize := (script_Serialize IsFullyValid).
Abbreviation script_Unserialize := (script_Unserialize pubkey_Decompress).
Abbreviation txout_Serialize := (txout_Serialize IsFullyValid).
Abbreviation txout_Unserialize := (txout_Unserialize pubkey_Decompress).

Lemma land1 x : Z.land x 1 = x mod 2.
Proof. change 1 with (Z.ones 1). by rewrite Z.land_ones by lia. Qed.
Lemma parity_code v : Z.lor 4 (Z.land v 1) - 2 = 2 + Z.land v 1 ∧ (Z.lor 4 (Z.land v 1) = 4 ∨ Z.lor 4 (Z.land v 1) = 5).
Proof.
  assert (H : Z.land v 1 = 0 ∨ Z.land v 1 = 1).
  { rewrite land1. pose proof (Z.mod_pos_bound v 2 ltac:(lia)). lia. }
  destruct H as [-> | ->]; cbn; auto.
Qed.
Lemma char_at_last (x y : bytes) c : length x = 32%nat → length y = 32%nat → char_at (c :: x ++ y) 64 = List.last y 0.
Proof.
  intros Hx Hy. assert (Hn : y ≠ []) by (by destruct y). rewrite (app_removelast_last 0 Hn) at 1.
  assert (Hr : length (removelast y) = 31%nat).
  { pose proof (f_equal length (app_removelast_last 0 Hn)) as Hl. rewrite length_app in Hl. cbn in Hl. lia. }
  pose proof (char_at_tail (c :: x) (removelast y) [List.last y 0] 0) as H. cbn [length app] in H.
  rewrite Hx, Hr in H. exact H.
Qed.

Lemma Compress_Decompress script compr script0 :
  Compress script = Some compr →
  ∃ n vch, compr = n :: vch ∧ (n = 0 ∨ n = 1 ∨ n = 2 ∨ n = 3 ∨ n = 4 ∨ n = 5) ∧ length vch = GetSpecialSize n ∧
    Decompress pubkey_Decompress n vch script0 = Some script.
Proof.
  unfold Compressor.Compress. destruct (IsToKeyID script) as [h|] eqn:E1.
  { apply IsToKeyID_inv in E1 as [Hl ->]. intros [= <-]. exists 0, h. split_and!; [done|auto|done|].
    unfold Decompress. cbn [Z.eqb]. by rewrite take_ge by lia. }
  destruct (IsToScriptID script) as [h|] eqn:E2.
  { apply IsToScriptID_inv in E2 as [Hl ->]. intros [= <-]. exists 1, h. split_and!; [done|auto|done|].
    unfold Decompress. cbn [Z.eqb]. by rewrite take_ge by lia. }
  destruct (IsToPubKey IsFullyValid script) as [pk|] eqn:E3; [|done].
  apply IsToPubKey_inv in E3 as [(p & x & Hp & Hx & -> & ->)|(x & y & Hx & Hy & -> & Hv & ->)].
  - change (drop 1 (p :: x)) with x. rewrite take_ge by lia. change (char_at (p :: x) 0) with p.
    replace ((p =? 2) || (p =? 3)) with true by lia. intros [= <-]. exists p, x.
    split_and!; [done|tauto|by destruct Hp as [-> | ->]|]. unfold Decompress.
    destruct Hp as [-> | ->]; cbn -[take]; by rewrite take_ge by lia.
  - change (drop 1 (4 :: x ++ y)) with (x ++ y). rewrite take_app_length' by done.
    change (char_at (4 :: x ++ y) 0) with 4. cbn [Z.eqb orb]. rewrite char_at_last by done.
    destruct (parity_code (List.last y 0)) as [Hsub Hcase]. intros [= <-]. eexists _, x.
    split_and!; [done|tauto|by destruct Hcase as [-> | ->]|]. unfold Decompress.
    assert (Hset : pubkey_Set (2 + Z.land (List.last y 0) 1 :: x) = 2 + Z.land (List.last y 0) 1 :: x).
    { rewrite <- Hsub. unfold pubkey_Set. cbn [length]. rewrite Hx. by destruct Hcase as [-> | ->]. }
    replace (_ =? 0) with false by lia. replace (_ =? 1) with false by lia.
    replace (_ || _) with false by lia. replace (_ || _) with true by lia.
    rewrite take_ge by lia. rewrite Hsub, Hset, decompress_valid by done. cbn [length]. rewrite length_app, Hx, Hy. done.
Qed.

Lemma script_roundtrip script script0 r :
  Z.of_nat (length script) ≤ MAX_SCRIPT_SIZE →
  script_Unserialize script0 (script_Serialize script ++ r) = Some (script, r).
Proof.
  intros Hl. unfold Compressor.script_Serialize, Compressor.script_Unserialize. destruct (Compress script) as [compr|] eqn:E.
  - destruct (Compress_Decompress script compr script0 E) as (n & vch & -> & Hn & Hv & Hd). cbn [app].
    rewrite ReadVarInt_small by done. cbn [mbind option_bind]. replace (n <? nSpecialScripts) with true by (unfold nSpecialScripts; lia).
    rewrite (read_app' (GetSpecialSize n)) by done. cbn [mbind option_bind]. by rewrite Hd.
  - unfold MAX_SCRIPT_SIZE, nSpecialScripts in *. rewrite u32_small by (unfold is_u32; lia).
    rewrite <- app_assoc.  rewrite (ReadVarInt_app 32) by (cbn; lia). cbn [mbind option_bind]. replace (_ <? 6) with false by lia.
    replace (_ >? _) with false by lia. apply read_app'. lia.
Qed.

Lemma Compress_short script compr : Compress script = Some compr → Z.of_nat (length script) ≤ MAX_SCRIPT_SIZE.
Proof.
  unfold Compressor.Compress. destruct (IsToKeyID script) as [h|] eqn:E1.
  { apply IsToKeyID_inv in E1 as [Hl ->]. rewrite !length_app, Hl. intros _. cbn. unfold MAX_SCRIPT_SIZE. lia. }
  destruct (IsToScriptID script) as [h|] eqn:E2.
  { apply IsToScriptID_inv in E2 as [Hl ->]. rewrite !length_app, Hl. intros _. cbn. unfold MAX_SCRIPT_SIZE. lia. }
  destruct (IsToPubKey IsFullyValid script) as [pk|] eqn:E3; [|done]. intros _. unfold MAX_SCRIPT_SIZE.
  apply IsToPubKey_inv in E3 as [(p & x & _ & Hx & -> & ->)|(x & y & Hx & Hy & -> & _ & ->)];
    cbn [length app]; rewrite ?length_app; cbn [length]; rewrite ?length_app; lia.
Qed.
Lemma script_too_long script script0 r :
  MAX_SCRIPT_SIZE < Z.of_nat (length script) < 2 ^ 32 - 6 →
  script_Unserialize script0 (script_Serialize script ++ r) = Some (script0 ++ [OP_RETURN], r).
Proof.
  intros Hl. unfold Compressor.script_Serialize, Compressor.script_Unserialize. destruct (Compress script) as [compr|] eqn:E.
  { apply Compress_short in E. lia. }
  unfold MAX_SCRIPT_SIZE, nSpecialScripts in *. rewrite u32_small by (unfold is_u32; lia).
  rewrite <- app_assoc. rewrite (ReadVarInt_app 32) by (cbn; lia). cbn [mbind option_bind]. replace (_ <? 6) with false by lia.
  replace (_ >? _) with true by lia. rewrite length_app. replace (_ <? _) with false by lia.
  replace (Z.to_nat _) with (length script) by lia. by rewrite drop_app_length.
Qed.

Lemma txout_roundtrip o r :
  0 ≤ nValue o < 2 ^ 60 → Z.of_nat (length (scriptPubKey o)) ≤ MAX_SCRIPT_SIZE →
  ∃ b, txout_Serialize o = Some b ∧ txout_Unserialize (b ++ r) = Some (o, r).
Proof.
  intros Hv Hs. unfold Compressor.txout_Serialize. rewrite u64_small by (unfold is_u64; lia).
  destruct (CompressAmount_spec (nValue o) Hv) as (x & -> & Hx & Hd). cbn [mbind option_bind]. eexists. split; [reflexivity|].
  unfold Compressor.txout_Unserialize. rewrite <- app_assoc. rewrite (ReadVarInt_app 64) by (unfold is_u64 in Hx; cbn; lia).
  cbn [mbind option_bind]. rewrite script_roundtrip by done. cbn [mbind option_bind]. rewrite Hd, i64_small by lia. by destruct o.
Qed.

Definition coin_ok (c : Coin) : Prop :=
  0 ≤ nValue (out c) < 2 ^ 60 ∧ Z.of_nat (length (scriptPubKey (out c))) ≤ MAX_SCRIPT_SIZE ∧ 0 ≤ coin_nHeight c < 2 ^ 29.

Lemma coin_code_spec c : 0 ≤ coin_nHeight c < 2 ^ 29 →
  is_u32 (coin_code c) ∧ negb (Z.land (coin_code c) 1 =? 0) = fCoinBase c ∧
  negb (Z.land (Z.shiftr (coin_code c) 1) 1 =? 0) = fCoinStake c ∧ Z.shiftr (coin_code c) 2 = coin_nHeight c.
Proof.
  intros Hh. unfold coin_code. set (h := coin_nHeight c) in *. rewrite !Z.shiftr_div_pow2 by lia. rewrite !land1.
  rewrite u32_small by (unfold is_u32; destruct (fCoinBase c), (fCoinStake c); lia).
  change (2 ^ 1) with 2. change (2 ^ 2) with 4. split; [unfold is_u32; destruct (fCoinBase c), (fCoinStake c); lia|].
  destruct (fCoinBase c), (fCoinStake c); split_and!; zlin.
Qed.

Lemma Coin_roundtrip c r : coin_ok c →
  ∃ b, Coin_Serialize IsFullyValid c = Some b ∧ Coin_Unserialize pubkey_Decompress (b ++ r) = Some (c, r).
Proof.
  intros (Hv & Hs & Hh). unfold Coin_Serialize. replace (IsSpent c) with false by (unfold IsSpent, CTxOut_IsNull; lia).
  destruct (txout_roundtrip (out c) r Hv Hs) as (b & -> & Hb). cbn [mbind option_bind]. eexists. split; [reflexivity|].
  destruct (coin_code_spec c Hh) as (Hc & Ecb & Ecs & Eh). unfold Coin_Unserialize. rewrite <- app_assoc.
  rewrite (ReadVarInt_app 32) by (unfold is_u32 in Hc; cbn; lia). cbn [mbind option_bind]. rewrite Hb. cbn [mbind option_bind].
  rewrite Ecb, Ecs, Eh. by destruct c.
Qed.
Lemma TxInUndo_roundtrip c r : coin_ok c →
  ∃ b, TxInUndo_Serialize IsFullyValid c = Some b ∧ TxInUndo_Unserialize pubkey_Decompress (b ++ r) = Some (c, r).
Proof.
  intros (Hv & Hs & Hh). unfold TxInUndo_Serialize.
  destruct (txout_roundtrip (out c) r Hv Hs) as (b & -> & Hb). cbn [mbind option_bind]. eexists. split; [reflexivity|].
  destruct (coin_code_spec c Hh) as (Hc & Ecb & Ecs & Eh). unfold TxInUndo_Unserialize. rewrite <- !app_assoc.
  rewrite (ReadVarInt_app 32) by (unfold is_u32 in Hc; cbn; lia). cbn [mbind option_bind]. rewrite Eh.
  destruct (coin_nHeight c >? 0); [change (ReadVarInt (2 ^ 31 - 1) ([0] ++ b ++ r)) with (Some (0, b ++ r))|];
    cbn [mbind option_bind app]; rewrite Hb; cbn [mbind option_bind]; rewrite Ecb, Ecs; by destruct c.
Qed.

Lemma read_undos_roundtrip l r : Forall coin_ok l →
  ∃ bs, mapM (TxInUndo_Serialize IsFullyValid) l = Some bs ∧ read_undos pubkey_Decompress (length l) (concat bs ++ r) = Some (l, r).
Proof.
  induction 1 as [|c l Hc Hl (bs & E & IH)]; [by exists []|].
  destruct (TxInUndo_roundtrip c (concat bs ++ r) Hc) as (b & Eb & Hb). exists (b :: bs). cbn [mapM]. rewrite Eb. cbn [mbind option_bind].
  rewrite E. cbn [mbind option_bind mret option_ret]. split; [done|]. cbn [length read_undos concat]. rewrite <- app_assoc, Hb. cbn [mbind option_bind].
  by rewrite IH.
Qed.
Lemma CTxUndo_roundtrip l r : Forall coin_ok l → Z.of_nat (length l) ≤ MAX_INPUTS_PER_BLOCK →
  ∃ b, CTxUndo_Serialize IsFullyValid l = Some b ∧ CTxUndo_Unserialize pubkey_Decompress (b ++ r) = Some (l, r).
Proof.
  intros Hl Hn. change MAX_INPUTS_PER_BLOCK with 48780 in *. destruct (read_undos_roundtrip l r Hl) as (bs & E & H).
  unfold CTxUndo_Serialize. rewrite E. cbn [mbind option_bind]. eexists. split; [reflexivity|]. unfold CTxUndo_Unserialize.
  rewrite <- app_assoc, ReadCompactSize_app by (unfold MAX_SIZE; lia). cbn [mbind option_bind].
  change MAX_INPUTS_PER_BLOCK with 48780. replace (_ >? _) with false by lia. by rewrite Nat2Z.id.
Qed.
Definition txundo_ok (l : CTxUndo) : Prop := Forall coin_ok l ∧ Z.of_nat (length l) ≤ MAX_INPUTS_PER_BLOCK.
Lemma CBlockUndo_roundtrip u r : Forall txundo_ok u → Z.of_nat (length u) ≤ MAX_SIZE →
  ∃ b, CBlockUndo_Serialize IsFullyValid u = Some b ∧ CBlockUndo_Unserialize pubkey_Decompress (b ++ r) = Some (u, r).
Proof.
  intros Hu Hn. unfold CBlockUndo_Serialize.
  assert (Hr : ∃ bs, mapM (CTxUndo_Serialize IsFullyValid) u = Some bs ∧ read_tx_undos pubkey_Decompress (length u) (concat bs ++ r) = Some (u, r)).
  { clear Hn. induction Hu as [|l u [Hl Hc] Hu (bs & E & IH)]; [by exists []|].
    destruct (CTxUndo_roundtrip l (concat bs ++ r) Hl Hc) as (b & Eb & Hb). exists (b :: bs). cbn [mapM]. rewrite Eb. cbn [mbind option_bind].
    rewrite E. cbn [mbind option_bind mret option_ret]. split; [done|]. cbn [length read_tx_undos concat].
    rewrite <- app_assoc, Hb. cbn [mbind option_bind]. by rewrite IH. }
  destruct Hr as (bs & -> & H). cbn [mbind option_bind]. eexists. split; [reflexivity|]. unfold CBlockUndo_Unserialize.
  rewrite <- app_assoc, ReadCompactSize_app by lia. cbn [mbind option_bind]. by rewrite Nat2Z.id.
Qed.
End Proofs.

(** ** Properties *)

(** C37. What the coin database and the undo files store is read back.  Given
    that libsecp256k1 decompresses a valid key to itself: every amount below
    2^60, which no sum of coins exceeds, is recovered from its compressed form, and compressing any
    amount never fails its assertion; every script up to the maximal size is
    recovered, whichever of the six special forms applies, and a longer one in the stream is replaced by an
    unspendable one; unspent coins, undo records of inputs, and the undo data of
    whole blocks are recovered, with the flags and the height; a spent coin is not written. *)
Theorem compressor_roundtrip (IsFullyValid : bytes → bool) (pubkey_Decompress : bytes → option bytes)
    (decompress_valid : ∀ x y, length x = 32%nat → length y = 32%nat → IsFullyValid (4 :: x ++ y) = true →
       pubkey_Decompress ((2 + Z.land (List.last y 0) 1) :: x) = Some (4 :: x ++ y)) :
  (∀ n, 0 ≤ n < 2 ^ 60 → ∃ x, CompressAmount n = Some x ∧ DecompressAmount x = n) ∧
  (∀ n, is_u64 n → CompressAmount n ≠ None) ∧
  (∀ script script0 r, Z.of_nat (length script) ≤ MAX_SCRIPT_SIZE →
     script_Unserialize pubkey_Decompress script0 (script_Serialize IsFullyValid script ++ r) = Some (script, r)) ∧
  (∀ script script0 r, MAX_SCRIPT_SIZE < Z.of_nat (length script) < 2 ^ 32 - 6 →
     script_Unserialize pubkey_Decompress script0 (script_Serialize IsFullyValid script ++ r) = Some (script0 ++ [OP_RETURN], r)) ∧
  (∀ c r, coin_ok c → ∃ b, Coin_Serialize IsFullyValid c = Some b ∧ Coin_Unserialize pubkey_Decompress (b ++ r) = Some (c, r)) ∧
  (∀ c, IsSpent c = true → Coin_Serialize IsFullyValid c = None) ∧
  (∀ u r, Forall txundo_ok u → Z.of_nat (length u) ≤ MAX_SIZE →
     ∃ b, CBlockUndo_Serialize IsFullyValid u = Some b ∧ CBlockUndo_Unserialize pubkey_Decompress (b ++ r) = Some (u, r)).
Proof.
  split_and!.
  - intros n Hn. destruct (CompressAmount_spec n Hn) as (x & H1 & _ & H2). by exists x.
  - intros n Hn. by apply CompressAmount_total.
  - intros script script0 r. by apply script_roundtrip.
  - intros script script0 r. by apply script_too_long.
  - intros c r. by apply Coin_roundtrip.
  - intros c Hc. unfold Coin_Serialize. by rewrite Hc.
  - intros u r. by apply CBlockUndo_roundtrip.
Qed.

(** A stand-in for the curve: valid points have a zero ordinate but for its last bit. *)
Definition valid_example (pk : bytes) : bool :=
  match pk with
  | 4 :: l => bool_decide (drop 32 l = replicate 31 0 ++ [Z.land (List.last l 0) 1])
  | _ => false
  end.
Definition decompress_example (b : bytes) : option bytes :=
  match b with p :: x => Some (4 :: x ++ replicate 31 0 ++ [p - 2]) | [] => None end.
Lemma compressor_roundtrip_witness :
  let script := 65 :: 4 :: replicate 32 9 ++ replicate 31 0 ++ [1] ++ [OP_CHECKSIG] in
  script_Serialize valid_example script = 5 :: replicate 32 9 ∧
  CompressAmount 5000000000 = Some 50 ∧
  script_Unserialize decompress_example [] (script_Serialize valid_example script ++ [3]) = Some (script, [3]).
Proof.
  intros script. split; [vm_compute; reflexivity|]. split; [reflexivity|].
  apply (compressor_roundtrip valid_example decompress_example); [|vm_compute; discriminate].
  intros x y Hx Hy Hv%bool_decide_eq_true. rewrite drop_app_length' in Hv by done. cbn [decompress_example]. do 3 f_equal.
  rewrite Hv at 2. do 2 f_equal. rewrite Hv at 1. rewrite last_last.
  assert (Hl : List.last (x ++ y) 0 = List.last y 0).
  { destruct (exists_last (l := y)) as (l & a & ->); [by destruct y|]. by rewrite app_assoc, !last_last. }
  rewrite Hl. assert (H : Z.land (Z.land (List.last y 0) 1) 1 = Z.land (List.last y 0) 1) by (by rewrite <- Z.land_assoc).
  rewrite H. lia.
Defined.
