(* ===== verification/Interpreter.v ===== *)
(** * The script machine (src/src/script/interpreter.cpp)

    [EvalScript] runs a script on a stack.  The stacks are lists with their top
    first, so [stacktop(-i)] is the element at index [i - 1]; [vfExec] is a list
    with its back first.  The position in the script is the list of the bytes
    that follow.  Checking signatures and lock times is the interface
    [BaseSignatureChecker]. *)

From stdpp Require Import base numbers list option.
From Stdlib Require Import ZArith Lia ZifyNat ZifyBool.
From S2P Require Import Prelude StrEncodings Endian ArithUint256 Hash Sha1 Ripemd160 Sha256 Script Transaction.

(** ** Results *)
Inductive ScriptError :=
  | SCRIPT_ERR_OK | SCRIPT_ERR_UNKNOWN_ERROR | SCRIPT_ERR_EVAL_FALSE | SCRIPT_ERR_OP_RETURN
  | SCRIPT_ERR_SCRIPT_SIZE | SCRIPT_ERR_PUSH_SIZE | SCRIPT_ERR_OP_COUNT | SCRIPT_ERR_STACK_SIZE
  | SCRIPT_ERR_SIG_COUNT | SCRIPT_ERR_PUBKEY_COUNT
  | SCRIPT_ERR_VERIFY | SCRIPT_ERR_EQUALVERIFY | SCRIPT_ERR_CHECKMULTISIGVERIFY | SCRIPT_ERR_CHECKSIGVERIFY
  | SCRIPT_ERR_NUMEQUALVERIFY
  | SCRIPT_ERR_BAD_OPCODE | SCRIPT_ERR_DISABLED_OPCODE | SCRIPT_ERR_INVALID_STACK_OPERATION
  | SCRIPT_ERR_INVALID_ALTSTACK_OPERATION | SCRIPT_ERR_UNBALANCED_CONDITIONAL
  | SCRIPT_ERR_NEGATIVE_LOCKTIME | SCRIPT_ERR_UNSATISFIED_LOCKTIME
  | SCRIPT_ERR_SIG_HASHTYPE | SCRIPT_ERR_SIG_DER | SCRIPT_ERR_MINIMALDATA | SCRIPT_ERR_SIG_PUSHONLY
  | SCRIPT_ERR_SIG_HIGH_S | SCRIPT_ERR_SIG_NULLDUMMY | SCRIPT_ERR_PUBKEYTYPE | SCRIPT_ERR_CLEANSTACK
  | SCRIPT_ERR_MINIMALIF | SCRIPT_ERR_SIG_NULLFAIL
  | SCRIPT_ERR_DISCOURAGE_UPGRADABLE_NOPS | SCRIPT_ERR_DISCOURAGE_UPGRADABLE_WITNESS_PROGRAM
  | SCRIPT_ERR_WITNESS_PROGRAM_WRONG_LENGTH | SCRIPT_ERR_WITNESS_PROGRAM_WITNESS_EMPTY
  | SCRIPT_ERR_WITNESS_PROGRAM_MISMATCH | SCRIPT_ERR_WITNESS_MALLEATED | SCRIPT_ERR_WITNESS_MALLEATED_P2SH
  | SCRIPT_ERR_WITNESS_UNEXPECTED | SCRIPT_ERR_WITNESS_PUBKEYTYPE.

(** Leaving the loop early: with an error, with [return true] on the stack as
    it is, or by a failed assertion or undefined behaviour. *)
Inductive stop := Err (e : ScriptError) | Accept (stack : list bytes) | Crash.
Abbreviation run A := (stop + A)%type.
#[global] Instance run_bind : MBind (sum stop) := λ A B f m, match m with inl e => inl e | inr x => f x end.
Definition fails {A} (e : ScriptError) : run A := inl (Err e).
(** An exception is caught at the end of the loop. *)
Definition throws {A} : run A := fails SCRIPT_ERR_UNKNOWN_ERROR.
Definition or_crash {A} (o : option A) : run A := match o with Some x => inr x | None => inl Crash end.
Definition require (b : bool) (e : ScriptError) : run unit := if b then inr () else fails e.

(** ** Flags *)
Definition SCRIPT_VERIFY_P2SH : Z := 1.
Definition SCRIPT_VERIFY_STRICTENC : Z := 2.
Definition SCRIPT_VERIFY_DERSIG : Z := 4.
Definition SCRIPT_VERIFY_LOW_S : Z := 8.
Definition SCRIPT_VERIFY_NULLDUMMY : Z := 16.
Definition SCRIPT_VERIFY_SIGPUSHONLY : Z := 32.
Definition SCRIPT_VERIFY_MINIMALDATA : Z := 64.
Definition SCRIPT_VERIFY_DISCOURAGE_UPGRADABLE_NOPS : Z := 128.
Definition SCRIPT_VERIFY_CLEANSTACK : Z := 256.
Definition SCRIPT_VERIFY_CHECKLOCKTIMEVERIFY : Z := 512.
Definition SCRIPT_VERIFY_CHECKSEQUENCEVERIFY : Z := 1024.
Definition SCRIPT_VERIFY_WITNESS : Z := 2048.
Definition SCRIPT_VERIFY_DISCOURAGE_UPGRADABLE_WITNESS_PROGRAM : Z := 4096.
Definition SCRIPT_VERIFY_MINIMALIF : Z := 8192.
Definition SCRIPT_VERIFY_NULLFAIL : Z := 16384.
Definition SCRIPT_VERIFY_WITNESS_PUBKEYTYPE : Z := 32768.
Definition has_flag (flags f : Z) : bool := negb (Z.land flags f =? 0).

Definition SIGHASH_ALL : Z := 1.
Definition SIGHASH_NONE : Z := 2.
Definition SIGHASH_SINGLE : Z := 3.
Definition SIGHASH_ANYONECANPAY : Z := 0x80.
Inductive SigVersion := SIGVERSION_BASE | SIGVERSION_WITNESS_V0.
#[global] Instance SigVersion_eq_dec : EqDecision SigVersion.
Proof. solve_decision. Defined.
Definition is_base (v : SigVersion) : bool := bool_decide (v = SIGVERSION_BASE).

(** ** Encodings *)
Fixpoint CastToBool (vch : bytes) : bool :=
  match vch with
  | [] => false
  | b :: r => if negb (b =? 0) then negb ((length r =? 0)%nat && (b =? 0x80)) else CastToBool r
  end.

Definition IsCompressedOrUncompressedPubKey (vchPubKey : bytes) : bool :=
  if (length vchPubKey <? 33)%nat then false
  else if char_at vchPubKey 0 =? 0x04 then (length vchPubKey =? 65)%nat
  else if (char_at vchPubKey 0 =? 0x02) || (char_at vchPubKey 0 =? 0x03) then (length vchPubKey =? 33)%nat
  else false.
Definition IsCompressedPubKey (vchPubKey : bytes) : bool :=
  if negb (length vchPubKey =? 33)%nat then false
  else negb (negb (char_at vchPubKey 0 =? 0x02) && negb (char_at vchPubKey 0 =? 0x03)).

Definition IsValidSignatureEncoding (sig : bytes) (haveHashType : bool) : bool :=
  let size := Z.of_nat (length sig) in
  if size <? 9 then false
  else if size >? 73 then false
  else if negb (char_at sig 0 =? 0x30) then false
  else if negb (char_at sig 1 =? size - (if haveHashType then 3 else 2)) then false
  else
    let lenR := char_at sig 3 in
    if 5 + lenR >=? size then false
    else
      let lenS := char_at sig (5 + Z.to_nat lenR) in
      if negb (lenR + lenS + (if haveHashType then 7 else 6) =? size) then false
      else if negb (char_at sig 2 =? 0x02) then false
      else if lenR =? 0 then false
      else if negb (Z.land (char_at sig 4) 0x80 =? 0) then false
      else if (lenR >? 1) && (char_at sig 4 =? 0x00) && (Z.land (char_at sig 5) 0x80 =? 0) then false
      else if negb (char_at sig (Z.to_nat lenR + 4) =? 0x02) then false
      else if lenS =? 0 then false
      else if negb (Z.land (char_at sig (Z.to_nat lenR + 6)) 0x80 =? 0) then false
      else negb ((lenS >? 1) && (char_at sig (Z.to_nat lenR + 6) =? 0x00)
                 && (Z.land (char_at sig (Z.to_nat lenR + 7)) 0x80 =? 0)).

Definition IsDefinedHashtypeSignature (vchSig : bytes) : bool :=
  if (length vchSig =? 0)%nat then false
  else
    let nHashType := u8 (Z.land (List.last vchSig 0) (Z.lnot SIGHASH_ANYONECANPAY)) in
    negb ((nHashType <? SIGHASH_ALL) || (nHashType >? SIGHASH_SINGLE)).

Definition CheckPubKeyEncoding (vchPubKey : bytes) (flags : Z) (sigversion : SigVersion) : run unit :=
  _ ← require (negb (has_flag flags SCRIPT_VERIFY_STRICTENC && negb (IsCompressedOrUncompressedPubKey vchPubKey))) SCRIPT_ERR_PUBKEYTYPE;
  require (negb (has_flag flags SCRIPT_VERIFY_WITNESS_PUBKEYTYPE && negb (is_base sigversion) && negb (IsCompressedPubKey vchPubKey)))
    SCRIPT_ERR_WITNESS_PUBKEYTYPE.

Definition CheckMinimalPush (data : bytes) (opcode : Z) : bool :=
  let n := Z.of_nat (length data) in
  if n =? 0 then opcode =? OP_0
  else if (n =? 1) && (char_at data 0 >=? 1) && (char_at data 0 <=? 16) then opcode =? OP_1 + (char_at data 0 - 1)
  else if (n =? 1) && (char_at data 0 =? 0x81) then opcode =? OP_1NEGATE
  else if n <=? 75 then opcode =? n
  else if n <=? 255 then opcode =? OP_PUSHDATA1
  else if n <=? 65535 then opcode =? OP_PUSHDATA2
  else true.

(** ** The interface to the transaction

    [None] is undefined behaviour. *)
Class BaseSignatureChecker := {
  CheckSig : bytes → bytes → bytes → SigVersion → option bool;
  CheckLockTime : Z → option bool;
  CheckSequence : Z → option bool }.

Section Machine.
Context `{BaseSignatureChecker}.
(** [CPubKey::CheckLowS], which asks libsecp256k1. *)
Context (CheckLowS : bytes → bool).

Definition IsLowDERSignature (vchSig : bytes) (haveHashType : bool) : run unit :=
  _ ← require (IsValidSignatureEncoding vchSig haveHashType) SCRIPT_ERR_SIG_DER;
  let vchSigCopy := take (length vchSig - (if haveHashType then 1 else 0)) vchSig in
  require (CheckLowS vchSigCopy) SCRIPT_ERR_SIG_HIGH_S.
Definition CheckSignatureEncoding (vchSig : bytes) (flags : Z) : run unit :=
  if (length vchSig =? 0)%nat then inr ()
  else
    _ ← require (negb (has_flag flags (Z.lor SCRIPT_VERIFY_DERSIG (Z.lor SCRIPT_VERIFY_LOW_S SCRIPT_VERIFY_STRICTENC))
                       && negb (IsValidSignatureEncoding vchSig true))) SCRIPT_ERR_SIG_DER;
    _ ← (if has_flag flags SCRIPT_VERIFY_LOW_S then IsLowDERSignature vchSig true else inr ());
    require (negb (has_flag flags SCRIPT_VERIFY_STRICTENC && negb (IsDefinedHashtypeSignature vchSig))) SCRIPT_ERR_SIG_HASHTYPE.

(** ** The machine *)
Record machine := mkMachine {
  stack : list bytes; altstack : list bytes; vfExec : list bool; nOpCount : Z; pbegincodehash : bytes }.
Definition set_stack (m : machine) (st : list bytes) : machine := mkMachine st (altstack m) (vfExec m) (nOpCount m) (pbegincodehash m).
Definition set_vfExec (m : machine) (v : list bool) : machine := mkMachine (stack m) (altstack m) v (nOpCount m) (pbegincodehash m).
Definition set_ops (m : machine) (n : Z) : machine := mkMachine (stack m) (altstack m) (vfExec m) n (pbegincodehash m).

Definition vchFalse : bytes := [].
Definition vchTrue : bytes := [1].
Definition of_bool (b : bool) : bytes := if b then vchTrue else vchFalse.
Definition bad_stack {A} : run A := fails SCRIPT_ERR_INVALID_STACK_OPERATION.

Section Flags.
Context (flags : Z) (sigversion : SigVersion).
Definition fRequireMinimal : bool := has_flag flags SCRIPT_VERIFY_MINIMALDATA.
(** The constructor from an operand. *)
Definition num (vch : bytes) : run Z :=
  match CScriptNum vch fRequireMinimal 4 with Some n => inr n | None => throws end.
Definition num5 (vch : bytes) : run Z :=
  match CScriptNum vch fRequireMinimal 5 with Some n => inr n | None => throws end.
(** Arithmetic on [int64_t] with the assertions of [CScriptNum]. *)
Definition int64 (z : Z) : run Z := if (- 2 ^ 63 <=? z) && (z <? 2 ^ 63) then inr z else inl Crash.
Definition of_prop (b : bool) : Z := if b then 1 else 0.

Definition exec_locktime (m : machine) (verify : Z) (negative_ok : Z → bool) (check : Z → option bool) : run machine :=
  if negb (has_flag flags verify) then
    if has_flag flags SCRIPT_VERIFY_DISCOURAGE_UPGRADABLE_NOPS then fails SCRIPT_ERR_DISCOURAGE_UPGRADABLE_NOPS else inr m
  else
    match stack m with
    | [] => bad_stack
    | vch :: _ =>
        n ← num5 vch;
        if n <? 0 then fails SCRIPT_ERR_NEGATIVE_LOCKTIME
        else if negative_ok n then inr m
        else
          b ← or_crash (check n);
          if (b : bool) then inr m else fails SCRIPT_ERR_UNSATISFIED_LOCKTIME
    end.

(** Control.  [default] is the rest of the [switch]. *)
Definition exec_control (opcode : Z) (fExec : bool) (m : machine) (default : run machine) : run machine :=
  if opcode =? OP_NOP then inr m
  else if opcode =? OP_CHECKLOCKTIMEVERIFY then
    exec_locktime m SCRIPT_VERIFY_CHECKLOCKTIMEVERIFY (λ _, false) CheckLockTime
  else if opcode =? OP_CHECKSEQUENCEVERIFY then
    exec_locktime m SCRIPT_VERIFY_CHECKSEQUENCEVERIFY (λ n, negb (Z.land n SEQUENCE_LOCKTIME_DISABLE_FLAG =? 0)) CheckSequence
  else if (opcode =? OP_NOP1) || ((OP_NOP4 <=? opcode) && (opcode <=? OP_NOP10)) then
    if has_flag flags SCRIPT_VERIFY_DISCOURAGE_UPGRADABLE_NOPS then fails SCRIPT_ERR_DISCOURAGE_UPGRADABLE_NOPS else inr m
  else if (opcode =? OP_IF) || (opcode =? OP_NOTIF) then
    if fExec then
      match stack m with
      | [] => fails SCRIPT_ERR_UNBALANCED_CONDITIONAL
      | vch :: st =>
          _ ← require (negb (negb (is_base sigversion) && has_flag flags SCRIPT_VERIFY_MINIMALIF
                             && ((1 <? length vch)%nat || ((length vch =? 1)%nat && negb (char_at vch 0 =? 1)))))
                SCRIPT_ERR_MINIMALIF;
          let fValue := CastToBool vch in
          let fValue := if opcode =? OP_NOTIF then negb fValue else fValue in
          inr (set_vfExec (set_stack m st) (fValue :: vfExec m))
      end
    else inr (set_vfExec m (false :: vfExec m))
  else if opcode =? OP_ELSE then
    match vfExec m with
    | [] => fails SCRIPT_ERR_UNBALANCED_CONDITIONAL
    | b :: v => inr (set_vfExec m (negb b :: v))
    end
  else if opcode =? OP_ENDIF then
    match vfExec m with
    | [] => fails SCRIPT_ERR_UNBALANCED_CONDITIONAL
    | _ :: v => inr (set_vfExec m v)
    end
  else if opcode =? OP_VERIFY then
    match stack m with
    | [] => bad_stack
    | vch :: st => if CastToBool vch then inr (set_stack m st) else fails SCRIPT_ERR_VERIFY
    end
  else if opcode =? OP_RETURN then fails SCRIPT_ERR_OP_RETURN
  else default.

(** Stack operations. *)
Definition exec_stack (opcode : Z) (m : machine) (default : run machine) : run machine :=
  let st := stack m in
  if opcode =? OP_TOALTSTACK then
    match st with x :: st => inr (mkMachine st (x :: altstack m) (vfExec m) (nOpCount m) (pbegincodehash m)) | _ => bad_stack end
  else if opcode =? OP_FROMALTSTACK then
    match altstack m with
    | x :: alt => inr (mkMachine (x :: st) alt (vfExec m) (nOpCount m) (pbegincodehash m))
    | [] => fails SCRIPT_ERR_INVALID_ALTSTACK_OPERATION
    end
  else if opcode =? OP_2DROP then match st with _ :: _ :: st => inr (set_stack m st) | _ => bad_stack end
  else if opcode =? OP_2DUP then match st with x2 :: x1 :: _ => inr (set_stack m (x2 :: x1 :: st)) | _ => bad_stack end
  else if opcode =? OP_3DUP then match st with x3 :: x2 :: x1 :: _ => inr (set_stack m (x3 :: x2 :: x1 :: st)) | _ => bad_stack end
  else if opcode =? OP_2OVER then match st with _ :: _ :: x2 :: x1 :: _ => inr (set_stack m (x2 :: x1 :: st)) | _ => bad_stack end
  else if opcode =? OP_2ROT then
    match st with
    | x6 :: x5 :: x4 :: x3 :: x2 :: x1 :: st => inr (set_stack m (x2 :: x1 :: x6 :: x5 :: x4 :: x3 :: st))
    | _ => bad_stack
    end
  else if opcode =? OP_2SWAP then
    match st with x4 :: x3 :: x2 :: x1 :: st => inr (set_stack m (x2 :: x1 :: x4 :: x3 :: st)) | _ => bad_stack end
  else if opcode =? OP_IFDUP then
    match st with x :: _ => inr (set_stack m (if CastToBool x then x :: st else st)) | _ => bad_stack end
  else if opcode =? OP_DEPTH then inr (set_stack m (serialize_num (Z.of_nat (length st)) :: st))
  else if opcode =? OP_DROP then match st with _ :: st => inr (set_stack m st) | _ => bad_stack end
  else if opcode =? OP_DUP then match st with x :: _ => inr (set_stack m (x :: st)) | _ => bad_stack end
  else if opcode =? OP_NIP then match st with x2 :: _ :: st => inr (set_stack m (x2 :: st)) | _ => bad_stack end
  else if opcode =? OP_OVER then match st with _ :: x1 :: _ => inr (set_stack m (x1 :: st)) | _ => bad_stack end
  else if (opcode =? OP_PICK) || (opcode =? OP_ROLL) then
    match st with
    | vn :: ((_ :: _) as st) =>
        v ← num vn;
        let n := getint v in
        if (n <? 0) || (n >=? Z.of_nat (length st)) then bad_stack
        else
          match st !! Z.to_nat n with
          | Some vch => inr (set_stack m (vch :: (if opcode =? OP_ROLL then delete (Z.to_nat n) st else st)))
          | None => throws
          end
    | _ => bad_stack
    end
  else if opcode =? OP_ROT then match st with x3 :: x2 :: x1 :: st => inr (set_stack m (x1 :: x3 :: x2 :: st)) | _ => bad_stack end
  else if opcode =? OP_SWAP then match st with x2 :: x1 :: st => inr (set_stack m (x1 :: x2 :: st)) | _ => bad_stack end
  else if opcode =? OP_TUCK then match st with x2 :: x1 :: st => inr (set_stack m (x2 :: x1 :: x2 :: st)) | _ => bad_stack end
  else if opcode =? OP_SIZE then
    match st with x :: _ => inr (set_stack m (serialize_num (Z.of_nat (length x)) :: st)) | _ => bad_stack end
  else if (opcode =? OP_EQUAL) || (opcode =? OP_EQUALVERIFY) then
    match st with
    | vch2 :: vch1 :: st =>
        let fEqual := bool_decide (vch1 = vch2) in
        if opcode =? OP_EQUALVERIFY then
          (if fEqual then inr (set_stack m st) else fails SCRIPT_ERR_EQUALVERIFY)
        else inr (set_stack m (of_bool fEqual :: st))
    | _ => bad_stack
    end
  else default.

(** Numbers. *)
Definition unary (opcode bn : Z) : run Z :=
  if opcode =? OP_1ADD then int64 (bn + 1)
  else if opcode =? OP_1SUB then int64 (bn - 1)
  else if opcode =? OP_NEGATE then int64 (- bn)
  else if opcode =? OP_ABS then (if bn <? 0 then int64 (- bn) else inr bn)
  else if opcode =? OP_NOT then inr (of_prop (bn =? 0))
  else if opcode =? OP_0NOTEQUAL then inr (of_prop (negb (bn =? 0)))
  else inl Crash.
Definition binary (opcode bn1 bn2 : Z) : run Z :=
  if opcode =? OP_ADD then int64 (bn1 + bn2)
  else if opcode =? OP_SUB then int64 (bn1 - bn2)
  else if opcode =? OP_BOOLAND then inr (of_prop (negb (bn1 =? 0) && negb (bn2 =? 0)))
  else if opcode =? OP_BOOLOR then inr (of_prop (negb (bn1 =? 0) || negb (bn2 =? 0)))
  else if opcode =? OP_NUMEQUAL then inr (of_prop (bn1 =? bn2))
  else if opcode =? OP_NUMEQUALVERIFY then inr (of_prop (bn1 =? bn2))
  else if opcode =? OP_NUMNOTEQUAL then inr (of_prop (negb (bn1 =? bn2)))
  else if opcode =? OP_LESSTHAN then inr (of_prop (bn1 <? bn2))
  else if opcode =? OP_GREATERTHAN then inr (of_prop (bn1 >? bn2))
  else if opcode =? OP_LESSTHANOREQUAL then inr (of_prop (bn1 <=? bn2))
  else if opcode =? OP_GREATERTHANOREQUAL then inr (of_prop (bn1 >=? bn2))
  else if opcode =? OP_MIN then inr (if bn1 <? bn2 then bn1 else bn2)
  else if opcode =? OP_MAX then inr (if bn1 >? bn2 then bn1 else bn2)
  else inl Crash.
Definition is_unary (opcode : Z) : bool :=
  (opcode =? OP_1ADD) || (opcode =? OP_1SUB) || (opcode =? OP_NEGATE) || (opcode =? OP_ABS)
  || (opcode =? OP_NOT) || (opcode =? OP_0NOTEQUAL).
Definition is_binary (opcode : Z) : bool :=
  (opcode =? OP_ADD) || (opcode =? OP_SUB) || ((OP_BOOLAND <=? opcode) && (opcode <=? OP_MAX)).
Definition exec_numeric (opcode : Z) (m : machine) (default : run machine) : run machine :=
  if is_unary opcode then
    match stack m with
    | vch :: st => bn ← num vch; bn ← unary opcode bn; inr (set_stack m (serialize_num bn :: st))
    | _ => bad_stack
    end
  else if is_binary opcode then
    match stack m with
    | vch2 :: vch1 :: st =>
        bn1 ← num vch1; bn2 ← num vch2; bn ← binary opcode bn1 bn2;
        let vch := serialize_num bn in
        if opcode =? OP_NUMEQUALVERIFY then
          (if CastToBool vch then inr (set_stack m st) else fails SCRIPT_ERR_NUMEQUALVERIFY)
        else inr (set_stack m (vch :: st))
    | _ => bad_stack
    end
  else if opcode =? OP_WITHIN then
    match stack m with
    | vch3 :: vch2 :: vch1 :: st =>
        bn1 ← num vch1; bn2 ← num vch2; bn3 ← num vch3;
        inr (set_stack m (of_bool ((bn2 <=? bn1) && (bn1 <? bn3)) :: st))
    | _ => bad_stack
    end
  else default.

(** Hashes. *)
Definition hash_op (opcode : Z) (vch : bytes) : bytes :=
  if opcode =? OP_RIPEMD160 then Ripemd160.Finalize (Ripemd160.Write Ripemd160.CRIPEMD160 vch)
  else if opcode =? OP_SHA1 then Sha1.Finalize (Sha1.Write Sha1.CSHA1 vch)
  else if opcode =? OP_SHA256 then Sha256.Finalize (Sha256.Write Sha256.CSHA256 vch)
  else if opcode =? OP_HASH160 then Hashes.Hash160 vch
  else Hashes.Hash1 vch.
Definition is_hash (opcode : Z) : bool := (OP_RIPEMD160 <=? opcode) && (opcode <=? OP_HASH256).

(** Signatures.  [pend] is the end of the script, [pbegincodehash] the bytes
    after the last separator. *)
Definition delete_signature (scriptCode vchSig : bytes) : run bytes :=
  '(scriptCode, _) ← or_crash (FindAndDelete scriptCode (push_data [] vchSig)); inr scriptCode.
Definition exec_checksig (opcode : Z) (m : machine) : run machine :=
  match stack m with
  | vchPubKey :: vchSig :: st =>
      scriptCode ← (if is_base sigversion then delete_signature (pbegincodehash m) vchSig else inr (pbegincodehash m));
      _ ← CheckSignatureEncoding vchSig flags;
      _ ← CheckPubKeyEncoding vchPubKey flags sigversion;
      fSuccess ← or_crash (CheckSig vchSig vchPubKey scriptCode sigversion);
      if negb fSuccess && has_flag flags SCRIPT_VERIFY_NULLFAIL && negb (length vchSig =? 0)%nat then fails SCRIPT_ERR_SIG_NULLFAIL
      else if opcode =? OP_CHECKSIGVERIFY then
        (if fSuccess then inr (set_stack m st) else fails SCRIPT_ERR_CHECKSIGVERIFY)
      else inr (set_stack m (of_bool fSuccess :: st))
  | _ => bad_stack
  end.

(** [stacktop(-i)], which throws outside the stack. *)
Definition stacktop (st : list bytes) (i : nat) : run bytes :=
  match st !! (i - 1)%nat with Some v => inr v | None => throws end.

Fixpoint delete_signatures (st : list bytes) (isig n : nat) (scriptCode : bytes) : run bytes :=
  match n with
  | O => inr scriptCode
  | S n =>
      vchSig ← stacktop st isig;
      scriptCode ← (if is_base sigversion then delete_signature scriptCode vchSig else inr scriptCode);
      delete_signatures st (S isig) n scriptCode
  end.
(** The [while] loop; a turn uses up a key. *)
Fixpoint match_signatures (fuel : nat) (st : list bytes) (scriptCode : bytes) (isig ikey nSigsCount nKeysCount : nat) : run bool :=
  if (nSigsCount =? 0)%nat then inr true
  else
    vchSig ← stacktop st isig;
    vchPubKey ← stacktop st ikey;
    _ ← CheckSignatureEncoding vchSig flags;
    _ ← CheckPubKeyEncoding vchPubKey flags sigversion;
    fOk ← or_crash (CheckSig vchSig vchPubKey scriptCode sigversion);
    let isig := if (fOk : bool) then S isig else isig in
    let nSigsCount := if (fOk : bool) then (nSigsCount - 1)%nat else nSigsCount in
    if (nKeysCount - 1 <? nSigsCount)%nat then inr false
    else match fuel with
         | O => inl Crash
         | S fuel => match_signatures fuel st scriptCode isig (S ikey) nSigsCount (nKeysCount - 1)
         end.
(** Dropping [n] arguments. *)
Fixpoint drop_arguments (n : nat) (fSuccess : bool) (ikey2 : nat) (st : list bytes) : run (list bytes) :=
  match n with
  | O => inr st
  | S n =>
      match st with
      | [] => throws
      | x :: st =>
          if negb fSuccess && has_flag flags SCRIPT_VERIFY_NULLFAIL && (ikey2 =? 0)%nat && negb (length x =? 0)%nat
          then fails SCRIPT_ERR_SIG_NULLFAIL
          else drop_arguments n fSuccess (ikey2 - 1) st
      end
  end.
Definition exec_checkmultisig (opcode : Z) (m : machine) : run machine :=
  let st := stack m in
  _ ← require (1 <=? length st)%nat SCRIPT_ERR_INVALID_STACK_OPERATION;
  v ← stacktop st 1; n ← num v; let nKeysCount := getint n in
  _ ← require (negb ((nKeysCount <? 0) || (nKeysCount >? MAX_PUBKEYS_PER_MULTISIG))) SCRIPT_ERR_PUBKEY_COUNT;
  let ops := nOpCount m + nKeysCount in
  _ ← require (negb (ops >? MAX_OPS_PER_SCRIPT)) SCRIPT_ERR_OP_COUNT;
  let nKeys := Z.to_nat nKeysCount in
  _ ← require (2 + nKeys <=? length st)%nat SCRIPT_ERR_INVALID_STACK_OPERATION;
  v ← stacktop st (2 + nKeys); n ← num v; let nSigsCount := getint n in
  _ ← require (negb ((nSigsCount <? 0) || (nSigsCount >? nKeysCount))) SCRIPT_ERR_SIG_COUNT;
  let nSigs := Z.to_nat nSigsCount in
  let isig := (3 + nKeys)%nat in
  let i := (isig + nSigs)%nat in
  _ ← require (i <=? length st)%nat SCRIPT_ERR_INVALID_STACK_OPERATION;
  scriptCode ← delete_signatures st isig nSigs (pbegincodehash m);
  fSuccess ← match_signatures nKeys st scriptCode isig 2 nSigs nKeys;
  st ← drop_arguments (i - 1) fSuccess (nKeys + 2) st;
  match st with
  | [] => bad_stack
  | dummy :: st =>
      if has_flag flags SCRIPT_VERIFY_NULLDUMMY && negb (length dummy =? 0)%nat then fails SCRIPT_ERR_SIG_NULLDUMMY
      else
        let m := set_ops m ops in
        if opcode =? OP_CHECKMULTISIGVERIFY then
          (if (fSuccess : bool) then inr (set_stack m st) else fails SCRIPT_ERR_CHECKMULTISIGVERIFY)
        else inr (set_stack m (of_bool fSuccess :: st))
  end.

(** [here] starts with the instruction, [pc] follows it. *)
Definition exec_crypto (opcode : Z) (here pc : bytes) (m : machine) (default : run machine) : run machine :=
  if is_hash opcode then
    match stack m with vch :: st => inr (set_stack m (hash_op opcode vch :: st)) | _ => bad_stack end
  else if opcode =? OP_CODESEPARATOR then
    inr (mkMachine (stack m) (altstack m) (vfExec m) (nOpCount m) pc)
  else if (opcode =? OP_CHECKSIG) || (opcode =? OP_CHECKSIGVERIFY) then exec_checksig opcode m
  else if (opcode =? OP_CHECKMULTISIG) || (opcode =? OP_CHECKMULTISIGVERIFY) then exec_checkmultisig opcode m
  else if opcode =? OP_SPEND then inl (Accept (stack m))
  else if (opcode =? OP_CREATE) || (opcode =? OP_CALL) then inl (Accept (here :: stack m))
  else default.

(** The [switch]. *)
Definition exec_op (opcode : Z) (here pc : bytes) (fExec : bool) (m : machine) : run machine :=
  if (opcode =? OP_1NEGATE) || ((OP_1 <=? opcode) && (opcode <=? OP_16)) then
    inr (set_stack m (serialize_num (opcode - (OP_1 - 1)) :: stack m))
  else exec_control opcode fExec m (exec_stack opcode m (exec_numeric opcode m
         (exec_crypto opcode here pc m (fails SCRIPT_ERR_BAD_OPCODE)))).

Definition is_disabled (opcode : Z) : bool :=
  (opcode =? OP_CAT) || (opcode =? OP_SUBSTR) || (opcode =? OP_LEFT) || (opcode =? OP_RIGHT) || (opcode =? OP_INVERT)
  || (opcode =? OP_AND) || (opcode =? OP_OR) || (opcode =? OP_XOR) || (opcode =? OP_2MUL) || (opcode =? OP_2DIV)
  || (opcode =? OP_MUL) || (opcode =? OP_DIV) || (opcode =? OP_MOD) || (opcode =? OP_LSHIFT) || (opcode =? OP_RSHIFT).

(** One turn of the loop, with the instruction already read. *)
Definition step (here : bytes) (opcode : Z) (vchPushValue pc : bytes) (m : machine) : run machine :=
  let fExec := forallb id (vfExec m) in
  _ ← require (negb (Z.of_nat (length vchPushValue) >? MAX_SCRIPT_ELEMENT_SIZE)) SCRIPT_ERR_PUSH_SIZE;
  let m := if opcode >? OP_16 then set_ops m (nOpCount m + 1) else m in
  _ ← require (negb ((opcode >? OP_16) && (nOpCount m >? MAX_OPS_PER_SCRIPT))) SCRIPT_ERR_OP_COUNT;
  _ ← require (negb (is_disabled opcode)) SCRIPT_ERR_DISABLED_OPCODE;
  m ← (if fExec && (0 <=? opcode) && (opcode <=? OP_PUSHDATA4) then
         if fRequireMinimal && negb (CheckMinimalPush vchPushValue opcode) then fails SCRIPT_ERR_MINIMALDATA
         else inr (set_stack m (vchPushValue :: stack m))
       else if fExec || ((OP_IF <=? opcode) && (opcode <=? OP_ENDIF)) then exec_op opcode here pc fExec m
       else inr m);
  _ ← require (negb (Z.of_nat (length (stack m) + length (altstack m)) >? MAX_STACK_SIZE)) SCRIPT_ERR_STACK_SIZE;
  inr m.
Fixpoint eval_loop (fuel : nat) (pc : bytes) (m : machine) : run machine :=
  match pc with
  | [] => inr m
  | _ =>
      match GetOp2 pc with
      | None => fails SCRIPT_ERR_BAD_OPCODE
      | Some (opcode, vchPushValue, pc') =>
          m ← step pc opcode vchPushValue pc' m;
          match fuel with O => inl Crash | S fuel => eval_loop fuel pc' m end
      end
  end.

(** The result: the stack and what is left in [*serror] for [true], or the error. *)
Inductive eval_result := EvalTrue (stack : list bytes) (serror : ScriptError) | EvalFalse (serror : ScriptError) | EvalCrash.
Definition EvalScript (st : list bytes) (script : bytes) : eval_result :=
  if Z.of_nat (length script) >? MAX_SCRIPT_SIZE then EvalFalse SCRIPT_ERR_SCRIPT_SIZE
  else
    match eval_loop (length script) script (mkMachine st [] [] 0 script) with
    | inl (Err e) => EvalFalse e
    | inl (Accept st) => EvalTrue st SCRIPT_ERR_UNKNOWN_ERROR
    | inl Crash => EvalCrash
    | inr m =>
        match vfExec m with
        | [] => EvalTrue (stack m) SCRIPT_ERR_OK
        | _ => EvalFalse SCRIPT_ERR_UNBALANCED_CONDITIONAL
        end
    end.
End Flags.
End Machine.

(** ** Proofs: the machine stays within its limits *)

(** An instruction at which the script stops and hands over to the contracts. *)
Definition contract_op (opcode : Z) : Prop := opcode = OP_CREATE ∨ opcode = OP_CALL ∨ opcode = OP_SPEND.

Section Limits.
(** The largest element and the deepest stack to start from. *)
Context (Bmax Dmax : Z) (HB : MAX_SCRIPT_ELEMENT_SIZE ≤ Bmax < 2 ^ 62) (HD : MAX_STACK_SIZE ≤ Dmax < 2 ^ 62).
(** What is known when a script stops at a contract instruction. *)
Context (contract : Prop).
Definition elem_upto (b : Z) (v : bytes) : Prop := bytes_ok v ∧ Z.of_nat (length v) ≤ b.
Abbreviation elem_ok := (elem_upto Bmax).
Abbreviation code_ok := (elem_upto MAX_SCRIPT_SIZE).
Record machine_ok (m : machine) : Prop := {
  mo_stack : Forall elem_ok (stack m);
  mo_alt : Forall elem_ok (altstack m);
  mo_ops : 0 ≤ nOpCount m ≤ MAX_OPS_PER_SCRIPT;
  mo_code : code_ok (pbegincodehash m) }.
Definition within_limits (m : machine) : Prop := Z.of_nat (length (stack m) + length (altstack m)) ≤ Dmax.
(** The stack of a script that ended at a contract instruction. *)
Definition accepted (st : list bytes) : Prop :=
  contract ∧ Forall (elem_upto (Z.max Bmax MAX_SCRIPT_SIZE)) st ∧ Z.of_nat (length st) ≤ Dmax + 1 ∧ Forall elem_ok (tail st).
Definition safe {A} (P : A → Prop) (r : run A) : Prop :=
  match r with inr x => P x | inl (Accept st) => accepted st | inl (Err e) => e ≠ SCRIPT_ERR_OK | inl Crash => False end.

Lemma safe_bind {A B} (P : A → Prop) (Q : B → Prop) (r : run A) (f : A → run B) :
  safe P r → (∀ x, P x → safe Q (f x)) → safe Q (r ≫= f).
Proof. intros Hr Hf. destruct r as [[]|x]; cbn in *; auto. Qed.
Lemma safe_require b e (Q : unit → Prop) : e ≠ SCRIPT_ERR_OK → (b = true → Q ()) → safe Q (require b e).
Proof. intros He H. unfold require. destruct b; cbn; auto. Qed.
Lemma safe_check_then {A} b e (f : unit → run A) (Q : A → Prop) :
  e ≠ SCRIPT_ERR_OK → (b = true → safe Q (f ())) → safe Q (require b e ≫= f).
Proof. intros He H. unfold require. destruct b; [by apply H|done]. Qed.
Lemma safe_weaken {A} (P Q : A → Prop) (r : run A) : safe P r → (∀ x, P x → Q x) → safe Q r.
Proof. intros Hr H. destruct r as [[]|x]; cbn in *; auto. Qed.

Lemma set_vch_bound vch k : bytes_ok vch → (length vch ≤ k)%nat → (0 < k ≤ 8)%nat → Z.abs (set_vch vch) < 2 ^ (8 * Z.of_nat k - 1).
Proof.
  intros Hb Hl Hk. destruct (decide (vch = [])) as [->|Hne]; [cbn; apply Z.pow_pos_nonneg; lia|].
  rewrite (last_split vch 0 Hne) in Hb, Hl |- *. apply bytes_ok_app in Hb as [Hl' Hb]. apply bytes_ok_cons in Hb as [Hb _].
  rewrite length_app in Hl. cbn [length] in Hl. rewrite set_vch_snoc by (done || lia). cbv zeta.
  set (l := removelast vch) in *. set (b := List.last vch 0) in *. pose proof (from_digits_bound 256 ltac:(lia) l Hl').
  assert (E : 2 ^ (8 * Z.of_nat (S (length l)) - 1) = 256 ^ Z.of_nat (length l) * 128).
  { rewrite pow256_bits. change 128 with (2 ^ 7). rewrite <- Z.pow_add_r by lia. f_equal. lia. }
  assert (Hp : 2 ^ (8 * Z.of_nat (S (length l)) - 1) ≤ 2 ^ (8 * Z.of_nat k - 1)) by (apply Z.pow_le_mono_r; lia).
  unfold is_u8 in Hb. destruct (128 <=? b); nia.
Qed.

Lemma elem_nil : elem_ok [].
Proof. split; [apply bytes_ok_nil|unfold MAX_SCRIPT_ELEMENT_SIZE in HB; cbn; lia]. Qed.
Lemma elem_of_bool b : elem_ok (of_bool b).
Proof. unfold MAX_SCRIPT_ELEMENT_SIZE in HB. destruct b; (split; [by apply bytes_ok_compute|cbn; lia]). Qed.
Lemma elem_num n : Z.abs n < 2 ^ 63 → elem_ok (serialize_num n).
Proof. intros Hn. destruct (serialize_num_ok n Hn) as (H1 & _ & _ & H2). split; [done|]. unfold MAX_SCRIPT_ELEMENT_SIZE in HB. lia. Qed.

(** *** The hashes *)
Ltac digest ok len :=
  cbv zeta; split; [repeat first [apply ok|apply bytes_ok_app; split]|rewrite !length_app, !len; unfold MAX_SCRIPT_ELEMENT_SIZE in HB; lia].
Lemma WriteLE32_bytes x : bytes_ok (WriteLE32 x).
Proof. apply Arith256.WriteLE32_ok. Qed.
Lemma WriteLE32_length x : length (WriteLE32 x) = 4%nat.
Proof. apply Arith256.WriteLE32_ok. Qed.
Lemma elem_sha256 h : elem_ok (Sha256.Finalize h).
Proof. unfold Sha256.Finalize. digest WriteBE32_ok length_WriteBE32. Qed.
Lemma elem_sha1 h : elem_ok (Sha1.Finalize h).
Proof. unfold Sha1.Finalize. digest WriteBE32_ok length_WriteBE32. Qed.
Lemma elem_ripemd160 h : elem_ok (Ripemd160.Finalize h).
Proof. unfold Ripemd160.Finalize. digest WriteLE32_bytes WriteLE32_length. Qed.
Lemma elem_hash opcode vch : elem_ok (hash_op opcode vch).
Proof.
  unfold hash_op. repeat case_match; [apply elem_ripemd160|apply elem_sha1|apply elem_sha256| |].
  - unfold Hashes.Hash160, Hashes.CHash160_Finalize. apply elem_ripemd160.
  - unfold Hashes.Hash1, Hashes.CHash256_Finalize. apply elem_sha256.
Qed.

Section Safety.
Context `{BaseSignatureChecker} (CheckLowS : bytes → bool) (flags : Z) (sigversion : SigVersion).
(** The transaction answers every question. *)
Context (CheckSig_total : ∀ s k c v, elem_upto MAX_SCRIPT_SIZE c → is_Some (CheckSig s k c v)).
Context (CheckLockTime_total : ∀ n, is_Some (CheckLockTime n)) (CheckSequence_total : ∀ n, is_Some (CheckSequence n)).
Implicit Types (m : machine).

Lemma safe_or_crash {A} (o : option A) (P : A → Prop) : (∃ x, o = Some x ∧ P x) → safe P (or_crash o).
Proof. by intros (x & -> & Hx). Qed.
Lemma safe_num vch : bytes_ok vch → safe (λ n, Z.abs n < 2 ^ 31) (num flags vch).
Proof.
  intros Hb. unfold num, CScriptNum. destruct (Nat.ltb_spec 4 (length vch)); [done|]. destruct (_ && _); [done|].
  apply (set_vch_bound vch 4); [done|lia|lia].
Qed.
Lemma safe_num5 vch : bytes_ok vch → safe (λ n, Z.abs n < 2 ^ 39) (num5 flags vch).
Proof.
  intros Hb. unfold num5, CScriptNum. destruct (Nat.ltb_spec 5 (length vch)); [done|]. destruct (_ && _); [done|].
  apply (set_vch_bound vch 5); [done|lia|lia].
Qed.
Lemma safe_int64 z : Z.abs z < 2 ^ 62 → safe (λ n, Z.abs n < 2 ^ 62) (int64 z).
Proof. intros Hz. unfold int64. by replace (_ && _) with true by lia. Qed.

(** Changing the stack. *)
Lemma set_stack_ok m st : machine_ok m → Forall elem_ok st → machine_ok (set_stack m st).
Proof. intros [H1 H2 H3 H4] Hst. by split. Qed.
Ltac stack_case Hst :=
  match goal with |- context [match ?st with [] => _ | _ :: _ => _ end] => destruct st; try done;
    try (apply list.Forall_cons in Hst as [? Hst]) end.
Ltac new_stack Hm := apply (set_stack_ok _ _ Hm); repeat (apply list.Forall_cons; split); done.
Lemma exec_stack_ok opcode m default : machine_ok m → within_limits m → safe machine_ok default →
  safe machine_ok (exec_stack flags opcode m default).
Proof.
  intros Hm Hlim Hd. unfold exec_stack. destruct m as [st alt ve ops code]. pose proof Hm as [Hst Ha Ho Hc]. cbn in Hst, Ha, Ho, Hc.
  unfold within_limits in Hlim. cbn [stack altstack] in *.
  destruct (opcode =? OP_TOALTSTACK).
  { destruct st as [|x st]; [done|]. apply list.Forall_cons in Hst as [? ?]. split; try done. by apply list.Forall_cons. }
  destruct (opcode =? OP_FROMALTSTACK).
  { destruct alt as [|x alt]; [done|]. apply list.Forall_cons in Ha as [? ?]. split; try done. by apply list.Forall_cons. }
  do 6 (case_match; [repeat stack_case Hst; new_stack Hm|]).
  case_match; [repeat stack_case Hst; case_match; new_stack Hm|].
  case_match; [apply (set_stack_ok _ _ Hm), list.Forall_cons; split; [apply elem_num; lia|done]|].
  do 4 (case_match; [repeat stack_case Hst; new_stack Hm|]).
  destruct ((opcode =? OP_PICK) || (opcode =? OP_ROLL)).
  { destruct st as [|vn [|x st]]; try done. apply list.Forall_cons in Hst as [Hvn Hst].
    apply (safe_bind (λ n, Z.abs n < 2 ^ 31)); [apply safe_num, Hvn|]. intros n Hn. destruct (_ || _); [done|].
    destruct ((x :: st) !! Z.to_nat (getint n)) as [v|] eqn:E; [|done]. apply (set_stack_ok _ _ Hm), list.Forall_cons.
    split; [exact (Forall_lookup_1 _ _ _ _ Hst E)|]. destruct (opcode =? OP_ROLL); [by apply Forall_delete|done]. }
  do 3 (case_match; [repeat stack_case Hst; new_stack Hm|]).
  case_match; [stack_case Hst; apply (set_stack_ok _ _ Hm), list.Forall_cons; split; [apply elem_num|by apply list.Forall_cons]|].
  { match goal with H : elem_ok _ |- _ => destruct H as [_ H] end. lia. }
  case_match; [repeat stack_case Hst|done]. case_match; [case_match; [new_stack Hm|done]|].
  apply (set_stack_ok _ _ Hm), list.Forall_cons. split; [apply elem_of_bool|done].
Qed.

Lemma exec_control_ok opcode fExec m default : machine_ok m → safe machine_ok default →
  safe machine_ok (exec_control flags sigversion opcode fExec m default).
Proof.
  intros Hm Hd. unfold exec_control. destruct m as [st alt ve ops code]. pose proof Hm as [Hst Ha Ho Hc]. cbn in Hst, Ha, Ho, Hc.
  assert (Hlock : ∀ verify ok check, (∀ n, is_Some (check n)) → safe machine_ok (exec_locktime flags (mkMachine st alt ve ops code) verify ok check)).
  { intros verify ok check Hcheck. unfold exec_locktime. case_match; [by case_match|]. cbn [stack]. destruct st as [|v st]; [done|].
    apply list.Forall_cons in Hst as [Hv _]. apply (safe_bind (λ n, Z.abs n < 2 ^ 39)); [apply safe_num5, Hv|]. intros n _.
    case_match; [done|]. case_match; [exact Hm|]. destruct (Hcheck n) as [b ->]. cbn. by destruct b. }
  case_match; [exact Hm|]. case_match; [by apply Hlock|]. case_match; [by apply Hlock|]. case_match; [by case_match|]. cbn [stack vfExec].
  case_match.
  { case_match; [|by split]. stack_case Hst. apply safe_bind with (λ _, True); [by apply safe_require|]. intros _ _. by split. }
  case_match; [case_match; [done|by split]|]. case_match; [case_match; [done|by split]|].
  case_match; [stack_case Hst; case_match; [by split|done]|]. by case_match.
Qed.

Lemma safe_of_prop b : safe (λ n, Z.abs n < 2 ^ 62) (inr (of_prop b)).
Proof. by destruct b. Qed.
Lemma safe_unary opcode n : is_unary opcode = true → Z.abs n < 2 ^ 31 → safe (λ n, Z.abs n < 2 ^ 62) (unary opcode n).
Proof.
  intros Hop Hn. unfold unary, is_unary in *.
  destruct (opcode =? OP_1ADD); [clear Hop; apply safe_int64; lia|]. destruct (opcode =? OP_1SUB); [clear Hop; apply safe_int64; lia|].
  destruct (opcode =? OP_NEGATE); [clear Hop; apply safe_int64; lia|].
  destruct (opcode =? OP_ABS); [clear Hop; destruct (n <? 0); [apply safe_int64; lia|cbn; lia]|].
  destruct (opcode =? OP_NOT); [apply safe_of_prop|]. destruct (opcode =? OP_0NOTEQUAL); [apply safe_of_prop|done].
Qed.
Lemma safe_binary opcode a b : is_binary opcode = true → Z.abs a < 2 ^ 31 → Z.abs b < 2 ^ 31 →
  safe (λ n, Z.abs n < 2 ^ 62) (binary opcode a b).
Proof.
  intros Hop Ha Hb. unfold binary.
  destruct (Z.eqb_spec opcode OP_ADD); [clear Hop; apply safe_int64; lia|]. destruct (Z.eqb_spec opcode OP_SUB); [clear Hop; apply safe_int64; lia|].
  repeat match goal with |- context [Z.eqb opcode ?o] => destruct (Z.eqb_spec opcode o);
    [clear Hop; try apply safe_of_prop; cbn; case_match; lia|] end.
  exfalso. clear Ha Hb. unfold is_binary, OP_ADD, OP_SUB, OP_BOOLAND, OP_BOOLOR, OP_NUMEQUAL, OP_NUMEQUALVERIFY, OP_NUMNOTEQUAL, OP_LESSTHAN,
    OP_GREATERTHAN, OP_LESSTHANOREQUAL, OP_GREATERTHANOREQUAL, OP_MIN, OP_MAX in *. lia.
Qed.
Lemma safe_num_elem vch : elem_ok vch → safe (λ n, Z.abs n < 2 ^ 31) (num flags vch).
Proof. intros [Hb _]. by apply safe_num. Qed.
Lemma exec_numeric_ok opcode m default : machine_ok m → safe machine_ok default → safe machine_ok (exec_numeric flags opcode m default).
Proof.
  intros Hm Hd. unfold exec_numeric. destruct m as [st alt ve ops code]. pose proof Hm as [Hst Ha Ho Hc]. cbn in Hst, Ha, Ho, Hc. cbn [stack].
  destruct (is_unary opcode) eqn:Eu.
  { stack_case Hst. apply (safe_bind (λ n, Z.abs n < 2 ^ 31)); [by apply safe_num_elem|]. intros n Hn.
    apply (safe_bind (λ n, Z.abs n < 2 ^ 62)); [by apply safe_unary|]. intros r Hr.
    apply (set_stack_ok _ _ Hm), list.Forall_cons. split; [apply elem_num; lia|done]. }
  destruct (is_binary opcode) eqn:Eb.
  { repeat stack_case Hst. do 2 (apply (safe_bind (λ n, Z.abs n < 2 ^ 31)); [by apply safe_num_elem|]; intros ? ?).
    apply (safe_bind (λ n, Z.abs n < 2 ^ 62)); [by apply safe_binary|]. intros r Hr.
    case_match; [case_match; [new_stack Hm|done]|]. apply (set_stack_ok _ _ Hm), list.Forall_cons. split; [apply elem_num; lia|done]. }
  case_match; [|done]. repeat stack_case Hst. do 3 (apply (safe_bind (λ n, Z.abs n < 2 ^ 31)); [by apply safe_num_elem|]; intros ? ?).
  apply (set_stack_ok _ _ Hm), list.Forall_cons. split; [apply elem_of_bool|done].
Qed.

(** *** Signatures *)
Lemma safe_delete c sig : code_ok c → safe code_ok (delete_signature c sig).
Proof.
  intros Hc. unfold delete_signature. assert (Hp : (0 < length (push_data [] sig))%nat).
  { unfold push_data. rewrite app_nil_l, length_app. repeat case_match; cbn; lia. }
  destruct (FindAndDelete_spec c (push_data [] sig) Hp) as (parts & ks & tl & Hl & E1 & ->). cbn [or_crash mbind run_bind].
  cbn [safe]. rewrite E1 in Hc. clear E1 Hp. revert Hc. generalize MAX_SCRIPT_SIZE. generalize (push_data [] sig).
  intros b z. revert z ks Hl. induction parts as [|p parts IH]; intros z [|k ks] Hl [Hb Hz]; try done.
  cbn [zip_with concat] in Hb, Hz. rewrite !bytes_ok_app in Hb. rewrite <- !app_assoc, !length_app in Hz.
  destruct (IH (z - Z.of_nat (length p)) ks) as [I1 I2]; [cbn in Hl; lia|split; [apply bytes_ok_app; split; apply Hb|rewrite length_app; lia]|].
  cbn [concat]. rewrite <- app_assoc. split; [apply bytes_ok_app; split; [apply Hb|done]|rewrite length_app; lia].
Qed.
Lemma safe_stacktop st i : Forall elem_ok st → safe elem_ok (stacktop st i).
Proof.
  intros Hst. unfold stacktop. destruct (st !! (i - 1)%nat) eqn:E; [|done]. exact (Forall_lookup_1 _ _ _ _ Hst E).
Qed.
Lemma safe_sig_encoding v : safe (λ _, True) (CheckSignatureEncoding CheckLowS v flags).
Proof.
  unfold CheckSignatureEncoding, IsLowDERSignature. case_match; [done|]. apply safe_bind with (λ _, True); [by apply safe_require|]. intros _ _.
  apply safe_bind with (λ _, True); [|intros _ _; by apply safe_require]. case_match; [|done].
  apply safe_bind with (λ _, True); [by apply safe_require|]. intros _ _. by apply safe_require.
Qed.
Lemma safe_key_encoding v : safe (λ _, True) (CheckPubKeyEncoding v flags sigversion).
Proof.
  unfold CheckPubKeyEncoding. apply safe_bind with (λ _, True); [by apply safe_require|]. intros _ _. by apply safe_require.
Qed.
Lemma safe_check s k c : code_ok c → safe (λ _, True) (or_crash (CheckSig s k c sigversion)).
Proof. intros Hc. destruct (CheckSig_total s k c sigversion Hc) as [b ->]. done. Qed.
Ltac safe_step := first
  [ apply safe_bind with (λ _, True); [first [apply safe_sig_encoding|apply safe_key_encoding|by apply safe_check|by apply safe_require]|intros ? _]
  | apply (safe_bind elem_ok); [by apply safe_stacktop|intros ? ?] ].

Lemma exec_checksig_ok opcode m : machine_ok m → safe machine_ok (exec_checksig CheckLowS flags sigversion opcode m).
Proof.
  intros Hm. unfold exec_checksig. destruct m as [st alt ve ops code]. pose proof Hm as [Hst Ha Ho Hc]. cbn in Hst, Ha, Ho, Hc. cbn [stack pbegincodehash].
  destruct st as [|k [|sg st]]; try done. apply list.Forall_cons in Hst as [Hk Hst]. apply list.Forall_cons in Hst as [Hsg Hst].
  apply (safe_bind code_ok); [destruct (is_base sigversion); [by apply safe_delete|done]|]. intros c Hcode.
  do 3 safe_step. case_match; [done|]. case_match; [case_match; [new_stack Hm|done]|].
  apply (set_stack_ok _ _ Hm), list.Forall_cons. split; [apply elem_of_bool|done].
Qed.

Lemma safe_deletes st isig n c : Forall elem_ok st → code_ok c → safe code_ok (delete_signatures sigversion st isig n c).
Proof.
  intros Hst. revert isig c. induction n as [|n IH]; intros isig c Hc; [done|]. cbn [delete_signatures]. safe_step.
  apply (safe_bind code_ok); [destruct (is_base sigversion); [by apply safe_delete|done]|]. intros c' Hc'. by apply IH.
Qed.
Lemma safe_matches fuel st c isig ikey nSigs nKeys : Forall elem_ok st → code_ok c → (nKeys ≤ fuel)%nat → (nSigs ≤ nKeys)%nat →
  safe (λ _, True) (match_signatures CheckLowS flags sigversion fuel st c isig ikey nSigs nKeys).
Proof.
  intros Hst Hc. revert isig ikey nSigs nKeys. induction fuel as [|fuel IH]; intros isig ikey nSigs nKeys Hf Hn; cbn [match_signatures].
  - replace nSigs with 0%nat by lia. done.
  - destruct (Nat.eqb_spec nSigs 0); [done|]. do 5 safe_step. cbv zeta.
    match goal with |- context [(?a <? ?b)%nat] => destruct (Nat.ltb_spec a b) end; [done|].
    apply IH; [lia|done].
Qed.
Lemma safe_drop n b i st : Forall elem_ok st → safe (Forall elem_ok) (drop_arguments flags n b i st).
Proof.
  revert i st. induction n as [|n IH]; intros i st Hst; [done|]. cbn [drop_arguments]. destruct st as [|x st]; [done|].
  apply list.Forall_cons in Hst as [_ Hst]. case_match; [done|by apply IH].
Qed.

Lemma safe_key_count v : elem_ok v → safe (λ n, True) (num flags v).
Proof. intros Hv. eapply safe_weaken; [by apply safe_num_elem|done]. Qed.
Lemma exec_checkmultisig_ok opcode m : machine_ok m → safe machine_ok (exec_checkmultisig CheckLowS flags sigversion opcode m).
Proof.
  intros Hm. unfold exec_checkmultisig. destruct m as [st alt ve ops code]. pose proof Hm as [Hst Ha Ho Hc]. cbn in Hst, Ha, Ho, Hc.
  cbn [stack nOpCount pbegincodehash]. repeat safe_step. apply safe_bind with (λ _, True); [by apply safe_key_count|]. intros n _. cbv zeta.
  set (nK := getint n). apply safe_check_then; [done|]. intros Ek. apply safe_check_then; [done|]. intros Eo. repeat safe_step.
  apply safe_bind with (λ _, True); [by apply safe_key_count|]. intros n' _. set (nS := getint n'). apply safe_check_then; [done|]. intros Es. repeat safe_step.
  apply (safe_bind code_ok); [by apply safe_deletes|]. intros c Hcode.
  apply safe_bind with (λ _, True); [apply safe_matches; [done|done|lia|lia]|]. intros b _.
  apply (safe_bind (Forall elem_ok)); [by apply safe_drop|]. intros st' Hst'. destruct st' as [|dummy st']; [done|].
  apply list.Forall_cons in Hst' as [_ Hst']. case_match; [done|].
  assert (Hm' : machine_ok (set_ops (mkMachine st alt ve ops code) (ops + nK))).
  { split; cbn; try done. unfold MAX_OPS_PER_SCRIPT in *. lia. }
  case_match; [case_match; [new_stack Hm'|done]|]. apply (set_stack_ok _ _ Hm'), list.Forall_cons. split; [apply elem_of_bool|done].
Qed.

Lemma exec_crypto_ok opcode here pc m default :
  machine_ok m → within_limits m → elem_upto MAX_SCRIPT_SIZE here → code_ok pc → (contract_op opcode → contract) → safe machine_ok default →
  safe machine_ok (exec_crypto CheckLowS flags sigversion opcode here pc m default).
Proof.
  intros Hm Hlim Hh Hp Hct Hd. unfold exec_crypto, contract_op in *. pose proof (mo_stack m Hm) as Hst.
  assert (Hb : Forall (elem_upto (Z.max Bmax MAX_SCRIPT_SIZE)) (stack m)).
  { eapply list.Forall_impl; [exact Hst|]. intros x [? ?]. split; [done|lia]. }
  unfold within_limits in Hlim. destruct Hh as [Hh Hh'].
  case_match.
  { destruct (stack m) as [|v st]; [done|]. apply list.Forall_cons in Hst as [? ?]. apply (set_stack_ok _ _ Hm), list.Forall_cons. split; [apply elem_hash|done]. }
  case_match; [destruct Hm; by split|]. case_match; [by apply exec_checksig_ok|]. case_match; [by apply exec_checkmultisig_ok|].
  case_match; [split; [apply Hct; lia|]; split; [done|]; split; [lia|by apply Forall_tail]|]. case_match; [|done].
  split; [apply Hct; lia|]. split; [apply list.Forall_cons; split; [split; [done|lia]|done]|]. split; [cbn [length]; lia|done].
Qed.
Lemma exec_op_ok opcode here pc fExec m : machine_ok m → within_limits m → elem_upto MAX_SCRIPT_SIZE here → code_ok pc → is_u8 opcode → (contract_op opcode → contract) →
  safe machine_ok (exec_op CheckLowS flags sigversion opcode here pc fExec m).
Proof.
  intros Hm Hlim Hh Hp Hop Hct. unfold exec_op. case_match.
  { apply (set_stack_ok _ _ Hm), list.Forall_cons. split; [apply elem_num; unfold is_u8, OP_1 in *; lia|apply Hm]. }
  apply exec_control_ok; [done|]. apply exec_stack_ok; [done|done|]. apply exec_numeric_ok; [done|]. by apply exec_crypto_ok.
Qed.

Lemma step_ok here opcode v pc m : machine_ok m → within_limits m → elem_upto MAX_SCRIPT_SIZE here → code_ok pc → bytes_ok v → is_u8 opcode → (contract_op opcode → contract) →
  safe (λ m, machine_ok m ∧ within_limits m) (step CheckLowS flags sigversion here opcode v pc m).
Proof.
  intros Hm Hlim Hh Hp Hv Hop Hct. unfold step. apply safe_check_then; [done|]. intros Ev. cbv zeta.
  set (m' := if opcode >? OP_16 then set_ops m (nOpCount m + 1) else m).
  assert (Hlim' : within_limits m') by (unfold m'; by destruct (opcode >? OP_16)).
  apply safe_check_then; [done|]. intros Eo.
  assert (Hm' : machine_ok m').
  { unfold m' in *. destruct (opcode >? OP_16); [|done]. destruct Hm as [H1 H2 H3 H4]. split; try done. cbn in *. lia. }
  apply safe_check_then; [done|]. intros _.
  apply (safe_bind machine_ok).
  - case_match; [case_match; [done|]|case_match; [by apply exec_op_ok|done]].
    apply (set_stack_ok _ _ Hm'), list.Forall_cons. split; [split; [done|lia]|apply Hm'].
  - intros m'' Hm''. apply safe_check_then; [done|]. intros El. split; [done|]. unfold within_limits. lia.
Qed.

Lemma GetOp2_bytes pc op v rest : bytes_ok pc → GetOp2 pc = Some (op, v, rest) → is_u8 op ∧ bytes_ok v ∧ bytes_ok rest.
Proof.
  intros Hb E. destruct (GetOp2_inv pc op v rest Hb E) as [(Hu & Hv & _) ->]. by apply bytes_ok_app in Hb as [_ Hr].
Qed.
Lemma eval_loop_ok fuel pc m : (length pc ≤ fuel)%nat → machine_ok m → within_limits m → elem_upto MAX_SCRIPT_SIZE pc →
  (Exists (λ o, contract_op (fst o)) (fst (script_ops fuel pc)) → contract) →
  safe (λ m, machine_ok m ∧ within_limits m) (eval_loop CheckLowS flags sigversion fuel pc m).
Proof.
  revert pc m. induction fuel as [|fuel IH]; intros pc m Hf Hm Hlim Hb Hct.
  { destruct pc; [by split|cbn in Hf; lia]. }
  destruct pc as [|b pc]; [by split|]. cbn [eval_loop]. cbn [script_ops] in Hct. destruct (GetOp2 (b :: pc)) as [[[op v] rest]|] eqn:E; [|done].
  destruct (script_ops fuel rest) as [l r] eqn:El. cbn [fst] in Hct. destruct (GetOp2_bytes _ _ _ _ (proj1 Hb) E) as (Hop & Hv & Hr). pose proof (GetOp2_shorter _ _ _ _ E) as Hs.
  assert (Hrest : code_ok rest) by (destruct Hb as [_ Hb]; split; [done|cbn [length] in *; lia]).
  apply (safe_bind (λ m, machine_ok m ∧ within_limits m)); [apply step_ok; try done; intros; apply Hct; by apply Exists_cons_hd|]. intros m' [Hm' Hl'].
  apply IH; [cbn in Hs, Hf; lia|done..|]. rewrite El. intros Hex. apply Hct. by apply Exists_cons_tl.
Qed.

Lemma EvalScript_safe (st : list bytes) (script : bytes) : Forall elem_ok st → Z.of_nat (length st) ≤ Dmax → bytes_ok script →
  (Exists (λ o, contract_op (fst o)) (fst (script_ops (length script) script)) → contract) →
  match EvalScript CheckLowS flags sigversion st script with
  | EvalTrue st' e =>
      (e = SCRIPT_ERR_OK ∧ Forall elem_ok st' ∧ Z.of_nat (length st') ≤ Dmax) ∨
      (e = SCRIPT_ERR_UNKNOWN_ERROR ∧ accepted st')
  | EvalFalse e => e ≠ SCRIPT_ERR_OK
  | EvalCrash => False
  end.
Proof.
  intros Hst Hn Hs Hct. unfold EvalScript. destruct (_ >? MAX_SCRIPT_SIZE) eqn:Esz; [done|].
  pose proof (eval_loop_ok (length script) script (mkMachine st [] [] 0 script) ltac:(lia)) as Hloop.
  assert (Hs' : code_ok script) by (split; [done|lia]).
  assert (Hm : machine_ok (mkMachine st [] [] 0 script)) by (split; cbn [stack altstack nOpCount pbegincodehash]; try done; constructor).
  assert (Hl : within_limits (mkMachine st [] [] 0 script)) by (unfold within_limits; cbn; lia).
  specialize (Hloop Hm Hl Hs' Hct). destruct (eval_loop _ _ _ _ _ _) as [[e|st'|]|m]; cbn [safe] in Hloop; [done|by right|done|].
  destruct Hloop as [Hm' Hl']. destruct (vfExec m); [|done]. left. split_and!; [done|apply Hm'|]. unfold within_limits in Hl'. lia.
Qed.
End Safety.
End Limits.

(** C35. The script machine stays within its limits.  On any script, started on a
    stack of at most 1000 elements of at most [MAX_SCRIPT_ELEMENT_SIZE] bytes,
    [EvalScript] ends without undefined behaviour or a failed assertion, the number of
    turns being bounded by the length of the script.  If it returns true
    with [SCRIPT_ERR_OK], the resulting stack is within the same limits, and
    false comes with an error.  The only other outcome needs one of the
    contract instructions OP_CREATE, OP_CALL and OP_SPEND among those of the script, at which it stops: it
    returns true with the error still unknown, and there the limits are not checked again: the
    stack can have one element more, of which only the top can be larger, up to the size of a script. *)
Theorem eval_script_limits `{BaseSignatureChecker} (CheckLowS : bytes → bool) (flags : Z) (sigversion : SigVersion)
    (CheckSig_total : ∀ s k c v, elem_upto MAX_SCRIPT_SIZE c → is_Some (CheckSig s k c v))
    (CheckLockTime_total : ∀ n, is_Some (CheckLockTime n)) (CheckSequence_total : ∀ n, is_Some (CheckSequence n))
    (st : list bytes) (script : bytes)
    (Hst : Forall (elem_upto MAX_SCRIPT_ELEMENT_SIZE) st) (Hn : Z.of_nat (length st) ≤ MAX_STACK_SIZE) (Hs : bytes_ok script) :
  match EvalScript CheckLowS flags sigversion st script with
  | EvalTrue st' e =>
      (e = SCRIPT_ERR_OK ∧ Forall (elem_upto MAX_SCRIPT_ELEMENT_SIZE) st' ∧ Z.of_nat (length st') ≤ MAX_STACK_SIZE) ∨
      (e = SCRIPT_ERR_UNKNOWN_ERROR ∧ Exists (λ o, contract_op (fst o)) (fst (script_ops (length script) script)) ∧
       Forall (elem_upto MAX_SCRIPT_SIZE) st' ∧ Z.of_nat (length st') ≤ MAX_STACK_SIZE + 1 ∧
       Forall (elem_upto MAX_SCRIPT_ELEMENT_SIZE) (tail st'))
  | EvalFalse e => e ≠ SCRIPT_ERR_OK
  | EvalCrash => False
  end.
Proof.
  exact (EvalScript_safe MAX_SCRIPT_ELEMENT_SIZE MAX_STACK_SIZE ltac:(done) ltac:(done) _ CheckLowS flags sigversion
    CheckSig_total CheckLockTime_total CheckSequence_total st script Hst Hn Hs id).
Qed.

(** ** Proofs: the script code of a signature *)

(** What [FindAndDelete] leaves: before each instruction the copies of [b] are dropped,
    up to an instruction that cannot be read. *)
Fixpoint strip_copies (fuel : nat) (b s : bytes) : bytes :=
  match fuel with
  | O => s
  | S fuel => if bool_decide (take (length b) s = b) then strip_copies fuel b (drop (length b) s) else s
  end.
Fixpoint without_copies (fuel : nat) (b s : bytes) : bytes :=
  let s := strip_copies (length s) b s in
  match GetOp2 s, fuel with
  | Some (_, _, rest), S fuel => take (length s - length rest) s ++ without_copies fuel b rest
  | _, _ => s
  end.
Lemma strip_copies_spec fuel b k s : (0 < length b)%nat → (length (concat (replicate k b) ++ s) ≤ fuel)%nat → ¬ (∃ t, s = b ++ t) →
  strip_copies fuel b (concat (replicate k b) ++ s) = s.
Proof.
  intros Hb. revert fuel. induction k as [|k IH]; intros fuel Hf Hno; cbn [replicate concat app] in *.
  - destruct fuel as [|fuel]; [done|]. cbn [strip_copies]. rewrite bool_decide_eq_false_2; [done|]. intros E. apply Hno. exists (drop (length b) s). rewrite <- E at 1. by rewrite take_drop.
  - rewrite <- app_assoc in *. rewrite length_app in Hf. destruct fuel as [|fuel]; [lia|]. cbn [strip_copies].
    rewrite take_app_length, bool_decide_eq_true_2, drop_app_length by done. apply IH; [lia|done].
Qed.
Lemma FindAndDelete_without_loop fuel b s1 pc result n : (0 < length b)%nat → (length pc ≤ fuel)%nat →
  ∃ r pc2 n', FindAndDelete_loop fuel b (s1 ++ pc) pc result n = Some (r, pc2, n') ∧ r ++ pc2 = result ++ s1 ++ without_copies fuel b pc ∧
    n ≤ n' ∧ (n' = n → without_copies fuel b pc = pc).
Proof.
  intros Hb. revert s1 pc result n. induction fuel as [|fuel IH]; intros s1 pc result n Hf; cbn [FindAndDelete_loop without_copies];
    rewrite take_prefix; destruct (skip_matches_spec (length pc) b pc n Hb ltac:(lia)) as (k & pc' & -> & Epc & Hno); cbn [mbind option_bind];
    replace (strip_copies (length pc) b pc) with pc' by (symmetry; rewrite Epc; by apply strip_copies_spec; [done|lia|]).
  - destruct pc; [|cbn in Hf; lia]. symmetry in Epc. apply app_eq_nil in Epc as [Ek ->]. cbn [GetOp2].
    eexists _, _, _. split; [done|]. rewrite !app_nil_r. split_and!; [done|lia|done].
  - assert (Hk : n + Z.of_nat k = n → pc' = pc) by (intros E; assert (k = 0%nat) as -> by lia; by rewrite Epc).
    destruct (GetOp2 pc') as [[[op data] rest]|] eqn:E.
    + pose proof (GetOp2_shorter _ _ _ _ E). destruct (GetOp2_suffix _ _ _ _ E) as [s2 E2].
      assert (length rest ≤ fuel)%nat by (rewrite Epc, length_app in Hf; lia).
      destruct (IH s2 rest (result ++ s1) (n + Z.of_nat k)) as (r & pc2 & n' & El & Er & Hn & Hsame); [done|].
      exists r, pc2, n'. rewrite <- E2 in El. split; [done|]. rewrite E2, take_prefix. split; [by rewrite Er, <- !app_assoc|]. split; [lia|].
      intros ->. rewrite Hsame by lia. rewrite <- E2. apply Hk. lia.
    + eexists _, _, _. split; [done|]. rewrite <- app_assoc. split_and!; [done|lia|done].
Qed.
Lemma FindAndDelete_without script b : (0 < length b)%nat → ∃ n, FindAndDelete script b = Some (without_copies (length script) b script, n).
Proof.
  intros Hb. unfold FindAndDelete. replace (length b =? 0)%nat with false by lia.
  destruct (FindAndDelete_without_loop (length script) b [] script [] 0 Hb ltac:(lia)) as (r & pc2 & n' & E & Er & Hn & Hsame). cbn [app] in E, Er. rewrite E. cbn [mbind option_bind].
  destruct (Z.gtb_spec n' 0); [exists n'; by rewrite Er|]. exists n'. by rewrite Hsame by lia.
Qed.
(** The script code that the signatures [sigs], from the top of the stack, are for. *)
Definition signed_code (sigversion : SigVersion) (code : bytes) (sigs : list bytes) : bytes :=
  if is_base sigversion then foldl (λ c s, without_copies (length c) (push_data [] s) c) code sigs else code.

(** ** Proofs: k of n signatures *)

(** Signatures are matched with keys in the same order. *)
Inductive matches (ok : bytes → bytes → bool) : list bytes → list bytes → Prop :=
  | matches_nil ks : matches ok [] ks
  | matches_skip sigs k ks : matches ok sigs ks → matches ok sigs (k :: ks)
  | matches_take s sigs k ks : ok s k = true → matches ok sigs ks → matches ok (s :: sigs) (k :: ks).
Fixpoint greedy (ok : bytes → bytes → bool) (sigs ks : list bytes) : bool :=
  match ks with
  | [] => match sigs with [] => true | _ => false end
  | k :: ks => match sigs with [] => true | s :: sigs' => if ok s k then greedy ok sigs' ks else greedy ok sigs ks end
  end.

Lemma matches_length ok sigs ks : matches ok sigs ks → (length sigs ≤ length ks)%nat.
Proof. induction 1; cbn; lia. Qed.
Lemma matches_tail ok s sigs ks : matches ok (s :: sigs) ks → matches ok sigs ks.
Proof.
  intros H. remember (s :: sigs) as l eqn:E. revert s sigs E. induction H; intros ? ? E; simplify_eq; [|by constructor].
  apply matches_skip. by eapply IHmatches.
Qed.
Lemma greedy_matches ok sigs ks : greedy ok sigs ks = true ↔ matches ok sigs ks.
Proof.
  revert sigs. induction ks as [|k ks IH]; intros [|s sigs]; cbn [greedy]; [by split; [constructor|]|by split; [|inversion 1]|by split; [constructor|]|].
  destruct (ok s k) eqn:E; rewrite IH; split; intros H.
  - by apply matches_take.
  - inversion H; subst; [by eapply matches_tail|done].
  - by apply matches_skip.
  - inversion H; subst; [done|congruence].
Qed.
Lemma greedy_long ok sigs ks : (length ks < length sigs)%nat → greedy ok sigs ks = false.
Proof.
  intros H. destruct (greedy ok sigs ks) eqn:E; [|done]. apply greedy_matches, matches_length in E. lia.
Qed.
Lemma matches_app ok a b c d : matches ok a b → matches ok c d → matches ok (a ++ c) (b ++ d).
Proof.
  intros Hab Hcd. induction Hab as [ks| |]; cbn [app]; [|by constructor..].
  induction ks; [done|by constructor].
Qed.
Lemma matches_rev ok sigs ks : matches ok sigs ks → matches ok (rev sigs) (rev ks).
Proof.
  induction 1 as [| |s sigs k ks]; cbn [rev]; [constructor| |].
  - rewrite <- (app_nil_r (rev sigs)). apply matches_app; [done|constructor].
  - apply matches_app; [done|]. apply matches_take; [done|constructor].
Qed.
Lemma matches_rev_iff ok sigs ks : matches ok (rev sigs) (rev ks) ↔ matches ok sigs ks.
Proof. split; [|apply matches_rev]. intros H. apply matches_rev in H. by rewrite !rev_involutive in H. Qed.

Lemma num_serialize flags v : Z.abs v < 2 ^ 31 → num flags (serialize_num v) = inr v.
Proof.
  intros Hv. destruct (set_vch_serialize v ltac:(lia)) as (Hb & Hm & Hs & Hl). specialize (Hl 4%nat ltac:(lia) ltac:(lia)).
  unfold num. destruct (fRequireMinimal flags).
  - rewrite (proj2 (proj1 (CScriptNum_minimal (serialize_num v) 4 Hb Hl)) Hm). by rewrite Hs.
  - unfold CScriptNum. replace (4 <? length (serialize_num v))%nat with false by lia. cbn [andb]. by rewrite Hs.
Qed.

Section Multisig.
Context `{BaseSignatureChecker} (CheckLowS : bytes → bool) (flags : Z) (sigversion : SigVersion).

Lemma stacktop_drop st i v r : (0 < i)%nat → drop (i - 1) st = v :: r → stacktop st i = inr v.
Proof.
  intros Hi E. unfold stacktop. replace (i - 1)%nat with (i - 1 + 0)%nat by lia. rewrite <- lookup_drop, E. done.
Qed.
Lemma drop_next {A} (l : list A) i v r : drop i l = v :: r → drop (S i) l = r.
Proof. intros E. replace (S i) with (i + 1)%nat by lia. rewrite <- drop_drop, E. done. Qed.

Lemma match_signatures_spec ok fuel st c isig ikey sigs keys r1 r2 :
  (length keys ≤ fuel)%nat → (length sigs ≤ length keys)%nat → (0 < isig)%nat → (0 < ikey)%nat →
  drop (isig - 1) st = sigs ++ r1 → drop (ikey - 1) st = keys ++ r2 →
  (∀ s, s ∈ sigs → CheckSignatureEncoding CheckLowS s flags = inr ()) →
  (∀ k, k ∈ keys → CheckPubKeyEncoding k flags sigversion = inr ()) →
  (∀ s k, s ∈ sigs → k ∈ keys → CheckSig s k c sigversion = Some (ok s k)) →
  match_signatures CheckLowS flags sigversion fuel st c isig ikey (length sigs) (length keys) = inr (greedy ok sigs keys).
Proof.
  revert isig ikey sigs keys. induction fuel as [|fuel IH]; intros isig ikey sigs keys Hf Hl Hi Hk E1 E2 Hs Hp Hc; cbn [match_signatures].
  { destruct keys; [|cbn in Hf; lia]. destruct sigs; [done|cbn in Hl; lia]. }
  destruct sigs as [|s sigs]; [by destruct keys|]. destruct keys as [|k keys]; [cbn in Hl; lia|]. cbn [length Nat.eqb].
  rewrite (stacktop_drop _ _ _ _ Hi E1), (stacktop_drop _ _ _ _ Hk E2). cbn [mbind run_bind].
  rewrite Hs, Hp, Hc by (by left). cbn [mbind run_bind or_crash greedy].
  replace (S (length sigs) - 1)%nat with (length sigs) by lia. replace (S (length keys) - 1)%nat with (length keys) by lia. cbn [length] in Hf, Hl.
  assert (E2' : drop (S ikey - 1) st = keys ++ r2) by (replace (S ikey - 1)%nat with (S (ikey - 1)) by lia; by eapply drop_next).
  destruct (ok s k).
  - destruct (Nat.ltb_spec (length keys) (length sigs)); [lia|]. apply IH; try done; try lia.
    + replace (S isig - 1)%nat with (S (isig - 1)) by lia. by eapply drop_next.
    + intros; apply Hs; by right.
    + intros; apply Hp; by right.
    + intros; apply Hc; by right.
  - destruct (Nat.ltb_spec (length keys) (S (length sigs))) as [Hlt|Hge].
    + by rewrite greedy_long by done.
    + apply (IH isig (S ikey) (s :: sigs) keys); try done; try lia.
      * intros; apply Hp; by right.
      * intros; apply Hc; [done|by right].
Qed.

Definition nonempty (v : bytes) : bool := negb (length v =? 0)%nat.
Lemma drop_arguments_spec n b i st : (n ≤ length st)%nat →
  drop_arguments flags n b i st =
  if negb b && has_flag flags SCRIPT_VERIFY_NULLFAIL && existsb nonempty (take (n - i) (drop i st))
  then fails SCRIPT_ERR_SIG_NULLFAIL else inr (drop n st).
Proof.
  revert i st. induction n as [|n IH]; intros i st Hn; cbn [drop_arguments].
  { cbn. by rewrite andb_false_r. }
  destruct st as [|x st]; [cbn in Hn; lia|]. cbn [length] in Hn. rewrite IH by lia. destruct i as [|i]; cbn [Nat.eqb drop].
  - replace (S n - 0)%nat with (S n) by lia. replace (0 - 1)%nat with 0%nat by lia. replace (n - 0)%nat with n by lia. cbn [take existsb].
    fold (nonempty x). destruct (negb b && has_flag flags SCRIPT_VERIFY_NULLFAIL); cbn [andb]; [|by destruct st].
    rewrite drop_0. by destruct (nonempty x).
  - rewrite andb_false_r. cbn [andb]. by replace (S i - 1)%nat with i by lia.
Qed.

Lemma delete_signatures_spec st isig c sigs r : drop (isig - 1) st = sigs ++ r → (0 < isig)%nat →
  delete_signatures sigversion st isig (length sigs) c = inr (signed_code sigversion c sigs).
Proof.
  unfold signed_code. revert isig c. induction sigs as [|v sigs IH]; intros isig c Hd Hi; cbn [length delete_signatures foldl]; [by destruct (is_base sigversion)|].
  rewrite (stacktop_drop _ _ _ _ Hi Hd). cbn [mbind run_bind]. assert (Hd' : drop (S isig - 1) st = sigs ++ r).
  { replace (S isig - 1)%nat with (S (isig - 1)) by lia. by eapply drop_next. }
  specialize (λ c, IH (S isig) c Hd' ltac:(lia)). destruct (is_base sigversion); [|cbn [mbind run_bind]; apply IH].
  unfold delete_signature. assert (Hp : (0 < length (push_data [] v))%nat).
  { unfold push_data. rewrite app_nil_l, length_app. repeat case_match; cbn; lia. }
  destruct (FindAndDelete_without c (push_data [] v) Hp) as [n ->]. cbn [or_crash mbind run_bind]. apply IH.
Qed.

(** C32. Multisignatures.  On a stack with [n] keys and [k] signatures below their
    counts and the extra element, where all encodings pass their checks,
    and the operations do not exceed their limit, OP_CHECKMULTISIG never fails to decide: it succeeds exactly when the
    signatures can be matched with keys in the same order, each valid for its
    key and the script code, although the loop tries each key only once and gives up early.  The script code is the script since the last
    separator, without the copies of the signatures unless the version is that of witness programs.  Success leaves true; failure
    leaves false, or is an error under NULLFAIL if some signature is not empty;
    the extra element must be empty under NULLDUMMY; the keys count as operations. *)
Theorem checkmultisig_correct (m : machine) (keys sigs : list bytes) (dummy : bytes) (rest : list bytes) :
  stack m = serialize_num (Z.of_nat (length keys)) :: rev keys ++ serialize_num (Z.of_nat (length sigs)) :: rev sigs ++ dummy :: rest →
  Z.of_nat (length keys) ≤ MAX_PUBKEYS_PER_MULTISIG → (length sigs ≤ length keys)%nat →
  nOpCount m + Z.of_nat (length keys) ≤ MAX_OPS_PER_SCRIPT →
  (∀ s, s ∈ sigs → CheckSignatureEncoding CheckLowS s flags = inr ()) →
  (∀ k, k ∈ keys → CheckPubKeyEncoding k flags sigversion = inr ()) →
  let code := signed_code sigversion (pbegincodehash m) (rev sigs) in
  (∀ s k, s ∈ sigs → k ∈ keys → is_Some (CheckSig s k code sigversion)) →
  ∃ fSuccess, (fSuccess = true ↔ matches (λ s k, bool_decide (CheckSig s k code sigversion = Some true)) sigs keys) ∧
    exec_checkmultisig CheckLowS flags sigversion OP_CHECKMULTISIG m =
      if negb fSuccess && has_flag flags SCRIPT_VERIFY_NULLFAIL && existsb nonempty (rev sigs) then fails SCRIPT_ERR_SIG_NULLFAIL
      else if has_flag flags SCRIPT_VERIFY_NULLDUMMY && nonempty dummy then fails SCRIPT_ERR_SIG_NULLDUMMY
      else inr (set_stack (set_ops m (nOpCount m + Z.of_nat (length keys))) (of_bool fSuccess :: rest)).
Proof.
  intros Hst Hk Hl Ho Hs Hp code Hc. unfold MAX_PUBKEYS_PER_MULTISIG in Hk.
  set (st := stack m) in *. assert (Hlen : length st = (3 + length keys + length sigs + length rest)%nat).
  { rewrite Hst. cbn. rewrite length_app, length_rev. cbn. rewrite length_app, length_rev. cbn. lia. }
  assert (E2 : drop 1 st = rev keys ++ serialize_num (Z.of_nat (length sigs)) :: rev sigs ++ dummy :: rest) by (by rewrite Hst).
  assert (E3 : drop (2 + length keys - 1) st = serialize_num (Z.of_nat (length sigs)) :: rev sigs ++ dummy :: rest).
  { replace (2 + length keys - 1)%nat with (1 + length keys)%nat by lia. rewrite <- drop_drop, E2. by rewrite <- (length_rev keys), drop_app_length. }
  assert (E4 : drop (3 + length keys - 1) st = rev sigs ++ dummy :: rest).
  { replace (3 + length keys - 1)%nat with (S (2 + length keys - 1)) by lia. by eapply drop_next. }
  assert (E5 : drop (3 + length keys + length sigs - 1) st = dummy :: rest).
  { replace (3 + length keys + length sigs - 1)%nat with (3 + length keys - 1 + length sigs)%nat by lia.
    rewrite <- drop_drop, E4. by rewrite <- (length_rev sigs), drop_app_length. }
  pose proof (delete_signatures_spec st (3 + length keys) (pbegincodehash m) (rev sigs) (dummy :: rest) E4 ltac:(lia)) as Ecode. rewrite length_rev in Ecode. fold code in Ecode.
  set (ok := λ s k, bool_decide (CheckSig s k code sigversion = Some true)).
  exists (greedy ok (rev sigs) (rev keys)). split; [by rewrite greedy_matches, matches_rev_iff|].
  unfold exec_checkmultisig. fold st. unfold require. replace (1 <=? length st)%nat with true by lia. cbn [mbind run_bind].
  rewrite (stacktop_drop st 1 _ _ ltac:(lia) Hst). cbn [mbind run_bind]. rewrite num_serialize by lia. cbn [mbind run_bind].
  assert (Hg : ∀ n, (n ≤ 20)%nat → getint (Z.of_nat n) = Z.of_nat n).
  { intros n Hn. unfold getint. replace (Z.of_nat n >? _) with false by lia. by replace (Z.of_nat n <? _) with false by lia. }
  rewrite Hg by lia. unfold MAX_PUBKEYS_PER_MULTISIG. replace ((_ <? 0) || _) with false by lia. cbn [negb mbind run_bind].
  replace (_ >? MAX_OPS_PER_SCRIPT) with false by lia. cbn [negb mbind run_bind]. rewrite Nat2Z.id.
  replace (2 + length keys <=? length st)%nat with true by lia. cbn [mbind run_bind].
  rewrite (stacktop_drop st (2 + length keys) _ _ ltac:(lia) E3). cbn [mbind run_bind]. rewrite num_serialize by lia. cbn [mbind run_bind].
  rewrite Hg by lia. replace ((_ <? 0) || _) with false by lia. cbn [negb mbind run_bind]. rewrite Nat2Z.id.
  replace (3 + length keys + length sigs <=? length st)%nat with true by lia. cbn [mbind run_bind].
  rewrite Ecode. cbn [mbind run_bind].
  pose proof (match_signatures_spec ok (length keys) st code (3 + length keys) 2 (rev sigs) (rev keys) (dummy :: rest)
    (serialize_num (Z.of_nat (length sigs)) :: rev sigs ++ dummy :: rest)) as Hmatch. rewrite !length_rev in Hmatch.
  rewrite Hmatch; [|lia|lia|lia|lia|exact E4|exact E2|..].
  - cbn [mbind run_bind]. rewrite drop_arguments_spec by lia.
    assert (Et : take (3 + length keys + length sigs - 1 - (length keys + 2)) (drop (length keys + 2) st) = rev sigs).
    { replace (length keys + 2)%nat with (3 + length keys - 1)%nat by lia. rewrite E4.
      replace (3 + length keys + length sigs - 1 - (3 + length keys - 1))%nat with (length (rev sigs)) by (rewrite length_rev; lia).
      apply take_app_length. }
    rewrite Et, E5. destruct (_ && existsb _ _); [done|]. cbn [mbind run_bind]. unfold nonempty.
    by destruct (has_flag flags SCRIPT_VERIFY_NULLDUMMY && _).
  - intros s Hin. apply Hs. by apply list_elem_of_In, in_rev, list_elem_of_In.
  - intros k Hin. apply Hp. by apply list_elem_of_In, in_rev, list_elem_of_In.
  - intros s k Hin Hin'. unfold ok. destruct (Hc s k) as [b E]; [by apply list_elem_of_In, in_rev, list_elem_of_In..|]. rewrite E.
    destruct b; [by rewrite bool_decide_eq_true_2|by rewrite bool_decide_eq_false_2].
Qed.
End Multisig.

(** ** Examples *)

(** A checker for which a signature is a copy of the key. *)
Definition checker_example : BaseSignatureChecker := {|
  CheckSig s k _ _ := Some (bool_decide (s = k)); CheckLockTime n := Some (n <=? 100); CheckSequence n := Some (n <=? 100) |}.
(** 2 3 ADD 5 EQUAL IF DUP ENDIF *)
Definition script_example : bytes :=
  [OP_2; OP_3; OP_ADD; OP_5; OP_EQUAL; OP_IF; OP_1; OP_DUP; OP_ENDIF].

Lemma eval_script_limits_witness :
  EvalScript (H := checker_example) (λ _, true) 0 SIGVERSION_BASE [[9]] script_example = EvalTrue [[1]; [1]; [9]] SCRIPT_ERR_OK ∧
  EvalScript (H := checker_example) (λ _, true) 0 SIGVERSION_BASE [] [OP_1; OP_CREATE; 7] = EvalTrue [[OP_CREATE; 7]; [1]] SCRIPT_ERR_UNKNOWN_ERROR ∧
  Forall (elem_upto MAX_SCRIPT_ELEMENT_SIZE) [[1]; [1]; [9]].
Proof.
  assert (Hs : bytes_ok script_example) by (by apply bytes_ok_compute).
  assert (Hst : Forall (elem_upto MAX_SCRIPT_ELEMENT_SIZE) [[9]]) by (apply list.Forall_singleton; split; [by apply bytes_ok_compute|done]).
  assert (E : EvalScript (H := checker_example) (λ _, true) 0 SIGVERSION_BASE [[9]] script_example = EvalTrue [[1]; [1]; [9]] SCRIPT_ERR_OK)
    by (vm_compute; reflexivity).
  split; [exact E|]. split; [vm_compute; reflexivity|].
  pose proof (eval_script_limits (H := checker_example) (λ _, true) 0 SIGVERSION_BASE (λ s k c v _, ex_intro _ _ eq_refl)
    (λ n, ex_intro _ _ eq_refl) (λ n, ex_intro _ _ eq_refl) [[9]] script_example Hst ltac:(done) Hs) as H.
  rewrite E in H. destruct H as [(_ & H & _)|(H & _)]; [exact H|discriminate H].
Defined.

(** The second and third key of three sign. *)
Definition multisig_example : machine :=
  mkMachine [serialize_num 3; [3]; [2]; [1]; serialize_num 2; [3]; [2]; []; [8]] [] [] 0 [].
(** A checker that looks at the script code too: the copies of the signatures must be gone. *)
Definition checker_code : BaseSignatureChecker := {|
  CheckSig s k c _ := Some (bool_decide (s = k) && bool_decide (c = [OP_DUP; OP_DROP])); CheckLockTime n := Some true; CheckSequence n := Some true |}.
Definition multisig_base : machine := mkMachine (stack multisig_example) [] [] 0 [1; 2; OP_DUP; 1; 3; 1; 2; OP_DROP].
Lemma checkmultisig_correct_witness :
  exec_checkmultisig (H := checker_code) (λ _, true) SCRIPT_VERIFY_NULLDUMMY SIGVERSION_BASE OP_CHECKMULTISIG multisig_base
    = inr (mkMachine [[1]; [8]] [] [] 3 [1; 2; OP_DUP; 1; 3; 1; 2; OP_DROP]) ∧
  matches (λ s k, bool_decide (s = k)) [[2]; [3]] [[1]; [2]; [3]].
Proof.
  destruct (checkmultisig_correct (H := checker_code) (λ _, true) SCRIPT_VERIFY_NULLDUMMY SIGVERSION_BASE multisig_base
    [[1]; [2]; [3]] [[2]; [3]] [] [[8]]) as (b & Hb & E).
  - reflexivity.
  - vm_compute. discriminate.
  - cbn. lia.
  - vm_compute. discriminate.
  - intros s Hs. reflexivity || (apply elem_of_cons in Hs as [->|Hs]; [reflexivity|]; apply list_elem_of_singleton in Hs as ->; reflexivity).
  - intros k Hk. reflexivity.
  - intros s k _ _. eexists. reflexivity.
  - assert (Hm : matches (λ s k, bool_decide (s = k)) [[2]; [3]] [[1]; [2]; [3]]).
    { apply matches_skip. apply matches_take; [reflexivity|]. apply matches_take; [reflexivity|]. constructor. }
    split; [|exact Hm]. replace b with true in E; [rewrite E; reflexivity|]. symmetry. apply Hb.
    apply greedy_matches. vm_compute. reflexivity.
Defined.
