(* ===== verification/SigHash.v ===== *)
(** * The signature hash (src/src/script/interpreter.cpp)

    What a signature commits to: [SignatureHash] with the serializer that
    modifies the transaction while writing it, and the hash of version 0 witness
    programs with its cache.  The reference for the first is the original algorithm, which
    the repository keeps in src/src/test/sighash_tests.cpp: it edits a copy of
    the transaction and serializes that. *)

From stdpp Require Import base numbers list option.
From Stdlib Require Import ZArith Lia ZifyNat ZifyBool.
From S2P Require Import Prelude StrEncodings Fips202 Hash Script Serialize Transaction Interpreter.

(** ** The serializer *)

(** Where the position is left when [GetOp] returns false. *)
Definition GetOp_stop (pc : bytes) : bytes :=
  match pc with
  | [] => []
  | opcode :: pc =>
      if opcode <=? OP_PUSHDATA4 then match operand_size opcode pc with Some (_, pc') => pc' | None => pc end else pc
  end.

Section Serializer.
Context (txTo : CTransaction) (scriptCode : bytes) (nIn : nat) (nHashType : Z).
Definition fAnyoneCanPay : bool := negb (Z.land nHashType SIGHASH_ANYONECANPAY =? 0).
Definition fHashSingle : bool := Z.land nHashType 0x1f =? SIGHASH_SINGLE.
Definition fHashNone : bool := Z.land nHashType 0x1f =? SIGHASH_NONE.

Fixpoint count_separators (fuel : nat) (it : bytes) (n : Z) : option Z :=
  match GetOp2 it with
  | None => Some n
  | Some (opcode, _, it) =>
      match fuel with
      | O => None
      | S fuel => count_separators fuel it (if opcode =? OP_CODESEPARATOR then n + 1 else n)
      end
  end.
(** The second loop: what is written, [itBegin] and [it] at its end. *)
Fixpoint write_pieces (fuel : nat) (itBegin it s : bytes) : option (bytes * bytes * bytes) :=
  match GetOp2 it with
  | None => Some (s, itBegin, GetOp_stop it)
  | Some (opcode, _, it) =>
      match fuel with
      | O => None
      | S fuel =>
          if opcode =? OP_CODESEPARATOR then write_pieces fuel it it (s ++ take (length itBegin - length it - 1) itBegin)
          else write_pieces fuel itBegin it s
      end
  end.
Definition SerializeScriptCode : option bytes :=
  nCodeSeparators ← count_separators (length scriptCode) scriptCode 0;
  '(s, itBegin, it) ← write_pieces (length scriptCode) scriptCode scriptCode [];
  Some (WriteCompactSize (Z.of_nat (length scriptCode) - nCodeSeparators) ++ s
        ++ (if (length itBegin =? 0)%nat then [] else take (length itBegin - length it) itBegin)).

(** [None] is an index out of range. *)
Definition SerializeInput (nInput : nat) : option bytes :=
  let nInput := if fAnyoneCanPay then nIn else nInput in
  i ← vin txTo !! nInput;
  script ← (if negb (nInput =? nIn)%nat then Some (enc blob_codec []) else SerializeScriptCode);
  Some (enc COutPoint_codec (prevout i) ++ script
        ++ (if negb (nInput =? nIn)%nat && (fHashSingle || fHashNone) then enc i32_codec 0 else enc u32_codec (nSequence i))).
Definition SerializeOutput (nOutput : nat) : option bytes :=
  if fHashSingle && negb (nOutput =? nIn)%nat then Some (enc CTxOut_codec CTxOut_null)
  else o ← vout txTo !! nOutput; Some (enc CTxOut_codec o).
Fixpoint serialize_each (f : nat → option bytes) (n k : nat) : option bytes :=
  match k with
  | O => Some []
  | S k => b ← f n; r ← serialize_each f (S n) k; Some (b ++ r)
  end.
Definition SerializeForSignature : option bytes :=
  let nInputs := if fAnyoneCanPay then 1%nat else length (vin txTo) in
  let nOutputs := if fHashNone then 0%nat else if fHashSingle then (nIn + 1)%nat else length (vout txTo) in
  ins ← serialize_each SerializeInput 0 nInputs;
  outs ← serialize_each SerializeOutput 0 nOutputs;
  Some (enc i32_codec (nVersion txTo) ++ WriteCompactSize (Z.of_nat nInputs) ++ ins
        ++ WriteCompactSize (Z.of_nat nOutputs) ++ outs ++ enc u32_codec (nLockTime txTo)).
End Serializer.

(** ** The hashes of version 0 witness programs *)
Definition GetPrevoutHash (txTo : CTransaction) : option bytes :=
  Hashes.SerializeHash (map (λ i, enc COutPoint_codec (prevout i)) (vin txTo)).
Definition GetSequenceHash (txTo : CTransaction) : option bytes :=
  Hashes.SerializeHash (map (λ i, enc u32_codec (nSequence i)) (vin txTo)).
Definition GetOutputsHash (txTo : CTransaction) : option bytes :=
  Hashes.SerializeHash (map (enc CTxOut_codec) (vout txTo)).
Record PrecomputedTransactionData := mkPrecomputed { hashPrevouts : bytes; hashSequence : bytes; hashOutputs : bytes }.
Definition new_PrecomputedTransactionData (txTo : CTransaction) : option PrecomputedTransactionData :=
  p ← GetPrevoutHash txTo; q ← GetSequenceHash txTo; o ← GetOutputsHash txTo; Some (mkPrecomputed p q o).

Definition uint256_one : bytes := uint256S (replicate 63 48 ++ [49]).

(** [None] is undefined behaviour, or a write too long for the hasher. *)
Definition SignatureHash (scriptCode : bytes) (txTo : CTransaction) (nIn : nat) (nHashType amount : Z) (sigversion : SigVersion)
    (cache : option PrecomputedTransactionData) : option bytes :=
  let any := fAnyoneCanPay nHashType in
  let single := fHashSingle nHashType in
  let none := fHashNone nHashType in
  if negb (is_base sigversion) then
    prevouts ← (if negb any then match cache with Some c => Some (hashPrevouts c) | None => GetPrevoutHash txTo end
                else Some uint256_null);
    sequence ← (if negb any && negb single && negb none then match cache with Some c => Some (hashSequence c) | None => GetSequenceHash txTo end
                else Some uint256_null);
    outputs ← (if negb single && negb none then match cache with Some c => Some (hashOutputs c) | None => GetOutputsHash txTo end
               else if single then
                 match vout txTo !! nIn with Some o => Hashes.SerializeHash [enc CTxOut_codec o] | None => Some uint256_null end
               else Some uint256_null);
    i ← vin txTo !! nIn;
    Hashes.SerializeHash
      [enc i32_codec (nVersion txTo); enc uint256_codec prevouts; enc uint256_codec sequence;
       enc COutPoint_codec (prevout i); enc blob_codec scriptCode; enc i64_codec amount; enc u32_codec (nSequence i);
       enc uint256_codec outputs; enc u32_codec (nLockTime txTo); enc i32_codec nHashType]
  else if (length (vin txTo) <=? nIn)%nat then Some uint256_one
  else if single && (length (vout txTo) <=? nIn)%nat then Some uint256_one
  else
    txTmp ← SerializeForSignature txTo scriptCode nIn nHashType;
    Hashes.SerializeHash [txTmp; enc i32_codec nHashType].

(** ** The original algorithm (src/src/test/sighash_tests.cpp) *)
Definition blank_input (nIn : nat) (scriptCode : bytes) (reset : bool) (k : nat) (i : CTxIn) : CTxIn :=
  mkCTxIn (prevout i) (if (k =? nIn)%nat then scriptCode else [])
    (if reset && negb (k =? nIn)%nat then 0 else nSequence i) (scriptWitness i).
Definition SignatureHashOld (scriptCode : bytes) (txTo : CTransaction) (nIn : nat) (nHashType : Z) : option bytes :=
  if (length (vin txTo) <=? nIn)%nat then Some uint256_one
  else
    '(scriptCode, _) ← FindAndDelete scriptCode [OP_CODESEPARATOR];
    let none := fHashNone nHashType in
    let single := fHashSingle nHashType in
    if single && (length (vout txTo) <=? nIn)%nat then Some uint256_one
    else
      let vin' := imap (blank_input nIn scriptCode (none || single)) (vin txTo) in
      let vout' := if none then []
                   else if single then replicate nIn CTxOut_null ++ take 1 (drop nIn (vout txTo))
                   else vout txTo in
      vin' ← (if fAnyoneCanPay nHashType then i ← vin' !! nIn; Some [i] else Some vin');
      Hashes.SerializeHash [SerializeTransaction false (mkCTransaction (nVersion txTo) vin' vout' (nLockTime txTo)); enc i32_codec nHashType].

(** ** Proofs: separators *)
Definition is_separator (o : Z * bytes) : bool := fst o =? OP_CODESEPARATOR.
Definition keep (l : list (Z * bytes)) : list (Z * bytes) := filter (λ o, is_separator o = false) l.
Definition separators (l : list (Z * bytes)) : Z := Z.of_nat (length (filter (λ o, is_separator o = true) l)).
Abbreviation ops_ok l := (Forall (λ o : Z * bytes, op_ok (fst o) (snd o)) l).

Lemma print_cons o l : print_ops (o :: l) = op_bytes (fst o) (snd o) ++ print_ops l.
Proof. done. Qed.
Lemma keep_cons o l : keep (o :: l) = if is_separator o then keep l else o :: keep l.
Proof. unfold keep. rewrite filter_cons. destruct (is_separator o); [by rewrite decide_False|by rewrite decide_True]. Qed.
Lemma separators_cons o l : separators (o :: l) = (if is_separator o then 1 else 0) + separators l.
Proof.
  unfold separators. rewrite filter_cons. destruct (is_separator o); [rewrite decide_True by done|rewrite decide_False by done]; cbn [length]; lia.
Qed.
Lemma separators_nil : separators [] = 0.
Proof. done. Qed.
Lemma separator_bytes o : op_ok (fst o) (snd o) → is_separator o = true → op_bytes (fst o) (snd o) = [OP_CODESEPARATOR].
Proof. destruct o as [op data]. unfold is_separator. cbn [fst snd]. intros (_ & _ & Hd) ->%Z.eqb_eq. cbn in Hd. by subst data. Qed.
Lemma op_bytes_head o : ∃ r, op_bytes (fst o) (snd o) = fst o :: r.
Proof. by eexists. Qed.
Lemma GetOp2_ops o l : op_ok (fst o) (snd o) → GetOp2 (print_ops (o :: l)) = Some (fst o, snd o, print_ops l).
Proof. intros Ho. rewrite print_cons. by apply GetOp2_op_bytes. Qed.
Lemma print_length o l : (length (print_ops l) < length (print_ops (o :: l)))%nat.
Proof. rewrite print_cons, length_app. destruct (op_bytes_head o) as [r ->]. cbn. lia. Qed.

Lemma count_separators_spec l fuel n : ops_ok l → (length (print_ops l) ≤ fuel)%nat →
  count_separators fuel (print_ops l) n = Some (n + separators l).
Proof.
  revert fuel n. induction l as [|o l IH]; intros fuel n Hl Hf.
  { destruct fuel; cbn; f_equal; change (separators []) with 0; lia. }
  apply list.Forall_cons in Hl as [Ho Hl]. pose proof (print_length o l). destruct fuel as [|fuel]; [lia|].
  cbn [count_separators]. rewrite (GetOp2_ops o l Ho), separators_cons. unfold is_separator at 1.
  rewrite IH by (done || lia). f_equal. destruct (fst o =? OP_CODESEPARATOR); lia.
Qed.
Lemma write_pieces_spec l fuel s1 s : ops_ok l → (length (print_ops l) ≤ fuel)%nat →
  ∃ s' ib, write_pieces fuel (s1 ++ print_ops l) (print_ops l) s = Some (s', ib, []) ∧ s' ++ ib = s ++ s1 ++ print_ops (keep l).
Proof.
  revert fuel s1 s. induction l as [|o l IH]; intros fuel s1 s Hl Hf.
  { exists s, s1. change (print_ops []) with (@nil Z). change (print_ops (keep [])) with (@nil Z). rewrite app_nil_r. by destruct fuel. }
  apply list.Forall_cons in Hl as [Ho Hl]. pose proof (print_length o l). destruct fuel as [|fuel]; [lia|].
  cbn [write_pieces]. rewrite (GetOp2_ops o l Ho), keep_cons. unfold is_separator at 1.
  destruct (fst o =? OP_CODESEPARATOR) eqn:E.
  - destruct (IH fuel [] (s ++ s1) Hl ltac:(lia)) as (s' & ib & E1 & E2). cbn [app] in E1. exists s', ib.
    rewrite print_cons, (separator_bytes o Ho E).
    replace (take _ (s1 ++ [OP_CODESEPARATOR] ++ print_ops l)) with s1; [by rewrite <- app_assoc in E2|].
    rewrite !length_app. cbn [length]. replace (length s1 + (1 + length (print_ops l)) - length (print_ops l) - 1)%nat with (length s1) by lia.
    by rewrite take_app_length.
  - destruct (IH fuel (s1 ++ op_bytes (fst o) (snd o)) s Hl ltac:(lia)) as (s' & ib & E1 & E2). exists s', ib.
    rewrite !print_cons, app_assoc. split; [done|]. by rewrite E2, <- !app_assoc.
Qed.
Lemma keep_length l : ops_ok l → Z.of_nat (length (print_ops (keep l))) = Z.of_nat (length (print_ops l)) - separators l.
Proof.
  induction l as [|o l IH]; intros Hl; [done|]. apply list.Forall_cons in Hl as [Ho Hl]. specialize (IH Hl).
  rewrite keep_cons, separators_cons, print_cons, length_app. destruct (is_separator o) eqn:E.
  - rewrite (separator_bytes o Ho E). cbn [length]. lia.
  - rewrite print_cons, length_app. lia.
Qed.
Lemma SerializeScriptCode_spec l : ops_ok l → SerializeScriptCode (print_ops l) = Some (enc blob_codec (print_ops (keep l))).
Proof.
  intros Hl. unfold SerializeScriptCode. rewrite (count_separators_spec l) by done. cbn [mbind option_bind].
  destruct (write_pieces_spec l (length (print_ops l)) [] [] Hl ltac:(done)) as (s' & ib & E1 & E). cbn [app] in E1, E. rewrite E1. cbn [mbind option_bind length].
  rewrite Nat.sub_0_r, take_ge by done. replace (if (length ib =? 0)%nat then [] else ib) with ib by (by destruct ib).
  rewrite E, Z.add_0_l, <- keep_length by done. done.
Qed.

Fixpoint drop_separators (l : list (Z * bytes)) : list (Z * bytes) :=
  match l with [] => [] | o :: l' => if is_separator o then drop_separators l' else l end.
Lemma drop_separators_keep l : keep (drop_separators l) = keep l.
Proof. induction l as [|o l IH]; [done|]. cbn [drop_separators]. rewrite (keep_cons o l). destruct (is_separator o) eqn:E; [done|]. by rewrite keep_cons, E. Qed.
Lemma drop_separators_ok l : ops_ok l → ops_ok (drop_separators l).
Proof. induction l as [|o l IH]; [done|]. intros Hl. cbn [drop_separators]. destruct (is_separator o); [|done]. apply IH. by inversion Hl. Qed.
Lemma drop_separators_length l : (length (drop_separators l) ≤ length l)%nat.
Proof. induction l as [|o l IH]; [done|]. cbn [drop_separators]. destruct (is_separator o); cbn [length]; lia. Qed.
Lemma skip_separators l fuel n : ops_ok l → (length (print_ops l) ≤ fuel)%nat →
  skip_matches fuel [OP_CODESEPARATOR] (print_ops l) n = Some (print_ops (drop_separators l), n + separators l - separators (drop_separators l)).
Proof.
  revert fuel n. induction l as [|o l IH]; intros fuel n Hl Hf.
  { destruct fuel; cbn; do 2 f_equal; change (separators []) with 0; lia. }
  apply list.Forall_cons in Hl as [Ho Hl]. pose proof (print_length o l) as Hlen. destruct fuel as [|fuel]; [lia|].
  cbn [skip_matches drop_separators length]. rewrite separators_cons. destruct (is_separator o) eqn:E.
  - rewrite print_cons, (separator_bytes o Ho E). cbn [app length take drop]. rewrite bool_decide_eq_true_2 by done. cbn [Nat.leb andb].
    rewrite IH by (done || lia). do 2 f_equal. lia.
  - rewrite bool_decide_eq_false_2.
    + rewrite andb_false_r, separators_cons, E. do 2 f_equal. lia.
    + rewrite print_cons. destruct (op_bytes_head o) as [r ->]. cbn. intros [= Eo]. unfold is_separator in E. rewrite Eo in E. done.
Qed.
Lemma FindAndDelete_separators_loop k l fuel s1 result n :
  (length l ≤ k)%nat → ops_ok l → (length (print_ops l) ≤ fuel)%nat →
  ∃ r pc2, FindAndDelete_loop fuel [OP_CODESEPARATOR] (s1 ++ print_ops l) (print_ops l) result n = Some (r, pc2, n + separators l) ∧
    r ++ pc2 = result ++ s1 ++ print_ops (keep l).
Proof.
  revert l fuel s1 result n. induction k as [|k IH]; intros l fuel s1 result n Hk Hl Hf.
  - destruct l; [|cbn in Hk; lia]. exists (result ++ s1), []. change (print_ops []) with (@nil Z). rewrite !app_nil_r.
    destruct fuel; cbn [FindAndDelete_loop length]; rewrite Nat.sub_0_r, take_ge by done; cbn; (split; [by rewrite separators_nil, Z.add_0_r|by rewrite ?app_nil_r]).
  - pose proof (drop_separators_ok l Hl) as Hok. pose proof (drop_separators_length l) as Hdl.
    pose proof (skip_separators l (length (print_ops l)) n Hl ltac:(done)) as Hskip.
    assert (Hpl : (length (print_ops (drop_separators l)) ≤ length (print_ops l))%nat).
    { clear. induction l as [|o l IH]; [done|]. cbn [drop_separators]. destruct (is_separator o); [|done]. pose proof (print_length o l). lia. }
    destruct (drop_separators l) as [|o l'] eqn:Ed.
    + exists (result ++ s1), []. rewrite <- (drop_separators_keep l), Ed. change (print_ops (keep [])) with (@nil Z). rewrite !app_nil_r.
      split; [|done].
      destruct fuel; cbn [FindAndDelete_loop]; rewrite take_prefix, Hskip; cbn; by rewrite separators_nil, Z.sub_0_r.
    + apply list.Forall_cons in Hok as [Ho Hok]. pose proof (print_length o l'). destruct fuel as [|fuel]; [lia|].
      assert (Eo : is_separator o = false).
      { clear -Ed. induction l as [|o' l IH]; [done|]. cbn in Ed. destruct (is_separator o') eqn:E; [by apply IH|]. by injection Ed as -> ->. }
      cbn [FindAndDelete_loop]. rewrite take_prefix, Hskip. cbn [mbind option_bind]. rewrite (GetOp2_ops o l' Ho).
      destruct (IH l' fuel (op_bytes (fst o) (snd o)) (result ++ s1) (n + separators l - separators (o :: l'))) as (r & pc2 & E1 & E2);
        [cbn in *; lia|done|lia|]. exists r, pc2. rewrite <- print_cons in E1. rewrite E1. split; [do 2 f_equal; rewrite (separators_cons o l'), Eo; lia|].
      rewrite E2, <- (drop_separators_keep l), Ed, keep_cons, Eo, print_cons. by rewrite <- !app_assoc.
Qed.
Lemma keep_id l : separators l = 0 → keep l = l.
Proof.
  induction l as [|o l IH]; [done|]. rewrite separators_cons, keep_cons. unfold separators. destruct (is_separator o); [lia|].
  intros H. by rewrite IH.
Qed.
Lemma FindAndDelete_separators l : ops_ok l →
  FindAndDelete (print_ops l) [OP_CODESEPARATOR] = Some (print_ops (keep l), separators l).
Proof.
  intros Hl. unfold FindAndDelete. cbn [length Nat.eqb].
  destruct (FindAndDelete_separators_loop (length l) l (length (print_ops l)) [] [] 0) as (r & pc2 & E1 & E2); [done..|].
  cbn [app] in *. rewrite E1. cbn [mbind option_bind]. rewrite Z.add_0_l. destruct (separators l >? 0) eqn:E; [by rewrite E2|].
  assert (Hz : separators l = 0) by (unfold separators in *; lia). by rewrite Hz, keep_id.
Qed.

(** ** Proofs: the transaction as it is signed *)
Lemma serialize_each_spec {A} (f : nat → option bytes) (h : A → bytes) (l : list A) n :
  (∀ j x, l !! j = Some x → f (n + j)%nat = Some (h x)) →
  serialize_each f n (length l) = Some (concat (map h l)).
Proof.
  revert n. induction l as [|x l IH]; intros n Hf; [done|]. cbn [serialize_each length map concat].
  rewrite <- (Nat.add_0_r n) at 1. rewrite (Hf 0%nat x) by done. cbn [mbind option_bind].
  rewrite IH; [done|]. intros j y Hj. rewrite <- (Hf (S j) y) by done. f_equal. lia.
Qed.

(** The transaction whose serialization is hashed. *)
Definition tx_signed (tx : CTransaction) (code : bytes) (nIn : nat) (ty : Z) : CTransaction :=
  mkCTransaction (nVersion tx)
    (let v := imap (blank_input nIn code (fHashNone ty || fHashSingle ty)) (vin tx) in
     if fAnyoneCanPay ty then match v !! nIn with Some i => [i] | None => [] end else v)
    (if fHashNone ty then [] else if fHashSingle ty then replicate nIn CTxOut_null ++ take 1 (drop nIn (vout tx)) else vout tx)
    (nLockTime tx).

Lemma CTxIn_enc i : enc CTxIn_codec i = enc COutPoint_codec (prevout i) ++ enc blob_codec (scriptSig i) ++ enc u32_codec (nSequence i).
Proof. done. Qed.
Lemma single_not_none ty : fHashSingle ty = true → fHashNone ty = false.
Proof. unfold fHashSingle, fHashNone. intros ->%Z.eqb_eq. done. Qed.

Lemma SerializeInput_spec tx l nIn ty k i : ops_ok l →
  vin tx !! (if fAnyoneCanPay ty then nIn else k) = Some i →
  SerializeInput tx (print_ops l) nIn ty k =
    Some (enc CTxIn_codec (blank_input nIn (print_ops (keep l)) (fHashNone ty || fHashSingle ty) (if fAnyoneCanPay ty then nIn else k) i)).
Proof.
  intros Hl Hi. unfold SerializeInput. rewrite Hi. cbn [mbind option_bind]. rewrite CTxIn_enc. unfold blank_input.
  cbn [prevout scriptSig nSequence]. set (n := if fAnyoneCanPay ty then nIn else k). destruct (n =? nIn)%nat; cbn [negb andb].
  - rewrite SerializeScriptCode_spec by done. cbn [mbind option_bind]. by rewrite andb_false_r.
  - cbn [mbind option_bind]. rewrite andb_true_r, (orb_comm (fHashSingle ty)). by destruct (_ || _).
Qed.
Lemma SerializeForSignature_spec tx l nIn ty : ops_ok l → (nIn < length (vin tx))%nat →
  (fHashSingle ty = true → (nIn < length (vout tx))%nat) →
  SerializeForSignature tx (print_ops l) nIn ty = Some (SerializeTransaction false (tx_signed tx (print_ops (keep l)) nIn ty)).
Proof.
  intros Hl Hn Hs. unfold SerializeForSignature. set (t := tx_signed tx _ _ _).
  assert (Hin : serialize_each (SerializeInput tx (print_ops l) nIn ty) 0 (if fAnyoneCanPay ty then 1%nat else length (vin tx))
                = Some (concat (map (enc CTxIn_codec) (vin t))) ∧
                (if fAnyoneCanPay ty then 1%nat else length (vin tx)) = length (vin t)).
  { subst t. unfold tx_signed. cbn [vin]. destruct (fAnyoneCanPay ty) eqn:Ea.
    - destruct (lookup_lt_is_Some_2 (vin tx) nIn Hn) as [i Hi]. rewrite list_lookup_imap, Hi. cbn [fmap option_fmap option_map]. split; [|done].
      apply (serialize_each_spec _ _ [_]). intros [|j] x; [|done]. intros [= <-].
      pose proof (SerializeInput_spec tx l nIn ty (0 + 0) i Hl) as H. rewrite Ea in H. by apply H.
    - rewrite <- (length_imap (blank_input nIn (print_ops (keep l)) (fHashNone ty || fHashSingle ty)) (vin tx)) at 1 2. split; [|done].
      apply serialize_each_spec. intros j x. rewrite list_lookup_imap. destruct (vin tx !! j) as [i|] eqn:Ei; [|done]. intros [= <-].
      pose proof (SerializeInput_spec tx l nIn ty (0 + j) i Hl) as H. rewrite Ea in H. by apply H. }
  assert (Hout : serialize_each (SerializeOutput tx nIn ty) 0 (if fHashNone ty then 0%nat else if fHashSingle ty then (nIn + 1)%nat else length (vout tx))
                = Some (concat (map (enc CTxOut_codec) (vout t))) ∧
                (if fHashNone ty then 0%nat else if fHashSingle ty then (nIn + 1)%nat else length (vout tx)) = length (vout t)).
  { subst t. unfold tx_signed. cbn [vout]. destruct (fHashNone ty) eqn:En; [done|]. destruct (fHashSingle ty) eqn:Es.
    - specialize (Hs eq_refl). destruct (lookup_lt_is_Some_2 (vout tx) nIn Hs) as [o Ho].
      rewrite (drop_S _ _ _ Ho). cbn [take]. split; [|by rewrite length_app, length_replicate].
      replace (nIn + 1)%nat with (length (replicate nIn CTxOut_null ++ [o])) by (by rewrite length_app, length_replicate).
      apply serialize_each_spec. intros j x Hj. unfold SerializeOutput. rewrite Es. cbn [Nat.add andb].
      apply lookup_app_Some in Hj as [Hj|[Hj1 Hj2]].
      + apply lookup_replicate in Hj as [-> Hj]. by rewrite (proj2 (Nat.eqb_neq _ _)) by lia.
      + rewrite length_replicate in *. apply list_lookup_singleton_Some in Hj2 as [Hj2 ->]. replace j with nIn by lia. by rewrite Nat.eqb_refl, Ho.
    - split; [|done]. apply serialize_each_spec. intros j x Hj. unfold SerializeOutput. rewrite Es. cbn [Nat.add andb]. by rewrite Hj. }
  destruct Hin as [-> ->]. destruct Hout as [-> ->]. cbn [mbind option_bind]. unfold SerializeTransaction. cbn [andb Z.eqb negb app].
  unfold vin_codec, vout_codec. cbn [enc vector_codec]. unfold ser_vector. by rewrite <- !app_assoc.
Qed.

(** C34. The legacy signature hash against the original algorithm.  For script
    code whose instructions can all be read, hashing the transaction through the
    serializer that edits it on the fly gives the hash that the original
    algorithm computes on an edited copy: the separators removed from the script code, the
    other inputs' scripts blanked, the sequences, the outputs and the other
    inputs cut as the hash type says, and the constant one where the input, or
    its output under [SIGHASH_SINGLE], does not exist. *)
Theorem sighash_reference (scriptCode : bytes) (txTo : CTransaction) (nIn : nat) (nHashType amount : Z)
    (cache : option PrecomputedTransactionData) :
  bytes_ok scriptCode → snd (script_ops (length scriptCode) scriptCode) = [] →
  SignatureHash scriptCode txTo nIn nHashType amount SIGVERSION_BASE cache = SignatureHashOld scriptCode txTo nIn nHashType.
Proof.
  intros Hb Hs. pose proof (script_ops_spec (length scriptCode) scriptCode Hb ltac:(done)) as H.
  destruct (script_ops (length scriptCode) scriptCode) as [l r]. cbn in Hs. subst r. destruct H as (E & Hl & _). rewrite app_nil_r in E. subst scriptCode.
  unfold SignatureHash, SignatureHashOld. change (is_base SIGVERSION_BASE) with true. cbn [negb].
  destruct (length (vin txTo) <=? nIn)%nat eqn:En; [done|]. rewrite FindAndDelete_separators by done. cbn [mbind option_bind].
  destruct (fHashSingle nHashType && (length (vout txTo) <=? nIn)%nat) eqn:Eo; [done|].
  rewrite SerializeForSignature_spec; [|done|lia|intros Es; rewrite Es in Eo; cbn in Eo; lia]. cbn [mbind option_bind].
  unfold tx_signed. destruct (fAnyoneCanPay nHashType); [|done].
  destruct (lookup_lt_is_Some_2 (vin txTo) nIn ltac:(lia)) as [i Hi]. by rewrite list_lookup_imap, Hi.
Qed.

Definition sighash_tx : CTransaction :=
  mkCTransaction 2
    [mkCTxIn (mkCOutPoint (replicate 32 7) 0) [] 5 []; mkCTxIn (mkCOutPoint (replicate 32 8) 1) [0x51] 6 [[1]]]
    [mkCTxOut 50 [0x51]; mkCTxOut 7 []] 0.
Lemma sighash_reference_witness :
  SignatureHash [OP_CODESEPARATOR; OP_DUP; OP_CODESEPARATOR] sighash_tx 1 (SIGHASH_SINGLE + SIGHASH_ANYONECANPAY) 0 SIGVERSION_BASE None =
  SignatureHashOld [OP_CODESEPARATOR; OP_DUP; OP_CODESEPARATOR] sighash_tx 1 (SIGHASH_SINGLE + SIGHASH_ANYONECANPAY).
Proof. apply (sighash_reference _ sighash_tx 1 _ 0 None); [by apply u8sb_ok|reflexivity]. Defined.

(** ** Proofs: what a version 0 signature commits to *)
Record commitment := mkCommitment {
  c_version : Z; c_prevouts : option (list COutPoint); c_sequences : option (list Z); c_prevout : COutPoint; c_code : bytes;
  c_amount : Z; c_sequence : Z; c_outputs : option (list CTxOut); c_locktime : Z; c_type : Z }.
Definition signed_view (code : bytes) (tx : CTransaction) (nIn : nat) (ty amount : Z) : option commitment :=
  i ← vin tx !! nIn;
  Some (mkCommitment (nVersion tx)
    (if fAnyoneCanPay ty then None else Some (map prevout (vin tx)))
    (if fAnyoneCanPay ty || fHashSingle ty || fHashNone ty then None else Some (map nSequence (vin tx)))
    (prevout i) code amount (nSequence i)
    (if fHashSingle ty then option_map (λ o, [o]) (vout tx !! nIn) else if fHashNone ty then None else Some (vout tx))
    (nLockTime tx) ty).
Definition hash_list {A} (c : codec A) (l : option (list A)) : option bytes :=
  match l with Some l => Hashes.SerializeHash (map (enc c) l) | None => Some uint256_null end.
Definition preimage_codec :=
  pair_codec i32_codec (pair_codec uint256_codec (pair_codec uint256_codec (pair_codec COutPoint_codec (pair_codec blob_codec
    (pair_codec i64_codec (pair_codec u32_codec (pair_codec uint256_codec (pair_codec u32_codec i32_codec)))))))).
Definition preimage_fields (p q o : bytes) (v : commitment) :=
  (c_version v, (p, (q, (c_prevout v, (c_code v, (c_amount v, (c_sequence v, (o, (c_locktime v, c_type v))))))))).
Definition preimage (v : commitment) : option bytes :=
  p ← hash_list COutPoint_codec (c_prevouts v); q ← hash_list u32_codec (c_sequences v); o ← hash_list CTxOut_codec (c_outputs v);
  Some (enc preimage_codec (preimage_fields p q o v)).
Definition list_message {A} (c : codec A) (l : option (list A)) : list bytes :=
  match l with Some l => [concat (map (enc c) l)] | None => [] end.
(** The messages that are hashed. *)
Definition messages (v : commitment) : list bytes :=
  list_message COutPoint_codec (c_prevouts v) ++ list_message u32_codec (c_sequences v) ++ list_message CTxOut_codec (c_outputs v)
  ++ match preimage v with Some m => [m] | None => [] end.
Definition view_ok (v : commitment) : Prop :=
  enc_ok i32_codec (c_version v) ∧ Forall (enc_ok COutPoint_codec) (default [] (c_prevouts v)) ∧
  Forall (enc_ok u32_codec) (default [] (c_sequences v)) ∧ enc_ok COutPoint_codec (c_prevout v) ∧ enc_ok blob_codec (c_code v) ∧
  enc_ok i64_codec (c_amount v) ∧ enc_ok u32_codec (c_sequence v) ∧ Forall (enc_ok CTxOut_codec) (default [] (c_outputs v)) ∧
  enc_ok u32_codec (c_locktime v) ∧ enc_ok i32_codec (c_type v) ∧ Forall (λ m, Z.of_nat (length m) < 2 ^ 32) (messages v).
(** No two of the messages collide, and none hashes to zero. *)
Definition collision_free (ms : list bytes) : Prop :=
  (∀ m m', In m ms → In m' ms → Hashes.SerializeHash [m] = Hashes.SerializeHash [m'] → m = m') ∧ (∀ m, In m ms → Hashes.SerializeHash [m] ≠ Some uint256_null).
Definition cache_of (cache : option PrecomputedTransactionData) (tx : CTransaction) : Prop :=
  match cache with Some c => new_PrecomputedTransactionData tx = Some c | None => True end.

#[global] Instance preimage_serializable : Serializable preimage_codec.
Proof. apply _. Qed.

Lemma SignatureHash_v0 code tx nIn ty amount cache v : cache_of cache tx →
  signed_view code tx nIn ty amount = Some v →
  SignatureHash code tx nIn ty amount SIGVERSION_WITNESS_V0 cache =
    p ← hash_list COutPoint_codec (c_prevouts v); q ← hash_list u32_codec (c_sequences v); o ← hash_list CTxOut_codec (c_outputs v);
    Hashes.SerializeHash
      [enc i32_codec (c_version v); enc uint256_codec p; enc uint256_codec q; enc COutPoint_codec (c_prevout v); enc blob_codec (c_code v);
       enc i64_codec (c_amount v); enc u32_codec (c_sequence v); enc uint256_codec o; enc u32_codec (c_locktime v); enc i32_codec (c_type v)].
Proof.
  intros Hc. unfold signed_view, SignatureHash. change (is_base SIGVERSION_WITNESS_V0) with false. cbn [negb].
  destruct (vin tx !! nIn) as [i|]; [|done]. intros [= <-].
  cbn [c_version c_prevouts c_sequences c_prevout c_code c_amount c_sequence c_outputs c_locktime c_type mbind option_bind].
  assert (Hp : match cache with Some c => Some (hashPrevouts c) | None => GetPrevoutHash tx end = GetPrevoutHash tx ∧
    match cache with Some c => Some (hashSequence c) | None => GetSequenceHash tx end = GetSequenceHash tx ∧
    match cache with Some c => Some (hashOutputs c) | None => GetOutputsHash tx end = GetOutputsHash tx).
  { destruct cache as [c|]; [|done]. cbn in Hc. unfold new_PrecomputedTransactionData in Hc.
    destruct (GetPrevoutHash tx), (GetSequenceHash tx), (GetOutputsHash tx); try done. by injection Hc as <-. }
  destruct Hp as (-> & -> & ->). unfold GetPrevoutHash, GetSequenceHash, GetOutputsHash.
  rewrite <- (map_map prevout), <- (map_map nSequence).
  destruct (fAnyoneCanPay ty), (fHashSingle ty), (fHashNone ty); cbn [negb andb orb hash_list]; try done; by destruct (vout tx !! nIn).
Qed.
Lemma enc_cancel {A} (c : codec A) `{!Serializable c} a b r r' : enc_ok c a → enc_ok c b → enc c a ++ r = enc c b ++ r' → a = b ∧ r = r'.
Proof. intros Ha Hb E. pose proof (enc_dec a r Ha) as Ea. rewrite E, (enc_dec b r' Hb) in Ea. by injection Ea as -> ->. Qed.
Lemma concat_enc_inj {A} (c : codec A) `{!Serializable c} l l' : (∀ a, enc_ok c a → enc c a ≠ []) →
  Forall (enc_ok c) l → Forall (enc_ok c) l' → concat (map (enc c) l) = concat (map (enc c) l') → l = l'.
Proof.
  intros Hne Hl. revert l'. induction Hl as [|a l Ha Hl IH]; intros k Hk; destruct Hk as [|b k Hb Hk]; cbn [map concat]; intros E; [done| | |].
  - symmetry in E. apply app_eq_nil in E as [E _]. by destruct (Hne b Hb).
  - apply app_eq_nil in E as [E _]. by destruct (Hne a Ha).
  - apply (enc_cancel c) in E as [-> E]; [|done..]. f_equal. by apply IH.
Qed.
Lemma hash_parts parts : Z.of_nat (length (concat parts)) < 2 ^ 32 → Hashes.SerializeHash parts = Hashes.SerializeHash [concat parts].
Proof.
  intros Hl. apply Hashes.SerializeHash_concat; [|by constructor|by cbn; rewrite app_nil_r].
  induction parts as [|p ps IH]; cbn [concat] in *; rewrite ?length_app in Hl; constructor; [lia|apply IH; lia].
Qed.
Lemma hash_message m : bytes_ok m → Z.of_nat (length m) < 2 ^ 32 → ∃ h, Hashes.SerializeHash [m] = Some h ∧ enc_ok uint256_codec h.
Proof.
  intros Hb Hl. rewrite Hashes.SerializeHash_eq. destruct (Fips202Refinement.SHA3_of_bytes m Hl Hb) as (h & E & L & B & _).
  by exists h.
Qed.
Lemma concat_enc_ok {A} (c : codec A) `{!Serializable c} l : Forall (enc_ok c) l → bytes_ok (concat (map (enc c) l)).
Proof. induction 1; cbn [map concat]; [constructor|]. apply bytes_ok_app. split; [by apply enc_bytes|done]. Qed.
Lemma uint256_null_ok : enc_ok uint256_codec uint256_null.
Proof. split; [reflexivity|]. by apply u8sb_ok. Qed.

Section HashList.
Context {A} (c : codec A) `{!Serializable c} (nonempty : ∀ a, enc_ok c a → enc c a ≠ []).
Lemma hash_list_total l : Forall (enc_ok c) (default [] l) → Forall (λ m, Z.of_nat (length m) < 2 ^ 32) (list_message c l) →
  ∃ h, hash_list c l = Some h ∧ enc_ok uint256_codec h.
Proof.
  destruct l as [l|]; cbn [list_message hash_list]; intros Hl Hm; [|exists uint256_null; split; [done|apply uint256_null_ok]].
  apply list.Forall_cons in Hm as [Hm _]. rewrite hash_parts by done. apply hash_message; [by apply concat_enc_ok|done].
Qed.
Lemma hash_list_inj l l' ms : collision_free ms → Forall (λ m, Z.of_nat (length m) < 2 ^ 32) ms →
  incl (list_message c l) ms → incl (list_message c l') ms →
  Forall (enc_ok c) (default [] l) → Forall (enc_ok c) (default [] l') → hash_list c l = hash_list c l' → l = l'.
Proof.
  intros [Hinj Hnull] Hm Hi Hi' Hl Hl' E. rewrite List.Forall_forall in Hm. destruct l as [l|], l' as [l'|]; cbn [list_message hash_list] in *.
  - assert (H1 : In (concat (map (enc c) l)) ms) by (apply Hi; by left). assert (H2 : In (concat (map (enc c) l')) ms) by (apply Hi'; by left).
    rewrite (hash_parts (map (enc c) l)), (hash_parts (map (enc c) l')) in E by (by apply Hm).
    f_equal. apply (concat_enc_inj c); [done..|]. by apply Hinj.
  - assert (H1 : In (concat (map (enc c) l)) ms) by (apply Hi; by left). rewrite (hash_parts (map (enc c) l)) in E by (by apply Hm).
    by destruct (Hnull _ H1).
  - assert (H1 : In (concat (map (enc c) l')) ms) by (apply Hi'; by left). rewrite (hash_parts (map (enc c) l')) in E by (by apply Hm).
    by destruct (Hnull _ H1).
  - done.
Qed.
End HashList.

Lemma COutPoint_nonempty o : enc_ok COutPoint_codec o → enc COutPoint_codec o ≠ [].
Proof. intros [[[Hl _] _] _] E. cbn in *. apply app_eq_nil in E as [E _]. by rewrite E in Hl. Qed.
Lemma sequence_nonempty x : enc_ok u32_codec x → enc u32_codec x ≠ [].
Proof. done. Qed.
Lemma CTxOut_nonempty o : enc_ok CTxOut_codec o → enc CTxOut_codec o ≠ [].
Proof. intros _ E. by apply (f_equal length) in E. Qed.

Ltac solve_incl := intros ? ?; unfold messages; rewrite !in_app_iff; tauto.
Lemma preimage_total v : view_ok v → ∃ p q o m, hash_list COutPoint_codec (c_prevouts v) = Some p ∧ hash_list u32_codec (c_sequences v) = Some q ∧
  hash_list CTxOut_codec (c_outputs v) = Some o ∧ enc_ok preimage_codec (preimage_fields p q o v) ∧ m = enc preimage_codec (preimage_fields p q o v) ∧
  preimage v = Some m ∧ Z.of_nat (length m) < 2 ^ 32.
Proof.
  intros (H1 & H2 & H3 & H4 & H5 & H6 & H7 & H8 & H9 & H10 & Hm). unfold messages in Hm. rewrite !list.Forall_app in Hm.
  destruct Hm as (M1 & M2 & M3 & M4).
  destruct (hash_list_total COutPoint_codec _ H2 M1) as (p & Ep & Hp). destruct (hash_list_total u32_codec _ H3 M2) as (q & Eq & Hq).
  destruct (hash_list_total CTxOut_codec _ H8 M3) as (o & Eo & Ho). unfold preimage in *. rewrite Ep, Eq, Eo in *. cbn [mbind option_bind] in *.
  apply list.Forall_cons in M4 as [M4 _]. by exists p, q, o, (enc preimage_codec (preimage_fields p q o v)).
Qed.
Lemma SignatureHash_preimage code tx nIn ty amount cache v : cache_of cache tx → signed_view code tx nIn ty amount = Some v → view_ok v →
  ∃ m, preimage v = Some m ∧ SignatureHash code tx nIn ty amount SIGVERSION_WITNESS_V0 cache = Hashes.SerializeHash [m].
Proof.
  intros Hc Hv Hok. rewrite (SignatureHash_v0 _ _ _ _ _ _ v Hc Hv).
  destruct (preimage_total v Hok) as (p & q & o & m & -> & -> & -> & _ & -> & -> & Hlen). cbn [mbind option_bind].
  exists (enc preimage_codec (preimage_fields p q o v)). split; [done|].
  match goal with |- Hashes.SerializeHash ?parts = _ => assert (E : concat parts = enc preimage_codec (preimage_fields p q o v)) end.
  { cbn [concat]. rewrite app_nil_r. reflexivity. }
  by rewrite hash_parts, E by (by rewrite E).
Qed.
Lemma preimage_inj v v' m m' : view_ok v → view_ok v' → collision_free (messages v ++ messages v') →
  preimage v = Some m → preimage v' = Some m' → Hashes.SerializeHash [m] = Hashes.SerializeHash [m'] → v = v'.
Proof.
  intros Hv Hv' Hfree E E' Eh.
  assert (Em : m = m').
  { destruct Hfree as [Hinj _]. apply Hinj; [| |done]; apply in_app_iff; [left|right]; unfold messages; rewrite ?E, ?E', !in_app_iff; do 3 right; by left. }
  destruct (preimage_total v Hv) as (p & q & o & n & Hp & Hq & Ho & Hn & -> & E2 & _).
  destruct (preimage_total v' Hv') as (p' & q' & o' & n' & Hp' & Hq' & Ho' & Hn' & -> & E2' & _).
  assert (K : m = enc preimage_codec (preimage_fields p q o v)) by congruence.
  assert (K' : m' = enc preimage_codec (preimage_fields p' q' o' v')) by congruence.
  assert (Ef : preimage_fields p q o v = preimage_fields p' q' o' v').
  { apply (enc_cancel preimage_codec _ _ [] []); [done..|]. by rewrite <- K, <- K', Em. }
  assert (Hm : Forall (λ m, Z.of_nat (length m) < 2 ^ 32) (messages v ++ messages v')) by (apply list.Forall_app; split; [apply Hv|apply Hv']).
  destruct Hv as (_ & V2 & V3 & _ & _ & _ & _ & V8 & _), Hv' as (_ & V2' & V3' & _ & _ & _ & _ & V8' & _).
  unfold preimage_fields in Ef. injection Ef as F1 <- <- F4 F5 F6 F7 <- F9 F10.
  assert (G1 : c_prevouts v = c_prevouts v') by (apply (hash_list_inj COutPoint_codec COutPoint_nonempty _ _ (messages v ++ messages v')); [done|done|solve_incl|solve_incl|done|done|congruence]).
  assert (G2 : c_sequences v = c_sequences v') by (apply (hash_list_inj u32_codec sequence_nonempty _ _ (messages v ++ messages v')); [done|done|solve_incl|solve_incl|done|done|congruence]).
  assert (G3 : c_outputs v = c_outputs v') by (apply (hash_list_inj CTxOut_codec CTxOut_nonempty _ _ (messages v ++ messages v')); [done|done|solve_incl|solve_incl|done|done|congruence]).
  clear -F1 F4 F5 F6 F7 F9 F10 G1 G2 G3. destruct v, v'. cbn in *. by subst.
Qed.

(** C20. What a witness version 0 signature commits to.  The cache does not
    change the hash, and, when no two of the hashed messages collide and none hashes to
    zero, two signature hashes are equal exactly when their signed views are:
    version, lock time, hash type, the script code, amount, outpoint and
    sequence of the signed input, all the outpoints unless
    [SIGHASH_ANYONECANPAY], all the sequences under none of the flags, and all the
    outputs, the one at the input's index under [SIGHASH_SINGLE], or none. *)
Theorem sighash_v0_commits (code code' : bytes) (tx tx' : CTransaction) (nIn nIn' : nat) (ty ty' amount amount' : Z)
    (cache cache' : option PrecomputedTransactionData) (v v' : commitment) :
  cache_of cache tx → cache_of cache' tx' →
  signed_view code tx nIn ty amount = Some v → signed_view code' tx' nIn' ty' amount' = Some v' → view_ok v → view_ok v' →
  collision_free (messages v ++ messages v') →
  (SignatureHash code tx nIn ty amount SIGVERSION_WITNESS_V0 cache = SignatureHash code' tx' nIn' ty' amount' SIGVERSION_WITNESS_V0 cache'
   ↔ v = v').
Proof.
  intros Hc Hc' Hv Hv' Hok Hok' Hfree.
  destruct (SignatureHash_preimage _ _ _ _ _ _ v Hc Hv Hok) as (m & Em & ->). destruct (SignatureHash_preimage _ _ _ _ _ _ v' Hc' Hv' Hok') as (m' & Em' & ->).
  split; [|intros ->; by injection (eq_trans (eq_sym Em) Em') as ->]. intros E. by apply (preimage_inj v v' m m').
Qed.

(** Enough to see that a concrete view is as the theorem asks. *)
Lemma view_ok_tx code tx nIn ty amount v : tx_ok tx → sized code → enc_ok i64_codec amount → enc_ok i32_codec ty →
  signed_view code tx nIn ty amount = Some v → Forall (λ m, Z.of_nat (length m) < 2 ^ 32) (messages v) → view_ok v.
Proof.
  intros (Hver & [Hin _] & _ & [Hout _] & Hlock) Hcode Ham Hty. unfold signed_view. destruct (vin tx !! nIn) as [i|] eqn:Ei; [|done].
  assert (Hf : Forall (λ i, enc_ok COutPoint_codec (prevout i) ∧ enc_ok u32_codec (nSequence i)) (vin tx)).
  { rewrite List.Forall_forall in Hin |- *. intros j Hj. destruct (Hin (strip_in j) (in_map _ _ _ Hj)) as [(H1 & _ & H2) _]. done. }
  assert (Hi : enc_ok COutPoint_codec (prevout i) ∧ enc_ok u32_codec (nSequence i)).
  { rewrite List.Forall_forall in Hf. apply Hf. by eapply list_elem_of_In, list_elem_of_lookup_2. }
  intros [= <-] Hm. unfold view_ok. cbn [c_version c_prevouts c_sequences c_prevout c_code c_amount c_sequence c_outputs c_locktime c_type].
  split_and!; try done; try apply Hi.
  - destruct (fAnyoneCanPay ty); [constructor|]. apply List.Forall_map. revert Hf. apply List.Forall_impl. by intros ? [].
  - destruct (_ || _); [constructor|]. apply List.Forall_map. revert Hf. apply List.Forall_impl. by intros ? [].
  - destruct (fHashSingle ty); [|by destruct (fHashNone ty); [constructor|]]. destruct (vout tx !! nIn) as [o|] eqn:Eo; [|constructor].
    cbn. constructor; [|constructor]. rewrite List.Forall_forall in Hout. apply Hout. by eapply list_elem_of_In, list_elem_of_lookup_2.
Qed.
Definition collision_freeb (ms : list bytes) : bool :=
  forallb (λ m, forallb (λ m', bool_decide (m = m') || negb (bool_decide (Hashes.SerializeHash [m] = Hashes.SerializeHash [m']))) ms
                && negb (bool_decide (Hashes.SerializeHash [m] = Some uint256_null))) ms.
Lemma collision_freeb_ok ms : collision_freeb ms = true → collision_free ms.
Proof.
  unfold collision_freeb. rewrite forallb_forall. intros H. split.
  - intros m m' Hm Hm' E. specialize (H m Hm). apply andb_true_iff in H as [H _]. rewrite forallb_forall in H. specialize (H m' Hm').
    rewrite (bool_decide_eq_true_2 _ E), orb_false_r in H. by apply bool_decide_eq_true in H.
  - intros m Hm E. specialize (H m Hm). apply andb_true_iff in H as [_ H]. by rewrite (bool_decide_eq_true_2 _ E) in H.
Qed.

(** Under [SIGHASH_SINGLE] and [SIGHASH_ANYONECANPAY] the other input and the other output are free. *)
Definition sighash_tx' : CTransaction :=
  mkCTransaction 2
    [mkCTxIn (mkCOutPoint (replicate 32 9) 3) [0x52] 4 []; mkCTxIn (mkCOutPoint (replicate 32 8) 1) [] 6 []]
    [mkCTxOut 60 []; mkCTxOut 7 []] 0.
Definition sighash_view : commitment :=
  mkCommitment 2 None None (mkCOutPoint (replicate 32 8) 1) [OP_DUP] 9 6 (Some [mkCTxOut 7 []]) 0 (SIGHASH_SINGLE + SIGHASH_ANYONECANPAY).
Lemma sighash_v0_commits_witness :
  SignatureHash [OP_DUP] sighash_tx 1 (SIGHASH_SINGLE + SIGHASH_ANYONECANPAY) 9 SIGVERSION_WITNESS_V0 None =
  SignatureHash [OP_DUP] sighash_tx' 1 (SIGHASH_SINGLE + SIGHASH_ANYONECANPAY) 9 SIGVERSION_WITNESS_V0 None ↔ sighash_view = sighash_view.
Proof.
  assert (Hm : Forall (λ m, Z.of_nat (length m) < 2 ^ 32) (messages sighash_view)).
  { apply (forallb_Forall (λ m, Z.of_nat (length m) <? 2 ^ 32)); [intros x; apply Z.ltb_lt|vm_compute; reflexivity]. }
  apply (sighash_v0_commits [OP_DUP] [OP_DUP] sighash_tx sighash_tx' 1 1 _ _ 9 9 None None); [done|done|reflexivity|reflexivity|..|].
  - apply (view_ok_tx [OP_DUP] sighash_tx 1 (SIGHASH_SINGLE + SIGHASH_ANYONECANPAY) 9);
      [by apply tx_okb_ok|by apply sizedb_ok|done|done|reflexivity|exact Hm].
  - apply (view_ok_tx [OP_DUP] sighash_tx 1 (SIGHASH_SINGLE + SIGHASH_ANYONECANPAY) 9);
      [by apply tx_okb_ok|by apply sizedb_ok|done|done|reflexivity|exact Hm].
  - apply collision_freeb_ok. vm_compute. reflexivity.
Defined.
