(* ===== verification/VerifyScript.v ===== *)
(** * Verifying a spend (src/src/script/interpreter.cpp)

    [VerifyScript] runs the input's script, the output's script, the redeem script
    and the witness program of a spend; [TransactionSignatureChecker] is what
    they see of the transaction.  The stacks have their top first. *)

From stdpp Require Import base numbers list option.
From Stdlib Require Import ZArith Lia ZifyNat ZifyBool.
From S2P Require Import Prelude BlockStream Keccak StrEncodings Endian Fips202 Hash Sha256 Script Serialize Transaction Compressor Interpreter SigHash.

(** ** The transaction, for a script *)
Section Checker.
(** [CPubKey::Verify] on the key's bytes, the hash and the signature; it asks libsecp256k1. *)
Context (pubkey_Verify : bytes → bytes → bytes → bool).
Context (txTo : CTransaction) (nIn : nat) (amount : Z) (txdata : option PrecomputedTransactionData).

Definition pubkey_IsValid (pubkey : bytes) : bool := match pubkey with c :: _ => (0 <? pubkey_GetLen c)%nat | [] => false end.
Definition TransactionSignatureChecker_CheckSig (vchSigIn vchPubKey scriptCode : bytes) (sigversion : SigVersion) : option bool :=
  let pubkey := pubkey_Set vchPubKey in
  if negb (pubkey_IsValid pubkey) then Some false
  else if (length vchSigIn =? 0)%nat then Some false
  else
    let nHashType := List.last vchSigIn 0 in
    let vchSig := take (length vchSigIn - 1) vchSigIn in
    sighash ← SignatureHash scriptCode txTo nIn nHashType amount sigversion txdata;
    Some (pubkey_Verify pubkey sighash vchSig).

Definition TransactionSignatureChecker_CheckLockTime (nLockTime_ : Z) : option bool :=
  if negb (((nLockTime txTo <? LOCKTIME_THRESHOLD) && (nLockTime_ <? LOCKTIME_THRESHOLD))
           || ((nLockTime txTo >=? LOCKTIME_THRESHOLD) && (nLockTime_ >=? LOCKTIME_THRESHOLD))) then Some false
  else if nLockTime_ >? nLockTime txTo then Some false
  else i ← vin txTo !! nIn; Some (negb (SEQUENCE_FINAL =? nSequence i)).

Definition TransactionSignatureChecker_CheckSequence (nSequence_ : Z) : option bool :=
  i ← vin txTo !! nIn;
  let txToSequence := nSequence i in
  if u32 (nVersion txTo) <? 2 then Some false
  else if negb (Z.land txToSequence SEQUENCE_LOCKTIME_DISABLE_FLAG =? 0) then Some false
  else
    let nLockTimeMask := Z.lor SEQUENCE_LOCKTIME_TYPE_FLAG SEQUENCE_LOCKTIME_MASK in
    let txToSequenceMasked := Z.land txToSequence nLockTimeMask in
    let nSequenceMasked := Z.land nSequence_ nLockTimeMask in
    if negb (((txToSequenceMasked <? SEQUENCE_LOCKTIME_TYPE_FLAG) && (nSequenceMasked <? SEQUENCE_LOCKTIME_TYPE_FLAG))
             || ((txToSequenceMasked >=? SEQUENCE_LOCKTIME_TYPE_FLAG) && (nSequenceMasked >=? SEQUENCE_LOCKTIME_TYPE_FLAG))) then Some false
    else Some (negb (nSequenceMasked >? txToSequenceMasked)).

Definition TransactionSignatureChecker : BaseSignatureChecker := {|
  CheckSig := TransactionSignatureChecker_CheckSig;
  CheckLockTime := TransactionSignatureChecker_CheckLockTime;
  CheckSequence := TransactionSignatureChecker_CheckSequence |}.
End Checker.

(** ** Verification *)
Section Verify.
Context `{BaseSignatureChecker} (CheckLowS : bytes → bool) (flags : Z).

(** [EvalScript], false being the end of the verification. *)
Definition eval (sigversion : SigVersion) (st : list bytes) (script : bytes) : run (list bytes) :=
  match EvalScript CheckLowS flags sigversion st script with
  | EvalTrue st _ => inr st
  | EvalFalse e => fails e
  | EvalCrash => inl Crash
  end.
Definition check_true (st : list bytes) : run unit :=
  match st with [] => fails SCRIPT_ERR_EVAL_FALSE | v :: _ => require (CastToBool v) SCRIPT_ERR_EVAL_FALSE end.
Definition assert_flag (f : Z) : run unit := if has_flag flags f then inr () else inl Crash.
(** [stack.resize(1)] *)
Definition resize1 (st : list bytes) : list bytes := [List.last st []].

Definition p2pkh_script (program : bytes) : bytes :=
  push_data [OP_DUP; OP_HASH160] program ++ [OP_EQUALVERIFY; OP_CHECKSIG].

Definition VerifyWitnessProgram (witness : list bytes) (witversion : Z) (program : bytes) : run unit :=
  let finish (stack : list bytes) (scriptPubKey : bytes) : run unit :=
    _ ← require (forallb (λ v, negb (Z.of_nat (length v) >? MAX_SCRIPT_ELEMENT_SIZE)) stack) SCRIPT_ERR_PUSH_SIZE;
    st ← eval SIGVERSION_WITNESS_V0 stack scriptPubKey;
    _ ← require (length st =? 1)%nat SCRIPT_ERR_EVAL_FALSE;
    check_true st in
  if witversion =? 0 then
    if (length program =? 32)%nat then
      match rev witness with
      | [] => fails SCRIPT_ERR_WITNESS_PROGRAM_WITNESS_EMPTY
      | scriptPubKey :: stack =>
          let hashScriptPubKey := Sha256.Finalize (Sha256.Write Sha256.CSHA256 scriptPubKey) in
          _ ← require (bool_decide (hashScriptPubKey = program)) SCRIPT_ERR_WITNESS_PROGRAM_MISMATCH;
          finish stack scriptPubKey
      end
    else if (length program =? 20)%nat then
      _ ← require (length witness =? 2)%nat SCRIPT_ERR_WITNESS_PROGRAM_MISMATCH;
      finish (rev witness) (p2pkh_script program)
    else fails SCRIPT_ERR_WITNESS_PROGRAM_WRONG_LENGTH
  else if has_flag flags SCRIPT_VERIFY_DISCOURAGE_UPGRADABLE_WITNESS_PROGRAM
  then fails SCRIPT_ERR_DISCOURAGE_UPGRADABLE_WITNESS_PROGRAM
  else inr ().

(** A script that may be a witness program: the stack and [hadWitness]. *)
Definition verify_witness (script : bytes) (witness : list bytes) (scriptSig_ok : bool) (e : ScriptError)
    (st : list bytes) (hadWitness : bool) : run (list bytes * bool) :=
  if has_flag flags SCRIPT_VERIFY_WITNESS then
    match IsWitnessProgram script with
    | Some (witnessversion, witnessprogram) =>
        _ ← require scriptSig_ok e;
        _ ← VerifyWitnessProgram witness witnessversion witnessprogram;
        inr (resize1 st, true)
    | None => inr (st, hadWitness)
    end
  else inr (st, hadWitness).

(** Pay to script hash: [stackCopy] is the stack the input's script left. *)
Definition verify_p2sh (scriptSig : bytes) (witness stackCopy : list bytes) (hadWitness : bool) : run (list bytes * bool) :=
  push_only ← or_crash (IsPushOnly scriptSig);
  _ ← require push_only SCRIPT_ERR_SIG_PUSHONLY;
  match stackCopy with
  | [] => inl Crash
  | pubKey2 :: stack =>
      st ← eval SIGVERSION_BASE stack pubKey2;
      _ ← check_true st;
      verify_witness pubKey2 witness (bool_decide (scriptSig = push_data [] pubKey2)) SCRIPT_ERR_WITNESS_MALLEATED_P2SH st hadWitness
  end.

(** [inr tt] is true with [SCRIPT_ERR_OK]; the witness is empty where the pointer is null. *)
Definition VerifyScript (scriptSig scriptPubKey : bytes) (witness : list bytes) : run unit :=
  push_only ← or_crash (if has_flag flags SCRIPT_VERIFY_SIGPUSHONLY then IsPushOnly scriptSig else Some true);
  _ ← require push_only SCRIPT_ERR_SIG_PUSHONLY;
  stackCopy ← eval SIGVERSION_BASE [] scriptSig;
  st ← eval SIGVERSION_BASE stackCopy scriptPubKey;
  _ ← check_true st;
  '(st, hadWitness) ← verify_witness scriptPubKey witness (length scriptSig =? 0)%nat SCRIPT_ERR_WITNESS_MALLEATED st false;
  '(st, hadWitness) ← (if has_flag flags SCRIPT_VERIFY_P2SH && IsPayToScriptHash scriptPubKey
                       then verify_p2sh scriptSig witness stackCopy hadWitness else inr (st, hadWitness));
  _ ← (if has_flag flags SCRIPT_VERIFY_CLEANSTACK then
         _ ← assert_flag SCRIPT_VERIFY_P2SH;
         _ ← assert_flag SCRIPT_VERIFY_WITNESS;
         require (length st =? 1)%nat SCRIPT_ERR_CLEANSTACK
       else inr ());
  if has_flag flags SCRIPT_VERIFY_WITNESS then
    _ ← assert_flag SCRIPT_VERIFY_P2SH;
    require (negb (negb hadWitness && negb (length witness =? 0)%nat)) SCRIPT_ERR_WITNESS_UNEXPECTED
  else inr ().

(** ** Counting *)
Definition WitnessSigOps (witversion : Z) (witprogram : bytes) (witness : list bytes) : option Z :=
  if witversion =? 0 then
    if (length witprogram =? 20)%nat then Some 1
    else if (length witprogram =? 32)%nat then
      match rev witness with subscript :: _ => GetSigOpCount subscript true | [] => Some 0 end
    else Some 0
  else Some 0.
(** The data of the last instruction of the script. *)
Fixpoint last_data (fuel : nat) (pc data : bytes) : option bytes :=
  match pc with
  | [] => Some data
  | _ =>
      let '(data, pc) := match GetOp2 pc with Some (_, d, pc) => (d, pc) | None => ([], GetOp_stop pc) end in
      match fuel with O => None | S fuel => last_data fuel pc data end
  end.
Definition CountWitnessSigOps (scriptSig scriptPubKey : bytes) (witness : list bytes) : option Z :=
  if negb (has_flag flags SCRIPT_VERIFY_WITNESS) then Some 0
  else if negb (has_flag flags SCRIPT_VERIFY_P2SH) then None
  else
    match IsWitnessProgram scriptPubKey with
    | Some (witnessversion, witnessprogram) => WitnessSigOps witnessversion witnessprogram witness
    | None =>
        push_only ← (if IsPayToScriptHash scriptPubKey then IsPushOnly scriptSig else Some false);
        if (push_only : bool) then
          subscript ← last_data (length scriptSig) scriptSig [];
          match IsWitnessProgram subscript with
          | Some (witnessversion, witnessprogram) => WitnessSigOps witnessversion witnessprogram witness
          | None => Some 0
          end
        else Some 0
    end.
End Verify.

(** ** Proofs: the signature hash exists *)
Lemma compact_length n : (1 ≤ length (WriteCompactSize n) ≤ 9)%nat.
Proof. unfold WriteCompactSize. repeat case_match; match goal with |- (_ ≤ ?x ≤ _)%nat => let k := eval compute in x in change x with k end; lia. Qed.
Lemma GetOp_stop_length pc : (length (GetOp_stop pc) ≤ length pc)%nat.
Proof.
  unfold GetOp_stop. destruct pc as [|opcode pc]; [done|]. destruct (opcode <=? OP_PUSHDATA4); [|cbn; lia]. unfold operand_size.
  repeat case_match; simplify_eq; cbn [length]; rewrite ?length_drop; lia.
Qed.
Lemma count_separators_total fuel it n : (length it ≤ fuel)%nat → is_Some (count_separators fuel it n).
Proof.
  revert it n. induction fuel as [|fuel IH]; intros it n Hf; cbn [count_separators];
    destruct (GetOp2 it) as [[[op data] rest]|] eqn:E; try by eexists.
  - pose proof (GetOp2_shorter _ _ _ _ E). lia.
  - apply IH. pose proof (GetOp2_shorter _ _ _ _ E). lia.
Qed.
Lemma write_pieces_total fuel ib it s : (length it ≤ fuel)%nat → (length it ≤ length ib)%nat →
  ∃ s' ib' it', write_pieces fuel ib it s = Some (s', ib', it') ∧ (length s' + length ib' ≤ length s + length ib)%nat.
Proof.
  revert ib it s. induction fuel as [|fuel IH]; intros ib it s Hf Hi; cbn [write_pieces];
    destruct (GetOp2 it) as [[[op data] rest]|] eqn:E; try (by do 3 eexists; split; [done|lia]).
  - pose proof (GetOp2_shorter _ _ _ _ E). lia.
  - pose proof (GetOp2_shorter _ _ _ _ E). case_match; [|by apply IH; lia].
    destruct (IH rest rest (s ++ take (length ib - length rest - 1) ib) ltac:(lia) ltac:(lia)) as (s' & ib' & it' & E1 & Hl).
    exists s', ib', it'. split; [done|]. rewrite length_app, length_take in Hl. lia.
Qed.
Lemma SerializeScriptCode_total code : ∃ b, SerializeScriptCode code = Some b ∧ (length b ≤ 9 + length code)%nat.
Proof.
  unfold SerializeScriptCode. destruct (count_separators_total (length code) code 0 ltac:(lia)) as [n ->]. cbn [mbind option_bind].
  destruct (write_pieces_total (length code) code code [] ltac:(lia) ltac:(lia)) as (s' & ib & it & -> & Hl). cbn [mbind option_bind].
  eexists. split; [done|]. rewrite !length_app. pose proof (compact_length (Z.of_nat (length code) - n)). cbn [length] in Hl.
  case_match; [cbn [length]; lia|]. rewrite length_take. lia.
Qed.

(** Writing a list whose element [k] takes [w] bytes, one element taking [e] more. *)
Lemma serialize_each_total {A} (f : nat → option bytes) (w : A → nat) (m e : nat) (l : list A) n :
  (∀ j x, l !! j = Some x → ∃ b, f (n + j)%nat = Some b ∧ (length b ≤ w x + if (n + j =? m)%nat then e else 0)%nat) →
  ∃ b, serialize_each f n (length l) = Some b ∧ (length b ≤ sum_list_with w l + if (n <=? m)%nat then e else 0)%nat.
Proof.
  revert n. induction l as [|x l IH]; intros n Hf; [by exists []; split; [|cbn; lia]|]. cbn [serialize_each length sum_list_with].
  destruct (Hf 0%nat x eq_refl) as (b & Eb & Lb). rewrite Nat.add_0_r in Eb, Lb. rewrite Eb. cbn [mbind option_bind].
  destruct (IH (S n)) as (r & -> & Lr). { intros j y Hj. replace (S n + j)%nat with (n + S j)%nat by lia. by apply Hf. }
  cbn [mbind option_bind]. eexists. split; [done|]. rewrite length_app. repeat case_match; lia.
Qed.
Lemma concat_map_length {A} (f : A → bytes) l : length (concat (map f l)) = sum_list_with (λ x, length (f x)) l.
Proof. induction l as [|x l IH]; [done|]. cbn [map concat sum_list_with]. by rewrite length_app, IH. Qed.
Lemma sum_list_with_take {A} (w : A → nat) n l : (sum_list_with w (take n l) ≤ sum_list_with w l)%nat.
Proof. revert n. induction l as [|x l IH]; intros [|n]; cbn; [lia..|]. specialize (IH n). lia. Qed.

Lemma basic_length tx : (sum_list_with (λ i, length (enc CTxIn_codec i)) (vin tx) + sum_list_with (λ o, length (enc CTxOut_codec o)) (vout tx)
  + 10 ≤ length (basic tx))%nat.
Proof.
  unfold basic, vin_codec, vout_codec. cbn [enc vector_codec]. unfold ser_vector. rewrite !length_app, !concat_map_length.
  pose proof (compact_length (Z.of_nat (length (vin tx)))). pose proof (compact_length (Z.of_nat (length (vout tx)))).
  change (length (enc i32_codec (nVersion tx))) with 4%nat. change (length (enc u32_codec (nLockTime tx))) with 4%nat. lia.
Qed.
Lemma hash_total parts : Forall (λ c, Z.of_nat (length c) < 2 ^ 32) parts → ∃ h, Hashes.SerializeHash parts = Some h ∧ length h = 32%nat.
Proof.
  intros Hp. rewrite Hashes.SerializeHash_eq, CSha3.hash_spec by done.
  pose proof (Fips202Refinement.absorb_step_inv (concat parts) (replicate 25 0) eq_refl) as HA.
  destruct (absorb 136 _ (replicate 25 0) (concat parts)) as [A rest]. cbn [fst] in HA.
  destruct (Fips202Refinement.sha3_of_format A rest HA) as [Hl _]. exact (ex_intro _ _ (conj eq_refl Hl)).
Qed.

(** *** Every question has an answer *)
Section CheckerTotal.
Context (pubkey_Verify : bytes → bytes → bytes → bool).
Context (tx : CTransaction) (nIn : nat) (amount : Z) (cache : option PrecomputedTransactionData).
Context (Hsize : Z.of_nat (length (basic tx)) < 2 ^ 31) (HnIn : (nIn < length (vin tx))%nat) (Hcache : cache_of cache tx).
Context (Hvin : Forall (enc_ok COutPoint_codec) (map prevout (vin tx))).

Lemma out_length o : In o (vout tx) → (length (enc CTxOut_codec o) ≤ length (basic tx))%nat.
Proof.
  intros Ho. pose proof (basic_length tx) as Hb. assert (H : (length (enc CTxOut_codec o) ≤ sum_list_with (λ o, length (enc CTxOut_codec o)) (vout tx))%nat); [|lia].
  clear -Ho. induction (vout tx) as [|x l IH]; [done|]. destruct Ho as [->|Ho]; cbn [sum_list_with]; [lia|]. specialize (IH Ho). lia.
Qed.
Lemma prevout_length i : In i (vin tx) → length (enc COutPoint_codec (prevout i)) = 36%nat.
Proof.
  intros Hi. rewrite List.Forall_forall in Hvin. destruct (Hvin (prevout i) (in_map _ _ _ Hi)) as [[[Hl _] _] _]. cbn [fst] in Hl.
  change (enc COutPoint_codec (prevout i)) with (op_hash (prevout i) ++ enc u32_codec (op_n (prevout i))). rewrite length_app, Hl. done.
Qed.
Lemma lookup_In {A} (l : list A) n x : l !! n = Some x → In x l.
Proof. intros H. by eapply list_elem_of_In, list_elem_of_lookup_2. Qed.

Lemma SerializeInput_total code ty k i : vin tx !! (if fAnyoneCanPay ty then nIn else k) = Some i →
  ∃ b, SerializeInput tx code nIn ty k = Some b ∧
    (length b ≤ length (enc CTxIn_codec i) + if ((if fAnyoneCanPay ty then nIn else k) =? nIn)%nat then 9 + length code else 0)%nat.
Proof.
  intros Hi. unfold SerializeInput. rewrite Hi. cbn [mbind option_bind]. rewrite CTxIn_enc.
  destruct (SerializeScriptCode_total code) as (b & -> & Hb). set (n := if fAnyoneCanPay ty then nIn else k).
  assert (Hs : ∀ x, length (enc u32_codec x) = 4%nat) by done. assert (Hz : length (enc i32_codec 0) = 4%nat) by done.
  assert (He : length (enc blob_codec []) = 1%nat) by done.
  assert (Hg : (1 ≤ length (enc blob_codec (scriptSig i)))%nat).
  { change (enc blob_codec (scriptSig i)) with (WriteCompactSize (Z.of_nat (length (scriptSig i))) ++ scriptSig i). rewrite length_app.
    pose proof (compact_length (Z.of_nat (length (scriptSig i)))). lia. }
  destruct (n =? nIn)%nat; cbn [negb andb mbind option_bind].
  - eexists. split; [done|]. rewrite !length_app, Hs. lia.
  - eexists. split; [done|]. rewrite !length_app. destruct (_ || _); rewrite ?Hs, ?Hz, He; lia.
Qed.
Lemma SerializeForSignature_total code ty : (fHashSingle ty = true → (nIn < length (vout tx))%nat) →
  ∃ b, SerializeForSignature tx code nIn ty = Some b ∧ (length b ≤ length (basic tx) + length code + 30)%nat.
Proof.
  intros Hs. unfold SerializeForSignature. pose proof (basic_length tx) as Hb.
  assert (Hin : ∃ b, serialize_each (SerializeInput tx code nIn ty) 0 (if fAnyoneCanPay ty then 1%nat else length (vin tx)) = Some b ∧
    (length b ≤ sum_list_with (λ i, length (enc CTxIn_codec i)) (vin tx) + (9 + length code))%nat).
  { destruct (fAnyoneCanPay ty) eqn:Ea.
    - destruct (lookup_lt_is_Some_2 (vin tx) nIn HnIn) as [i Hi].
      destruct (SerializeInput_total code ty 0 i) as (b & E & Hl); [by rewrite Ea|]. rewrite Ea, Nat.eqb_refl in Hl.
      cbn [serialize_each]. rewrite E. cbn [mbind option_bind]. eexists. split; [done|]. rewrite app_nil_r.
      pose proof (lookup_In _ _ _ Hi) as Hi'. clear -Hl Hi'. revert Hi'. induction (vin tx) as [|x l IH]; [done|].
      intros [->|Hi']; cbn [sum_list_with]; [lia|]. specialize (IH Hi'). lia.
    - destruct (serialize_each_total (SerializeInput tx code nIn ty) (λ i, length (enc CTxIn_codec i)) nIn (9 + length code) (vin tx) 0) as (b & E & Hl).
      + intros j x Hj. pose proof (SerializeInput_total code ty (0 + j) x) as H. rewrite Ea in H. by apply H.
      + exists b. split; [done|]. exact Hl. }
  assert (Hout : ∃ b, serialize_each (SerializeOutput tx nIn ty) 0
      (if fHashNone ty then 0%nat else if fHashSingle ty then (nIn + 1)%nat else length (vout tx)) = Some b ∧
    (length b ≤ sum_list_with (λ o, length (enc CTxOut_codec o)) (vout tx))%nat).
  { destruct (fHashNone ty); [by exists []; split; [|cbn; lia]|].
    assert (Hk : ∀ k, (k ≤ length (vout tx))%nat → ∃ b, serialize_each (SerializeOutput tx nIn ty) 0 k = Some b ∧
      (length b ≤ sum_list_with (λ o, length (enc CTxOut_codec o)) (vout tx))%nat).
    { intros k Hk. destruct (serialize_each_total (SerializeOutput tx nIn ty) (λ o, length (enc CTxOut_codec o)) 0 0 (take k (vout tx)) 0) as (b & E & Hl).
      - intros j x Hj. apply lookup_take_Some in Hj as [Hj _]. unfold SerializeOutput. destruct (fHashSingle ty && negb (0 + j =? nIn)%nat).
        + eexists. split; [done|]. change (length (enc CTxOut_codec CTxOut_null)) with 9%nat.
          change (enc CTxOut_codec x) with (enc i64_codec (nValue x) ++ WriteCompactSize (Z.of_nat (length (scriptPubKey x))) ++ scriptPubKey x).
          rewrite !length_app. pose proof (compact_length (Z.of_nat (length (scriptPubKey x)))). change (length (enc i64_codec (nValue x))) with 8%nat. lia.
        + cbn [Nat.add]. rewrite Hj. cbn [mbind option_bind]. eexists. split; [done|]. lia.
      - rewrite length_take, Nat.min_l in E by lia. exists b. split; [done|].
        pose proof (sum_list_with_take (λ o, length (enc CTxOut_codec o)) k (vout tx)). cbn [Nat.leb] in Hl. lia. }
    destruct (fHashSingle ty); apply Hk; [specialize (Hs eq_refl)|]; lia. }
  destruct Hin as (a & -> & La). destruct Hout as (b & -> & Lb). cbn [mbind option_bind]. eexists. split; [done|].
  rewrite !length_app.
  match goal with |- context [WriteCompactSize ?n] => pose proof (compact_length n) end.
  match goal with |- context [WriteCompactSize (Z.of_nat (if fHashNone ty then ?x else ?y))] => pose proof (compact_length (Z.of_nat (if fHashNone ty then x else y))) end.
  change (length (enc i32_codec (nVersion tx))) with 4%nat. change (length (enc u32_codec (nLockTime tx))) with 4%nat. lia.
Qed.
Lemma hash_list_exists {A} (c : codec A) l : (∀ x, In x (default [] l) → Z.of_nat (length (enc c x)) < 2 ^ 32) →
  ∃ h, hash_list c l = Some h ∧ length h = 32%nat.
Proof.
  destruct l as [l|]; intros Hl; [|by exists uint256_null]. apply hash_total. apply List.Forall_map, List.Forall_forall. exact Hl.
Qed.
Lemma SignatureHash_total code ty v : elem_upto MAX_SCRIPT_SIZE code → is_Some (SignatureHash code tx nIn ty amount v cache).
Proof.
  intros [_ Hcode]. unfold MAX_SCRIPT_SIZE in Hcode. destruct v.
  - unfold SignatureHash. change (is_base SIGVERSION_BASE) with true. cbn [negb]. case_match; [by eexists|].
    destruct (fHashSingle ty && (length (vout tx) <=? nIn)%nat) eqn:Eo; [by eexists|].
    destruct (SerializeForSignature_total code ty) as (b & -> & Hb); [intros Es; rewrite Es in Eo; cbn [andb] in Eo; lia|]. cbn [mbind option_bind].
    destruct (hash_total [b; enc i32_codec ty]) as (h & -> & _); [|by eexists]. constructor; [lia|]. constructor; [done|constructor].
  - destruct (lookup_lt_is_Some_2 (vin tx) nIn HnIn) as [i Hi].
    assert (Hv : ∃ w, signed_view code tx nIn ty amount = Some w) by (unfold signed_view; rewrite Hi; by eexists). destruct Hv as [w Hw].
    rewrite (SignatureHash_v0 _ _ _ _ _ _ _ Hcache Hw). unfold signed_view in Hw. rewrite Hi in Hw. injection Hw as <-.
    cbn [c_version c_prevouts c_sequences c_prevout c_code c_amount c_sequence c_outputs c_locktime c_type].
    assert (Hprev : ∀ x, In x (map prevout (vin tx)) → length (enc COutPoint_codec x) = 36%nat).
    { intros x Hx. apply in_map_iff in Hx as (j & <- & Hj). by apply prevout_length. }
    destruct (hash_list_exists COutPoint_codec (if fAnyoneCanPay ty then None else Some (map prevout (vin tx)))) as (p & -> & Hp).
    { intros x Hx. destruct (fAnyoneCanPay ty); [done|]. rewrite (Hprev x Hx). done. }
    destruct (hash_list_exists u32_codec (if fAnyoneCanPay ty || fHashSingle ty || fHashNone ty then None else Some (map nSequence (vin tx)))) as (q & -> & Hq); [done|].
    destruct (hash_list_exists CTxOut_codec (if fHashSingle ty then option_map (λ o, [o]) (vout tx !! nIn) else if fHashNone ty then None else Some (vout tx))) as (o & -> & Ho).
    { intros x Hx. assert (Hx' : In x (vout tx)).
      { destruct (fHashSingle ty); [|by destruct (fHashNone ty)]. destruct (vout tx !! nIn) eqn:Eo; [|done]. cbn in Hx. destruct Hx as [<-|[]]. by eapply lookup_In. }
      pose proof (out_length x Hx'). lia. }
    cbn [mbind option_bind]. apply lookup_In in Hi. apply prevout_length in Hi.
    match goal with |- is_Some (Hashes.SerializeHash ?l) => destruct (hash_total l) as (h & -> & _); [|by eexists] end.
    assert (Hc : Z.of_nat (length (enc blob_codec code)) < 2 ^ 32).
    { change (enc blob_codec code) with (WriteCompactSize (Z.of_nat (length code)) ++ code). rewrite length_app.
      pose proof (compact_length (Z.of_nat (length code))). lia. }
    repeat apply List.Forall_cons; try done; [change (enc uint256_codec p) with p; lia|change (enc uint256_codec q) with q; lia|lia|change (enc uint256_codec o) with o; lia].
Qed.
Lemma checker_total :
  (∀ s k c v, elem_upto MAX_SCRIPT_SIZE c → is_Some (@CheckSig (TransactionSignatureChecker pubkey_Verify tx nIn amount cache) s k c v)) ∧
  (∀ n, is_Some (@CheckLockTime (TransactionSignatureChecker pubkey_Verify tx nIn amount cache) n)) ∧
  (∀ n, is_Some (@CheckSequence (TransactionSignatureChecker pubkey_Verify tx nIn amount cache) n)).
Proof.
  destruct (lookup_lt_is_Some_2 (vin tx) nIn HnIn) as [i Hi].
  split_and!; cbn [CheckSig CheckLockTime CheckSequence TransactionSignatureChecker].
  - intros s k c v Hc. unfold TransactionSignatureChecker_CheckSig. case_match; [by eexists|]. case_match; [by eexists|].
    destruct (SignatureHash_total c (List.last s 0) v Hc) as [h ->]. by eexists.
  - intros n. unfold TransactionSignatureChecker_CheckLockTime. rewrite Hi. repeat case_match; by eexists.
  - intros n. unfold TransactionSignatureChecker_CheckSequence. rewrite Hi. cbn [mbind option_bind]. cbv zeta. repeat case_match; by eexists.
Qed.
End CheckerTotal.

(** ** Proofs: instructions *)
Section Instructions.
Context `{BaseSignatureChecker} (CheckLowS : bytes → bool) (flags : Z) (sigversion : SigVersion).
Abbreviation exec_op := (exec_op CheckLowS flags sigversion).
Abbreviation step := (step CheckLowS flags sigversion).
Abbreviation eval_loop := (eval_loop CheckLowS flags sigversion).

Lemma exec_op_dup here pc m :
  exec_op OP_DUP here pc true m = match stack m with x :: _ => inr (set_stack m (x :: stack m)) | _ => bad_stack end.
Proof. reflexivity. Qed.
Lemma exec_op_hash160 here pc m :
  exec_op OP_HASH160 here pc true m = match stack m with x :: st => inr (set_stack m (Hashes.Hash160 x :: st)) | _ => bad_stack end.
Proof. reflexivity. Qed.
Lemma exec_op_equalverify here pc m :
  exec_op OP_EQUALVERIFY here pc true m =
  match stack m with x2 :: x1 :: st => if bool_decide (x1 = x2) then inr (set_stack m st) else fails SCRIPT_ERR_EQUALVERIFY | _ => bad_stack end.
Proof. reflexivity. Qed.
Lemma exec_op_equal here pc m :
  exec_op OP_EQUAL here pc true m =
  match stack m with x2 :: x1 :: st => inr (set_stack m (of_bool (bool_decide (x1 = x2)) :: st)) | _ => bad_stack end.
Proof. reflexivity. Qed.
Lemma exec_op_checksig here pc m : exec_op OP_CHECKSIG here pc true m = exec_checksig CheckLowS flags sigversion OP_CHECKSIG m.
Proof. reflexivity. Qed.

(** A turn of the loop on an executed instruction that is not a push. *)
Lemma step_op here op pc m : OP_16 < op → is_disabled op = false → vfExec m = [] → nOpCount m < MAX_OPS_PER_SCRIPT →
  step here op [] pc m =
    m' ← exec_op op here pc true (set_ops m (nOpCount m + 1));
    _ ← require (negb (Z.of_nat (length (stack m') + length (altstack m')) >? MAX_STACK_SIZE)) SCRIPT_ERR_STACK_SIZE; inr m'.
Proof.
  intros Hop Hd Hv Hn. unfold Interpreter.step. rewrite Hv, Hd. replace (op >? OP_16) with true by (unfold OP_16 in *; lia).
  cbn [forallb negb andb length Z.of_nat nOpCount set_ops]. change (0 >? MAX_SCRIPT_ELEMENT_SIZE) with false.
  replace (nOpCount m + 1 >? MAX_OPS_PER_SCRIPT) with false by lia.
  replace (op <=? OP_PUSHDATA4) with false by (unfold OP_16, OP_PUSHDATA4 in *; lia). by rewrite andb_false_r.
Qed.
(** A turn of the loop on a push. *)
Lemma step_push here op data pc m : 0 ≤ op ≤ OP_PUSHDATA4 → Z.of_nat (length data) ≤ MAX_SCRIPT_ELEMENT_SIZE → vfExec m = [] →
  step here op data pc m =
    if fRequireMinimal flags && negb (CheckMinimalPush data op) then fails SCRIPT_ERR_MINIMALDATA
    else _ ← require (negb (Z.of_nat (S (length (stack m) + length (altstack m))) >? MAX_STACK_SIZE)) SCRIPT_ERR_STACK_SIZE;
         inr (set_stack m (data :: stack m)).
Proof.
  intros Hop Hd Hv. unfold Interpreter.step. rewrite Hv. replace (op >? OP_16) with false by (unfold OP_16, OP_PUSHDATA4 in *; lia).
  replace (Z.of_nat (length data) >? MAX_SCRIPT_ELEMENT_SIZE) with false by lia.
  replace (is_disabled op) with false by (unfold is_disabled, OP_PUSHDATA4, OP_CAT, OP_SUBSTR, OP_LEFT, OP_RIGHT, OP_INVERT, OP_AND, OP_OR, OP_XOR, OP_2MUL, OP_2DIV, OP_MUL, OP_DIV, OP_MOD, OP_LSHIFT, OP_RSHIFT in *; lia).
  cbn [forallb negb andb]. replace (0 <=? op) with true by lia. replace (op <=? OP_PUSHDATA4) with true by lia. cbn [andb].
  change (require true SCRIPT_ERR_PUSH_SIZE) with (@inr stop unit ()). cbn [mbind run_bind require]. by destruct (_ && _).
Qed.
Lemma eval_loop_cons fuel op data pc m : op_ok op data →
  eval_loop (S fuel) (op_bytes op data ++ pc) m = m' ← step (op_bytes op data ++ pc) op data pc m; eval_loop fuel pc m'.
Proof.
  intros Hok. pose proof (GetOp2_op_bytes op data pc Hok) as E. destruct (op_bytes op data ++ pc) as [|b r] eqn:Eb; [done|].
  change (eval_loop (S fuel) (b :: r) m) with
    (match GetOp2 (b :: r) with
     | None => fails SCRIPT_ERR_BAD_OPCODE
     | Some (opcode, v, pc') => m' ← step (b :: r) opcode v pc' m; eval_loop fuel pc' m' end). by rewrite E.
Qed.
End Instructions.

Lemma opcode_ok op : OP_PUSHDATA4 < op < 256 → op_ok op [] ∧ op_bytes op [] = [op].
Proof.
  intros Hop. unfold OP_PUSHDATA4 in Hop. unfold op_ok, op_bytes.
  replace (op <? OP_PUSHDATA1) with false by (unfold OP_PUSHDATA1; lia). replace (op =? OP_PUSHDATA1) with false by (unfold OP_PUSHDATA1; lia).
  replace (op =? OP_PUSHDATA2) with false by (unfold OP_PUSHDATA2; lia). replace (op =? OP_PUSHDATA4) with false by (unfold OP_PUSHDATA4; lia).
  split; [|done]. split; [unfold is_u8; lia|]. split; [apply bytes_ok_nil|done].
Qed.

(** ** Proofs: verification always ends with an answer *)

(** The combinations of flags that the code allows. *)
Definition flags_ok (flags : Z) : Prop :=
  (has_flag flags SCRIPT_VERIFY_CLEANSTACK = true → has_flag flags SCRIPT_VERIFY_WITNESS = true) ∧
  (has_flag flags SCRIPT_VERIFY_WITNESS = true → has_flag flags SCRIPT_VERIFY_P2SH = true).
Definition ends {A} (P : A → Prop) (r : run A) : Prop :=
  match r with inr x => P x | inl (Err e) => e ≠ SCRIPT_ERR_OK | inl _ => False end.
Lemma ends_bind {A B} (P : A → Prop) (Q : B → Prop) (r : run A) (f : A → run B) :
  ends P r → (∀ x, P x → ends Q (f x)) → ends Q (r ≫= f).
Proof. intros Hr Hf. destruct r as [[]|x]; cbn in *; auto. Qed.
Lemma ends_require {B} (Q : B → Prop) b e (f : unit → run B) : e ≠ SCRIPT_ERR_OK → (b = true → ends Q (f ())) → ends Q (require b e ≫= f).
Proof. intros He Hf. destruct b; cbn; auto. Qed.
Lemma ends_require' b e : e ≠ SCRIPT_ERR_OK → ends (λ _, True) (require b e).
Proof. by destruct b. Qed.
Lemma ends_weaken {A} (P Q : A → Prop) r : ends P r → (∀ x, P x → Q x) → ends Q r.
Proof. intros Hr H. destruct r as [[]|x]; cbn in *; auto. Qed.

Lemma IsPushOnly_total script : ∃ b, IsPushOnly script = Some b.
Proof.
  unfold IsPushOnly. rewrite (scan_all (λ op _, op <=? OP_16) IsPushOnly_loop IsPushOnly_loop_nil IsPushOnly_loop_step (length script) script) by lia.
  by eexists.
Qed.

Section Safety.
Context `{BaseSignatureChecker} (CheckLowS : bytes → bool) (flags : Z).
Context (CheckSig_total : ∀ s k c v, elem_upto MAX_SCRIPT_SIZE c → is_Some (CheckSig s k c v)).
Context (CheckLockTime_total : ∀ n, is_Some (CheckLockTime n)) (CheckSequence_total : ∀ n, is_Some (CheckSequence n)).
Abbreviation ev := (eval CheckLowS flags).

(** The stacks between scripts. *)
Definition stack_ok (D : Z) (st : list bytes) : Prop := Forall (elem_upto MAX_SCRIPT_SIZE) st ∧ Z.of_nat (length st) ≤ D.
Lemma eval_ok D v st script : MAX_STACK_SIZE ≤ D < 2 ^ 62 → stack_ok D st → bytes_ok script → ends (stack_ok (D + 1)) (ev v st script).
Proof.
  intros HD [Hst Hn] Hs. unfold eval.
  pose proof (EvalScript_safe MAX_SCRIPT_SIZE D ltac:(done) HD True CheckLowS flags v CheckSig_total CheckLockTime_total CheckSequence_total st script Hst Hn Hs (λ _, I)) as Hev.
  destruct (EvalScript _ _ _ _ _) as [st' e|e|]; [|done..]. cbn [ends]. destruct Hev as [(_ & H1 & H2)|(_ & _ & H1 & H2 & _)]; split; try done; lia.
Qed.
Lemma check_true_ok st : ends (λ _, True) (check_true st).
Proof. unfold check_true. destruct st; [done|by apply ends_require']. Qed.
Lemma witness_program_ok witness ver program : Forall bytes_ok witness → Z.of_nat (length witness) < 2 ^ 62 → bytes_ok program →
  Z.of_nat (length program) ≤ 40 → ends (λ _, True) (VerifyWitnessProgram CheckLowS flags witness ver program).
Proof.
  intros Hw Hl Hp Hpl. unfold VerifyWitnessProgram.
  assert (Hfin : ∀ st script, Forall bytes_ok st → (length st ≤ length witness)%nat → bytes_ok script →
    ends (λ _, True) (_ ← require (forallb (λ v, negb (Z.of_nat (length v) >? MAX_SCRIPT_ELEMENT_SIZE)) st) SCRIPT_ERR_PUSH_SIZE;
      st ← ev SIGVERSION_WITNESS_V0 st script; _ ← require (length st =? 1)%nat SCRIPT_ERR_EVAL_FALSE; check_true st)).
  { intros st script Hst Hle Hs. apply ends_require; [done|]. intros Hf. rewrite forallb_forall in Hf.
    apply (ends_bind (stack_ok (Z.max MAX_STACK_SIZE (Z.of_nat (length witness)) + 1))).
    - apply eval_ok; [unfold MAX_STACK_SIZE; lia| |done]. split; [|lia]. apply List.Forall_forall. intros x Hx.
      specialize (Hf x Hx). rewrite List.Forall_forall in Hst. split; [by apply Hst|]. unfold MAX_SCRIPT_ELEMENT_SIZE, MAX_SCRIPT_SIZE in *. lia.
    - intros st' _. apply ends_require; [done|]. intros _. apply check_true_ok. }
  assert (Hr : Forall bytes_ok (rev witness)) by (by apply List.Forall_rev).
  case_match; [|by case_match]. case_match.
  - pose proof (length_rev witness) as Hlr. destruct (rev witness) as [|script st]; [done|]. apply ends_require; [done|]. intros _.
    apply list.Forall_cons in Hr as [Hs Hst]. apply Hfin; [done|cbn [length] in Hlr; lia|done].
  - case_match; [|done]. apply ends_require; [done|]. intros _. apply Hfin; [done|by rewrite length_rev|].
    unfold p2pkh_script. destruct (push_data_op [OP_DUP; OP_HASH160] program Hp ltac:(lia)) as [-> (_ & _ & _)].
    rewrite !bytes_ok_app. split_and!; [by apply bytes_ok_compute| |by apply bytes_ok_compute].
    unfold push_op, op_bytes. replace (length program) with 20%nat by lia. cbn. apply bytes_ok_cons. done.
Qed.
Lemma IsWitnessProgram_ok script v p : bytes_ok script → IsWitnessProgram script = Some (v, p) → bytes_ok p ∧ Z.of_nat (length p) ≤ 40.
Proof.
  intros Hs. unfold IsWitnessProgram. repeat case_match; try done. destruct (DecodeOP_N _); [|done]. intros [= _ <-].
  split; [by apply Forall_drop|]. rewrite length_drop. lia.
Qed.
Lemma verify_witness_ok script witness b e st had : bytes_ok script → Forall bytes_ok witness → Z.of_nat (length witness) < 2 ^ 62 → e ≠ SCRIPT_ERR_OK →
  ends (λ _, True) (verify_witness CheckLowS flags script witness b e st had).
Proof.
  intros Hs Hw Hl He. unfold verify_witness. case_match; [|done]. destruct (IsWitnessProgram script) as [[v p]|] eqn:E; [|done].
  destruct (IsWitnessProgram_ok _ _ _ Hs E) as [Hp Hpl]. apply ends_require; [done|]. intros _.
  by apply (ends_bind (λ _, True)); [apply witness_program_ok|].
Qed.
(** The output's script of pay to script hash fails on an empty stack. *)
Lemma p2sh_empty_stack script : IsPayToScriptHash script = true → ¬ ∃ st, ev SIGVERSION_BASE [] script = inr st.
Proof.
  unfold IsPayToScriptHash. intros Hp [st Hev]. destruct script as [|op script]; [done|].
  assert (op = OP_HASH160) as -> by (unfold char_at in Hp; cbn [nth] in Hp; lia).
  assert (Hlen : length script = 22%nat) by (cbn [length] in Hp; lia). clear Hp. revert Hev. unfold eval, EvalScript.
  replace (Z.of_nat (length (OP_HASH160 :: script)) >? MAX_SCRIPT_SIZE) with false by (unfold MAX_SCRIPT_SIZE; cbn [length]; lia).
  cbn [length]. pose proof (eval_loop_cons CheckLowS flags SIGVERSION_BASE (length script) OP_HASH160 [] script (mkMachine [] [] [] 0 (OP_HASH160 :: script))) as E.
  destruct (opcode_ok OP_HASH160) as [Ho Eb]; [done|]. rewrite Eb in E. cbn [app] in E. rewrite E, step_op, exec_op_hash160 by done. done.
Qed.
End Safety.
Section Safety2.
Context `{BaseSignatureChecker} (CheckLowS : bytes → bool) (flags : Z) (Hflags : flags_ok flags).
Context (CheckSig_total : ∀ s k c v, elem_upto MAX_SCRIPT_SIZE c → is_Some (CheckSig s k c v)).
Context (CheckLockTime_total : ∀ n, is_Some (CheckLockTime n)) (CheckSequence_total : ∀ n, is_Some (CheckSequence n)).

Lemma verify_p2sh_ok scriptSig witness stackCopy had : stack_ok (MAX_STACK_SIZE + 1) stackCopy → stackCopy ≠ [] →
  Forall bytes_ok witness → Z.of_nat (length witness) < 2 ^ 62 → ends (λ _, True) (verify_p2sh CheckLowS flags scriptSig witness stackCopy had).
Proof.
  intros [Hst Hn] Hne Hw Hl. unfold verify_p2sh. destruct (IsPushOnly_total scriptSig) as [b ->]. cbn [or_crash mbind run_bind].
  apply ends_require; [done|]. intros _. destruct stackCopy as [|script st]; [done|]. apply list.Forall_cons in Hst as [[Hs _] Hst].
  apply (ends_bind (stack_ok (MAX_STACK_SIZE + 1 + 1))); [apply eval_ok; [done..| |done]; split; [done|cbn [length] in Hn; lia]|].
  intros st' _. apply (ends_bind (λ _, True)); [apply check_true_ok|]. intros _ _. by apply verify_witness_ok.
Qed.
Lemma assert_flag_ok {A} (f : Z) (P : A → Prop) (k : unit → run A) : has_flag flags f = true → ends P (k ()) → ends P (assert_flag flags f ≫= k).
Proof. intros Hf Hk. unfold assert_flag. by rewrite Hf. Qed.
Lemma VerifyScript_ends scriptSig scriptPubKey witness : bytes_ok scriptSig → bytes_ok scriptPubKey → Forall bytes_ok witness →
  Z.of_nat (length witness) < 2 ^ 62 → ends (λ _, True) (VerifyScript CheckLowS flags scriptSig scriptPubKey witness).
Proof.
  intros Hsig Hpub Hw Hl. unfold VerifyScript. destruct Hflags as [Hclean Hwit].
  assert (Hpush : ∃ b, (if has_flag flags SCRIPT_VERIFY_SIGPUSHONLY then IsPushOnly scriptSig else Some true) = Some b).
  { case_match; [apply IsPushOnly_total|by eexists]. }
  destruct Hpush as [b ->]. cbn [or_crash mbind run_bind]. apply ends_require; [done|]. intros _.
  apply (ends_bind (stack_ok (MAX_STACK_SIZE + 1))); [apply eval_ok; [done..| |done]; split; [constructor|done]|]. intros copy Hcopy.
  destruct (eval CheckLowS flags SIGVERSION_BASE copy scriptPubKey) as [x|st] eqn:Ev.
  { pose proof (eval_ok CheckLowS flags CheckSig_total CheckLockTime_total CheckSequence_total (MAX_STACK_SIZE + 1) SIGVERSION_BASE copy scriptPubKey
      ltac:(done) Hcopy Hpub) as He. rewrite Ev in He. exact He. }
  cbn [mbind run_bind]. apply (ends_bind (λ _, True)); [apply check_true_ok|]. intros _ _.
  apply (ends_bind (λ _, True)); [by apply verify_witness_ok|]. intros [st1 had] _.
  apply (ends_bind (λ _, True)).
  { case_match eqn:Ep; [|done]. apply andb_true_iff in Ep as [_ Ep]. apply verify_p2sh_ok; [done| |done|done]. intros ->.
    apply (p2sh_empty_stack CheckLowS flags scriptPubKey Ep). by exists st. }
  intros [st2 had2] _. apply (ends_bind (λ _, True)).
  - destruct (has_flag flags SCRIPT_VERIFY_CLEANSTACK) eqn:Ec; [|done]. apply assert_flag_ok; [by apply Hwit, Hclean|]. apply assert_flag_ok; [by apply Hclean|].
    by apply ends_require'.
  - intros _ _. destruct (has_flag flags SCRIPT_VERIFY_WITNESS) eqn:Ew; [|done]. apply assert_flag_ok; [by apply Hwit|]. by apply ends_require'.
Qed.
End Safety2.

(** C33. Verification of a spend always ends with an answer.  With the
    combinations of flags the code allows, an input index in range and a well-formed
    transaction, [VerifyScript] on [TransactionSignatureChecker] returns
    true, or false with an error: no assertion fails and nothing is read out of range,
    whatever the scripts and the witness. *)
Theorem verify_script_safe (pubkey_Verify : bytes → bytes → bytes → bool) (CheckLowS : bytes → bool) (flags : Z)
    (tx : CTransaction) (nIn : nat) (amount : Z) (cache : option PrecomputedTransactionData)
    (scriptSig scriptPubKey : bytes) (witness : list bytes) :
  flags_ok flags → tx_ok tx → Z.of_nat (length (basic tx)) < 2 ^ 31 → (nIn < length (vin tx))%nat → cache_of cache tx →
  bytes_ok scriptSig → bytes_ok scriptPubKey → Forall bytes_ok witness → Z.of_nat (length witness) < 2 ^ 62 →
  VerifyScript (H := TransactionSignatureChecker pubkey_Verify tx nIn amount cache) CheckLowS flags scriptSig scriptPubKey witness = inr () ∨
  ∃ e, e ≠ SCRIPT_ERR_OK ∧
    VerifyScript (H := TransactionSignatureChecker pubkey_Verify tx nIn amount cache) CheckLowS flags scriptSig scriptPubKey witness = fails e.
Proof.
  intros Hf (_ & [Hin _] & _) Hsize Hn Hc Hs Hp Hw Hl.
  assert (Hvin : Forall (enc_ok COutPoint_codec) (map prevout (vin tx))).
  { apply List.Forall_map. rewrite List.Forall_forall in Hin |- *. intros j Hj. destruct (Hin (strip_in j) (in_map _ _ _ Hj)) as [(H1 & _) _]. done. }
  destruct (checker_total pubkey_Verify tx nIn amount cache Hsize Hn Hc Hvin) as (T1 & T2 & T3).
  pose proof (VerifyScript_ends (H := TransactionSignatureChecker pubkey_Verify tx nIn amount cache) CheckLowS flags Hf T1 T2 T3
    scriptSig scriptPubKey witness Hs Hp Hw Hl) as He.
  destruct (VerifyScript _ _ _ _ _) as [[e| |]|[]]; cbn [ends] in He; [right; by exists e|done|done|by left].
Qed.

Lemma verify_script_safe_witness :
  VerifyScript (H := TransactionSignatureChecker (λ _ _ _, true) sighash_tx 0 5 None) (λ _, true)
    (SCRIPT_VERIFY_P2SH + SCRIPT_VERIFY_CLEANSTACK + SCRIPT_VERIFY_WITNESS) [OP_1] [OP_DUP] [] = inr () ∨
  ∃ e, e ≠ SCRIPT_ERR_OK ∧
    VerifyScript (H := TransactionSignatureChecker (λ _ _ _, true) sighash_tx 0 5 None) (λ _, true)
      (SCRIPT_VERIFY_P2SH + SCRIPT_VERIFY_CLEANSTACK + SCRIPT_VERIFY_WITNESS) [OP_1] [OP_DUP] [] = fails e.
Proof.
  apply (verify_script_safe (λ _ _ _, true) (λ _, true) _ sighash_tx 0 5 None); [done|by apply tx_okb_ok|vm_compute; reflexivity|cbn; lia|done|..].
  - by apply bytes_ok_compute.
  - by apply bytes_ok_compute.
  - constructor.
  - done.
Defined.

(** ** Proofs: more flags never accept more *)

(** What the stricter run [r2] accepts, [r1] accepts with the same result. *)
Definition below {A} (r1 r2 : run A) : Prop :=
  match r2 with inr x => r1 = inr x | inl (Accept st) => r1 = inl (Accept st) | _ => True end.
Lemma below_refl {A} (r : run A) : below r r.
Proof. by destruct r as [[]|]. Qed.
Lemma below_bind {A B} (r1 r2 : run A) (k1 k2 : A → run B) : below r1 r2 → (∀ x, below (k1 x) (k2 x)) → below (r1 ≫= k1) (r2 ≫= k2).
Proof. intros Hr Hk. destruct r2 as [[]|x]; cbn in *; subst; try done. apply Hk. Qed.
Lemma below_require b1 b2 e : (b2 = true → b1 = true) → below (require b1 e) (require b2 e).
Proof. intros Hb. destruct b2; [by rewrite Hb|done]. Qed.
Lemma below_fails {A} (r : run A) e : below r (fails e).
Proof. done. Qed.
Lemma below_forbid {A} b1 b2 e (r1 r2 : run A) : (b1 = true → b2 = true) → below r1 r2 →
  below (if b1 then fails e else r1) (if b2 then fails e else r2).
Proof. intros Hb Hr. destruct b2; [apply below_fails|]. destruct b1; [by specialize (Hb eq_refl)|done]. Qed.

(** The flags of [f1] are among those of [f2]; the no-ops that are discouraged are the same. *)
Record softer (f1 f2 : Z) : Prop := {
  so_flag : ∀ g, has_flag f1 g = true → has_flag f2 g = true;
  so_nops : has_flag f1 SCRIPT_VERIFY_DISCOURAGE_UPGRADABLE_NOPS = true →
    (has_flag f2 SCRIPT_VERIFY_CHECKLOCKTIMEVERIFY = true → has_flag f1 SCRIPT_VERIFY_CHECKLOCKTIMEVERIFY = true) ∧
    (has_flag f2 SCRIPT_VERIFY_CHECKSEQUENCEVERIFY = true → has_flag f1 SCRIPT_VERIFY_CHECKSEQUENCEVERIFY = true) }.
Lemma subset_flags f1 f2 : Z.land f1 f2 = f1 → ∀ g, has_flag f1 g = true → has_flag f2 g = true.
Proof.
  unfold has_flag. intros E g. destruct (Z.land f2 g =? 0) eqn:E2; [|done]. apply Z.eqb_eq in E2.
  by rewrite <- E, <- Z.land_assoc, E2, Z.land_0_r.
Qed.

Section Softer.
Context `{BaseSignatureChecker} (CheckLowS : bytes → bool) (f1 f2 : Z) (Hso : softer f1 f2).
Ltac flag_mono := match goal with
  | |- context [has_flag f1 ?g] => let E1 := fresh in let E2 := fresh in
      pose proof (so_flag _ _ Hso g) as E1; destruct (has_flag f1 g), (has_flag f2 g); first [by specialize (E1 eq_refl)|clear E1]
  end.
Ltac flags_mono := repeat flag_mono.

Lemma below_CScriptNum vch k : below (match CScriptNum vch (fRequireMinimal f1) k with Some n => inr n | None => throws end)
  (match CScriptNum vch (fRequireMinimal f2) k with Some n => inr n | None => throws end).
Proof. unfold CScriptNum, fRequireMinimal. destruct (_ <? _)%nat; [done|]. flags_mono; cbn [andb]; try apply below_refl. by destruct (_ && _). Qed.
Lemma below_num vch : below (num f1 vch) (num f2 vch).
Proof. apply below_CScriptNum. Qed.
Lemma below_num5 vch : below (num5 f1 vch) (num5 f2 vch).
Proof. apply below_CScriptNum. Qed.
Lemma below_sig_encoding vch : below (CheckSignatureEncoding CheckLowS vch f1) (CheckSignatureEncoding CheckLowS vch f2).
Proof.
  unfold CheckSignatureEncoding. case_match; [done|]. apply below_bind; [apply below_require; flags_mono; cbn; tauto|]. intros _.
  apply below_bind; [|intros _; apply below_require; flags_mono; cbn; tauto]. flags_mono; try apply below_refl.
  unfold IsLowDERSignature, require. by repeat case_match.
Qed.
Lemma below_key_encoding vch v : below (CheckPubKeyEncoding vch f1 v) (CheckPubKeyEncoding vch f2 v).
Proof. unfold CheckPubKeyEncoding. apply below_bind; [|intros _]; apply below_require; flags_mono; cbn; tauto. Qed.

Section Version.
Context (v : SigVersion).
Lemma below_locktime m g neg check : g = SCRIPT_VERIFY_CHECKLOCKTIMEVERIFY ∨ g = SCRIPT_VERIFY_CHECKSEQUENCEVERIFY →
  below (exec_locktime f1 m g neg check) (exec_locktime f2 m g neg check).
Proof.
  intros Hg. unfold exec_locktime. destruct (has_flag f1 g) eqn:E1.
  - rewrite (so_flag _ _ Hso g E1). cbn [negb]. destruct (stack m); [done|]. apply below_bind; [apply below_num5|]. intros n. apply below_refl.
  - cbn [negb]. destruct (has_flag f1 SCRIPT_VERIFY_DISCOURAGE_UPGRADABLE_NOPS) eqn:En.
    + pose proof (so_nops _ _ Hso En) as [Hn1 Hn2]. rewrite (so_flag _ _ Hso _ En).
      replace (has_flag f2 g) with false; [done|]. destruct (has_flag f2 g) eqn:E2; [|done].
      destruct Hg as [-> | ->]; [by rewrite Hn1 in E1|by rewrite Hn2 in E1].
    + destruct (negb (has_flag f2 g)); [by case_match|]. destruct (stack m); [done|].
      destruct (num5 f2 _) as [[]|n] eqn:E5; cbn [mbind run_bind below]; try done.
      { exfalso. revert E5. unfold num5. by case_match. }
      case_match; [done|]. case_match; [done|]. destruct (check n) as [[]|]; done.
Qed.
Lemma below_control opcode fExec m d1 d2 : below d1 d2 → below (exec_control f1 v opcode fExec m d1) (exec_control f2 v opcode fExec m d2).
Proof.
  intros Hd. unfold exec_control. case_match; [done|]. case_match; [apply below_locktime; by left|]. case_match; [apply below_locktime; by right|].
  case_match; [apply below_forbid; [apply (so_flag _ _ Hso)|apply below_refl]|].
  case_match; [|repeat (case_match; [apply below_refl|]); done].
  case_match; [|apply below_refl]. case_match; [done|]. apply below_bind; [|intros _; apply below_refl]. apply below_require. flags_mono; cbn; try tauto.
  by destruct (is_base v).
Qed.
Lemma below_stack opcode m d1 d2 : below d1 d2 → below (exec_stack f1 opcode m d1) (exec_stack f2 opcode m d2).
Proof.
  intros Hd. unfold exec_stack. repeat (case_match; [apply below_refl|]).
  case_match; [|repeat (case_match; [apply below_refl|]); done].
  destruct (stack m) as [|vn [|x st]]; [done..|]. apply below_bind; [apply below_num|]. intros n. apply below_refl.
Qed.
Lemma below_numeric opcode m d1 d2 : below d1 d2 → below (exec_numeric f1 opcode m d1) (exec_numeric f2 opcode m d2).
Proof.
  intros Hd. unfold exec_numeric.
  repeat (case_match; [repeat first [apply below_refl|apply below_bind; [apply below_num|intros ?]|case_match]|]). done.
Qed.
Ltac below_step := first
  [ apply below_refl | apply below_bind; [first [apply below_num|apply below_sig_encoding|apply below_key_encoding|apply below_refl]|intros ?] ].
Lemma below_checksig opcode m : below (exec_checksig CheckLowS f1 v opcode m) (exec_checksig CheckLowS f2 v opcode m).
Proof.
  unfold exec_checksig. destruct (stack m) as [|k [|sg st]]; try done. repeat below_step.
  apply below_forbid; [|apply below_refl]. flags_mono; rewrite ?andb_false_r; cbn [andb]; try done.
Qed.
Lemma below_matches fuel st c isig ikey n k : below (match_signatures CheckLowS f1 v fuel st c isig ikey n k) (match_signatures CheckLowS f2 v fuel st c isig ikey n k).
Proof.
  revert isig ikey n k. induction fuel as [|fuel IH]; intros isig ikey n k; cbn [match_signatures]; (case_match; [done|]); repeat below_step.
  cbv zeta. match goal with |- context [(?a <? ?b)%nat] => destruct (a <? b)%nat end; [done|apply IH].
Qed.
Lemma below_drop n b i st : below (drop_arguments f1 n b i st) (drop_arguments f2 n b i st).
Proof.
  revert i st. induction n as [|n IH]; intros i st; [done|]. cbn [drop_arguments]. destruct st as [|x st]; [done|].
  apply below_forbid; [|apply IH]. flags_mono; rewrite ?andb_false_r; cbn [andb]; try done.
Qed.
Lemma below_multisig opcode m : below (exec_checkmultisig CheckLowS f1 v opcode m) (exec_checkmultisig CheckLowS f2 v opcode m).
Proof.
  unfold exec_checkmultisig. cbv zeta. repeat below_step.
  apply below_bind; [apply below_matches|]. intros b. apply below_bind; [apply below_drop|]. intros [|dummy st']; [done|].
  apply below_forbid; [|apply below_refl]. flags_mono; cbn [andb]; try done.
Qed.
Lemma below_exec_op opcode here pc fExec m : below (exec_op CheckLowS f1 v opcode here pc fExec m) (exec_op CheckLowS f2 v opcode here pc fExec m).
Proof.
  unfold exec_op. case_match; [done|]. apply below_control, below_stack, below_numeric. unfold exec_crypto.
  case_match; [apply below_refl|]. case_match; [done|]. case_match; [apply below_checksig|]. case_match; [apply below_multisig|]. apply below_refl.
Qed.
Lemma below_step_op here opcode vch pc m : below (step CheckLowS f1 v here opcode vch pc m) (step CheckLowS f2 v here opcode vch pc m).
Proof.
  unfold step. cbv zeta. do 3 (apply below_bind; [apply below_refl|intros _]). apply below_bind; [|intros ?; apply below_refl].
  case_match; [|case_match; [apply below_exec_op|done]]. apply below_forbid; [|done]. unfold fRequireMinimal. flags_mono; cbn [andb]; done.
Qed.
Lemma below_eval_loop fuel pc m : below (eval_loop CheckLowS f1 v fuel pc m) (eval_loop CheckLowS f2 v fuel pc m).
Proof.
  revert pc m. induction fuel as [|fuel IH]; intros pc m; (destruct pc as [|b pc]; [done|]); cbn [eval_loop];
    (destruct (GetOp2 (b :: pc)) as [[[op vch] rest]|]; [|done]); (apply below_bind; [apply below_step_op|]); intros m'; [done|apply IH].
Qed.
Lemma below_eval st script : below (eval CheckLowS f1 v st script) (eval CheckLowS f2 v st script).
Proof.
  unfold eval, EvalScript. destruct (_ >? MAX_SCRIPT_SIZE); [done|].
  pose proof (below_eval_loop (length script) script (mkMachine st [] [] 0 script)) as Hb.
  destruct (eval_loop CheckLowS f2 v _ _ _) as [[e|st'|]|m]; cbn [below] in Hb; [done|by rewrite Hb|done|]. rewrite Hb. apply below_refl.
Qed.
End Version.

Lemma below_witness_program witness ver program :
  below (VerifyWitnessProgram CheckLowS f1 witness ver program) (VerifyWitnessProgram CheckLowS f2 witness ver program).
Proof.
  unfold VerifyWitnessProgram. cbv zeta.
  assert (Hfin : ∀ st script, below
    (_ ← require (forallb (λ v, negb (Z.of_nat (length v) >? MAX_SCRIPT_ELEMENT_SIZE)) st) SCRIPT_ERR_PUSH_SIZE;
      st ← eval CheckLowS f1 SIGVERSION_WITNESS_V0 st script; _ ← require (length st =? 1)%nat SCRIPT_ERR_EVAL_FALSE; check_true st)
    (_ ← require (forallb (λ v, negb (Z.of_nat (length v) >? MAX_SCRIPT_ELEMENT_SIZE)) st) SCRIPT_ERR_PUSH_SIZE;
      st ← eval CheckLowS f2 SIGVERSION_WITNESS_V0 st script; _ ← require (length st =? 1)%nat SCRIPT_ERR_EVAL_FALSE; check_true st)).
  { intros st script. apply below_bind; [apply below_refl|]. intros _. apply below_bind; [apply below_eval|]. intros ?. apply below_refl. }
  case_match; [|apply below_forbid; [apply (so_flag _ _ Hso)|done]]. case_match.
  - destruct (rev witness); [done|]. apply below_bind; [apply below_refl|]. intros _. apply Hfin.
  - case_match; [|done]. apply below_bind; [apply below_refl|]. intros _. apply Hfin.
Qed.
Lemma below_verify_witness script witness b e st had : has_flag f1 SCRIPT_VERIFY_WITNESS = true →
  below (verify_witness CheckLowS f1 script witness b e st had) (verify_witness CheckLowS f2 script witness b e st had).
Proof.
  intros Hw. unfold verify_witness. rewrite Hw, (so_flag _ _ Hso _ Hw). case_match; [|done]. case_match.
  apply below_bind; [apply below_refl|]. intros _. apply below_bind; [apply below_witness_program|]. done.
Qed.
Lemma below_p2sh scriptSig witness copy had : has_flag f1 SCRIPT_VERIFY_WITNESS = true →
  below (verify_p2sh CheckLowS f1 scriptSig witness copy had) (verify_p2sh CheckLowS f2 scriptSig witness copy had).
Proof.
  intros Hw. unfold verify_p2sh. do 2 (apply below_bind; [apply below_refl|intros ?]). destruct copy as [|script st]; [done|]. apply below_bind; [apply below_eval|]. intros st'.
  apply below_bind; [apply below_refl|intros _]. by apply below_verify_witness.
Qed.
(** Without the witness flag only the success of the redeem script matters. *)
Lemma p2sh_no_witness scriptSig witness copy had had' r : has_flag f1 SCRIPT_VERIFY_WITNESS = false →
  verify_p2sh CheckLowS f2 scriptSig witness copy had = inr r → ∃ r', verify_p2sh CheckLowS f1 scriptSig witness copy had' = inr r'.
Proof.
  intros Hw. unfold verify_p2sh. destruct (IsPushOnly scriptSig) as [b|]; [|done]. cbn [or_crash mbind run_bind]. destruct b; [|done].
  cbn [require mbind run_bind]. destruct copy as [|script st]; [done|]. pose proof (below_eval SIGVERSION_BASE st script) as He.
  destruct (eval CheckLowS f2 SIGVERSION_BASE st script) as [|st']; [done|]. cbn [below] in He. rewrite He. cbn [mbind run_bind].
  destruct (check_true st') as [|[]]; [done|]. intros _. cbn [mbind run_bind]. unfold verify_witness. rewrite Hw. by eexists.
Qed.
Lemma VerifyScript_softer (Hflags : flags_ok f1) scriptSig scriptPubKey witness :
  VerifyScript CheckLowS f2 scriptSig scriptPubKey witness = inr () → VerifyScript CheckLowS f1 scriptSig scriptPubKey witness = inr ().
Proof.
  destruct Hflags as [Hclean Hwit]. unfold VerifyScript. destruct (IsPushOnly_total scriptSig) as [b Hb]. rewrite Hb.
  assert (Hpush : ∀ f, or_crash (if has_flag f SCRIPT_VERIFY_SIGPUSHONLY then Some b else Some true) =
    @inr stop bool (if has_flag f SCRIPT_VERIFY_SIGPUSHONLY then b else true)) by (intros f; by case_match).
  rewrite !Hpush. cbn [mbind run_bind].
  assert (Hreq : require (if has_flag f2 SCRIPT_VERIFY_SIGPUSHONLY then b else true) SCRIPT_ERR_SIG_PUSHONLY = inr () →
    require (if has_flag f1 SCRIPT_VERIFY_SIGPUSHONLY then b else true) SCRIPT_ERR_SIG_PUSHONLY = inr ()).
  { flags_mono; by try destruct b. }
  destruct (require (if has_flag f2 _ then _ else _) _) as [|[]]; [done|]. rewrite Hreq by done. cbn [mbind run_bind]. clear Hpush Hreq Hb b.
  pose proof (below_eval SIGVERSION_BASE [] scriptSig) as H1.
  destruct (eval CheckLowS f2 SIGVERSION_BASE [] scriptSig) as [|copy]; [done|]. cbn [below] in H1. rewrite H1. cbn [mbind run_bind]. clear H1.
  pose proof (below_eval SIGVERSION_BASE copy scriptPubKey) as H1.
  destruct (eval CheckLowS f2 SIGVERSION_BASE copy scriptPubKey) as [|st]; [done|]. cbn [below] in H1. rewrite H1. cbn [mbind run_bind]. clear H1.
  destruct (check_true st) as [|[]]; [done|]. cbn [mbind run_bind].
  destruct (has_flag f1 SCRIPT_VERIFY_WITNESS) eqn:Ew.
  - assert (Hb : ∀ r1 r2 : run unit, below r1 r2 → r2 = inr () → r1 = inr ()) by (intros r1 r2 Hr ->; exact Hr).
    apply Hb. clear Hb. specialize (Hwit eq_refl). pose proof (so_flag _ _ Hso _ Hwit) as Hp2. pose proof (so_flag _ _ Hso _ Ew) as Hw2.
    apply below_bind; [by apply below_verify_witness|]. intros [st1 had]. rewrite Hwit, Hp2, Hw2.
    apply below_bind; [case_match; [by apply below_p2sh|done]|]. intros [st2 had2].
    unfold assert_flag. rewrite Hwit, Hp2, Ew, Hw2. cbn [mbind run_bind].
    apply below_bind; [|intros _; apply below_refl]. destruct (has_flag f1 SCRIPT_VERIFY_CLEANSTACK) eqn:Ec.
    + rewrite (so_flag _ _ Hso _ Ec). apply below_refl.
    + destruct (has_flag f2 SCRIPT_VERIFY_CLEANSTACK); [|done]. by destruct (length st2 =? 1)%nat.
  - destruct (has_flag f1 SCRIPT_VERIFY_CLEANSTACK) eqn:Ec; [by specialize (Hclean eq_refl)|]. unfold verify_witness at 2. rewrite Ew. cbn [mbind run_bind].
    destruct (verify_witness CheckLowS f2 scriptPubKey _ _ _ _ _) as [|[st1 had]]; [done|]. cbn [mbind run_bind].
    destruct (has_flag f1 SCRIPT_VERIFY_P2SH && IsPayToScriptHash scriptPubKey) eqn:Ep; [|done].
    apply andb_true_iff in Ep as [Ep1 Ep2]. rewrite (so_flag _ _ Hso _ Ep1), Ep2. cbn [andb].
    destruct (verify_p2sh CheckLowS f2 scriptSig witness copy had) as [|r] eqn:Er; [done|]. intros _.
    destruct (p2sh_no_witness scriptSig witness copy had false r Ew Er) as [[st2 had2] ->]. done.
Qed.
End Softer.

(** C19. Every rule is a soft fork.  If a spend verifies under some flags, it
    verifies under any of their subsets that the code allows: the further
    flags, the checks of encodings, pay to script hash, witness programs,
    the lock times and the clean stack, only reject.  The one exception is that
    a no-op that is discouraged must not be a lock time instruction only under
    the further flags. *)
Theorem verify_script_softfork `{BaseSignatureChecker} (CheckLowS : bytes → bool) (f1 f2 : Z) (scriptSig scriptPubKey : bytes) (witness : list bytes) :
  Z.land f1 f2 = f1 → flags_ok f1 →
  (has_flag f1 SCRIPT_VERIFY_DISCOURAGE_UPGRADABLE_NOPS = true →
    (has_flag f2 SCRIPT_VERIFY_CHECKLOCKTIMEVERIFY = true → has_flag f1 SCRIPT_VERIFY_CHECKLOCKTIMEVERIFY = true) ∧
    (has_flag f2 SCRIPT_VERIFY_CHECKSEQUENCEVERIFY = true → has_flag f1 SCRIPT_VERIFY_CHECKSEQUENCEVERIFY = true)) →
  VerifyScript CheckLowS f2 scriptSig scriptPubKey witness = inr () → VerifyScript CheckLowS f1 scriptSig scriptPubKey witness = inr ().
Proof.
  intros Hsub Hok Hn. apply VerifyScript_softer; [|done]. split; [by apply subset_flags|done].
Qed.

Lemma verify_script_softfork_witness :
  VerifyScript (H := TransactionSignatureChecker (λ _ _ _, true) sighash_tx 0 5 None) (λ _, true)
    (SCRIPT_VERIFY_P2SH + SCRIPT_VERIFY_MINIMALDATA) [OP_1] [OP_DUP; OP_EQUALVERIFY; OP_1] [] = inr ().
Proof.
  apply (verify_script_softfork (H := TransactionSignatureChecker (λ _ _ _, true) sighash_tx 0 5 None) (λ _, true) _
    (SCRIPT_VERIFY_P2SH + SCRIPT_VERIFY_MINIMALDATA + SCRIPT_VERIFY_CLEANSTACK + SCRIPT_VERIFY_WITNESS)).
  - reflexivity.
  - split; intros E; discriminate E.
  - intros E. discriminate E.
  - vm_compute. reflexivity.
Defined.

(** ** Proofs: the standard spends *)

(** What does not occur at an instruction is not deleted. *)
Fixpoint absent (b : bytes) (l : list (Z * bytes)) : Prop :=
  match l with
  | [] => True
  | o :: l' => (length (print_ops (o :: l')) < length b)%nat ∨ take (length b) (print_ops (o :: l')) ≠ b
  end ∧ match l with [] => True | _ :: l' => absent b l' end.
Lemma skip_absent fuel b l n : (0 < length b)%nat → absent b l → skip_matches fuel b (print_ops l) n = Some (print_ops l, n).
Proof.
  intros Hb Ha. destruct fuel; cbn [skip_matches]; (case_match eqn:E; [|done]); exfalso; apply andb_true_iff in E as [E1 E2];
    apply bool_decide_eq_true in E2; (destruct l as [|o l]; [cbn in E1; lia|]); destruct Ha as [[Ha|Ha] _]; [lia|done|lia|done].
Qed.
Lemma absent_loop b l fuel s1 result n : (0 < length b)%nat → Forall (λ o, op_ok (fst o) (snd o)) l → absent b l → (length (print_ops l) ≤ fuel)%nat →
  ∃ r, FindAndDelete_loop fuel b (s1 ++ print_ops l) (print_ops l) result n = Some (r, [], n).
Proof.
  intros Hb. revert fuel s1 result. induction l as [|o l IH]; intros fuel s1 result Hl Ha Hf.
  - eexists. destruct fuel; cbn [FindAndDelete_loop]; rewrite skip_absent by done; reflexivity.
  - pose proof (print_length o l) as Hp. destruct fuel as [|fuel]; [lia|]. cbn [FindAndDelete_loop].
    rewrite skip_absent by done. cbn [mbind option_bind]. apply list.Forall_cons in Hl as [Ho Hl]. rewrite (GetOp2_ops o l Ho).
    rewrite print_cons. apply IH; [done|apply Ha|lia].
Qed.
Lemma FindAndDelete_absent b l : (0 < length b)%nat → Forall (λ o, op_ok (fst o) (snd o)) l → absent b l →
  FindAndDelete (print_ops l) b = Some (print_ops l, 0).
Proof.
  intros Hb Hl Ha. unfold FindAndDelete. destruct (length b =? 0)%nat eqn:E; [done|].
  destruct (absent_loop b l (length (print_ops l)) [] [] 0 Hb Hl Ha ltac:(done)) as [r Er]. cbn [app] in Er. rewrite Er. done.
Qed.

Definition p2pkh_ops (h : bytes) : list (Z * bytes) := [(OP_DUP, []); (OP_HASH160, []); (20, h); (OP_EQUALVERIFY, []); (OP_CHECKSIG, [])].
Lemma p2pkh_ops_ok h : bytes_ok h → length h = 20%nat → Forall (λ o, op_ok (fst o) (snd o)) (p2pkh_ops h) ∧ p2pkh_script h = print_ops (p2pkh_ops h).
Proof.
  intros Hb Hl. split.
  - repeat (apply list.Forall_cons; split); try (by apply opcode_ok); [|constructor]. cbn [fst snd]. split; [done|]. split; [done|]. by rewrite Hl.
  - unfold p2pkh_script. destruct (push_data_op [OP_DUP; OP_HASH160] h Hb ltac:(lia)) as [-> _]. by rewrite Hl, <- app_assoc.
Qed.
Lemma p2pkh_absent h sig : length h = 20%nat → (1 ≤ length sig ≤ 75)%nat → length sig ≠ 20%nat → absent (Z.of_nat (length sig) :: sig) (p2pkh_ops h).
Proof.
  intros Hh Hs Hn. cbn [p2pkh_ops absent]. split_and!; try done; right; cbn; intros [= E _]; revert E; unfold OP_DUP, OP_HASH160, OP_EQUALVERIFY, OP_CHECKSIG; lia.
Qed.

Section Standard.
Context `{BaseSignatureChecker} (CheckLowS : bytes → bool) (flags : Z).
(** The end of a standard spend: the encodings and the signature. *)
Definition signed_by (v : SigVersion) (key sig code : bytes) : run unit :=
  _ ← CheckSignatureEncoding CheckLowS sig flags;
  _ ← CheckPubKeyEncoding key flags v;
  b ← or_crash (CheckSig sig key code v);
  if negb b && has_flag flags SCRIPT_VERIFY_NULLFAIL && negb (length sig =? 0)%nat then fails SCRIPT_ERR_SIG_NULLFAIL
  else require b SCRIPT_ERR_EVAL_FALSE.
Definition spends (v : SigVersion) (h key sig : bytes) : run unit :=
  if bool_decide (Hashes.Hash160 key = h) then signed_by v key sig (p2pkh_script h) else fails SCRIPT_ERR_EQUALVERIFY.

Lemma sig_encoding_cases sig : CheckSignatureEncoding CheckLowS sig flags = inr () ∨ ∃ e, CheckSignatureEncoding CheckLowS sig flags = fails e.
Proof. unfold CheckSignatureEncoding, IsLowDERSignature, require. repeat case_match; cbn; try (by left); right; by eexists. Qed.
Lemma key_encoding_cases v key : CheckPubKeyEncoding key flags v = inr () ∨ ∃ e, CheckPubKeyEncoding key flags v = fails e.
Proof. unfold CheckPubKeyEncoding, require. repeat case_match; cbn; try (by left); right; by eexists. Qed.
Ltac next_op := rewrite print_cons; cbn [fst snd]; rewrite eval_loop_cons; [|try by apply opcode_ok].
Lemma p2pkh_eval v h key sig : bytes_ok h → length h = 20%nat →
  (is_base v = true → FindAndDelete (p2pkh_script h) (push_data [] sig) = Some (p2pkh_script h, 0)) →
  eval CheckLowS flags v [key; sig] (p2pkh_script h) =
    if bool_decide (Hashes.Hash160 key = h) then
      _ ← CheckSignatureEncoding CheckLowS sig flags; _ ← CheckPubKeyEncoding key flags v;
      b ← or_crash (CheckSig sig key (p2pkh_script h) v);
      if negb b && has_flag flags SCRIPT_VERIFY_NULLFAIL && negb (length sig =? 0)%nat then fails SCRIPT_ERR_SIG_NULLFAIL
      else inr [of_bool b]
    else fails SCRIPT_ERR_EQUALVERIFY.
Proof.
  intros Hb Hl Hfd. destruct (p2pkh_ops_ok h Hb Hl) as [Hok E]. unfold eval, EvalScript.
  assert (Hlen : length (p2pkh_script h) = 25%nat) by (rewrite E; cbn; rewrite length_app, Hl; done).
  rewrite Hlen. change (Z.of_nat 25 >? MAX_SCRIPT_SIZE) with false. cbv iota.
  set (code := p2pkh_script h) in *. rewrite E at 1. unfold p2pkh_ops.
  next_op. rewrite step_op, exec_op_dup by done. cbn [set_ops set_stack stack altstack vfExec nOpCount mbind run_bind length].
  change (require _ _) with (@inr stop unit ()). cbn [mbind run_bind].
  next_op. rewrite step_op, exec_op_hash160 by done. cbn [set_ops set_stack stack altstack vfExec nOpCount mbind run_bind length].
  change (require _ _) with (@inr stop unit ()). cbn [mbind run_bind].
  next_op; [|by split; [done|split; [done|rewrite Hl]]]. rewrite step_push; [|done|unfold MAX_SCRIPT_ELEMENT_SIZE; lia|done].
  replace (fRequireMinimal flags && negb (CheckMinimalPush h 20)) with false
    by (unfold CheckMinimalPush; rewrite Hl; by rewrite andb_false_r).
  cbn [set_ops set_stack stack altstack vfExec nOpCount mbind run_bind length].
  change (require _ _) with (@inr stop unit ()). cbn [mbind run_bind].
  next_op. rewrite step_op, exec_op_equalverify by done. cbn [set_ops set_stack stack altstack vfExec nOpCount mbind run_bind length].
  destruct (bool_decide (Hashes.Hash160 key = h)); [|done]. cbn [set_ops set_stack stack altstack vfExec nOpCount mbind run_bind length].
  change (require _ _) with (@inr stop unit ()). cbn [mbind run_bind].
  next_op. rewrite step_op, exec_op_checksig by done. unfold exec_checksig. cbn [set_ops set_stack stack altstack vfExec nOpCount pbegincodehash].
  replace (if is_base v then delete_signature code sig else inr code) with (@inr stop bytes code).
  2:{ destruct (is_base v); [|done]. unfold delete_signature. by rewrite Hfd. }
  cbn [mbind run_bind].
  destruct (sig_encoding_cases sig) as [-> | [e ->]]; [|done]. cbn [mbind run_bind].
  destruct (key_encoding_cases v key) as [-> | [e ->]]; [|done]. cbn [mbind run_bind].
  destruct (CheckSig sig key code v) as [b|]; [|done]. cbn [or_crash mbind run_bind].
  destruct (_ && _ && _); [done|]. change (OP_CHECKSIG =? OP_CHECKSIGVERIFY) with false. cbn [mbind run_bind set_stack stack altstack length].
  change (require _ _) with (@inr stop unit ()). cbn [mbind run_bind]. done.
Qed.

Lemma resize1_length st : length (resize1 st) = 1%nat.
Proof. done. Qed.
(** The checks at the end. *)
Lemma verify_end (Hflags : flags_ok flags) (st : list bytes) had (witness : list bytes) : length st = 1%nat → had = true ∨ witness = [] →
  (_ ← (if has_flag flags SCRIPT_VERIFY_CLEANSTACK then
         _ ← assert_flag flags SCRIPT_VERIFY_P2SH;
         _ ← assert_flag flags SCRIPT_VERIFY_WITNESS;
         require (length st =? 1)%nat SCRIPT_ERR_CLEANSTACK
       else inr ());
  if has_flag flags SCRIPT_VERIFY_WITNESS then
    _ ← assert_flag flags SCRIPT_VERIFY_P2SH;
    require (negb (negb had && negb (length witness =? 0)%nat)) SCRIPT_ERR_WITNESS_UNEXPECTED
  else inr ()) = inr ().
Proof.
  intros Hst Hw. destruct Hflags as [Hclean Hwit]. unfold assert_flag. rewrite Hst.
  replace (negb (negb had && negb (length witness =? 0)%nat)) with true by (destruct Hw as [-> | ->]; [done|by rewrite andb_false_r]).
  destruct (has_flag flags SCRIPT_VERIFY_WITNESS) eqn:Ew.
  - rewrite Hwit by done. by destruct (has_flag flags SCRIPT_VERIFY_CLEANSTACK).
  - destruct (has_flag flags SCRIPT_VERIFY_CLEANSTACK); [by specialize (Hclean eq_refl)|done].
Qed.
Lemma push_eval op data fuel rest m : op_ok op data → (op = 0 ∨ 2 ≤ op ≤ 75) → vfExec m = [] → Z.of_nat (length (stack m) + length (altstack m)) < MAX_STACK_SIZE →
  eval_loop CheckLowS flags SIGVERSION_BASE (S fuel) (op_bytes op data ++ rest) m = eval_loop CheckLowS flags SIGVERSION_BASE fuel rest (set_stack m (data :: stack m)).
Proof.
  intros Hok Hop Hv Hst. rewrite eval_loop_cons by done.
  assert (Hlen : Z.of_nat (length data) = op).
  { destruct Hok as (_ & _ & Hd). by replace (op <? OP_PUSHDATA1) with true in Hd by (unfold OP_PUSHDATA1; lia). }
  rewrite step_push; [|unfold OP_PUSHDATA4; lia|unfold MAX_SCRIPT_ELEMENT_SIZE; lia|done].
  assert (Hmin : CheckMinimalPush data op = true).
  { unfold CheckMinimalPush. rewrite Hlen. destruct Hop as [->|Hop]; [done|]. replace (op =? 0) with false by lia.
    replace (op =? 1) with false by lia. cbn [andb]. replace (op <=? 75) with true by lia. apply Z.eqb_refl. }
  rewrite Hmin, andb_false_r. replace (_ >? MAX_STACK_SIZE) with false by lia. done.
Qed.
Lemma eval_pushes l : Forall (λ o, op_ok (fst o) (snd o) ∧ (fst o = 0 ∨ 2 ≤ fst o ≤ 75)) l → Z.of_nat (length l) ≤ 4 →
  eval CheckLowS flags SIGVERSION_BASE [] (print_ops l) = inr (rev (map snd l)).
Proof.
  intros Hl Hn. unfold eval, EvalScript.
  assert (Hlen : Z.of_nat (length (print_ops l)) ≤ 76 * Z.of_nat (length l)).
  { clear Hn. induction Hl as [|o l (Ho & Hop) Hl IH]; [done|]. rewrite print_cons, length_app. cbn [length]. unfold op_bytes.
    destruct Ho as (_ & _ & Hd). assert (Ep : (fst o <? OP_PUSHDATA1) = true) by (unfold OP_PUSHDATA1; lia). cbv zeta in Hd. cbn [fst snd] in *. rewrite Ep in Hd |- *. cbn [length]. lia. }
  replace (_ >? MAX_SCRIPT_SIZE) with false by (unfold MAX_SCRIPT_SIZE; lia).
  assert (H0 : ∀ l fuel m, Forall (λ o, op_ok (fst o) (snd o) ∧ (fst o = 0 ∨ 2 ≤ fst o ≤ 75)) l → vfExec m = [] →
    Z.of_nat (length l + length (stack m) + length (altstack m)) < MAX_STACK_SIZE → (length (print_ops l) ≤ fuel)%nat →
    eval_loop CheckLowS flags SIGVERSION_BASE fuel (print_ops l) m = inr (set_stack m (rev (map snd l) ++ stack m))).
  { clear. induction l as [|o l IH]; intros fuel m Hl Hv Hs Hf; [by destruct m, fuel|].
    apply list.Forall_cons in Hl as [[Ho Hop] Hl]. pose proof (print_length o l). destruct fuel as [|fuel]; [lia|].
    rewrite print_cons, push_eval by (done || (cbn [length] in Hs; lia)). rewrite IH by (done || (cbn [set_stack stack altstack length] in *; lia)).
    cbn [map rev set_stack stack altstack vfExec nOpCount pbegincodehash]. by rewrite <- app_assoc. }
  rewrite H0; [|done|done|cbn [stack altstack length]; unfold MAX_STACK_SIZE; lia|lia]. cbn [set_stack stack vfExec]. by rewrite app_nil_r.
Qed.
Lemma IsPushOnly_pushes l : Forall (λ o, op_ok (fst o) (snd o) ∧ (fst o = 0 ∨ 2 ≤ fst o ≤ 75)) l → IsPushOnly (print_ops l) = Some true.
Proof.
  intros Hl. unfold IsPushOnly. assert (H0 : ∀ l fuel, Forall (λ o, op_ok (fst o) (snd o) ∧ (fst o = 0 ∨ 2 ≤ fst o ≤ 75)) l →
    (length (print_ops l) ≤ fuel)%nat → IsPushOnly_loop fuel (print_ops l) = Some true); [|by apply H0].
  clear. induction l as [|o l IH]; intros fuel Hl Hf; [by destruct fuel|].
  apply list.Forall_cons in Hl as [[Ho Hop] Hl]. pose proof (print_length o l). destruct fuel as [|fuel]; [lia|].
  rewrite IsPushOnly_loop_step by (intros E; by rewrite E in *). rewrite (GetOp2_ops o l Ho).
  replace (fst o <=? OP_16) with true by (unfold OP_16; lia). apply IH; [done|lia].
Qed.
(** The run of the output's script and the spend it decides. *)
Lemma spends_cases v h key sig : bytes_ok h → length h = 20%nat →
  (is_base v = true → FindAndDelete (p2pkh_script h) (push_data [] sig) = Some (p2pkh_script h, 0)) →
  (∃ s, eval CheckLowS flags v [key; sig] (p2pkh_script h) = inl s ∧ spends v h key sig = inl s) ∨
  (eval CheckLowS flags v [key; sig] (p2pkh_script h) = inr [vchTrue] ∧ spends v h key sig = inr ()) ∨
  (eval CheckLowS flags v [key; sig] (p2pkh_script h) = inr [vchFalse] ∧ spends v h key sig = fails SCRIPT_ERR_EVAL_FALSE).
Proof.
  intros Hh Hl Hfd. rewrite (p2pkh_eval v h key sig Hh Hl Hfd). unfold spends, signed_by.
  destruct (bool_decide (Hashes.Hash160 key = h)); [|left; by eexists].
  destruct (CheckSignatureEncoding CheckLowS sig flags) as [s|[]]; [left; by exists s|]. cbn [mbind run_bind].
  destruct (CheckPubKeyEncoding key flags v) as [s|[]]; [left; by exists s|]. cbn [mbind run_bind].
  destruct (CheckSig sig key (p2pkh_script h) v) as [b|]; [|left; by eexists]. cbn [or_crash mbind run_bind].
  destruct (_ && _ && _); [left; by eexists|]. right. by destruct b; [left|right].
Qed.
End Standard.

Section StandardSpends.
Context `{BaseSignatureChecker} (CheckLowS : bytes → bool) (flags : Z) (h : bytes).
Context (Hf : flags_ok flags) (Hh : bytes_ok h) (Hl : length h = 20%nat).
Lemma p2pkh_verify key sig : bytes_ok sig → bytes_ok key → (2 ≤ length sig ≤ 75)%nat → length sig ≠ 20%nat → (2 ≤ length key ≤ 75)%nat →
  VerifyScript CheckLowS flags (push_data (push_data [] sig) key) (p2pkh_script h) [] = spends CheckLowS flags SIGVERSION_BASE h key sig.
Proof.
  intros Hs Hk Hsl Hn Hkl.
  set (ops := [(Z.of_nat (length sig), sig); (Z.of_nat (length key), key)]).
  assert (Hpush : ∀ s b, bytes_ok b → (2 ≤ length b ≤ 75)%nat → push_data s b = s ++ op_bytes (Z.of_nat (length b)) b ∧ op_ok (Z.of_nat (length b)) b).
  { intros s b Hb Hbl. pose proof (push_data_op s b Hb ltac:(lia)) as Hp. unfold push_op in Hp.
    by replace (Z.of_nat (length b) <? OP_PUSHDATA1) with true in Hp by (unfold OP_PUSHDATA1; lia). }
  destruct (Hpush [] sig Hs Hsl) as [E1 O1]. destruct (Hpush (push_data [] sig) key Hk Hkl) as [E2 O2].
  assert (E : push_data (push_data [] sig) key = print_ops ops) by (rewrite E2, E1; unfold ops; by rewrite app_nil_l, !print_cons, app_nil_r).
  assert (Hops : Forall (λ o, op_ok (fst o) (snd o) ∧ (fst o = 0 ∨ 2 ≤ fst o ≤ 75)) ops).
  { apply list.Forall_cons. split; [split; [done|cbn; lia]|]. apply list.Forall_cons. split; [split; [done|cbn; lia]|constructor]. }
  destruct (p2pkh_ops_ok h Hh Hl) as [Hok Eops].
  assert (Hfd : FindAndDelete (p2pkh_script h) (push_data [] sig) = Some (p2pkh_script h, 0)).
  { rewrite Eops, E1. unfold op_bytes. replace (Z.of_nat (length sig) <? OP_PUSHDATA1) with true by (unfold OP_PUSHDATA1; lia). cbn [app].
    apply FindAndDelete_absent; [cbn; lia|done|apply p2pkh_absent; [done|lia|done]]. }
  unfold VerifyScript. rewrite E. rewrite IsPushOnly_pushes by done.
  replace (or_crash (if has_flag flags SCRIPT_VERIFY_SIGPUSHONLY then Some true else Some true)) with (@inr stop bool true) by (by case_match).
  cbn [mbind run_bind require]. rewrite eval_pushes by done. cbn [mbind run_bind rev map snd app ops].
  destruct (spends_cases CheckLowS flags SIGVERSION_BASE h key sig Hh Hl (λ _, Hfd)) as [(x & -> & ->)|[[-> ->]|[-> ->]]]; [done| |done].
  cbn [mbind run_bind check_true]. change (require (CastToBool vchTrue) SCRIPT_ERR_EVAL_FALSE) with (@inr stop unit ()). cbn [mbind run_bind].
  assert (Hshape : IsWitnessProgram (p2pkh_script h) = None ∧ IsPayToScriptHash (p2pkh_script h) = false).
  { rewrite Eops. unfold IsWitnessProgram, IsPayToScriptHash. replace (length (print_ops (p2pkh_ops h))) with 25%nat; [done|].
    cbn. by rewrite length_app, Hl. }
  destruct Hshape as [W P]. unfold verify_witness. rewrite W, P, andb_false_r.
  replace (if has_flag flags SCRIPT_VERIFY_WITNESS then inr ([vchTrue], false) else inr ([vchTrue], false)) with (@inr stop _ ([vchTrue], false)) by (by case_match).
  cbn [mbind run_bind]. apply verify_end; [done|done|by right].
Qed.
Lemma p2wpkh_verify key sig : has_flag flags SCRIPT_VERIFY_WITNESS = true → CastToBool h = true →
  Z.of_nat (length sig) ≤ MAX_SCRIPT_ELEMENT_SIZE → Z.of_nat (length key) ≤ MAX_SCRIPT_ELEMENT_SIZE →
  VerifyScript CheckLowS flags [] (OP_0 :: 20 :: h) [sig; key] = spends CheckLowS flags SIGVERSION_WITNESS_V0 h key sig.
Proof.
  intros Hw Hc Hsl Hkl.
  assert (Hops : Forall (λ o, op_ok (fst o) (snd o) ∧ (fst o = 0 ∨ 2 ≤ fst o ≤ 75)) [(0, []); (20, h)]).
  { apply list.Forall_cons. split; [split; [|by left]|].
    - split; [done|]. split; [apply bytes_ok_nil|done].
    - apply list.Forall_cons. split; [split; [|right; cbn; lia]|constructor]. split; [done|]. split; [done|]. by cbn; rewrite Hl. }
  assert (E : OP_0 :: 20 :: h = print_ops [(0, []); (20, h)]) by (by rewrite !print_cons, app_nil_r).
  unfold VerifyScript.
  replace (or_crash (if has_flag flags SCRIPT_VERIFY_SIGPUSHONLY then IsPushOnly [] else Some true)) with (@inr stop bool true) by (by case_match).
  cbn [mbind run_bind require]. change (eval CheckLowS flags SIGVERSION_BASE [] []) with (@inr stop (list bytes) []). cbn [mbind run_bind].
  rewrite E at 1. rewrite eval_pushes by done. cbn [mbind run_bind rev map snd app check_true]. rewrite Hc. cbn [require mbind run_bind].
  assert (Hshape : IsWitnessProgram (OP_0 :: 20 :: h) = Some (0, h) ∧ IsPayToScriptHash (OP_0 :: 20 :: h) = false).
  { unfold IsWitnessProgram, IsPayToScriptHash. cbn [length]. by rewrite Hl. }
  destruct Hshape as [W P]. unfold verify_witness. rewrite Hw, W, P, andb_false_r. cbn [length Nat.eqb require mbind run_bind].
  unfold VerifyWitnessProgram. cbn [Z.eqb]. rewrite Hl. cbn [Nat.eqb length require mbind run_bind rev app forallb].
  replace (Z.of_nat (length key) >? MAX_SCRIPT_ELEMENT_SIZE) with false by lia.
  replace (Z.of_nat (length sig) >? MAX_SCRIPT_ELEMENT_SIZE) with false by lia. cbn [negb andb require mbind run_bind].
  destruct (spends_cases CheckLowS flags SIGVERSION_WITNESS_V0 h key sig Hh Hl ltac:(done)) as [(x & -> & ->)|[[-> ->]|[-> ->]]]; [done| |done].
  cbn [mbind run_bind check_true]. change (require (CastToBool vchTrue) SCRIPT_ERR_EVAL_FALSE) with (@inr stop unit ()). cbn [mbind run_bind].
  pose proof (verify_end flags Hf (resize1 [h; []]) true [sig; key] eq_refl (or_introl eq_refl)) as Hend. rewrite Hw in Hend. exact Hend.
Qed.
End StandardSpends.

(** C31. The standard spends.  A pay to public key hash output is spent by a
    signature and a key exactly when the key hashes to the output's hash and
    the signature is valid for that key and that output's script, under the
    rules on their encodings; each failure gives its own error.  A version 0
    witness program of 20 bytes, spent with a signature and a key in the
    witness and an empty input script, is the same verification with the witness's signature hash. *)
Theorem standard_spends `{BaseSignatureChecker} (CheckLowS : bytes → bool) (flags : Z) (h key sig : bytes) :
  flags_ok flags → bytes_ok h → length h = 20%nat →
  (bytes_ok sig → bytes_ok key → (2 ≤ length sig ≤ 75)%nat → length sig ≠ 20%nat → (2 ≤ length key ≤ 75)%nat →
   VerifyScript CheckLowS flags (push_data (push_data [] sig) key) (p2pkh_script h) [] = spends CheckLowS flags SIGVERSION_BASE h key sig) ∧
  (has_flag flags SCRIPT_VERIFY_WITNESS = true → CastToBool h = true →
   Z.of_nat (length sig) ≤ MAX_SCRIPT_ELEMENT_SIZE → Z.of_nat (length key) ≤ MAX_SCRIPT_ELEMENT_SIZE →
   VerifyScript CheckLowS flags [] (OP_0 :: 20 :: h) [sig; key] = spends CheckLowS flags SIGVERSION_WITNESS_V0 h key sig).
Proof. intros Hf Hh Hl. split; [by apply p2pkh_verify|by apply p2wpkh_verify]. Qed.

Definition spend_key : bytes := 2 :: replicate 32 5.
Definition spend_sig : bytes := replicate 9 1.
Definition spend_checker : BaseSignatureChecker := TransactionSignatureChecker (λ _ _ _, true) sighash_tx 0 5 None.
Lemma standard_spends_witness :
  VerifyScript (H := spend_checker) (λ _, true) (SCRIPT_VERIFY_P2SH + SCRIPT_VERIFY_WITNESS)
    (push_data (push_data [] spend_sig) spend_key) (p2pkh_script (Hashes.Hash160 spend_key)) [] = inr () ∧
  VerifyScript (H := spend_checker) (λ _, true) (SCRIPT_VERIFY_P2SH + SCRIPT_VERIFY_WITNESS)
    [] (OP_0 :: 20 :: Hashes.Hash160 spend_key) [spend_sig; spend_key] = inr ().
Proof.
  destruct (standard_spends (H := spend_checker) (λ _, true) (SCRIPT_VERIFY_P2SH + SCRIPT_VERIFY_WITNESS)
    (Hashes.Hash160 spend_key) spend_key spend_sig) as [H1 H2].
  - split; intros E; [discriminate E|reflexivity].
  - apply bytes_ok_compute. vm_compute. reflexivity.
  - vm_compute. reflexivity.
  - split.
    + rewrite H1; [vm_compute; reflexivity|by apply bytes_ok_compute|by apply bytes_ok_compute|cbn; lia|cbn; lia|cbn; lia].
    + rewrite H2; [vm_compute; reflexivity|reflexivity|vm_compute; reflexivity|by vm_compute|by vm_compute].
Defined.
