(* ===== verification/Standard.v ===== *)
(** * Standard scripts (src/src/script/standard.cpp)

    [Solver] compares an output's script with the templates of the standard
    transactions and of the contract transactions; [ExtractDestination] reads the
    addresses, and the [GetScriptFor] functions write the scripts. *)

From stdpp Require Import base numbers list option.
From Stdlib Require Import ZArith Lia ZifyNat ZifyBool.
From S2P Require Import Prelude BlockStream StrEncodings Endian Hash Sha256 Script Transaction Compressor Interpreter SigHash VerifyScript.

Inductive txnouttype :=
  | TX_NONSTANDARD | TX_PUBKEY | TX_PUBKEYHASH | TX_SCRIPTHASH | TX_MULTISIG | TX_NULL_DATA
  | TX_WITNESS_V0_SCRIPTHASH | TX_WITNESS_V0_KEYHASH | TX_CREATE | TX_CALL | TX_SSTX.
#[export] Instance txnouttype_eq_dec : EqDecision txnouttype.
Proof. solve_decision. Defined.

(** ** Versions of the virtual machine

    The bit fields of the structure, as the little-endian word they are in memory. *)
Record VersionVM := mkVersionVM { vm_format : Z; rootVM : Z; vmVersion : Z; flagOptions : Z }.
Definition toRaw (v : VersionVM) : Z :=
  Z.lor (Z.lor (vm_format v) (Z.shiftl (rootVM v) 2)) (Z.lor (Z.shiftl (vmVersion v) 8) (Z.shiftl (flagOptions v) 16)).
Definition fromRaw (val : Z) : VersionVM :=
  mkVersionVM (Z.land val 0x3) (Z.land (Z.shiftr val 2) 0x3f) (Z.land (Z.shiftr val 8) 0xff) (Z.land (Z.shiftr val 16) 0xffff).
Definition GetNoExec : VersionVM := mkVersionVM 0 0 0 0.
Definition GetEVMDefault : VersionVM := mkVersionVM 0 1 0 0.

Definition STANDARD_MINIMUM_GAS_LIMIT : Z := 10000.
Definition STANDARD_MINIMUM_GAS_PRICE : Z := 1.
Definition MAX_BLOCK_GAS_LIMIT_DGP : Z := 1000000000.
Definition DEFAULT_BLOCK_GAS_LIMIT_DGP : Z := 40000000.

(** ** Templates

    In the order of the multimap. *)
Definition mTemplates : list (txnouttype * bytes) :=
  [(TX_PUBKEY, [OP_PUBKEY; OP_CHECKSIG]);
   (TX_PUBKEYHASH, [OP_DUP; OP_HASH160; OP_PUBKEYHASH; OP_EQUALVERIFY; OP_CHECKSIG]);
   (TX_MULTISIG, [OP_SMALLINTEGER; OP_PUBKEYS; OP_SMALLINTEGER; OP_CHECKMULTISIG]);
   (TX_CREATE, [OP_VERSION; OP_GAS_LIMIT; OP_GAS_PRICE; OP_DATA; OP_CREATE]);
   (TX_CALL, [OP_VERSION; OP_GAS_LIMIT; OP_GAS_PRICE; OP_DATA; OP_PUBKEYHASH; OP_CALL])].

(** One comparison goes on with the root of the machine and the solutions,
    leaves the loop, or returns false from [Solver]. *)
Inductive turn := Next (root : Z) (sols : list bytes) | Break | Refuse.

Definition match_version (opcode1 : Z) (vch1 : bytes) (root : Z) (sols : list bytes) : option turn :=
  if opcode1 <=? OP_PUSHDATA4 then
    if (length vch1 =? 0)%nat || (4 <? length vch1)%nat || negb (Z.land (List.last vch1 0) 0x80 =? 0) then Some Refuse
    else
      val ← vch_to_uint64 vch1;
      let version := fromRaw (u32 val) in
      if negb ((toRaw version =? toRaw GetEVMDefault) || (toRaw version =? toRaw GetNoExec)) then Some Refuse
      else Some (Next (rootVM version) sols)
  else Some (Next root sols).

(** [false] where [Solver] returns. *)
Definition gas_limit_ok (contractConsensus : bool) (root val : Z) : bool :=
  if contractConsensus then
    if negb (root =? 0) && (val <? 1) then false else if val >? MAX_BLOCK_GAS_LIMIT_DGP then false else true
  else
    if negb (root =? 0) && (val <? STANDARD_MINIMUM_GAS_LIMIT) then false
    else if val >? DEFAULT_BLOCK_GAS_LIMIT_DGP / 2 then false else true.
Definition gas_price_ok (contractConsensus : bool) (root val : Z) : bool :=
  if contractConsensus then (if negb (root =? 0) && (val <? 1) then false else true)
  else if negb (root =? 0) && (val <? STANDARD_MINIMUM_GAS_PRICE) then false else true.

(** [root] is [version.rootVM], 20 until a version has been read; the other
    fields are not read. *)
Definition match_op (contractConsensus : bool) (opcode1 : Z) (vch1 : bytes) (opcode2 : Z) (vch2 : bytes)
  (root : Z) (sols : list bytes) : option turn :=
  if opcode2 =? OP_PUBKEY then
    if (length vch1 <? 33)%nat || (65 <? length vch1)%nat then Some Break else Some (Next root (sols ++ [vch1]))
  else if opcode2 =? OP_PUBKEYHASH then
    if negb (length vch1 =? 20)%nat then Some Break else Some (Next root (sols ++ [vch1]))
  else if opcode2 =? OP_SMALLINTEGER then
    if (opcode1 =? OP_0) || ((opcode1 >=? OP_1) && (opcode1 <=? OP_16)) then
      n ← DecodeOP_N opcode1; Some (Next root (sols ++ [[n]]))
    else Some Break
  else if opcode2 =? OP_VERSION then match_version opcode1 vch1 root sols
  else if opcode2 =? OP_GAS_LIMIT then
    match vch_to_uint64 vch1 with
    | Some val => Some (if gas_limit_ok contractConsensus root val then Next root sols else Refuse)
    | None => Some Refuse
    end
  else if opcode2 =? OP_GAS_PRICE then
    match vch_to_uint64 vch1 with
    | Some val => Some (if gas_price_ok contractConsensus root val then Next root sols else Refuse)
    | None => Some Refuse
    end
  else if opcode2 =? OP_DATA then
    Some (if (opcode1 <=? OP_PUSHDATA4) && (length vch1 =? 0)%nat then Break else Next root sols)
  else if negb (opcode1 =? opcode2) || negb (bool_decide (vch1 = vch2)) then Some Break
  else Some (Next root sols).

(** The keys of a multisignature script.  When an instruction cannot be read the
    opcode is [OP_INVALIDOPCODE] and its data empty; the template then wants a
    small integer, so the loop is left and the position does not matter. *)
Fixpoint take_pubkeys (fuel : nat) (opcode1 : Z) (vch1 pc1 : bytes) (sols : list bytes) : option (Z * bytes * bytes * list bytes) :=
  if (33 <=? length vch1)%nat && (length vch1 <=? 65)%nat then
    let sols := sols ++ [vch1] in
    match GetOp2 pc1 with
    | None => Some (OP_INVALIDOPCODE, [], pc1, sols)
    | Some (opcode1, vch1, pc1) =>
        match fuel with O => None | S fuel' => take_pubkeys fuel' opcode1 vch1 pc1 sols end
    end
  else Some (opcode1, vch1, pc1, sols).

Inductive outcome := Found (sols : list bytes) | NoMatch | Refused (sols : list bytes).

(** Each turn reads an instruction of the template: its length is the fuel. *)
Fixpoint match_template (fuel : nat) (contractConsensus : bool) (pc1 pc2 : bytes) (root : Z) (sols : list bytes) : option outcome :=
  if (length pc1 =? 0)%nat && (length pc2 =? 0)%nat then Some (Found sols)
  else
    match GetOp2 pc1 with
    | None => Some NoMatch
    | Some (opcode1, vch1, pc1) =>
        match GetOp2 pc2 with
        | None => Some NoMatch
        | Some (opcode2, vch2, pc2) =>
            let next opcode1 vch1 pc1 opcode2 vch2 pc2 sols :=
              r ← match_op contractConsensus opcode1 vch1 opcode2 vch2 root sols;
              match r with
              | Break => Some NoMatch
              | Refuse => Some (Refused sols)
              | Next root sols =>
                  match fuel with O => None | S fuel' => match_template fuel' contractConsensus pc1 pc2 root sols end
              end in
            if opcode2 =? OP_PUBKEYS then
              '(opcode1, vch1, pc1, sols) ← take_pubkeys (length pc1) opcode1 vch1 pc1 sols;
              match GetOp2 pc2 with
              | None => Some NoMatch
              | Some (opcode2, vch2, pc2) => next opcode1 vch1 pc1 opcode2 vch2 pc2 sols
              end
            else next opcode1 vch1 pc1 opcode2 vch2 pc2 sols
        end
    end.

(** [vSolutionsRet.front()[0]] and [vSolutionsRet.back()[0]]. *)
Definition multisig_ok (sols : list bytes) : bool :=
  let m := char_at (hd [] sols) 0 in
  let n := char_at (List.last sols []) 0 in
  negb ((m <? 1) || (n <? 1) || (m >? n) || negb (Z.of_nat (length sols) - 2 =? n)).

Fixpoint scan_templates (contractConsensus : bool) (script : bytes) (l : list (txnouttype * bytes)) (typeRet : txnouttype) :
  option (bool * txnouttype * list bytes) :=
  match l with
  | [] => Some (false, TX_NONSTANDARD, [])
  | (t, script2) :: l =>
      r ← match_template (length script2) contractConsensus script script2 20 [];
      match r with
      | Found sols => Some (negb (bool_decide (t = TX_MULTISIG) && negb (multisig_ok sols)), t, sols)
      | Refused sols => Some (false, typeRet, sols)
      | NoMatch => scan_templates contractConsensus script l typeRet
      end
  end.

(** The result, and the references it sets: the type, which keeps its value
    [typeRet] on some of the ways out, and the solutions.  [None]: the first byte of
    an empty script is read. *)
Definition Solver (script : bytes) (typeRet : txnouttype) (contractConsensus : bool) : option (bool * txnouttype * list bytes) :=
  if IsPayToScriptHash script then Some (true, TX_SCRIPTHASH, [take 20 (drop 2 script)])
  else
    match IsWitnessProgram script with
    | Some (witnessversion, witnessprogram) =>
        if (witnessversion =? 0) && (length witnessprogram =? 20)%nat then Some (true, TX_WITNESS_V0_KEYHASH, [witnessprogram])
        else if (witnessversion =? 0) && (length witnessprogram =? 32)%nat then Some (true, TX_WITNESS_V0_SCRIPTHASH, [witnessprogram])
        else Some (false, typeRet, [])
    | None =>
        null_data ← (if (1 <=? length script)%nat && (char_at script 0 =? OP_RETURN) then IsPushOnly (drop 1 script) else Some false);
        (if (null_data : bool) then Some (true, TX_NULL_DATA, [])
         else
           sstx ← HasOpSStx script;
           if (sstx : bool) then Some (true, TX_SSTX, [])
           else scan_templates contractConsensus script mTemplates typeRet)
    end.

(** ** Destinations *)
Inductive CTxDestination := CNoDestination | CKeyID (hash : bytes) | CScriptID (hash : bytes).

(** [uint160] of a vector: its size is asserted. *)
Definition uint160_of (vch : bytes) : option bytes := if (length vch =? 20)%nat then Some vch else None.
(** The bytes of a key from [begin()] to [end()]: none when it is invalid. *)
Definition CPubKey_bytes (pubkey : bytes) : bytes := take (match pubkey with c :: _ => pubkey_GetLen c | [] => 0%nat end) pubkey.
Definition CPubKey_GetID (pubkey : bytes) : bytes := Hashes.Hash160 (CPubKey_bytes pubkey).

(** The address when the function returns true, and the type when it is set. *)
Definition ExtractDestination (script : bytes) : option (option CTxDestination * option txnouttype) :=
  '(ok, whichType, vSolutions) ← Solver script TX_NONSTANDARD false;
  if negb ok then Some (None, None)
  else
    match whichType with
    | TX_PUBKEY =>
        v ← head vSolutions;
        let pubKey := pubkey_Set v in
        if negb (pubkey_IsValid pubKey) then Some (None, Some whichType)
        else Some (Some (CKeyID (CPubKey_GetID pubKey)), Some whichType)
    | TX_PUBKEYHASH => v ← head vSolutions; h ← uint160_of v; Some (Some (CKeyID h), Some whichType)
    | TX_SCRIPTHASH => v ← head vSolutions; h ← uint160_of v; Some (Some (CScriptID h), Some whichType)
    | _ => Some (None, Some whichType)
    end.

Definition key_addresses (keys : list bytes) : list CTxDestination :=
  omap (λ v, let pubKey := pubkey_Set v in if pubkey_IsValid pubKey then Some (CKeyID (CPubKey_GetID pubKey)) else None) keys.

(** The result, the type, the addresses and the number of signatures. *)
Definition ExtractDestinations (script : bytes) (nRequired : Z) : option (bool * txnouttype * list CTxDestination * Z) :=
  '(ok, typ, vSolutions) ← Solver script TX_NONSTANDARD false;
  if negb ok then Some (false, typ, [], nRequired)
  else if bool_decide (typ = TX_NULL_DATA) then Some (false, typ, [], nRequired)
  else if bool_decide (typ = TX_MULTISIG) then
    let addresses := key_addresses (removelast (drop 1 vSolutions)) in
    Some (negb (length addresses =? 0)%nat, typ, addresses, char_at (hd [] vSolutions) 0)
  else
    '(address, _) ← ExtractDestination script;
    match address with
    | None => Some (false, typ, [], 1)
    | Some a => Some (true, typ, [a], 1)
    end.

(** ** Writing the scripts *)
Definition GetScriptForDestination (dest : CTxDestination) : bytes :=
  match dest with
  | CNoDestination => []
  | CKeyID keyID => push_data [OP_DUP; OP_HASH160] keyID ++ [OP_EQUALVERIFY; OP_CHECKSIG]
  | CScriptID scriptID => push_data [OP_HASH160] scriptID ++ [OP_EQUAL]
  end.
Definition GetScriptForRawPubKey (pubKey : bytes) : bytes := push_data [] (CPubKey_bytes pubKey) ++ [OP_CHECKSIG].
(** [None] is the assertion of [EncodeOP_N]. *)
Definition GetScriptForMultisig (nRequired : Z) (keys : list bytes) : option bytes :=
  m ← EncodeOP_N nRequired;
  script ← push_opcode [] m;
  let script := foldl push_data script (map CPubKey_bytes keys) in
  n ← EncodeOP_N (Z.of_nat (length keys));
  script ← push_opcode script n;
  push_opcode script OP_CHECKMULTISIG.
Definition GetScriptForWitness (redeemscript : bytes) : option bytes :=
  '(ok, typ, vSolutions) ← Solver redeemscript TX_NONSTANDARD false;
  if ok && bool_decide (typ = TX_PUBKEY) then v ← head vSolutions; Some (push_data [OP_0] (Hashes.Hash160 v))
  else if ok && bool_decide (typ = TX_PUBKEYHASH) then v ← head vSolutions; Some (push_data [OP_0] v)
  else Some (push_data [OP_0] (Sha256.Finalize (Sha256.Write Sha256.CSHA256 redeemscript))).

(** ** Proofs: instruction lists *)

Lemma ops_unique l l' : ops_ok l → ops_ok l' → print_ops l = print_ops l' → l = l'.
Proof.
  intros Hl. revert l'. induction Hl as [|[op d] l Ho Hl IH]; intros l' Hl' E.
  - destruct l' as [|o' l']; [done|]. pose proof (print_length o' l') as H. rewrite <- E in H. cbn in H. lia.
  - destruct Hl' as [|[op' d'] l' Ho' Hl'].
    { pose proof (print_length (op, d) l) as H. rewrite E in H. cbn in H. lia. }
    pose proof (GetOp2_ops _ l Ho) as E1. rewrite E, (GetOp2_ops _ l' Ho') in E1. injection E1 as <- <- E2.
    f_equal. by apply IH.
Qed.
Lemma print_app l l' : print_ops (l ++ l') = print_ops l ++ print_ops l'.
Proof. unfold print_ops. by rewrite map_app, concat_app. Qed.
Lemma plain_op op : OP_PUSHDATA4 < op < 256 → op_ok op [].
Proof. intros H. by apply opcode_ok. Qed.
Lemma op_ok_plain op data : op_ok op data → OP_PUSHDATA4 < op → data = [].
Proof.
  intros (_ & _ & H) Hop. unfold OP_PUSHDATA4, OP_PUSHDATA1, OP_PUSHDATA2 in *. revert H.
  destruct (Z.ltb_spec op 0x4c); [lia|]. destruct (Z.eqb_spec op 0x4c); [lia|]. destruct (Z.eqb_spec op 0x4d); [lia|].
  destruct (Z.eqb_spec op 0x4e); [lia|]. done.
Qed.

(** ** What makes a script standard *)

Definition key_size (key : bytes) : Prop := (33 ≤ length key ≤ 65)%nat.
(** The machine a version names: a pushed version is a number of at most four
    bytes, 0 or 4; any other instruction leaves the root at 20. *)
Definition version_root (op : Z) (data : bytes) (root : Z) : Prop :=
  if op <=? OP_PUSHDATA4 then (1 ≤ length data ≤ 4)%nat ∧ (vch_to_uint64 data = Some 0 ∧ root = 0 ∨ vch_to_uint64 data = Some 4 ∧ root = 1)
  else root = 20.
Definition gas_ok (contractConsensus : bool) (root limit price : Z) : Prop :=
  (root ≠ 0 → (if contractConsensus then 1 else STANDARD_MINIMUM_GAS_LIMIT) ≤ limit ∧ 1 ≤ price) ∧
  limit ≤ (if contractConsensus then MAX_BLOCK_GAS_LIMIT_DGP else 20000000).
(** The first four instructions of a contract transaction. *)
Record contract_head (contractConsensus : bool) (v g p d : Z * bytes) : Prop := {
  ch_ops : ops_ok [v; g; p; d];
  ch_gas : ∃ root limit price, version_root (fst v) (snd v) root ∧ vch_to_uint64 (snd g) = Some limit ∧
             vch_to_uint64 (snd p) = Some price ∧ gas_ok contractConsensus root limit price;
  ch_data : OP_PUSHDATA4 < fst d ∨ snd d ≠ [] }.

Inductive template_form (c : bool) : txnouttype → list (Z * bytes) → list bytes → Prop :=
  | form_pubkey op key : op_ok op key → key_size key → template_form c TX_PUBKEY [(op, key); (OP_CHECKSIG, [])] [key]
  | form_pubkeyhash op h : op_ok op h → length h = 20%nat →
      template_form c TX_PUBKEYHASH [(OP_DUP, []); (OP_HASH160, []); (op, h); (OP_EQUALVERIFY, []); (OP_CHECKSIG, [])] [h]
  | form_multisig m n keys : ops_ok keys → Forall (λ k, key_size (snd k)) keys → 1 ≤ m ≤ n → n ≤ 16 → n = Z.of_nat (length keys) →
      template_form c TX_MULTISIG ((OP_1 + m - 1, []) :: keys ++ [(OP_1 + n - 1, []); (OP_CHECKMULTISIG, [])]) ([m] :: map snd keys ++ [[n]])
  | form_create v g p d : contract_head c v g p d → fst v ≠ OP_BUYTICKET → template_form c TX_CREATE [v; g; p; d; (OP_CREATE, [])] []
  | form_call v g p d op h : contract_head c v g p d → fst v ≠ OP_BUYTICKET → op_ok op h → length h = 20%nat →
      template_form c TX_CALL [v; g; p; d; (op, h); (OP_CALL, [])] [h].
Inductive standard_form (c : bool) : bytes → txnouttype → list bytes → Prop :=
  | form_scripthash h : length h = 20%nat → standard_form c (OP_HASH160 :: 20 :: h ++ [OP_EQUAL]) TX_SCRIPTHASH [h]
  | form_keyhash h : length h = 20%nat → standard_form c (OP_0 :: 20 :: h) TX_WITNESS_V0_KEYHASH [h]
  | form_witness_scripthash h : length h = 32%nat → standard_form c (OP_0 :: 32 :: h) TX_WITNESS_V0_SCRIPTHASH [h]
  | form_data l : ops_ok l → Forall (λ o, fst o ≤ OP_16) l → standard_form c (OP_RETURN :: print_ops l) TX_NULL_DATA []
  | form_ticket s : standard_form c (OP_BUYTICKET :: s) TX_SSTX []
  | form_template t l sols : template_form c t l sols → standard_form c (print_ops l) t sols.

(** ** Proofs: one comparison *)

Lemma word_of_bytes vch : bytes_ok vch → (length vch ≤ 4)%nat → 0 ≤ or_bytes 0 vch 0 < 2 ^ 32.
Proof.
  intros Hb Hl. rewrite or_bytes_spec by (done || lia || (cbn; lia)). change (2 ^ (8 * 0)) with 1.
  pose proof (from_digits_bound 256 ltac:(lia) vch Hb) as H. assert (256 ^ Z.of_nat (length vch) ≤ 256 ^ 4) by (apply Z.pow_le_mono_r; lia).
  change (256 ^ 4) with (2 ^ 32) in *. lia.
Qed.
Lemma toRaw_fromRaw x : 0 ≤ x < 2 ^ 32 → toRaw (fromRaw x) = x.
Proof.
  intros Hx. unfold toRaw, fromRaw. cbn [vm_format rootVM vmVersion flagOptions].
  change 0x3 with (Z.ones 2). change 0x3f with (Z.ones 6). change 0xff with (Z.ones 8). change 0xffff with (Z.ones 16).
  rewrite !land_ones_mod, !Z.shiftr_div_pow2 by lia. rewrite (lor_add_disjoint (x mod 2 ^ 2) _ 2) by lia.
  replace (Z.shiftl ((x / 2 ^ 16) mod 2 ^ 16) 16) with (Z.shiftl (Z.shiftl ((x / 2 ^ 16) mod 2 ^ 16) 8) 8) by (rewrite Z.shiftl_shiftl by lia; done).
  rewrite <- Z.shiftl_lor, (lor_add_disjoint _ ((x / 2 ^ 16) mod 2 ^ 16) 8), lor_add_disjoint by lia. lia.
Qed.
Lemma match_version_next op data sols : op_ok op data →
  (∀ root sols', match_version op data 20 sols = Some (Next root sols') ↔ sols' = sols ∧ version_root op data root) ∧
  is_Some (match_version op data 20 sols) ∧ match_version op data 20 sols ≠ Some Break.
Proof.
  intros (_ & Hb & _). unfold match_version, version_root. destruct (op <=? OP_PUSHDATA4).
  2:{ split; [|split; [by eexists|done]]. intros root sols'. split; [by intros [= <- <-]|by intros [-> ->]]. }
  destruct (_ || _ || _) eqn:E.
  { split; [|split; [by eexists|done]]. intros root sols'. split; [done|]. intros (_ & Hl & Hv). exfalso.
    destruct (length data =? 0)%nat eqn:E1; [lia|]. destruct (4 <? length data)%nat eqn:E2; [lia|]. cbn in E.
    assert (vch_to_uint64 data = None) by (unfold vch_to_uint64; rewrite E1, E; by destruct (8 <? length data)%nat).
    destruct Hv as [[? _]|[? _]]; congruence. }
  apply orb_false_iff in E as [[E1 E2]%orb_false_iff E3].
  assert (Ev : vch_to_uint64 data = Some (or_bytes 0 data 0)).
  { unfold vch_to_uint64. rewrite E1, E3. by replace (8 <? length data)%nat with false by lia. }
  rewrite Ev. cbn [mbind option_bind]. pose proof (word_of_bytes data Hb ltac:(lia)) as Hw. set (x := or_bytes 0 data 0) in *.
  rewrite u32_small, toRaw_fromRaw by (done || exact Hw). change (toRaw GetEVMDefault) with 4. change (toRaw GetNoExec) with 0.
  destruct (Z.eqb_spec x 4) as [->|H4]; [|destruct (Z.eqb_spec x 0) as [->|H0]]; cbn [orb negb]; (split; [|split; [by eexists|done]]);
    intros root sols'; (split; [intros [= <- <-]|]); try done.
  - split; [done|]. split; [lia|]. by right.
  - intros (-> & _ & [[? ?]|[_ ->]]); [congruence|done].
  - split; [done|]. split; [lia|]. by left.
  - intros (-> & _ & [[_ ->]|[? ?]]); [done|congruence].
  - intros (_ & _ & [[[= ?] ?]|[[= ?] ?]]); congruence.
Qed.
Lemma gas_spec c root limit price :
  gas_limit_ok c root limit && gas_price_ok c root price = true ↔ gas_ok c root limit price.
Proof.
  unfold gas_limit_ok, gas_price_ok, gas_ok, STANDARD_MINIMUM_GAS_PRICE. change (DEFAULT_BLOCK_GAS_LIMIT_DGP / 2) with 20000000.
  destruct c, (Z.eqb_spec root 0); cbn [negb andb].
  - destruct (Z.gtb_spec limit MAX_BLOCK_GAS_LIMIT_DGP); cbn [andb]; split; (intros; (done || lia)).
  - destruct (Z.ltb_spec limit 1), (Z.gtb_spec limit MAX_BLOCK_GAS_LIMIT_DGP), (Z.ltb_spec price 1); cbn [andb]; split; (intros; (done || lia)).
  - destruct (Z.gtb_spec limit 20000000); cbn [andb]; split; (intros; (done || lia)).
  - destruct (Z.ltb_spec limit STANDARD_MINIMUM_GAS_LIMIT), (Z.gtb_spec limit 20000000), (Z.ltb_spec price 1); cbn [andb]; split; (intros; (done || lia)).
Qed.

(** An instruction of a template that stands for itself. *)
Definition literal (op : Z) : Prop := OP_PUSHDATA4 < op < 256 ∧
  op ∉ [OP_PUBKEY; OP_PUBKEYHASH; OP_SMALLINTEGER; OP_VERSION; OP_GAS_LIMIT; OP_GAS_PRICE; OP_DATA; OP_PUBKEYS].
Lemma literal_op op : bool_decide (OP_PUSHDATA4 < op < 256) && bool_decide (op ∉ [OP_PUBKEY; OP_PUBKEYHASH; OP_SMALLINTEGER; OP_VERSION; OP_GAS_LIMIT; OP_GAS_PRICE; OP_DATA; OP_PUBKEYS]) = true → literal op.
Proof. rewrite andb_true_iff, !bool_decide_eq_true. done. Qed.

Lemma match_literal c op1 v1 op2 root sols root' sols' : literal op2 → op_ok op1 v1 →
  match_op c op1 v1 op2 [] root sols = Some (Next root' sols') ↔ op1 = op2 ∧ v1 = [] ∧ root' = root ∧ sols' = sols.
Proof.
  intros [Hop Hl] Ho. unfold match_op. rewrite !not_elem_of_cons in Hl. destruct Hl as (H1 & H2 & H3 & H4 & H5 & H6 & H7 & H8 & _).
  repeat (match goal with |- context [op2 =? ?k] => destruct (Z.eqb_spec op2 k); [done|] end).
  destruct (Z.eqb_spec op1 op2) as [->|]; cbn [negb orb]; [|split; [done|by intros [? _]]].
  rewrite bool_decide_eq_true_2 by (eapply op_ok_plain; [done|lia]). cbn [negb]. split; [|by intros (_ & _ & -> & ->)].
  intros [= <- <-]. split_and!; try done. eapply op_ok_plain; [done|lia].
Qed.
Lemma match_pubkey c op1 v1 root sols root' sols' :
  match_op c op1 v1 OP_PUBKEY [] root sols = Some (Next root' sols') ↔ key_size v1 ∧ root' = root ∧ sols' = sols ++ [v1].
Proof.
  change (match_op c op1 v1 OP_PUBKEY [] root sols) with
    (if (length v1 <? 33)%nat || (65 <? length v1)%nat then Some Break else Some (Next root (sols ++ [v1]))).
  unfold key_size. destruct (Nat.ltb_spec (length v1) 33); [split; [done|lia]|]. destruct (Nat.ltb_spec 65 (length v1)); [split; [done|lia]|].
  cbn. split; [intros [= <- <-]; (split; [lia|done])|by intros (_ & -> & ->)].
Qed.
Lemma match_pubkeyhash c op1 v1 root sols root' sols' :
  match_op c op1 v1 OP_PUBKEYHASH [] root sols = Some (Next root' sols') ↔ length v1 = 20%nat ∧ root' = root ∧ sols' = sols ++ [v1].
Proof.
  change (match_op c op1 v1 OP_PUBKEYHASH [] root sols) with
    (if negb (length v1 =? 20)%nat then Some Break else Some (Next root (sols ++ [v1]))).
  destruct (Nat.eqb_spec (length v1) 20); cbn [negb]; [|split; [done|by intros [? _]]].
  split; [by intros [= <- <-]|by intros (_ & -> & ->)].
Qed.
Definition small_op (n : Z) : Z := if n =? 0 then OP_0 else OP_1 + n - 1.
Lemma match_small c op1 v1 root sols root' sols' : op_ok op1 v1 →
  match_op c op1 v1 OP_SMALLINTEGER [] root sols = Some (Next root' sols') ↔
  ∃ n, 0 ≤ n ≤ 16 ∧ op1 = small_op n ∧ v1 = [] ∧ root' = root ∧ sols' = sols ++ [[n]].
Proof.
  intros Ho. unfold small_op. change (match_op c op1 v1 OP_SMALLINTEGER [] root sols) with
    (if (op1 =? OP_0) || ((op1 >=? OP_1) && (op1 <=? OP_16)) then n ← DecodeOP_N op1; Some (Next root (sols ++ [[n]])) else Some Break).
  unfold DecodeOP_N. destruct (Z.eqb_spec op1 OP_0) as [->|H0]; cbn [orb mbind option_bind].
  - assert (v1 = []) as -> by (destruct Ho as (_ & _ & Ho); apply nil_length_inv; change (Z.of_nat (length v1) = 0) in Ho; lia). split.
    + intros [= <- <-]. exists 0. split_and!; done || lia.
    + intros (n & Hn & E & _ & -> & ->). destruct (Z.eqb_spec n 0) as [->|]; [done|]. unfold OP_0, OP_1 in E. lia.
  - destruct ((op1 >=? OP_1) && (op1 <=? OP_16)) eqn:E; cbn [mbind option_bind]; unfold OP_1, OP_16, OP_0 in *.
    + assert (v1 = []) as -> by (eapply op_ok_plain; [done|unfold OP_PUSHDATA4; lia]). split.
      * intros [= <- <-]. exists (op1 - 80). split_and!; try done; try lia. case_match; lia.
      * intros (n & Hn & -> & _ & -> & ->). destruct (Z.eqb_spec n 0); [done|]. do 5 f_equal. lia.
    + split; [done|]. intros (n & Hn & -> & _). destruct (Z.eqb_spec n 0); [done|]. lia.
Qed.
Lemma match_gas_limit c op1 v1 root sols root' sols' :
  match_op c op1 v1 OP_GAS_LIMIT [] root sols = Some (Next root' sols') ↔
  ∃ val, vch_to_uint64 v1 = Some val ∧ gas_limit_ok c root val = true ∧ root' = root ∧ sols' = sols.
Proof.
  change (match_op c op1 v1 OP_GAS_LIMIT [] root sols) with
    (match vch_to_uint64 v1 with Some val => Some (if gas_limit_ok c root val then Next root sols else Refuse) | None => Some Refuse end).
  destruct (vch_to_uint64 v1) as [val|]; [|split; [done|by intros (? & ? & _)]].
  destruct (gas_limit_ok c root val) eqn:E; [|split; [done|intros (? & [= <-] & ? & _); congruence]].
  split; [intros [= <- <-]; by exists val|by intros (? & [= <-] & _ & -> & ->)].
Qed.
Lemma match_gas_price c op1 v1 root sols root' sols' :
  match_op c op1 v1 OP_GAS_PRICE [] root sols = Some (Next root' sols') ↔
  ∃ val, vch_to_uint64 v1 = Some val ∧ gas_price_ok c root val = true ∧ root' = root ∧ sols' = sols.
Proof.
  change (match_op c op1 v1 OP_GAS_PRICE [] root sols) with
    (match vch_to_uint64 v1 with Some val => Some (if gas_price_ok c root val then Next root sols else Refuse) | None => Some Refuse end).
  destruct (vch_to_uint64 v1) as [val|]; [|split; [done|by intros (? & ? & _)]].
  destruct (gas_price_ok c root val) eqn:E; [|split; [done|intros (? & [= <-] & ? & _); congruence]].
  split; [intros [= <- <-]; by exists val|by intros (? & [= <-] & _ & -> & ->)].
Qed.
Lemma match_data c op1 v1 root sols root' sols' :
  match_op c op1 v1 OP_DATA [] root sols = Some (Next root' sols') ↔ (OP_PUSHDATA4 < op1 ∨ v1 ≠ []) ∧ root' = root ∧ sols' = sols.
Proof.
  change (match_op c op1 v1 OP_DATA [] root sols) with
    (Some (if (op1 <=? OP_PUSHDATA4) && (length v1 =? 0)%nat then Break else Next root sols)).
  destruct ((op1 <=? OP_PUSHDATA4) && (length v1 =? 0)%nat) eqn:E.
  - apply andb_true_iff in E as [E1 E2]. split; [done|]. intros [[?|?] _]; [lia|]. destruct v1; done.
  - split; [intros [= <- <-]|by intros (_ & -> & ->)]. split; [|done]. destruct (Z.leb_spec op1 OP_PUSHDATA4); [right|left; lia]. by destruct v1.
Qed.
Lemma match_version_op c op1 v1 sols root' sols' : op_ok op1 v1 →
  match_op c op1 v1 OP_VERSION [] 20 sols = Some (Next root' sols') ↔ sols' = sols ∧ version_root op1 v1 root'.
Proof. intros Ho. apply (match_version_next op1 v1 sols Ho). Qed.

(** A comparison always has an outcome, and only the contract instructions refuse. *)
Lemma match_version_total op data root sols : op_ok op data → is_Some (match_version op data root sols).
Proof.
  intros (_ & Hb & _). unfold match_version. destruct (op <=? OP_PUSHDATA4); [|by eexists].
  destruct (_ || _ || _) eqn:E; [by eexists|]. apply orb_false_iff in E as [[E1 E2]%orb_false_iff E3].
  unfold vch_to_uint64. rewrite E1, E3. replace (8 <? length data)%nat with false by lia. cbn [mbind option_bind]. case_match; by eexists.
Qed.
Definition contract_op (op : Z) : bool := (op =? OP_VERSION) || (op =? OP_GAS_LIMIT) || (op =? OP_GAS_PRICE).
Lemma match_op_total c op1 v1 op2 v2 root sols : op_ok op1 v1 →
  ∃ r, match_op c op1 v1 op2 v2 root sols = Some r ∧ (r = Refuse → contract_op op2 = true).
Proof.
  intros Ho. unfold match_op, contract_op.
  destruct (op2 =? OP_PUBKEY); [by case_match; eexists|]. destruct (op2 =? OP_PUBKEYHASH); [by case_match; eexists|].
  destruct (op2 =? OP_SMALLINTEGER).
  { unfold DecodeOP_N. destruct (op1 =? OP_0); cbn [orb mbind option_bind]; [by eexists|]. destruct (_ && _); by eexists. }
  destruct (op2 =? OP_VERSION); cbn [orb].
  { destruct (match_version_total op1 v1 root sols Ho) as [r ->]. by exists r. }
  destruct (op2 =? OP_GAS_LIMIT); [by case_match; eexists|]. destruct (op2 =? OP_GAS_PRICE); [by case_match; eexists|].
  destruct (op2 =? OP_DATA); [eexists; split; [done|by case_match]|]. by case_match; eexists.
Qed.
(** ** Proofs: templates *)
Lemma template_step fuel c pc1 op2 pc2 root sols : OP_PUSHDATA4 < op2 → op2 ≠ OP_PUBKEYS →
  match_template (S fuel) c pc1 (op2 :: pc2) root sols =
    match GetOp2 pc1 with
    | None => Some NoMatch
    | Some (op1, v1, rest) =>
        r ← match_op c op1 v1 op2 [] root sols;
        match r with
        | Break => Some NoMatch
        | Refuse => Some (Refused sols)
        | Next root sols => match_template fuel c rest pc2 root sols
        end
    end.
Proof.
  intros H1 H2. cbn [match_template length Nat.eqb]. rewrite andb_false_r. destruct (GetOp2 pc1) as [[[op1 v1] rest]|]; [|done].
  assert (E : GetOp2 (op2 :: pc2) = Some (op2, [], pc2)) by (cbn [GetOp2]; by replace (op2 <=? OP_PUSHDATA4) with false by lia).
  rewrite E. by replace (op2 =? OP_PUBKEYS) with false by lia.
Qed.
(** An instruction of a template compared with one instruction of the script. *)
Definition turn_op (op2 : Z) : bool := (OP_PUSHDATA4 <? op2) && negb (op2 =? OP_PUBKEYS).
Lemma turn_op_spec op2 : turn_op op2 = true → OP_PUSHDATA4 < op2 ∧ op2 ≠ OP_PUBKEYS.
Proof. unfold turn_op. lia. Qed.
Lemma template_end fuel c pc1 root sols : match_template fuel c pc1 [] root sols = Some (if (length pc1 =? 0)%nat then Found sols else NoMatch).
Proof.
  destruct fuel; cbn [match_template length Nat.eqb]; rewrite andb_true_r; (destruct (length pc1 =? 0)%nat eqn:E; [done|]);
    by destruct (GetOp2 pc1) as [[[op1 v1] rest]|].
Qed.
Lemma template_found fuel c pc1 op2 pc2 root sols out : bytes_ok pc1 →
  match_template (S fuel) c pc1 (op2 :: pc2) root sols = Some (Found out) → turn_op op2 = true →
  ∃ op1 v1 rest root' sols', pc1 = op_bytes op1 v1 ++ rest ∧ op_ok op1 v1 ∧ bytes_ok rest ∧
    match_op c op1 v1 op2 [] root sols = Some (Next root' sols') ∧ match_template fuel c rest pc2 root' sols' = Some (Found out).
Proof.
  intros Hb Hf [H1 H2]%turn_op_spec. revert Hf. rewrite template_step by done. destruct (GetOp2 pc1) as [[[op1 v1] rest]|] eqn:E; [|done].
  destruct (GetOp2_inv _ _ _ _ Hb E) as [Ho ->]. apply bytes_ok_app in Hb as [_ Hb].
  destruct (match_op c op1 v1 op2 [] root sols) as [[root' sols'| |]|] eqn:Em; cbn [mbind option_bind]; intros Hf; try done.
  by exists op1, v1, rest, root', sols'.
Qed.
Lemma template_next fuel c o l op2 pc2 root sols root' sols' : op_ok (fst o) (snd o) → turn_op op2 = true →
  match_op c (fst o) (snd o) op2 [] root sols = Some (Next root' sols') →
  match_template (S fuel) c (print_ops (o :: l)) (op2 :: pc2) root sols = match_template fuel c (print_ops l) pc2 root' sols'.
Proof. intros Ho [H1 H2]%turn_op_spec Em. rewrite template_step, GetOp2_ops by done. by rewrite Em. Qed.
Lemma template_last fuel c root sols out rest : match_template fuel c rest [] root sols = Some (Found out) → rest = [] ∧ out = sols.
Proof. rewrite template_end. destruct rest; [|done]. by intros [= ->]. Qed.
(** The keys of a multisignature script, read and written. *)
Lemma take_pubkeys_ops fuel x tail keys o l sols : ops_ok (keys ++ x :: tail) → Forall (λ k, key_size (snd k)) keys → snd x = [] →
  o :: l = keys ++ x :: tail → (length (print_ops l) ≤ fuel)%nat →
  take_pubkeys fuel (fst o) (snd o) (print_ops l) sols = Some (fst x, [], print_ops tail, sols ++ map snd keys).
Proof.
  intros Hok Hk Hx. revert fuel o l sols. induction keys as [|k keys IH]; intros fuel o l sols E Hf; injection E as -> ->.
  - rewrite Hx. cbn [map]. rewrite app_nil_r. by destruct fuel.
  - apply list.Forall_cons in Hok as [Ho Hok], Hk as [Hk Hks]. unfold key_size in Hk.
    change (ops_ok (keys ++ x :: tail)) in Hok. change (_ keys (x :: tail)) with (keys ++ x :: tail) in Hf |- *.
    destruct (keys ++ x :: tail) as [|o' l'] eqn:E'; [by destruct keys|].
    pose proof (print_length o' l') as Hl. destruct fuel as [|fuel]; [lia|]. cbn [take_pubkeys].
    replace ((33 <=? length (snd k))%nat && (length (snd k) <=? 65)%nat) with true by lia.
    rewrite GetOp2_ops by (by apply list.Forall_cons in Hok as [? _]). rewrite (IH Hok Hks fuel o' l') by (done || lia).
    cbn [map]. by rewrite <- app_assoc.
Qed.
Lemma take_pubkeys_inv fuel op v pc sols : op_ok op v → bytes_ok pc → (length pc ≤ fuel)%nat →
  ∃ op' v' pc' keys, take_pubkeys fuel op v pc sols = Some (op', v', pc', sols ++ map snd keys) ∧
    ops_ok keys ∧ Forall (λ k, key_size (snd k)) keys ∧
    op_ok op' v' ∧ bytes_ok pc' ∧
    (op' = OP_INVALIDOPCODE ∧ v' = [] ∨ op_bytes op v ++ pc = print_ops keys ++ op_bytes op' v' ++ pc').
Proof.
  revert op v pc sols. induction fuel as [|fuel IH]; intros op v pc sols Ho Hb Hf; cbn [take_pubkeys];
    (destruct ((33 <=? length v)%nat && (length v <=? 65)%nat) eqn:E;
     [|exists op, v, pc, []; rewrite app_nil_r; split_and!; [done|constructor|constructor|done|done|by right]]).
  - destruct pc; [|cbn in Hf; lia]. exists OP_INVALIDOPCODE, [], [], [(op, v)]. split_and!; [done|by apply Forall_singleton| |by apply plain_op|done|by left].
    apply Forall_singleton. unfold key_size. cbn. lia.
  - destruct (GetOp2 pc) as [[[op1 v1] rest]|] eqn:E1.
    + destruct (GetOp2_inv _ _ _ _ Hb E1) as [Ho1 ->]. pose proof (GetOp2_shorter _ _ _ _ E1). apply bytes_ok_app in Hb as [_ Hb].
      destruct (IH op1 v1 rest (sols ++ [v]) Ho1 Hb ltac:(lia)) as (op' & v' & pc' & keys & E2 & Hk & Hs & Ho' & Hb' & Hcase).
      exists op', v', pc', ((op, v) :: keys). rewrite E2. cbn [map]. rewrite <- app_assoc. split_and!; [done|by constructor|constructor; [unfold key_size; cbn; lia|done]|done|done|].
      destruct Hcase as [?|H3]; [by left|right]. rewrite print_cons, H3. cbn [fst snd]. by rewrite app_assoc.
    + exists OP_INVALIDOPCODE, [], pc, [(op, v)]. split_and!; [done|by apply Forall_singleton| |by apply plain_op|done|by left].
      apply Forall_singleton. unfold key_size. cbn. lia.
Qed.
(** One turn of a match that succeeds. *)
Ltac template_turn Hb H op v root sols Ho Hm :=
  let rest := fresh "rest" in let Hb' := fresh "Hb" in let H' := fresh "H" in
  destruct (template_found _ _ _ _ _ _ _ _ Hb H eq_refl) as (op & v & rest & root & sols & -> & Ho & Hb' & Hm & H');
  clear Hb H; rename Hb' into Hb, H' into H.
Ltac literal_turn Hb H :=
  let op := fresh "op" in let v := fresh "v" in let root := fresh "root" in let sols := fresh "sols" in
  let Ho := fresh "Ho" in let Hm := fresh "Hm" in
  template_turn Hb H op v root sols Ho Hm; apply match_literal in Hm as (-> & -> & -> & ->); [|by apply literal_op|exact Ho].
Ltac template_done H := apply template_last in H as [-> ->].
(** The list of the instructions just read. *)
Ltac list_ops := split; [unfold print_ops; cbn [map concat fst snd]; by rewrite ?app_nil_r|split; [by repeat (apply list.Forall_cons; split)|]].

Lemma found_pubkey c script out : bytes_ok script →
  match_template 2 c script [OP_PUBKEY; OP_CHECKSIG] 20 [] = Some (Found out) →
  ∃ l, script = print_ops l ∧ ops_ok l ∧ template_form c TX_PUBKEY l out.
Proof.
  intros Hb H. template_turn Hb H op v r s Ho Hm. apply match_pubkey in Hm as (Hs & -> & ->). literal_turn Hb H. template_done H.
  exists [(op, v); (OP_CHECKSIG, [])]. list_ops. by constructor.
Qed.
Lemma found_pubkeyhash c script out : bytes_ok script →
  match_template 5 c script [OP_DUP; OP_HASH160; OP_PUBKEYHASH; OP_EQUALVERIFY; OP_CHECKSIG] 20 [] = Some (Found out) →
  ∃ l, script = print_ops l ∧ ops_ok l ∧ template_form c TX_PUBKEYHASH l out.
Proof.
  intros Hb H. literal_turn Hb H. literal_turn Hb H. template_turn Hb H op v r s Ho' Hm. apply match_pubkeyhash in Hm as (Hs & -> & ->).
  literal_turn Hb H. literal_turn Hb H. template_done H.
  exists [(OP_DUP, []); (OP_HASH160, []); (op, v); (OP_EQUALVERIFY, []); (OP_CHECKSIG, [])]. list_ops. by constructor.
Qed.
(** The four instructions that the contract templates start with. *)
Lemma found_contract c script fuel tail out : bytes_ok script →
  match_template (S (S (S (S fuel)))) c script (OP_VERSION :: OP_GAS_LIMIT :: OP_GAS_PRICE :: OP_DATA :: tail) 20 [] = Some (Found out) →
  ∃ v g p d rest root, script = print_ops [v; g; p; d] ++ rest ∧ contract_head c v g p d ∧ bytes_ok rest ∧
    match_template fuel c rest tail root [] = Some (Found out).
Proof.
  intros Hb H. template_turn Hb H op0 v0 r0 s0 H0 Hm. apply match_version_op in Hm as [-> Hv]; [|done].
  template_turn Hb H op1 v1 r1 s1 H1 Hm. apply match_gas_limit in Hm as (limit & El & Hl & -> & ->).
  template_turn Hb H op2 v2 r2 s2 H2 Hm. apply match_gas_price in Hm as (price & Ep & Hp & -> & ->).
  template_turn Hb H op3 v3 r3 s3 H3 Hm. apply match_data in Hm as (Hd & -> & ->).
  exists (op0, v0), (op1, v1), (op2, v2), (op3, v3). match type of H with match_template _ _ ?r _ _ _ = _ => exists r, r0 end. split; [unfold print_ops; cbn [map concat fst snd]; by rewrite app_nil_r, <- !app_assoc|].
  split; [|done]. constructor; [by repeat (apply list.Forall_cons; split)| |done].
  exists r0, limit, price. split_and!; [done..|]. apply gas_spec. by rewrite Hl, Hp.
Qed.
Lemma found_create c script out : bytes_ok script → script !! 0%nat ≠ Some OP_BUYTICKET →
  match_template 5 c script [OP_VERSION; OP_GAS_LIMIT; OP_GAS_PRICE; OP_DATA; OP_CREATE] 20 [] = Some (Found out) →
  ∃ l, script = print_ops l ∧ ops_ok l ∧ template_form c TX_CREATE l out.
Proof.
  intros Hb Hn H. destruct (found_contract _ _ _ _ _ Hb H) as (v & g & p & d & rest & root & -> & Hc & Hb' & H'). literal_turn Hb' H'. template_done H'.
  exists [v; g; p; d; (OP_CREATE, [])]. split; [exact (eq_sym (print_app [v; g; p; d] [(OP_CREATE, [])]))|].
  split; [apply Forall_app_2 with (l1 := [v; g; p; d]); [apply Hc|by apply Forall_singleton]|].
  constructor; [done|]. intros E. apply Hn. cbn. by rewrite E.
Qed.
Lemma found_call c script out : bytes_ok script → script !! 0%nat ≠ Some OP_BUYTICKET →
  match_template 6 c script [OP_VERSION; OP_GAS_LIMIT; OP_GAS_PRICE; OP_DATA; OP_PUBKEYHASH; OP_CALL] 20 [] = Some (Found out) →
  ∃ l, script = print_ops l ∧ ops_ok l ∧ template_form c TX_CALL l out.
Proof.
  intros Hb Hn H. destruct (found_contract _ _ _ _ _ Hb H) as (v & g & p & d & rest & root & -> & Hc & Hb' & H').
  template_turn Hb' H' op h r1 s1 Ho' Hm. apply match_pubkeyhash in Hm as (Hs & -> & ->). literal_turn Hb' H'. template_done H'.
  exists [v; g; p; d; (op, h); (OP_CALL, [])].
  split; [exact (eq_sym (print_app [v; g; p; d] [(op, h); (OP_CALL, [])]))|].
  split; [apply Forall_app_2 with (l1 := [v; g; p; d]); [apply Hc|by repeat (apply list.Forall_cons; split)]|].
  constructor; [done| |done|done]. intros E. apply Hn. cbn. by rewrite E.
Qed.
(** Multisignature scripts. *)
Lemma pubkeys_step fuel c pc1 op2 pc2 root sols : OP_PUSHDATA4 < op2 →
  match_template (S fuel) c pc1 (OP_PUBKEYS :: op2 :: pc2) root sols =
    match GetOp2 pc1 with
    | None => Some NoMatch
    | Some (op1, v1, rest) =>
        '(op1, v1, rest, sols) ← take_pubkeys (length rest) op1 v1 rest sols;
        r ← match_op c op1 v1 op2 [] root sols;
        match r with
        | Break => Some NoMatch
        | Refuse => Some (Refused sols)
        | Next root sols => match_template fuel c rest pc2 root sols
        end
    end.
Proof.
  intros H1. cbn [match_template length Nat.eqb]. rewrite andb_false_r. destruct (GetOp2 pc1) as [[[op1 v1] rest]|]; [|done].
  assert (E : GetOp2 (op2 :: pc2) = Some (op2, [], pc2)) by (cbn [GetOp2]; by replace (op2 <=? OP_PUSHDATA4) with false by lia).
  change (GetOp2 (OP_PUBKEYS :: op2 :: pc2)) with (Some (OP_PUBKEYS, [] : bytes, op2 :: pc2)). cbv iota beta.
  change (OP_PUBKEYS =? OP_PUBKEYS) with true. cbv iota. by rewrite E.
Qed.
Definition multisig_ops (m n : Z) (keys : list (Z * bytes)) : list (Z * bytes) :=
  (small_op m, []) :: keys ++ [(small_op n, []); (OP_CHECKMULTISIG, [])].
Definition multisig_sols (m n : Z) (keys : list (Z * bytes)) : list bytes := [m] :: map snd keys ++ [[n]].
Definition multisig_template : bytes := [OP_SMALLINTEGER; OP_PUBKEYS; OP_SMALLINTEGER; OP_CHECKMULTISIG].
Definition multisig_form (script : bytes) (m n : Z) (keys : list (Z * bytes)) : Prop :=
  script = print_ops (multisig_ops m n keys) ∧ ops_ok keys ∧ Forall (λ k, key_size (snd k)) keys ∧ 0 ≤ m ≤ 16 ∧ 0 ≤ n ≤ 16.
Lemma small_op_ok n : 0 ≤ n ≤ 16 → op_ok (small_op n) [].
Proof. intros Hn. unfold small_op. destruct (Z.eqb_spec n 0); [split_and!; [done|apply bytes_ok_nil|done]|]. apply plain_op. unfold OP_PUSHDATA4, OP_1. lia. Qed.
Lemma small_op_read c n root sols : 0 ≤ n ≤ 16 →
  match_op c (small_op n) [] OP_SMALLINTEGER [] root sols = Some (Next root (sols ++ [[n]])).
Proof. intros Hn. apply match_small; [by apply small_op_ok|]. by exists n. Qed.
Lemma multisig_ops_ok m n keys : ops_ok keys → 0 ≤ m ≤ 16 → 0 ≤ n ≤ 16 → ops_ok (multisig_ops m n keys).
Proof.
  intros Hk Hm Hn. apply list.Forall_cons. split; [by apply small_op_ok|]. apply Forall_app. split; [done|].
  apply list.Forall_cons. split; [by apply small_op_ok|]. apply Forall_singleton. by apply plain_op.
Qed.
Lemma found_multisig c script out : bytes_ok script → match_template 4 c script multisig_template 20 [] = Some (Found out) →
  ∃ m n keys, multisig_form script m n keys ∧ out = multisig_sols m n keys.
Proof.
  unfold multisig_template. intros Hb H. template_turn Hb H op v r s Ho Hm.
  apply match_small in Hm as (m & Hm & -> & -> & -> & ->); [|done]. revert H. rewrite pubkeys_step by done.
  destruct (GetOp2 rest) as [[[op1 v1] pc1]|] eqn:E; [|done]. destruct (GetOp2_inv _ _ _ _ Hb E) as [Ho1 ->]. apply bytes_ok_app in Hb as [_ Hb].
  destruct (take_pubkeys_inv (length pc1) op1 v1 pc1 ([] ++ [[m]]) Ho1 Hb ltac:(lia)) as (op' & v' & pc' & keys & -> & Hk & Hs & H1 & H2 & Hcase).
  cbn [mbind option_bind]. destruct Hcase as [[-> ->]|H3]; [done|].
  destruct (match_op c op' v' OP_SMALLINTEGER [] 20 _) as [[root' sols'| |]|] eqn:Em; try done.
  apply match_small in Em as (n & Hn & -> & -> & -> & ->); [|done]. cbn [mbind option_bind]. intros H. literal_turn H2 H. template_done H.
  exists m, n, keys. split; [|done].
  split; [|done]. unfold multisig_ops. rewrite print_cons, H3, print_app. done.
Qed.
Lemma multisig_found c script m n keys : multisig_form script m n keys →
  match_template 4 c script multisig_template 20 [] = Some (Found (multisig_sols m n keys)).
Proof.
  intros (-> & Hk & Hs & Hm & Hn). pose proof (multisig_ops_ok m n keys Hk Hm Hn) as Hok. unfold multisig_ops in *. unfold multisig_template.
  apply list.Forall_cons in Hok as [Ho Hok].
  rewrite (template_next _ _ _ _ _ _ _ _ 20 ([] ++ [[m]]) Ho) by (done || by apply small_op_read). rewrite pubkeys_step by done.
  destruct (keys ++ [(small_op n, []); (OP_CHECKMULTISIG, [])]) as [|o l] eqn:E; [by destruct keys|].
  rewrite GetOp2_ops by (by apply list.Forall_cons in Hok as [? _]).
  rewrite (take_pubkeys_ops (length (print_ops l)) (small_op n, []) [(OP_CHECKMULTISIG, [])] keys o l) by (done || by rewrite E).
  cbn [mbind option_bind fst]. rewrite small_op_read by done. cbn [mbind option_bind].
  rewrite (template_next _ _ (OP_CHECKMULTISIG, []) [] _ _ 20 _ 20 (([] ++ [[m]]) ++ map snd keys ++ [[n]])); [|by apply plain_op|done|].
  - by rewrite template_end.
  - cbn [fst snd]. apply match_literal; [by apply literal_op|by apply plain_op|]. split_and!; done.
Qed.
Lemma multisig_ok_spec m n keys : multisig_ok (multisig_sols m n keys) = true ↔ 1 ≤ m ≤ n ∧ n = Z.of_nat (length keys).
Proof.
  unfold multisig_ok, multisig_sols. rewrite app_comm_cons, last_last. cbn [hd app char_at nth length].
  rewrite length_app, length_map. cbn [length]. lia.
Qed.
(** Every comparison with a template ends; only the contract templates refuse. *)
Lemma template_outcome fuel c pc1 pc2 root sols : (length pc2 ≤ fuel)%nat → bytes_ok pc1 → Forall (λ o, OP_PUSHDATA4 < o) pc2 →
  ∃ r, match_template fuel c pc1 pc2 root sols = Some r ∧ (∀ s, r = Refused s → existsb contract_op pc2 = true).
Proof.
  revert pc1 pc2 root sols. induction fuel as [|fuel IH]; intros pc1 pc2 root sols Hf Hb Hp;
    (destruct pc2 as [|op2 pc2]; [rewrite template_end; eexists; split; [done|]; by case_match|]); [cbn in Hf; lia|].
  cbn [length] in Hf. apply list.Forall_cons in Hp as [Hop Hp].
  destruct (decide (op2 = OP_PUBKEYS)) as [->|Hne].
  - destruct pc2 as [|op3 pc2].
    { cbn [match_template length Nat.eqb]. rewrite andb_false_r. destruct (GetOp2 pc1) as [[[op1 v1] rest]|] eqn:E; [|by eexists].
      destruct (GetOp2_inv _ _ _ _ Hb E) as [Ho ->]. apply bytes_ok_app in Hb as [_ Hb]. cbn [GetOp2].
      destruct (take_pubkeys_inv (length rest) op1 v1 rest sols Ho Hb ltac:(lia)) as (op' & v' & pc' & keys & E2 & _).
      cbn. rewrite E2. by eexists. }
    apply list.Forall_cons in Hp as [Hop3 Hp]. cbn [length] in Hf.
    rewrite pubkeys_step by done. destruct (GetOp2 pc1) as [[[op1 v1] rest]|] eqn:E; [|by eexists].
    destruct (GetOp2_inv _ _ _ _ Hb E) as [Ho ->]. apply bytes_ok_app in Hb as [_ Hb].
    destruct (take_pubkeys_inv (length rest) op1 v1 rest sols Ho Hb ltac:(lia)) as (op' & v' & pc' & keys & -> & _ & _ & Ho' & Hb' & _).
    cbn [mbind option_bind]. destruct (match_op_total c op' v' op3 [] root (sols ++ map snd keys) Ho') as (r & -> & Hr). cbn [mbind option_bind existsb].
    destruct r as [root' sols'| |]; [|by eexists|eexists; split; [done|intros _ _; by rewrite (Hr eq_refl), orb_true_r]].
    destruct (IH pc' pc2 root' sols' ltac:(lia) Hb' Hp) as (r & Er & Hs). exists r. split; [done|]. intros s Es. rewrite (Hs s Es). by rewrite !orb_true_r.
  - rewrite template_step by done. destruct (GetOp2 pc1) as [[[op1 v1] rest]|] eqn:E; [|by eexists].
    destruct (GetOp2_inv _ _ _ _ Hb E) as [Ho ->]. apply bytes_ok_app in Hb as [_ Hb].
    destruct (match_op_total c op1 v1 op2 [] root sols Ho) as (r & -> & Hr). cbn [mbind option_bind existsb].
    destruct r as [root' sols'| |]; [|by eexists|eexists; split; [done|intros _ _; by rewrite (Hr eq_refl)]].
    destruct (IH rest pc2 root' sols' ltac:(lia) Hb Hp) as (r & Er & Hs). exists r. split; [done|]. intros s Es. rewrite (Hs s Es). by rewrite orb_true_r.
Qed.

(** *** The scripts of a form match its template *)
Lemma literal_next fuel c op l pc2 root sols : literal op → turn_op op = true →
  match_template (S fuel) c (print_ops ((op, []) :: l)) (op :: pc2) root sols = match_template fuel c (print_ops l) pc2 root sols.
Proof.
  intros Hl Ht. assert (Ho : op_ok op []) by (apply plain_op; apply Hl).
  apply template_next; [done|done|]. cbn [fst snd]. by apply match_literal.
Qed.
Ltac literal_match := rewrite literal_next by (done || by apply literal_op).
Lemma pubkey_found c op key : op_ok op key → key_size key →
  match_template 2 c (print_ops [(op, key); (OP_CHECKSIG, [])]) [OP_PUBKEY; OP_CHECKSIG] 20 [] = Some (Found [key]).
Proof.
  intros Ho Hk. rewrite (template_next _ _ (op, key) _ _ _ _ _ 20 [key]) by (done || by apply match_pubkey). literal_match. by rewrite template_end.
Qed.
Lemma pubkeyhash_found c op h : op_ok op h → length h = 20%nat →
  match_template 5 c (print_ops [(OP_DUP, []); (OP_HASH160, []); (op, h); (OP_EQUALVERIFY, []); (OP_CHECKSIG, [])])
    [OP_DUP; OP_HASH160; OP_PUBKEYHASH; OP_EQUALVERIFY; OP_CHECKSIG] 20 [] = Some (Found [h]).
Proof.
  intros Ho Hh. do 2 literal_match. rewrite (template_next _ _ (op, h) _ _ _ _ _ 20 [h]) by (done || by apply match_pubkeyhash).
  do 2 literal_match. by rewrite template_end.
Qed.
Lemma contract_next c v g p d l fuel tail : contract_head c v g p d →
  ∃ root, match_template (S (S (S (S fuel)))) c (print_ops (v :: g :: p :: d :: l)) (OP_VERSION :: OP_GAS_LIMIT :: OP_GAS_PRICE :: OP_DATA :: tail) 20 []
          = match_template fuel c (print_ops l) tail root [].
Proof.
  intros [Hok (root & limit & price & Hv & El & Ep & Hg) Hd]. apply gas_spec, andb_true_iff in Hg as [Hg1 Hg2]. exists root.
  apply list.Forall_cons in Hok as [Hv1 Hok]. apply list.Forall_cons in Hok as [Hg0 Hok]. apply list.Forall_cons in Hok as [Hp0 Hok]. apply list.Forall_cons in Hok as [Hd0 _].
  rewrite (template_next _ _ v _ _ _ _ _ root []) by (done || by apply match_version_op).
  rewrite (template_next _ _ g _ _ _ _ _ root []); [|done|done|by apply match_gas_limit; exists limit].
  rewrite (template_next _ _ p _ _ _ _ _ root []); [|done|done|by apply match_gas_price; exists price].
  by rewrite (template_next _ _ d _ _ _ _ _ root []) by (done || by apply match_data).
Qed.
Lemma create_found c v g p d : contract_head c v g p d →
  match_template 5 c (print_ops [v; g; p; d; (OP_CREATE, [])]) [OP_VERSION; OP_GAS_LIMIT; OP_GAS_PRICE; OP_DATA; OP_CREATE] 20 [] = Some (Found []).
Proof. intros Hc. destruct (contract_next c v g p d [(OP_CREATE, [])] 1 [OP_CREATE] Hc) as [root ->]. literal_match. by rewrite template_end. Qed.
Lemma call_found c v g p d op h : contract_head c v g p d → op_ok op h → length h = 20%nat →
  match_template 6 c (print_ops [v; g; p; d; (op, h); (OP_CALL, [])]) [OP_VERSION; OP_GAS_LIMIT; OP_GAS_PRICE; OP_DATA; OP_PUBKEYHASH; OP_CALL] 20 [] = Some (Found [h]) ∧
  match_template 5 c (print_ops [v; g; p; d; (op, h); (OP_CALL, [])]) [OP_VERSION; OP_GAS_LIMIT; OP_GAS_PRICE; OP_DATA; OP_CREATE] 20 [] = Some NoMatch.
Proof.
  intros Hc Ho Hh. split.
  - destruct (contract_next c v g p d [(op, h); (OP_CALL, [])] 2 [OP_PUBKEYHASH; OP_CALL] Hc) as [root ->].
    rewrite (template_next _ _ (op, h) _ _ _ _ _ root [h]) by (done || by apply match_pubkeyhash). literal_match. by rewrite template_end.
  - destruct (contract_next c v g p d [(op, h); (OP_CALL, [])] 1 [OP_CREATE] Hc) as [root ->].
    rewrite template_step, GetOp2_ops by done. cbn [fst snd].
    destruct (match_op_total c op h OP_CREATE [] root [] Ho) as (r & E & Hr). rewrite E. cbn [mbind option_bind].
    destruct r as [root' sols'| |]; [|done|by discriminate Hr]. exfalso. apply match_literal in E as (-> & -> & _); [done|by apply literal_op|done].
Qed.
(** *** The type of a form is read off its instructions *)
Definition form_type (l : list (Z * bytes)) : txnouttype :=
  let op := fst (List.last l (0, [])) in
  if op =? OP_CHECKSIG then (if (length l =? 2)%nat then TX_PUBKEY else TX_PUBKEYHASH)
  else if op =? OP_CHECKMULTISIG then TX_MULTISIG
  else if op =? OP_CREATE then TX_CREATE else TX_CALL.
Lemma multisig_type m n keys : form_type (multisig_ops m n keys) = TX_MULTISIG.
Proof. unfold form_type, multisig_ops. rewrite app_comm_cons.
  change [(small_op n, []); (OP_CHECKMULTISIG, [])] with ([(small_op n, [] : bytes)] ++ [(OP_CHECKMULTISIG, [])]). by rewrite app_assoc, last_last.
Qed.
Lemma multisig_form_ops c m n keys : ops_ok keys → Forall (λ k, key_size (snd k)) keys → 1 ≤ m ≤ n → n ≤ 16 → n = Z.of_nat (length keys) →
  template_form c TX_MULTISIG (multisig_ops m n keys) (multisig_sols m n keys).
Proof.
  intros. unfold multisig_ops, small_op. replace (m =? 0) with false by lia. replace (n =? 0) with false by lia. by constructor.
Qed.
Ltac ops_list := repeat (apply list.Forall_cons; split); first [done | by apply plain_op | by constructor].
Lemma template_form_inv c l sols t : template_form c t l sols → t = form_type l ∧ ops_ok l ∧
  (t = TX_MULTISIG → ∃ m n keys, multisig_form (print_ops l) m n keys ∧ sols = multisig_sols m n keys ∧ multisig_ok sols = true).
Proof.
  intros [op key Ho Hk|op h Ho Hh|m n keys Hk Hs Hm Hn Hl|v g p d Hc Hv|v g p d op h Hc Hv Ho Hh].
  - split; [done|split; [|done]]. by ops_list.
  - split; [done|split; [|done]]. by ops_list.
  - assert (E : (OP_1 + m - 1, []) :: keys ++ [(OP_1 + n - 1, []); (OP_CHECKMULTISIG, [])] = multisig_ops m n keys).
    { unfold multisig_ops, small_op. replace (m =? 0) with false by lia. by replace (n =? 0) with false by lia. }
    rewrite E. split; [by rewrite multisig_type|]. split; [apply multisig_ops_ok; done || lia|]. intros _.
    exists m, n, keys. split; [split_and!; done || lia|]. split; [done|]. by apply multisig_ok_spec.
  - split; [done|split; [|done]]. apply (Forall_app_2 _ [v; g; p; d]); [apply Hc|by ops_list].
  - split; [done|split; [|done]]. apply (Forall_app_2 _ [v; g; p; d]); [apply Hc|by ops_list].
Qed.
Lemma form_same c c' t t' l l' sols sols' : template_form c t l sols → template_form c' t' l' sols' → print_ops l = print_ops l' → t = t'.
Proof.
  intros (-> & H1 & _)%template_form_inv (-> & H2 & _)%template_form_inv E. by rewrite (ops_unique l l' H1 H2 E).
Qed.

(** *** The scan *)
Definition plain_template (tpl : bytes) : bool := forallb (λ o, OP_PUSHDATA4 <? o) tpl && negb (existsb contract_op tpl).
Lemma plain_outcome c script tpl : bytes_ok script → plain_template tpl = true →
  match_template (length tpl) c script tpl 20 [] = Some NoMatch ∨ ∃ out, match_template (length tpl) c script tpl 20 [] = Some (Found out).
Proof.
  intros Hb [H1 H2%negb_true_iff]%andb_true_iff.
  destruct (template_outcome (length tpl) c script tpl 20 [] ltac:(lia) Hb) as (r & -> & Hr).
  - apply (forallb_Forall (λ o, OP_PUSHDATA4 <? o)); [intros ? ?%Z.ltb_lt; lia|done].
  - destruct r as [out| |s]; [right; by exists out|by left|]. specialize (Hr s eq_refl). congruence.
Qed.
Lemma scan_cons c script t tpl l typ : scan_templates c script ((t, tpl) :: l) typ =
  r ← match_template (length tpl) c script tpl 20 [];
  match r with
  | Found sols => Some (negb (bool_decide (t = TX_MULTISIG) && negb (multisig_ok sols)), t, sols)
  | Refused sols => Some (false, typ, sols)
  | NoMatch => scan_templates c script l typ
  end.
Proof. done. Qed.

(** Each template of the list finds the scripts of its form, and those only. *)
Definition finds (t : txnouttype) (tpl : bytes) : Prop := ∀ c script out, bytes_ok script → script !! 0%nat ≠ Some OP_BUYTICKET →
  match_template (length tpl) c script tpl 20 [] = Some (Found out) → (t = TX_MULTISIG → multisig_ok out = true) →
  ∃ l, script = print_ops l ∧ template_form c t l out.
Lemma templates_find : Forall (λ e, finds (fst e) (snd e)) mTemplates.
Proof.
  repeat (apply list.Forall_cons; split); try constructor; intros c script out Hb Hn H Hok; cbn [fst snd length] in *.
  - destruct (found_pubkey c script out Hb H) as (l & ? & _ & ?). by exists l.
  - destruct (found_pubkeyhash c script out Hb H) as (l & ? & _ & ?). by exists l.
  - destruct (found_multisig c script out Hb H) as (m & n & keys & (-> & Hk & Hs & Hm & Hn') & ->).
    apply multisig_ok_spec in Hok; [|done]. eexists. split; [done|]. apply multisig_form_ops; try done; lia.
  - destruct (found_create c script out Hb Hn H) as (l & ? & _ & ?). by exists l.
  - destruct (found_call c script out Hb Hn H) as (l & ? & _ & ?). by exists l.
Qed.
Lemma scan_sound c script l typ t sols : Forall (λ e, finds (fst e) (snd e)) l → bytes_ok script → script !! 0%nat ≠ Some OP_BUYTICKET →
  scan_templates c script l typ = Some (true, t, sols) → ∃ l', script = print_ops l' ∧ template_form c t l' sols.
Proof.
  intros Hf Hb Hn. induction Hf as [|[t' tpl] l H _ IH]; [done|]. rewrite scan_cons.
  destruct (match_template (length tpl) c script tpl 20 []) as [[out| |out]|] eqn:E; cbn [mbind option_bind]; intros Hr; try done; [|by apply IH].
  injection Hr as Hr -> ->. apply (H c script sols Hb Hn E). cbn [fst]. intros ->. by destruct (multisig_ok sols).
Qed.

(** A script of one form is not matched by the templates of the others. *)
Lemma not_found c t t' tpl l sols : bytes_ok (print_ops l) → template_form c t l sols → t ≠ t' → plain_template tpl = true →
  (∀ out, match_template (length tpl) c (print_ops l) tpl 20 [] = Some (Found out) →
    ∃ l', print_ops l = print_ops l' ∧ ops_ok l' ∧ form_type l' = t') →
  match_template (length tpl) c (print_ops l) tpl 20 [] = Some NoMatch.
Proof.
  intros Hb Hf Hne Hp Hfound. pose proof (template_form_inv c l sols t Hf) as (Et & Hok & _).
  destruct (plain_outcome c (print_ops l) tpl Hb Hp) as [?|[out Ho]]; [done|].
  destruct (Hfound out Ho) as (l' & E & Hl' & E'). apply (ops_unique l l' Hok Hl') in E as <-. congruence.
Qed.
Lemma scan_next c t t' tpl rest l sols typ : bytes_ok (print_ops l) → template_form c t l sols → t ≠ t' → plain_template tpl = true →
  (∀ out, match_template (length tpl) c (print_ops l) tpl 20 [] = Some (Found out) →
    ∃ l', print_ops l = print_ops l' ∧ ops_ok l' ∧ form_type l' = t') →
  scan_templates c (print_ops l) ((t', tpl) :: rest) typ = scan_templates c (print_ops l) rest typ.
Proof. intros. rewrite scan_cons. by rewrite (not_found c t t' tpl l sols). Qed.
Lemma scan_skip_pubkey c t l sols rest typ : bytes_ok (print_ops l) → template_form c t l sols → t ≠ TX_PUBKEY →
  scan_templates c (print_ops l) ((TX_PUBKEY, [OP_PUBKEY; OP_CHECKSIG]) :: rest) typ = scan_templates c (print_ops l) rest typ.
Proof.
  intros Hb Hf Hne. apply (scan_next c t _ _ _ _ sols); try done. intros out H.
  destruct (found_pubkey c _ out Hb H) as (l' & ? & ? & Hf'). exists l'. split_and!; [done..|]. symmetry. apply (template_form_inv _ _ _ _ Hf').
Qed.
Lemma scan_skip_pubkeyhash c t l sols rest typ : bytes_ok (print_ops l) → template_form c t l sols → t ≠ TX_PUBKEYHASH →
  scan_templates c (print_ops l) ((TX_PUBKEYHASH, [OP_DUP; OP_HASH160; OP_PUBKEYHASH; OP_EQUALVERIFY; OP_CHECKSIG]) :: rest) typ =
  scan_templates c (print_ops l) rest typ.
Proof.
  intros Hb Hf Hne. apply (scan_next c t _ _ _ _ sols); try done. intros out H.
  destruct (found_pubkeyhash c _ out Hb H) as (l' & ? & ? & Hf'). exists l'. split_and!; [done..|]. symmetry. apply (template_form_inv _ _ _ _ Hf').
Qed.
Lemma scan_skip_multisig c t l sols rest typ : bytes_ok (print_ops l) → template_form c t l sols → t ≠ TX_MULTISIG →
  scan_templates c (print_ops l) ((TX_MULTISIG, multisig_template) :: rest) typ = scan_templates c (print_ops l) rest typ.
Proof.
  intros Hb Hf Hne. apply (scan_next c t _ _ _ _ sols); try done. intros out H.
  destruct (found_multisig c _ out Hb H) as (m & n & keys & (E & Hk & _ & Hm & Hn) & _). exists (multisig_ops m n keys).
  split_and!; [done|by apply multisig_ops_ok|apply multisig_type].
Qed.
Lemma scan_complete c l typ t sols : bytes_ok (print_ops l) → template_form c t l sols →
  scan_templates c (print_ops l) mTemplates typ = Some (true, t, sols).
Proof.
  intros Hb Hf. unfold mTemplates. pose proof Hf as Hf'.
  destruct Hf' as [op key Ho Hk|op h Ho Hh|m n keys Hk Hs Hm Hn Hl|v g p d Hc Hv|v g p d op h Hc Hv Ho Hh];
    try (rewrite (scan_skip_pubkey _ _ _ _ _ _ Hb Hf) by done); try (rewrite (scan_skip_pubkeyhash _ _ _ _ _ _ Hb Hf) by done);
    try (rewrite (scan_skip_multisig _ _ _ _ _ _ Hb Hf) by done); rewrite scan_cons; cbn [length].
  - by rewrite pubkey_found.
  - by rewrite pubkeyhash_found.
  - destruct (template_form_inv _ _ _ _ Hf) as (_ & _ & H). destruct (H eq_refl) as (m' & n' & keys' & Hform & E & Hok).
    fold multisig_template. rewrite (multisig_found c _ _ _ _ Hform), <- E. cbn [mbind option_bind]. by rewrite Hok.
  - by rewrite create_found.
  - destruct (call_found c v g p d op h Hc Ho Hh) as [E1 E2]. rewrite E2. cbn [mbind option_bind]. rewrite scan_cons. cbn [length]. by rewrite E1.
Qed.
(** The scan always ends. *)
Lemma scan_total c script l typ : bytes_ok script → Forall (λ e, Forall (λ o, OP_PUSHDATA4 < o) (snd e)) l → is_Some (scan_templates c script l typ).
Proof.
  intros Hb Hl. induction Hl as [|[t tpl] l H _ IH]; [by eexists|]. rewrite scan_cons.
  destruct (template_outcome (length tpl) c script tpl 20 [] ltac:(lia) Hb H) as (r & -> & _). destruct r; by eauto.
Qed.
(** ** Proofs: the checks before the templates *)
Lemma p2sh_script script : IsPayToScriptHash script = true ↔ ∃ h, length h = 20%nat ∧ script = OP_HASH160 :: 20 :: h ++ [OP_EQUAL].
Proof.
  unfold IsPayToScriptHash. split.
  - intros [[[Hl H0]%andb_true_iff H1]%andb_true_iff H22]%andb_true_iff. apply Nat.eqb_eq in Hl. apply Z.eqb_eq in H0, H1, H22.
    destruct script as [|a [|b r]]; try done. unfold char_at in *. cbn [nth length] in *. subst a b.
    destruct r as [|x r _] using rev_ind; [done|]. rewrite length_app in Hl. cbn [length] in Hl. exists r. split; [lia|].
    rewrite app_nth2 in H22 by lia. replace (20 - length r)%nat with 0%nat in H22 by lia. cbn in H22. by rewrite H22.
  - intros (h & Hl & ->). cbn [length]. rewrite length_app, Hl. unfold char_at. cbn [nth]. rewrite app_nth2 by lia. by rewrite Hl.
Qed.
Lemma witness_script script v prog : IsWitnessProgram script = Some (v, prog) ↔
  0 ≤ v ≤ 16 ∧ (2 ≤ length prog ≤ 40)%nat ∧ script = small_op v :: Z.of_nat (length prog) :: prog.
Proof.
  unfold IsWitnessProgram, small_op, DecodeOP_N. split.
  - destruct script as [|a [|b r]]; try done. unfold char_at. cbn [length nth].
    destruct (Nat.ltb_spec (S (S (length r))) 4); [done|]. destruct (Nat.ltb_spec 42 (S (S (length r)))); [done|]. cbn [orb].
    unfold OP_0, OP_1, OP_16 in *. destruct (Z.eqb_spec a 0) as [->|Ha]; cbn [negb andb].
    + destruct (Z.eqb_spec (b + 2) (Z.of_nat (S (S (length r))))); [|done]. cbn. rewrite drop_0. intros [= <- <-].
      split; [lia|]. split; [lia|]. cbn. by replace b with (Z.of_nat (length r)) by lia.
    + destruct ((a <? 0x51) || (a >? 0x60)) eqn:Er; [done|]. replace ((a >=? 0x51) && (a <=? 0x60)) with true by lia.
      destruct (Z.eqb_spec (b + 2) (Z.of_nat (S (S (length r))))); [|done]. cbn. rewrite drop_0. intros [= <- <-].
      split; [lia|]. split; [lia|]. destruct (Z.eqb_spec (a - (81 - 1)) 0); [lia|]. apply (f_equal2 cons); [lia|]. apply (f_equal2 cons); [lia|done].
  - intros (Hv & Hl & ->). unfold char_at. cbn [length nth].
    replace ((S (S (length prog)) <? 4)%nat || (42 <? S (S (length prog)))%nat) with false by lia. unfold OP_0, OP_1, OP_16 in *.
    replace (Z.of_nat (length prog) + 2 =? Z.of_nat (S (S (length prog)))) with true by lia.
    destruct (Z.eqb_spec v 0) as [->|Hv0]; [done|]. replace (81 + v - 1 =? 0) with false by lia.
    replace ((81 + v - 1 <? 81) || (81 + v - 1 >? 96)) with false by lia. cbn [negb andb mbind option_bind].
    replace ((81 + v - 1 >=? 81) && (81 + v - 1 <=? 96)) with true by lia. cbn. rewrite drop_0. do 2 f_equal. lia.
Qed.
Lemma push_only_script script : bytes_ok script →
  is_Some (IsPushOnly script) ∧ (IsPushOnly script = Some true ↔ ∃ l, ops_ok l ∧ Forall (λ o, fst o ≤ OP_16) l ∧ script = print_ops l).
Proof.
  intros Hb. unfold IsPushOnly.
  rewrite (scan_all (λ op _, op <=? OP_16) IsPushOnly_loop IsPushOnly_loop_nil IsPushOnly_loop_step (length script) script) by lia.
  split; [by eexists|]. pose proof (script_ops_spec (length script) script Hb ltac:(lia)) as H.
  destruct (script_ops (length script) script) as [l r]. destruct H as (E & Hl & Hr). cbn [fst snd]. split.
  - intros [= [H1 H2%Nat.eqb_eq]%andb_true_iff]. apply nil_length_inv in H2 as ->. rewrite app_nil_r in E. exists l. split; [done|]. split; [|done].
    apply (forallb_Forall (λ o, fst o <=? OP_16)); [|done]. intros o Ho. lia.
  - intros (l' & Hl' & Hp & E'). f_equal. assert (Hr' : r = []).
    { clear Hp Hb. revert l' Hl' E' E. revert script. induction Hl as [|o l Ho Hl IH]; intros script l' Hl' E' E.
      - cbn in E. subst r. destruct l' as [|o' l']; [done|]. apply list.Forall_cons in Hl' as [Ho' _]. rewrite E', GetOp2_ops in Hr by done. done.
      - destruct l' as [|o' l']; [rewrite print_cons in E; destruct (op_bytes_head o) as [x Ex]; rewrite E', Ex in E; done|].
        apply list.Forall_cons in Hl' as [Ho' Hl']. pose proof (GetOp2_ops o' l' Ho') as E1. rewrite <- E', E, print_cons, <- app_assoc, GetOp2_op_bytes in E1 by done.
        injection E1 as _ _ E1. by apply (IH (print_ops l') l'). }
    subst r. rewrite app_nil_r in E. assert (l = l') as -> by (apply ops_unique; [done|done|congruence]).
    apply andb_true_iff. split; [|done]. apply forallb_forall. intros o Ho. rewrite Forall_forall in Hp. specialize (Hp o Ho). lia.
Qed.
(** The instructions before and after which a template form begins and ends. *)
Lemma form_ends c t l sols : template_form c t l sols →
  fst (hd (0, []) l) ≠ OP_BUYTICKET ∧ fst (List.last l (0, [])) ∈ [OP_CHECKSIG; OP_CHECKMULTISIG; OP_CREATE; OP_CALL] ∧ l ≠ [].
Proof.
  intros [op key Ho Hk|op h Ho Hh|m n keys Hk Hs Hm Hn Hl|v g p d Hc Hv|v g p d op h Hc Hv Ho Hh]; cbn [hd fst];
    (split; [|split; [|done]]); try done; try (cbn [List.last fst]; rewrite !elem_of_cons; tauto).
  - intros ->. apply op_ok_plain in Ho as ->; [|done]. unfold key_size in Hk. cbn in Hk. lia.
  - unfold OP_1, OP_BUYTICKET. lia.
  - rewrite app_comm_cons. change [(OP_1 + n - 1, []); (OP_CHECKMULTISIG, [])] with ([(OP_1 + n - 1, [] : bytes)] ++ [(OP_CHECKMULTISIG, [])]).
    rewrite app_assoc, last_last. cbn [fst]. rewrite !elem_of_cons. tauto.
Qed.
Lemma head_op l : l ≠ [] → print_ops l !! 0%nat = Some (fst (hd (0, []) l)).
Proof. destruct l as [|o l]; [done|]. intros _. rewrite print_cons. by destruct (op_bytes_head o) as [r ->]. Qed.
Lemma not_form c t l l' sols : template_form c t l sols → ops_ok l' → print_ops l = print_ops l' →
  fst (List.last l' (0, [])) ∉ [OP_CHECKSIG; OP_CHECKMULTISIG; OP_CREATE; OP_CALL] → False.
Proof.
  intros Hf Hl' E Hn. destruct (template_form_inv _ _ _ _ Hf) as (_ & Hok & _). apply (ops_unique l l' Hok Hl') in E as <-.
  by destruct (form_ends _ _ _ _ Hf) as (_ & ? & _).
Qed.
Lemma p2sh_ops h : bytes_ok h → length h = 20%nat →
  ops_ok [(OP_HASH160, []); (20, h); (OP_EQUAL, [])] ∧ OP_HASH160 :: 20 :: h ++ [OP_EQUAL] = print_ops [(OP_HASH160, []); (20, h); (OP_EQUAL, [])].
Proof.
  intros Hb Hl. split; [|done]. repeat (apply list.Forall_cons; split); try (by apply plain_op); [|constructor].
  split_and!; [done|done|]. cbn [snd]. by rewrite Hl.
Qed.
Lemma witness_ops v prog : 0 ≤ v ≤ 16 → bytes_ok prog → (2 ≤ length prog ≤ 40)%nat →
  ops_ok [(small_op v, []); (Z.of_nat (length prog), prog)] ∧
  small_op v :: Z.of_nat (length prog) :: prog = print_ops [(small_op v, []); (Z.of_nat (length prog), prog)].
Proof.
  intros Hv Hb Hl. split.
  - apply list.Forall_cons. split; [by apply small_op_ok|]. apply Forall_singleton. cbn [fst snd]. split_and!; [unfold is_u8; lia|done|].
    by replace (Z.of_nat (length prog) <? OP_PUSHDATA1) with true by (unfold OP_PUSHDATA1; lia).
  - rewrite !print_cons. cbn [fst snd]. unfold op_bytes at 2.
    replace (Z.of_nat (length prog) <? OP_PUSHDATA1) with true by (unfold OP_PUSHDATA1; lia). unfold print_ops. cbn [map concat]. rewrite app_nil_r.
    unfold small_op, op_bytes. destruct (Z.eqb_spec v 0); [done|]. unfold OP_1, OP_PUSHDATA1, OP_PUSHDATA2, OP_PUSHDATA4.
    replace (81 + v - 1 <? 76) with false by lia. replace (81 + v - 1 =? 76) with false by lia. replace (81 + v - 1 =? 77) with false by lia.
    by replace (81 + v - 1 =? 78) with false by lia.
Qed.
Lemma last_push_only op l : Forall (λ o, fst o ≤ OP_16) l → (op : Z) ∉ [OP_CHECKSIG; OP_CHECKMULTISIG; OP_CREATE; OP_CALL] →
  fst (List.last ((op, [] : bytes) :: l) (0, [])) ∉ [OP_CHECKSIG; OP_CHECKMULTISIG; OP_CREATE; OP_CALL].
Proof.
  intros Hl Hop. destruct l as [|o l _] using rev_ind; [done|]. rewrite app_comm_cons, last_last. apply Forall_app in Hl as [_ Hl].
  apply list.Forall_cons in Hl as [Hl _]. rewrite !elem_of_cons. unfold OP_16, OP_CHECKSIG, OP_CHECKMULTISIG, OP_CREATE, OP_CALL in *.
  intros [?|[?|[?|[?|?%elem_of_nil]]]]; done || lia.
Qed.
Lemma null_data_check script : bytes_ok script →
  let r := if (1 <=? length script)%nat && (char_at script 0 =? OP_RETURN) then IsPushOnly (drop 1 script) else Some false in
  is_Some r ∧ (r = Some true ↔ ∃ l, ops_ok l ∧ Forall (λ o, fst o ≤ OP_16) l ∧ script = OP_RETURN :: print_ops l).
Proof.
  intros Hb. destruct script as [|a s]; [split; [by eexists|split; [done|by intros (? & _ & _ & ?)]]|].
  apply bytes_ok_cons in Hb as [_ Hb]. unfold char_at. cbn [length nth drop]. rewrite drop_0. cbn [Nat.leb andb].
  destruct (Z.eqb_spec a OP_RETURN) as [->|Hne].
  - destruct (push_only_script s Hb) as [H1 H2]. split; [done|]. rewrite H2. split; intros (l & ? & ? & E); exists l; split_and!; try done; congruence.
  - split; [by eexists|]. split; [done|]. intros (l & _ & _ & [= E _]). done.
Qed.
Lemma return_ops l : ops_ok l → ops_ok ((OP_RETURN, []) :: l) ∧ OP_RETURN :: print_ops l = print_ops ((OP_RETURN, []) :: l).
Proof. intros Hl. split; [|done]. apply list.Forall_cons. split; [by apply plain_op|done]. Qed.
Lemma Solver_sound c script typ t sols : bytes_ok script → Solver script typ c = Some (true, t, sols) → standard_form c script t sols.
Proof.
  intros Hb. unfold Solver. destruct (IsPayToScriptHash script) eqn:E1.
  { apply p2sh_script in E1 as (h & Hl & ->). intros [= <- <-]. cbn [drop]. rewrite drop_0, take_app_length' by done. by constructor. }
  destruct (IsWitnessProgram script) as [[v prog]|] eqn:E2.
  { apply witness_script in E2 as (Hv & Hl & ->). destruct (Z.eqb_spec v 0) as [->|]; cbn [andb]; [|done].
    destruct (Nat.eqb_spec (length prog) 20) as [E|]; [intros [= <- <-]; rewrite E; by constructor|].
    destruct (Nat.eqb_spec (length prog) 32) as [E|]; [intros [= <- <-]; rewrite E; by constructor|done]. }
  destruct (null_data_check script Hb) as [[b Hnull] Hdata]. rewrite Hnull in *. cbn [mbind option_bind]. destruct b.
  { intros [= <- <-]. destruct Hdata as [Hdata _]. destruct (Hdata eq_refl) as (l & ? & ? & ->). by constructor. }
  destruct script as [|a s]; [done|]. cbn [HasOpSStx mbind option_bind]. destruct (Z.eqb_spec a OP_BUYTICKET) as [->|Hne]; [intros [= <- <-]; constructor|].
  intros (l & -> & Hl)%scan_sound; [by constructor|apply templates_find|done|cbn; congruence].
Qed.
Lemma Solver_template c l typ t sols : bytes_ok (print_ops l) → template_form c t l sols → Solver (print_ops l) typ c = Some (true, t, sols).
Proof.
  intros Hb Hf. destruct (form_ends _ _ _ _ Hf) as (Hh & Hlast & Hne). unfold Solver.
  destruct (IsPayToScriptHash (print_ops l)) eqn:E1.
  { exfalso. apply p2sh_script in E1 as (h & Hl & E). assert (Hbh : bytes_ok h).
    { rewrite E in Hb. apply bytes_ok_cons in Hb as [_ [_ [? _]%bytes_ok_app]%bytes_ok_cons]. done. }
    destruct (p2sh_ops h Hbh Hl) as [Hok Ep]. rewrite Ep in E. apply (not_form _ _ _ _ _ Hf Hok E). cbn [List.last fst]. by apply (bool_decide_unpack _). }
  destruct (IsWitnessProgram (print_ops l)) as [[v prog]|] eqn:E2.
  { exfalso. apply witness_script in E2 as (Hv & Hl & E). assert (Hbp : bytes_ok prog).
    { rewrite E in Hb. by apply bytes_ok_cons in Hb as [_ [_ ?]%bytes_ok_cons]. }
    destruct (witness_ops v prog Hv Hbp Hl) as [Hok Ep]. rewrite Ep in E. apply (not_form _ _ _ _ _ Hf Hok E). cbn [List.last fst].
    unfold OP_CHECKSIG, OP_CHECKMULTISIG, OP_CREATE, OP_CALL. rewrite !not_elem_of_cons. split_and!; try lia. apply not_elem_of_nil. }
  destruct (null_data_check _ Hb) as [[b Hnull] Hdata]. rewrite Hnull in *. cbn [mbind option_bind]. destruct b.
  { exfalso. destruct Hdata as [Hdata _]. destruct (Hdata eq_refl) as (l' & Hok & Hp & E). destruct (return_ops l' Hok) as [Hok' Ep]. rewrite Ep in E.
    apply (not_form _ _ _ _ _ Hf Hok' E). apply last_push_only; [done|]. by apply (bool_decide_unpack _). }
  pose proof (head_op l Hne) as Eh. destruct (print_ops l) as [|a s] eqn:Es; [done|]. injection Eh as ->. cbn [HasOpSStx mbind option_bind].
  replace (fst (hd (0, []) l) =? OP_BUYTICKET) with false by lia. rewrite <- Es in *. by apply scan_complete.
Qed.
Lemma Solver_complete c script typ t sols : bytes_ok script → standard_form c script t sols → Solver script typ c = Some (true, t, sols).
Proof.
  intros Hb Hf. destruct Hf as [h Hl|h Hl|h Hl|l Hok Hp|s|t l sols Hf].
  - unfold Solver. assert (E : IsPayToScriptHash (OP_HASH160 :: 20 :: h ++ [OP_EQUAL]) = true) by (apply p2sh_script; by exists h).
    rewrite E. cbn [drop]. by rewrite drop_0, take_app_length'.
  - unfold Solver. assert (E : IsWitnessProgram (OP_0 :: 20 :: h) = Some (0, h)) by (apply witness_script; rewrite Hl; split; [lia|split; [lia|reflexivity]]).
    rewrite E. unfold IsPayToScriptHash. cbn [length]. by rewrite Hl.
  - unfold Solver. assert (E : IsWitnessProgram (OP_0 :: 32 :: h) = Some (0, h)) by (apply witness_script; rewrite Hl; split; [lia|split; [lia|reflexivity]]).
    rewrite E. unfold IsPayToScriptHash. cbn [length]. by rewrite Hl.
  - unfold Solver. destruct (IsPayToScriptHash _) eqn:E1; [by apply p2sh_script in E1 as (h & _ & ?)|].
    destruct (IsWitnessProgram _) as [[v prog]|] eqn:E2.
    { apply witness_script in E2 as (Hv & _ & [= E _]). unfold small_op, OP_RETURN, OP_0, OP_1 in E. case_match; lia. }
    destruct (null_data_check _ Hb) as [_ Hdata]. destruct Hdata as [_ Hdata]. rewrite Hdata by (by exists l). done.
  - unfold Solver. destruct (IsPayToScriptHash _) eqn:E1; [by apply p2sh_script in E1 as (h & _ & ?)|].
    destruct (IsWitnessProgram _) as [[v prog]|] eqn:E2.
    { apply witness_script in E2 as (Hv & _ & [= E _]). unfold small_op, OP_BUYTICKET, OP_0, OP_1 in E. case_match; lia. }
    done.
  - by apply Solver_template.
Qed.
Lemma Solver_total c script typ : bytes_ok script → script ≠ [] → is_Some (Solver script typ c).
Proof.
  intros Hb Hne. unfold Solver. case_match; [by eexists|]. case_match; [repeat case_match; by eexists|].
  destruct (null_data_check script Hb) as [[b Hnull] _]. rewrite Hnull. cbn [mbind option_bind]. destruct b; [by eexists|].
  destruct script as [|a s]; [done|]. cbn [HasOpSStx mbind option_bind]. destruct (a =? OP_BUYTICKET); [by eexists|].
  apply scan_total; [done|]. repeat (apply list.Forall_cons; split); try done; apply (forallb_Forall (λ o, OP_PUSHDATA4 <? o)); done || (intros; lia).
Qed.
(** ** Proofs: writing and reading *)
Definition valid_key (key : bytes) : Prop := bytes_ok key ∧ pubkey_Set key = key ∧ pubkey_IsValid key = true.
Lemma valid_key_size key : valid_key key → key_size key ∧ CPubKey_bytes key = key.
Proof.
  intros (_ & Hs & Hv). unfold pubkey_Set, pubkey_IsValid, CPubKey_bytes, key_size in *. destruct key as [|a key]; [done|].
  destruct (negb (pubkey_GetLen a =? 0)%nat && (pubkey_GetLen a =? length (a :: key))%nat) eqn:E.
  - apply andb_true_iff in E as [_ E%Nat.eqb_eq]. rewrite E. split; [|by apply take_ge].
    rewrite <- E. unfold pubkey_GetLen in *. repeat case_match; cbn in *; lia.
  - injection Hs as <- <-. done.
Qed.
Lemma push_op_ok s b : bytes_ok b → (length b ≤ 75)%nat → push_data s b = s ++ print_ops [(Z.of_nat (length b), b)] ∧ op_ok (Z.of_nat (length b)) b.
Proof.
  intros Hb Hl. destruct (push_data_op s b Hb ltac:(lia)) as [E Hok]. unfold push_op in *.
  replace (Z.of_nat (length b) <? OP_PUSHDATA1) with true in * by (unfold OP_PUSHDATA1; lia). split; [|done].
  rewrite E. unfold print_ops. cbn [map concat fst snd]. by rewrite app_nil_r.
Qed.
Abbreviation key_ops := (map (λ k : bytes, (Z.of_nat (length k), k))).
Lemma push_keys s keys : Forall valid_key keys → foldl push_data s (map CPubKey_bytes keys) = s ++ print_ops (key_ops keys) ∧
  ops_ok (key_ops keys) ∧ Forall (λ k, key_size (snd k)) (key_ops keys) ∧ map snd (key_ops keys) = keys.
Proof.
  intros Hk. revert s. induction Hk as [|k keys Hk _ IH]; intros s; [cbn; by rewrite app_nil_r|].
  destruct (valid_key_size k Hk) as [Hs Eb]. cbn [map foldl]. rewrite Eb. pose proof Hs as [Hs1 Hs2].
  destruct (push_op_ok s k ltac:(apply Hk)) as [-> Ho].
  { revert Hk. unfold valid_key, pubkey_Set, pubkey_IsValid. lia. }
  destruct (IH (s ++ print_ops [(Z.of_nat (length k), k)])) as (-> & H1 & H2 & H3).
  split_and!; [|by constructor|by constructor|by rewrite H3]. rewrite <- app_assoc. f_equal. by rewrite <- print_app.
Qed.
Lemma EncodeOP_N_small n : 0 ≤ n ≤ 16 → EncodeOP_N n = Some (small_op n) ∧ ∀ s, push_opcode s (small_op n) = Some (s ++ [small_op n]).
Proof.
  intros Hn. unfold EncodeOP_N, small_op, push_opcode. replace ((n >=? 0) && (n <=? 16)) with true by lia. cbn [negb].
  destruct (Z.eqb_spec n 0); [done|]. split; [done|]. intros s. unfold OP_1. by replace ((81 + n - 1 <? 0) || (81 + n - 1 >? 0xff)) with false by lia.
Qed.
Lemma small_op_bytes n : 0 ≤ n ≤ 16 → op_bytes (small_op n) [] = [small_op n].
Proof. intros Hn. unfold small_op. destruct (Z.eqb_spec n 0); [done|]. apply opcode_ok. unfold OP_PUSHDATA4, OP_1. lia. Qed.
Lemma GetScriptForMultisig_ops m keys : 0 ≤ m ≤ 16 → (length keys ≤ 16)%nat → Forall valid_key keys →
  GetScriptForMultisig m keys = Some (print_ops (multisig_ops m (Z.of_nat (length keys)) (key_ops keys))).
Proof.
  intros Hm Hn Hk. unfold GetScriptForMultisig. destruct (EncodeOP_N_small m Hm) as [-> E1].
  destruct (EncodeOP_N_small (Z.of_nat (length keys)) ltac:(lia)) as [-> E2]. cbn [mbind option_bind]. rewrite E1. cbn [mbind option_bind app].
  destruct (push_keys [small_op m] keys Hk) as (-> & _). rewrite E2. cbn [mbind option_bind].
  assert (E : ∀ s, push_opcode s OP_CHECKMULTISIG = Some (s ++ [OP_CHECKMULTISIG])) by done. rewrite E. f_equal.
  unfold multisig_ops. rewrite print_cons, print_app, print_cons. cbn [fst snd]. rewrite !small_op_bytes by lia. by rewrite <- !app_assoc.
Qed.
Lemma key_addresses_cons k keys : key_addresses (k :: keys) =
  (if pubkey_IsValid (pubkey_Set k) then [CKeyID (CPubKey_GetID (pubkey_Set k))] else []) ++ key_addresses keys.
Proof. unfold key_addresses. cbn [omap list_omap]. by destruct (pubkey_IsValid (pubkey_Set k)). Qed.
Lemma key_addresses_valid keys : Forall valid_key keys → key_addresses keys = map (λ k, CKeyID (Hashes.Hash160 k)) keys.
Proof.
  induction 1 as [|k keys Hk _ IH]; [done|]. rewrite key_addresses_cons, IH. destruct (valid_key_size k Hk) as [_ Eb].
  destruct Hk as (_ & -> & ->). unfold CPubKey_GetID. by rewrite Eb.
Qed.

(** Reading back what the functions above write. *)
Lemma print_ops_ok l : ops_ok l → bytes_ok (print_ops l).
Proof.
  induction 1 as [|[op data] l (Ho & Hd & _) _ IH]; [apply bytes_ok_nil|]. rewrite print_cons. apply bytes_ok_app. split; [|done].
  cbn [fst snd] in *. unfold op_bytes. apply bytes_ok_cons. split; [done|].
  unfold WriteLE16, WriteLE32.
  repeat case_match; try done; first [apply bytes_ok_cons; split; [apply u8_range|done]|apply bytes_ok_app; split; [apply to_digits_ok; lia|done]].
Qed.
Lemma p2pkh_form c h : bytes_ok h → length h = 20%nat →
  standard_form c (GetScriptForDestination (CKeyID h)) TX_PUBKEYHASH [h] ∧ bytes_ok (GetScriptForDestination (CKeyID h)).
Proof.
  intros Hb Hl. unfold GetScriptForDestination. destruct (push_op_ok [OP_DUP; OP_HASH160] h Hb ltac:(lia)) as [-> Ho]. rewrite Hl in *.
  change [OP_DUP; OP_HASH160] with (print_ops [(OP_DUP, []); (OP_HASH160, [])]).
  change [OP_EQUALVERIFY; OP_CHECKSIG] with (print_ops [(OP_EQUALVERIFY, []); (OP_CHECKSIG, [])]). rewrite <- !print_app. cbn [app].
  assert (Hf : template_form c TX_PUBKEYHASH [(OP_DUP, []); (OP_HASH160, []); (Z.of_nat 20, h); (OP_EQUALVERIFY, []); (OP_CHECKSIG, [])] [h]) by (by constructor).
  split; [by constructor|]. apply print_ops_ok. apply (template_form_inv _ _ _ _ Hf).
Qed.
Lemma p2sh_form c h : bytes_ok h → length h = 20%nat →
  standard_form c (GetScriptForDestination (CScriptID h)) TX_SCRIPTHASH [h] ∧ bytes_ok (GetScriptForDestination (CScriptID h)).
Proof.
  intros Hb Hl. unfold GetScriptForDestination. destruct (push_op_ok [OP_HASH160] h Hb ltac:(lia)) as [-> Ho]. rewrite Hl in *.
  destruct (p2sh_ops h Hb Hl) as [Hok Ep].
  assert (E : ([OP_HASH160] ++ print_ops [(Z.of_nat 20, h)]) ++ [OP_EQUAL] = OP_HASH160 :: 20 :: h ++ [OP_EQUAL]).
  { rewrite Ep. change [OP_HASH160] with (print_ops [(OP_HASH160, [])]). change [OP_EQUAL] with (print_ops [(OP_EQUAL, [])]). by rewrite <- !print_app. }
  rewrite E. split; [by constructor|]. rewrite Ep. by apply print_ops_ok.
Qed.
Lemma rawkey_form c key : valid_key key → standard_form c (GetScriptForRawPubKey key) TX_PUBKEY [key] ∧ bytes_ok (GetScriptForRawPubKey key).
Proof.
  intros Hk. destruct (valid_key_size key Hk) as [Hs Eb]. unfold GetScriptForRawPubKey. rewrite Eb. pose proof Hs as [Hs1 Hs2].
  destruct (push_op_ok [] key ltac:(apply Hk)) as [-> Ho]; [revert Hk; unfold valid_key, pubkey_Set, pubkey_IsValid; lia|].
  change [OP_CHECKSIG] with (print_ops [(OP_CHECKSIG, [])]). cbn [app]. rewrite <- print_app. cbn [app].
  assert (Hf : template_form c TX_PUBKEY [(Z.of_nat (length key), key); (OP_CHECKSIG, [])] [key]) by (by constructor).
  split; [by constructor|]. apply print_ops_ok. apply (template_form_inv _ _ _ _ Hf).
Qed.
Lemma multisig_script_form c m keys : 1 ≤ m ≤ Z.of_nat (length keys) → (length keys ≤ 16)%nat → Forall valid_key keys →
  ∃ script, GetScriptForMultisig m keys = Some script ∧ bytes_ok script ∧
    standard_form c script TX_MULTISIG ([m] :: keys ++ [[Z.of_nat (length keys)]]).
Proof.
  intros Hm Hn Hk. eexists. split; [apply GetScriptForMultisig_ops; done || lia|]. destruct (push_keys [] keys Hk) as (_ & Hok & Hs & E).
  split; [apply print_ops_ok, multisig_ops_ok; done || lia|]. apply form_template. rewrite <- E at 3.
  apply (multisig_form_ops c m (Z.of_nat (length keys)) (key_ops keys)); try done; [lia|]. by rewrite length_map.
Qed.
(** ** The theorems *)

(** C17. [Solver] ends on every script that is not empty, and it returns true exactly
    for the standard forms, with the type and the solutions of the form: a
    script or witness hash of the right size, an output of data that only pushes, a
    ticket, a key, a key hash, [m] of [n] keys with [1 ≤ m ≤ n ≤ 16], or a contract
    whose version is that of no machine or of the EVM, whose gas limit and price
    are within the bounds of the blocks or of the pool, and which carries data. *)
Theorem solver_standard (c : bool) (script : bytes) (typ : txnouttype) (Hb : bytes_ok script) (Hne : script ≠ []) :
  is_Some (Solver script typ c) ∧ ∀ t sols, Solver script typ c = Some (true, t, sols) ↔ standard_form c script t sols.
Proof.
  split; [by apply Solver_total|]. intros t sols. split; [by apply Solver_sound|by apply Solver_complete].
Qed.
Lemma solver_standard_witness :
  standard_form true ([1; 4; 2; 0x10; 0x27; 1; 1; 1; 9; 20] ++ replicate 20 7 ++ [OP_CALL]) TX_CALL [replicate 20 7].
Proof.
  destruct (solver_standard true ([1; 4; 2; 0x10; 0x27; 1; 1; 1; 9; 20] ++ replicate 20 7 ++ [OP_CALL]) TX_NONSTANDARD) as [_ H].
  - apply u8sb_ok. vm_compute. reflexivity.
  - intros E. discriminate E.
  - apply H. vm_compute. reflexivity.
Defined.

(** The scripts that the wallet writes are read back: the script of a key hash
    or of a script hash yields that destination, the script of a valid key yields
    the hash of the key, and the script of [m] of [n] valid keys yields the hashes of
    the keys, in order, and [m].  The witness script of a key hash is the witness program
    of that hash. *)
Theorem destinations_roundtrip (h : bytes) (m : Z) (keys : list bytes) (nRequired : Z)
  (Hh : bytes_ok h) (Hl : length h = 20%nat) (Hk : Forall valid_key keys)
  (Hm : 1 ≤ m ≤ Z.of_nat (length keys)) (Hn : (length keys ≤ 16)%nat) :
  ExtractDestination (GetScriptForDestination (CKeyID h)) = Some (Some (CKeyID h), Some TX_PUBKEYHASH) ∧
  ExtractDestination (GetScriptForDestination (CScriptID h)) = Some (Some (CScriptID h), Some TX_SCRIPTHASH) ∧
  Forall (λ key, ExtractDestination (GetScriptForRawPubKey key) = Some (Some (CKeyID (Hashes.Hash160 key)), Some TX_PUBKEY)) keys ∧
  (script ← GetScriptForMultisig m keys; ExtractDestinations script nRequired) =
    Some (true, TX_MULTISIG, map (λ key, CKeyID (Hashes.Hash160 key)) keys, m) ∧
  (script ← GetScriptForWitness (GetScriptForDestination (CKeyID h)); Solver script TX_NONSTANDARD false) =
    Some (true, TX_WITNESS_V0_KEYHASH, [h]).
Proof.
  destruct (p2pkh_form false h Hh Hl) as [F1 B1], (p2sh_form false h Hh Hl) as [F2 B2].
  split_and!.
  - unfold ExtractDestination. rewrite (Solver_complete _ _ _ _ _ B1 F1). cbn. unfold uint160_of. by rewrite Hl.
  - unfold ExtractDestination. rewrite (Solver_complete _ _ _ _ _ B2 F2). cbn. unfold uint160_of. by rewrite Hl.
  - apply (list.Forall_impl valid_key _ keys Hk). intros key Hkey. destruct (rawkey_form false key Hkey) as [F B]. unfold ExtractDestination.
    rewrite (Solver_complete _ _ _ _ _ B F). cbn [mbind option_bind negb head]. destruct (valid_key_size key Hkey) as [_ Eb].
    destruct Hkey as (_ & -> & ->). cbn [negb]. unfold CPubKey_GetID. by rewrite Eb.
  - destruct (multisig_script_form false m keys Hm Hn Hk) as (script & -> & B & F). cbn [mbind option_bind]. unfold ExtractDestinations.
    rewrite (Solver_complete _ _ _ _ _ B F). cbn [mbind option_bind negb]. rewrite bool_decide_eq_false_2, bool_decide_eq_true_2 by done.
    cbn [drop]. rewrite drop_0, removelast_last, key_addresses_valid, length_map by done. cbn [hd char_at nth].
    destruct keys; [cbn in Hm; lia|done].
  - unfold GetScriptForWitness. rewrite (Solver_complete _ _ _ _ _ B1 F1). cbn [mbind option_bind andb].
    rewrite bool_decide_eq_false_2, bool_decide_eq_true_2 by done. cbn [head mbind option_bind].
    destruct (push_op_ok [OP_0] h Hh ltac:(lia)) as [-> Ho]. rewrite Hl. apply Solver_complete.
    + apply bytes_ok_app. split; [by apply bytes_ok_1|]. apply print_ops_ok. apply Forall_singleton. by rewrite Hl in Ho.
    + unfold print_ops. cbn [map concat fst snd]. rewrite app_nil_r. by apply (form_keyhash false h).
Qed.
Definition key_example (n : Z) : bytes := 2 :: replicate 32 n.
Lemma key_example_valid n : 0 ≤ n < 256 → valid_key (key_example n).
Proof.
  intros Hn. split_and!; [|done|done]. apply bytes_ok_cons. split; [done|]. by apply Forall_replicate.
Qed.
Lemma destinations_roundtrip_witness :
  ExtractDestination (GetScriptForDestination (CKeyID (replicate 20 7))) = Some (Some (CKeyID (replicate 20 7)), Some TX_PUBKEYHASH).
Proof.
  apply (destinations_roundtrip (replicate 20 7) 1 [key_example 3; key_example 4] 0).
  - apply u8sb_ok. vm_compute. reflexivity.
  - reflexivity.
  - repeat (apply list.Forall_cons; split); [apply key_example_valid; lia|apply key_example_valid; lia|constructor].
  - vm_compute. split; intros E; discriminate E.
  - vm_compute. repeat constructor.
Defined.
