(* ===== verification/Base58.v ===== *)
(** * Base58 and addresses (src/src/base58.cpp, base58.h)

    The encoding of byte strings in base 58, with and without the four bytes of
    checksum, and the addresses of the program: a version byte and the 20 bytes of
    a key hash or a script hash.  The wallet, the ticket pool and the signatures of
    blocks name keys by these strings. *)

From stdpp Require Import base numbers list option.
From Stdlib Require Import ZArith Lia ZifyNat ZifyBool.
From Stdlib Require String.
Import String.StringSyntax.
From S2P Require Import Prelude BlockStream StrEncodings Endian MerkleDamgard Fips180 Sha256 Hash Script Transaction Interpreter Standard.

Definition pszBase58 : list Z := str "123456789ABCDEFGHJKLMNPQRSTUVWXYZabcdefghijkmnopqrstuvwxyz".
(** [strchr(pszBase58, c)], as an offset. *)
Fixpoint strchr (psz : list Z) (c : Z) : option Z :=
  match psz with
  | [] => None
  | ch :: psz => if ch =? c then Some 0 else i ← strchr psz c; Some (i + 1)
  end.

(** ** The change of base

    One turn of both conversions: the number in the vector is multiplied by [mul]
    and [carry] is added, from the end of the vector, which is given reversed.
    The result is the vector, the carry left and the position reached. *)
Fixpoint carry_loop (base mul : Z) (length i : nat) (carry : Z) (rb : list Z) : list Z * Z * nat :=
  match rb with
  | [] => ([], carry, i)
  | it :: rb' =>
      if negb (carry =? 0) || (i <? length)%nat then
        let carry := carry + mul * it in
        let '(rb', c, j) := carry_loop base mul length (S i) (carry / base) rb' in
        (carry mod base :: rb', c, j)
      else (rb, carry, i)
  end.
(** The turn with its assertion that no carry is left. *)
Definition mul_add (base mul carry : Z) (b : list Z) (length : nat) : option (list Z * nat) :=
  let '(rb, c, i) := carry_loop base mul length 0 carry (rev b) in
  if c =? 0 then Some (rev rb, i) else None.

(** ** Encoding *)
Fixpoint encode_loop (p : bytes) (b58 : list Z) (length : nat) : option (list Z * nat) :=
  match p with
  | [] => Some (b58, length)
  | byte :: p => '(b58, length) ← mul_add 58 256 byte b58 length; encode_loop p b58 length
  end.
(** [None] is a failed assertion, or a vector of a negative size. *)
Definition EncodeBase58 (vch : bytes) : option bytes :=
  let p := skip_while (λ c, c =? 0) vch in
  let zeroes := (length vch - length p)%nat in
  let size := i32 (Z.of_nat (length p) * 138 / 100 + 1) in
  if size <? 0 then None
  else
    '(b58, len) ← encode_loop p (replicate (Z.to_nat size) 0) 0;
    let it := skip_while (λ c, c =? 0) (drop (length b58 - len) b58) in
    Some (replicate zeroes 49 ++ map (λ d, char_at pszBase58 (Z.to_nat d)) it).

(** ** Decoding *)

(** The characters up to a space or the end.  [None] is a failed assertion,
    [Some None] a character that is not of the alphabet. *)
Fixpoint decode_loop (psz : bytes) (b256 : list Z) (length : nat) : option (option (bytes * list Z * nat)) :=
  match psz with
  | c :: psz' =>
      if isspace c then Some (Some (psz, b256, length))
      else
        match strchr pszBase58 c with
        | None => Some None
        | Some ch => '(b256, length) ← mul_add 256 58 ch b256 length; decode_loop psz' b256 length
        end
  | [] => Some (Some ([], b256, length))
  end.
(** The bytes when the function returns true. *)
Definition DecodeBase58 (str : bytes) : option (option bytes) :=
  let psz := skip_while isspace (c_str str) in
  let psz1 := skip_while (λ c, c =? 49) psz in
  let zeroes := (length psz - length psz1)%nat in
  let size := i32 (Z.of_nat (length psz1) * 733 / 1000 + 1) in
  if size <? 0 then None
  else
    r ← decode_loop psz1 (replicate (Z.to_nat size) 0) 0;
    match r with
    | None => Some None
    | Some (psz, b256, len) =>
        match skip_while isspace psz with
        | _ :: _ => Some None
        | [] => Some (Some (replicate zeroes 0 ++ skip_while (λ c, c =? 0) (drop (length b256 - len) b256)))
        end
    end.

(** ** With a checksum *)
Definition checksum (vch : bytes) : bytes := take 4 (Hashes.Hash1 vch).
Definition EncodeBase58Check (vchIn : bytes) : option bytes := EncodeBase58 (vchIn ++ checksum vchIn).
Definition DecodeBase58Check (str : bytes) : option (option bytes) :=
  r ← DecodeBase58 str;
  match r with
  | None => Some None
  | Some vch =>
      if (length vch <? 4)%nat then Some None
      else
        let body := take (length vch - 4) vch in
        if bool_decide (checksum body = drop (length vch - 4) vch) then Some (Some body) else Some None
  end.

(** ** [CBase58Data] *)
Record CBase58Data := mkBase58 { vchVersion : bytes; vchData : bytes }.
#[export] Instance CBase58Data_eq_dec : EqDecision CBase58Data.
Proof. solve_decision. Defined.
Definition new_CBase58Data : CBase58Data := mkBase58 [] [].
Definition SetData (vchVersionIn pdata : bytes) : CBase58Data := mkBase58 vchVersionIn pdata.
(** The result, and the object. *)
Definition SetString (psz : bytes) (nVersionBytes : nat) : option (bool * CBase58Data) :=
  r ← DecodeBase58Check psz;
  Some (match r with
        | None => (false, new_CBase58Data)
        | Some vchTemp =>
            if (length vchTemp <? nVersionBytes)%nat then (false, new_CBase58Data)
            else (true, mkBase58 (take nVersionBytes vchTemp) (drop nVersionBytes vchTemp))
        end).
Definition ToString (b : CBase58Data) : option bytes := EncodeBase58Check (vchVersion b ++ vchData b).
(** [operator<] of vectors. *)
Fixpoint vector_lt (a b : bytes) : bool :=
  match a, b with
  | _, [] => false
  | [], _ :: _ => true
  | x :: a, y :: b => (x <? y) || (negb (y <? x) && vector_lt a b)
  end.
Definition Base58_CompareTo (a b : CBase58Data) : Z :=
  if vector_lt (vchVersion a) (vchVersion b) then -1
  else if vector_lt (vchVersion b) (vchVersion a) then 1
  else if vector_lt (vchData a) (vchData b) then -1
  else if vector_lt (vchData b) (vchData a) then 1
  else 0.
Definition Base58_eq (a b : CBase58Data) : bool := Base58_CompareTo a b =? 0.

(** ** [CBitcoinAddress] *)

(** The version bytes of a network (src/src/chainparams.cpp). *)
Record Base58Prefixes := mkPrefixes { PUBKEY_ADDRESS : bytes; SCRIPT_ADDRESS : bytes }.
Definition main_prefixes : Base58Prefixes := mkPrefixes [65] [50].
Definition testnet_prefixes : Base58Prefixes := mkPrefixes [120] [110].
Definition regtest_prefixes : Base58Prefixes := mkPrefixes [120] [110].

Section Address.
Context (params : Base58Prefixes).

Definition Address_SetKeyID (id : bytes) : CBase58Data := SetData (PUBKEY_ADDRESS params) id.
Definition Address_SetScriptID (id : bytes) : CBase58Data := SetData (SCRIPT_ADDRESS params) id.
(** [Set] by the visitor: an object is left as it is by no destination. *)
Definition Address_Set (addr : CBase58Data) (dest : CTxDestination) : bool * CBase58Data :=
  match dest with
  | CKeyID id => (true, Address_SetKeyID id)
  | CScriptID id => (true, Address_SetScriptID id)
  | CNoDestination => (false, addr)
  end.
Definition CBitcoinAddress (dest : CTxDestination) : CBase58Data := snd (Address_Set new_CBase58Data dest).
Definition CBitcoinAddress_string (strAddress : bytes) : option CBase58Data := '(_, a) ← SetString strAddress 1; Some a.
Definition Address_IsValid (a : CBase58Data) : bool :=
  (length (vchData a) =? 20)%nat
  && (bool_decide (vchVersion a = PUBKEY_ADDRESS params) || bool_decide (vchVersion a = SCRIPT_ADDRESS params)).
Definition Address_Get (a : CBase58Data) : CTxDestination :=
  if negb (Address_IsValid a) then CNoDestination
  else if bool_decide (vchVersion a = PUBKEY_ADDRESS params) then CKeyID (vchData a)
  else if bool_decide (vchVersion a = SCRIPT_ADDRESS params) then CScriptID (vchData a)
  else CNoDestination.
Definition GetKeyID (a : CBase58Data) : option bytes :=
  if negb (Address_IsValid a) || negb (bool_decide (vchVersion a = PUBKEY_ADDRESS params)) then None else Some (vchData a).
Definition Address_IsScript (a : CBase58Data) : bool := Address_IsValid a && bool_decide (vchVersion a = SCRIPT_ADDRESS params).
Definition Address_IsPubKeyHash (a : CBase58Data) : bool := Address_IsValid a && bool_decide (vchVersion a = PUBKEY_ADDRESS params).
End Address.

(** ** Proofs: the change of base *)
Lemma all_zeros l : Forall (λ d, d = 0) l → l = replicate (length l) 0.
Proof. induction 1 as [|d l -> _ IH]; [done|]. cbn. by rewrite <- IH. Qed.
Lemma carry_loop_spec base mul length rb i carry : 1 < base → 0 ≤ mul → digits_ok base rb → 0 ≤ carry →
  Forall (λ d, d = 0) (drop (length - i) rb) →
  ∃ rb' c j, carry_loop base mul length i carry rb = (rb', c, j) ∧
    List.length rb' = List.length rb ∧ digits_ok base rb' ∧ 0 ≤ c ∧ (i ≤ j ≤ i + List.length rb)%nat ∧
    from_digits base rb' + base ^ Z.of_nat (List.length rb) * c = carry + mul * from_digits base rb ∧
    Forall (λ d, d = 0) (drop (j - i) rb').
Proof.
  intros Hb Hm. revert i carry. induction rb as [|it rb IH]; intros i carry Hok Hc Hz; cbn [carry_loop].
  { exists [], carry, i. repeat split; try done; try lia. all: cbn [List.length from_digits]; rewrite ?Z.pow_0_r; try lia. by rewrite drop_nil. }
  apply list.Forall_cons in Hok as [Hi Hok].
  destruct (negb (carry =? 0) || (i <? length)%nat) eqn:E.
  - assert (Hc' : 0 ≤ (carry + mul * it) / base) by (apply Z.div_pos; nia).
    destruct (IH (S i) ((carry + mul * it) / base) Hok Hc') as (rb' & c & j & -> & Hl & Hok' & Hc0 & Hj & Hv & Hz').
    { destruct (decide (i < length)%nat).
      - replace (length - i)%nat with (S (length - S i)) in Hz by lia. exact Hz.
      - replace (length - S i)%nat with 0%nat by lia. replace (length - i)%nat with 0%nat in Hz by lia.
        by apply list.Forall_cons in Hz as [_ Hz]. }
    exists ((carry + mul * it) mod base :: rb'), c, j. split; [done|]. cbn [List.length].
    split; [by rewrite Hl|]. split; [apply list.Forall_cons; split; [apply Z.mod_pos_bound; lia|done]|]. split; [done|]. split; [lia|]. split.
    + cbn [from_digits]. rewrite Nat2Z.inj_succ, Z.pow_succ_r by lia.
      pose proof (Z.div_mod (carry + mul * it) base ltac:(lia)). nia.
    + by replace (j - i)%nat with (S (j - S i)) by lia.
  - apply orb_false_iff in E as [E1 E2]. apply negb_false_iff, Z.eqb_eq in E1 as ->. apply Nat.ltb_ge in E2.
    replace (length - i)%nat with 0%nat in Hz by lia. rewrite drop_0 in Hz.
    exists (it :: rb), 0, i. split; [done|]. split; [done|]. split; [by apply list.Forall_cons|]. split; [done|]. split; [lia|].
    rewrite Nat.sub_diag. split; [|by rewrite drop_0].
    assert (from_digits base (it :: rb) = 0) as ->; [|lia].
    rewrite (all_zeros _ Hz). apply from_digits_zeros.
Qed.

Lemma rev_replicate {A} n (x : A) : rev (replicate n x) = replicate n x.
Proof. induction n as [|n IH]; [done|]. cbn [replicate rev]. by rewrite IH, <- replicate_cons_app. Qed.
(** A vector that holds [x] in its last [len] places. *)
Record vec_ok (base : Z) (b : list Z) (len : nat) (x : Z) : Prop := {
  vec_digits : digits_ok base b;
  vec_len : (len ≤ List.length b)%nat;
  vec_zeros : Forall (λ d, d = 0) (drop len (rev b));
  vec_value : from_digits base (rev b) = x }.
Lemma vec_zero base n : 1 < base → vec_ok base (replicate n 0) 0 0.
Proof.
  intros Hb. split.
  - apply Forall_replicate. lia.
  - lia.
  - rewrite rev_replicate. by apply Forall_replicate.
  - rewrite rev_replicate. apply from_digits_zeros.
Qed.
Lemma mul_add_spec base mul carry b len x : 1 < base → 0 ≤ mul → 0 ≤ carry → vec_ok base b len x →
  carry + mul * x < base ^ Z.of_nat (List.length b) →
  ∃ b' len', mul_add base mul carry b len = Some (b', len') ∧ List.length b' = List.length b ∧ vec_ok base b' len' (carry + mul * x).
Proof.
  intros Hb Hm Hc [Hd Hl Hz Hv] Hx. unfold mul_add.
  destruct (carry_loop_spec base mul len (rev b) 0 carry Hb Hm) as (rb' & c & j & -> & Hl' & Hd' & Hc' & Hj & Hv' & Hz').
  { by apply Forall_rev. } { done. } { by rewrite Nat.sub_0_r. }
  rewrite Hv in Hv'. rewrite length_rev in *. pose proof (from_digits_bound base Hb rb' Hd') as Hbound.
  assert (0 < base ^ Z.of_nat (List.length b)) by (apply Z.pow_pos_nonneg; lia).
  assert (c = 0) as -> by nia. cbn [Z.eqb]. rewrite Nat.sub_0_r in Hz'.
  exists (rev rb'), j. split; [done|]. rewrite length_rev. split; [done|]. split.
  - by apply Forall_rev.
  - rewrite length_rev. lia.
  - by rewrite rev_involutive.
  - rewrite rev_involutive. lia.
Qed.

(** ** Proofs: big-endian digits without leading zeros *)
Definition minimal (base : Z) (l : list Z) (x : Z) : Prop :=
  digits_ok base l ∧ head l ≠ Some 0 ∧ from_digits base (rev l) = x.
Lemma minimal_bounds base d l x : 1 < base → minimal base (d :: l) x → base ^ Z.of_nat (length l) ≤ x < base ^ Z.of_nat (S (length l)).
Proof.
  intros Hb (Hd & Hh & Hv). split.
  - apply list.Forall_cons in Hd as [Hd0 Hd]. cbn [rev] in Hv. rewrite from_digits_app, length_rev in Hv. cbn [from_digits] in Hv.
    assert (Hr : digits_ok base (rev l)) by (by apply Forall_rev). pose proof (from_digits_bound base Hb _ Hr).
    assert (d ≠ 0) by (intros ->; by apply Hh). assert (0 < base ^ Z.of_nat (length l)) by (apply Z.pow_pos_nonneg; lia). nia.
  - assert (Hr : digits_ok base (rev (d :: l))) by (by apply Forall_rev). pose proof (from_digits_bound base Hb _ Hr) as H.
    rewrite Hv, length_rev in H. cbn [length] in H. lia.
Qed.
Lemma minimal_nil base l : 1 < base → minimal base l 0 → l = [].
Proof.
  intros Hb Hm. destruct l as [|d l]; [done|]. pose proof (minimal_bounds _ _ _ _ Hb Hm).
  assert (0 < base ^ Z.of_nat (length l)) by (apply Z.pow_pos_nonneg; lia). lia.
Qed.
Lemma minimal_unique base l1 l2 x : 1 < base → minimal base l1 x → minimal base l2 x → l1 = l2.
Proof.
  intros Hb H1 H2.
  assert (Hl : length l1 = length l2).
  { destruct l1 as [|d1 l1], l2 as [|d2 l2]; try done.
    - destruct H1 as (_ & _ & <-). by rewrite (minimal_nil _ _ Hb H2).
    - destruct H2 as (_ & _ & <-). by rewrite (minimal_nil _ _ Hb H1).
    - pose proof (minimal_bounds _ _ _ _ Hb H1) as B1. pose proof (minimal_bounds _ _ _ _ Hb H2) as B2. cbn [length]. f_equal.
      assert (L1 : base ^ Z.of_nat (length l1) < base ^ Z.of_nat (S (length l2))) by lia.
      assert (L2 : base ^ Z.of_nat (length l2) < base ^ Z.of_nat (S (length l1))) by lia.
      apply Z.pow_lt_mono_r_iff in L1, L2; lia. }
  destruct H1 as (D1 & _ & V1), H2 as (D2 & _ & V2).
  rewrite <- (rev_involutive l1), <- (rev_involutive l2). f_equal.
  apply (from_digits_inj base); [lia|by apply Forall_rev|by apply Forall_rev|by rewrite !length_rev|congruence].
Qed.
Lemma skip_zeros_minimal base b x : digits_ok base b → from_digits base (rev b) = x →
  minimal base (skip_while (λ c, c =? 0) b) x ∧ ∃ k, b = replicate k 0 ++ skip_while (λ c, c =? 0) b.
Proof.
  intros Hd. revert x. induction b as [|d b IH]; intros x Hv; cbn [skip_while].
  - split; [|by exists 0%nat]. split; [done|]. split; [done|]. by rewrite <- Hv.
  - apply list.Forall_cons in Hd as [Hd0 Hd]. destruct (Z.eqb_spec d 0) as [->|Hn].
    + cbn [rev] in Hv. rewrite from_digits_app in Hv. cbn [from_digits] in Hv. rewrite Z.mul_0_r, Z.add_0_r, Z.mul_0_r, Z.add_0_r in Hv.
      destruct (IH Hd x Hv) as [H1 [k Hk]]. split; [done|]. exists (S k). cbn [replicate app]. by rewrite <- Hk.
    + split; [|by exists 0%nat]. split; [by apply list.Forall_cons|]. split; [cbn; congruence|done].
Qed.
Lemma skip_while_zeros k l : skip_while (λ c, c =? 0) (replicate k 0 ++ l) = skip_while (λ c, c =? 0) l.
Proof. induction k as [|k IH]; [done|]. exact IH. Qed.
Lemma vec_minimal base b len x : vec_ok base b len x →
  minimal base (skip_while (λ c, c =? 0) (drop (length b - len) b)) x.
Proof.
  intros [Hd Hl Hz Hv].
  assert (E : b = replicate (length b - len) 0 ++ drop (length b - len) b).
  { rewrite <- (take_drop (length b - len) b) at 1. f_equal.
    assert (Ht : Forall (λ d, d = 0) (take (length b - len) b)).
    { rewrite <- (rev_involutive b) at 2. rewrite List.firstn_rev, length_rev.
      replace (length b - (length b - len))%nat with len by lia. by apply Forall_rev. }
    pose proof (all_zeros _ Ht) as H. by rewrite length_take_le in H by lia. }
  rewrite E in Hd at 1. rewrite <- (skip_while_zeros (length b - len)), <- E. apply skip_zeros_minimal; [|done].
  by rewrite E.
Qed.

(** ** Proofs: the sizes of the vectors *)
Lemma encode_size n : 256 ^ Z.of_nat n < 58 ^ (Z.of_nat n * 138 / 100 + 1).
Proof.
  set (m := Z.of_nat n). assert (Hm : 0 ≤ m) by lia. set (q := m * 138 / 100).
  assert (Hq : 138 * m < 100 * (q + 1)) by (unfold q; zlin). assert (0 ≤ q) by (unfold q; zlin).
  apply (Z.pow_lt_mono_l_iff _ _ 100); [apply Z.pow_nonneg; lia..|lia|].
  rewrite <- !Z.pow_mul_r by lia. apply Z.le_lt_trans with (58 ^ (138 * m)).
  - rewrite (Z.mul_comm m), !Z.pow_mul_r by lia. apply Z.pow_le_mono_l. split; [lia|by vm_compute].
  - apply Z.pow_lt_mono_r; lia.
Qed.
Lemma decode_size n : 58 ^ Z.of_nat n < 256 ^ (Z.of_nat n * 733 / 1000 + 1).
Proof.
  set (m := Z.of_nat n). assert (Hm : 0 ≤ m) by lia. set (q := m * 733 / 1000).
  assert (Hq : 733 * m < 1000 * (q + 1)) by (unfold q; zlin). assert (0 ≤ q) by (unfold q; zlin).
  apply (Z.pow_lt_mono_l_iff _ _ 1000); [apply Z.pow_nonneg; lia..|lia|].
  rewrite <- !Z.pow_mul_r by lia. apply Z.le_lt_trans with (256 ^ (733 * m)).
  - rewrite (Z.mul_comm m), !Z.pow_mul_r by lia. apply Z.pow_le_mono_l. split; [lia|by vm_compute].
  - apply Z.pow_lt_mono_r; lia.
Qed.

(** ** Proofs: encoding *)
Lemma encode_loop_spec p b len x : bytes_ok p → 0 ≤ x → vec_ok 58 b len x →
  x * 256 ^ Z.of_nat (length p) + from_digits 256 (rev p) < 58 ^ Z.of_nat (length b) →
  ∃ b' len', encode_loop p b len = Some (b', len') ∧ length b' = length b ∧
    vec_ok 58 b' len' (x * 256 ^ Z.of_nat (length p) + from_digits 256 (rev p)).
Proof.
  revert b len x. induction p as [|c p IH]; intros b len x Hp Hx Hv Hb; cbn [encode_loop].
  - exists b, len. split; [done|]. split; [done|]. cbn [length rev from_digits]. by rewrite Z.pow_0_r, Z.mul_1_r, Z.add_0_r.
  - apply bytes_ok_cons in Hp as [Hc Hp]. unfold is_u8 in Hc.
    assert (E : x * 256 ^ Z.of_nat (length (c :: p)) + from_digits 256 (rev (c :: p))
                = (c + 256 * x) * 256 ^ Z.of_nat (length p) + from_digits 256 (rev p)).
    { cbn [length rev]. rewrite from_digits_app, length_rev, Nat2Z.inj_succ, Z.pow_succ_r by lia. cbn [from_digits]. lia. }
    rewrite E in *. assert (Hr : bytes_ok (rev p)) by (by apply Forall_rev). pose proof (from_digits_bound 256 ltac:(lia) _ Hr).
    assert (0 < 256 ^ Z.of_nat (length p)) by (apply Z.pow_pos_nonneg; lia).
    destruct (mul_add_spec 58 256 c b len x ltac:(lia) ltac:(lia) ltac:(lia) Hv) as (b1 & len1 & -> & Hl & Hv1); [nia|].
    cbn [mbind option_bind]. rewrite <- Hl in Hb |- *. apply IH; [done|lia|done|done].
Qed.
(** The bytes split into the leading zeros and the rest. *)
Lemma leading_zeros l : l = replicate (length l - length (skip_while (λ c, c =? 0) l)) 0 ++ skip_while (λ c, c =? 0) l.
Proof.
  assert (H : ∃ k, l = replicate k 0 ++ skip_while (λ c, c =? 0) l).
  { induction l as [|d l [k IH]]; cbn [skip_while]; [by exists 0%nat|]. destruct (Z.eqb_spec d 0) as [->|].
    - exists (S k). cbn. by rewrite <- IH. - by exists 0%nat. }
  destruct H as [k H]. revert H. generalize (skip_while (λ c, c =? 0) l). intros s ->.
  rewrite length_app, length_replicate. by rewrite Nat.add_sub.
Qed.
Definition char58 (d : Z) : Z := char_at pszBase58 (Z.to_nat d).
Definition value256 (v : bytes) : Z := from_digits 256 (rev v).
Lemma EncodeBase58_spec v : bytes_ok v → Z.of_nat (length v) < 2 ^ 30 →
  ∃ k p ds, v = replicate k 0 ++ p ∧ minimal 256 p (value256 p) ∧ minimal 58 ds (value256 p) ∧
    EncodeBase58 v = Some (replicate k 49 ++ map char58 ds).
Proof.
  intros Hv Hl. unfold EncodeBase58. cbv zeta. pose proof (leading_zeros v) as Ev.
  destruct (skip_zeros_minimal 256 v (value256 v) Hv eq_refl) as [Hmin _]. revert Ev Hmin.
  set (p := skip_while (λ c, c =? 0) v). set (k := (length v - length p)%nat). intros Ev Hmin. clearbody p k.
  assert (Hval : value256 v = value256 p) by (rewrite Ev; unfold value256; rewrite rev_app_distr, from_digits_app, rev_replicate, from_digits_zeros; lia).
  assert (Hlen : (length p ≤ length v)%nat) by (rewrite Ev, length_app; lia).
  assert (Hp : bytes_ok p) by (rewrite Ev in Hv; by apply bytes_ok_app in Hv as [_ Hv]).
  set (size := Z.of_nat (length p) * 138 / 100 + 1). assert (Hs : 0 ≤ size < 2 ^ 31) by (unfold size; zlin).
  rewrite i32_small by lia. replace (size <? 0) with false by lia.
  assert (Hpr : bytes_ok (rev p)) by (by apply Forall_rev). pose proof (from_digits_bound 256 ltac:(lia) _ Hpr) as Hb.
  rewrite length_rev in Hb. pose proof (encode_size (length p)) as Hsz. fold size in Hsz.
  destruct (encode_loop_spec p (replicate (Z.to_nat size) 0) 0 0 Hp ltac:(lia) (vec_zero 58 _ ltac:(lia))) as (b & len & -> & Hbl & Hvec).
  { rewrite length_replicate, Z2Nat.id by lia. lia. }
  cbn [mbind option_bind]. rewrite Z.mul_0_l, Z.add_0_l in Hvec.
  exists k, p, (skip_while (λ c, c =? 0) (drop (length b - len) b)). split; [done|]. rewrite Hval in Hmin. split; [done|]. split; [by apply vec_minimal|done].
Qed.

(** ** Proofs: decoding *)
Lemma strchr_char58 d : 0 ≤ d < 58 → strchr pszBase58 (char58 d) = Some d ∧ isspace (char58 d) = false ∧ char58 d ≠ 0 ∧ (char58 d = 49 ↔ d = 0).
Proof.
  intros Hd. pose proof (forall_below 58 (λ d, bool_decide (strchr pszBase58 (char58 d) = Some d) && negb (isspace (char58 d)) && negb (char58 d =? 0)
    && eqb (char58 d =? 49) (d =? 0)) d eq_refl Hd) as H. cbv beta in H.
  rewrite !andb_true_iff, !negb_true_iff, bool_decide_eq_true in H. destruct H as (((H1 & H2) & H3) & H4).
  apply eqb_prop in H4. split; [done|]. split; [done|]. split; lia.
Qed.
Lemma strchr_lookup l c i : strchr l c = Some i → 0 ≤ i < Z.of_nat (length l) ∧ nth (Z.to_nat i) l 0 = c.
Proof.
  revert i. induction l as [|ch l IH]; intros i; cbn [strchr]; [done|]. destruct (Z.eqb_spec ch c) as [->|].
  - intros [= <-]. cbn [length]. split; [lia|done].
  - destruct (strchr l c) as [j|]; [|done]. cbn [mbind option_bind]. intros [= <-]. destruct (IH j eq_refl) as [H1 H2]. cbn [length]. split; [lia|].
    replace (Z.to_nat (j + 1)) with (S (Z.to_nat j)) by lia. exact H2.
Qed.
Lemma strchr_inv c d : strchr pszBase58 c = Some d → 0 ≤ d < 58 ∧ c = char58 d.
Proof. intros H. by apply strchr_lookup in H as [H1 <-]. Qed.

(** The characters before the first space, as digits. *)
Fixpoint split_digits (psz : bytes) : option (list Z * bytes) :=
  match psz with
  | c :: psz' =>
      if isspace c then Some ([], psz)
      else d ← strchr pszBase58 c; '(ds, rest) ← split_digits psz'; Some (d :: ds, rest)
  | [] => Some ([], [])
  end.
Definition starts_with_space (rest : bytes) : Prop := match rest with c :: _ => isspace c = true | [] => True end.
Lemma split_digits_inv psz ds rest : split_digits psz = Some (ds, rest) →
  psz = map char58 ds ++ rest ∧ digits_ok 58 ds ∧ starts_with_space rest.
Proof.
  revert ds. induction psz as [|c psz IH]; intros ds; cbn [split_digits].
  { intros [= <- <-]. split; [done|]. split; [constructor|done]. }
  destruct (isspace c) eqn:E; [intros [= <- <-]; split; [done|]; split; [constructor|done]|].
  destruct (strchr pszBase58 c) as [d|] eqn:Ed; [|done]. cbn [mbind option_bind].
  destruct (split_digits psz) as [[ds' r]|]; [|done]. cbn [mbind option_bind]. intros [= <- <-].
  destruct (IH ds' eq_refl) as (-> & Hd & Hr). apply strchr_inv in Ed as [Hd0 ->]. split; [done|]. split; [by apply list.Forall_cons|done].
Qed.
Lemma split_digits_spec ds rest : digits_ok 58 ds → starts_with_space rest → split_digits (map char58 ds ++ rest) = Some (ds, rest).
Proof.
  intros Hd Hr. induction Hd as [|d ds Hd _ IH]; cbn [map app split_digits].
  - destruct rest as [|c r]; [done|]. cbn in Hr. cbn [split_digits]. by rewrite Hr.
  - destruct (strchr_char58 d Hd) as (-> & -> & _). by rewrite IH.
Qed.
Lemma decode_loop_spec psz b len x : 0 ≤ x → vec_ok 256 b len x → (x + 1) * 58 ^ Z.of_nat (length psz) ≤ 256 ^ Z.of_nat (length b) →
  match split_digits psz with
  | None => decode_loop psz b len = Some None
  | Some (ds, rest) => ∃ b' len', decode_loop psz b len = Some (Some (rest, b', len')) ∧ length b' = length b ∧
      vec_ok 256 b' len' (x * 58 ^ Z.of_nat (length ds) + from_digits 58 (rev ds))
  end.
Proof.
  revert b len x. induction psz as [|c psz IH]; intros b len x Hx Hv Hb; cbn [split_digits decode_loop].
  { exists b, len. split; [done|]. split; [done|]. cbn [length rev from_digits]. by rewrite Z.pow_0_r, Z.mul_1_r, Z.add_0_r. }
  destruct (isspace c). { exists b, len. split; [done|]. split; [done|]. cbn [length rev from_digits]. by rewrite Z.pow_0_r, Z.mul_1_r, Z.add_0_r. }
  destruct (strchr pszBase58 c) as [d|] eqn:Ed; [|done]. cbn [mbind option_bind]. apply strchr_inv in Ed as [Hd _].
  cbn [length] in Hb. rewrite Nat2Z.inj_succ, Z.pow_succ_r in Hb by lia.
  assert (0 < 58 ^ Z.of_nat (length psz)) by (apply Z.pow_pos_nonneg; lia).
  destruct (mul_add_spec 256 58 d b len x ltac:(lia) ltac:(lia) ltac:(lia) Hv) as (b1 & len1 & -> & Hl & Hv1); [nia|].
  cbn [mbind option_bind]. rewrite <- Hl in Hb |- *.
  assert (Hb1 : (d + 58 * x + 1) * 58 ^ Z.of_nat (length psz) ≤ 256 ^ Z.of_nat (length b1)).
  { apply Z.le_trans with ((x + 1) * (58 * 58 ^ Z.of_nat (length psz))); [|exact Hb]. rewrite Z.mul_assoc. apply Z.mul_le_mono_nonneg_r; lia. }
  specialize (IH b1 len1 (d + 58 * x) ltac:(lia) Hv1 Hb1). destruct (split_digits psz) as [[ds rest]|]; [|done].
  destruct IH as (b2 & len2 & E & Hl2 & Hv2). cbn [mbind option_bind]. exists b2, len2. split; [done|]. split; [done|].
  cbn [length rev]. rewrite from_digits_app, length_rev, Nat2Z.inj_succ, Z.pow_succ_r by lia. cbn [from_digits].
  replace (x * (58 * 58 ^ Z.of_nat (length ds)) + (from_digits 58 (rev ds) + 58 ^ Z.of_nat (length ds) * (d + 58 * 0)))
    with ((d + 58 * x) * 58 ^ Z.of_nat (length ds) + from_digits 58 (rev ds)) by lia. done.
Qed.
(** The text read: its leading ones, its digits and what follows. *)
Definition body (str : bytes) : bytes := skip_while (λ c, c =? 49) (skip_while isspace (c_str str)).
Definition ones (str : bytes) : nat := (length (skip_while isspace (c_str str)) - length (body str))%nat.
Lemma length_skip_while p l : (length (skip_while p l) ≤ length l)%nat.
Proof. induction l as [|c l IH]; cbn [skip_while length]; [lia|]. destruct (p c); cbn [length]; lia. Qed.
Lemma length_take_while p l : (length (take_while p l) ≤ length l)%nat.
Proof. induction l as [|c l IH]; cbn [take_while length]; [lia|]. destruct (p c); cbn [length]; lia. Qed.
Lemma DecodeBase58_spec str : Z.of_nat (length str) < 2 ^ 30 →
  match split_digits (body str) with
  | None => DecodeBase58 str = Some None
  | Some (ds, rest) => ∃ v, minimal 256 v (from_digits 58 (rev ds)) ∧
      DecodeBase58 str = Some (if (length (skip_while isspace rest) =? 0)%nat then Some (replicate (ones str) 0 ++ v) else None)
  end.
Proof.
  intros Hl. unfold DecodeBase58. cbv zeta. change (skip_while (λ c, c =? 49) (skip_while isspace (c_str str))) with (body str).
  assert (Hlen : (length (body str) ≤ length str)%nat).
  { unfold body, c_str. etrans; [apply length_skip_while|]. etrans; [apply length_skip_while|]. apply length_take_while. }
  set (size := Z.of_nat (length (body str)) * 733 / 1000 + 1). assert (Hs : 0 ≤ size < 2 ^ 31) by (unfold size; zlin).
  rewrite i32_small by lia. replace (size <? 0) with false by lia.
  pose proof (decode_size (length (body str))) as Hsz. fold size in Hsz.
  pose proof (decode_loop_spec (body str) (replicate (Z.to_nat size) 0) 0 0 ltac:(lia) (vec_zero 256 _ ltac:(lia))) as H.
  rewrite length_replicate, Z2Nat.id in H by lia. specialize (H ltac:(lia)).
  destruct (split_digits (body str)) as [[ds rest]|]; [|by rewrite H].
  destruct H as (b & len & -> & Hbl & Hv). rewrite Z.mul_0_l, Z.add_0_l in Hv. cbn [mbind option_bind].
  eexists. split; [exact (vec_minimal _ _ _ _ Hv)|]. by destruct (skip_while isspace rest).
Qed.

(** ** Proofs: both directions *)
Abbreviation spaces := (Forall (λ c, isspace c = true)).
Lemma skip_while_app p l1 l2 : Forall (λ c, p c = true) l1 → skip_while p (l1 ++ l2) = skip_while p l2.
Proof. induction 1 as [|c l Hc _ IH]; [done|]. cbn [app skip_while]. by rewrite Hc. Qed.
Lemma skip_while_stop p l : (∀ c, head l = Some c → p c = false) → skip_while p l = l.
Proof. destruct l as [|c l]; [done|]. intros H. cbn [skip_while]. by rewrite (H c eq_refl). Qed.
Lemma skip_while_nil p l : skip_while p l = [] → Forall (λ c, p c = true) l.
Proof. induction l as [|c l IH]; cbn [skip_while]; [constructor|]. destruct (p c) eqn:E; [|done]. intros H. apply list.Forall_cons. split; [done|by apply IH]. Qed.
Lemma skip_while_split p l : ∃ l1, Forall (λ c, p c = true) l1 ∧ l = l1 ++ skip_while p l ∧ ∀ c, head (skip_while p l) = Some c → p c = false.
Proof.
  induction l as [|c l (l1 & H1 & H2 & H3)]; cbn [skip_while]; [by exists []|]. destruct (p c) eqn:E.
  - exists (c :: l1). split; [by apply list.Forall_cons|]. split; [by rewrite H2 at 1|done].
  - exists []. split; [constructor|]. split; [done|]. intros c' [= <-]. exact E.
Qed.
Lemma forty_nines l : Forall (λ c, (c =? 49) = true) l → l = replicate (length l) 49.
Proof. induction 1 as [|c l Hc _ IH]; [done|]. cbn [length replicate]. apply Z.eqb_eq in Hc as ->. by rewrite <- IH. Qed.
Lemma zeros_unique k1 k2 p1 p2 : head p1 ≠ Some 0 → head p2 ≠ Some 0 → replicate k1 0 ++ p1 = replicate k2 0 ++ p2 → k1 = k2 ∧ p1 = p2.
Proof.
  intros H1 H2. revert k2. induction k1 as [|k1 IH]; intros [|k2] E; cbn [replicate app] in E; [done|..].
  - by rewrite E in H1. - by rewrite <- E in H2. - injection E as E. by destruct (IH k2 E) as [-> ->].
Qed.
Lemma char58_nonzero ds : digits_ok 58 ds → Forall (λ c, negb (c =? 0) = true) (map char58 ds).
Proof. induction 1 as [|d ds Hd _ IH]; cbn [map]; constructor; [|done]. destruct (strchr_char58 d Hd) as (_ & _ & H & _). lia. Qed.
Lemma spaces_nonzero l : spaces l → Forall (λ c, negb (c =? 0) = true) l.
Proof. intros H. eapply List.Forall_impl; [|exact H]. intros c Hc. cbv beta in *. unfold isspace in Hc. lia. Qed.
Lemma encoded_body before k ds after : spaces before → spaces after → digits_ok 58 ds → head ds ≠ Some 0 →
  let str := before ++ (replicate k 49 ++ map char58 ds) ++ after in
  c_str str = str ∧ ones str = k ∧ ∃ rest, spaces rest ∧ body str = map char58 ds ++ rest.
Proof.
  intros Hb Ha Hd Hh str.
  assert (H49 : Forall (λ c, (c =? 49) = true) (replicate k 49)) by (by apply Forall_replicate).
  assert (Hc : c_str str = str).
  { apply take_while_all. unfold str. repeat (apply Forall_app; split); auto using spaces_nonzero, char58_nonzero.
    eapply List.Forall_impl; [|exact H49]. intros c. cbv beta. lia. }
  assert (Hstop : ∀ c, head (map char58 ds ++ after) = Some c → (c =? 49) = false).
  { intros c. destruct ds as [|d ds]; cbn [map app].
    - destruct Ha as [|c' after Hc' _]; [done|]. intros [= <-]. unfold isspace in Hc'. lia.
    - intros [= <-]. apply list.Forall_cons in Hd as [Hd _]. destruct (strchr_char58 d Hd) as (_ & _ & _ & H).
      apply Z.eqb_neq. intros E. apply H in E. by subst. }
  assert (Hsk : skip_while isspace str = (replicate k 49 ++ map char58 ds) ++ after ∨ k = 0%nat ∧ ds = [] ∧ skip_while isspace str = []).
  { unfold str. rewrite skip_while_app by done. destruct k as [|k].
    - destruct ds as [|d ds].
      + right. split; [done|]. split; [done|]. cbn [replicate map app]. rewrite <- (app_nil_r after). by rewrite skip_while_app.
      + left. apply skip_while_stop. intros c [= <-]. apply list.Forall_cons in Hd as [Hd _]. by destruct (strchr_char58 d Hd) as (_ & H & _).
    - left. apply skip_while_stop. by intros c [= <-]. }
  split; [done|]. unfold ones, body. rewrite Hc. destruct Hsk as [->|(-> & -> & ->)].
  - rewrite <- app_assoc, (skip_while_app _ _ _ H49), skip_while_stop by done.
    rewrite length_app, length_replicate. split; [lia|by exists after].
  - split; [done|]. by exists [].
Qed.

Lemma spaces_start rest : spaces rest → starts_with_space rest.
Proof. by destruct 1. Qed.
Lemma digits_length p ds x : minimal 256 p x → minimal 58 ds x → (length ds ≤ 2 * length p)%nat.
Proof.
  intros H1 H2. destruct ds as [|d ds]; [cbn; lia|]. pose proof (minimal_bounds 58 _ _ _ ltac:(lia) H2) as B.
  destruct H1 as (Hd & _ & Hv). assert (Hr : bytes_ok (rev p)) by (by apply Forall_rev).
  pose proof (from_digits_bound 256 ltac:(lia) _ Hr) as B2. rewrite Hv, length_rev in B2. cbn [length].
  assert (L : 58 ^ Z.of_nat (length ds) < 58 ^ (2 * Z.of_nat (length p))).
  { rewrite Z.pow_mul_r by lia. apply Z.le_lt_trans with x; [lia|]. apply Z.lt_le_trans with (256 ^ Z.of_nat (length p)); [lia|].
    apply Z.pow_le_mono_l. change (58 ^ 2) with 3364. lia. }
  apply Z.pow_lt_mono_r_iff in L; lia.
Qed.
Lemma decode_encode v : bytes_ok v → Z.of_nat (length v) < 2 ^ 29 →
  ∃ e, EncodeBase58 v = Some e ∧ (length e ≤ 2 * length v)%nat ∧
    ∀ before after, spaces before → spaces after → Z.of_nat (length (before ++ e ++ after)) < 2 ^ 30 → DecodeBase58 (before ++ e ++ after) = Some (Some v).
Proof.
  intros Hv Hl. destruct (EncodeBase58_spec v Hv ltac:(lia)) as (k & p & ds & Ev & Hp & Hds & E). eexists. split; [exact E|]. split.
  { pose proof (digits_length _ _ _ Hp Hds). rewrite Ev, !length_app, !length_replicate, length_map. lia. }
  intros before after Hb Ha Hlen. pose proof (encoded_body before k ds after Hb Ha) as H. destruct Hds as (Hd & Hh & Hval).
  destruct (H Hd Hh) as (_ & Hk & rest & Hr & Hbody). pose proof (DecodeBase58_spec _ Hlen) as HD.
  rewrite Hbody, (split_digits_spec ds rest Hd (spaces_start _ Hr)), Hk in HD. destruct HD as (v' & Hm & ->).
  rewrite <- (app_nil_r rest), (skip_while_app _ _ _ Hr). cbn [length skip_while Nat.eqb]. rewrite Ev. do 3 f_equal.
  rewrite Hval in Hm. exact (minimal_unique 256 _ _ _ ltac:(lia) Hm Hp).
Qed.
Lemma minimal_length ds p x : minimal 58 ds x → minimal 256 p x → (length p ≤ length ds)%nat.
Proof.
  intros H1 H2. destruct p as [|b p]; [cbn; lia|]. pose proof (minimal_bounds 256 _ _ _ ltac:(lia) H2) as B.
  destruct H1 as (Hd & _ & Hv). assert (Hr : digits_ok 58 (rev ds)) by (by apply Forall_rev).
  pose proof (from_digits_bound 58 ltac:(lia) _ Hr) as B2. rewrite Hv, length_rev in B2.
  destruct (Nat.le_gt_cases (length (b :: p)) (length ds)) as [|Hgt]; [done|exfalso]. cbn [length] in Hgt.
  assert (58 ^ Z.of_nat (length ds) ≤ 256 ^ Z.of_nat (length p)).
  { etrans; [apply (Z.pow_le_mono_l 58 256); lia|]. apply Z.pow_le_mono_r; lia. }
  lia.
Qed.
Lemma encode_decode str : Z.of_nat (length str) < 2 ^ 29 → ∃ r, DecodeBase58 str = Some r ∧ ∀ v, r = Some v →
  bytes_ok v ∧ Z.of_nat (length v) ≤ Z.of_nat (length str) ∧
  ∃ before e after, spaces before ∧ spaces after ∧ EncodeBase58 v = Some e ∧ c_str str = before ++ e ++ after.
Proof.
  intros Hl. pose proof (DecodeBase58_spec str ltac:(lia)) as HD. destruct (split_digits (body str)) as [[ds rest]|] eqn:Es; [|by eexists].
  destruct HD as (p & Hm & ->). eexists. split; [done|]. intros v. destruct (length (skip_while isspace rest) =? 0)%nat eqn:Er; [|done]. intros [= <-].
  apply Nat.eqb_eq, nil_length_inv in Er. apply skip_while_nil in Er.
  apply split_digits_inv in Es as (Eb & Hd & _).
  destruct (skip_while_split isspace (c_str str)) as (before & Hb & Ec & _).
  destruct (skip_while_split (λ c, c =? 49) (skip_while isspace (c_str str))) as (l49 & H49 & E49 & Hh). fold (body str) in E49, Hh.
  assert (Hk : ones str = length l49) by (unfold ones; rewrite E49, length_app; lia).
  apply forty_nines in H49. rewrite Hk. set (k := length l49) in *.
  assert (Hlen : (k + length ds ≤ length str)%nat).
  { pose proof (length_take_while (λ c, negb (c =? 0)) str) as Ht. fold (c_str str) in Ht.
    rewrite Ec, E49, Eb, !length_app, length_map in Ht. fold k in Ht. lia. }
  assert (Hmd : minimal 58 ds (from_digits 58 (rev ds))).
  { split; [done|]. split; [|done]. intros E. destruct ds as [|d ds]; [done|]. injection E as ->. specialize (Hh (char58 0)). rewrite Eb in Hh.
    specialize (Hh eq_refl). done. }
  pose proof (minimal_length _ _ _ Hmd Hm) as Hpl.
  assert (Hok : bytes_ok (replicate k 0 ++ p)) by (apply bytes_ok_app; split; [apply Forall_replicate; lia|by destruct Hm]).
  split; [done|]. rewrite length_app, length_replicate. split; [lia|].
  destruct (EncodeBase58_spec (replicate k 0 ++ p) Hok) as (k' & p' & ds' & Ev & Hp' & Hds' & E).
  { rewrite length_app, length_replicate. lia. }
  apply zeros_unique in Ev as [<- <-]; [|by destruct Hm as (_ & ? & _)|by destruct Hp' as (_ & ? & _)].
  assert (value256 p = from_digits 58 (rev ds)) as Hval by (by destruct Hm as (_ & _ & H)).
  rewrite Hval in Hds'. pose proof (minimal_unique 58 _ _ _ ltac:(lia) Hds' Hmd) as ->.
  exists before, (replicate k 49 ++ map char58 ds), rest. split; [done|]. split; [done|]. split; [done|].
  rewrite Ec at 1. rewrite E49 at 1. rewrite Eb, H49. by rewrite <- app_assoc.
Qed.

(** ** Proofs: the checksum *)
Lemma checksum_spec v : length (checksum v) = 4%nat ∧ bytes_ok (checksum v).
Proof.
  unfold checksum, Hashes.Hash1, Hashes.CHash256_Finalize.
  split; [|apply Forall_take, (proj1 (elem_sha256 MAX_SCRIPT_ELEMENT_SIZE ltac:(unfold MAX_SCRIPT_ELEMENT_SIZE; lia) _))]. rewrite length_take. unfold Sha256.Finalize. cbv zeta.
  rewrite !length_app, !length_WriteBE32. lia.
Qed.
Lemma check_decode_encode v : bytes_ok v → Z.of_nat (length v) < 2 ^ 28 →
  ∃ e, EncodeBase58Check v = Some e ∧ (length e ≤ 2 * length v + 8)%nat ∧
    ∀ before after, spaces before → spaces after → Z.of_nat (length (before ++ e ++ after)) < 2 ^ 30 → DecodeBase58Check (before ++ e ++ after) = Some (Some v).
Proof.
  intros Hv Hl. destruct (checksum_spec v) as [Hc Hcok].
  destruct (decode_encode (v ++ checksum v)) as (e & E & Hle & HD); [by apply bytes_ok_app|rewrite length_app, Hc; lia|].
  exists e. split; [exact E|]. split; [rewrite length_app, Hc in Hle; lia|]. intros before after Hb Ha Hlen. unfold DecodeBase58Check. rewrite (HD _ _ Hb Ha Hlen). cbn [mbind option_bind].
  rewrite length_app, Hc. destruct (Nat.ltb_spec (length v + 4) 4); [lia|]. rewrite Nat.add_sub. cbv zeta.
  rewrite take_app_length, drop_app_length. by rewrite bool_decide_true.
Qed.
Lemma check_encode_decode str : Z.of_nat (length str) < 2 ^ 29 → ∃ r, DecodeBase58Check str = Some r ∧ ∀ v, r = Some v →
  bytes_ok v ∧ Z.of_nat (length v) < 2 ^ 29 ∧
  ∃ before e after, spaces before ∧ spaces after ∧ EncodeBase58Check v = Some e ∧ c_str str = before ++ e ++ after.
Proof.
  intros Hl. unfold DecodeBase58Check. destruct (encode_decode str Hl) as (r & -> & H). cbn [mbind option_bind].
  destruct r as [v|]; [|by eexists]. destruct (H v eq_refl) as (Hv & Hlv & Henc).
  destruct (Nat.ltb_spec (length v) 4); [by eexists|]. cbv zeta.
  destruct (bool_decide _) eqn:E; [|by eexists]. eexists. split; [done|]. intros w [= <-]. apply bool_decide_eq_true in E.
  split; [by apply Forall_take|]. split; [rewrite length_take; lia|]. unfold EncodeBase58Check. by rewrite E, take_drop.
Qed.

(** *** Order *)
Lemma vector_trichotomy a b : vector_lt a b = false → vector_lt b a = false → a = b.
Proof.
  revert b. induction a as [|x a IH]; intros [|y b]; cbn [vector_lt]; try done.
  intros H1 H2. apply orb_false_iff in H1 as [H1 H1'], H2 as [H2 H2']. rewrite H1 in H2'. rewrite H2 in H1'. cbn [negb andb] in *.
  f_equal; [lia|by apply IH].
Qed.
Lemma vector_irreflexive a : vector_lt a a = false.
Proof. induction a as [|x a IH]; [done|]. cbn [vector_lt]. by rewrite Z.ltb_irrefl, IH. Qed.
Lemma Base58_eq_spec a b : Base58_eq a b = true ↔ a = b.
Proof.
  unfold Base58_eq, Base58_CompareTo. split.
  - destruct (vector_lt (vchVersion a) _) eqn:E1; [done|]. destruct (vector_lt (vchVersion b) _) eqn:E2; [done|].
    destruct (vector_lt (vchData a) _) eqn:E3; [done|]. destruct (vector_lt (vchData b) _) eqn:E4; [done|]. intros _.
    destruct a, b. cbn in *. f_equal; by apply vector_trichotomy.
  - intros ->. by rewrite !vector_irreflexive.
Qed.

(** ** Properties *)

(** Base58 with a checksum is a bijection between byte strings and their
    texts, up to the spaces around a text: every byte string below 2^28 bytes is
    encoded, without a failed assertion, and every text that is its encoding
    between spaces is read back as it; and no text makes the decoder fail an
    assertion, and one that it accepts is, up to the terminating zero, the encoding of
    the bytes it gives, between spaces, so that no two texts that differ
    otherwise are read as the same bytes. *)
Theorem base58_roundtrip (v str : bytes) : bytes_ok v → Z.of_nat (length v) < 2 ^ 28 → Z.of_nat (length str) < 2 ^ 29 →
  (∃ e, EncodeBase58Check v = Some e ∧ ∀ before after, spaces before → spaces after → Z.of_nat (length (before ++ e ++ after)) < 2 ^ 30 →
     DecodeBase58Check (before ++ e ++ after) = Some (Some v)) ∧
  (∃ r, DecodeBase58Check str = Some r ∧ ∀ w, r = Some w →
     ∃ before e after, spaces before ∧ spaces after ∧ EncodeBase58Check w = Some e ∧ c_str str = before ++ e ++ after).
Proof.
  intros Hv Hlv Hls. split.
  { destruct (check_decode_encode v Hv Hlv) as (e & E & _ & H). by exists e. }
  destruct (check_encode_decode str Hls) as (r & E & H). exists r. split; [done|]. intros w Hw. by apply H.
Qed.

Lemma base58_roundtrip_witness : ∃ e, EncodeBase58Check [0; 0; 7; 255] = Some e ∧ DecodeBase58Check (32 :: e) = Some (Some [0; 0; 7; 255]).
Proof.
  destruct (base58_roundtrip [0; 0; 7; 255] [] ltac:(by apply bytes_ok_compute) ltac:(cbn; lia) ltac:(cbn; lia)) as [(e & E & H) _].
  exists e. split; [exact E|]. specialize (H [32] []). rewrite app_nil_r in H. apply H; [by repeat constructor|constructor|].
  vm_compute in E. injection E as <-. cbn. lia.
Defined.

Record prefixes_ok (params : Base58Prefixes) : Prop := {
  pubkey_prefix : length (PUBKEY_ADDRESS params) = 1%nat;
  script_prefix : length (SCRIPT_ADDRESS params) = 1%nat;
  pubkey_byte : bytes_ok (PUBKEY_ADDRESS params);
  script_byte : bytes_ok (SCRIPT_ADDRESS params);
  prefixes_differ : PUBKEY_ADDRESS params ≠ SCRIPT_ADDRESS params }.
Definition dest_hash (dest : CTxDestination) : bytes := match dest with CNoDestination => [] | CKeyID h | CScriptID h => h end.

Lemma address_valid params dest : prefixes_ok params → length (dest_hash dest) = 20%nat →
  Address_IsValid params (CBitcoinAddress params dest) = true ∧ Address_Get params (CBitcoinAddress params dest) = dest.
Proof.
  intros [_ _ _ _ Hne] Hd. assert (SCRIPT_ADDRESS params ≠ PUBKEY_ADDRESS params) by (intros E; by rewrite E in Hne).
  unfold CBitcoinAddress, Address_Get, Address_IsValid. destruct dest as [|h|h]; cbn in Hd; [done|..];
    cbn [Address_Set Address_SetKeyID Address_SetScriptID SetData snd vchVersion vchData]; rewrite Hd, Nat.eqb_refl; cbn [andb].
  - by rewrite bool_decide_true.
  - by rewrite (bool_decide_false (SCRIPT_ADDRESS params = _)), bool_decide_true.
Qed.
Lemma valid_address params a : Address_IsValid params a = true → CBitcoinAddress params (Address_Get params a) = a.
Proof.
  intros H. unfold Address_Get. rewrite H. cbn [negb]. unfold Address_IsValid in H. apply andb_true_iff in H as [_ H].
  destruct a as [ver d]. cbn [vchVersion vchData] in *. destruct (bool_decide_reflect (ver = PUBKEY_ADDRESS params)) as [->|]; [done|].
  cbn [orb] in H. rewrite H. apply bool_decide_eq_true in H as ->. done.
Qed.

(** C13. Addresses name destinations, one to one, on every network whose two
    version bytes differ: the address of a key hash or of a script hash is valid, it
    is printed, and the text is read back as the address that stands for the same
    destination; every text that is read as a valid address is, but for spaces around it, the
    text of the address of its destination; and two addresses are equal for
    [operator==] exactly when their data are. *)
Theorem addresses_roundtrip (params : Base58Prefixes) (dest : CTxDestination) (str : bytes) (a b : CBase58Data) :
  prefixes_ok params → length (dest_hash dest) = 20%nat → bytes_ok (dest_hash dest) → Z.of_nat (length str) < 2 ^ 29 →
  (Address_IsValid params (CBitcoinAddress params dest) = true ∧ Address_Get params (CBitcoinAddress params dest) = dest ∧
   ∃ e, ToString (CBitcoinAddress params dest) = Some e ∧ CBitcoinAddress_string e = Some (CBitcoinAddress params dest)) ∧
  (∃ a', CBitcoinAddress_string str = Some a' ∧ (Address_IsValid params a' = true →
     ∃ before e after, spaces before ∧ spaces after ∧ ToString (CBitcoinAddress params (Address_Get params a')) = Some e ∧
       c_str str = before ++ e ++ after)) ∧
  (Base58_eq a b = true ↔ a = b).
Proof.
  intros Hp Hd Hok Hs. destruct (address_valid params dest Hp Hd) as [Hv Hg]. split; [split; [done|]; split; [done|]|split; [|apply Base58_eq_spec]].
  - assert (Hver : length (vchVersion (CBitcoinAddress params dest)) = 1%nat ∧ bytes_ok (vchVersion (CBitcoinAddress params dest)) ∧
      vchData (CBitcoinAddress params dest) = dest_hash dest) by (destruct Hp; by destruct dest).
    destruct Hver as (H1 & H2 & H3). unfold ToString.
    destruct (check_decode_encode (vchVersion (CBitcoinAddress params dest) ++ vchData (CBitcoinAddress params dest))) as (e & E & Hle & HD).
    { apply bytes_ok_app. by rewrite H3. } { rewrite H3, length_app, H1, Hd. lia. }
    exists e. split; [done|]. specialize (HD [] []). rewrite app_nil_r in HD. cbn [app] in HD.
    unfold CBitcoinAddress_string, SetString. rewrite HD; [|constructor..|rewrite length_app, H1, H3, Hd in Hle; lia]. cbn [mbind option_bind]. rewrite length_app, H1.
    destruct (Nat.ltb_spec (1 + length (vchData (CBitcoinAddress params dest))) 1); [lia|]. cbn [mbind option_bind].
    rewrite <- H1 at 1 2. rewrite take_app_length, drop_app_length. by destruct (CBitcoinAddress params dest).
  - unfold CBitcoinAddress_string, SetString. destruct (check_encode_decode str Hs) as (r & -> & H). cbn [mbind option_bind].
    destruct r as [v|]; [|eexists; split; [done|]; cbn; intros Hv'; by destruct Hp]. destruct (H v eq_refl) as (Hvok & _ & Henc).
    destruct (Nat.ltb_spec (length v) 1); [eexists; split; [done|]; cbn; intros Hv'; by destruct Hp|].
    eexists. split; [done|]. intros Hv'. rewrite (valid_address _ _ Hv'). unfold ToString. cbn [vchVersion vchData]. by rewrite take_drop.
Qed.

Lemma addresses_roundtrip_witness : ∃ e, ToString (CBitcoinAddress main_prefixes (CKeyID (replicate 20 7))) = Some e ∧
  CBitcoinAddress_string e = Some (CBitcoinAddress main_prefixes (CKeyID (replicate 20 7))).
Proof.
  destruct (addresses_roundtrip main_prefixes (CKeyID (replicate 20 7)) [] new_CBase58Data new_CBase58Data) as [(_ & _ & e & E & H) _];
    [by split; [..|by apply bytes_ok_compute|by apply bytes_ok_compute|done]|done|by apply bytes_ok_compute|cbn; lia|].
  exists e. split; [exact E|exact H].
Defined.
