(* ===== verification/Block.v ===== *)
(** * Block headers and blocks (src/src/primitives/block.h and .cpp) *)

From stdpp Require Import base numbers list option.
From Stdlib Require Import ZArith Lia ZifyNat.
From S2P Require Import Prelude Endian Hash Fips202 Serialize Transaction.

(** ** Data *)
Definition SER_GETHASH : Z := Z.shiftl 1 2.
Definition SER_WITHOUT_SIGNATURE : Z := Z.shiftl 1 3.

Record CBlockOldHeader := mkOldHeader {
  bh_nVersion : Z; hashPrevBlock : bytes; hashMerkleRoot : bytes; nTime : Z; nBits : Z;
  hashStateRoot : bytes; hashUTXORoot : bytes; seed : Z; nNonce : Z; nNonce_ex : Z }.
Definition OldHeader_null : CBlockOldHeader :=
  mkOldHeader 0 uint256_null uint256_null 0 0 uint256_null uint256_null 0 0 0.
Definition OldHeader_IsNull (h : CBlockOldHeader) : bool := nBits h =? 0.

Record CBlockHeader := mkHeader {
  old : CBlockOldHeader; sig1 : bytes; sig2 : bytes; sig3 : bytes; sig4 : bytes; sig5 : bytes }.
Definition Header_null : CBlockHeader := mkHeader OldHeader_null [] [] [] [] [].

Record CBlock := mkBlock { header : CBlockHeader; vtx : list CTransaction }.

#[global] Instance CBlockOldHeader_eq_dec : EqDecision CBlockOldHeader.
Proof. solve_decision. Defined.
#[global] Instance CBlockHeader_eq_dec : EqDecision CBlockHeader.
Proof. solve_decision. Defined.

(** ** Serialization *)

(** The fields every stream gets, and the two nonces. *)
Definition fields_codec :=
  pair_codec i32_codec (pair_codec uint256_codec (pair_codec uint256_codec (pair_codec u32_codec
    (pair_codec u32_codec (pair_codec uint256_codec (pair_codec uint256_codec u32_codec)))))).
Definition nonces_codec := pair_codec u64_codec u64_codec.

Definition header_fields (h : CBlockOldHeader) :=
  (bh_nVersion h, (hashPrevBlock h, (hashMerkleRoot h, (nTime h,
    (nBits h, (hashStateRoot h, (hashUTXORoot h, seed h))))))).
Definition header_nonces (h : CBlockOldHeader) := (nNonce h, nNonce_ex h).
Definition make_OldHeader f (n : Z * Z) : CBlockOldHeader :=
  let '(v, (prev, (merkle, (time, (bits, (state, (utxo, sd))))))) := f in
  mkOldHeader v prev merkle time bits state utxo sd (fst n) (snd n).

(** [SerializationOp] of [CBlockOldHeader] when writing: a stream of type
    [SER_GETHASH] does not get the nonces. *)
Definition SerializeOldHeader (nType : Z) (h : CBlockOldHeader) : bytes :=
  enc fields_codec (header_fields h)
  ++ (if Z.land nType SER_GETHASH =? 0 then enc nonces_codec (header_nonces h) else []).

(** The network and disk format. *)
Definition OldHeader_codec : codec CBlockOldHeader :=
  iso_codec (pair_codec fields_codec nonces_codec)
    (λ f, make_OldHeader (fst f) (snd f)) (λ h, (header_fields h, header_nonces h)).
Definition sigs_codec :=
  pair_codec string_codec (pair_codec string_codec (pair_codec string_codec (pair_codec string_codec string_codec))).
Definition Header_codec : codec CBlockHeader :=
  iso_codec (pair_codec OldHeader_codec sigs_codec)
    (λ f, let '(o, (s1, (s2, (s3, (s4, s5))))) := f in mkHeader o s1 s2 s3 s4 s5)
    (λ h, (old h, (sig1 h, (sig2 h, (sig3 h, (sig4 h, sig5 h)))))).

(** Transactions inside a block, with or without witnesses. *)
Definition tx_codec (w : bool) : codec CTransaction :=
  Codec (SerializeTransaction w) (UnserializeTransaction w)
    (λ tx, tx_ok tx ∧ if w then vin tx ≠ [] ∨ vout tx = [] else strip tx = tx).
Definition SerializeBlock (w : bool) (b : CBlock) : bytes :=
  enc Header_codec (header b) ++ ser_vector (tx_codec w) (vtx b).
Definition UnserializeBlock (w : bool) : reader CBlock := λ s,
  '(h, s) ← dec Header_codec s;
  '(txs, s) ← unser_vector (tx_codec w) s;
  Some (mkBlock h txs, s).

(** ** The block hash *)
Definition GetHash2 (h : CBlockOldHeader) (hash : bytes) : option bytes :=
  Hashes.SerializeHash [enc uint256_codec hash; enc u64_codec (nNonce h); enc u64_codec (nNonce_ex h)].
Definition OldHeader_GetHash (h : CBlockOldHeader) : option bytes :=
  hash ← Hashes.SerializeHash [SerializeOldHeader SER_GETHASH h]; GetHash2 h hash.
Definition OldHeader_GetHashWithoutSign (h : CBlockOldHeader) : option bytes :=
  hash ← Hashes.SerializeHash [SerializeOldHeader (Z.lor SER_GETHASH SER_WITHOUT_SIGNATURE) h]; GetHash2 h hash.
(** Inherited by [CBlockHeader] and [CBlock]: only the base part is hashed. *)
Definition Header_GetHash (h : CBlockHeader) : option bytes := OldHeader_GetHash (old h).
Definition Block_GetHash (b : CBlock) : option bytes := Header_GetHash (header b).
Definition GetBlockTime (h : CBlockOldHeader) : Z := nTime h.
Definition IsProofOfStake (h : CBlockOldHeader) : bool := false.
Definition IsProofOfWork (h : CBlockOldHeader) : bool := negb (IsProofOfStake h).
Definition StakeTime (h : CBlockOldHeader) : Z := if IsProofOfStake h then nTime h else 0.

(** How many signatures are present before the first empty one. *)
Definition index (h : CBlockHeader) : Z :=
  if (length (sig1 h) =? 0)%nat then 0
  else if (length (sig2 h) =? 0)%nat then 1
  else if (length (sig3 h) =? 0)%nat then 2
  else if (length (sig4 h) =? 0)%nat then 3
  else if (length (sig5 h) =? 0)%nat then 4
  else 5.

(** ** Copies, field by field *)
Definition GetBlockOldHeader (h : CBlockHeader) : CBlockOldHeader :=
  let o := old h in
  mkOldHeader (bh_nVersion o) (hashPrevBlock o) (hashMerkleRoot o) (nTime o) (nBits o)
    (hashStateRoot o) (hashUTXORoot o) (seed o) (nNonce o) (nNonce_ex o).
Definition GetBlockHeader (b : CBlock) : CBlockHeader :=
  let h := header b in
  mkHeader (GetBlockOldHeader h) (sig1 h) (sig2 h) (sig3 h) (sig4 h) (sig5 h).
Definition ChangeHeader (b : CBlock) (h : CBlockHeader) : CBlock :=
  mkBlock (mkHeader (GetBlockOldHeader h) (sig1 h) (sig2 h) (sig3 h) (sig4 h) (sig5 h)) (vtx b).

(** ** [CBlockLocator]: the stream version, unless hashing, then the hashes. *)
Definition CBlockLocator_codec : codec (Z * list bytes) :=
  pair_codec i32_codec (vector_codec uint256_codec).

(** ** Proofs *)
#[global] Instance fields_serializable : Serializable fields_codec.
Proof. apply _. Qed.
#[global] Instance fields_canonical : Canonical fields_codec.
Proof. apply _. Qed.
#[global] Instance nonces_serializable : Serializable nonces_codec.
Proof. apply _. Qed.
#[global] Instance nonces_canonical : Canonical nonces_codec.
Proof. apply _. Qed.
Lemma make_OldHeader_fields f : (header_fields (make_OldHeader (fst f) (snd f)), header_nonces (make_OldHeader (fst f) (snd f))) = f.
Proof. by destruct f as [(?&?&?&?&?&?&?&?) []]. Qed.
Lemma make_header_fields h : make_OldHeader (header_fields h) (header_nonces h) = h.
Proof. by destruct h. Qed.
#[global] Instance OldHeader_serializable : Serializable OldHeader_codec.
Proof. apply iso_serializable; [exact make_OldHeader_fields|apply _]. Qed.
#[global] Instance OldHeader_canonical : Canonical OldHeader_codec.
Proof. apply iso_canonical; [exact make_OldHeader_fields|apply _]. Qed.
#[global] Instance Header_serializable : Serializable Header_codec.
Proof. apply iso_serializable; [by intros (?&?&?&?&?&?)|apply _]. Qed.
#[global] Instance Header_canonical : Canonical Header_codec.
Proof. apply iso_canonical; [by intros (?&?&?&?&?&?)|apply _]. Qed.

Definition header_ok (h : CBlockOldHeader) : Prop :=
  enc_ok fields_codec (header_fields h) ∧ enc_ok nonces_codec (header_nonces h).

Lemma header_ok_codec h : header_ok h ↔ enc_ok OldHeader_codec h.
Proof. split; [intros [H1 H2]; split; [by split|apply make_header_fields]|by intros [[H1 H2] _]]. Qed.

Lemma network_format h : SerializeOldHeader 0 h = enc OldHeader_codec h.
Proof. done. Qed.
Lemma hash_format h : SerializeOldHeader SER_GETHASH h = enc fields_codec (header_fields h).
Proof. unfold SerializeOldHeader. cbn [Z.eqb]. apply app_nil_r. Qed.
Lemma hash_format_nosig h :
  SerializeOldHeader (Z.lor SER_GETHASH SER_WITHOUT_SIGNATURE) h = enc fields_codec (header_fields h).
Proof. unfold SerializeOldHeader. cbn [Z.eqb]. apply app_nil_r. Qed.

Lemma length_fields h : enc_ok fields_codec (header_fields h) → length (enc fields_codec (header_fields h)) = 144%nat.
Proof.
  intros (_ & [H1 _] & [H2 _] & _ & _ & [H3 _] & [H4 _] & _). cbn in H1, H2, H3, H4.
  unfold fields_codec, pair_codec. cbn [enc fst snd header_fields]. rewrite !length_app.
  cbn [enc uint256_codec array_codec]. rewrite H1, H2, H3, H4. done.
Qed.

Definition block_ok (w : bool) (b : CBlock) : Prop :=
  enc_ok Header_codec (header b) ∧ Forall (enc_ok (tx_codec w)) (vtx b) ∧
  Z.of_nat (length (vtx b)) ≤ MAX_SIZE.

(** ** Properties *)

Section Opaque.
#[local] Opaque Header_codec tx_codec.

Lemma block_roundtrip_elems w b r :
  enc_ok Header_codec (header b) →
  Forall (λ tx, ∀ r, dec (tx_codec w) (enc (tx_codec w) tx ++ r) = Some (tx, r)) (vtx b) →
  Z.of_nat (length (vtx b)) ≤ MAX_SIZE →
  UnserializeBlock w (SerializeBlock w b ++ r) = Some (b, r).
Proof.
  intros Hh Ht Hl. unfold UnserializeBlock, SerializeBlock. rewrite <- app_assoc, enc_dec by done.
  cbn [mbind option_bind]. rewrite unser_vector_elems by done. cbn [mbind option_bind]. by destruct b.
Qed.
End Opaque.

Lemma tx_codec_app w tx r :
  enc_ok (tx_codec w) tx → UnserializeTransaction w (SerializeTransaction w tx ++ r) = Some (tx, r).
Proof.
  intros [Hok Hc]. rewrite SerializeTransaction_eq. destruct w; cbn [andb].
  - destruct (HasWitness tx) eqn:Ew; [by apply read_extended|].
    rewrite read_basic by auto. f_equal. f_equal. destruct tx. unfold strip. cbn.
    by apply HasWitness_false in Ew as ->.
  - rewrite read_basic by auto. by rewrite Hc.
Qed.

(** Blocks survive the wire.  A well-formed block (every transaction with
    an input, or stripped of witnesses when these are not written) is read
    back as it was written; a header stream that is accepted is the
    serialization of the header it yields; and the two header formats differ
    by the 16 bytes of the nonces. *)
Theorem block_roundtrip (w : bool) (b : CBlock) (r s : bytes) (h : CBlockHeader) (r' : bytes) :
  block_ok w b → bytes_ok s →
  UnserializeBlock w (SerializeBlock w b ++ r) = Some (b, r) ∧
  (dec Header_codec s = Some (h, r') → s = enc Header_codec h ++ r') ∧
  SerializeOldHeader 0 (old (header b))
  = SerializeOldHeader SER_GETHASH (old (header b)) ++ enc nonces_codec (header_nonces (old (header b))) ∧
  length (SerializeOldHeader 0 (old (header b))) = 160%nat.
Proof.
  intros (Hh & Ht & Hl) Hs. split_and!.
  - apply block_roundtrip_elems; [done| |done]. revert Ht. apply Forall_impl. intros tx Htx r0.
    by apply tx_codec_app.
  - intros E. by apply dec_enc.
  - by rewrite hash_format.
  - unfold SerializeOldHeader. cbn [Z.eqb]. rewrite length_app.
    destruct Hh as [[Hh _] _]. cbn [fst] in Hh. apply header_ok_codec in Hh as [Hf _].
    change (Z.land 0 SER_GETHASH =? 0) with true. rewrite length_fields by done. done.
Qed.

Definition header_example : CBlockHeader :=
  mkHeader (mkOldHeader 536870912 (replicate 32 7) (replicate 32 8) 1577836800 0x1e00ffff
    (replicate 32 9) (replicate 32 10) 3 0x1122334455667788 5) [1] [2; 3] [] [] [].
Definition block_example : CBlock := mkBlock header_example [tx_example].

Lemma header_ok_of (v t b sd n1 n2 : Z) (p m st u : bytes) :
  -2147483648 ≤ v < 2147483648 → u32b t && u32b b && u32b sd = true → is_u64 n1 → is_u64 n2 →
  Forall (λ l, u8sb l && (length l =? 32)%nat = true) [p; m; st; u] →
  header_ok (mkOldHeader v p m t b st u sd n1 n2).
Proof.
  intros Hv Hu H1 H2 Hb. rewrite !Forall_cons_iff in Hb. unfold u32b in Hu.
  destruct Hb as ([Hp1 Hp2]%andb_true_iff & [Hm1 Hm2]%andb_true_iff & [Hs1 Hs2]%andb_true_iff & [Hu1 Hu2]%andb_true_iff & _).
  apply u8sb_ok in Hp1, Hm1, Hs1, Hu1. apply Nat.eqb_eq in Hp2, Hm2, Hs2, Hu2.
  repeat match goal with |- _ ∧ _ => split | |- header_ok _ => split | |- enc_ok _ _ => cbn end; try done; word_lia.
Qed.

Lemma header_example_ok : header_ok (old header_example).
Proof.
  apply header_ok_of; [lia|reflexivity|word_lia|word_lia|].
  repeat (constructor; [reflexivity|]). constructor.
Qed.
Lemma block_example_ok : block_ok true block_example.
Proof.
  split; [|split].
  - split; [split|reflexivity]; [apply header_ok_codec, header_example_ok|].
    cbn. split_and!; apply sizedb_ok; reflexivity.
  - constructor; [|constructor]. split; [apply tx_okb_ok; reflexivity|]. by left.
  - cbn. unfold MAX_SIZE. lia.
Qed.

Lemma block_roundtrip_witness :
  UnserializeBlock true (SerializeBlock true block_example ++ [1]) = Some (block_example, [1]) ∧
  (dec Header_codec [] = Some (Header_null, []) → [] = enc Header_codec Header_null ++ []) ∧
  SerializeOldHeader 0 (old header_example)
  = SerializeOldHeader SER_GETHASH (old header_example) ++ enc nonces_codec (header_nonces (old header_example)) ∧
  length (SerializeOldHeader 0 (old header_example)) = 160%nat.
Proof. apply (block_roundtrip true block_example [1] [] Header_null []); [apply block_example_ok|constructor]. Defined.

(** What the block hash covers. *)
Definition hash_preimage (h : CBlockOldHeader) : bytes := enc fields_codec (header_fields h).

Abbreviation bits_of := Fips202.Fips202.bytes_bits.
Abbreviation SHA3 := Fips202.Fips202.SHA3_256.

Lemma preimage_ok h : header_ok h → bytes_ok (hash_preimage h).
Proof. intros [Hf _]. by apply enc_bytes. Qed.
Lemma length_nonces h : length (enc nonces_codec (header_nonces h)) = 16%nat.
Proof. done. Qed.

Lemma GetHash2_spec h hash :
  length hash = 32%nat → bytes_ok hash → header_ok h →
  ∃ d, GetHash2 h hash = Some d ∧ length d = 32%nat ∧ bytes_ok d ∧
    bits_of d = SHA3 (bits_of (hash ++ enc nonces_codec (header_nonces h))).
Proof.
  intros Hl Hb [_ Hn]. unfold GetHash2.
  set (m := hash ++ enc nonces_codec (header_nonces h)).
  assert (Hm : Z.of_nat (length m) < 2 ^ 32).
  { unfold m. rewrite length_app, length_nonces, Hl. reflexivity. }
  rewrite (Hashes.SerializeHash_concat _ [m]).
  - rewrite Hashes.SerializeHash_eq. apply Fips202Refinement.SHA3_of_bytes; [exact Hm|].
    apply bytes_ok_app. split; [done|by apply enc_bytes].
  - repeat constructor; [|reflexivity..]. cbn [enc uint256_codec array_codec]. rewrite Hl. reflexivity.
  - constructor; [exact Hm|constructor].
  - unfold m. cbn [concat]. rewrite !app_nil_r. reflexivity.
Qed.

(** The block hash.  For a well-formed header, [GetHash] (and
    [GetHashWithoutSign], which is the same) succeeds and is
    SHA3-256(SHA3-256(fields) ‖ nNonce ‖ nNonce_ex); the signatures do not
    enter; and the hashed fields with the nonces determine the header. *)
Theorem block_hash_spec (h : CBlockHeader) (o' : CBlockOldHeader) :
  header_ok (old h) → header_ok o' →
  (∃ d1 d2, Header_GetHash h = Some d2 ∧ OldHeader_GetHashWithoutSign (old h) = Some d2 ∧
     length d1 = 32%nat ∧ length d2 = 32%nat ∧
     bits_of d1 = SHA3 (bits_of (hash_preimage (old h))) ∧
     bits_of d2 = SHA3 (bits_of (d1 ++ WriteLE64 (nNonce (old h)) ++ WriteLE64 (nNonce_ex (old h))))) ∧
  Header_GetHash (mkHeader (old h) [] [] [] [] []) = Header_GetHash h ∧
  (hash_preimage (old h) = hash_preimage o' → header_nonces (old h) = header_nonces o' → old h = o').
Proof.
  intros H H'. split; [|split; [reflexivity|]].
  - unfold Header_GetHash, OldHeader_GetHash, OldHeader_GetHashWithoutSign. rewrite hash_format, hash_format_nosig.
    fold (hash_preimage (old h)). rewrite Hashes.SerializeHash_eq.
    destruct (Fips202Refinement.SHA3_of_bytes (hash_preimage (old h))) as (d1 & E1 & L1 & B1 & S1).
    { unfold hash_preimage. rewrite length_fields by apply H. reflexivity. }
    { by apply preimage_ok. }
    rewrite E1. cbn [mbind option_bind]. destruct (GetHash2_spec (old h) d1 L1 B1 H) as (d2 & E2 & L2 & _ & S2).
    rewrite E2. destruct H as [_ [Hn1 Hn2]]. cbn in Hn1, Hn2.
    assert (En : enc nonces_codec (header_nonces (old h)) = WriteLE64 (nNonce (old h)) ++ WriteLE64 (nNonce_ex (old h))).
    { unfold nonces_codec, pair_codec, header_nonces. cbn [enc fst snd u64_codec].
      unfold ser_writedata64. by rewrite !u64_small by done. }
    rewrite En in S2.
    exact (ex_intro _ d1 (ex_intro _ d2 (conj eq_refl (conj eq_refl (conj L1 (conj L2 (conj S1 S2))))))).
  - intros Ep En. destruct H as [Hf _], H' as [Hf' _].
    pose proof (enc_dec (c := fields_codec) _ [] Hf) as R. pose proof (enc_dec (c := fields_codec) _ [] Hf') as R'.
    unfold hash_preimage in Ep. rewrite Ep, R' in R. injection R as Ef.
    rewrite <- (make_header_fields (old h)), <- (make_header_fields o'), En. f_equal.
    unfold header_fields. congruence.
Qed.

Lemma block_hash_spec_witness :
  (∃ d1 d2, Header_GetHash header_example = Some d2 ∧
     OldHeader_GetHashWithoutSign (old header_example) = Some d2 ∧
     length d1 = 32%nat ∧ length d2 = 32%nat ∧
     bits_of d1 = SHA3 (bits_of (hash_preimage (old header_example))) ∧
     bits_of d2 = SHA3 (bits_of (d1 ++ WriteLE64 (nNonce (old header_example)) ++ WriteLE64 (nNonce_ex (old header_example))))) ∧
  Header_GetHash (mkHeader (old header_example) [] [] [] [] []) = Header_GetHash header_example ∧
  (hash_preimage (old header_example) = hash_preimage (old header_example) →
   header_nonces (old header_example) = header_nonces (old header_example) → old header_example = old header_example).
Proof. apply (block_hash_spec header_example (old header_example)); apply header_example_ok. Defined.

(** The copies are complete. *)
Lemma GetBlockOldHeader_eq h : GetBlockOldHeader h = old h.
Proof. by destruct h as [[]]. Qed.
Lemma GetBlockHeader_eq b : GetBlockHeader b = header b.
Proof. by destruct b as [[[]] ?]. Qed.
Lemma ChangeHeader_eq b h : ChangeHeader b h = mkBlock h (vtx b).
Proof. by destruct h as [[]]. Qed.
