(* ===== verification/Merkle.v ===== *)
(** * Merkle trees (src/src/consensus/merkle.cpp)

    The constant-space computation of a Merkle root and branch, against the
    level-by-level definition of the tree.  The definitions are generic in the
    node type and the function that hashes two nodes; [ComputeMerkleRoot] and
    the functions below it instantiate them with double SHA-256. *)

From stdpp Require Import base numbers list option.
From Stdlib Require Import ZArith Lia ZifyNat ZifyBool.
From S2P Require Import Prelude StrEncodings Hash Transaction Block.

(** Powers of two in [nat]. *)
Lemma pow2_pos v : (0 < 2 ^ v)%nat.
Proof. pose proof (Nat.pow_nonzero 2 v). lia. Qed.
Lemma div_S c v : (c / 2 ^ S v = c / 2 ^ v / 2)%nat.
Proof. rewrite Nat.pow_succ_r', Nat.mul_comm. by rewrite Nat.Div0.div_div. Qed.
Lemma even_double_1 j : Nat.even (2 * j + 1) = false.
Proof. by rewrite Nat.add_1_r, Nat.even_succ, Nat.odd_mul. Qed.
Lemma div_split c v : (c = 2 ^ v * (c / 2 ^ v) + c mod 2 ^ v ∧ c mod 2 ^ v < 2 ^ v)%nat.
Proof.
  pose proof (pow2_pos v). split; [apply Nat.div_mod_eq|apply Nat.mod_upper_bound; lia].
Qed.
Lemma divides_S c v : (c mod 2 ^ S v = 0 ↔ c mod 2 ^ v = 0 ∧ Nat.even (c / 2 ^ v) = true)%nat.
Proof.
  pose proof (div_split c v) as [E R]. pose proof (div_split c (S v)) as [E' R'].
  rewrite div_S in E'. rewrite Nat.pow_succ_r' in *. set (q := (c / 2 ^ v)%nat) in *. set (P := (2 ^ v)%nat) in *.
  pose proof (Nat.div_mod_eq q 2) as Eq. pose proof (Nat.mod_upper_bound q 2 ltac:(lia)).
  set (r' := (c mod (2 * P))%nat) in *. set (r := (c mod P)%nat) in *. set (q2 := (q / 2)%nat) in *.
  assert (r' = P * (q mod 2) + r)%nat by nia.
  rewrite Nat.even_spec. split.
  - intros Hz0. assert (P * (q mod 2) = 0)%nat by lia. split; [lia|]. exists q2. nia.
  - intros [H1 [q' H2]]. assert (q mod 2 = 0)%nat by (rewrite H2, Nat.mul_comm; apply Nat.Div0.mod_mul). nia.
Qed.
Lemma divides_le c v k : (v ≤ k → c mod 2 ^ k = 0 → c mod 2 ^ v = 0)%nat.
Proof.
  induction k as [|k IH]; intros Hle Hz; [by replace v with 0%nat by lia|].
  destruct (decide (v = S k)) as [->|]; [done|]. apply divides_S in Hz as [Hz _]. apply IH; [lia|done].
Qed.
Lemma succ_div c v : ((c + 1) mod 2 ^ v = 0 → (c + 1) / 2 ^ v = S (c / 2 ^ v))%nat.
Proof.
  intros Hz0. pose proof (div_split (c + 1) v) as [E R]. pose proof (pow2_pos v). rewrite Hz0 in E.
  set (m := ((c + 1) / 2 ^ v)%nat) in *. destruct m as [|m]; [nia|]. f_equal.
  apply Nat.div_unique with (2 ^ v - 1)%nat; nia.
Qed.
Lemma succ_div_other c v : ((c + 1) mod 2 ^ v ≠ 0 → (c + 1) / 2 ^ v = c / 2 ^ v)%nat.
Proof.
  intros Hz0. pose proof (div_split (c + 1) v) as [E R]. pose proof (pow2_pos v).
  symmetry. symmetry. apply Nat.div_unique with ((c + 1) mod 2 ^ v - 1)%nat; nia.
Qed.

Lemma odd_pos q : Nat.odd q = true → (1 ≤ q)%nat.
Proof. destruct q; [done|lia]. Qed.
Lemma even_of_nat q : Z.even (Z.of_nat q) = Nat.even q.
Proof.
  destruct (Nat.Even_or_Odd q) as [[k ->]|[k ->]].
  - by rewrite Nat.even_mul, Nat2Z.inj_mul, Z.even_mul.
  - rewrite even_double_1, Nat2Z.inj_add, Nat2Z.inj_mul, Z.even_add, Z.even_mul. done.
Qed.
Lemma pow_height v m : (2 ^ v < 2 * m → v ≤ m)%nat.
Proof.
  destruct v as [|v]; [lia|]. rewrite Nat.pow_succ_r'. intros Hv. pose proof (Nat.pow_gt_lin_r 2 v ltac:(lia)). lia.
Qed.
(** The bits of [c + 1] against those of [c]. *)
Lemma bits_above c v : ((c + 1) mod 2 ^ v = 0 → Nat.odd ((c + 1) / 2 ^ v) = true → ∀ k, v < k → (c + 1) / 2 ^ k = c / 2 ^ k)%nat.
Proof.
  intros Hd Ho k Hk. apply succ_div_other. intros Hz.
  pose proof (divides_le _ (S v) k Hk Hz) as Hz'. apply divides_S in Hz' as [_ He]. unfold Nat.odd in Ho. by rewrite He in Ho.
Qed.
Lemma bits_below c v : ((c + 1) mod 2 ^ v = 0 → ∀ k, k < v → Nat.odd ((c + 1) / 2 ^ k) = false)%nat.
Proof.
  intros Hd k Hk. pose proof (divides_le _ (S k) v Hk Hd) as Hz. apply divides_S in Hz as [_ He]. unfold Nat.odd. by rewrite He.
Qed.

Section Merkle.
Context {A : Type} `{!EqDecision A} (blank : A) (combine : A → A → A).

(** Bit [level] of [count]; shifting a 32-bit value by 32 or more is
    undefined. *)
Definition bit_clear (count : Z) (level : nat) : option bool :=
  if (level <? 32)%nat then Some (Z.land count (Z.shiftl 1 (Z.of_nat level)) =? 0) else None.

(** One step of the branch under construction: [sibling] is pushed when the
    subtree at hand holds the leaf, [h] when the stored one at this level does;
    without a branch nothing is tracked. *)
Definition branch_step (pbranch : option (list A)) (matchh : bool) (matchlevel : Z) (level : nat) (sibling h : A)
    : option (list A) * bool :=
  match pbranch with
  | None => (None, matchh)
  | Some b =>
      if matchh then (Some (b ++ [sibling]), matchh)
      else if matchlevel =? Z.of_nat level then (Some (b ++ [h]), true)
      else (Some b, matchh)
  end.

Record leaf_state := mkLeaf {
  ls_h : A; ls_matchh : bool; ls_level : nat; ls_branch : option (list A); ls_mutated : bool }.

(** The loop over the clear low bits of [count]. *)
Fixpoint carry (fuel : nat) (inner : list A) (count matchlevel : Z) (s : leaf_state) : option leaf_state :=
  clear ← bit_clear count (ls_level s);
  if (clear : bool) then
    match fuel with
    | O => None
    | S fuel' =>
        x ← inner !! ls_level s;
        let '(pbranch, matchh) := branch_step (ls_branch s) (ls_matchh s) matchlevel (ls_level s) x (ls_h s) in
        carry fuel' inner count matchlevel
          (mkLeaf (combine x (ls_h s)) matchh (S (ls_level s)) pbranch
             (ls_mutated s || bool_decide (x = ls_h s)))
    end
  else Some s.

Record tree_state := mkTree {
  ts_count : Z; ts_inner : list A; ts_matchlevel : Z; ts_branch : option (list A); ts_mutated : bool }.

(** One leaf. *)
Definition add_leaf (branchpos : Z) (t : tree_state) (leaf : A) : option tree_state :=
  let matchh := ts_count t =? branchpos in
  let count := u32 (ts_count t + 1) in
  s ← carry 32 (ts_inner t) count (ts_matchlevel t) (mkLeaf leaf matchh 0 (ts_branch t) (ts_mutated t));
  if (ls_level s <? length (ts_inner t))%nat then
    Some (mkTree count (<[ls_level s := ls_h s]> (ts_inner t))
            (if ls_matchh s then Z.of_nat (ls_level s) else ts_matchlevel t) (ls_branch s) (ls_mutated s))
  else None.
Fixpoint add_leaves (branchpos : Z) (t : tree_state) (leaves : list A) : option tree_state :=
  match leaves with
  | [] => Some t
  | leaf :: rest => t ← add_leaf branchpos t leaf; add_leaves branchpos t rest
  end.

(** The lowest set bit. *)
Fixpoint skip_levels (fuel : nat) (count : Z) (level : nat) : option nat :=
  clear ← bit_clear count level;
  if (clear : bool) then match fuel with O => None | S fuel' => skip_levels fuel' count (S level) end
  else Some level.

(** The propagation inside the sweep. *)
Fixpoint propagate (fuel : nat) (inner : list A) (count matchlevel : Z) (s : leaf_state) : option leaf_state :=
  clear ← bit_clear count (ls_level s);
  if (clear : bool) then
    match fuel with
    | O => None
    | S fuel' =>
        x ← inner !! ls_level s;
        let '(pbranch, matchh) := branch_step (ls_branch s) (ls_matchh s) matchlevel (ls_level s) x (ls_h s) in
        propagate fuel' inner count matchlevel
          (mkLeaf (combine x (ls_h s)) matchh (S (ls_level s)) pbranch (ls_mutated s))
    end
  else Some s.

Fixpoint sweep (fuel : nat) (inner : list A) (count matchlevel : Z) (s : leaf_state) : option leaf_state :=
  if (ls_level s <? 32)%nat then
    if count =? Z.shiftl 1 (Z.of_nat (ls_level s)) then Some s
    else
      match fuel with
      | O => None
      | S fuel' =>
          let pbranch := match ls_branch s with
                         | Some b => Some (if ls_matchh s then b ++ [ls_h s] else b)
                         | None => None
                         end in
          let count := u32 (count + Z.shiftl 1 (Z.of_nat (ls_level s))) in
          s ← propagate 32 inner count matchlevel
                (mkLeaf (combine (ls_h s) (ls_h s)) (ls_matchh s) (S (ls_level s)) pbranch (ls_mutated s));
          sweep fuel' inner count matchlevel s
      end
  else None.

(** The root, the mutation flag and the branch. *)
Definition MerkleComputation (leaves : list A) (branchpos : Z) (pbranch : bool) : option (A * bool * option (list A)) :=
  let branch := if pbranch then Some [] else None in
  match leaves with
  | [] => Some (blank, false, branch)
  | _ =>
      t ← add_leaves branchpos (mkTree 0 (replicate 32 blank) (-1) branch false) leaves;
      level ← skip_levels 32 (ts_count t) 0;
      h ← ts_inner t !! level;
      let matchh := ts_matchlevel t =? Z.of_nat level in
      s ← sweep 32 (ts_inner t) (ts_count t) (ts_matchlevel t) (mkLeaf h matchh level (ts_branch t) (ts_mutated t));
      Some (ls_h s, ts_mutated t, ls_branch s)
  end.

Definition merkle_root (leaves : list A) : option (A * bool) :=
  '(root, mutated, _) ← MerkleComputation leaves (u32 (-1)) false; Some (root, mutated).
Definition merkle_branch (leaves : list A) (position : Z) : option (list A) :=
  '(_, _, branch) ← MerkleComputation leaves position true; branch.

Fixpoint root_from_branch (hash : A) (vMerkleBranch : list A) (nIndex : Z) : A :=
  match vMerkleBranch with
  | [] => hash
  | x :: r =>
      root_from_branch (if negb (Z.land nIndex 1 =? 0) then combine x hash else combine hash x) r (Z.shiftr nIndex 1)
  end.

(** ** The tree, level by level *)

(** One level up: neighbours are combined, a last odd node with itself. *)
Fixpoint level_up (l : list A) : list A :=
  match l with
  | a :: b :: r => combine a b :: level_up r
  | [a] => [combine a a]
  | [] => []
  end.
Fixpoint tree_root (fuel : nat) (l : list A) : A :=
  match l with
  | [] => blank
  | [a] => a
  | _ => match fuel with O => blank | S fuel' => tree_root fuel' (level_up l) end
  end.
(** The sibling on each level; a last odd node is its own. *)
Fixpoint tree_branch (fuel : nat) (l : list A) (pos : nat) : list A :=
  match l with
  | [] | [_] => []
  | _ =>
      match fuel with
      | O => []
      | S fuel' =>
          (let sibling := if Nat.even pos then S pos else pred pos in
           match l !! sibling with Some x => x | None => default blank (l !! pos) end)
          :: tree_branch fuel' (level_up l) (pos / 2)
      end
  end.
Definition level (k : nat) (l : list A) : list A := Nat.iter k level_up l.

(** The pairs that are hashed on a level, on the levels below [v], and for the whole tree. *)
Fixpoint level_pairs (l : list A) : list (A * A) :=
  match l with
  | a :: b :: r => (a, b) :: level_pairs r
  | [a] => [(a, a)]
  | [] => []
  end.
Fixpoint tree_pairs (v : nat) (l : list A) : list (A * A) :=
  match v with O => [] | S v => tree_pairs v l ++ level_pairs (level v l) end.
Definition hashed_pairs (l : list A) : list (A * A) := tree_pairs (Nat.log2_up (length l)) l.
(** Two different pairs of a list have the same hash. *)
Definition collision (ps : list (A * A)) : Prop :=
  ∃ a b c d, (a, b) ∈ ps ∧ (c, d) ∈ ps ∧ (a, b) ≠ (c, d) ∧ combine a b = combine c d.

(** Two neighbours, both with all their leaves present, have the same hash. *)
Definition duplicated (l : list A) : Prop :=
  ∃ k i x, level k l !! (2 * i)%nat = Some x ∧ level k l !! (2 * i + 1)%nat = Some x ∧ ((2 * i + 2) * 2 ^ k ≤ length l)%nat.

(** ** Proofs: levels *)
Lemma pairs_ind (P : list A → Prop) : P [] → (∀ a, P [a]) → (∀ a b r, P r → P (a :: b :: r)) → ∀ l, P l.
Proof. intros Hz0 H1 H2. fix IH 1. intros [|a [|b r]]; [done|done|]. apply H2, IH. Qed.

Lemma length_level_up l : length (level_up l) = ((length l + 1) / 2)%nat.
Proof.
  induction l as [|a|a b r IH] using pairs_ind; [done|done|]. cbn [level_up length]. rewrite IH.
  replace (S (S (length r)) + 1)%nat with (length r + 1 + 1 * 2)%nat by lia. rewrite Nat.div_add by lia. lia.
Qed.
Lemma level_up_lookup l i x :
  l !! (2 * i)%nat = Some x → level_up l !! i = Some (combine x (default x (l !! (2 * i + 1)%nat))).
Proof.
  revert i. induction l as [|a|a b r IH] using pairs_ind; intros i Hi; [done| |].
  - destruct i as [|i]; [by injection Hi as ->|]. replace (2 * S i)%nat with (S (S (2 * i))) in Hi by lia. done.
  - destruct i as [|i]; [by injection Hi as ->|]. replace (2 * S i)%nat with (S (S (2 * i))) in Hi by lia.
    replace (2 * S i + 1)%nat with (S (S (2 * i + 1))) by lia. cbn in Hi |- *. by apply IH.
Qed.
Lemma level_S k l : level (S k) l = level_up (level k l).
Proof. reflexivity. Qed.
Lemma level_S' k l : level (S k) l = level k (level_up l).
Proof. unfold level. by rewrite Nat.iter_succ_r. Qed.

Lemma level_length v l :
  length (level v l) = (length l / 2 ^ v + (if (length l mod 2 ^ v =? 0)%nat then 0 else 1))%nat.
Proof.
  induction v as [|v IH].
  - change (2 ^ 0)%nat with 1%nat. rewrite Nat.div_1_r, Nat.mod_1_r. cbn. lia.
  - rewrite level_S, length_level_up, IH, div_S. pose proof (divides_S (length l) v) as HS.
    set (n := length l) in *. set (q := (n / 2 ^ v)%nat) in *. pose proof (Nat.div_mod_eq q 2) as Eq.
    pose proof (Nat.mod_upper_bound q 2 ltac:(lia)).
    assert (Heven : Nat.even q = true ↔ (q mod 2 = 0)%nat).
    { rewrite Nat.even_spec. split; [intros [x ->]; rewrite Nat.mul_comm; apply Nat.Div0.mod_mul|intros; exists (q / 2)%nat; lia]. }
    rewrite Heven in HS.
    destruct (Nat.eqb_spec (n mod 2 ^ v) 0) as [Hz0|Hz0]; destruct (Nat.eqb_spec (n mod 2 ^ S v) 0) as [H1|H1].
    + symmetry. apply Nat.div_unique with 1%nat; [lia|]. destruct HS as [HS _]. destruct (HS H1). lia.
    + symmetry. apply Nat.div_unique with 0%nat; [lia|]. assert (q mod 2 ≠ 0)%nat by tauto. lia.
    + tauto.
    + symmetry. apply Nat.div_unique with (q mod 2)%nat; lia.
Qed.

(** ** Proofs: the leaf loop *)
Lemma bit_clear_spec c v : (v < 32)%nat → bit_clear (Z.of_nat c) v = Some (Nat.even (c / 2 ^ v)).
Proof.
  intros Hv. unfold bit_clear. destruct (Nat.ltb_spec v 32) as [_|]; [|lia]. f_equal.
  assert (E : Z.testbit (Z.of_nat c) (Z.of_nat v) = Nat.odd (c / 2 ^ v)).
  { rewrite Z.testbit_odd, Z.shiftr_div_pow2 by lia.
    replace (Z.of_nat c / 2 ^ Z.of_nat v) with (Z.of_nat (c / 2 ^ v)).
    - unfold Nat.odd. by rewrite <- even_of_nat, Z.negb_even.
    - by rewrite Nat2Z.inj_div, Nat2Z.inj_pow. }
  rewrite Z.shiftl_1_l. destruct (Nat.even (c / 2 ^ v)) eqn:Eq.
  - apply Z.eqb_eq, Z.bits_inj'. intros i Hi. rewrite Z.land_spec, Z.bits_0, Z.pow2_bits_eqb by lia.
    destruct (Z.eqb_spec (Z.of_nat v) i) as [<-|]; [|by rewrite andb_false_r]. rewrite E. unfold Nat.odd. by rewrite Eq.
  - apply Z.eqb_neq. intros Hz. assert (Z.testbit 0 (Z.of_nat v) = true); [|by rewrite Z.bits_0 in *].
    rewrite <- Hz, Z.land_spec, Z.pow2_bits_true, E by lia. unfold Nat.odd. by rewrite Eq.
Qed.

Section Computation.
Context (leaves : list A).
Abbreviation L k := (level k leaves).
Abbreviation n := (length leaves).

(** A node whose leaves are all present is the combination of its halves. *)
Lemma level_lookup_lt k i : (i < n / 2 ^ k)%nat → is_Some (L k !! i).
Proof. intros Hi. apply lookup_lt_is_Some_2. rewrite level_length. lia. Qed.
Lemma node_pair k i x y :
  L k !! (2 * i)%nat = Some x → L k !! (2 * i + 1)%nat = Some y → L (S k) !! i = Some (combine x y).
Proof. intros Hx Hy. rewrite level_S, (level_up_lookup _ i x Hx), Hy. done. Qed.
Lemma node_odd k i x :
  L k !! (2 * i)%nat = Some x → L k !! (2 * i + 1)%nat = None → L (S k) !! i = Some (combine x x).
Proof. intros Hx Hy. rewrite level_S, (level_up_lookup _ i x Hx), Hy. done. Qed.

(** The branch of the leaf [pos], up to a level. *)
Context (pos : nat).
Definition sibling (k : nat) : A :=
  let i := (pos / 2 ^ k)%nat in
  match L k !! (if Nat.even i then S i else pred i) with Some x => x | None => default blank (L k !! i) end.
Definition siblings (k : nat) : list A := map sibling (seq 0 k).
Lemma siblings_S k : siblings (S k) = siblings k ++ [sibling k].
Proof. unfold siblings. by rewrite seq_S, map_app. Qed.

(** The pair [2i], [2i+1] on level [k] is equal. *)
Definition equal_pair (k i : nat) : Prop := ∃ x, L k !! (2 * i)%nat = Some x ∧ L k !! (2 * i + 1)%nat = Some x.
Definition duplicated_upto (c : nat) : Prop := ∃ k i, equal_pair k i ∧ ((2 * i + 2) * 2 ^ k ≤ c)%nat.

(** Where the leaf [pos] is: in the node being built, or in a stored one. *)
Definition stored (c : nat) (M : nat) : Prop := (M < 32)%nat ∧ Nat.odd (c / 2 ^ M) = true ∧ (pos / 2 ^ M = c / 2 ^ M - 1)%nat.

Record tree_ok (c : nat) (t : tree_state) : Prop := {
  to_count : ts_count t = Z.of_nat c;
  to_length : length (ts_inner t) = 32%nat;
  to_inner : ∀ k, (k < 32)%nat → Nat.odd (c / 2 ^ k) = true → ts_inner t !! k = L k !! (c / 2 ^ k - 1)%nat;
  to_mutated : ts_mutated t = true ↔ duplicated_upto c;
  to_branch : ∀ b, ts_branch t = Some b →
    ((c ≤ pos)%nat ∧ ts_matchlevel t = -1 ∧ b = []) ∨
    ((pos < c)%nat ∧ ∃ M, ts_matchlevel t = Z.of_nat M ∧ stored c M ∧ b = siblings M);
}.

(** The state of the carry for the leaf [c], before level [v]. *)
Record carry_ok (c : nat) (matchlevel : Z) (s : leaf_state) : Prop := {
  co_level : (ls_level s < 32)%nat;
  co_div : ((c + 1) mod 2 ^ ls_level s = 0)%nat;
  co_h : L (ls_level s) !! ((c + 1) / 2 ^ ls_level s - 1)%nat = Some (ls_h s);
  co_mutated : ls_mutated s = true ↔
    duplicated_upto c ∨ ∃ k i, (k < ls_level s)%nat ∧ equal_pair k i ∧ ((2 * i + 2) * 2 ^ k = c + 1)%nat;
  co_branch : ∀ b, ls_branch s = Some b →
    (ls_matchh s = true ∧ (pos / 2 ^ ls_level s = (c + 1) / 2 ^ ls_level s - 1)%nat ∧ b = siblings (ls_level s)) ∨
    (ls_matchh s = false ∧ (c < pos)%nat ∧ matchlevel = -1 ∧ b = []) ∨
    (ls_matchh s = false ∧ (pos < c)%nat ∧ ∃ M, (ls_level s ≤ M)%nat ∧ matchlevel = Z.of_nat M ∧ stored c M ∧ b = siblings M);
}.

(** The finished nodes of the level of a carry come in pairs. *)
Lemma carry_level c s m :
  ((c + 1) mod 2 ^ ls_level s = 0)%nat → m = ((c + 1) / 2 ^ ls_level s)%nat → Nat.even m = true → (c + 1 ≤ 2 ^ 31)%nat →
  ∃ j, (m = 2 * S j ∧ c + 1 = 2 ^ S (ls_level s) * S j ∧ c / 2 ^ ls_level s = 2 * j + 1 ∧
        (c + 1) / 2 ^ S (ls_level s) = S j ∧ S (ls_level s) < 32)%nat.
Proof.
  intros Hd Hm He Hc. set (v := ls_level s) in *. pose proof (succ_div c v Hd) as Hs. rewrite <- Hm in Hs.
  pose proof (div_split (c + 1) v) as [E _]. rewrite Hd, <- Hm in E. apply Nat.even_spec in He as [j' Hj].
  destruct j' as [|j]; [lia|]. exists j.
  assert (E2 : (c + 1 = 2 ^ S v * S j)%nat) by (rewrite Nat.pow_succ_r'; nia).
  split_and!; [done|done|lia| |].
  - rewrite E2, Nat.mul_comm. apply Nat.div_mul. pose proof (pow2_pos (S v)). lia.
  - destruct (Nat.lt_ge_cases (S v) 32) as [|Hge]; [done|exfalso].
    pose proof (Nat.pow_le_mono_r 2 32 (S v) ltac:(lia) Hge). assert (2 ^ S v ≤ c + 1)%nat by nia.
    assert ((2 ^ 32 = 2 * 2 ^ 31)%nat) by (rewrite <- Nat.pow_succ_r'; done). pose proof (pow2_pos 31). lia.
Qed.

Lemma carry_branch c (matchlevel : Z) s j x b' mh' b :
  (∀ b, ls_branch s = Some b →
    (ls_matchh s = true ∧ (pos / 2 ^ ls_level s = (c + 1) / 2 ^ ls_level s - 1)%nat ∧ b = siblings (ls_level s)) ∨
    (ls_matchh s = false ∧ (c < pos)%nat ∧ matchlevel = -1 ∧ b = []) ∨
    (ls_matchh s = false ∧ (pos < c)%nat ∧ ∃ M, (ls_level s ≤ M)%nat ∧ matchlevel = Z.of_nat M ∧ stored c M ∧ b = siblings M)) →
  ((c + 1) / 2 ^ ls_level s = 2 * S j)%nat → (c / 2 ^ ls_level s = 2 * j + 1)%nat →
  L (ls_level s) !! (2 * j)%nat = Some x → L (ls_level s) !! (2 * j + 1)%nat = Some (ls_h s) →
  branch_step (ls_branch s) (ls_matchh s) matchlevel (ls_level s) x (ls_h s) = (b', mh') → b' = Some b →
  (mh' = true ∧ (pos / 2 ^ S (ls_level s) = j)%nat ∧ b = siblings (S (ls_level s))) ∨
  (mh' = false ∧ (c < pos)%nat ∧ matchlevel = -1 ∧ b = []) ∨
  (mh' = false ∧ (pos < c)%nat ∧ ∃ M, (S (ls_level s) ≤ M)%nat ∧ matchlevel = Z.of_nat M ∧ stored c M ∧ b = siblings M).
Proof.
  intros Hb Hm Hc Hx Hh Hstep ->. set (v := ls_level s) in *. unfold branch_step in Hstep.
  destruct (ls_branch s) as [b0|]; [|done]. specialize (Hb b0 eq_refl). rewrite siblings_S.
  assert (Hhalf : ∀ d, (d < 2)%nat → ((2 * j + d) / 2 = j)%nat).
  { intros d Hd. symmetry. by apply Nat.div_unique with d. }
  destruct (ls_matchh s) eqn:Emh.
  - injection Hstep as <- <-. destruct Hb as [(_ & Hp & ->)|[(? & _)|(? & _)]]; [left|done|done].
    assert (Hp' : (pos / 2 ^ v = 2 * j + 1)%nat) by lia. rewrite div_S, Hp'. split_and!; [done|apply Hhalf; lia|].
    unfold sibling. rewrite Hp'. replace (Nat.even (2 * j + 1)) with false by (by rewrite even_double_1).
    replace (pred (2 * j + 1)) with (2 * j)%nat by lia. by rewrite Hx.
  - destruct Hb as [(? & _)|[(_ & Hlt & Hml & ->)|(_ & Hlt & M & HM & Hml & Hst & ->)]]; [done| |].
    + rewrite Hml in Hstep. replace (-1 =? Z.of_nat v) with false in Hstep by lia. injection Hstep as <- <-. right; left. done.
    + destruct (Z.eqb_spec matchlevel (Z.of_nat v)) as [Hev|Hne]; injection Hstep as <- <-.
      * left. assert (M = v) as -> by lia. destruct Hst as (_ & _ & Hp). assert (Hp' : (pos / 2 ^ v = 2 * j)%nat) by lia.
        rewrite div_S, Hp'. split_and!; [done|replace (2 * j)%nat with (2 * j + 0)%nat by lia; apply Hhalf; lia|].
        unfold sibling. rewrite Hp'. replace (Nat.even (2 * j)) with true by (by rewrite Nat.even_mul).
        replace (S (2 * j)) with (2 * j + 1)%nat by lia. by rewrite Hh.
      * right; right. split_and!; [done|done|]. exists M. split_and!; [lia|done|done|done].
Qed.

Lemma carry_step c t s x m b' mh' :
  tree_ok c t → carry_ok c (ts_matchlevel t) s → (c + 1 ≤ 2 ^ 31)%nat → (c < n)%nat →
  m = ((c + 1) / 2 ^ ls_level s)%nat → Nat.even m = true → ts_inner t !! ls_level s = Some x →
  branch_step (ls_branch s) (ls_matchh s) (ts_matchlevel t) (ls_level s) x (ls_h s) = (b', mh') →
  carry_ok c (ts_matchlevel t)
    (mkLeaf (combine x (ls_h s)) mh' (S (ls_level s)) b' (ls_mutated s || bool_decide (x = ls_h s))).
Proof.
  intros Ht [Hlv Hd Hh Hmut Hbr] Hc Hn Hm He Hx Hstep.
  destruct (carry_level c s m Hd Hm He Hc) as (j & Ej & Ec & Eq & EqS & HS).
  rewrite (to_inner _ _ Ht _ Hlv) in Hx by (rewrite Eq, Nat.add_1_r, Nat.odd_succ, Nat.even_mul; done).
  rewrite Eq in Hx. replace (2 * j + 1 - 1)%nat with (2 * j)%nat in Hx by lia.
  rewrite <- Hm, Ej in Hh. replace (2 * S j - 1)%nat with (2 * j + 1)%nat in Hh by lia.
  split; cbn [ls_level ls_h ls_mutated ls_branch ls_matchh].
  - done.
  - rewrite Ec, Nat.mul_comm. apply Nat.Div0.mod_mul.
  - rewrite EqS. replace (S j - 1)%nat with j by lia. by apply node_pair.
  - rewrite orb_true_iff, bool_decide_eq_true, Hmut. rewrite Nat.pow_succ_r' in Ec. pose proof (pow2_pos (ls_level s)). split.
    + intros [[Hd'|(k & i & Hk & He' & Hi)]| ->]; [by left|right; exists k, i; split_and!; [lia|done|done]|].
      right. exists (ls_level s), j. split_and!; [lia|by exists (ls_h s)|nia].
    + intros [Hd'|(k & i & Hk & He' & Hi)]; [by left; left|].
      destruct (decide (k = ls_level s)) as [->|Hne]; [|left; right; exists k, i; split_and!; [lia|done|done]].
      right. assert (i = j) as -> by nia. destruct He' as (y & H1 & H2). congruence.
  - intros b Hb. rewrite EqS. replace (S j - 1)%nat with j by lia.
    apply (carry_branch c (ts_matchlevel t) s j x b' mh' b Hbr); congruence || lia || done.
Qed.

Lemma carry_spec fuel c t s :
  tree_ok c t → carry_ok c (ts_matchlevel t) s → (c + 1 ≤ 2 ^ 31)%nat → (c < n)%nat → (32 ≤ ls_level s + fuel)%nat →
  ∃ s', carry fuel (ts_inner t) (Z.of_nat (c + 1)) (ts_matchlevel t) s = Some s' ∧ carry_ok c (ts_matchlevel t) s' ∧
    Nat.odd ((c + 1) / 2 ^ ls_level s') = true ∧ (ls_branch s' = None ↔ ls_branch s = None).
Proof.
  intros Ht Hs Hc Hn. revert s Hs. induction fuel as [|fuel IH]; intros s Hs Hf; pose proof (co_level _ _ _ Hs) as Hlv; [lia|].
  cbn [carry]. rewrite bit_clear_spec by done. cbn [mbind option_bind].
  destruct (Nat.even ((c + 1) / 2 ^ ls_level s)) eqn:He; [|exists s; unfold Nat.odd; by rewrite He].
  destruct (carry_level c s _ (co_div _ _ _ Hs) eq_refl He Hc) as (j & Ej & Ec & Eq & EqS & HS).
  assert (is_Some (ts_inner t !! ls_level s)) as [x Hx] by (apply lookup_lt_is_Some_2; rewrite (to_length _ _ Ht); done).
  rewrite Hx. cbn [mbind option_bind].
  destruct (branch_step (ls_branch s) (ls_matchh s) (ts_matchlevel t) (ls_level s) x (ls_h s)) as [b' mh'] eqn:Eb.
  pose proof (carry_step c t s x _ b' mh' Ht Hs Hc Hn eq_refl He Hx Eb) as Hs'.
  destruct (IH _ Hs' ltac:(cbn [ls_level]; lia)) as (s' & E1 & E2 & E3 & E4).
  exists s'. split_and!; [exact E1|exact E2|exact E3|]. rewrite E4. cbn [ls_branch].
  unfold branch_step in Eb. destruct (ls_branch s); [destruct (ls_matchh s); [|destruct (_ =? _)]|]; by simplify_eq.
Qed.

(** The initial state of the carry. *)
Lemma carry_start c t leaf branchpos :
  tree_ok c t → leaves !! c = Some leaf → (ts_branch t ≠ None → branchpos = Z.of_nat pos) →
  carry_ok c (ts_matchlevel t) (mkLeaf leaf (ts_count t =? branchpos) 0 (ts_branch t) (ts_mutated t)).
Proof.
  intros Ht Hl Hbp. split; cbn [ls_level ls_h ls_mutated ls_branch ls_matchh].
  - lia.
  - apply Nat.mod_1_r.
  - change (2 ^ 0)%nat with 1%nat. rewrite Nat.div_1_r. by replace (c + 1 - 1)%nat with c by lia.
  - rewrite (to_mutated _ _ Ht). split; [by left|]. intros [|(? & ? & ? & _)]; [done|lia].
  - intros b Hb. rewrite Hbp by congruence. rewrite (to_count _ _ Ht). change (2 ^ 0)%nat with 1%nat. rewrite !Nat.div_1_r.
    destruct (to_branch _ _ Ht b Hb) as [(Hle & Hm & ->)|(Hlt & M & Hm & Hst & ->)].
    + destruct (decide (c = pos)) as [->|Hne]; [left; split_and!; [lia|lia|done]|].
      right; left. split_and!; [lia|lia|done|done].
    + right; right. split_and!; [lia|done|]. exists M. split_and!; [lia|done|done|done].
Qed.


Lemma add_leaf_spec c t leaf branchpos :
  tree_ok c t → leaves !! c = Some leaf → (ts_branch t ≠ None → branchpos = Z.of_nat pos) → (c + 1 ≤ 2 ^ 31)%nat →
  ∃ t', add_leaf branchpos t leaf = Some t' ∧ tree_ok (c + 1) t' ∧ (ts_branch t' = None ↔ ts_branch t = None).
Proof.
  intros Ht Hl Hbp Hc. pose proof (lookup_lt_Some _ _ _ Hl) as Hn. unfold add_leaf.
  assert (Hu : u32 (ts_count t + 1) = Z.of_nat (c + 1)).
  { rewrite (to_count _ _ Ht). assert (Z.of_nat (c + 1) ≤ 2 ^ 31) by (replace (2 ^ 31) with (Z.of_nat (2 ^ 31)) by (by rewrite Nat2Z.inj_pow); lia).
    rewrite u32_small by word_lia. lia. }
  rewrite Hu. destruct (carry_spec 32 c t _ Ht (carry_start c t leaf branchpos Ht Hl Hbp) Hc Hn ltac:(cbn; lia))
    as (s & Es & Hs & Ho & Hbn). rewrite Es. cbn [mbind option_bind]. cbn [ls_branch] in Hbn.
  pose proof (co_level _ _ _ Hs) as Hlv. pose proof (co_div _ _ _ Hs) as Hd. rewrite (to_length _ _ Ht).
  destruct (Nat.ltb_spec (ls_level s) 32) as [_|]; [|lia]. eexists. split; [reflexivity|]. split; [|done].
  split; cbn [ts_count ts_inner ts_matchlevel ts_branch ts_mutated].
  - done.
  - rewrite length_insert. apply (to_length _ _ Ht).
  - intros k Hk Hok. destruct (lt_eq_lt_dec k (ls_level s)) as [[Hlt| ->]|Hgt].
    + by rewrite (bits_below c (ls_level s) Hd k Hlt) in Hok.
    + rewrite list_lookup_insert_eq by (rewrite (to_length _ _ Ht); done). symmetry. apply (co_h _ _ _ Hs).
    + rewrite list_lookup_insert_ne by lia. rewrite (bits_above c (ls_level s) Hd Ho k Hgt) in *. by apply (to_inner _ _ Ht).
  - rewrite (co_mutated _ _ _ Hs). split.
    + intros [(k & i & He & Hi)|(k & i & Hk & He & Hi)]; exists k, i; (split; [done|lia]).
    + intros (k & i & He & Hi). destruct (decide ((2 * i + 2) * 2 ^ k ≤ c)%nat); [left; by exists k, i|right].
      exists k, i. assert (Ei : ((2 * i + 2) * 2 ^ k = c + 1)%nat) by lia. split_and!; [|done|done].
      destruct (Nat.lt_ge_cases k (ls_level s)) as [|Hge]; [done|exfalso].
      assert (Hodd : Nat.odd ((c + 1) / 2 ^ k) = false).
      { rewrite <- Ei, Nat.div_mul by (pose proof (pow2_pos k); lia). replace (2 * i + 2)%nat with (2 * (i + 1))%nat by lia. by rewrite Nat.odd_mul. }
      destruct (decide (k = ls_level s)) as [->|]; [congruence|].
      assert (Hz : ((c + 1) mod 2 ^ k = 0)%nat) by (rewrite <- Ei; apply Nat.Div0.mod_mul).
      pose proof (bits_above c (ls_level s) Hd Ho k ltac:(lia)). pose proof (succ_div c k Hz). lia.
  - intros b Hb. destruct (co_branch _ _ _ Hs b Hb) as [(-> & Hp & ->)|[(-> & Hp & Hm & ->)|(-> & Hp & M & HM & Hm & Hst & ->)]].
    + right. assert (pos < c + 1)%nat.
      { pose proof (div_split pos (ls_level s)) as [E1 E2]. pose proof (div_split (c + 1) (ls_level s)) as [E3 E4].
        pose proof (odd_pos _ Ho). nia. }
      split; [done|]. exists (ls_level s). split_and!; [done| |done]. by split_and!.
    + left. split_and!; [lia|done|done].
    + right. split; [lia|]. exists M. split_and!; [done| |done]. destruct Hst as (HM32 & HoM & HpM).
      assert (HMv : M ≠ ls_level s).
      { intros ->. pose proof (succ_div c (ls_level s) Hd) as E. rewrite E, Nat.odd_succ in Ho. unfold Nat.odd in HoM. by rewrite Ho in HoM. }
      unfold stored. rewrite (bits_above c (ls_level s) Hd Ho M) by lia. by split_and!.
Qed.

Lemma add_leaves_spec rest c t branchpos :
  tree_ok c t → drop c leaves = rest → (c ≤ n)%nat → (ts_branch t ≠ None → branchpos = Z.of_nat pos) → (n ≤ 2 ^ 31)%nat →
  ∃ t', add_leaves branchpos t rest = Some t' ∧ tree_ok n t' ∧ (ts_branch t' = None ↔ ts_branch t = None).
Proof.
  intros Ht Hr Hcn Hbp Hn. revert c t Ht Hr Hcn Hbp. induction rest as [|leaf rest IH]; intros c t Ht Hr Hcn Hbp.
  - exists t. assert (c = n) as -> by (apply (f_equal length) in Hr; rewrite length_drop in Hr; cbn in Hr; lia). done.
  - assert (Hl : leaves !! c = Some leaf).
    { replace c with (c + 0)%nat by lia. rewrite <- lookup_drop, Hr. done. }
    pose proof (lookup_lt_Some _ _ _ Hl) as Hlt. cbn [add_leaves].
    destruct (add_leaf_spec c t leaf branchpos Ht Hl Hbp ltac:(lia)) as (t1 & -> & Ht1 & Hb1). cbn [mbind option_bind].
    destruct (IH (c + 1)%nat t1 Ht1) as (t' & E1 & E2 & E3).
    + rewrite <- drop_drop, Hr. done.
    + lia.
    + rewrite Hb1. done.
    + exists t'. split_and!; [done|done|]. by rewrite E3, Hb1.
Qed.

(** ** Proofs: the sweep *)
Abbreviation N k := (length (level k leaves)).

Lemma N_S v : N (S v) = ((N v + 1) / 2)%nat.
Proof. by rewrite level_S, length_level_up. Qed.
Lemma N_bound v : (n ≤ 2 ^ 31)%nat → (v ≤ 31)%nat → (N v * 2 ^ v ≤ 2 ^ 31)%nat.
Proof.
  intros Hn Hv. replace (2 ^ 31)%nat with (2 ^ (31 - v) * 2 ^ v)%nat in * by (rewrite <- Nat.pow_add_r; f_equal; lia).
  apply Nat.mul_le_mono_r. rewrite level_length. pose proof (div_split n v) as [E R]. pose proof (pow2_pos v).
  set (q := (n / 2 ^ v)%nat) in *. set (r := (n mod 2 ^ v)%nat) in *. set (B := (2 ^ (31 - v))%nat) in *.
  destruct (Nat.eqb_spec r 0); nia.
Qed.

Record sweep_ok (matchlevel : Z) (s : leaf_state) : Prop := {
  so_level : (ls_level s < 32)%nat;
  so_pow : (2 ^ ls_level s < 2 * n)%nat;
  so_h : L (ls_level s) !! (N (ls_level s) - 1)%nat = Some (ls_h s);
  so_branch : ∀ b, ls_branch s = Some b →
    (ls_matchh s = true ∧ (pos / 2 ^ ls_level s = N (ls_level s) - 1)%nat ∧ b = siblings (ls_level s)) ∨
    (ls_matchh s = false ∧ ∃ M, (ls_level s ≤ M)%nat ∧ matchlevel = Z.of_nat M ∧ stored n M ∧ b = siblings M);
}.
(** Besides, no stored node waits on the level itself. *)
Definition sweep_ready (matchlevel : Z) (s : leaf_state) : Prop :=
  sweep_ok matchlevel s ∧ Nat.odd (N (ls_level s)) = true ∧
  (ls_branch s ≠ None → ls_matchh s = false → matchlevel ≠ Z.of_nat (ls_level s)).

Lemma partial_level v : (n mod 2 ^ v ≠ 0 → N v = n / 2 ^ v + 1)%nat.
Proof. intros Hp. rewrite level_length. destruct (Nat.eqb_spec (n mod 2 ^ v) 0); lia. Qed.

Lemma propagate_step t s x j b' mh' :
  tree_ok n t → sweep_ok (ts_matchlevel t) s → (n ≤ 2 ^ 31)%nat → (n mod 2 ^ ls_level s ≠ 0)%nat →
  N (ls_level s) = (2 * S j)%nat → ts_inner t !! ls_level s = Some x →
  branch_step (ls_branch s) (ls_matchh s) (ts_matchlevel t) (ls_level s) x (ls_h s) = (b', mh') →
  sweep_ok (ts_matchlevel t) (mkLeaf (combine x (ls_h s)) mh' (S (ls_level s)) b' (ls_mutated s)) ∧
  N (S (ls_level s)) = S j ∧ (n mod 2 ^ S (ls_level s) ≠ 0)%nat.
Proof.
  intros Ht [Hlv Hpow Hh Hbr] Hn Hpart Ej Hx Hstep. set (v := ls_level s) in *.
  pose proof (partial_level v Hpart) as HN. assert (Eq : (n / 2 ^ v = 2 * j + 1)%nat) by lia.
  rewrite (to_inner _ _ Ht v Hlv) in Hx by (rewrite Eq, Nat.add_1_r, Nat.odd_succ, Nat.even_mul; done).
  rewrite Eq in Hx. replace (2 * j + 1 - 1)%nat with (2 * j)%nat in Hx by lia.
  rewrite Ej in Hh. replace (2 * S j - 1)%nat with (2 * j + 1)%nat in Hh by lia.
  assert (EN : N (S v) = S j).
  { rewrite N_S, Ej. symmetry. apply Nat.div_unique with 1%nat; lia. }
  split; [|split; [done|]].
  2: { intros Hz. apply Hpart. apply (divides_le _ v (S v)); [lia|done]. }
  split; cbn [ls_level ls_h ls_mutated ls_branch ls_matchh].
  - pose proof (N_bound v Hn ltac:(lia)) as HB. destruct (Nat.lt_ge_cases (S v) 32) as [|Hge]; [done|].
    assert (v = 31%nat) as Hv by lia. rewrite Ej, Hv in HB. pose proof (pow2_pos 31). lia.
  - pose proof (div_split n v) as [E R]. rewrite Nat.pow_succ_r'. nia.
  - rewrite EN. replace (S j - 1)%nat with j by lia. by apply node_pair.
  - intros b ->. unfold branch_step in Hstep. destruct (ls_branch s) as [b0|]; [|done]. rewrite siblings_S, EN.
    assert (Hhalf : ∀ d, (d < 2)%nat → ((2 * j + d) / 2 = j)%nat) by (intros d Hd; symmetry; by apply Nat.div_unique with d).
    destruct (ls_matchh s) eqn:Emh.
    + injection Hstep as <- <-. destruct (Hbr b0 eq_refl) as [(_ & Hp & ->)|(? & _)]; [left|done].
      assert (Hp' : (pos / 2 ^ v = 2 * j + 1)%nat) by lia. rewrite div_S, Hp', Hhalf by lia. split_and!; [done|lia|].
      unfold sibling. rewrite Hp'. replace (Nat.even (2 * j + 1)) with false by (by rewrite even_double_1).
      replace (pred (2 * j + 1)) with (2 * j)%nat by lia. by rewrite Hx.
    + destruct (Hbr b0 eq_refl) as [(? & _)|(_ & M & HM & Hml & Hst & ->)]; [done|].
      destruct (Z.eqb_spec (ts_matchlevel t) (Z.of_nat v)) as [Hev|Hne]; injection Hstep as <- <-.
      * left. assert (M = v) as -> by lia. destruct Hst as (_ & _ & Hp). assert (Hp' : (pos / 2 ^ v = 2 * j + 0)%nat) by lia.
        rewrite div_S, Hp', Hhalf by lia. split_and!; [done|lia|].
        unfold sibling. rewrite Hp', Nat.add_0_r. replace (Nat.even (2 * j)) with true by (by rewrite Nat.even_mul).
        replace (S (2 * j)) with (2 * j + 1)%nat by lia. by rewrite Hh.
      * right. split; [done|]. exists M. split_and!; [lia|done|done|done].
Qed.

Lemma propagate_spec fuel t s :
  tree_ok n t → sweep_ok (ts_matchlevel t) s → (n ≤ 2 ^ 31)%nat → (n mod 2 ^ ls_level s ≠ 0)%nat → (32 ≤ ls_level s + fuel)%nat →
  ∃ s', propagate fuel (ts_inner t) (Z.of_nat (N (ls_level s) * 2 ^ ls_level s)) (ts_matchlevel t) s = Some s' ∧
    sweep_ready (ts_matchlevel t) s' ∧ (ls_level s ≤ ls_level s')%nat ∧
    (N (ls_level s') * 2 ^ ls_level s' = N (ls_level s) * 2 ^ ls_level s)%nat ∧ (ls_branch s' = None ↔ ls_branch s = None).
Proof.
  intros Ht Hs Hn. revert s Hs. induction fuel as [|fuel IH]; intros s Hs Hpart Hf; pose proof (so_level _ _ Hs) as Hlv; [lia|].
  cbn [propagate]. rewrite bit_clear_spec, Nat.div_mul by (done || (pose proof (pow2_pos (ls_level s)); lia)). cbn [mbind option_bind].
  destruct (Nat.even (N (ls_level s))) eqn:He.
  - apply Nat.even_spec in He as [j' Ej]. destruct j' as [|j].
    { pose proof (partial_level _ Hpart). lia. }
    assert (is_Some (ts_inner t !! ls_level s)) as [x Hx] by (apply lookup_lt_is_Some_2; rewrite (to_length _ _ Ht); done).
    rewrite Hx. cbn [mbind option_bind].
    destruct (branch_step (ls_branch s) (ls_matchh s) (ts_matchlevel t) (ls_level s) x (ls_h s)) as [b' mh'] eqn:Eb.
    destruct (propagate_step t s x j b' mh' Ht Hs Hn Hpart Ej Hx Eb) as (Hs' & EN & Hpart').
    assert (EC : (N (S (ls_level s)) * 2 ^ S (ls_level s) = N (ls_level s) * 2 ^ ls_level s)%nat).
    { rewrite EN, Ej, Nat.pow_succ_r'. lia. }
    destruct (IH _ Hs' Hpart' ltac:(cbn [ls_level]; lia)) as (s' & E1 & E2 & E3 & E4 & E5). cbn [ls_level ls_branch] in *.
    rewrite EC in E1, E4. exists s'. split_and!; [exact E1|exact E2|lia|exact E4|]. rewrite E5.
    unfold branch_step in Eb. destruct (ls_branch s); [destruct (ls_matchh s); [|destruct (_ =? _)]|]; by simplify_eq.
  - exists s. split_and!; [done| |done|done|done]. split; [done|]. unfold Nat.odd. rewrite He. split; [done|].
    intros Hb Hmh Hml. destruct (ls_branch s) as [b|] eqn:Eb; [|done].
    destruct (so_branch _ _ Hs b Eb) as [(? & _)|(_ & M & HM & Hml' & (_ & Ho & _) & _)]; [congruence|].
    assert (M = ls_level s) as -> by lia. pose proof (partial_level _ Hpart) as HN.
    rewrite HN, Nat.add_1_r, Nat.even_succ in He. congruence.
Qed.

(** The node that is combined with itself. *)
Lemma sweep_step ml s j :
  sweep_ready ml s → (n ≤ 2 ^ 31)%nat → N (ls_level s) = (2 * S j + 1)%nat →
  sweep_ok ml (mkLeaf (combine (ls_h s) (ls_h s)) (ls_matchh s) (S (ls_level s))
    (match ls_branch s with Some b => Some (if ls_matchh s then b ++ [ls_h s] else b) | None => None end) (ls_mutated s)) ∧
  N (S (ls_level s)) = S (S j) ∧ (n mod 2 ^ S (ls_level s) ≠ 0)%nat.
Proof.
  intros ([Hlv Hpow Hh Hbr] & Ho & Hready) Hn Ej. set (v := ls_level s) in *.
  assert (EN : N (S v) = S (S j)).
  { rewrite N_S, Ej. symmetry. apply Nat.div_unique with 0%nat; lia. }
  assert (Hlast : L v !! (2 * S j)%nat = Some (ls_h s)).
  { rewrite <- Hh, Ej. f_equal. lia. }
  assert (Hnone : L v !! (2 * S j + 1)%nat = None) by (apply lookup_ge_None_2; lia).
  split; [|split; [done|]].
  2: { intros [Hz He]%divides_S. rewrite level_length in Ej. rewrite Hz, Nat.eqb_refl in Ej.
       rewrite Nat.add_0_r in Ej. rewrite Ej, even_double_1 in He. done. }
  split; cbn [ls_level ls_h ls_mutated ls_branch ls_matchh].
  - pose proof (N_bound v Hn ltac:(lia)) as HB. destruct (Nat.lt_ge_cases (S v) 32) as [|Hge]; [done|].
    assert (v = 31%nat) as Hv by lia. rewrite Ej, Hv in HB. pose proof (pow2_pos 31). lia.
  - pose proof (div_split n v) as [E R]. pose proof (level_length v leaves) as HL. rewrite Ej in HL.
    rewrite Nat.pow_succ_r'. set (q := (n / 2 ^ v)%nat) in *. destruct (n mod 2 ^ v =? 0)%nat; nia.
  - rewrite EN. replace (S (S j) - 1)%nat with (S j) by lia. by apply node_odd.
  - intros b Hb. destruct (ls_branch s) as [b0|]; [|done]. injection Hb as <-. rewrite siblings_S, EN.
    destruct (ls_matchh s) eqn:Emh.
    + destruct (Hbr b0 eq_refl) as [(_ & Hp & ->)|(? & _)]; [left|done].
      assert (Hp' : (pos / 2 ^ v = 2 * S j)%nat) by lia. rewrite div_S, Hp'.
      split_and!; [done|symmetry; apply Nat.div_unique with 0%nat; lia|].
      unfold sibling. rewrite Hp'. replace (Nat.even (2 * S j)) with true by (by rewrite Nat.even_mul).
      replace (S (2 * S j)) with (2 * S j + 1)%nat by lia. by rewrite Hnone, Hlast.
    + destruct (Hbr b0 eq_refl) as [(? & _)|(_ & M & HM & Hml & Hst & ->)]; [done|].
      right. split; [done|]. specialize (Hready ltac:(done) eq_refl). exists M. split_and!; [lia|done|done|done].
Qed.

Lemma sweep_spec fuel t s :
  tree_ok n t → sweep_ready (ts_matchlevel t) s → (n ≤ 2 ^ 31)%nat → (32 ≤ ls_level s + fuel)%nat →
  ∃ s', sweep fuel (ts_inner t) (Z.of_nat (N (ls_level s) * 2 ^ ls_level s)) (ts_matchlevel t) s = Some s' ∧
    sweep_ok (ts_matchlevel t) s' ∧ N (ls_level s') = 1%nat ∧ (ls_branch s' = None ↔ ls_branch s = None).
Proof.
  intros Ht Hs Hn. revert s Hs. induction fuel as [|fuel IH]; intros s Hs Hf; pose proof (so_level _ _ (proj1 Hs)) as Hlv; [lia|].
  cbn [sweep]. destruct (Nat.ltb_spec (ls_level s) 32) as [_|]; [|lia]. set (v := ls_level s) in *.
  pose proof (pow2_pos v). assert (EP : Z.shiftl 1 (Z.of_nat v) = Z.of_nat (2 ^ v)) by (by rewrite Z.shiftl_1_l, Nat2Z.inj_pow).
  rewrite EP. destruct (Z.eqb_spec (Z.of_nat (N v * 2 ^ v)) (Z.of_nat (2 ^ v))) as [He|Hne].
  { exists s. split_and!; [done|apply Hs| |done]. fold v. nia. }
  destruct Hs as (Hok & Ho & Hready). pose proof Ho as Ho'. apply Nat.odd_spec in Ho' as [j' Ej]. fold v in Ej. destruct j' as [|j]; [nia|].
  destruct (sweep_step (ts_matchlevel t) s j (conj Hok (conj Ho Hready)) Hn Ej) as (Hs' & EN & Hpart). fold v in Hs', EN, Hpart.
  assert (EC : u32 (Z.of_nat (N v * 2 ^ v) + Z.of_nat (2 ^ v)) = Z.of_nat (N (S v) * 2 ^ S v)).
  { pose proof (so_level _ _ Hs') as HSv. cbn [ls_level] in HSv.
    pose proof (N_bound (S v) Hn ltac:(lia)) as HB.
    assert (Z.of_nat (N (S v) * 2 ^ S v) ≤ 2 ^ 31) by (replace (2 ^ 31) with (Z.of_nat (2 ^ 31)) by (by rewrite Nat2Z.inj_pow); lia).
    rewrite <- Nat2Z.inj_add. replace (N v * 2 ^ v + 2 ^ v)%nat with (N (S v) * 2 ^ S v)%nat; [apply u32_small; word_lia|].
    rewrite EN, Ej, Nat.pow_succ_r'. lia. }
  rewrite EC.
  destruct (propagate_spec 32 t _ Ht Hs' Hn Hpart ltac:(lia)) as (s1 & E1 & E2 & E3 & E4 & E5).
  cbn [ls_level ls_branch] in E1, E3, E4, E5. rewrite E1. cbn [mbind option_bind]. rewrite <- E4.
  destruct (IH s1 E2 ltac:(lia)) as (s' & F1 & F2 & F3 & F4).
  exists s'. split_and!; [exact F1|exact F2|exact F3|]. rewrite F4, E5. by destruct (ls_branch s).
Qed.

(** ** Proofs: the whole computation *)
Lemma tree_start branch : (branch = None ∨ branch = Some []) → tree_ok 0 (mkTree 0 (replicate 32 blank) (-1) branch false).
Proof.
  intros Hb. split; cbn [ts_count ts_inner ts_matchlevel ts_branch ts_mutated].
  - done.
  - apply length_replicate.
  - intros k _ Ho. by rewrite Nat.Div0.div_0_l in Ho.
  - split; [done|]. intros (k & i & _ & Hi). pose proof (pow2_pos k). nia.
  - intros b ->. left. destruct Hb as [?|[= <-]]; [done|]. split_and!; [lia|done|done].
Qed.

Lemma skip_levels_spec fuel v :
  (0 < n ≤ 2 ^ 31)%nat → (v < 32)%nat → (n mod 2 ^ v = 0)%nat → (32 ≤ v + fuel)%nat →
  ∃ v', skip_levels fuel (Z.of_nat n) v = Some v' ∧ (v' < 32)%nat ∧ (n mod 2 ^ v' = 0)%nat ∧ Nat.odd (n / 2 ^ v') = true.
Proof.
  intros Hn. revert v. induction fuel as [|fuel IH]; intros v Hv Hd Hf; [lia|].
  cbn [skip_levels]. rewrite bit_clear_spec by done. cbn [mbind option_bind].
  destruct (Nat.even (n / 2 ^ v)) eqn:He; [|exists v; unfold Nat.odd; by rewrite He].
  assert (Hd' : (n mod 2 ^ S v = 0)%nat) by (by apply divides_S).
  apply IH; [|done|lia]. pose proof (div_split n (S v)) as [E _]. rewrite Hd', Nat.add_0_r in E.
  destruct (Nat.lt_ge_cases (S v) 32) as [|Hge]; [done|exfalso].
  pose proof (Nat.pow_le_mono_r 2 32 (S v) ltac:(lia) Hge).
  assert (2 ^ S v ≤ n)%nat.
  { destruct (n / 2 ^ S v)%nat as [|q]; [lia|]. rewrite E. apply Nat.le_mul_r. lia. }
  assert ((2 ^ 32 = 2 * 2 ^ 31)%nat) by (rewrite <- Nat.pow_succ_r'; done). pose proof (pow2_pos 31). lia.
Qed.

Lemma MerkleComputation_spec (branchpos : Z) (pbranch : bool) :
  (0 < n ≤ 2 ^ 31)%nat → (pbranch = true → (pos < n)%nat ∧ branchpos = Z.of_nat pos) →
  ∃ v root mutated branch,
    MerkleComputation leaves branchpos pbranch = Some (root, mutated, branch) ∧
    L v = [root] ∧ (2 ^ v < 2 * n)%nat ∧ (mutated = true ↔ duplicated_upto n) ∧
    branch = (if pbranch then Some (siblings v) else None).
Proof.
  intros Hn Hp. unfold MerkleComputation. set (branch := if pbranch then Some [] else None).
  destruct (add_leaves_spec leaves 0 (mkTree 0 (replicate 32 blank) (-1) branch false) branchpos) as (t & Et & Ht & Hb).
  { apply tree_start. unfold branch. destruct pbranch; auto. }
  { done. } { lia. } { cbn. intros Hne. apply Hp. unfold branch in Hne. by destruct pbranch. } { lia. }
  assert (Hmatch : ∀ T (a b : T), match leaves with [] => a | _ => b end = b) by (intros; destruct leaves; [cbn [length] in Hn; lia|done]).
  rewrite Hmatch, Et. cbn [mbind option_bind].
  rewrite (to_count _ _ Ht).
  destruct (skip_levels_spec 32 0 Hn ltac:(lia) ltac:(apply Nat.mod_1_r) ltac:(lia)) as (v & Ev & Hv & Hd & Ho).
  rewrite Ev. cbn [mbind option_bind].
  assert (EN : N v = (n / 2 ^ v)%nat) by (rewrite level_length, Hd, Nat.eqb_refl; lia).
  pose proof (odd_pos _ Ho) as Hpos. pose proof (div_split n v) as [E _]. rewrite Hd, Nat.add_0_r in E.
  assert (is_Some (L v !! (N v - 1)%nat)) as [h Hh] by (apply lookup_lt_is_Some_2; lia).
  rewrite (to_inner _ _ Ht v Hv Ho), <- EN, Hh. cbn [mbind option_bind].
  set (s0 := mkLeaf h (ts_matchlevel t =? Z.of_nat v) v (ts_branch t) (ts_mutated t)).
  assert (Hs0 : sweep_ready (ts_matchlevel t) s0).
  { unfold s0. split; [|split; cbn [ls_level ls_branch ls_matchh]; [by rewrite EN|lia]]. split; cbn [ls_level ls_h ls_branch ls_matchh].
    - done.
    - nia.
    - done.
    - intros b Eb. assert (Hpb : pbranch = true).
      { destruct pbranch; [done|]. rewrite (proj2 Hb) in Eb by done. done. }
      destruct (Hp Hpb) as [Hpn _]. destruct (to_branch _ _ Ht b Eb) as [(? & _)|(_ & M & Hml & Hst & ->)]; [lia|].
      pose proof Hst as (HM & HoM & HpM). destruct (Z.eqb_spec (ts_matchlevel t) (Z.of_nat v)) as [Hev|Hne].
      + left. assert (M = v) as -> by lia. split_and!; [done|lia|done].
      + right. split; [done|]. exists M. split_and!; [|done|done|done].
        destruct (Nat.lt_ge_cases M v) as [Hlt|]; [exfalso|lia].
        pose proof (divides_le n (S M) v Hlt Hd) as Hz. apply divides_S in Hz as [_ He]. unfold Nat.odd in HoM. by rewrite He in HoM. }
  replace (Z.of_nat n) with (Z.of_nat (N (ls_level s0) * 2 ^ ls_level s0)) by (unfold s0; cbn [ls_level]; rewrite EN; f_equal; lia).
  destruct (sweep_spec 32 t s0 Ht Hs0 ltac:(lia) ltac:(cbn; lia)) as (s & Es & Hs & HN1 & Hbs).
  rewrite Es. cbn [mbind option_bind].
  exists (ls_level s), (ls_h s), (ts_mutated t), (ls_branch s). split_and!; [done| |apply Hs|apply (to_mutated _ _ Ht)|].
  - pose proof (so_h _ _ Hs) as Hroot. rewrite HN1 in Hroot. cbn in Hroot.
    destruct (L (ls_level s)) as [|x [|y l]]; cbn in HN1, Hroot; try lia. congruence.
  - destruct (ls_branch s) as [b|] eqn:Eb.
    + assert (pbranch = true) as ->.
      { destruct pbranch; [done|]. assert (ts_branch t = None) as H1 by (by apply Hb). pose proof (proj2 Hbs H1). done. }
      destruct (so_branch _ _ Hs b Eb) as [(_ & _ & ->)|(_ & M & HM & _ & (_ & HoM & _) & ->)]; [done|].
      pose proof (odd_pos _ HoM) as HM1. pose proof (div_split n M) as [EM _].
      pose proof (level_length (ls_level s) leaves) as HL. rewrite HN1 in HL. pose proof (div_split n (ls_level s)) as [ES ER].
      assert (n ≤ 2 ^ ls_level s)%nat by (destruct (Nat.eqb_spec (n mod 2 ^ ls_level s) 0); nia).
      assert (M = ls_level s) as ->; [|done]. destruct (decide (M = ls_level s)) as [|Hne]; [done|exfalso].
      pose proof (Nat.pow_lt_mono_r 2 (ls_level s) M ltac:(lia) ltac:(lia)). nia.
    + destruct pbranch; [|done]. assert (ts_branch t = None) as H1 by (by apply Hbs). apply Hb in H1. done.
Qed.
End Computation.

(** ** Proofs: the tree *)

(** All the levels below [v] have two nodes or more. *)
Definition tall (v : nat) (l : list A) : Prop := ∀ k, (k < v)%nat → (2 ≤ length (level k l))%nat.
Lemma tall_pow v l : (2 ^ v < 2 * length l)%nat → tall v l.
Proof.
  intros Hv k Hk. pose proof (Nat.pow_le_mono_r 2 (S k) v ltac:(lia) Hk) as Hle. rewrite Nat.pow_succ_r' in Hle.
  rewrite level_length. pose proof (div_split (length l) k) as [E R]. pose proof (pow2_pos k).
  set (q := (length l / 2 ^ k)%nat) in *. set (r := (length l mod 2 ^ k)%nat) in *. set (P := (2 ^ k)%nat) in *.
  assert (1 ≤ q)%nat by nia. destruct (Nat.eqb_spec r 0); [|lia]. assert (q ≠ 1)%nat by nia. lia.
Qed.
Lemma tall_up v l : tall (S v) l → tall v (level_up l).
Proof. intros H k Hk. rewrite <- level_S'. apply H. lia. Qed.

Lemma duplicated_iff l : duplicated_upto l (length l) ↔ duplicated l.
Proof.
  split; [intros (k & i & (x & H1 & H2) & H3)|intros (k & i & x & H1 & H2 & H3)].
  - by exists k, i, x.
  - exists k, i. split; [by exists x|done].
Qed.
(** The height is the logarithm of the size, rounded up. *)
Lemma height_log2 v l x : (2 ^ v < 2 * length l)%nat → level v l = [x] → v = Nat.log2_up (length l).
Proof.
  intros Hv Hl. symmetry. apply (f_equal length) in Hl. cbn [length] in Hl. rewrite level_length in Hl.
  pose proof (div_split (length l) v) as [E R].
  assert (Hle : (length l ≤ 2 ^ v)%nat) by (destruct (Nat.eqb_spec (length l mod 2 ^ v) 0); nia).
  destruct v as [|v]; [cbn in Hv, Hle; by replace (length l) with 1%nat by lia|].
  apply Nat.log2_up_unique; [lia|]. cbn [pred]. rewrite Nat.pow_succ_r' in *. lia.
Qed.

Lemma tree_root_level v fuel l x : (v ≤ fuel)%nat → tall v l → level v l = [x] → tree_root fuel l = x.
Proof.
  revert fuel l. induction v as [|v IH]; intros fuel l Hf Ht Hl.
  - cbn in Hl. subst. by destruct fuel.
  - destruct fuel as [|fuel]; [lia|]. specialize (Ht 0%nat ltac:(lia)) as H2. change (level 0 l) with l in H2.
    destruct l as [|a [|b l]]; cbn [length] in H2; [lia|lia|]. cbn [tree_root]. rewrite level_S' in Hl.
    apply IH; [lia|by apply tall_up|done].
Qed.

Lemma siblings_cons l pos v :
  siblings l pos (S v) = sibling l pos 0 :: siblings (level_up l) (pos / 2) v.
Proof.
  unfold siblings. cbn [seq map]. f_equal. rewrite <- seq_shift, map_map. apply map_ext. intros k.
  unfold sibling. rewrite div_S, !level_S'.
  by replace (pos / 2 / 2 ^ k)%nat with (pos / 2 ^ k / 2)%nat by (rewrite !Nat.Div0.div_div; f_equal; lia).
Qed.
Lemma tree_branch_level v fuel l pos x : (v ≤ fuel)%nat → tall v l → level v l = [x] → tree_branch fuel l pos = siblings l pos v.
Proof.
  revert fuel l pos. induction v as [|v IH]; intros fuel l pos Hf Ht Hl.
  - cbn in Hl. subst. by destruct fuel.
  - destruct fuel as [|fuel]; [lia|]. specialize (Ht 0%nat ltac:(lia)) as H2. change (level 0 l) with l in H2.
    rewrite siblings_cons. destruct l as [|a [|b l]]; cbn [length] in H2; [lia|lia|]. rewrite level_S' in Hl.
    rewrite <- (IH fuel (level_up (a :: b :: l)) (pos / 2)%nat ltac:(lia) (tall_up _ _ Ht) Hl).
    cbn [tree_branch]. f_equal. unfold sibling. change (2 ^ 0)%nat with 1%nat. by rewrite Nat.div_1_r.
Qed.

(** A branch leads from its leaf to the root. *)
Lemma branch_root v l pos leaf x :
  l !! pos = Some leaf → tall v l → level v l = [x] → root_from_branch leaf (siblings l pos v) (Z.of_nat pos) = x.
Proof.
  revert l pos leaf. induction v as [|v IH]; intros l pos leaf Hp Ht Hl.
  - cbn in Hl. subst l. destruct pos; [by injection Hp|done].
  - rewrite siblings_cons. cbn [root_from_branch]. rewrite level_S' in Hl.
    assert (Eland : (Z.land (Z.of_nat pos) 1 =? 0) = Nat.even pos).
    { rewrite (land_mask _ 1 1) by (reflexivity || lia). change (2 ^ 1) with 2. by rewrite <- even_of_nat, Zeven_mod. }
    assert (Eshr : Z.shiftr (Z.of_nat pos) 1 = Z.of_nat (pos / 2)) by (rewrite shr_div by lia; by rewrite Nat2Z.inj_div).
    rewrite Eland, Eshr. apply IH; [|by apply tall_up|done].
    unfold sibling. change (2 ^ 0)%nat with 1%nat. rewrite Nat.div_1_r. change (level 0 l) with l.
    pose proof (Nat.div_mod_eq pos 2) as Ed. destruct (Nat.even pos) eqn:He; cbn [negb].
    + apply Nat.even_spec in He as [i ->]. rewrite (Nat.mul_comm 2 i), Nat.div_mul, (Nat.mul_comm i 2) by lia.
      rewrite (level_up_lookup _ i leaf Hp). replace (S (2 * i)) with (2 * i + 1)%nat by lia.
      destruct (l !! (2 * i + 1)%nat); [done|]. by rewrite Hp.
    + assert (Ho : Nat.odd pos = true) by (unfold Nat.odd; by rewrite He). apply Nat.odd_spec in Ho as [i ->].
      replace ((2 * i + 1) / 2)%nat with i by (apply Nat.div_unique with 1%nat; lia).
      replace (pred (2 * i + 1)) with (2 * i)%nat by lia.
      assert (is_Some (l !! (2 * i)%nat)) as [y Hy] by (apply lookup_lt_is_Some_2; apply lookup_lt_Some in Hp; lia).
      by rewrite (level_up_lookup _ i y Hy), Hp, Hy.
Qed.

(** ** Proofs: binding *)
Lemma collision_mono ps ps' : (∀ x, x ∈ ps → x ∈ ps') → collision ps → collision ps'.
Proof. intros Hsub (a & b & c & d & H1 & H2 & H). exists a, b, c, d. auto. Qed.
Lemma combine_inj ps a b c d : (a, b) ∈ ps → (c, d) ∈ ps → combine a b = combine c d → (a = c ∧ b = d) ∨ collision ps.
Proof.
  intros H1 H2 E. destruct (decide ((a, b) = (c, d))) as [[= -> ->]|Hne]; [by left|]. right. by exists a, b, c, d.
Qed.
Lemma level_pairs_lookup l i x :
  l !! (2 * i)%nat = Some x → level_pairs l !! i = Some (x, default x (l !! (2 * i + 1)%nat)).
Proof.
  revert i. induction l as [|a|a b r IH] using pairs_ind; intros i Hi; [done| |].
  - destruct i as [|i]; [by injection Hi as ->|]. replace (2 * S i)%nat with (S (S (2 * i))) in Hi by lia. done.
  - destruct i as [|i]; [by injection Hi as ->|]. replace (2 * S i)%nat with (S (S (2 * i))) in Hi by lia.
    replace (2 * S i + 1)%nat with (S (S (2 * i + 1))) by lia. cbn in Hi |- *. by apply IH.
Qed.
Lemma tree_pairs_le v w l x : (v ≤ w)%nat → x ∈ tree_pairs v l → x ∈ tree_pairs w l.
Proof. induction 1 as [|w _ IH]; [done|]. intros Hx. cbn [tree_pairs]. apply elem_of_app. left. by apply IH. Qed.
Lemma tree_pairs_elem v l k i x : (k < v)%nat → level k l !! (2 * i)%nat = Some x →
  (x, default x (level k l !! (2 * i + 1)%nat)) ∈ tree_pairs v l.
Proof.
  intros Hk Hx. apply (tree_pairs_le (S k) v); [lia|]. cbn [tree_pairs]. apply elem_of_app. right.
  by eapply list_elem_of_lookup_2, level_pairs_lookup.
Qed.

(** Equal next levels: equal levels, or one level repeats the other's last
    node. *)
Lemma level_up_inj ps l1 l2 : (∀ x, x ∈ level_pairs l1 → x ∈ ps) → (∀ x, x ∈ level_pairs l2 → x ∈ ps) →
  level_up l1 = level_up l2 →
  l1 = l2 ∨ (∃ l x, l1 = l ++ [x] ∧ l2 = l ++ [x; x] ∧ Nat.even (length l) = true) ∨
  (∃ l x, l2 = l ++ [x] ∧ l1 = l ++ [x; x] ∧ Nat.even (length l) = true) ∨ collision ps.
Proof.
  revert l2. induction l1 as [|a|a b r IH] using pairs_ind; intros l2 P1 P2 Hl.
  - destruct l2 as [|? [|? ?]]; [by left|done|done].
  - specialize (P1 (a, a) ltac:(by left)). destruct l2 as [|c [|d [|? [|? ?]]]]; cbn in Hl; try done; injection Hl as Hc.
    + destruct (combine_inj ps _ _ _ _ P1 (P2 (c, c) ltac:(by left)) Hc) as [[-> _]|]; [by left|by do 3 right].
    + destruct (combine_inj ps _ _ _ _ P1 (P2 (c, d) ltac:(by left)) Hc) as [[-> ->]|]; [|by do 3 right]. right; left. by exists [], d.
  - pose proof (P1 (a, b) ltac:(by left)) as P0. destruct l2 as [|c [|d r2]]; cbn in Hl; [done| |]; injection Hl as Hc Hr.
    + destruct r as [|? [|? ?]]; try done. destruct (combine_inj ps _ _ _ _ P0 (P2 (c, c) ltac:(by left)) Hc) as [[-> ->]|]; [|by do 3 right].
      right; right; left. by exists [], c.
    + destruct (combine_inj ps _ _ _ _ P0 (P2 (c, d) ltac:(by left)) Hc) as [[-> ->]|]; [|by do 3 right].
      destruct (IH r2) as [->|[(l & x & -> & -> & He)|[(l & x & -> & -> & He)|]]]; try done; [by intros; apply P1; right|by intros; apply P2; right|by left| | |by do 3 right].
      * right; left. by exists (c :: d :: l), x.
      * right; right; left. by exists (c :: d :: l), x.
Qed.

(** A complete node equal to the incomplete one of its level. *)
Lemma complete_incomplete l k i j x :
  level k l !! i = Some x → level k l !! j = Some x → ((i + 1) * 2 ^ k ≤ length l)%nat → (length l < (j + 1) * 2 ^ k)%nat →
  duplicated l ∨ collision (tree_pairs k l).
Proof.
  revert i j x. induction k as [|k IH]; intros i j x Hi Hj Hci Hcj.
  - apply lookup_lt_Some in Hj. cbn in Hj, Hcj. lia.
  - rewrite Nat.pow_succ_r' in *. pose proof (pow2_pos k) as HP.
    assert (Hlen : ∀ m, (m * 2 ^ k < length l)%nat → (m < length (level k l))%nat).
    { intros m Hm. rewrite level_length. pose proof (div_split (length l) k) as [E R].
      destruct (Nat.eqb_spec (length l mod 2 ^ k) 0); nia. }
    assert (is_Some (level k l !! (2 * i)%nat)) as [a Ha] by (apply lookup_lt_is_Some_2, Hlen; nia).
    assert (is_Some (level k l !! (2 * i + 1)%nat)) as [b Hb] by (apply lookup_lt_is_Some_2, Hlen; nia).
    rewrite level_S, (level_up_lookup _ i a Ha), Hb in Hi.
    change (default a (Some b)) with b in Hi.
    assert (Hj2 : (2 * j < length (level k l))%nat).
    { apply lookup_lt_Some in Hj. rewrite level_S, length_level_up in Hj.
      pose proof (Nat.div_mod_eq (length (level k l) + 1) 2). pose proof (Nat.mod_upper_bound (length (level k l) + 1) 2). lia. }
    apply lookup_lt_is_Some_2 in Hj2 as [c Hc]. rewrite level_S, (level_up_lookup _ j c Hc) in Hj.
    pose proof (tree_pairs_elem (S k) l k i a ltac:(lia) Ha) as P1. rewrite Hb in P1. change (default a (Some b)) with b in P1.
    pose proof (tree_pairs_elem (S k) l k j c ltac:(lia) Hc) as P2.
    assert (E : combine a b = combine c (default c (level k l !! (2 * j + 1)%nat))) by congruence.
    clear Hi Hj. destruct (combine_inj _ _ _ _ _ P1 P2 E) as [[-> Hbd]|]; [|by right].
    destruct (level k l !! (2 * j + 1)%nat) as [d|] eqn:Ed; cbn in Hbd; subst b.
    + destruct (IH (2 * i + 1)%nat (2 * j + 1)%nat d Hb Ed) as [|Hcol]; [nia|nia|by left|right].
      eapply collision_mono; [|exact Hcol]. intros y. apply tree_pairs_le. lia.
    + left. exists k, i, c. split_and!; [done|done|nia].
Qed.

(** A level of one tree ends with the last node of the other's, twice. *)
Lemma repeated_last l1 l2 k l x :
  level k l1 = l ++ [x] → level k l2 = l ++ [x; x] → Nat.even (length l) = true → duplicated l2 ∨ collision (tree_pairs k l2).
Proof.
  intros _ E2 [i Hi]%Nat.even_spec.
  assert (Hx1 : level k l2 !! (2 * i)%nat = Some x) by (rewrite E2, lookup_app_r, <- Hi, Nat.sub_diag by lia; done).
  assert (Hx2 : level k l2 !! (2 * i + 1)%nat = Some x).
  { rewrite E2, lookup_app_r, Hi by lia. by replace (2 * i + 1 - 2 * i)%nat with 1%nat by lia. }
  destruct (decide ((2 * i + 2) * 2 ^ k ≤ length l2)%nat) as [Hc|Hc]; [left; by exists k, i, x|].
  apply (complete_incomplete l2 k (2 * i) (2 * i + 1) x Hx1 Hx2); [|lia].
  assert (Hlen : length (level k l2) = (2 * i + 2)%nat) by (rewrite E2, length_app; cbn; lia).
  rewrite level_length in Hlen. pose proof (div_split (length l2) k) as [E R].
  destruct (Nat.eqb_spec (length l2 mod 2 ^ k) 0); nia.
Qed.

Lemma levels_binding v l1 l2 :
  level v l1 = level v l2 → ¬ duplicated l1 → ¬ duplicated l2 → l1 = l2 ∨ collision (tree_pairs v l1 ++ tree_pairs v l2).
Proof.
  intros Hv H1 H2. assert (H : ∀ k, (k ≤ v)%nat → level k l1 = level k l2 → l1 = l2 ∨ collision (tree_pairs v l1 ++ tree_pairs v l2)); [|by apply (H v)].
  clear Hv. induction k as [|k IH]; intros Hkv Hk; [by left|]. rewrite !level_S in Hk.
  assert (Hsub : ∀ l x, x ∈ level_pairs (level k l) → x ∈ tree_pairs v l).
  { intros l x Hx. apply (tree_pairs_le (S k)); [done|]. cbn [tree_pairs]. apply elem_of_app. by right. }
  destruct (level_up_inj (tree_pairs v l1 ++ tree_pairs v l2) _ _ ltac:(intros x Hx; apply elem_of_app; left; by apply Hsub)
    ltac:(intros x Hx; apply elem_of_app; right; by apply Hsub) Hk) as [E|[(l & x & E1 & E2 & He)|[(l & x & E1 & E2 & He)|]]]; [apply IH; [lia|done]| | |by right].
  - destruct (repeated_last _ _ _ _ _ E1 E2 He) as [|Hcol]; [done|right]. eapply collision_mono; [|exact Hcol].
    intros y Hy. apply elem_of_app. right. apply (tree_pairs_le k); [lia|done].
  - destruct (repeated_last _ _ _ _ _ E1 E2 He) as [|Hcol]; [done|right]. eapply collision_mono; [|exact Hcol].
    intros y Hy. apply elem_of_app. left. apply (tree_pairs_le k); [lia|done].
Qed.
End Merkle.

(** The bytes from [begin()] to [end()] of a [uint256]. *)
Definition uint256_bytes (h : bytes) : bytes := take 32 h.
Definition CombineHash (a b : bytes) : bytes :=
  Hashes.CHash256_Finalize (Hashes.CHash256_Write (Hashes.CHash256_Write Sha256.Sha256.CSHA256 (uint256_bytes a)) (uint256_bytes b)).
Definition ComputeMerkleRoot (leaves : list bytes) : option (bytes * bool) := merkle_root uint256_null CombineHash leaves.
Definition ComputeMerkleBranch (leaves : list bytes) (position : Z) : option (list bytes) :=
  merkle_branch uint256_null CombineHash leaves position.
Definition ComputeMerkleRootFromBranch (leaf : bytes) (vMerkleBranch : list bytes) (nIndex : Z) : bytes :=
  root_from_branch (λ a b, Hashes.Hash2 (uint256_bytes a) (uint256_bytes b)) leaf vMerkleBranch nIndex.

(** The hashes of the transactions; a hash is absent when a serialization
    cannot be hashed. *)
Definition BlockMerkleRoot (block : CBlock) : option (bytes * bool) :=
  leaves ← mapM GetHash (vtx block); ComputeMerkleRoot leaves.
Definition BlockWitnessMerkleRoot (block : CBlock) (pfProofOfStake : option bool) : option (bytes * bool) :=
  let fProofOfStake := default (IsProofOfStake (old (header block))) pfProofOfStake in
  let blanks := if fProofOfStake then 2%nat else 1%nat in
  if (length (vtx block) <? blanks)%nat then None
  else
    rest ← mapM GetWitnessHash (drop blanks (vtx block));
    ComputeMerkleRoot (replicate blanks uint256_null ++ rest).
Definition BlockMerkleBranch (block : CBlock) (position : Z) : option (list bytes) :=
  leaves ← mapM GetHash (vtx block); ComputeMerkleBranch leaves position.

(** ** Properties *)

Lemma ComputeMerkleRoot_spec (leaves : list bytes) : (length leaves ≤ 2 ^ 31)%nat →
  ∃ mutated, ComputeMerkleRoot leaves = Some (tree_root uint256_null CombineHash (length leaves) leaves, mutated) ∧
    (mutated = true ↔ duplicated CombineHash leaves).
Proof.
  intros Hn. destruct (decide (length leaves = 0)%nat) as [H0|H0].
  { apply nil_length_inv in H0 as ->. exists false. split; [done|]. split; [done|].
    intros (k & i & x & Hx & _). apply lookup_lt_Some in Hx. rewrite (level_length uint256_null) in Hx.
    cbn [length] in Hx. rewrite Nat.Div0.div_0_l, Nat.Div0.mod_0_l in Hx. cbn in Hx. lia. }
  unfold ComputeMerkleRoot, merkle_root.
  destruct (MerkleComputation_spec uint256_null CombineHash leaves 0 (u32 (-1)) false ltac:(lia) ltac:(discriminate))
    as (v & r & m & b & -> & Hr & Hv & Hm & _).
  cbn [mbind option_bind]. exists m. split; [|by rewrite Hm, duplicated_iff].
  by rewrite (tree_root_level _ _ v _ leaves r (pow_height _ _ Hv) (tall_pow uint256_null CombineHash _ _ Hv) Hr).
Qed.

(** C27. Merkle roots and branches.  For up to 2^31 leaves the constant-space
    computation terminates with the root of the tree defined level by level;
    its flag says whether two neighbouring complete subtrees have the same
    hash; and for each leaf the branch is the list of its siblings, from which
    [ComputeMerkleRootFromBranch] computes the same root. *)
Theorem merkle_correct (leaves : list bytes) :
  (length leaves ≤ 2 ^ 31)%nat →
  let root := tree_root uint256_null CombineHash (length leaves) leaves in
  (∃ mutated, ComputeMerkleRoot leaves = Some (root, mutated) ∧ (mutated = true ↔ duplicated CombineHash leaves)) ∧
  (∀ pos leaf, leaves !! pos = Some leaf →
    let branch := tree_branch uint256_null CombineHash (length leaves) leaves pos in
    ComputeMerkleBranch leaves (Z.of_nat pos) = Some branch ∧
    ComputeMerkleRootFromBranch leaf branch (Z.of_nat pos) = root).
Proof.
  intros Hn root. split; [by apply ComputeMerkleRoot_spec|]. intros pos leaf Hp. pose proof (lookup_lt_Some _ _ _ Hp) as Hlt.
  unfold ComputeMerkleBranch, merkle_branch.
  destruct (MerkleComputation_spec uint256_null CombineHash leaves pos (Z.of_nat pos) true ltac:(lia) ltac:(done))
    as (v & r & m & b & -> & Hr & Hv & _ & ->).
  cbn [mbind option_bind]. pose proof (pow_height _ _ Hv) as Hf. pose proof (tall_pow uint256_null CombineHash _ _ Hv) as Ht.
  unfold root. rewrite (tree_branch_level _ _ v _ leaves pos r Hf Ht Hr). split; [done|].
  rewrite (tree_root_level _ _ v _ leaves r Hf Ht Hr). by apply (branch_root _ CombineHash v leaves pos leaf r).
Qed.

(** The example of the source: six leaves, and eight with the last two
    repeated, have the same root; the second list is flagged. *)
Definition leaves_example (l : list Z) : list bytes := map (λ i, replicate 32 i) l.

Lemma merkle_correct_witness :
  fst <$> ComputeMerkleRoot (leaves_example [1; 2; 3; 4; 5; 6]) = fst <$> ComputeMerkleRoot (leaves_example [1; 2; 3; 4; 5; 6; 5; 6]) ∧
  snd <$> ComputeMerkleRoot (leaves_example [1; 2; 3; 4; 5; 6]) = Some false ∧
  snd <$> ComputeMerkleRoot (leaves_example [1; 2; 3; 4; 5; 6; 5; 6]) = Some true ∧
  let leaves := leaves_example [1; 2; 3] in
  let root := tree_root uint256_null CombineHash 3 leaves in
  (∃ mutated, ComputeMerkleRoot leaves = Some (root, mutated) ∧ (mutated = true ↔ duplicated CombineHash leaves)) ∧
  (∀ pos leaf, leaves !! pos = Some leaf →
    let branch := tree_branch uint256_null CombineHash 3 leaves pos in
    ComputeMerkleBranch leaves (Z.of_nat pos) = Some branch ∧
    ComputeMerkleRootFromBranch leaf branch (Z.of_nat pos) = root).
Proof.
  split; [vm_compute; reflexivity|]. split; [vm_compute; reflexivity|]. split; [vm_compute; reflexivity|].
  apply (merkle_correct (leaves_example [1; 2; 3])). change (length _) with 3%nat.
  pose proof (Nat.pow_le_mono_r 2 2 31 ltac:(lia) ltac:(lia)) as H. change (2 ^ 2)%nat with 4%nat in H. lia.
Defined.

(** A root fixes the leaves.  Two nonempty lists for trees of the same
    height, with the same root and neither flagged as mutated, are the same
    list, unless two different pairs that are hashed in their trees have the same double SHA-256. *)
Theorem merkle_binding (l1 l2 : list bytes) (r : bytes) :
  (0 < length l1 ≤ 2 ^ 31)%nat → (0 < length l2 ≤ 2 ^ 31)%nat → Nat.log2_up (length l1) = Nat.log2_up (length l2) →
  ComputeMerkleRoot l1 = Some (r, false) → ComputeMerkleRoot l2 = Some (r, false) →
  l1 = l2 ∨ collision CombineHash (hashed_pairs CombineHash l1 ++ hashed_pairs CombineHash l2).
Proof.
  intros H1 H2 Hh E1 E2. unfold ComputeMerkleRoot, merkle_root in E1, E2.
  destruct (MerkleComputation_spec uint256_null CombineHash l1 0 (u32 (-1)) false H1 ltac:(discriminate)) as (v1 & r1 & m1 & b1 & F1 & Hr1 & Hv1 & Hm1 & _).
  destruct (MerkleComputation_spec uint256_null CombineHash l2 0 (u32 (-1)) false H2 ltac:(discriminate)) as (v2 & r2 & m2 & b2 & F2 & Hr2 & Hv2 & Hm2 & _).
  rewrite F1 in E1. rewrite F2 in E2. cbn [mbind option_bind] in E1, E2. simplify_eq.
  pose proof (height_log2 uint256_null CombineHash v1 l1 r Hv1 Hr1) as V1. pose proof (height_log2 uint256_null CombineHash v2 l2 r Hv2 Hr2) as V2.
  unfold hashed_pairs. rewrite <- V1, <- V2 in *. subst v1. apply (levels_binding uint256_null CombineHash v2 l1 l2); [congruence| |].
  - intros Hd%duplicated_iff. by apply Hm1 in Hd.
  - intros Hd%duplicated_iff. by apply Hm2 in Hd.
Qed.

Lemma merkle_binding_witness :
  leaves_example [1; 2; 3] = leaves_example [1; 2; 3] ∨
  collision CombineHash (hashed_pairs CombineHash (leaves_example [1; 2; 3]) ++ hashed_pairs CombineHash (leaves_example [1; 2; 3])).
Proof.
  apply (merkle_binding (leaves_example [1; 2; 3]) (leaves_example [1; 2; 3]) (tree_root uint256_null CombineHash 3 (leaves_example [1; 2; 3]))).
  1,2: change (length _) with 3%nat; pose proof (Nat.pow_le_mono_r 2 2 31 ltac:(lia) ltac:(lia)) as H; change (2 ^ 2)%nat with 4%nat in H; lia.
  - reflexivity.
  - vm_compute. reflexivity.
  - vm_compute. reflexivity.
Defined.
