(* ===== verification/PartialMerkle.v ===== *)
(** * Partial Merkle trees (src/src/merkleblock.cpp)

    A [CPartialMerkleTree] proves that some transactions are in a block: it
    keeps a bit per visited node and the hashes where the visit stops.  The
    trees are those of [Merkle], here visited from the root; the hash of
    pairs is a parameter until the end of the file. *)

From stdpp Require Import base numbers list option.
From Stdlib Require Import ZArith Lia ZifyNat ZifyBool.
From S2P Require Import Prelude Endian Hash Serialize Transaction Block Merkle.

(** [dgpMaxBlockSize * WITNESS_SCALE_FACTOR / MIN_TRANSACTION_WEIGHT]: the first
    product is one of 32-bit integers. *)
Definition WITNESS_SCALE_FACTOR : Z := 4.
Definition MIN_TRANSACTION_WEIGHT : Z := WITNESS_SCALE_FACTOR * 60.
Definition max_transactions (dgpMaxBlockSize : Z) : Z := u32 (dgpMaxBlockSize * WITNESS_SCALE_FACTOR) / MIN_TRANSACTION_WEIGHT.

Section PartialMerkle.
Context {A : Type} `{!EqDecision A} (blank : A) (combine : A → A → A).

Record CPartialMerkleTree := mkPartial { nTransactions : Z; vBits : list bool; vHash : list A; fBad : bool }.

Section Tree.
Context (nTx : Z).
(** [1 << height] on [int] is undefined from 31 on. *)
Definition CalcTreeWidth (height : nat) : option Z :=
  if (height <? 31)%nat then Some (Z.shiftr (u32 (nTx + Z.shiftl 1 (Z.of_nat height) - 1)) (Z.of_nat height)) else None.
Fixpoint tree_height (fuel nHeight : nat) : option nat :=
  w ← CalcTreeWidth nHeight;
  if w >? 1 then match fuel with O => None | S fuel => tree_height fuel (S nHeight) end else Some nHeight.

(** [None] is a failed assertion or an index out of range. *)
Fixpoint CalcHash (height : nat) (pos : Z) (vTxid : list A) : option A :=
  if (length vTxid =? 0)%nat then None
  else
    match height with
    | O => vTxid !! Z.to_nat pos
    | S height =>
        left_ ← CalcHash height (u32 (pos * 2)) vTxid;
        w ← CalcTreeWidth height;
        right_ ← (if u32 (pos * 2 + 1) <? w then CalcHash height (u32 (pos * 2 + 1)) vTxid else Some left_);
        Some (combine left_ right_)
    end.

(** The loop over the leaves below a node. *)
Fixpoint any_match (fuel : nat) (p hi : Z) (vMatch : list bool) (fParentOfMatch : bool) : option bool :=
  if (p <? hi) && (p <? nTx) then
    b ← vMatch !! Z.to_nat p;
    match fuel with O => None | S fuel => any_match fuel (u32 (p + 1)) hi vMatch (fParentOfMatch || b) end
  else Some fParentOfMatch.
Fixpoint TraverseAndBuild (height : nat) (pos : Z) (vTxid : list A) (vMatch : list bool) (st : list bool * list A)
    : option (list bool * list A) :=
  fParentOfMatch ← any_match (length vMatch) (u32 (Z.shiftl pos (Z.of_nat height))) (u32 (Z.shiftl (u32 (pos + 1)) (Z.of_nat height))) vMatch false;
  let bits := fst st ++ [fParentOfMatch] in
  let store := (h ← CalcHash height pos vTxid; Some (bits, snd st ++ [h])) in
  match height with
  | O => store
  | S height =>
      if negb fParentOfMatch then store
      else
        st ← TraverseAndBuild height (u32 (pos * 2)) vTxid vMatch (bits, snd st);
        w ← CalcTreeWidth height;
        if u32 (pos * 2 + 1) <? w then TraverseAndBuild height (u32 (pos * 2 + 1)) vTxid vMatch st else Some st
  end.

Record extract_state := mkExtract { nBitsUsed : nat; nHashUsed : nat; xBad : bool; xMatch : list A; xIndex : list Z }.
Definition set_bad (s : extract_state) : extract_state := mkExtract (nBitsUsed s) (nHashUsed s) true (xMatch s) (xIndex s).
Fixpoint TraverseAndExtract (bits : list bool) (hashes : list A) (height : nat) (pos : Z) (s : extract_state) : option (A * extract_state) :=
  match bits !! nBitsUsed s with
  | None => Some (blank, set_bad s)
  | Some fParentOfMatch =>
      let s := mkExtract (S (nBitsUsed s)) (nHashUsed s) (xBad s) (xMatch s) (xIndex s) in
      let stored (is_match : bool) :=
        match hashes !! nHashUsed s with
        | None => Some (blank, set_bad s)
        | Some hash =>
            Some (hash, mkExtract (nBitsUsed s) (S (nHashUsed s)) (xBad s)
              (if is_match then xMatch s ++ [hash] else xMatch s) (if is_match then xIndex s ++ [pos] else xIndex s))
        end in
      match height with
      | O => stored fParentOfMatch
      | S height =>
          if negb fParentOfMatch then stored false
          else
            '(left_, s) ← TraverseAndExtract bits hashes height (u32 (pos * 2)) s;
            w ← CalcTreeWidth height;
            if u32 (pos * 2 + 1) <? w then
              '(right_, s) ← TraverseAndExtract bits hashes height (u32 (pos * 2 + 1)) s;
              Some (combine left_ right_, if decide (right_ = left_) then set_bad s else s)
            else Some (combine left_ left_, s)
      end
  end.
End Tree.

Definition new_CPartialMerkleTree (vTxid : list A) (vMatch : list bool) : option CPartialMerkleTree :=
  let nTx := u32 (Z.of_nat (length vTxid)) in
  nHeight ← tree_height nTx 31 0;
  '(bits, hashes) ← TraverseAndBuild nTx nHeight 0 vTxid vMatch ([], []);
  Some (mkPartial nTx bits hashes false).

(** The root, the matches and their indices (added to those given), and the tree
    with its flag. *)
Definition ExtractMatches (dgpMaxBlockSize : Z) (t : CPartialMerkleTree) (vnIndex : list Z) : option (A * list A * list Z * CPartialMerkleTree) :=
  if nTransactions t =? 0 then Some (blank, [], vnIndex, t)
  else if nTransactions t >? max_transactions dgpMaxBlockSize then Some (blank, [], vnIndex, t)
  else if Z.of_nat (length (vHash t)) >? nTransactions t then Some (blank, [], vnIndex, t)
  else if (length (vBits t) <? length (vHash t))%nat then Some (blank, [], vnIndex, t)
  else
    nHeight ← tree_height (nTransactions t) 31 0;
    '(hashMerkleRoot, s) ← TraverseAndExtract (nTransactions t) (vBits t) (vHash t) nHeight 0 (mkExtract 0 0 (fBad t) [] vnIndex);
    let t := mkPartial (nTransactions t) (vBits t) (vHash t) (xBad s) in
    let fail := Some (blank, xMatch s, xIndex s, t) in
    if xBad s then fail
    else if negb ((nBitsUsed s + 7) / 8 =? (length (vBits t) + 7) / 8)%nat then fail
    else if negb (nHashUsed s =? length (vHash t))%nat then fail
    else Some (hashMerkleRoot, xMatch s, xIndex s, t).
End PartialMerkle.
Arguments CPartialMerkleTree : clear implicits.

(** ** The wire format *)
Definition set_bit (vBytes : bytes) (p : nat) (b : bool) : bytes :=
  alter (λ x, u8 (Z.lor x (Z.shiftl (if b then 1 else 0) (Z.of_nat (p mod 8))))) (p / 8)%nat vBytes.
Fixpoint pack_bits (vBytes : bytes) (p : nat) (bits : list bool) : bytes :=
  match bits with [] => vBytes | b :: bits => pack_bits (set_bit vBytes p b) (S p) bits end.
Definition unpack_bits (vBytes : bytes) : list bool :=
  map (λ p, negb (Z.land (nth (p / 8) vBytes 0) (Z.shiftl 1 (Z.of_nat (p mod 8))) =? 0)) (seq 0 (length vBytes * 8)).
Definition partial_Serialize (t : CPartialMerkleTree bytes) : bytes :=
  enc u32_codec (nTransactions t) ++ enc (vector_codec uint256_codec) (vHash t)
  ++ enc blob_codec (pack_bits (replicate ((length (vBits t) + 7) / 8) 0) 0 (vBits t)).
Definition partial_Unserialize : reader (CPartialMerkleTree bytes) := λ s,
  '(nTx, s) ← dec u32_codec s;
  '(hashes, s) ← dec (vector_codec uint256_codec) s;
  '(vBytes, s) ← dec blob_codec s;
  Some (mkPartial nTx (unpack_bits vBytes) hashes false, s).

(** ** The trees of a block *)
(** [Hash(left, right)] of merkleblock.cpp is the double hash of consensus/merkle.cpp. *)
Definition PartialHash (left right : bytes) : bytes := Hashes.Hash2 (uint256_bytes left) (uint256_bytes right).
Record CMerkleBlock := mkMerkleBlock { mb_header : CBlockHeader; mb_txn : CPartialMerkleTree bytes }.
Definition merkle_block (block : CBlock) (txids : list bytes) : option CMerkleBlock :=
  vHashes ← mapM GetHash (vtx block);
  let vMatch := map (λ h, bool_decide (h ∈ txids)) vHashes in
  txn ← new_CPartialMerkleTree PartialHash vHashes vMatch;
  Some (mkMerkleBlock (GetBlockHeader block) txn).

(** ** Proofs: nodes and levels *)
Lemma pow_nat k : Z.of_nat (2 ^ k) = 2 ^ Z.of_nat k.
Proof. by rewrite Nat2Z.inj_pow. Qed.
Lemma pow_small k : (k ≤ 30)%nat → 1 ≤ 2 ^ Z.of_nat k ≤ 1073741824.
Proof. intros Hk. split; [apply (Z.pow_le_mono_r 2 0); lia|change 1073741824 with (2 ^ 30); apply Z.pow_le_mono_r; lia]. Qed.
Lemma child_positions pos : Z.of_nat pos < 1073741824 → u32 (Z.of_nat pos * 2) = Z.of_nat (2 * pos) ∧ u32 (Z.of_nat pos * 2 + 1) = Z.of_nat (2 * pos + 1).
Proof. intros Hp. rewrite !u32_small by (unfold is_u32; lia). lia. Qed.

(** Leaves under a node. *)
Definition segment {B} (k pos : nat) (m : list B) : list B := take (2 ^ k) (drop (pos * 2 ^ k) m).
Lemma segment_S {B} k pos (m : list B) : segment (S k) pos m = segment k (2 * pos) m ++ segment k (2 * pos + 1) m.
Proof.
  unfold segment. replace (pos * 2 ^ S k)%nat with (2 * pos * 2 ^ k)%nat by (rewrite Nat.pow_succ_r'; lia).
  replace ((2 * pos + 1) * 2 ^ k)%nat with (2 * pos * 2 ^ k + 2 ^ k)%nat by lia. rewrite <- drop_drop.
  set (m' := drop (2 * pos * 2 ^ k) m). replace (2 ^ S k)%nat with (2 ^ k + 2 ^ k)%nat by (rewrite Nat.pow_succ_r'; lia).
  by rewrite <- take_take_drop.
Qed.

Section Nodes.
Context {A : Type} `{!EqDecision A} (blank : A) (combine : A → A → A).
Context (l : list A) (Hn : 1 ≤ Z.of_nat (length l) ≤ 1073741824).
Abbreviation n := (length l).
Abbreviation nTx := (Z.of_nat (length l)).
Abbreviation L k := (level combine k l).
Abbreviation width k := (length (level combine k l)).

Lemma width_bounds k : (0 < width k)%nat ∧ ((width k - 1) * 2 ^ k < n)%nat ∧ (n ≤ width k * 2 ^ k)%nat.
Proof.
  rewrite (level_length blank). pose proof (div_split n k) as [E R]. pose proof (pow2_pos k).
  set (q := (n / 2 ^ k)%nat) in *. set (r := (n mod 2 ^ k)%nat) in *. set (P := (2 ^ k)%nat) in *.
  destruct (Nat.eqb_spec r 0); split_and!; nia.
Qed.
Lemma CalcTreeWidth_spec k : (k ≤ 30)%nat → CalcTreeWidth nTx k = Some (Z.of_nat (width k)).
Proof.
  intros Hk. unfold CalcTreeWidth. destruct (Nat.ltb_spec k 31); [|lia]. rewrite Z.shiftl_1_l. pose proof (pow_small k Hk). pose proof Hn.
  rewrite u32_small by (unfold is_u32; lia). rewrite Z.shiftr_div_pow2 by lia. f_equal. symmetry.
  pose proof (width_bounds k) as (W1 & W2 & W3). apply (Z.div_unique_pos _ _ _ (nTx + 2 ^ Z.of_nat k - 1 - 2 ^ Z.of_nat k * Z.of_nat (width k))); [|lia].
  pose proof (pow_nat k) as E. rewrite <- E. nia.
Qed.
Lemma width_30 : width 30 = 1%nat.
Proof.
  pose proof (width_bounds 30) as (W1 & W2 & W3). pose proof (pow_nat 30) as E. change (2 ^ Z.of_nat 30) with 1073741824 in E.
  set (P := (2 ^ 30)%nat) in *. clearbody P. nia.
Qed.
Lemma tree_height_spec fuel k : (30 ≤ k + fuel)%nat → (k ≤ 30)%nat → (∀ j, (j < k)%nat → (2 ≤ width j)%nat) →
  ∃ v, tree_height nTx fuel k = Some v ∧ (v ≤ 30)%nat ∧ width v = 1%nat ∧ (∀ j, (j < v)%nat → (2 ≤ width j)%nat).
Proof.
  revert k. induction fuel as [|fuel IH]; intros k Hf Hk Hj.
  - assert (k = 30%nat) as -> by lia. exists 30%nat. pose proof width_30 as Hw. cbn [tree_height]. rewrite CalcTreeWidth_spec by lia. cbn [mbind option_bind]. rewrite Hw. done.
  - cbn [tree_height]. rewrite CalcTreeWidth_spec by done. cbn [mbind option_bind]. destruct (Z.gtb_spec (Z.of_nat (width k)) 1) as [Hw|Hw].
    + assert (Hk' : k ≠ 30%nat) by (intros ->; rewrite width_30 in Hw; lia).
      apply IH; [lia|lia|]. intros j Hjk. destruct (Nat.eq_dec j k) as [->|]; [lia|apply Hj; lia].
    + exists k. pose proof (width_bounds k). split_and!; [done|done|lia|done].
Qed.

Lemma segment_beyond {B} k pos (m : list B) : length m = n → (width k ≤ pos)%nat → segment k pos m = [].
Proof.
  intros Hm Hp. unfold segment. rewrite drop_ge; [by rewrite take_nil|]. pose proof (width_bounds k) as (_ & _ & H3). nia.
Qed.
Lemma segment_all {B} v (m : list B) : length m = n → width v = 1%nat → segment v 0 m = m.
Proof. intros Hm Hw. unfold segment. rewrite drop_0. apply take_ge. pose proof (width_bounds v) as (_ & _ & H3). lia. Qed.
Lemma node_start k pos : (pos < width k)%nat → (pos * 2 ^ k < n)%nat.
Proof. intros Hp. pose proof (width_bounds k) as (_ & H2 & _). nia. Qed.

Lemma children k pos : (pos < width (S k))%nat → (2 * pos < width k)%nat ∧
  ∃ x, L k !! (2 * pos)%nat = Some x ∧ L (S k) !! pos = Some (combine x (default x (L k !! (2 * pos + 1)%nat))).
Proof.
  intros Hp. rewrite level_S in Hp. rewrite length_level_up in Hp. assert (H : (2 * pos < width k)%nat).
  { pose proof (Nat.div_mod_eq (width k + 1) 2). pose proof (Nat.mod_upper_bound (width k + 1) 2 ltac:(lia)). lia. }
  split; [done|]. destruct (lookup_lt_is_Some_2 _ _ H) as [x Hx]. exists x. split; [done|]. rewrite level_S. by apply level_up_lookup.
Qed.

Lemma pos_small k pos : (k ≤ 30)%nat → (pos < width k)%nat → Z.of_nat pos * 2 ^ Z.of_nat k < 1073741824 ∧ (Z.of_nat pos + 1) * 2 ^ Z.of_nat k < 4294967296 ∧ Z.of_nat pos < 1073741824.
Proof.
  intros Hk Hp. pose proof (node_start k pos Hp). pose proof (pow_small k Hk). pose proof Hn.
  pose proof (pow_nat k) as E. rewrite <- E in *. nia.
Qed.
Lemma CalcHash_spec k pos : (k ≤ 30)%nat → (pos < width k)%nat → CalcHash combine nTx k (Z.of_nat pos) l = L k !! pos.
Proof.
  revert pos. induction k as [|k IH]; intros pos Hk Hp; cbn [CalcHash]; (destruct (length l =? 0)%nat eqn:E; [lia|]).
  - by rewrite Nat2Z.id.
  - destruct (pos_small (S k) pos Hk Hp) as (_ & _ & Hs). destruct (child_positions pos Hs) as [-> ->].
    destruct (children k pos Hp) as (Hc & x & Hx & ->). rewrite (IH (2 * pos)%nat ltac:(lia) Hc), Hx. cbn [mbind option_bind].
    rewrite CalcTreeWidth_spec by lia. cbn [mbind option_bind]. destruct (Z.ltb_spec (Z.of_nat (2 * pos + 1)) (Z.of_nat (width k))) as [Hr|Hr].
    + rewrite IH by lia. destruct (lookup_lt_is_Some_2 (L k) (2 * pos + 1) ltac:(lia)) as [y ->]. done.
    + rewrite (lookup_ge_None_2 (L k) (2 * pos + 1)) by lia. done.
Qed.
End Nodes.

(** ** Proofs: building and extracting *)
(** The marked leaves of a range, with their indices. *)
Fixpoint select {B} (i : nat) (xs : list B) (bs : list bool) : list (B * nat) :=
  match xs, bs with x :: xs, b :: bs => (if b then [(x, i)] else []) ++ select (S i) xs bs | _, _ => [] end.
Lemma select_app {B} i (xs xs' : list B) bs bs' : length xs = length bs →
  select i (xs ++ xs') (bs ++ bs') = select i xs bs ++ select (i + length xs) xs' bs'.
Proof.
  revert i bs. induction xs as [|x xs IH]; intros i [|b bs] Hl; try done; cbn [app select length]; [by rewrite Nat.add_0_r|].
  rewrite IH by (by injection Hl). rewrite <- app_assoc. by replace (S i + length xs)%nat with (i + S (length xs))%nat by lia.
Qed.
Lemma select_none {B} i (xs : list B) bs : existsb id bs = false → select i xs bs = [].
Proof. revert i xs. induction bs as [|b bs IH]; intros i [|x xs] Hb; try done. cbn in *. apply orb_false_iff in Hb as [-> Hb]. by apply IH. Qed.

Section BuildExtract.
Context {A : Type} `{!EqDecision A} (blank : A) (combine : A → A → A).
Context (l : list A) (m : list bool) (Hn : 1 ≤ Z.of_nat (length l) ≤ 1073741824) (Hm : length m = length l).
Abbreviation n := (length l).
Abbreviation nTx := (Z.of_nat (length l)).
Abbreviation L k := (level combine k l).
Abbreviation width k := (length (level combine k l)).
Abbreviation seg k pos := (segment k pos).

Lemma any_match_loop fuel p hi acc : (n ≤ p + fuel)%nat →
  any_match nTx fuel (Z.of_nat p) (Z.of_nat hi) m acc = Some (acc || existsb id (take (hi - p) (drop p m))).
Proof.
  assert (Hstep : ∀ p, (p < hi)%nat → (p < n)%nat → ∃ b, m !! p = Some b ∧ take (hi - p) (drop p m) = b :: take (hi - S p) (drop (S p) m)).
  { clear p. intros p H1 H2. destruct (lookup_lt_is_Some_2 m p ltac:(lia)) as [b Hb]. exists b. split; [done|].
    rewrite (drop_S _ _ _ Hb). by replace (hi - p)%nat with (S (hi - S p)) by lia. }
  assert (Hend : ∀ p, ¬ ((p < hi)%nat ∧ (p < n)%nat) → take (hi - p) (drop p m) = []).
  { clear p. intros p Hp. destruct (Nat.lt_ge_cases p hi); [rewrite drop_ge by lia; by rewrite take_nil|by replace (hi - p)%nat with 0%nat by lia]. }
  revert p acc. induction fuel as [|fuel IH]; intros p acc Hf; cbn [any_match].
  - replace (Z.of_nat p <? nTx) with false by lia. rewrite andb_false_r, Hend by lia. by rewrite orb_false_r.
  - destruct (_ && _) eqn:E; [|rewrite Hend by lia; by rewrite orb_false_r].
    destruct (Hstep p) as (b & Hb & ->); [lia..|]. rewrite Nat2Z.id, Hb. cbn [mbind option_bind]. pose proof Hn.
    rewrite u32_small by (unfold is_u32; lia). replace (Z.of_nat p + 1) with (Z.of_nat (S p)) by lia.
    rewrite IH by lia. cbn [existsb]. by rewrite orb_assoc.
Qed.
Lemma any_match_spec k pos : (k ≤ 30)%nat → (pos < width k)%nat →
  any_match nTx (length m) (u32 (Z.shiftl (Z.of_nat pos) (Z.of_nat k))) (u32 (Z.shiftl (u32 (Z.of_nat pos + 1)) (Z.of_nat k))) m false =
    Some (existsb id (segment k pos m)).
Proof.
  intros Hk Hp. destruct (pos_small blank combine l Hn k pos Hk Hp) as (H1 & H2 & H3). pose proof (pow_small k Hk).
  rewrite (u32_small (Z.of_nat pos + 1)) by (unfold is_u32; lia). rewrite !Z.shiftl_mul_pow2 by lia. rewrite !u32_small by (unfold is_u32; nia).
  rewrite <- pow_nat.
  replace (Z.of_nat pos * Z.of_nat (2 ^ k)) with (Z.of_nat (pos * 2 ^ k)) by lia.
  replace ((Z.of_nat pos + 1) * Z.of_nat (2 ^ k)) with (Z.of_nat ((pos + 1) * 2 ^ k)) by lia.
  rewrite any_match_loop by lia. unfold segment. cbn [orb]. do 3 f_equal. lia.
Qed.

(** What a node adds. *)
Fixpoint built (k pos : nat) : list bool * list A :=
  let f := existsb id (segment k pos m) in
  let stop := ([f], [default blank (L k !! pos)]) in
  match k with
  | O => stop
  | S k' =>
      if negb f then stop
      else
        let '(b1, h1) := built k' (2 * pos) in
        if (2 * pos + 1 <? width k')%nat then let '(b2, h2) := built k' (2 * pos + 1) in (f :: b1 ++ b2, h1 ++ h2) else (f :: b1, h1)
  end.
Lemma TraverseAndBuild_spec k pos st : (k ≤ 30)%nat → (pos < width k)%nat →
  TraverseAndBuild combine nTx k (Z.of_nat pos) l m st = Some (fst st ++ fst (built k pos), snd st ++ snd (built k pos)).
Proof.
  revert pos st. induction k as [|k IH]; intros pos st Hk Hp.
  - cbn [TraverseAndBuild built]. rewrite (any_match_spec 0) by done. cbn [mbind option_bind].
    rewrite (CalcHash_spec blank combine l Hn) by done. destruct (lookup_lt_is_Some_2 _ _ Hp) as [x ->]. done.
  - cbn [TraverseAndBuild built]. rewrite (any_match_spec (S k)) by done. cbn [mbind option_bind].
    destruct (existsb id (segment (S k) pos m)); cbn [negb].
    + destruct (pos_small blank combine l Hn (S k) pos Hk Hp) as (_ & _ & Hs). destruct (child_positions pos Hs) as [-> ->].
      destruct (children combine l k pos Hp) as (Hc & _).
      rewrite IH by (done || lia). destruct (built k (2 * pos)) as [b1 h1]. cbn [fst snd mbind option_bind].
      rewrite (CalcTreeWidth_spec blank combine l Hn) by (done || lia). cbn [mbind option_bind].
      destruct (Z.ltb_spec (Z.of_nat (2 * pos + 1)) (Z.of_nat (width k))) as [Hr|Hr]; destruct (Nat.ltb_spec (2 * pos + 1) (width k)) as [Hr'|Hr']; try lia.
      * rewrite IH by lia. destruct (built k (2 * pos + 1)) as [b2 h2]. cbn [fst snd]. by rewrite <- !app_assoc.
      * cbn [fst snd]. by rewrite <- app_assoc.
    + rewrite (CalcHash_spec blank combine l Hn (S k)) by done. destruct (lookup_lt_is_Some_2 _ _ Hp) as [x ->]. done.
Qed.

Definition nodes_differ : Prop := ∀ k, (k ≤ 30)%nat → NoDup (L k).
End BuildExtract.

(** ** Proofs: the trees that prove their matches *)
Section Proves.
Context {A : Type} `{!EqDecision A} (blank : A) (combine : A → A → A).
Context (l : list A) (Hn : 1 ≤ Z.of_nat (length l) ≤ 1073741824).
Abbreviation n := (length l).
Abbreviation nTx := (Z.of_nat (length l)).
Abbreviation L k := (level combine k l).
Abbreviation width k := (length (level combine k l)).

(** The bits and hashes under a node that prove the matches [sel]: a node is a leaf, or
    is given by its hash, or by its children, which differ. *)
Inductive proves : nat → nat → list bool → list A → list (A * nat) → Prop :=
  | proves_leaf pos x (b : bool) : l !! pos = Some x → proves 0 pos [b] [x] (if b then [(x, pos)] else [])
  | proves_hash k pos x : L (S k) !! pos = Some x → proves (S k) pos [false] [x] []
  | proves_one k pos b h sel : (width k ≤ 2 * pos + 1)%nat → proves k (2 * pos) b h sel → proves (S k) pos (true :: b) h sel
  | proves_two k pos b1 h1 sel1 b2 h2 sel2 : (2 * pos + 1 < width k)%nat → L k !! (2 * pos)%nat ≠ L k !! (2 * pos + 1)%nat →
      proves k (2 * pos) b1 h1 sel1 → proves k (2 * pos + 1) b2 h2 sel2 →
      proves (S k) pos (true :: b1 ++ b2) (h1 ++ h2) (sel1 ++ sel2).

Lemma proves_matches k pos b h sel : proves k pos b h sel → Forall (λ o, l !! snd o = Some (fst o)) sel.
Proof. induction 1 as [pos x b Hx|k pos x Hx|k pos b h sel Hw _ IH|]; [destruct b; by repeat constructor|constructor|exact IH|by apply list.Forall_app]. Qed.
Lemma segment_nonempty k pos : (pos < width k)%nat → (1 ≤ length (segment k pos l))%nat.
Proof.
  intros Hp. pose proof (node_start blank combine l Hn k pos Hp). unfold segment. rewrite length_take, length_drop. pose proof (pow2_pos k). lia.
Qed.
Lemma proves_sizes k pos b h sel : proves k pos b h sel → (pos < width k)%nat →
  (length h ≤ length b)%nat ∧ (length h ≤ length (segment k pos l))%nat ∧ (length b ≤ S k * length (segment k pos l))%nat.
Proof.
  induction 1 as [pos x b Hx|k pos x Hx|k pos b h sel Hw _ IH|k pos b1 h1 sel1 b2 h2 sel2 Hw _ _ IH1 _ IH2]; intros Hp;
    pose proof (segment_nonempty _ pos Hp) as Hs; cbn [length] in *; [lia|lia|..];
    destruct (children combine l k pos Hp) as (Hc & _); rewrite segment_S, length_app in *; pose proof (segment_nonempty _ _ Hc).
  - destruct (IH Hc) as (A1 & A2 & A3). nia.
  - destruct (IH1 Hc) as (A1 & A2 & A3), (IH2 Hw) as (B1 & B2 & B3). rewrite !length_app. nia.
Qed.

(** What an extraction went over, and what it reported. *)
Record extracts (bits : list bool) (hashes : list A) (s s' : extract_state) (b : list bool) (h : list A) (sel : list (A * nat)) : Prop := {
  ex_bits : drop (nBitsUsed s) bits = b ++ drop (nBitsUsed s') bits; ex_nbits : nBitsUsed s' = (nBitsUsed s + length b)%nat;
  ex_hashes : drop (nHashUsed s) hashes = h ++ drop (nHashUsed s') hashes; ex_nhashes : nHashUsed s' = (nHashUsed s + length h)%nat;
  ex_match : xMatch s' = xMatch s ++ map fst sel; ex_index : xIndex s' = xIndex s ++ map (λ o, Z.of_nat (snd o)) sel }.
Lemma extracts_app bits hashes s1 s2 s3 b1 b2 h1 h2 sel1 sel2 : extracts bits hashes s1 s2 b1 h1 sel1 → extracts bits hashes s2 s3 b2 h2 sel2 →
  extracts bits hashes s1 s3 (b1 ++ b2) (h1 ++ h2) (sel1 ++ sel2).
Proof.
  intros [A1 A2 A3 A4 A5 A6] [B1 B2 B3 B4 B5 B6]. split; rewrite ?map_app, ?length_app, <- ?app_assoc; [congruence|lia|congruence|lia|..].
  - by rewrite B5, A5, app_assoc.
  - by rewrite B6, A6, app_assoc.
Qed.
Lemma extracts_bit bits hashes s b : bits !! nBitsUsed s = Some b →
  extracts bits hashes s (mkExtract (S (nBitsUsed s)) (nHashUsed s) (xBad s) (xMatch s) (xIndex s)) [b] [] [].
Proof. intros Hb. split; cbn [nBitsUsed nHashUsed xMatch xIndex length map app]; rewrite ?app_nil_r; first [done|lia|by apply drop_S]. Qed.
Lemma extracts_hash bits hashes s h bad (sel : list (A * nat)) : hashes !! nHashUsed s = Some h →
  extracts bits hashes s (mkExtract (nBitsUsed s) (S (nHashUsed s)) bad (xMatch s ++ map fst sel) (xIndex s ++ map (λ o, Z.of_nat (snd o)) sel)) [] [h] sel.
Proof. intros Hh. split; cbn [nBitsUsed nHashUsed xMatch xIndex length app]; first [done|lia|by apply drop_S]. Qed.
Lemma extracts_bad bits hashes s s' b h sel : extracts bits hashes s s' b h sel → extracts bits hashes s (set_bad s') b h sel.
Proof. by intros []. Qed.

(** Membership in concatenations. *)
Ltac in_app := intros; repeat first [rewrite elem_of_app|rewrite list_elem_of_singleton]; repeat match goal with H : _ ∈ _ ++ _ |- _ => apply elem_of_app in H as [H|H] end; auto 6.

(** Such bits and hashes are accepted. *)
Lemma extract_proves bits hashes k pos s b h sel post post' : proves k pos b h sel → (k ≤ 30)%nat → (pos < width k)%nat →
  drop (nBitsUsed s) bits = b ++ post → drop (nHashUsed s) hashes = h ++ post' →
  TraverseAndExtract blank combine nTx bits hashes k (Z.of_nat pos) s =
    Some (default blank (L k !! pos), mkExtract (nBitsUsed s + length b) (nHashUsed s + length h) (xBad s)
      (xMatch s ++ map fst sel) (xIndex s ++ map (λ o, Z.of_nat (snd o)) sel)).
Proof.
  assert (Hhead : ∀ {B} (v : list B) i x r, drop i v = x :: r → v !! i = Some x ∧ drop (S i) v = r).
  { intros B v i x r E. split; [by rewrite <- (Nat.add_0_r i), <- lookup_drop, E|]. by rewrite <- Nat.add_1_r, <- drop_drop, E. }
  assert (Hskip : ∀ {B} (v : list B) i xs r, drop i v = xs ++ r → drop (i + length xs) v = r).
  { intros B v i xs r E. by rewrite <- drop_drop, E, drop_app_length. }
  intros Hpr. revert s post post'. induction Hpr as [pos x b Hx|k pos x Hx|k pos b h sel Hw Hpr IH|k pos b1 h1 sel1 b2 h2 sel2 Hw Hne Hpr1 IH1 Hpr2 IH2];
    intros s post post' Hk Hp Hb Hh; cbn [app] in Hb, Hh; apply Hhead in Hb as [Hb0 Hb]; cbn [TraverseAndExtract]; rewrite Hb0; cbn [nHashUsed nBitsUsed xBad xMatch xIndex negb].
  - apply Hhead in Hh as [Hh _]. rewrite Hh. change (L 0) with l. rewrite Hx. cbn [default from_option id length map]. rewrite !Nat.add_1_r. destruct b; cbn; by rewrite ?app_nil_r.
  - apply Hhead in Hh as [Hh _]. rewrite Hh, Hx. cbn [default from_option id length map]. by rewrite !Nat.add_1_r, !app_nil_r.
  - destruct (pos_small blank combine l Hn (S k) pos Hk Hp) as (_ & _ & Hs). destruct (child_positions pos Hs) as [-> ->].
    destruct (children combine l k pos Hp) as (Hc & y & Hy & ->). rewrite Hy in IH.
    rewrite (IH (mkExtract (S (nBitsUsed s)) (nHashUsed s) (xBad s) (xMatch s) (xIndex s)) _ _ ltac:(lia) Hc Hb Hh). cbn [mbind option_bind].
    rewrite (CalcTreeWidth_spec blank combine l Hn) by lia. cbn [mbind option_bind].
    replace (Z.of_nat (2 * pos + 1) <? Z.of_nat (width k)) with false by lia. rewrite (lookup_ge_None_2 (L k)) by lia. cbn [default from_option id nBitsUsed nHashUsed xBad xMatch xIndex length].
    do 3 f_equal; lia.
  - destruct (pos_small blank combine l Hn (S k) pos Hk Hp) as (_ & _ & Hs). destruct (child_positions pos Hs) as [-> ->].
    destruct (children combine l k pos Hp) as (Hc & y & Hy & ->). destruct (lookup_lt_is_Some_2 _ _ Hw) as [z Hz]. rewrite Hy in IH1. rewrite Hz in IH2. rewrite <- !app_assoc in Hb, Hh.
    rewrite (IH1 (mkExtract (S (nBitsUsed s)) (nHashUsed s) (xBad s) (xMatch s) (xIndex s)) _ _ ltac:(lia) Hc Hb Hh). cbn [mbind option_bind].
    rewrite (CalcTreeWidth_spec blank combine l Hn) by lia. cbn [mbind option_bind]. replace (Z.of_nat (2 * pos + 1) <? Z.of_nat (width k)) with true by lia.
    erewrite IH2; [|lia|exact Hw|cbn [nBitsUsed]; by eapply Hskip|cbn [nHashUsed]; by eapply Hskip]. cbn [mbind option_bind]. rewrite Hz. cbn [default from_option id].
    destruct (decide (z = y)) as [->|_]; [destruct Hne; by rewrite Hy, Hz|].
    cbn [nBitsUsed nHashUsed xBad xMatch xIndex length]. rewrite !map_app, !length_app, !app_assoc. do 3 f_equal; lia.
Qed.

(** The pairs that an extraction hashes. *)
Fixpoint extract_pairs (count : Z) (bits : list bool) (hashes : list A) (height : nat) (pos : Z) (s : extract_state) : list (A * A) :=
  match height, bits !! nBitsUsed s with
  | S height, Some true =>
      let s := mkExtract (S (nBitsUsed s)) (nHashUsed s) (xBad s) (xMatch s) (xIndex s) in
      match TraverseAndExtract blank combine count bits hashes height (u32 (pos * 2)) s, CalcTreeWidth count height with
      | Some (left_, s1), Some w =>
          extract_pairs count bits hashes height (u32 (pos * 2)) s ++
          (if u32 (pos * 2 + 1) <? w then
             match TraverseAndExtract blank combine count bits hashes height (u32 (pos * 2 + 1)) s1 with
             | Some (right_, _) => extract_pairs count bits hashes height (u32 (pos * 2 + 1)) s1 ++ [(left_, right_)]
             | None => []
             end
           else [(left_, left_)])
      | _, _ => []
      end
  | _, _ => []
  end.

Lemma extract_bad bits hashes k pos s v s' : TraverseAndExtract blank combine nTx bits hashes k pos s = Some (v, s') → xBad s = true → xBad s' = true.
Proof.
  revert pos s v s'. induction k as [|k IH]; intros pos s v s' E Hbad; cbn [TraverseAndExtract] in E;
    (destruct (bits !! nBitsUsed s) as [b|]; [|by injection E as <- <-]); cbn [nHashUsed nBitsUsed xBad xMatch xIndex] in E.
  - by destruct (hashes !! nHashUsed s); injection E as <- <-.
  - destruct b; cbn [negb] in E; [|by destruct (hashes !! nHashUsed s); injection E as <- <-].
    destruct (TraverseAndExtract _ _ _ _ _ _ (u32 (pos * 2)) _) as [[vl s1]|] eqn:El; [|done]. cbn [mbind option_bind] in E. apply IH in El; [|done].
    destruct (CalcTreeWidth _ _) as [w|]; [|done]. cbn [mbind option_bind] in E. destruct (_ <? w); [|by injection E as <- <-].
    destruct (TraverseAndExtract _ _ _ _ _ _ (u32 (pos * 2 + 1)) _) as [[vr s2]|] eqn:Er; [|done]. cbn [mbind option_bind] in E. apply IH in Er; [|done].
    injection E as <- <-. by destruct (decide _).
Qed.
(** What is accepted is such bits and hashes. *)
Lemma extract_sound bits hashes k pos s v s' : (k ≤ 30)%nat → (pos < width k)%nat →
  TraverseAndExtract blank combine nTx bits hashes k (Z.of_nat pos) s = Some (v, s') → L k !! pos = Some v → xBad s' = false →
  (∃ b h sel, proves k pos b h sel ∧ extracts bits hashes s s' b h sel) ∨
  collision combine (tree_pairs combine k l ++ extract_pairs nTx bits hashes k (Z.of_nat pos) s).
Proof.
  revert pos s v s'. induction k as [|k IH]; intros pos s v s' Hk Hp E Hv Hbad; cbn [TraverseAndExtract] in E; cbn [extract_pairs];
    (destruct (bits !! nBitsUsed s) as [b|] eqn:Eb; [|by injection E as <- <-]); cbn [nHashUsed nBitsUsed xBad xMatch xIndex] in E;
    pose proof (extracts_bit bits hashes s b Eb) as X0; set (s0 := mkExtract (S (nBitsUsed s)) (nHashUsed s) (xBad s) (xMatch s) (xIndex s)) in *.
  - destruct (hashes !! nHashUsed s) as [h|] eqn:Eh; [|by injection E as <- <-]. injection E as -> <-. left. exists [b], [v], (if b then [(v, pos)] else []).
    split; [by constructor|]. pose proof (extracts_app _ _ _ _ _ _ _ _ _ _ _ X0 (extracts_hash bits hashes s0 v (xBad s) (if b then [(v, pos)] else []) Eh)) as X.
    unfold s0 in X. cbn [nHashUsed nBitsUsed xBad xMatch xIndex] in X. destruct b; cbn [map fst snd app] in X |- *; rewrite ?app_nil_r in X; exact X.
  - destruct b; cbn [negb] in E.
    2:{ destruct (hashes !! nHashUsed s) as [h|] eqn:Eh; [|by injection E as <- <-]. injection E as -> <-. left. exists [false], [v], []. split; [by constructor|].
      pose proof (extracts_app _ _ _ _ _ _ _ _ _ _ _ X0 (extracts_hash bits hashes s0 v (xBad s) [] Eh)) as X. unfold s0 in X. cbn [nHashUsed nBitsUsed xBad xMatch xIndex map app] in X.
      rewrite !app_nil_r in X. exact X. }
    destruct (pos_small blank combine l Hn (S k) pos Hk Hp) as (_ & _ & Hs). destruct (child_positions pos Hs) as [P1 P2]. rewrite P1, P2 in *.
    destruct (children combine l k pos Hp) as (Hc & y & Hy & Hxy). rewrite Hv in Hxy. pose proof (tree_pairs_elem combine (S k) l k pos y ltac:(lia) Hy) as Hpair.
    assert (Hsub : ∀ x, x ∈ tree_pairs combine k l → x ∈ tree_pairs combine (S k) l) by (intros x; apply tree_pairs_le; lia).
    destruct (TraverseAndExtract _ _ _ _ _ _ (Z.of_nat (2 * pos)) _) as [[vl s1]|] eqn:El; [|done]. cbn [mbind option_bind] in E.
    rewrite (CalcTreeWidth_spec blank combine l Hn) in E |- * by lia. cbn [mbind option_bind] in E.
    destruct (Z.ltb_spec (Z.of_nat (2 * pos + 1)) (Z.of_nat (width k))) as [Hr|Hr].
    + destruct (TraverseAndExtract _ _ _ _ _ _ (Z.of_nat (2 * pos + 1)) _) as [[vr s2]|] eqn:Er; [|done]. cbn [mbind option_bind] in E.
      set (p1 := extract_pairs nTx bits hashes k (Z.of_nat (2 * pos)) s0). set (p2 := extract_pairs nTx bits hashes k (Z.of_nat (2 * pos + 1)) s1).
      injection E as E Es. destruct (decide (vr = vl)) as [->|Hne]; [by subst s'|]. subst s2.
      destruct (lookup_lt_is_Some_2 (L k) (2 * pos + 1) ltac:(lia)) as [z Hz]. rewrite Hz in *. cbn [default from_option id] in *.
      destruct (combine_inj combine (tree_pairs combine (S k) l ++ p1 ++ p2 ++ [(vl, vr)]) vl vr y z) as [[-> ->]|Hcol];
        [in_app|in_app|congruence| |by right].
      assert (Hb1 : xBad s1 = false) by (destruct (xBad s1) eqn:Eb1; [by rewrite (extract_bad _ _ _ _ _ _ _ Er Eb1) in Hbad|done]).
      destruct (IH _ _ _ _ ltac:(lia) Hc El Hy Hb1) as [(b1 & h1 & sel1 & Q1 & X1)|Hcol].
      2:{ right. eapply collision_mono; [|exact Hcol]. fold p1. in_app. }
      destruct (IH (2 * pos + 1)%nat _ _ _ ltac:(lia) ltac:(lia) Er Hz Hbad) as [(b2 & h2 & sel2 & Q2 & X2)|Hcol].
      2:{ right. eapply collision_mono; [|exact Hcol]. fold p2. in_app. }
      left. exists (true :: b1 ++ b2), (h1 ++ h2), (sel1 ++ sel2). split.
      * apply proves_two; [lia|congruence|done|done].
      * exact (extracts_app _ _ _ _ _ _ _ _ _ _ _ X0 (extracts_app _ _ _ _ _ _ _ _ _ _ _ X1 X2)).
    + injection E as E <-. set (p1 := extract_pairs nTx bits hashes k (Z.of_nat (2 * pos)) s0). rewrite (lookup_ge_None_2 (L k)) in * by lia. cbn [default from_option id] in *.
      destruct (combine_inj combine (tree_pairs combine (S k) l ++ p1 ++ [(vl, vl)]) vl vl y y) as [[-> _]|Hcol];
        [in_app|in_app|congruence| |by right].
      destruct (IH _ _ _ _ ltac:(lia) Hc El Hy Hbad) as [(b1 & h1 & sel1 & Q1 & X1)|Hcol].
      2:{ right. eapply collision_mono; [|exact Hcol]. fold p1. in_app. }
      left. exists (true :: b1), h1, sel1. split; [apply proves_one; [lia|done]|]. exact (extracts_app _ _ _ _ _ _ _ _ _ _ _ X0 X1).
Qed.
Lemma extract_total bits hashes k pos s : (k ≤ 30)%nat → is_Some (TraverseAndExtract blank combine nTx bits hashes k pos s).
Proof.
  revert pos s. induction k as [|k IH]; intros pos s Hk; cbn [TraverseAndExtract]; (destruct (bits !! nBitsUsed s) as [b|]; [|by eexists]); cbn [nHashUsed].
  - destruct (hashes !! nHashUsed s); by eexists.
  - destruct b; cbn [negb]; [|destruct (hashes !! nHashUsed s); by eexists].
    destruct (IH (u32 (pos * 2)) (mkExtract (S (nBitsUsed s)) (nHashUsed s) (xBad s) (xMatch s) (xIndex s)) ltac:(lia)) as [[vl s1] ->]. cbn [mbind option_bind].
    rewrite (CalcTreeWidth_spec blank combine l Hn) by lia. cbn [mbind option_bind]. case_match; [|by eexists].
    destruct (IH (u32 (pos * 2 + 1)) s1 ltac:(lia)) as [[vr s2] ->]. by eexists.
Qed.

(** Distinct leaves: distinct nodes, or a collision. *)
Lemma level_distinct k : NoDup l → NoDup (L k) ∨ collision combine (tree_pairs combine k l).
Proof.
  intros Hd. induction k as [|k IH]; [by left|]. assert (Hsub : ∀ x, x ∈ tree_pairs combine k l → x ∈ tree_pairs combine (S k) l) by (intros x; apply tree_pairs_le; lia).
  destruct IH as [IH|Hcol]; [|right; by eapply collision_mono]. rewrite level_S.
  destruct (decide (NoDup (level_up combine (L k)))) as [?|Hnd]; [by left|]. right.
  assert (Hx : ∃ i j x, i ≠ j ∧ level_up combine (L k) !! i = Some x ∧ level_up combine (L k) !! j = Some x).
  { set (u := level_up combine (L k)) in *.
    destruct (decide (Exists (λ i, Exists (λ j, i ≠ j ∧ u !! i = u !! j) (seq 0 (length u))) (seq 0 (length u)))) as [He|Hno].
    - apply Exists_exists in He as (i & Hi & He). apply Exists_exists in He as (j & _ & Hne & He). apply in_seq in Hi.
      destruct (lookup_lt_is_Some_2 u i ltac:(lia)) as [x Hx]. exists i, j, x. split_and!; [done|done|congruence].
    - destruct Hnd. apply NoDup_alt. intros i j x Hi Hj. destruct (decide (i = j)); [done|]. destruct Hno.
      pose proof (lookup_lt_Some _ _ _ Hi). pose proof (lookup_lt_Some _ _ _ Hj).
      apply Exists_exists. exists i. split; [apply in_seq; lia|]. apply Exists_exists. exists j.
      split; [apply in_seq; lia|]. split; [done|congruence]. }
  destruct Hx as (i & j & x & Hne & Hi & Hj).
  destruct (children combine l k i) as (_ & a & Ha & Hxa); [rewrite level_S; by eapply lookup_lt_Some|].
  destruct (children combine l k j) as (_ & b & Hb & Hxb); [rewrite level_S; by eapply lookup_lt_Some|].
  rewrite level_S in Hxa, Hxb. assert (Hc : combine a (default a (L k !! (2 * i + 1)%nat)) = combine b (default b (L k !! (2 * j + 1)%nat))) by congruence.
  apply (combine_inj combine (tree_pairs combine (S k) l)) in Hc as [[-> _]|Hc]; [|exact Hc|by apply tree_pairs_elem; [lia|]|by apply tree_pairs_elem; [lia|]].
  pose proof (NoDup_lookup _ _ _ _ IH Ha Hb). lia.
Qed.
Lemma width_high k : (Nat.log2_up n ≤ k)%nat → (width k ≤ 1)%nat.
Proof.
  intros Hk. pose proof (width_bounds blank combine l Hn k) as (W1 & W2 & _). pose proof (Nat.pow_le_mono_r 2 _ _ ltac:(lia) Hk).
  assert (n ≤ 2 ^ Nat.log2_up n)%nat.
  { destruct (decide (n = 1%nat)) as [E1|Hne]; [rewrite E1; cbn; lia|]. destruct (Nat.log2_up_spec n ltac:(lia)) as [_ H2]. exact H2. }
  nia.
Qed.
Lemma distinct_nodes : NoDup l → nodes_differ combine l ∨ collision combine (hashed_pairs combine l).
Proof.
  intros Hd. assert (H : ∀ N, (N ≤ Nat.log2_up n)%nat → (∀ k, (k ≤ N)%nat → NoDup (L k)) ∨ collision combine (hashed_pairs combine l)).
  - induction N as [|N IH]; intros HN; [left; intros k Hk; by replace k with 0%nat by lia|]. destruct (IH ltac:(lia)) as [IH'|]; [|by right].
    destruct (level_distinct (S N) Hd) as [H|Hcol]; [left|right; eapply collision_mono; [|exact Hcol]; intros x; by apply tree_pairs_le].
    intros k Hk. destruct (Nat.eq_dec k (S N)) as [->|]; [done|apply IH'; lia].
  - destruct (H _ (le_n _)) as [Hlow|]; [left|by right]. intros k _. destruct (Nat.le_gt_cases k (Nat.log2_up n)) as [|Hhigh]; [by apply Hlow|].
    pose proof (width_high k ltac:(lia)) as Hw. destruct (L k) as [|x [|y r]]; [constructor|apply NoDup_singleton|cbn in Hw; lia].
Qed.
End Proves.

(** ** Proofs: bits in bytes *)
Lemma set_bit_length v p b : length (set_bit v p b) = length v.
Proof. apply length_alter. Qed.
Lemma set_bit_ok v p b : bytes_ok v → bytes_ok (set_bit v p b).
Proof. intros Hv. unfold set_bit. apply Forall_alter; [done|]. intros x _ _. apply u8_range. Qed.
Definition bit_at (v : bytes) (q : nat) : bool := Z.testbit (nth (q / 8) v 0) (Z.of_nat (q mod 8)).
Lemma set_bit_at v p b q : (p / 8 < length v)%nat → bit_at v p = false →
  bit_at (set_bit v p b) q = if (q =? p)%nat then b else bit_at v q.
Proof.
  intros Hp Hz. unfold bit_at, set_bit in *. pose proof (Nat.mod_upper_bound p 8 ltac:(lia)) as Hpm. pose proof (Nat.mod_upper_bound q 8 ltac:(lia)) as Hqm.
  pose proof (Nat.div_mod_eq p 8) as Ep. pose proof (Nat.div_mod_eq q 8) as Eq. rewrite !nth_lookup, list_lookup_alter in *.
  destruct (lookup_lt_is_Some_2 v (p / 8) Hp) as [x Hx]. rewrite Hx in *. cbn [default from_option id fmap option_fmap option_map] in *.
  destruct (decide (p / 8 = q / 8)%nat) as [E|Hne].
  - rewrite <- E, Hx. cbn [default from_option id]. unfold u8. change 256 with (2 ^ 8). rewrite Z.mod_pow2_bits_low, Z.lor_spec by lia.
    destruct (Nat.eqb_spec q p) as [->|Hqp].
    + rewrite Hz. cbn [orb]. rewrite Z.shiftl_spec, Z.sub_diag by lia. by destruct b.
    + replace (Z.testbit (Z.shiftl (if b then 1 else 0) (Z.of_nat (p mod 8))) (Z.of_nat (q mod 8))) with false; [by rewrite orb_false_r|].
      symmetry. destruct b; [|by rewrite Z.shiftl_0_l, Z.bits_0]. rewrite Z.shiftl_1_l. apply Z.pow2_bits_false. lia.
  - destruct (Nat.eqb_spec q p) as [->|]; [lia|done].
Qed.
Lemma pack_bits_spec bits v p : bytes_ok v → (∀ i, (p ≤ i)%nat → bit_at v i = false) → (p + length bits ≤ 8 * length v)%nat →
  length (pack_bits v p bits) = length v ∧ bytes_ok (pack_bits v p bits) ∧
  ∀ q, bit_at (pack_bits v p bits) q = if (q <? p)%nat then bit_at v q else default false (bits !! (q - p)%nat).
Proof.
  revert v p. induction bits as [|b bits IH]; intros v p Hv Hz Hl; cbn [pack_bits].
  - split_and!; [done|done|]. intros q. destruct (Nat.ltb_spec q p); [done|by apply Hz].
  - assert (Hp : (p / 8 < length v)%nat) by (apply Nat.div_lt_upper_bound; cbn [length] in Hl; lia).
    assert (Hat : ∀ q, bit_at (set_bit v p b) q = if (q =? p)%nat then b else bit_at v q) by (intros q; apply set_bit_at; [done|by apply Hz]).
    destruct (IH (set_bit v p b) (S p)) as (H1 & H2 & H3).
    + by apply set_bit_ok.
    + intros i Hi. rewrite Hat. destruct (Nat.eqb_spec i p); [lia|apply Hz; lia].
    + rewrite set_bit_length. cbn [length] in Hl. lia.
    + split_and!; [by rewrite H1, set_bit_length|done|]. intros q. rewrite H3, Hat.
      destruct (Nat.ltb_spec q (S p)), (Nat.ltb_spec q p), (Nat.eqb_spec q p); try lia; try done.
      * subst. by rewrite Nat.sub_diag.
      * by replace (q - p)%nat with (S (q - S p)) by lia.
Qed.
Lemma unpack_pack bits : unpack_bits (pack_bits (replicate ((length bits + 7) / 8) 0) 0 bits) =
  bits ++ replicate ((length bits + 7) / 8 * 8 - length bits) false.
Proof.
  set (v := replicate ((length bits + 7) / 8) 0). pose proof (Nat.div_mod_eq (length bits + 7) 8) as E. pose proof (Nat.mod_upper_bound (length bits + 7) 8 ltac:(lia)).
  assert (Hlv : length v = ((length bits + 7) / 8)%nat) by apply length_replicate.
  assert (Hv0 : ∀ i, bit_at v i = false).
  { intros i. unfold bit_at. rewrite nth_lookup. destruct (v !! (i / 8)%nat) as [x|] eqn:Ex; [|apply Z.bits_0]. apply lookup_replicate in Ex as [-> _]. apply Z.bits_0. }
  destruct (pack_bits_spec bits v 0) as (H1 & H2 & H3); [by apply Forall_replicate|by intros; apply Hv0|lia|].
  apply list_eq. intros q. unfold unpack_bits. rewrite H1, Hlv.
  change (map ?f ?l) with (f <$> l). rewrite list_lookup_fmap.
  destruct (Nat.lt_ge_cases q ((length bits + 7) / 8 * 8)) as [Hq|Hq].
  - rewrite (lookup_seq_lt 0 _ q Hq). cbn [fmap option_fmap option_map Nat.add].
    assert (Hb : negb (Z.land (nth (q / 8) (pack_bits v 0 bits) 0) (Z.shiftl 1 (Z.of_nat (q mod 8))) =? 0) = default false (bits !! q)).
    { pose proof (H3 q) as Hq3. destruct (Nat.ltb_spec q 0); [lia|]. rewrite Nat.sub_0_r in Hq3. rewrite <- Hq3. unfold bit_at. rewrite Z.shiftl_1_l.
      set (x := nth _ _ _). set (i := Z.of_nat (q mod 8)). destruct (Z.testbit x i) eqn:Et.
      - destruct (Z.eqb_spec (Z.land x (2 ^ i)) 0) as [Hz|]; [|done]. apply (f_equal (λ y, Z.testbit y i)) in Hz.
        rewrite Z.land_spec, Et, Z.pow2_bits_true, Z.bits_0 in Hz by lia. done.
      - destruct (Z.eqb_spec (Z.land x (2 ^ i)) 0) as [|Hz]; [done|]. destruct Hz. apply Z.bits_inj'. intros j Hj.
        rewrite Z.land_spec, Z.pow2_bits_eqb, Z.bits_0 by lia. destruct (Z.eqb_spec i j) as [<-|]; [by rewrite Et|by rewrite andb_false_r]. }
    rewrite Hb. destruct (Nat.lt_ge_cases q (length bits)) as [Hql|Hql].
    + rewrite lookup_app_l by done. by destruct (lookup_lt_is_Some_2 bits q Hql) as [b ->].
    + rewrite lookup_app_r, (lookup_ge_None_2 bits) by done. rewrite lookup_replicate_2; [done|lia].
  - rewrite (lookup_seq_ge 0) by done. symmetry. apply lookup_ge_None_2. rewrite length_app, length_replicate. lia.
Qed.

(** ** Proofs: the round trip *)
Lemma max_transactions_bound b : 0 ≤ max_transactions b ≤ 17895697.
Proof.
  unfold max_transactions, MIN_TRANSACTION_WEIGHT, WITNESS_SCALE_FACTOR. pose proof (u32_range (b * 4)) as H. unfold is_u32 in H.
  split; [apply Z.div_pos; lia|]. apply Z.lt_succ_r, Z.div_lt_upper_bound; lia.
Qed.

Section RoundTrip.
Context {A : Type} `{!EqDecision A} (blank : A) (combine : A → A → A).
Context (l : list A) (m : list bool) (Hn : 1 ≤ Z.of_nat (length l) ≤ 1073741824) (Hm : length m = length l).
Abbreviation nTx := (Z.of_nat (length l)).
Abbreviation L k := (level combine k l).
Abbreviation width k := (length (level combine k l)).
Abbreviation bt := (built blank combine l m).

Lemma built_proves k pos : nodes_differ combine l → (k ≤ 30)%nat → (pos < width k)%nat →
  proves combine l k pos (fst (bt k pos)) (snd (bt k pos)) (select (pos * 2 ^ k) (segment k pos l) (segment k pos m)).
Proof.
  intros Hd. revert pos. induction k as [|k IH]; intros pos Hk Hp; cbn [built].
  - change (L 0) with l in *. destruct (lookup_lt_is_Some_2 _ _ Hp) as [x Hx]. destruct (lookup_lt_is_Some_2 m pos ltac:(lia)) as [b Hb].
    assert (Sl : segment 0 pos l = [x]) by (unfold segment; by rewrite Nat.pow_0_r, Nat.mul_1_r, (drop_S _ _ _ Hx)).
    assert (Sm : segment 0 pos m = [b]) by (unfold segment; by rewrite Nat.pow_0_r, Nat.mul_1_r, (drop_S _ _ _ Hb)).
    rewrite Sl, Sm, Hx. cbn [existsb id orb fst snd default from_option select]. rewrite orb_false_r, Nat.pow_0_r, Nat.mul_1_r, app_nil_r. by apply proves_leaf.
  - destruct (lookup_lt_is_Some_2 _ _ Hp) as [x Hx]. destruct (existsb id (segment (S k) pos m)) eqn:Ef; cbn [negb].
    + destruct (children combine l k pos Hp) as (Hc & y & Hy & _). specialize (IH (2 * pos)%nat ltac:(lia) Hc) as IH1. specialize (IH (2 * pos + 1)%nat ltac:(lia)) as IH2.
      destruct (bt k (2 * pos)) as [b1 h1]. replace (pos * 2 ^ S k)%nat with (2 * pos * 2 ^ k)%nat by (rewrite Nat.pow_succ_r'; lia).
      rewrite (segment_S k pos l), (segment_S k pos m), select_app by (unfold segment; rewrite !length_take, !length_drop; lia).
      destruct (Nat.ltb_spec (2 * pos + 1) (width k)) as [Hr|Hr].
      * specialize (IH2 Hr). destruct (bt k (2 * pos + 1)) as [b2 h2]. cbn [fst snd] in *. apply proves_two; [done| |done|].
        -- destruct (lookup_lt_is_Some_2 _ _ Hr) as [z Hz]. rewrite Hy, Hz. intros [= ->]. pose proof (NoDup_lookup _ _ _ _ (Hd k ltac:(lia)) Hy Hz). lia.
        -- replace (2 * pos * 2 ^ k + length (segment k (2 * pos) l))%nat with ((2 * pos + 1) * 2 ^ k)%nat; [done|].
           unfold segment. rewrite length_take, length_drop. pose proof (node_start blank combine l Hn k (2 * pos + 1) Hr). lia.
      * rewrite (segment_beyond blank combine l Hn k (2 * pos + 1) l) by done. cbn [select fst snd]. rewrite app_nil_r. by apply proves_one.
    + rewrite select_none, Hx by done. by apply proves_hash.
Qed.
Lemma built_nodes (P : A → Prop) k pos : P blank → (∀ k, Forall P (L k)) → Forall P (snd (bt k pos)).
Proof.
  intros Hb HP.
  assert (Hnode : ∀ k pos, P (default blank (L k !! pos))).
  { intros k' pos'. destruct (L k' !! pos') as [x|] eqn:E; [|done]. by apply (Forall_lookup_1 _ _ _ _ (HP k') E). }
  revert pos. induction k as [|k IH]; intros pos; cbn [built]; [by constructor|].
  destruct (negb _); [by constructor|]. specialize (IH (2 * pos)%nat) as H1. specialize (IH (2 * pos + 1)%nat) as H2.
  destruct (bt k (2 * pos)) as [b1 h1]. case_match; [|done]. destruct (bt k (2 * pos + 1)) as [b2 h2]. by apply list.Forall_app.
Qed.

End RoundTrip.

Section Root.
Context {A : Type} `{!EqDecision A} (blank : A) (combine : A → A → A).
Context (l : list A) (Hn : 1 ≤ Z.of_nat (length l) ≤ 1073741824).
Abbreviation nTx := (Z.of_nat (length l)).
Abbreviation L k := (level combine k l).
Abbreviation width k := (length (level combine k l)).
(** The whole tree, with padding after its bits. *)
Lemma ExtractMatches_proves dgp v bits pad h sel idx : nTx ≤ max_transactions dgp →
  tree_height nTx 31 0 = Some v → (v ≤ 30)%nat → width v = 1%nat → proves combine l v 0 bits h sel →
  ((length bits + 7) / 8 = (length (bits ++ pad) + 7) / 8)%nat →
  let t := mkPartial nTx (bits ++ pad) h false in
  ExtractMatches blank combine dgp t idx = Some (default blank (L v !! 0%nat), map fst sel, idx ++ map (λ o, Z.of_nat (snd o)) sel, t).
Proof.
  intros Hmax Ht Hv Hw Hpr Hpad. pose proof (proves_sizes blank combine l Hn v 0 _ _ _ Hpr ltac:(lia)) as (S1 & S2 & S3).
  rewrite (segment_all blank combine l Hn v l eq_refl Hw) in *.
  unfold ExtractMatches. cbn [nTransactions vBits vHash fBad]. replace (nTx =? 0) with false by lia. replace (nTx >? _) with false by lia.
  replace (Z.of_nat (length h) >? nTx) with false by lia. rewrite length_app in *.
  destruct (Nat.ltb_spec (length bits + length pad) (length h)); [lia|]. rewrite Ht. cbn [mbind option_bind].
  pose proof (extract_proves blank combine l Hn (bits ++ pad) h v 0 (mkExtract 0 0 false [] idx) bits h sel pad [] Hpr Hv ltac:(lia) eq_refl) as E.
  cbn [nHashUsed nBitsUsed xBad xMatch xIndex Nat.add app] in E. rewrite drop_0, app_nil_r in E. specialize (E eq_refl).
  change (Z.of_nat 0) with 0 in E. rewrite E. cbn [mbind option_bind xBad nBitsUsed nHashUsed xMatch xIndex]. by rewrite Hpad, !Nat.eqb_refl.
Qed.
(** The height that is searched is that of the Merkle root. *)
Lemma height_root : ∃ v root mutated, v = Nat.log2_up (length l) ∧ tree_height nTx 31 0 = Some v ∧ (v ≤ 30)%nat ∧ level combine v l = [root] ∧
  merkle_root blank combine l = Some (root, mutated).
Proof.
  destruct (tree_height_spec blank combine l Hn 31 0) as (v & Ev & Hv & Hw & Hj); [lia|lia|lia|].
  assert (Hn31 : (0 < length l ≤ 2 ^ 31)%nat).
  { pose proof (pow_nat 31) as E. change (2 ^ Z.of_nat 31) with 2147483648 in E. set (P := (2 ^ 31)%nat) in *. clearbody P. lia. }
  destruct (MerkleComputation_spec blank combine l 0 (u32 (-1)) false Hn31 ltac:(discriminate)) as (w & r & mutated & b & F & Hr & Hpow & _).
  assert (w = v) as ->.
  { pose proof (tall_pow blank combine w l Hpow) as Ht. destruct (Nat.lt_trichotomy w v) as [Hlt|[->|Hlt]]; [|done|].
    - specialize (Hj w Hlt). rewrite Hr in Hj. cbn in Hj. lia.
    - specialize (Ht v Hlt). rewrite Hw in Ht. lia. }
  exists v, r, mutated. split; [by apply (height_log2 blank combine v l r)|]. split_and!; [done|done|done|]. unfold merkle_root. by rewrite F.
Qed.
End Root.

Lemma sha256_Finalize_ok s : enc_ok uint256_codec (Sha256.Sha256.Finalize s).
Proof.
  unfold Sha256.Sha256.Finalize. cbv zeta. split; [by rewrite !length_app, !length_WriteBE32|].
  repeat first [apply WriteBE32_ok|apply bytes_ok_app; split].
Qed.
Lemma level_ok k l : Forall (enc_ok uint256_codec) l → Forall (enc_ok uint256_codec) (level PartialHash k l).
Proof.
  intros Hl. induction k as [|k IH]; [done|]. rewrite level_S. generalize dependent (level PartialHash k l). intros u Hu.
  induction u as [|a|a b r IH] using pairs_ind; [constructor| |]; cbn [level_up].
  - constructor; [|constructor]. apply sha256_Finalize_ok.
  - apply list.Forall_cons in Hu as [_ Hu]. apply list.Forall_cons in Hu as [_ Hu]. constructor; [apply sha256_Finalize_ok|by apply IH].
Qed.
Lemma null_ok : enc_ok uint256_codec uint256_null.
Proof. split; [done|by apply bytes_ok_compute]. Qed.

Lemma partial_Serialize_read (t : CPartialMerkleTree bytes) r : is_u32 (nTransactions t) → Forall (enc_ok uint256_codec) (vHash t) →
  Z.of_nat (length (vHash t)) ≤ MAX_SIZE → Z.of_nat (length (vBits t)) ≤ 8 * MAX_SIZE - 8 →
  partial_Unserialize (partial_Serialize t ++ r) =
    Some (mkPartial (nTransactions t) (vBits t ++ replicate ((length (vBits t) + 7) / 8 * 8 - length (vBits t)) false) (vHash t) false, r).
Proof.
  intros H1 H2 H3 H4. unfold partial_Unserialize, partial_Serialize. rewrite <- !app_assoc.
  rewrite (enc_dec (c := u32_codec)) by done. cbn [mbind option_bind]. rewrite (enc_dec (c := vector_codec uint256_codec)) by done. cbn [mbind option_bind].
  pose proof (Nat.div_mod_eq (length (vBits t) + 7) 8). pose proof (Nat.mod_upper_bound (length (vBits t) + 7) 8 ltac:(lia)).
  destruct (pack_bits_spec (vBits t) (replicate ((length (vBits t) + 7) / 8) 0) 0) as (P1 & P2 & _).
  { by apply Forall_replicate. }
  { intros i _. unfold bit_at. rewrite nth_lookup. destruct (replicate _ _ !! (i / 8)%nat) as [x|] eqn:Ex; [|apply Z.bits_0]. apply lookup_replicate in Ex as [-> _]. apply Z.bits_0. }
  { rewrite length_replicate. lia. }
  rewrite (enc_dec (c := blob_codec)); [|split; [done|]; rewrite P1, length_replicate; lia]. cbn [mbind option_bind]. by rewrite unpack_pack.
Qed.

(** A partial Merkle tree gives back what was put in.  For distinct
    transaction identifiers, within the number of transactions a block can have,
    the tree that is built for a selection yields, from its wire form too, the
    Merkle root of the block and exactly the selected identifiers
    with their positions; the alternative is a collision of the hash of pairs. *)
Theorem partial_tree_roundtrip (dgpMaxBlockSize : Z) (vTxid : list bytes) (vMatch : list bool) (vnIndex : list Z) (r : bytes) :
  vTxid ≠ [] → Z.of_nat (length vTxid) ≤ max_transactions dgpMaxBlockSize → length vMatch = length vTxid →
  NoDup vTxid → Forall (enc_ok uint256_codec) vTxid →
  (∃ t t' root mutated, new_CPartialMerkleTree PartialHash vTxid vMatch = Some t ∧
     ComputeMerkleRoot vTxid = Some (root, mutated) ∧
     partial_Unserialize (partial_Serialize t ++ r) = Some (t', r) ∧
     let sel := select 0 vTxid vMatch in
     let result := (root, map fst sel, vnIndex ++ map (λ o, Z.of_nat (snd o)) sel) in
     ExtractMatches uint256_null PartialHash dgpMaxBlockSize t vnIndex = Some (result, t) ∧
     ExtractMatches uint256_null PartialHash dgpMaxBlockSize t' vnIndex = Some (result, t')) ∨
  collision PartialHash (hashed_pairs PartialHash vTxid).
Proof.
  intros Hne Hmax Hm Hd Hok. pose proof (max_transactions_bound dgpMaxBlockSize) as Hb.
  assert (Hn : 1 ≤ Z.of_nat (length vTxid) ≤ 1073741824) by (destruct vTxid; [done|cbn [length] in *; lia]).
  destruct (distinct_nodes uint256_null PartialHash vTxid Hn Hd) as [Hnodes|]; [left|by right].
  destruct (height_root uint256_null PartialHash vTxid Hn) as (v & root & mutated & Elog & Ev & Hv & Hroot & Hmr).
  assert (Hw : length (level PartialHash v vTxid) = 1%nat) by (by rewrite Hroot).
  set (b := built uint256_null PartialHash vTxid vMatch v 0).
  set (pad := ((length (fst b) + 7) / 8 * 8 - length (fst b))%nat).
  exists (mkPartial (Z.of_nat (length vTxid)) (fst b) (snd b) false),
    (mkPartial (Z.of_nat (length vTxid)) (fst b ++ replicate pad false) (snd b) false), root, mutated.
  pose proof (built_proves uint256_null PartialHash vTxid vMatch Hn Hm v 0 Hnodes Hv ltac:(lia)) as Hpr. fold b in Hpr. change (0 * 2 ^ v)%nat with 0%nat in Hpr.
  rewrite (segment_all uint256_null PartialHash vTxid Hn v vTxid eq_refl Hw), (segment_all uint256_null PartialHash vTxid Hn v vMatch Hm Hw) in Hpr.
  pose proof (proves_sizes uint256_null PartialHash vTxid Hn v 0 _ _ _ Hpr ltac:(lia)) as (S1 & S2 & S3).
  rewrite (segment_all uint256_null PartialHash vTxid Hn v vTxid eq_refl Hw) in S2, S3.
  pose proof (λ pad Hp, ExtractMatches_proves uint256_null PartialHash vTxid Hn dgpMaxBlockSize v (fst b) pad (snd b) _ vnIndex Hmax Ev Hv Hw Hpr Hp) as Hex.
  cbv zeta in Hex. rewrite Hroot in Hex. cbn [lookup list_lookup default from_option id] in Hex.
  split; [|split; [exact Hmr|split; [|cbv zeta; split]]].
  - unfold new_CPartialMerkleTree. rewrite u32_small by (unfold is_u32; lia). rewrite Ev. cbn [mbind option_bind].
    pose proof (TraverseAndBuild_spec uint256_null PartialHash vTxid vMatch Hn Hm v 0 ([], []) Hv ltac:(lia)) as Et. fold b in Et. change (Z.of_nat 0) with 0 in Et. rewrite Et. done.
  - rewrite partial_Serialize_read; [done|..]; cbn [nTransactions vBits vHash]; unfold is_u32, MAX_SIZE; [lia| |lia|nia].
    apply built_nodes; [apply null_ok|]. intros k. by apply level_ok.
  - pose proof (Hex []) as H0. rewrite app_nil_r in H0. by apply H0.
  - apply Hex. rewrite length_app, length_replicate. unfold pad. pose proof (Nat.div_mod_eq (length (fst b) + 7) 8). pose proof (Nat.mod_upper_bound (length (fst b) + 7) 8 ltac:(lia)).
    set (q := ((length (fst b) + 7) / 8)%nat) in *. replace (length (fst b) + (q * 8 - length (fst b)) + 7)%nat with (7 + q * 8)%nat by lia.
    rewrite Nat.div_add by lia. done.
Qed.

(** A tree that proves the matches [sel] in a list of identifiers, with its bits padded to bytes. *)
Definition partial_proof (dgpMaxBlockSize : Z) (vTxid : list bytes) (t : CPartialMerkleTree bytes) (sel : list (bytes * nat)) : Prop :=
  nTransactions t = Z.of_nat (length vTxid) ∧ 1 ≤ nTransactions t ≤ max_transactions dgpMaxBlockSize ∧ fBad t = false ∧
  ∃ bits pad, vBits t = bits ++ pad ∧ ((length bits + 7) / 8 = (length (bits ++ pad) + 7) / 8)%nat ∧
    proves PartialHash vTxid (Nat.log2_up (length vTxid)) 0 bits (vHash t) sel.
(** The pairs that the extraction from a tree hashes. *)
Definition partial_pairs (t : CPartialMerkleTree bytes) (vnIndex : list Z) : list (bytes * bytes) :=
  extract_pairs uint256_null PartialHash (nTransactions t) (vBits t) (vHash t) (Nat.log2_up (Z.to_nat (nTransactions t))) 0 (mkExtract 0 0 (fBad t) [] vnIndex).

(** C28. A partial Merkle tree cannot lie.  Whatever bits and hashes a tree carries,
    extracting its matches terminates without a failure.  When the number of
    transactions is that of a list of identifiers and the extracted root is the Merkle root of
    that list, then the tree is a proof of what is reported: its bits and hashes, all of them up to the padding of the bits,
    are those of nodes of the tree of the list, no two neighbours are equal, and every reported match is the identifier at the reported
    position; or else two different pairs, among those hashed for the list and by the extraction, have the same hash.
    And every such proof is accepted, with its matches. *)
Theorem partial_tree_sound (dgpMaxBlockSize : Z) (t : CPartialMerkleTree bytes) (vTxid : list bytes) (vnIndex : list Z) :
  nTransactions t = Z.of_nat (length vTxid) →
  (∃ root ms idx t', ExtractMatches uint256_null PartialHash dgpMaxBlockSize t vnIndex = Some (root, ms, idx, t') ∧
     (root ≠ uint256_null → (∃ mutated, ComputeMerkleRoot vTxid = Some (root, mutated)) →
      (∃ sel, partial_proof dgpMaxBlockSize vTxid t sel ∧ t' = t ∧ ms = map fst sel ∧ idx = vnIndex ++ map (λ o, Z.of_nat (snd o)) sel ∧
         Forall (λ o : bytes * nat, vTxid !! snd o = Some (fst o)) sel)
      ∨ collision PartialHash (hashed_pairs PartialHash vTxid ++ partial_pairs t vnIndex))) ∧
  ∀ sel, partial_proof dgpMaxBlockSize vTxid t sel → ∃ root mutated, ComputeMerkleRoot vTxid = Some (root, mutated) ∧
    ExtractMatches uint256_null PartialHash dgpMaxBlockSize t vnIndex = Some (root, map fst sel, vnIndex ++ map (λ o, Z.of_nat (snd o)) sel, t).
Proof.
  intros Ht. pose proof (max_transactions_bound dgpMaxBlockSize). split.
  2:{ intros sel (_ & Hmax & Hbad & bits & pad & Eb & Hpad & Hpr). assert (Hn : 1 ≤ Z.of_nat (length vTxid) ≤ 1073741824) by lia.
    destruct (height_root uint256_null PartialHash vTxid Hn) as (v & root & mutated & Elog & Ev & Hv & Hroot & Hmr). rewrite <- Elog in Hpr.
    exists root, mutated. split; [exact Hmr|]. destruct t as [count tbits hs bad]. cbn [nTransactions vBits vHash fBad] in *. subst count tbits bad.
    rewrite (ExtractMatches_proves uint256_null PartialHash vTxid Hn dgpMaxBlockSize v bits pad hs sel vnIndex ltac:(lia) Ev Hv ltac:(by rewrite Hroot) Hpr Hpad).
    by rewrite Hroot. }
  unfold ExtractMatches. rewrite Ht.
  destruct (Z.eqb_spec (Z.of_nat (length vTxid)) 0); [by do 4 eexists|]. destruct (Z.gtb_spec (Z.of_nat (length vTxid)) (max_transactions dgpMaxBlockSize)); [by do 4 eexists|].
  case_match; [by do 4 eexists|]. case_match; [by do 4 eexists|].
  assert (Hn : 1 ≤ Z.of_nat (length vTxid) ≤ 1073741824) by lia.
  destruct (height_root uint256_null PartialHash vTxid Hn) as (v & root & mutated & Elog & Ev & Hv & Hroot & Hmr).
  rewrite Ev. cbn [mbind option_bind].
  destruct (extract_total uint256_null PartialHash vTxid Hn (vBits t) (vHash t) v 0 (mkExtract 0 0 (fBad t) [] vnIndex) Hv) as [[x s] Ex].
  rewrite Ex. cbn [mbind option_bind]. cbn [vBits vHash]. destruct (xBad s) eqn:Ebad; [by do 4 eexists|].
  destruct (Nat.eqb_spec ((nBitsUsed s + 7) / 8) ((length (vBits t) + 7) / 8)) as [Ebits|]; [|by do 4 eexists].
  destruct (Nat.eqb_spec (nHashUsed s) (length (vHash t))) as [Ehash|]; [|by do 4 eexists]. cbn [negb].
  assert (Hbad : fBad t = false) by (destruct (fBad t) eqn:E0; [by rewrite (extract_bad _ _ _ _ _ _ _ _ _ _ Ex eq_refl) in Ebad|done]).
  do 4 eexists. split; [done|]. intros _ [mutated' Hc]. unfold ComputeMerkleRoot in Hc. change CombineHash with PartialHash in Hc. rewrite Hmr in Hc.
  injection Hc as <- _. change 0 with (Z.of_nat 0) in Ex.
  destruct (extract_sound uint256_null PartialHash vTxid Hn (vBits t) (vHash t) v 0 _ _ _ Hv ltac:(rewrite Hroot; cbn; lia) Ex ltac:(by rewrite Hroot) Ebad)
    as [(b & h & sel & Hpr & [X1 X2 X3 X4 X5 X6])|Hcol]; [left|right].
  - cbn [nBitsUsed nHashUsed xMatch xIndex app Nat.add] in *. rewrite drop_0 in X1. rewrite drop_0 in X3.
    assert (Eh : h = vHash t) by (rewrite Ehash, drop_all, app_nil_r in X3; done).
    exists sel. split; [|split; [destruct t; cbn in *; by subst|split; [exact X5|split; [exact X6|by eapply proves_matches]]]].
    split; [done|]. split; [lia|]. split; [done|]. exists b, (drop (nBitsUsed s) (vBits t)). split; [exact X1|]. rewrite <- X1, <- Elog, <- Eh. split; [by rewrite <- X2|done].
  - unfold partial_pairs, hashed_pairs. by rewrite Ht, Nat2Z.id, <- Elog.
Qed.


Definition partial_example : list bytes := leaves_example [1; 2; 3].
Definition partial_match : list bool := [true; false; true].
Lemma partial_tree_roundtrip_witness :
  (∃ t t' root mutated, new_CPartialMerkleTree PartialHash partial_example partial_match = Some t ∧
     ComputeMerkleRoot partial_example = Some (root, mutated) ∧
     partial_Unserialize (partial_Serialize t ++ [7]) = Some (t', [7]) ∧
     let sel := select 0 partial_example partial_match in
     let result := (root, map fst sel, [] ++ map (λ o, Z.of_nat (snd o)) sel) in
     ExtractMatches uint256_null PartialHash 2000000 t [] = Some (result, t) ∧
     ExtractMatches uint256_null PartialHash 2000000 t' [] = Some (result, t')) ∨
  collision PartialHash (hashed_pairs PartialHash partial_example).
Proof.
  apply (partial_tree_roundtrip 2000000 partial_example partial_match [] [7]).
  - discriminate.
  - vm_compute. discriminate.
  - reflexivity.
  - apply (bool_decide_eq_true_1 (NoDup partial_example)). vm_compute. reflexivity.
  - repeat apply List.Forall_cons; [..|apply List.Forall_nil]; (split; [reflexivity|by apply bytes_ok_compute]).
Defined.
(** Three transactions, the first and the third reported; and the same with a bit too many. *)
Definition partial_tree_example : CPartialMerkleTree bytes := default (mkPartial 0 [] [] false) (new_CPartialMerkleTree PartialHash partial_example partial_match).
Lemma partial_tree_sound_witness :
  ∃ root ms idx t', ExtractMatches uint256_null PartialHash 2000000 partial_tree_example [] = Some (root, ms, idx, t') ∧ root ≠ uint256_null ∧ idx = [0; 2] ∧
    ((∃ sel, partial_proof 2000000 partial_example partial_tree_example sel ∧ t' = partial_tree_example ∧ ms = map fst sel ∧ idx = [] ++ map (λ o, Z.of_nat (snd o)) sel ∧
        Forall (λ o : bytes * nat, partial_example !! snd o = Some (fst o)) sel)
     ∨ collision PartialHash (hashed_pairs PartialHash partial_example ++ partial_pairs partial_tree_example [])).
Proof.
  destruct (partial_tree_sound 2000000 partial_tree_example partial_example []) as [(root & ms & idx & t' & E & H) _]; [vm_compute; reflexivity|].
  exists root, ms, idx, t'. split; [exact E|]. assert (Hr : root ≠ uint256_null ∧ idx = [0; 2] ∧ ∃ mutated, ComputeMerkleRoot partial_example = Some (root, mutated)).
  { vm_compute in E. injection E as <- _ <- _. split; [discriminate|]. split; [reflexivity|]. eexists. vm_compute. reflexivity. }
  destruct Hr as (H1 & H2 & H3). split; [exact H1|]. split; [exact H2|]. exact (H H1 H3).
Defined.
