(* ===== verification/BlockIndex.v ===== *)
(** * The block index (src/src/chain.h, chain.cpp, and AddToBlockIndex of
    validation.cpp)

    Every header the node knows is a [CBlockIndex] object on the heap; the
    objects point at their predecessor and at one earlier ancestor.  The heap
    is a finite map from locations to objects; a dangling pointer or a failed
    [assert] is [None]. *)

From stdpp Require Import base numbers list option gmap sorting.
From Stdlib Require Import ZArith Lia ZifyNat ZifyBool.
From S2P Require Import Prelude Endian Hash ArithUint256 Compact Transaction Block.
Import Arith256.

Abbreviation ptr := positive.

(** ** [BlockStatus] *)
Definition BLOCK_VALID_UNKNOWN : Z := 0.
Definition BLOCK_VALID_HEADER : Z := 1.
Definition BLOCK_VALID_TREE : Z := 2.
Definition BLOCK_VALID_TRANSACTIONS : Z := 3.
Definition BLOCK_VALID_CHAIN : Z := 4.
Definition BLOCK_VALID_SCRIPTS : Z := 5.
Definition BLOCK_VALID_MASK : Z :=
  Z.lor BLOCK_VALID_HEADER (Z.lor BLOCK_VALID_TREE (Z.lor BLOCK_VALID_TRANSACTIONS
    (Z.lor BLOCK_VALID_CHAIN BLOCK_VALID_SCRIPTS))).
Definition BLOCK_HAVE_DATA : Z := 8.
Definition BLOCK_HAVE_UNDO : Z := 16.
Definition BLOCK_FAILED_VALID : Z := 32.
Definition BLOCK_FAILED_CHILD : Z := 64.
Definition BLOCK_FAILED_MASK : Z := Z.lor BLOCK_FAILED_VALID BLOCK_FAILED_CHILD.

(** ** Data *)

(** The copy of the header inside the index entry: everything but the previous
    hash, which [pprev] stands for. *)
Record IndexHeader := mkIndexHeader {
  ih_nVersion : Z; ih_hashMerkleRoot : bytes; ih_nTime : Z; ih_nBits : Z;
  ih_hashStateRoot : bytes; ih_hashUTXORoot : bytes; ih_seed : Z; ih_nNonce : Z; ih_nNonce_ex : Z;
  ih_sig1 : bytes; ih_sig2 : bytes; ih_sig3 : bytes; ih_sig4 : bytes; ih_sig5 : bytes }.

Record CBlockIndex := mkIndex {
  phashBlock : option bytes;
  pprev : option ptr;
  pskip : option ptr;
  nHeight : Z;
  nFile : Z;
  nDataPos : Z;
  nUndoPos : Z;
  nChainWork : list Z;
  nTx : Z;
  nChainTx : Z;
  nStatus : Z;
  bi_header : IndexHeader;
  nStakeModifier : bytes;
  hashProof : bytes;
  nMoneySupply : Z;
  nSequenceId : Z;
  nTimeMax : Z }.

(** The constructor from a header: [SetNull], then the header fields. *)
Definition copy_header (h : CBlockHeader) : IndexHeader :=
  let o := old h in
  mkIndexHeader (bh_nVersion o) (hashMerkleRoot o) (nTime o) (nBits o) (hashStateRoot o) (hashUTXORoot o)
    (seed o) (nNonce o) (nNonce_ex o) (sig1 h) (sig2 h) (sig3 h) (sig4 h) (sig5 h).
Definition new_CBlockIndex (h : CBlockHeader) : CBlockIndex :=
  mkIndex None None None 0 0 0 0 zero 0 0 0 (copy_header h) uint256_null uint256_null 0 0 0.

Definition IndexTime (n : CBlockIndex) : Z := ih_nTime (bi_header n).
Definition IndexBits (n : CBlockIndex) : Z := ih_nBits (bi_header n).

Abbreviation heap := (gmap ptr CBlockIndex).

(** The globals of validation.cpp the index lives in. *)
Record BlockTree := mkTree {
  nodes : heap;
  mapBlockIndex : gmap bytes ptr;
  pindexBestHeader : option ptr;
  setDirtyBlockIndex : gset ptr }.
Definition empty_tree : BlockTree := mkTree ∅ ∅ None ∅.

(** Assignments to one field. *)
Definition set_hash (n : CBlockIndex) (h : bytes) : CBlockIndex :=
  mkIndex (Some h) (pprev n) (pskip n) (nHeight n) (nFile n) (nDataPos n) (nUndoPos n) (nChainWork n) (nTx n)
    (nChainTx n) (nStatus n) (bi_header n) (nStakeModifier n) (hashProof n) (nMoneySupply n) (nSequenceId n) (nTimeMax n).
Definition set_prev (n : CBlockIndex) (q : ptr) (height : Z) : CBlockIndex :=
  mkIndex (phashBlock n) (Some q) (pskip n) height (nFile n) (nDataPos n) (nUndoPos n) (nChainWork n) (nTx n)
    (nChainTx n) (nStatus n) (bi_header n) (nStakeModifier n) (hashProof n) (nMoneySupply n) (nSequenceId n) (nTimeMax n).
Definition set_skip (n : CBlockIndex) (s : option ptr) : CBlockIndex :=
  mkIndex (phashBlock n) (pprev n) s (nHeight n) (nFile n) (nDataPos n) (nUndoPos n) (nChainWork n) (nTx n)
    (nChainTx n) (nStatus n) (bi_header n) (nStakeModifier n) (hashProof n) (nMoneySupply n) (nSequenceId n) (nTimeMax n).
Definition set_totals (n : CBlockIndex) (timeMax : Z) (work : list Z) (modifier : bytes) : CBlockIndex :=
  mkIndex (phashBlock n) (pprev n) (pskip n) (nHeight n) (nFile n) (nDataPos n) (nUndoPos n) work (nTx n)
    (nChainTx n) (nStatus n) (bi_header n) modifier (hashProof n) (nMoneySupply n) (nSequenceId n) timeMax.
Definition set_status (n : CBlockIndex) (st : Z) : CBlockIndex :=
  mkIndex (phashBlock n) (pprev n) (pskip n) (nHeight n) (nFile n) (nDataPos n) (nUndoPos n) (nChainWork n) (nTx n)
    (nChainTx n) st (bi_header n) (nStakeModifier n) (hashProof n) (nMoneySupply n) (nSequenceId n) (nTimeMax n).

(** ** Ancestors *)
Definition InvertLowestOne (n : Z) : Z := Z.land n (n - 1).
Definition GetSkipHeight (height : Z) : Z :=
  if height <? 2 then 0
  else if negb (Z.land height 1 =? 0)
  then InvertLowestOne (InvertLowestOne (height - 1)) + 1
  else InvertLowestOne height.

Fixpoint GetAncestor_loop (t : heap) (fuel : nat) (height : Z) (pindexWalk : ptr) (heightWalk : Z)
    : option ptr :=
  if heightWalk >? height then
    match fuel with
    | O => None
    | S fuel' =>
        walk ← t !! pindexWalk;
        let heightSkip := GetSkipHeight heightWalk in
        let heightSkipPrev := GetSkipHeight (heightWalk - 1) in
        let follow := (heightSkip =? height)
          || ((heightSkip >? height)
              && negb ((heightSkipPrev <? heightSkip - 2) && (heightSkipPrev >=? height))) in
        match pskip walk with
        | Some s =>
            if follow then GetAncestor_loop t fuel' height s heightSkip
            else q ← pprev walk; GetAncestor_loop t fuel' height q (heightWalk - 1)
        | None => q ← pprev walk; GetAncestor_loop t fuel' height q (heightWalk - 1)
        end
    end
  else Some pindexWalk.

(** The inner option is the pointer returned (null for a height outside the
    chain), the outer one a failed assertion. *)
Definition GetAncestor (t : heap) (p : ptr) (height : Z) : option (option ptr) :=
  n ← t !! p;
  if (height >? nHeight n) || (height <? 0) then Some None
  else r ← GetAncestor_loop t (Z.to_nat (nHeight n - height)) height p (nHeight n); Some (Some r).

Definition BuildSkip (t : heap) (n : CBlockIndex) : option CBlockIndex :=
  match pprev n with
  | Some q => s ← GetAncestor t q (GetSkipHeight (nHeight n)); Some (set_skip n s)
  | None => Some n
  end.

(** [while (pa != pb && pa && pb)], then [assert(pa == pb)]. *)
Fixpoint LastCommonAncestor_loop (t : heap) (fuel : nat) (pa pb : option ptr) : option (option ptr) :=
  match pa, pb with
  | Some a, Some b =>
      if decide (a = b) then Some (Some a)
      else match fuel with
           | O => None
           | S fuel' =>
               na ← t !! a; nb ← t !! b;
               LastCommonAncestor_loop t fuel' (pprev na) (pprev nb)
           end
  | None, None => Some None
  | _, _ => None
  end.
Definition LastCommonAncestor (t : heap) (pa pb : ptr) : option (option ptr) :=
  na ← t !! pa; nb ← t !! pb;
  '(pa', pb') ←
    (if nHeight na >? nHeight nb then r ← GetAncestor t pa (nHeight nb); Some (r, Some pb)
     else if nHeight nb >? nHeight na then r ← GetAncestor t pb (nHeight na); Some (Some pa, r)
     else Some (Some pa, Some pb));
  LastCommonAncestor_loop t (S (Z.to_nat (Z.min (nHeight na) (nHeight nb)))) pa' pb'.

(** ** Times *)
Definition nMedianTimeSpan : nat := 11.
(** The block times of the entry and its predecessors, at most [k]. *)
Fixpoint recent_times (t : heap) (k : nat) (p : option ptr) : list Z :=
  match k, p with
  | S k', Some q =>
      match t !! q with
      | Some n => IndexTime n :: recent_times t k' (pprev n)
      | None => []
      end
  | _, _ => []
  end.
Definition GetMedianTimePast (t : heap) (p : ptr) : option Z :=
  let pmedian := merge_sort Z.le (recent_times t nMedianTimeSpan (Some p)) in
  pmedian !! (length pmedian / 2)%nat.

(** ** Validity bits *)
Definition IsValid (n : CBlockIndex) (nUpTo : Z) : bool :=
  if negb (Z.land (nStatus n) BLOCK_FAILED_MASK =? 0) then false
  else Z.land (nStatus n) BLOCK_VALID_MASK >=? nUpTo.
Definition RaiseValidity (n : CBlockIndex) (nUpTo : Z) : CBlockIndex * bool :=
  if negb (Z.land (nStatus n) BLOCK_FAILED_MASK =? 0) then (n, false)
  else if Z.land (nStatus n) BLOCK_VALID_MASK <? nUpTo
  then (set_status n (Z.lor (Z.land (nStatus n) (u32 (Z.lnot BLOCK_VALID_MASK))) nUpTo), true)
  else (n, false).

(** ** Work *)
Definition GetBlockProof (nBits : Z) : option (list Z) :=
  let '(bnTarget, fNegative, fOverflow) := SetCompact nBits in
  if fNegative || fOverflow || EqualTo bnTarget 0 then Some zero
  else q ← div (op_not bnTarget) (add bnTarget (of_uint64 1)); Some (add q (of_uint64 1)).

Definition GetBlockProofEquivalentTime (to from tip : CBlockIndex) (nPowTargetSpacing : Z) : option Z :=
  let '(r, sign) :=
    if 0 <? CompareTo (nChainWork to) (nChainWork from)
    then (sub (nChainWork to) (nChainWork from), 1)
    else (sub (nChainWork from) (nChainWork to), -1) in
  proof ← GetBlockProof (IndexBits tip);
  r ← div (mul r (of_uint64 (u64 nPowTargetSpacing))) proof;
  if bits r >? 63 then Some (sign * 9223372036854775807)
  else Some (i64 (u64 (sign * GetLow64 r))).

(** ** Adding a header *)
Definition ComputeStakeModifier (prev : option CBlockIndex) (kernel : bytes) : bytes :=
  match prev with
  | None => uint256_null
  | Some m => Hashes.Hash1 (kernel ++ nStakeModifier m)
  end.

(** [miPrev = mapBlockIndex.find(block.hashPrevBlock)] and what follows: the
    new entry [pindexNew], at location [p], and the heap with it. *)
Definition LinkPrev (hp : heap) (p : ptr) (pindexNew : CBlockIndex) (miPrev : option ptr)
    : option (CBlockIndex * heap) :=
  match miPrev with
  | Some q =>
      m ← hp !! q;
      let pindexNew := set_prev pindexNew q (i32 (nHeight m + 1)) in
      let hp := <[p := pindexNew]> hp in
      pindexNew ← BuildSkip hp pindexNew;
      Some (pindexNew, <[p := pindexNew]> hp)
  | None => Some (pindexNew, hp)
  end.

Definition AddToBlockIndex (t : BlockTree) (block : CBlockHeader) : option (BlockTree * ptr) :=
  hash ← Header_GetHash block;
  match mapBlockIndex t !! hash with
  | Some p => Some (t, p)
  | None =>
      let p : ptr := fresh (dom (nodes t) : gset ptr) in
      let pindexNew := set_hash (new_CBlockIndex block) hash in
      let map := <[hash := p]> (mapBlockIndex t) in
      let hp := <[p := pindexNew]> (nodes t) in
      '(pindexNew, hp) ← LinkPrev hp p pindexNew (map !! hashPrevBlock (old block));
      prev ← (match pprev pindexNew with Some q => m ← hp !! q; Some (Some m) | None => Some None end);
      let timeMax := match prev with Some m => Z.max (nTimeMax m) (IndexTime pindexNew) | None => IndexTime pindexNew end in
      proof ← GetBlockProof (IndexBits pindexNew);
      let work := add (match prev with Some m => nChainWork m | None => zero end) proof in
      let pindexNew := set_totals pindexNew timeMax work (ComputeStakeModifier prev hash) in
      let pindexNew := fst (RaiseValidity pindexNew BLOCK_VALID_TREE) in
      best ← (match pindexBestHeader t with
              | None => Some (Some p)
              | Some b =>
                  nb ← nodes t !! b;
                  Some (if CompareTo (nChainWork nb) work <? 0 then Some p else Some b)
              end);
      Some (mkTree (<[p := pindexNew]> hp) map best ({[p]} ∪ setDirtyBlockIndex t), p)
  end.

(** ** The order of the candidates for the tip *)
Definition WorkComparator (a b : ptr * CBlockIndex) : bool :=
  let '(pa, na) := a in let '(pb, nb) := b in
  if 0 <? CompareTo (nChainWork na) (nChainWork nb) then false
  else if CompareTo (nChainWork na) (nChainWork nb) <? 0 then true
  else if nSequenceId na <? nSequenceId nb then false
  else if nSequenceId na >? nSequenceId nb then true
  else if (pa <? pb)%positive then false
  else if (pb <? pa)%positive then true
  else false.

(** ** Heights to skip to *)

Lemma land_le a b : 0 ≤ b → 0 ≤ Z.land a b ≤ b.
Proof.
  intros Hb. apply Z.ldiff_le; [done|]. apply Z.bits_inj'. intros i Hi.
  rewrite Z.ldiff_spec, Z.land_spec, Z.bits_0. by destruct (Z.testbit a i), (Z.testbit b i).
Qed.
Lemma InvertLowestOne_bounds n : 1 ≤ n → 0 ≤ InvertLowestOne n < n.
Proof. intros Hn. pose proof (land_le n (n - 1) ltac:(lia)). unfold InvertLowestOne. lia. Qed.

Lemma GetSkipHeight_bounds h : 1 ≤ h → 0 ≤ GetSkipHeight h < h.
Proof.
  intros Hh. unfold GetSkipHeight. destruct (Z.ltb_spec h 2); [lia|].
  destruct (negb _); [|apply InvertLowestOne_bounds; lia].
  pose proof (InvertLowestOne_bounds (h - 1) ltac:(lia)) as H1.
  destruct (decide (InvertLowestOne (h - 1) = 0)) as [->|].
  - change (InvertLowestOne 0) with 0. lia.
  - pose proof (InvertLowestOne_bounds (InvertLowestOne (h - 1)) ltac:(lia)). lia.
Qed.
Lemma GetSkipHeight_nonneg h : 0 ≤ h → 0 ≤ GetSkipHeight h ≤ h.
Proof.
  intros Hh. destruct (decide (h = 0)) as [->|]; [done|]. pose proof (GetSkipHeight_bounds h). lia.
Qed.

(** ** The tree: predecessors [k] steps back *)

Fixpoint up (t : heap) (k : nat) (p : ptr) : option ptr :=
  match k with
  | O => Some p
  | S k' => n ← t !! p; q ← pprev n; up t k' q
  end.

Record node_linked (t : heap) (p : ptr) (n : CBlockIndex) : Prop := {
  nl_height : 0 ≤ nHeight n;
  nl_root : pprev n = None → nHeight n = 0;
  nl_parent : ∀ q, pprev n = Some q → ∃ m, t !! q = Some m ∧ nHeight n = nHeight m + 1;
  nl_skip : ∀ s, pskip n = Some s → up t (Z.to_nat (nHeight n - GetSkipHeight (nHeight n))) p = Some s;
}.
Definition linked (t : heap) : Prop := ∀ p n, t !! p = Some n → node_linked t p n.

Lemma up_add t a b p : up t (a + b) p = up t a p ≫= up t b.
Proof.
  revert p. induction a as [|a IH]; intros p; [done|]. cbn [up Nat.add].
  destruct (t !! p) as [n|]; [|done]. cbn [mbind option_bind].
  destruct (pprev n); [|done]. cbn [mbind option_bind]. apply IH.
Qed.
Lemma up_S t k p q : up t k p = Some q → up t (S k) p = up t 1 q.
Proof. intros E. replace (S k) with (k + 1)%nat by lia. by rewrite up_add, E. Qed.

Section Linked.
Context (t : heap) (Ht : linked t).

Lemma up_step p n : t !! p = Some n →
  up t 1 p = pprev n.
Proof. intros E. cbn [up]. rewrite E. cbn. by destruct (pprev n). Qed.

Lemma up_height k p n :
  t !! p = Some n → Z.of_nat k ≤ nHeight n →
  ∃ q m, up t k p = Some q ∧ t !! q = Some m ∧ nHeight m = nHeight n - Z.of_nat k.
Proof.
  revert p n. induction k as [|k IH]; intros p n Hp Hk; [exists p, n; split_and!; (done || lia)|].
  pose proof (Ht p n Hp) as Hn. cbn [up]. rewrite Hp. cbn [mbind option_bind].
  destruct (pprev n) as [q|] eqn:Eq; [|pose proof (nl_root _ _ _ Hn Eq); lia]. cbn [mbind option_bind].
  destruct (nl_parent _ _ _ Hn q Eq) as (m & Hm & Hh).
  destruct (IH q m Hm ltac:(lia)) as (r & l & H1 & H2 & H3). exists r, l. split_and!; [done..|lia].
Qed.

Lemma up_beyond k p n : t !! p = Some n → nHeight n < Z.of_nat k → up t k p = None.
Proof.
  revert p n. induction k as [|k IH]; intros p n Hp Hk; pose proof (Ht p n Hp) as Hn.
  - pose proof (nl_height _ _ _ Hn). lia.
  - cbn [up]. rewrite Hp. cbn [mbind option_bind]. destruct (pprev n) as [q|] eqn:Eq; [|done]. cbn [mbind option_bind].
    destruct (nl_parent _ _ _ Hn q Eq) as (m & Hm & Hh). apply (IH q m Hm). lia.
Qed.

Lemma up_lookup k p q : is_Some (t !! p) → up t k p = Some q → is_Some (t !! q).
Proof.
  revert p. induction k as [|k IH]; intros p Hp; cbn [up]; [by intros [= <-]|].
  destruct Hp as [n Hn]. rewrite Hn. cbn [mbind option_bind]. destruct (pprev n) as [q'|] eqn:E; [|done].
  cbn [mbind option_bind]. apply IH. destruct (nl_parent _ _ _ (Ht p n Hn) q' E) as (m & -> & _). done.
Qed.

(** The walk over skip pointers is the plain walk over predecessors. *)
Lemma GetAncestor_loop_spec fuel height p n :
  t !! p = Some n → 0 ≤ height ≤ nHeight n → (Z.to_nat (nHeight n - height) ≤ fuel)%nat →
  GetAncestor_loop t fuel height p (nHeight n) = up t (Z.to_nat (nHeight n - height)) p.
Proof.
  revert p n. induction fuel as [|fuel IH]; intros p n Hp Hh Hf; cbn [GetAncestor_loop].
  - replace (nHeight n >? height) with false by lia. replace (Z.to_nat (nHeight n - height)) with 0%nat by lia. done.
  - destruct (nHeight n >? height) eqn:Eg; [|replace (Z.to_nat (nHeight n - height)) with 0%nat by lia; done].
    rewrite Hp. cbn [mbind option_bind]. pose proof (Ht p n Hp) as Hn.
    assert (Hprev : (q ← pprev n; GetAncestor_loop t fuel height q (nHeight n - 1))
                    = up t (Z.to_nat (nHeight n - height)) p).
    { replace (Z.to_nat (nHeight n - height)) with (S (Z.to_nat (nHeight n - 1 - height))) by lia.
      cbn [up]. rewrite Hp. cbn [mbind option_bind]. destruct (pprev n) as [q|] eqn:Eq; [|done]. cbn [mbind option_bind].
      destruct (nl_parent _ _ _ Hn q Eq) as (m & Hm & Hmh). replace (nHeight n - 1) with (nHeight m) by lia.
      apply IH; [done|lia|lia]. }
    destruct (pskip n) as [s|] eqn:Es; [|exact Hprev].
    destruct (_ || _) eqn:Ef; [|exact Hprev].
    pose proof (nl_skip _ _ _ Hn s Es) as Hs. pose proof (GetSkipHeight_bounds (nHeight n) ltac:(lia)) as Hb.
    assert (Hge : height ≤ GetSkipHeight (nHeight n)) by lia.
    destruct (up_height (Z.to_nat (nHeight n - GetSkipHeight (nHeight n))) p n Hp ltac:(lia)) as (s' & m & E1 & E2 & E3).
    rewrite Hs in E1. injection E1 as <-. replace (GetSkipHeight (nHeight n)) with (nHeight m) at 1 by lia.
    rewrite IH by (done || lia).
    replace (Z.to_nat (nHeight n - height))
      with (Z.to_nat (nHeight n - GetSkipHeight (nHeight n)) + Z.to_nat (nHeight m - height))%nat by lia.
    by rewrite up_add, Hs.
Qed.

Lemma GetAncestor_spec p n height :
  t !! p = Some n →
  GetAncestor t p height =
  Some (if (0 <=? height) && (height <=? nHeight n) then up t (Z.to_nat (nHeight n - height)) p else None).
Proof.
  intros Hp. unfold GetAncestor. rewrite Hp. cbn [mbind option_bind].
  destruct ((height >? nHeight n) || (height <? 0)) eqn:E.
  - replace ((0 <=? height) && (height <=? nHeight n)) with false by lia. done.
  - replace ((0 <=? height) && (height <=? nHeight n)) with true by lia.
    rewrite (GetAncestor_loop_spec _ _ _ n) by (done || lia).
    destruct (up_height (Z.to_nat (nHeight n - height)) p n Hp ltac:(lia)) as (q & m & -> & _ & _). done.
Qed.
End Linked.

(** ** Work of one block *)

(** The expected number of hashes for a compact target [c]. *)
Definition block_work (c : Z) : Z :=
  let v := Compact.compact_value c in
  if (v =? 0) || (2 ^ 256 <=? v) || Z.testbit c 23 then 0 else 2 ^ 256 / (v + 1).

Lemma compact_value_range c : is_u32 c → 0 ≤ Compact.compact_value c.
Proof.
  intros Hc. unfold Compact.compact_value. pose proof (Z.mod_pos_bound c (2 ^ 23) ltac:(lia)).
  destruct (Z.leb_spec (c / 2 ^ 24) 3).
  - apply Z.div_pos; [lia|]. apply Z.pow_pos_nonneg; lia.
  - apply Z.mul_nonneg_nonneg; [lia|]. apply Z.pow_nonneg. lia.
Qed.
Lemma compact_value_not_max c : is_u32 c → Compact.compact_value c ≠ 2 ^ 256 - 1.
Proof.
  intros Hc. unfold Compact.compact_value. pose proof (Z.mod_pos_bound c (2 ^ 23) ltac:(lia)) as Hm.
  set (m := c mod 2 ^ 23) in *. set (s := c / 2 ^ 24) in *. destruct (Z.leb_spec s 3) as [Hs|Hs].
  - assert (0 ≤ m / 256 ^ (3 - s) < 2 ^ 23).
    { assert (0 < 256 ^ (3 - s)) by (apply Z.pow_pos_nonneg; unfold s, is_u32 in *; zlin).
      split; [apply Z.div_pos; lia|]. apply Z.div_lt_upper_bound; nia. }
    lia.
  - intros E. replace (s - 3) with (1 + (s - 4)) in E by lia. rewrite Z.pow_add_r in E by lia.
    assert (E' : (m * (256 ^ 1 * 256 ^ (s - 4))) mod 2 = (2 ^ 256 - 1) mod 2) by (by rewrite E).
    replace (m * (256 ^ 1 * 256 ^ (s - 4))) with ((m * 128 * 256 ^ (s - 4)) * 2) in E' by lia.
    rewrite Z.mod_mul in E' by lia. discriminate.
Qed.

Lemma GetBlockProof_spec c :
  is_u32 c → ∃ w, GetBlockProof c = Some w ∧ ok w ∧ val w = block_work c.
Proof.
  intros Hc. pose proof (Compact.SetCompact_closed c Hc) as HS. unfold GetBlockProof, block_work.
  destruct (SetCompact c) as [[t fN] fO]. destruct HS as (Hok & Hv & HN & HO).
  pose proof (compact_value_range c Hc) as H0. pose proof (compact_value_not_max c Hc) as Hmax.
  set (v := Compact.compact_value c) in *. rewrite EqualTo_spec by (done || word_lia).
  destruct (Z.eqb_spec v 0) as [E0|E0].
  { rewrite Hv, E0. change (0 mod 2 ^ 256 =? 0) with true. rewrite orb_true_r.
    exists zero. split_and!; [done|apply ok_zero|apply val_zero]. }
  destruct (Z.leb_spec (2 ^ 256) v) as [Hov|Hov].
  { rewrite HO, orb_true_r. exists zero. split_and!; [done|apply ok_zero|apply val_zero]. }
  rewrite Z.mod_small in Hv by lia. cbn [negb andb] in HN. rewrite HN, HO. cbn [orb].
  destruct (Z.testbit c 23); cbn [orb].
  { exists zero. split_and!; [done|apply ok_zero|apply val_zero]. }
  rewrite Hv, (proj2 (Z.eqb_neq v 0) E0). cbn [orb].
  pose proof (of_uint64_ok 1) as H1ok. assert (H1 : val (of_uint64 1) = 1) by (apply val_of_uint64; word_lia).
  assert (Hs : val (add t (of_uint64 1)) = v + 1) by (rewrite add_val, H1, Hv, Z.mod_small by (done || lia); done).
  pose proof (div_spec (op_not t) (add t (of_uint64 1)) (op_not_ok t Hok) (add_ok _ _ Hok H1ok)) as Hd.
  destruct (div (op_not t) (add t (of_uint64 1))) as [q|]; [|lia]. destruct Hd as (Hqok & _ & Hq).
  cbn [mbind option_bind]. eexists. split; [done|]. split; [by apply add_ok|].
  rewrite Hs, op_not_val, Hv in Hq by done. rewrite add_val, H1, Hq by done.
  replace (2 ^ 256) with (2 ^ 256 - 1 - v + 1 * (v + 1)) at 3 by lia. rewrite Z.div_add by lia.
  assert ((2 ^ 256 - 1 - v) / (v + 1) ≤ 2 ^ 255) by (apply Z.div_le_upper_bound; lia).
  assert (0 ≤ (2 ^ 256 - 1 - v) / (v + 1)) by (apply Z.div_pos; lia).
  apply Z.mod_small. lia.
Qed.

Lemma block_work_bounds c : is_u32 c → 0 ≤ block_work c ≤ 2 ^ 255.
Proof.
  intros Hc. unfold block_work. pose proof (compact_value_range c Hc).
  destruct (Z.eqb_spec (Compact.compact_value c) 0); [cbn; lia|]. cbn [orb].
  destruct (_ || _); [lia|]. split; [apply Z.div_pos; lia|]. apply Z.div_le_upper_bound; lia.
Qed.

(** ** Extending the tree *)

Lemma up_frame t t' k p :
  linked t → t ⊆ t' → is_Some (t !! p) → up t' k p = up t k p.
Proof.
  intros Ht Hsub. revert p. induction k as [|k IH]; intros p [n Hp]; [done|]. cbn [up].
  rewrite Hp, (lookup_weaken _ _ _ _ Hp Hsub). cbn [mbind option_bind].
  destruct (pprev n) as [q|] eqn:E; [|done]. cbn [mbind option_bind]. apply IH.
  destruct (nl_parent _ _ _ (Ht p n Hp) q E) as (m & Hm & _). by exists m.
Qed.

Lemma node_linked_frame t t' p n :
  linked t → t ⊆ t' → t !! p = Some n → node_linked t' p n.
Proof.
  intros Ht Hsub Hp. destruct (Ht p n Hp) as [H1 H2 H3 H4]. split; [done..| |].
  - intros q E. destruct (H3 q E) as (m & Hm & Hh). exists m. split; [by eapply lookup_weaken|done].
  - intros s E. rewrite (up_frame t t') by (done || by exists n). by apply H4.
Qed.

Lemma linked_insert t p n :
  linked t → t !! p = None → node_linked (<[p:=n]> t) p n → linked (<[p:=n]> t).
Proof.
  intros Ht Hp Hn p' n'. destruct (decide (p = p')) as [<-|Hne].
  - rewrite lookup_insert_eq. by intros [= <-].
  - rewrite lookup_insert_ne by done. intros Hp'. apply (node_linked_frame t); [done| |done].
    by apply insert_subseteq.
Qed.

(** A new leaf below [q], before and after its skip pointer is set. *)
Lemma leaf_linked t p q n m :
  linked t → t !! p = None → t !! q = Some m → pprev n = Some q → nHeight n = nHeight m + 1 →
  (∀ s, pskip n = Some s → up t (Z.to_nat (nHeight m - GetSkipHeight (nHeight n))) q = Some s) →
  linked (<[p:=n]> t).
Proof.
  intros Ht Hp Hq Hprev Hh Hskip. apply linked_insert; [done..|].
  assert (Hsub : t ⊆ <[p:=n]> t) by (by apply insert_subseteq).
  pose proof (nl_height _ _ _ (Ht q m Hq)) as Hm0. split.
  - lia.
  - congruence.
  - intros q' E. exists m. rewrite Hprev in E. injection E as <-. split; [by eapply lookup_weaken|done].
  - intros s Es. pose proof (GetSkipHeight_bounds (nHeight n) ltac:(lia)).
    replace (Z.to_nat (nHeight n - GetSkipHeight (nHeight n)))
      with (S (Z.to_nat (nHeight m - GetSkipHeight (nHeight n)))) by lia.
    cbn [up]. rewrite lookup_insert_eq. cbn [mbind option_bind]. rewrite Hprev. cbn [mbind option_bind].
    rewrite (up_frame t) by (done || by exists m). by apply Hskip.
Qed.

Lemma root_linked t p n :
  linked t → t !! p = None → pprev n = None → pskip n = None → nHeight n = 0 → linked (<[p:=n]> t).
Proof.
  intros Ht Hp H1 H2 H3. apply linked_insert; [done..|]. split; [lia|done|congruence|congruence].
Qed.

(** Cumulative fields against those of the predecessor. *)
Definition node_accounted (h : heap) (n : CBlockIndex) : Prop :=
  ok (nChainWork n) ∧
  match pprev n with
  | None => val (nChainWork n) = block_work (IndexBits n) ∧ nTimeMax n = IndexTime n
  | Some q => ∃ m, h !! q = Some m ∧
      val (nChainWork n) = (val (nChainWork m) + block_work (IndexBits n)) mod 2 ^ 256 ∧
      nTimeMax n = Z.max (nTimeMax m) (IndexTime n)
  end.

Record tree_ok (t : BlockTree) : Prop := {
  to_linked : linked (nodes t);
  to_accounted : ∀ p n, nodes t !! p = Some n → node_accounted (nodes t) n;
  to_map : ∀ h p, mapBlockIndex t !! h = Some p ↔ ∃ n, nodes t !! p = Some n ∧ phashBlock n = Some h;
  to_best : match pindexBestHeader t with
            | None => nodes t = ∅
            | Some b => ∃ nb, nodes t !! b = Some nb ∧
                ∀ p n, nodes t !! p = Some n → val (nChainWork n) ≤ val (nChainWork nb)
            end;
}.

Lemma LinkPrev_spec h p n o :
  linked h → h !! p = None → pprev n = None → pskip n = None → nHeight n = 0 →
  (∀ q, o = Some q → ∃ m, h !! q = Some m ∧ nHeight m < 2147483647) →
  ∃ n1, LinkPrev (<[p:=n]> h) p n o = Some (n1, <[p:=n1]> h) ∧
    pprev n1 = o ∧ bi_header n1 = bi_header n ∧ phashBlock n1 = phashBlock n ∧ nStatus n1 = nStatus n ∧
    ∀ n2, pprev n2 = pprev n1 → pskip n2 = pskip n1 → nHeight n2 = nHeight n1 → linked (<[p:=n2]> h).
Proof.
  intros Hl Hp Hn1 Hn2 Hn3 Ho. destruct o as [q|]; cbn [LinkPrev].
  2:{ exists n. split_and!; try done. intros n2 E1 E2 E3. apply root_linked; (done || congruence). }
  destruct (Ho q eq_refl) as (m & Hm & Hb). pose proof (nl_height _ _ _ (Hl q m Hm)) as Hm0.
  assert (Hq : p ≠ q) by congruence. rewrite lookup_insert_ne, Hm by done. cbn [mbind option_bind].
  rewrite i32_small by lia. unfold BuildSkip. cbn [pprev set_prev nHeight].
  assert (Hleaf : linked (<[p:=set_prev n q (nHeight m + 1)]> h)).
  { apply (leaf_linked h p q _ m); try done. cbn. congruence. }
  rewrite insert_insert_eq.
  rewrite (GetAncestor_spec _ Hleaf q m) by (by rewrite lookup_insert_ne).
  pose proof (GetSkipHeight_bounds (nHeight m + 1) ltac:(lia)) as Hs.
  replace ((0 <=? GetSkipHeight (nHeight m + 1)) && (GetSkipHeight (nHeight m + 1) <=? nHeight m)) with true by lia.
  cbn [mbind option_bind]. rewrite (up_frame h) by (done || (by apply insert_subseteq) || by exists m).
  rewrite insert_insert_eq. eexists. split; [done|]. split_and!; try done.
  intros n2 E1 E2 E3. cbn in E1, E2, E3. apply (leaf_linked h p q n2 m); try done.
  intros s Es. by rewrite <- Es, E2, E3.
Qed.

Lemma RaiseValidity_new n :
  nStatus n = 0 → fst (RaiseValidity n BLOCK_VALID_TREE) = set_status n BLOCK_VALID_TREE.
Proof. intros E. unfold RaiseValidity. by rewrite E. Qed.

Lemma node_accounted_frame h h' n : h ⊆ h' → node_accounted h n → node_accounted h' n.
Proof.
  intros Hsub [Hok Hp]. split; [done|]. destruct (pprev n) as [q|]; [|done].
  destruct Hp as (m & Hm & Hr). exists m. split; [by eapply lookup_weaken|done].
Qed.

Lemma to_map_insert t p n hash :
  tree_ok t → nodes t !! p = None → mapBlockIndex t !! hash = None → phashBlock n = Some hash →
  ∀ h' p', <[hash:=p]> (mapBlockIndex t) !! h' = Some p' ↔
    ∃ n', <[p:=n]> (nodes t) !! p' = Some n' ∧ phashBlock n' = Some h'.
Proof.
  intros Ht Hp Hh Hn h' p'. destruct (decide (hash = h')) as [<-|Hne].
  - rewrite lookup_insert_eq. split.
    + intros [= <-]. exists n. by rewrite lookup_insert_eq.
    + intros (n' & Hn' & E). destruct (decide (p = p')) as [<-|Hne']; [done|].
      rewrite lookup_insert_ne in Hn' by done.
      assert (mapBlockIndex t !! hash = Some p') by (apply to_map; [done|by exists n']). congruence.
  - rewrite lookup_insert_ne by done. destruct (decide (p = p')) as [<-|Hne'].
    + rewrite lookup_insert_eq. split.
      * intros E. apply (to_map t Ht) in E as (n' & E & _). congruence.
      * intros (n' & [= <-] & E). congruence.
    + rewrite lookup_insert_ne by done. by apply to_map.
Qed.

Lemma CompareTo_lt a b : ok a → ok b → (CompareTo a b <? 0) = (val a <? val b).
Proof. intros Ha Hb. pose proof (CompareTo_ge a b Ha Hb). lia. Qed.

Definition prev_work (prev : option CBlockIndex) : list Z :=
  match prev with Some m => nChainWork m | None => zero end.
Definition prev_timeMax (prev : option CBlockIndex) (time : Z) : Z :=
  match prev with Some m => Z.max (nTimeMax m) time | None => time end.

(** Reading the predecessor back, and what its totals make of the new entry's. *)
Lemma prev_totals t p n o :
  tree_ok t → nodes t !! p = None → pprev n = o → is_u32 (IndexBits n) →
  (∀ q, o = Some q → is_Some (nodes t !! q)) →
  ∃ prev, (match o with Some q => m ← <[p:=n]> (nodes t) !! q; Some (Some m) | None => Some None end) = Some prev ∧
    ok (prev_work prev) ∧
    (∀ work tm md, ok work → val work = (val (prev_work prev) + block_work (IndexBits n)) mod 2 ^ 256 →
       tm = prev_timeMax prev (IndexTime n) → node_accounted (nodes t) (set_totals n tm work md)).
Proof.
  intros Ht Hp Hprev Hbits Ho. destruct o as [q|].
  - destruct (Ho q eq_refl) as [m Hm]. exists (Some m). rewrite lookup_insert_ne, Hm by congruence.
    split; [done|]. split; [apply (to_accounted t Ht q m Hm)|]. intros work tm md Hok Hv ->. split; [done|].
    cbn [pprev set_totals]. rewrite Hprev. by exists m.
  - exists None. split; [done|]. split; [apply ok_zero|]. intros work tm md Hok Hv ->. split; [done|].
    cbn [pprev set_totals]. rewrite Hprev. split; [|done]. cbn. rewrite Hv. cbn [prev_work]. rewrite val_zero.
    pose proof (block_work_bounds (IndexBits n) Hbits). by rewrite Z.add_0_l, Z.mod_small by lia.
Qed.

Lemma best_insert t p n :
  tree_ok t → nodes t !! p = None → ok (nChainWork n) →
  ∃ best, (match pindexBestHeader t with
      | None => Some (Some p)
      | Some b => nb ← nodes t !! b; Some (if CompareTo (nChainWork nb) (nChainWork n) <? 0 then Some p else Some b)
      end) = Some (Some best) ∧
    ∃ nb, <[p:=n]> (nodes t) !! best = Some nb ∧
      ∀ p' n', <[p:=n]> (nodes t) !! p' = Some n' → val (nChainWork n') ≤ val (nChainWork nb).
Proof.
  intros Ht Hp Hok. pose proof (to_best t Ht) as Hb. destruct (pindexBestHeader t) as [b|].
  - destruct Hb as (nb & Hb & Hmax). rewrite Hb. cbn [mbind option_bind].
    rewrite CompareTo_lt by (apply (to_accounted t Ht b nb Hb) || done).
    destruct (Z.ltb_spec (val (nChainWork nb)) (val (nChainWork n))) as [Hlt|Hge].
    + exists p. split; [done|]. exists n. rewrite lookup_insert_eq. split; [done|]. intros p' n'.
      destruct (decide (p = p')) as [<-|Hne]; [rewrite lookup_insert_eq; by intros [= <-]|].
      rewrite lookup_insert_ne by done. intros Hp'. specialize (Hmax p' n' Hp'). lia.
    + exists b. split; [done|]. exists nb. rewrite lookup_insert_ne by congruence. split; [done|]. intros p' n'.
      destruct (decide (p = p')) as [<-|Hne]; [rewrite lookup_insert_eq; by intros [= <-]|].
      rewrite lookup_insert_ne by done. apply Hmax.
  - exists p. split; [done|]. exists n. rewrite Hb, insert_empty, lookup_singleton_eq. split; [done|].
    intros p' n'. rewrite lookup_singleton. case_decide; by intros [= <-].
Qed.

Lemma tree_insert t p n hash best dirty :
  tree_ok t → nodes t !! p = None → mapBlockIndex t !! hash = None → phashBlock n = Some hash →
  linked (<[p:=n]> (nodes t)) → node_accounted (nodes t) n →
  (∃ nb, <[p:=n]> (nodes t) !! best = Some nb ∧
    ∀ p' n', <[p:=n]> (nodes t) !! p' = Some n' → val (nChainWork n') ≤ val (nChainWork nb)) →
  tree_ok (mkTree (<[p:=n]> (nodes t)) (<[hash:=p]> (mapBlockIndex t)) (Some best) dirty).
Proof.
  intros Ht Hp Hm Hh Hl Ha Hb.
  assert (Hsub : nodes t ⊆ <[p:=n]> (nodes t)) by (by apply insert_subseteq).
  split; cbn [nodes mapBlockIndex pindexBestHeader]; [done| |by apply to_map_insert|done].
  intros p' n'. destruct (decide (p = p')) as [<-|Hne].
  - rewrite lookup_insert_eq. intros [= <-]. by apply (node_accounted_frame (nodes t)).
  - rewrite lookup_insert_ne by done. intros Hp'. apply (node_accounted_frame (nodes t)); [done|by eapply to_accounted].
Qed.

Lemma AddToBlockIndex_spec (t : BlockTree) (block : CBlockHeader) (hash : bytes) :
  tree_ok t → is_u32 (nBits (old block)) → Header_GetHash block = Some hash →
  hashPrevBlock (old block) ≠ hash →
  (∀ p n, nodes t !! p = Some n → nHeight n < 2147483647) →
  ∃ t' p n, AddToBlockIndex t block = Some (t', p) ∧ tree_ok t' ∧ nodes t ⊆ nodes t' ∧
    mapBlockIndex t' !! hash = Some p ∧ nodes t' !! p = Some n ∧ phashBlock n = Some hash ∧
    (mapBlockIndex t !! hash = None →
     bi_header n = copy_header block ∧ pprev n = mapBlockIndex t !! hashPrevBlock (old block) ∧
     nStatus n = BLOCK_VALID_TREE ∧ nodes t !! p = None ∧ nodes t' = <[p:=n]> (nodes t) ∧ mapBlockIndex t' = <[hash:=p]> (mapBlockIndex t)) ∧
    (∀ p0, mapBlockIndex t !! hash = Some p0 → p = p0 ∧ t' = t).
Proof.
  intros Ht Hbits Hhash Hself Hheights. unfold AddToBlockIndex. rewrite Hhash. cbn [mbind option_bind].
  destruct (mapBlockIndex t !! hash) as [p0|] eqn:Em.
  { pose proof Em as Em'. apply (to_map t Ht) in Em' as (n & Hn & E). exists t, p0, n. split_and!; [done..|]. by intros ? [= <-]. }
  cbv zeta. set (p := fresh (dom (nodes t) : gset ptr)).
  assert (Hp : nodes t !! p = None) by (apply not_elem_of_dom, is_fresh).
  rewrite (lookup_insert_ne (mapBlockIndex t)) by done.
  assert (Hmap : ∀ q, mapBlockIndex t !! hashPrevBlock (old block) = Some q → is_Some (nodes t !! q)).
  { intros q Hq. apply (to_map t Ht) in Hq as (m & Hm & _). by exists m. }
  destruct (LinkPrev_spec (nodes t) p (set_hash (new_CBlockIndex block) hash) (mapBlockIndex t !! hashPrevBlock (old block)))
    as (n1 & -> & Hprev & Hhdr & Hph & Hst & Hl); [apply Ht|done|done|done|done| |].
  { intros q Hq. destruct (Hmap q Hq) as [m Hm]. exists m. split; [done|by eapply Hheights]. }
  cbn [mbind option_bind]. rewrite Hprev.
  assert (Ebits : is_u32 (IndexBits n1)) by (unfold IndexBits; by rewrite Hhdr).
  destruct (GetBlockProof_spec (IndexBits n1) Ebits) as (w & Ew & Hwok & Hw).
  destruct (prev_totals t p n1 _ Ht Hp Hprev Ebits Hmap) as (prev & -> & Hpok & Hacc).
  cbn [mbind option_bind]. rewrite Ew. cbn [mbind option_bind]. rewrite RaiseValidity_new by (cbn; by rewrite Hst).
  fold (prev_work prev). fold (prev_timeMax prev (IndexTime n1)).
  set (work := add (prev_work prev) w). set (n2 := set_status _ _). rewrite insert_insert_eq.
  assert (Hwok2 : ok work) by (by apply add_ok).
  destruct (best_insert t p n2 Ht Hp Hwok2) as (best & Eb & Hbest). cbn [nChainWork n2 set_status set_totals] in Eb.
  rewrite Eb. cbn [mbind option_bind].
  eexists _, p, n2. split; [reflexivity|]. cbn [nodes mapBlockIndex]. rewrite !lookup_insert_eq.
  split; [|split; [by apply insert_subseteq|split_and!; try done; intros _; by split_and!]].
  apply tree_insert; try done; [by apply Hl|].
  apply (Hacc work (prev_timeMax prev (IndexTime n1)) (ComputeStakeModifier prev hash)); [done| |done].
  unfold work. by rewrite add_val, Hw by done.
Qed.

(** Adding a header keeps the block tree well formed.  In a well-formed
    tree (skip pointers are true ancestors, heights and cumulative work and
    times agree with the predecessor, the map finds every entry by its hash,
    the best header has the most work), [AddToBlockIndex] of a header whose
    hash is not its own predecessor's succeeds, fails no assertion, gives a
    well-formed tree that contains the old one, and returns the entry of the
    header's hash; a new entry copies the header, points at the entry of the
    previous hash and is valid up to TREE. *)
Theorem AddToBlockIndex_correct (t : BlockTree) (block : CBlockHeader) (hash : bytes) :
  tree_ok t → is_u32 (nBits (old block)) → Header_GetHash block = Some hash →
  hashPrevBlock (old block) ≠ hash →
  (∀ p n, nodes t !! p = Some n → nHeight n < 2147483647) →
  ∃ t' p n, AddToBlockIndex t block = Some (t', p) ∧ tree_ok t' ∧ nodes t ⊆ nodes t' ∧
    mapBlockIndex t' !! hash = Some p ∧ nodes t' !! p = Some n ∧ phashBlock n = Some hash ∧
    (mapBlockIndex t !! hash = None →
     bi_header n = copy_header block ∧ pprev n = mapBlockIndex t !! hashPrevBlock (old block) ∧
     nStatus n = BLOCK_VALID_TREE).
Proof.
  intros Ht Hbits Hhash Hself Hheights.
  destruct (AddToBlockIndex_spec t block hash Ht Hbits Hhash Hself Hheights) as (t' & p & n & H1 & H2 & H3 & H4 & H5 & H6 & H7 & _).
  exists t', p, n. split_and!; try done. intros Hn. destruct (H7 Hn) as (? & ? & ? & _). by split_and!.
Qed.

Lemma empty_tree_ok : tree_ok empty_tree.
Proof.
  split; [by intros p n|by intros p n| |done]. intros h p. cbn. rewrite lookup_empty. split; [done|].
  intros (n & H & _). by rewrite lookup_empty in H.
Qed.

Definition hash_example : bytes := default [] (Header_GetHash header_example).

Lemma AddToBlockIndex_correct_witness :
  ∃ t' p n, AddToBlockIndex empty_tree header_example = Some (t', p) ∧ tree_ok t' ∧ nodes empty_tree ⊆ nodes t' ∧
    mapBlockIndex t' !! hash_example = Some p ∧ nodes t' !! p = Some n ∧ phashBlock n = Some hash_example ∧
    (mapBlockIndex empty_tree !! hash_example = None →
     bi_header n = copy_header header_example ∧
     pprev n = mapBlockIndex empty_tree !! hashPrevBlock (old header_example) ∧ nStatus n = BLOCK_VALID_TREE).
Proof.
  apply (AddToBlockIndex_correct empty_tree header_example hash_example).
  - exact empty_tree_ok.
  - cbn. word_lia.
  - vm_compute. reflexivity.
  - vm_compute. discriminate.
  - intros p n H. cbn in H. by rewrite lookup_empty in H.
Defined.

(** ** Walking the tree *)

(** Ancestors.  In a linked tree [GetAncestor] always terminates without a
    failed assertion; for a height of the chain it returns the block that many
    predecessors back, whose height is the one asked for, whatever route the
    skip pointers take; otherwise null. *)
Theorem GetAncestor_correct (t : heap) (p : ptr) (n : CBlockIndex) (height : Z) :
  linked t → t !! p = Some n →
  (0 ≤ height ≤ nHeight n →
   ∃ q m, GetAncestor t p height = Some (Some q) ∧ up t (Z.to_nat (nHeight n - height)) p = Some q ∧
     t !! q = Some m ∧ nHeight m = height) ∧
  (height < 0 ∨ nHeight n < height → GetAncestor t p height = Some None).
Proof.
  intros Ht Hp. rewrite (GetAncestor_spec t Ht p n height Hp). split; intros Hh.
  - replace ((0 <=? height) && (height <=? nHeight n)) with true by lia.
    destruct (up_height t Ht (Z.to_nat (nHeight n - height)) p n Hp ltac:(lia)) as (q & m & E & Hq & Hm).
    exists q, m. rewrite E. split_and!; try done. lia.
  - by replace ((0 <=? height) && (height <=? nHeight n)) with false by lia.
Qed.

(** A chain of three blocks above the root, with their skip pointers. *)
Definition node_at (h : Z) (prev skip : option ptr) (time : Z) : CBlockIndex :=
  mkIndex None prev skip h 0 0 0 (of_uint64 (u64 (h + 1))) 0 0 0
    (mkIndexHeader 1 uint256_null time 0x1f00ffff uint256_null uint256_null 0 0 0 [] [] [] [] [])
    uint256_null uint256_null 0 0 time.
Definition heap_example : heap :=
  <[4%positive := node_at 3 (Some 3%positive) (Some 2%positive) 40]>
  (<[3%positive := node_at 2 (Some 2%positive) (Some 1%positive) 20]>
  (<[2%positive := node_at 1 (Some 1%positive) (Some 1%positive) 30]>
  {[1%positive := node_at 0 None None 10]})).

Lemma heap_example_linked : linked heap_example.
Proof.
  unfold heap_example.
  assert (H1 : linked {[1%positive := node_at 0 None None 10]}).
  { rewrite <- insert_empty. apply root_linked; try done. }
  assert (H2 := leaf_linked _ 2 1 (node_at 1 (Some 1%positive) (Some 1%positive) 30) (node_at 0 None None 10)
    H1 eq_refl eq_refl eq_refl eq_refl ltac:(by intros s [= <-])).
  assert (H3 := leaf_linked _ 3 2 (node_at 2 (Some 2%positive) (Some 1%positive) 20) _
    H2 eq_refl eq_refl eq_refl eq_refl ltac:(by intros s [= <-])).
  exact (leaf_linked _ 4 3 (node_at 3 (Some 3%positive) (Some 2%positive) 40) _
    H3 eq_refl eq_refl eq_refl eq_refl ltac:(by intros s [= <-])).
Qed.

Lemma GetAncestor_correct_witness :
  GetAncestor heap_example 4 1 = Some (Some 2%positive) ∧
  (0 ≤ 1 ≤ 3 →
   ∃ q m, GetAncestor heap_example 4 1 = Some (Some q) ∧ up heap_example (Z.to_nat (3 - 1)) 4 = Some q ∧
     heap_example !! q = Some m ∧ nHeight m = 1) ∧
  (1 < 0 ∨ 3 < 1 → GetAncestor heap_example 4 1 = Some None).
Proof.
  split; [reflexivity|].
  apply (GetAncestor_correct heap_example 4 (node_at 3 (Some 3%positive) (Some 2%positive) 40) 1 heap_example_linked eq_refl).
Defined.

Lemma LastCommonAncestor_loop_spec t h fuel a b na nb :
  linked t → t !! a = Some na → t !! b = Some nb → nHeight na = Z.of_nat h → nHeight nb = Z.of_nat h →
  (h < fuel)%nat →
  (∃ k c, LastCommonAncestor_loop t fuel (Some a) (Some b) = Some (Some c) ∧ up t k a = Some c ∧ up t k b = Some c ∧
     ∀ j d, up t j a = Some d → up t j b = Some d → (k ≤ j)%nat) ∨
  (LastCommonAncestor_loop t fuel (Some a) (Some b) = Some None ∧
     ∀ j d, up t j a = Some d → up t j b = Some d → False).
Proof.
  intros Ht. revert fuel a b na nb. induction h as [|h IH]; intros fuel a b na nb Ha Hb Hha Hhb Hf;
    (destruct fuel as [|fuel]; [lia|]); cbn [LastCommonAncestor_loop];
    (destruct (decide (a = b)) as [<-|Hne]; [left; exists 0%nat, a; split_and!; try done; lia|]);
    rewrite Ha, Hb; cbn [mbind option_bind].
  - assert (Hroot : ∀ p n, t !! p = Some n → nHeight n = 0 → pprev n = None).
    { intros p n Hp H0. destruct (pprev n) as [q|] eqn:E; [|done]. exfalso.
      destruct (nl_parent _ _ _ (Ht p n Hp) q E) as (m & Hm & Hh). pose proof (nl_height _ _ _ (Ht q m Hm)). lia. }
    right. rewrite (Hroot a na), (Hroot b nb) by (done || lia). split; [by destruct fuel|]. intros [|j] d; cbn [up].
    + congruence.
    + rewrite Ha. cbn [mbind option_bind]. by rewrite (Hroot a na Ha) by lia.
  - assert (Hparent : ∀ p n, t !! p = Some n → nHeight n = Z.of_nat (S h) →
      ∃ q m, pprev n = Some q ∧ t !! q = Some m ∧ nHeight m = Z.of_nat h).
    { intros p n Hp Hn. destruct (pprev n) as [q|] eqn:E; [|pose proof (nl_root _ _ _ (Ht p n Hp) E); lia].
      destruct (nl_parent _ _ _ (Ht p n Hp) q E) as (m & Hm & Hh). exists q, m. split_and!; [done..|lia]. }
    destruct (Hparent a na Ha Hha) as (a' & na' & Ea & Ha' & Hha').
    destruct (Hparent b nb Hb Hhb) as (b' & nb' & Eb & Hb' & Hhb').
    assert (Hup : ∀ j, up t (S j) a = up t j a' ∧ up t (S j) b = up t j b').
    { intros j. cbn [up]. rewrite Ha, Hb. cbn [mbind option_bind]. by rewrite Ea, Eb. }
    rewrite Ea, Eb. destruct (IH fuel a' b' na' nb') as [(k & c & E & E1 & E2 & Hmin)|[E Hno]]; try done; [lia| |].
    + left. exists (S k), c. rewrite !(proj1 (Hup k)), !(proj2 (Hup k)). split_and!; try done.
      intros [|j] d; [cbn [up]; congruence|]. rewrite (proj1 (Hup j)), (proj2 (Hup j)). intros H1 H2.
      specialize (Hmin j d H1 H2). lia.
    + right. split; [done|]. intros [|j] d; [cbn [up]; congruence|]. rewrite (proj1 (Hup j)), (proj2 (Hup j)).
      apply Hno.
Qed.

(** Ancestors of a block above some height are ancestors of its ancestor there. *)
Lemma up_from_level t p n i q m j d :
  linked t → t !! p = Some n → up t i p = Some q → t !! q = Some m → up t j p = Some d →
  (∃ e, t !! d = Some e ∧ nHeight e ≤ nHeight m) → (i ≤ j)%nat ∧ up t (j - i) q = Some d.
Proof.
  intros Ht Hp Hi Hq Hj (e & He & Hle).
  assert (Hih : Z.of_nat i ≤ nHeight n).
  { destruct (decide (nHeight n < Z.of_nat i)); [|lia]. rewrite (up_beyond t Ht i p n) in Hi; done. }
  assert (Hjh : Z.of_nat j ≤ nHeight n).
  { destruct (decide (nHeight n < Z.of_nat j)); [|lia]. rewrite (up_beyond t Ht j p n) in Hj; done. }
  destruct (up_height t Ht i p n Hp Hih) as (q' & m' & E1 & E2 & E3).
  destruct (up_height t Ht j p n Hp Hjh) as (d' & e' & F1 & F2 & F3).
  simplify_eq. split; [lia|]. replace j with (i + (j - i))%nat in Hj by lia. by rewrite up_add, Hi in Hj.
Qed.

Lemma up_height_of t p n j d e :
  linked t → t !! p = Some n → up t j p = Some d → t !! d = Some e → nHeight e = nHeight n - Z.of_nat j.
Proof.
  intros Ht Hp Hj He. destruct (decide (nHeight n < Z.of_nat j)) as [Hlt|Hge].
  { by rewrite (up_beyond t Ht j p n) in Hj. }
  destruct (up_height t Ht j p n Hp ltac:(lia)) as (d' & e' & E1 & E2 & E3). by simplify_eq.
Qed.

(** Both walks start at the lower of the two heights. *)
Lemma LastCommonAncestor_level t pa pb na nb :
  linked t → t !! pa = Some na → t !! pb = Some nb →
  ∃ a b ma mb, t !! a = Some ma ∧ t !! b = Some mb ∧
    nHeight ma = Z.min (nHeight na) (nHeight nb) ∧ nHeight mb = Z.min (nHeight na) (nHeight nb) ∧
    up t (Z.to_nat (nHeight na - nHeight ma)) pa = Some a ∧
    up t (Z.to_nat (nHeight nb - nHeight mb)) pb = Some b ∧
    LastCommonAncestor t pa pb =
    LastCommonAncestor_loop t (S (Z.to_nat (Z.min (nHeight na) (nHeight nb)))) (Some a) (Some b).
Proof.
  intros Ht Ha Hb. pose proof (nl_height _ _ _ (Ht pa na Ha)). pose proof (nl_height _ _ _ (Ht pb nb Hb)).
  set (h := Z.min (nHeight na) (nHeight nb)).
  destruct (up_height t Ht (Z.to_nat (nHeight na - h)) pa na Ha ltac:(lia)) as (a & ma & E1 & E2 & E3).
  destruct (up_height t Ht (Z.to_nat (nHeight nb - h)) pb nb Hb ltac:(lia)) as (b & mb & F1 & F2 & F3).
  exists a, b, ma, mb. replace (nHeight ma) with h by lia. replace (nHeight mb) with h by lia.
  split_and!; try done. unfold LastCommonAncestor. rewrite Ha, Hb. cbn [mbind option_bind].
  rewrite (GetAncestor_spec t Ht pa na _ Ha), (GetAncestor_spec t Ht pb nb _ Hb).
  destruct (nHeight na >? nHeight nb) eqn:G1; [|destruct (nHeight nb >? nHeight na) eqn:G2].
  - replace ((0 <=? nHeight nb) && (nHeight nb <=? nHeight na)) with true by lia. cbn [mbind option_bind].
    replace (nHeight na - nHeight nb) with (nHeight na - h) by lia. rewrite E1. cbn [mbind option_bind].
    replace (Z.to_nat (nHeight nb - h)) with 0%nat in F1 by lia. cbn [up] in F1. by injection F1 as ->.
  - replace ((0 <=? nHeight na) && (nHeight na <=? nHeight nb)) with true by lia. cbn [mbind option_bind].
    replace (nHeight nb - nHeight na) with (nHeight nb - h) by lia. rewrite F1. cbn [mbind option_bind].
    replace (Z.to_nat (nHeight na - h)) with 0%nat in E1 by lia. cbn [up] in E1. by injection E1 as ->.
  - cbn [mbind option_bind].
    replace (Z.to_nat (nHeight na - h)) with 0%nat in E1 by lia. cbn [up] in E1. injection E1 as ->.
    replace (Z.to_nat (nHeight nb - h)) with 0%nat in F1 by lia. cbn [up] in F1. by injection F1 as ->.
Qed.

(** [r] is the lowest common ancestor of [pa] and [pb] (null: there is none). *)
Definition is_lca (t : heap) (pa pb : ptr) (r : option ptr) : Prop :=
  match r with
  | Some c => (∃ i j, up t i pa = Some c ∧ up t j pb = Some c) ∧
      ∀ i j d, up t i pa = Some d → up t j pb = Some d → ∃ k, up t k c = Some d
  | None => ∀ i j d, up t i pa = Some d → up t j pb = Some d → False
  end.

Lemma LastCommonAncestor_spec (t : heap) (pa pb : ptr) :
  linked t → is_Some (t !! pa) → is_Some (t !! pb) →
  ∃ r, LastCommonAncestor t pa pb = Some r ∧ is_lca t pa pb r.
Proof.
  intros Ht [na Ha] [nb Hb].
  destruct (LastCommonAncestor_level t pa pb na nb Ht Ha Hb) as (a & b & ma & mb & Hma & Hmb & Eha & Ehb & Ua & Ub & ->).
  assert (Hcommon : ∀ i j d, up t i pa = Some d → up t j pb = Some d →
    ∃ k, up t k a = Some d ∧ up t k b = Some d).
  { intros i j d Hi Hj. destruct (up_lookup t Ht i pa d ltac:(by exists na) Hi) as [e He].
    pose proof (up_height_of t pa na i d e Ht Ha Hi He). pose proof (up_height_of t pb nb j d e Ht Hb Hj He).
    assert (Hle : nHeight e ≤ nHeight ma) by lia.
    destruct (up_from_level t pa na _ a ma i d Ht Ha Ua Hma Hi ltac:(by exists e)) as [La U1].
    destruct (up_from_level t pb nb _ b mb j d Ht Hb Ub Hmb Hj ltac:(exists e; split; [done|lia])) as [Lb U2].
    eexists. split; [exact U1|]. replace (i - _)%nat with (j - Z.to_nat (nHeight nb - nHeight mb))%nat by lia. done. }
  set (h := Z.to_nat (Z.min (nHeight na) (nHeight nb))).
  pose proof (nl_height _ _ _ (Ht a ma Hma)).
  destruct (LastCommonAncestor_loop_spec t h (S h) a b ma mb Ht Hma Hmb ltac:(lia) ltac:(lia) ltac:(lia))
    as [(k & c & E & E1 & E2 & Hmin)|[E Hno]]; eexists; (split; [exact E|]).
  - split.
    + exists (Z.to_nat (nHeight na - nHeight ma) + k)%nat, (Z.to_nat (nHeight nb - nHeight mb) + k)%nat.
      by rewrite !up_add, Ua, Ub.
    + intros i j d Hi Hj. destruct (Hcommon i j d Hi Hj) as (k' & F1 & F2). exists (k' - k)%nat.
      specialize (Hmin k' d F1 F2). replace k' with (k + (k' - k))%nat in F1 by lia. by rewrite up_add, E1 in F1.
  - intros i j d Hi Hj. destruct (Hcommon i j d Hi Hj) as (k' & F1 & F2). by eapply Hno.
Qed.

(** The last common ancestor.  In a linked tree [LastCommonAncestor] always
    terminates without a failed assertion.  It returns an ancestor of both
    blocks from which every other common ancestor descends no further (each
    one is an ancestor of it), or null when there is none. *)
Theorem LastCommonAncestor_correct (t : heap) (pa pb : ptr) :
  linked t → is_Some (t !! pa) → is_Some (t !! pb) →
  ∃ r, LastCommonAncestor t pa pb = Some r ∧ is_lca t pa pb r.
Proof. apply LastCommonAncestor_spec. Qed.

Lemma LastCommonAncestor_correct_witness :
  LastCommonAncestor heap_example 4 2 = Some (Some 2%positive) ∧
  ∃ r, LastCommonAncestor heap_example 4 2 = Some r ∧ is_lca heap_example 4 2 r.
Proof.
  split; [reflexivity|].
  apply (LastCommonAncestor_correct heap_example 4 2 heap_example_linked); (eexists; reflexivity).
Defined.

(** ** The median time *)

Lemma recent_times_spec t k p n :
  linked t → t !! p = Some n →
  length (recent_times t k (Some p)) = Nat.min k (S (Z.to_nat (nHeight n))) ∧
  ∀ i x, recent_times t k (Some p) !! i = Some x ↔
    (i < k)%nat ∧ ∃ q m, up t i p = Some q ∧ t !! q = Some m ∧ x = IndexTime m.
Proof.
  intros Ht. revert p n. induction k as [|k IH]; intros p n Hp; cbn [recent_times].
  { split; [done|]. intros i x. rewrite lookup_nil. split; [done|lia]. }
  rewrite Hp. pose proof (Ht p n Hp) as Hn. pose proof (nl_height _ _ _ Hn). destruct (pprev n) as [q|] eqn:E.
  - destruct (nl_parent _ _ _ Hn q E) as (m & Hm & Hh). pose proof (nl_height _ _ _ (Ht q m Hm)).
    destruct (IH q m Hm) as [IH1 IH2]. split; [cbn [length]; rewrite IH1; lia|]. intros [|i] x; cbn [lookup list_lookup].
    + split; [intros [= <-]; split; [lia|by exists p, n]|]. intros (_ & q' & m' & [= <-] & ? & ->). by simplify_eq.
    + pose proof (IH2 i x) as IHi. unfold lookup in IHi. rewrite IHi. cbn [up]. rewrite Hp. cbn [mbind option_bind].
      rewrite E. cbn [mbind option_bind]. split; intros [? ?]; (split; [lia|done]).
  - assert (Hk : recent_times t k None = []) by (by destruct k). rewrite Hk. pose proof (nl_root _ _ _ Hn E).
    split; [cbn [length]; lia|]. intros [|i] x; cbn [lookup list_lookup].
    + split; [intros [= <-]; split; [lia|by exists p, n]|]. intros (_ & q' & m' & [= <-] & ? & ->). by simplify_eq.
    + split; [done|]. intros (_ & q & m & U & _). cbn [up] in U. rewrite Hp in U. cbn in U. by rewrite E in U.
Qed.

Lemma filter_none {A} (P : A → Prop) `{!∀ x, Decision (P x)} (l : list A) :
  (∀ x, x ∈ l → ¬ P x) → filter P l = [].
Proof.
  induction l as [|x l IH]; intros Hno; [done|].
  rewrite filter_cons_False by (apply Hno, list_elem_of_here). apply IH. intros y Hy. by apply Hno, list_elem_of_further.
Qed.

Lemma sorted_middle (l : list Z) i m :
  StronglySorted Z.le l → l !! i = Some m →
  (length (filter (λ x, (x < m)%Z) l) ≤ i)%nat ∧ (length (filter (λ x, (m < x)%Z) l) ≤ length l - 1 - i)%nat.
Proof.
  intros Hs Hi. pose proof (lookup_lt_Some _ _ _ Hi) as Hlt.
  assert (Hsplit : take i l ++ m :: drop (S i) l = l) by (by apply take_drop_middle).
  rewrite <- Hsplit in Hs.
  assert (Hbefore : ∀ x, x ∈ take i l → x ≤ m).
  { intros x Hx. eapply (StronglySorted_app_1_elem_of Z.le); [exact Hs|done|apply list_elem_of_here]. }
  assert (Hafter : ∀ x, x ∈ drop (S i) l → m ≤ x).
  { intros x Hx. apply StronglySorted_app_1_r, StronglySorted_cons in Hs as [Hf _].
    rewrite Forall_forall in Hf. by apply Hf. }
  rewrite <- Hsplit at 1 2. rewrite !filter_app, !length_app, !filter_cons_False by lia.
  pose proof (length_filter (λ x, (x < m)%Z) (take i l)) as L1.
  pose proof (length_filter (λ x, (m < x)%Z) (drop (S i) l)) as L2.
  rewrite length_take in L1. rewrite length_drop in L2.
  rewrite (filter_none (λ x, (x < m)%Z) (drop _ _)) by (intros x Hx; specialize (Hafter x Hx); lia).
  rewrite (filter_none (λ x, (m < x)%Z) (take _ _)) by (intros x Hx; specialize (Hbefore x Hx); lia).
  cbn [length]. lia.
Qed.

(** The median time past.  In a linked tree [GetMedianTimePast] returns a
    median of the times of the block and its predecessors, eleven in all or as
    many as the chain has: one of these times, with at most half of them
    smaller and at most half of them greater. *)
Theorem GetMedianTimePast_correct (t : heap) (p : ptr) (n : CBlockIndex) :
  linked t → t !! p = Some n →
  let times := recent_times t nMedianTimeSpan (Some p) in
  (length times = Nat.min 11 (S (Z.to_nat (nHeight n))) ∧
   ∀ i x, times !! i = Some x ↔ (i < 11)%nat ∧ ∃ q m, up t i p = Some q ∧ t !! q = Some m ∧ x = IndexTime m) ∧
  ∃ med, GetMedianTimePast t p = Some med ∧ med ∈ times ∧
    (length (filter (λ x, (x < med)%Z) times) ≤ length times / 2)%nat ∧
    (length (filter (λ x, (med < x)%Z) times) ≤ length times / 2)%nat.
Proof.
  intros Ht Hp times. destruct (recent_times_spec t nMedianTimeSpan p n Ht Hp) as [Hlen Hlook].
  split; [split; [exact Hlen|exact Hlook]|]. fold times in Hlen. change nMedianTimeSpan with 11%nat in Hlen. unfold GetMedianTimePast. fold times.
  pose proof (merge_sort_Permutation Z.le times) as Hperm.
  assert (Hl : length (merge_sort Z.le times) = length times) by (by rewrite Hperm).
  destruct (lookup_lt_is_Some_2 (merge_sort Z.le times) (length times / 2)) as [med Hm].
  { rewrite Hl. apply Nat.div_lt; lia. }
  exists med. rewrite Hl. split; [done|]. split.
  { rewrite <- Hperm. by eapply list_elem_of_lookup_2. }
  destruct (sorted_middle _ _ _ (StronglySorted_merge_sort Z.le times) Hm) as [L1 L2].
  rewrite Hl in L2. rewrite <- Hperm at 1 3. split; [done|]. etrans; [exact L2|].
  pose proof (Nat.div_mod_eq (length times) 2). pose proof (Nat.mod_upper_bound (length times) 2). lia.
Qed.

Lemma GetMedianTimePast_correct_witness :
  GetMedianTimePast heap_example 4 = Some 30 ∧
  let times := recent_times heap_example nMedianTimeSpan (Some 4%positive) in
  (length times = Nat.min 11 (S (Z.to_nat 3)) ∧
   ∀ i x, times !! i = Some x ↔
     (i < 11)%nat ∧ ∃ q m, up heap_example i 4 = Some q ∧ heap_example !! q = Some m ∧ x = IndexTime m) ∧
  ∃ med, GetMedianTimePast heap_example 4 = Some med ∧ med ∈ times ∧
    (length (filter (λ x, (x < med)%Z) times) ≤ length times / 2)%nat ∧
    (length (filter (λ x, (med < x)%Z) times) ≤ length times / 2)%nat.
Proof.
  split; [vm_compute; reflexivity|].
  apply (GetMedianTimePast_correct heap_example 4 (node_at 3 (Some 3%positive) (Some 2%positive) 40) heap_example_linked eq_refl).
Defined.

(** ** Work *)

(** Work.  [GetBlockProof] never throws: it is zero for a target that is
    zero, negative or too large, and otherwise the exact quotient of [2^256] by
    the target plus one, although [2^256] is not representable.  The equivalent
    time of a work difference is that difference times the spacing over the
    tip's work, with the sign of the difference, saturated at the largest
    [int64_t]; it throws exactly when the tip's work is zero. *)
Theorem block_proof_correct (to from tip : CBlockIndex) (c spacing : Z) :
  is_u32 c → is_u32 (IndexBits tip) → ok (nChainWork to) → ok (nChainWork from) →
  0 ≤ spacing < 9223372036854775808 →
  let diff := val (nChainWork to) - val (nChainWork from) in
  let secs := Z.abs diff * spacing / block_work (IndexBits tip) in
  Z.abs diff * spacing < 2 ^ 256 →
  (∃ w, GetBlockProof c = Some w ∧ ok w ∧ val w = block_work c) ∧
  (block_work (IndexBits tip) = 0 → GetBlockProofEquivalentTime to from tip spacing = None) ∧
  (block_work (IndexBits tip) ≠ 0 →
   GetBlockProofEquivalentTime to from tip spacing =
   Some ((if 0 <? diff then 1 else -1) * Z.min secs 9223372036854775807)).
Proof.
  intros Hc Htip Hto Hfrom Hsp diff secs Hov. split; [by apply GetBlockProof_spec|].
  unfold GetBlockProofEquivalentTime. rewrite CompareTo_gt by done.
  destruct (GetBlockProof_spec _ Htip) as (w & Ew & Hwok & Hw). pose proof (block_work_bounds _ Htip) as Hwb.
  (* the absolute difference and its sign *)
  set (rs := if _ <? _ then _ else _).
  assert (Hrs : ok (fst rs) ∧ val (fst rs) = Z.abs diff ∧ snd rs = if 0 <? diff then 1 else -1).
  { unfold rs, diff. pose proof (ok_bound _ Hto). pose proof (ok_bound _ Hfrom).
    destruct (Z.ltb_spec (val (nChainWork from)) (val (nChainWork to))); cbn [fst snd].
    - split_and!; [by apply sub_ok| |destruct (Z.ltb_spec 0 (val (nChainWork to) - val (nChainWork from))); lia].
      rewrite sub_val_exact by (done || lia). lia.
    - split_and!; [by apply sub_ok| |destruct (Z.ltb_spec 0 (val (nChainWork to) - val (nChainWork from))); lia].
      rewrite sub_val_exact by (done || lia). lia. }
  destruct rs as [r sign]. cbn [fst snd] in Hrs. destruct Hrs as (Hrok & Hr & ->). rewrite Ew. cbn [mbind option_bind].
  rewrite u64_small by word_lia. pose proof (of_uint64_ok spacing) as Hsok.
  assert (Hm : val (mul r (of_uint64 spacing)) = Z.abs diff * spacing).
  { rewrite mul_val, val_of_uint64, Hr by (done || word_lia). apply Z.mod_small.
    split; [apply Z.mul_nonneg_nonneg; lia|done]. }
  pose proof (div_spec _ _ (mul_ok _ _ Hrok Hsok) Hwok) as Hd. rewrite Hw, Hm in Hd.
  destruct (div (mul r (of_uint64 spacing)) w) as [q|]; cbn [mbind option_bind].
  2:{ split; [done|lia]. }
  destruct Hd as (Hqok & Hpos & Hq). fold secs in Hq. split; [lia|]. intros _.
  rewrite bits_spec, Compact.GetLow64_val, Hq by done. pose proof (ok_bound q Hqok) as Hqb. rewrite Hq in Hqb.
  destruct (bit_length secs >? 63) eqn:Eb.
  - assert (2 ^ 63 ≤ secs).
    { destruct (Z.le_gt_cases (2 ^ 63) secs); [done|]. pose proof (bit_length_le secs 63 ltac:(lia) ltac:(lia)). lia. }
    by rewrite Z.min_r by lia.
  - assert (secs < 2 ^ 63).
    { pose proof (bit_length_bound secs ltac:(lia)). eapply Z.lt_le_trans; [done|]. apply Z.pow_le_mono_r; lia. }
    rewrite (Z.mod_small secs), Z.min_l by lia. f_equal. unfold i64, u64. destruct (0 <? diff); zlin.
Qed.

Lemma block_proof_correct_witness :
  let to := node_at 7 None None 0 in let from := node_at 3 None None 0 in
  GetBlockProofEquivalentTime to from to 65537 = Some 4 ∧
  ((∃ w, GetBlockProof 0x1f00ffff = Some w ∧ ok w ∧ val w = block_work 0x1f00ffff) ∧
   (block_work (IndexBits to) = 0 → GetBlockProofEquivalentTime to from to 65537 = None) ∧
   (block_work (IndexBits to) ≠ 0 →
    GetBlockProofEquivalentTime to from to 65537 =
    Some ((if 0 <? val (nChainWork to) - val (nChainWork from) then 1 else -1) *
      Z.min (Z.abs (val (nChainWork to) - val (nChainWork from)) * 65537 / block_work (IndexBits to)) 9223372036854775807))).
Proof.
  intros to from. split; [vm_compute; reflexivity|].
  apply (block_proof_correct to from to 0x1f00ffff 65537); try (cbn; word_lia); try apply of_uint64_ok.
  vm_compute. reflexivity.
Defined.

(** The order of the candidates for the tip: more work first, then earlier
    arrival, then lower address, a strict total order on the entries. *)
Theorem WorkComparator_order (a b c : ptr * CBlockIndex) :
  ok (nChainWork (snd a)) → ok (nChainWork (snd b)) → ok (nChainWork (snd c)) →
  WorkComparator a a = false ∧
  (WorkComparator a b = true → WorkComparator b c = true → WorkComparator a c = true) ∧
  (fst a ≠ fst b → WorkComparator a b = true ∨ WorkComparator b a = true) ∧
  (val (nChainWork (snd a)) < val (nChainWork (snd b)) → WorkComparator a b = true ∧ WorkComparator b a = false).
Proof.
  destruct a as [pa na], b as [pb nb], c as [pc nc]. cbn [fst snd]. intros Ha Hb Hc. unfold WorkComparator.
  rewrite !CompareTo_gt, !CompareTo_lt by done. split_and!.
  - rewrite Z.ltb_irrefl. destruct (nSequenceId na <? nSequenceId na) eqn:E; [lia|].
    destruct (nSequenceId na >? nSequenceId na) eqn:E'; [lia|]. by rewrite Pos.ltb_irrefl.
  - intros H1 H2.
    repeat match goal with
      | H : (if ?x then _ else _) = true |- _ => destruct x eqn:?; try discriminate H
      | |- (if ?x then _ else _) = true => destruct x eqn:?
      end; (done || lia).
  - intros Hne.
    repeat match goal with |- context [if ?x then _ else _] => destruct x eqn:?; try (left; reflexivity); try (right; reflexivity) end; lia.
  - intros Hlt. repeat match goal with |- context [if ?x then _ else _] => destruct x eqn:? end; (done || lia).
Qed.

Lemma WorkComparator_order_witness :
  let a := (1%positive, node_at 1 None None 0) in let b := (2%positive, node_at 2 None None 0) in
  WorkComparator a b = true ∧
  (WorkComparator a a = false ∧
   (WorkComparator a b = true → WorkComparator b a = true → WorkComparator a a = true) ∧
   (fst a ≠ fst b → WorkComparator a b = true ∨ WorkComparator b a = true) ∧
   (val (nChainWork (snd a)) < val (nChainWork (snd b)) → WorkComparator a b = true ∧ WorkComparator b a = false)).
Proof. split; [reflexivity|]. apply (WorkComparator_order _ _ (1%positive, node_at 1 None None 0)); apply of_uint64_ok. Defined.
