(* ===== verification/Chain.v ===== *)
(** * The active chain (CChain of src/src/chain.h and chain.cpp)

    [vChain] holds one pointer per height.  The functions take shortcuts that
    rely on it being the path from the genesis block to the tip. *)

From stdpp Require Import base numbers list option gmap sorting.
From Stdlib Require Import ZArith Lia ZifyNat ZifyBool.
From S2P Require Import Prelude ArithUint256 BlockIndex.

Abbreviation chain := (list (option ptr)).

Definition Genesis (c : chain) : option ptr :=
  match c with [] => None | p :: _ => p end.
Definition Height (c : chain) : Z := Z.of_nat (length c) - 1.
Definition at_height (c : chain) (nHeight : Z) : option ptr :=
  if (nHeight <? 0) || (nHeight >=? Z.of_nat (length c)) then None
  else match c !! Z.to_nat nHeight with Some p => p | None => None end.
Definition Tip (c : chain) : option ptr :=
  if 0 <? Z.of_nat (length c) then at_height c (Z.of_nat (length c) - 1) else None.

Definition Contains (h : heap) (c : chain) (pindex : ptr) : option bool :=
  n ← h !! pindex; Some (bool_decide (at_height c (nHeight n) = Some pindex)).
Definition Next (h : heap) (c : chain) (pindex : ptr) : option (option ptr) :=
  n ← h !! pindex; b ← Contains h c pindex;
  Some (if (b : bool) then at_height c (nHeight n + 1) else None).

(** [while (pindex && vChain[pindex->nHeight] != pindex)]; indexing outside the
    vector is [None]. *)
Fixpoint SetTip_loop (h : heap) (fuel : nat) (c : chain) (pindex : option ptr) : option chain :=
  match pindex with
  | None => Some c
  | Some p =>
      n ← h !! p;
      e ← c !! Z.to_nat (nHeight n);
      if decide (e = Some p) then Some c
      else match fuel with
           | O => None
           | S fuel' => SetTip_loop h fuel' (<[Z.to_nat (nHeight n) := Some p]> c) (pprev n)
           end
  end.
Definition SetTip (h : heap) (c : chain) (pindex : option ptr) : option chain :=
  match pindex with
  | None => Some []
  | Some p =>
      n ← h !! p;
      let c := resize (Z.to_nat (nHeight n + 1)) None c in
      SetTip_loop h (Z.to_nat (nHeight n + 1)) c (Some p)
  end.

Fixpoint FindFork_loop (h : heap) (fuel : nat) (c : chain) (pindex : option ptr) : option (option ptr) :=
  match pindex with
  | None => Some None
  | Some p =>
      b ← Contains h c p;
      if (b : bool) then Some (Some p)
      else match fuel with
           | O => None
           | S fuel' => n ← h !! p; FindFork_loop h fuel' c (pprev n)
           end
  end.
Definition FindFork (h : heap) (c : chain) (pindex : option ptr) : option (option ptr) :=
  match pindex with
  | None => Some None
  | Some p =>
      n ← h !! p;
      start ← (if nHeight n >? Height c then GetAncestor h p (Height c) else Some (Some p));
      FindFork_loop h (Z.to_nat (nHeight n + 1)) c start
  end.

(** [vHave] with one hash pushed per round; [nStep] is an [int]. *)
Fixpoint GetLocator_loop (h : heap) (fuel : nat) (c : chain) (vHave : list bytes) (nStep : Z) (pindex : option ptr)
    : option (list bytes) :=
  match pindex with
  | None => Some vHave
  | Some p =>
      match fuel with
      | O => None
      | S fuel' =>
          n ← h !! p;
          hash ← phashBlock n;
          let vHave := vHave ++ [hash] in
          if nHeight n =? 0 then Some vHave
          else
            let height := Z.max (nHeight n - nStep) 0 in
            b ← Contains h c p;
            next ← (if (b : bool) then Some (at_height c height) else GetAncestor h p height);
            let nStep := if (10 <? length vHave)%nat then i32 (nStep * 2) else nStep in
            GetLocator_loop h fuel' c vHave nStep next
      end
  end.
Definition GetLocator (h : heap) (c : chain) (pindex : option ptr) : option (list bytes) :=
  let pindex := match pindex with Some p => Some p | None => Tip c end in
  match pindex with
  | None => Some []
  | Some p => n ← h !! p; GetLocator_loop h (Z.to_nat (nHeight n + 1)) c [] 1 (Some p)
  end.

(** ** Specification *)

(** The path from the genesis block to [p], by height. *)
Definition full_chain (h : heap) (p : ptr) (n : CBlockIndex) : chain :=
  map (λ i, up h (Z.to_nat (nHeight n) - i) p) (seq 0 (S (Z.to_nat (nHeight n)))).

Definition chain_ok (h : heap) (c : chain) : Prop :=
  c = [] ∨ ∃ p n, h !! p = Some n ∧ c = full_chain h p n.

(** ** Proofs *)

Lemma length_full_chain h p n : length (full_chain h p n) = S (Z.to_nat (nHeight n)).
Proof. unfold full_chain. by rewrite length_map, length_seq. Qed.

Lemma full_chain_lookup h p n i :
  (i ≤ Z.to_nat (nHeight n))%nat → full_chain h p n !! i = Some (up h (Z.to_nat (nHeight n) - i) p).
Proof.
  intros Hi. unfold full_chain. change (map ?f ?l) with (f <$> l). rewrite list_lookup_fmap, lookup_seq_lt by lia. done.
Qed.

Lemma full_chain_eq h p n c :
  length c = S (Z.to_nat (nHeight n)) →
  (∀ i, (i ≤ Z.to_nat (nHeight n))%nat → c !! i = Some (up h (Z.to_nat (nHeight n) - i) p)) →
  c = full_chain h p n.
Proof.
  intros Hl Hc. apply list_eq_same_length with (S (Z.to_nat (nHeight n))); [by rewrite length_full_chain|done|].
  intros i x y Hi. rewrite Hc, full_chain_lookup by lia. congruence.
Qed.

Section SetTip.
Context (h : heap) (Hh : linked h) (p : ptr) (n : CBlockIndex) (Hp : h !! p = Some n).
Let H : nat := Z.to_nat (nHeight n).

(** Below an entry that is right, the old entries are right. *)
Definition old_ok (j : nat) (c : chain) : Prop :=
  ∀ i q, (i ≤ j)%nat → c !! i = Some (Some q) → ∀ i', (i' ≤ i)%nat → c !! i' = Some (up h (i - i') q).

Lemma SetTip_loop_spec fuel c q m :
  h !! q = Some m → length c = S H → (Z.to_nat (nHeight m) ≤ H)%nat → (Z.to_nat (nHeight m) < fuel)%nat →
  up h (H - Z.to_nat (nHeight m)) p = Some q →
  (∀ i, (Z.to_nat (nHeight m) < i ≤ H)%nat → c !! i = Some (up h (H - i) p)) →
  old_ok (Z.to_nat (nHeight m)) c →
  SetTip_loop h fuel c (Some q) = Some (full_chain h p n).
Proof.
  revert c q m. induction fuel as [|fuel IH]; intros c q m Hq Hl Hj Hf Hup Hc Hold; [lia|].
  set (j := Z.to_nat (nHeight m)) in *. cbn [SetTip_loop]. rewrite Hq. cbn [mbind option_bind]. fold j.
  destruct (lookup_lt_is_Some_2 c j ltac:(lia)) as [e He]. rewrite He. cbn [mbind option_bind].
  destruct (decide (e = Some q)) as [->|Hne].
  { f_equal. apply full_chain_eq; [done|]. fold H. intros i Hi. destruct (decide (i ≤ j)%nat) as [Hij|]; [|apply Hc; lia].
    rewrite (Hold j q) by (done || lia). replace (H - i)%nat with (H - j + (j - i))%nat by lia. by rewrite up_add, Hup. }
  pose proof (Hh q m Hq) as Hm. pose proof (nl_height _ _ _ Hm).
  assert (Hc' : ∀ i, (j ≤ i ≤ H)%nat → <[j:=Some q]> c !! i = Some (up h (H - i) p)).
  { intros i Hi. destruct (decide (i = j)) as [->|]; [rewrite list_lookup_insert_eq by lia; by rewrite Hup|].
    rewrite list_lookup_insert_ne by done. apply Hc. lia. }
  destruct (pprev m) as [r|] eqn:Er.
  - destruct (nl_parent _ _ _ Hm r Er) as (k & Hk & Hkh). pose proof (nl_height _ _ _ (Hh r k Hk)).
    apply (IH _ r k); try done.
    + by rewrite length_insert.
    + lia.
    + lia.
    + replace (H - Z.to_nat (nHeight k))%nat with (H - j + 1)%nat by lia. rewrite up_add, Hup. cbn [mbind option_bind].
      by rewrite (up_step h q m Hq).
    + intros i Hi. apply Hc'. lia.
    + intros i q' Hi E i' Hi'. rewrite list_lookup_insert_ne in E by lia. rewrite list_lookup_insert_ne by lia.
      apply Hold; [lia|done|lia].
  - pose proof (nl_root _ _ _ Hm Er). assert (j = 0%nat) by lia.
    assert (E : SetTip_loop h fuel (<[j:=Some q]> c) None = Some (<[j:=Some q]> c)) by (by destruct fuel).
    rewrite E. f_equal. apply full_chain_eq; [by rewrite length_insert|]. fold H. intros i Hi. apply Hc'. lia.
Qed.
End SetTip.

Lemma resize_old_ok h c k j :
  linked h → chain_ok h c → old_ok h j (resize k None c).
Proof.
  intros Hh Hc i q Hi E i' Hi'. destruct Hc as [->|(p & n & Hp & ->)].
  - rewrite resize_nil in E. apply lookup_replicate in E as [E _]. discriminate.
  - set (H := Z.to_nat (nHeight n)). assert (Hik : (i < k)%nat).
    { apply lookup_lt_Some in E. by rewrite length_resize in E. }
    destruct (decide (i ≤ H)%nat) as [HiH|].
    + rewrite lookup_resize in E by (rewrite ?length_full_chain; lia).
      rewrite lookup_resize by (rewrite ?length_full_chain; lia).
      rewrite full_chain_lookup in E by lia. rewrite full_chain_lookup by lia. fold H in E |- *.
      injection E as E. replace (H - i')%nat with (H - i + (i - i'))%nat by lia. by rewrite up_add, E.
    + rewrite lookup_resize_new in E by (rewrite ?length_full_chain; lia). discriminate.
Qed.

Lemma SetTip_spec h c p n :
  linked h → chain_ok h c → h !! p = Some n → SetTip h c (Some p) = Some (full_chain h p n).
Proof.
  intros Hh Hc Hp. unfold SetTip. rewrite Hp. cbn [mbind option_bind]. pose proof (nl_height _ _ _ (Hh p n Hp)).
  apply (SetTip_loop_spec h Hh p n _ _ p n); try done.
  - rewrite length_resize. lia.
  - lia.
  - by rewrite Nat.sub_diag.
  - intros i Hi. lia.
  - by apply resize_old_ok.
Qed.

(** ** Reading a chain that is the path to its tip *)

Section Reading.
Context (h : heap) (Hh : linked h) (tip : ptr) (nt : CBlockIndex) (Ht : h !! tip = Some nt).
Let c := full_chain h tip nt.

Lemma tip_height : 0 ≤ nHeight nt.
Proof. exact (nl_height _ _ _ (Hh tip nt Ht)). Qed.
Lemma Height_full : Height c = nHeight nt.
Proof. unfold Height, c. rewrite length_full_chain. pose proof tip_height. lia. Qed.

Lemma at_height_full x :
  at_height c x = if (0 <=? x) && (x <=? nHeight nt) then up h (Z.to_nat (nHeight nt - x)) tip else None.
Proof.
  unfold at_height, c. rewrite length_full_chain. pose proof tip_height.
  destruct ((x <? 0) || (x >=? Z.of_nat (S (Z.to_nat (nHeight nt))))) eqn:E.
  - by replace ((0 <=? x) && (x <=? nHeight nt)) with false by lia.
  - replace ((0 <=? x) && (x <=? nHeight nt)) with true by lia. rewrite full_chain_lookup by lia.
    replace (Z.to_nat (nHeight nt) - Z.to_nat x)%nat with (Z.to_nat (nHeight nt - x)) by lia.
    by destruct (up h _ tip).
Qed.

Lemma Tip_full : Tip c = Some tip.
Proof.
  unfold Tip. assert (E : (0 <? Z.of_nat (length c)) = true) by (unfold c; rewrite length_full_chain; lia). rewrite E.
  rewrite at_height_full. unfold c. rewrite length_full_chain. pose proof tip_height.
  replace (_ && _) with true by lia. by replace (Z.to_nat _) with 0%nat by lia.
Qed.

(** Membership is being an ancestor of the tip. *)
Lemma Contains_full q m :
  h !! q = Some m →
  ∃ b, Contains h c q = Some b ∧ (b = true ↔ ∃ k, up h k tip = Some q).
Proof.
  intros Hq. unfold Contains. rewrite Hq. cbn [mbind option_bind]. eexists. split; [done|].
  rewrite bool_decide_eq_true, at_height_full. pose proof (nl_height _ _ _ (Hh q m Hq)). split.
  - destruct (_ && _); [|done]. intros E. by eexists.
  - intros [k Hk]. pose proof (up_height_of h tip nt k q m Hh Ht Hk Hq).
    replace (_ && _) with true by lia. by replace (Z.to_nat (nHeight nt - nHeight m)) with k by lia.
Qed.

(** ** The fork point *)

Lemma FindFork_loop_spec fuel p n :
  h !! p = Some n → (Z.to_nat (nHeight n) < fuel)%nat →
  ∃ r, FindFork_loop h fuel c (Some p) = Some r ∧ is_lca h p tip r.
Proof.
  revert p n. induction fuel as [|fuel IH]; intros p n Hp Hf; [lia|]. cbn [FindFork_loop].
  destruct (Contains_full p n Hp) as (b & -> & Hb). cbn [mbind option_bind]. destruct b.
  { destruct (proj1 Hb eq_refl) as [k Hk]. exists (Some p). split; [done|]. split; [by exists 0%nat, k|].
    intros i j d Hi _. by exists i. }
  assert (Hnot : ∀ j, up h j tip ≠ Some p).
  { intros j Hj. assert (false = true) by (apply Hb; by exists j). done. }
  rewrite Hp. cbn [mbind option_bind]. pose proof (nl_height _ _ _ (Hh p n Hp)).
  destruct (pprev n) as [q|] eqn:Eq.
  - destruct (nl_parent _ _ _ (Hh p n Hp) q Eq) as (m & Hm & Hmh). pose proof (nl_height _ _ _ (Hh q m Hm)).
    destruct (IH q m Hm ltac:(lia)) as (r & -> & Hr). exists r. split; [done|].
    assert (Hup : ∀ i, up h (S i) p = up h i q) by (intros i; cbn [up]; rewrite Hp; cbn [mbind option_bind]; by rewrite Eq).
    destruct r as [f|].
    + destruct Hr as [(i & j & Hi & Hj) Hlow]. split; [exists (S i), j; by rewrite Hup|].
      intros [|i'] j' d Hi' Hj'; [cbn [up] in Hi'; injection Hi' as <-; by destruct (Hnot j')|].
      rewrite Hup in Hi'. by apply (Hlow i' j').
    + intros [|i'] j' d Hi' Hj'; [cbn [up] in Hi'; injection Hi' as <-; by destruct (Hnot j')|].
      rewrite Hup in Hi'. by apply (Hr i' j' d).
  - exists None. split; [by destruct fuel|]. intros [|i] j d Hi Hj.
    + cbn [up] in Hi. injection Hi as <-. by destruct (Hnot j).
    + cbn [up] in Hi. rewrite Hp in Hi. cbn [mbind option_bind] in Hi. by rewrite Eq in Hi.
Qed.

Lemma FindFork_spec p n :
  h !! p = Some n → ∃ r, FindFork h c (Some p) = Some r ∧ is_lca h p tip r.
Proof.
  intros Hp. unfold FindFork. rewrite Hp. cbn [mbind option_bind]. rewrite Height_full. pose proof tip_height.
  pose proof (nl_height _ _ _ (Hh p n Hp)).
  destruct (nHeight n >? nHeight nt) eqn:E; cbn [mbind option_bind].
  2:{ apply (FindFork_loop_spec _ p n); [done|lia]. }
  rewrite (GetAncestor_spec h Hh p n _ Hp). replace (_ && _) with true by lia. cbn [mbind option_bind].
  destruct (up_height h Hh (Z.to_nat (nHeight n - nHeight nt)) p n Hp ltac:(lia)) as (a & ma & Ea & Ha & Hah).
  rewrite Ea. destruct (FindFork_loop_spec (Z.to_nat (nHeight n + 1)) a ma Ha ltac:(lia)) as (r & -> & Hr).
  exists r. split; [done|].
  assert (Hfrom : ∀ i j d, up h i p = Some d → up h j tip = Some d → ∃ i', up h i' a = Some d).
  { intros i j d Hi Hj. destruct (up_lookup h Hh i p d ltac:(by exists n) Hi) as [e He].
    pose proof (up_height_of h tip nt j d e Hh Ht Hj He).
    destruct (up_from_level h p n _ a ma i d Hh Hp Ea Ha Hi) as [_ U]; [exists e; split; [done|lia]|]. by eexists. }
  destruct r as [f|].
  - destruct Hr as [(i & j & Hi & Hj) Hlow]. split.
    + exists (Z.to_nat (nHeight n - nHeight nt) + i)%nat, j. by rewrite up_add, Ea.
    + intros i' j' d Hi' Hj'. destruct (Hfrom i' j' d Hi' Hj') as [i'' U]. by apply (Hlow i'' j').
  - intros i' j' d Hi' Hj'. destruct (Hfrom i' j' d Hi' Hj') as [i'' U]. by apply (Hr i'' j' d).
Qed.
End Reading.

Lemma is_lca_unique h pa pb r1 r2 :
  linked h → is_Some (h !! pa) → is_lca h pa pb r1 → is_lca h pa pb r2 → r1 = r2.
Proof.
  intros Hh Ha H1 H2. destruct r1 as [c1|], r2 as [c2|]; [| | |done].
  - destruct H1 as [(i1 & j1 & A1 & B1) L1], H2 as [(i2 & j2 & A2 & B2) L2].
    destruct (L1 i2 j2 c2 A2 B2) as [k1 K1], (L2 i1 j1 c1 A1 B1) as [k2 K2].
    destruct (up_lookup h Hh i1 pa c1 Ha A1) as [n1 N1]. destruct (up_lookup h Hh i2 pa c2 Ha A2) as [n2 N2].
    pose proof (up_height_of h c1 n1 k1 c2 n2 Hh N1 K1 N2). pose proof (up_height_of h c2 n2 k2 c1 n1 Hh N2 K2 N1).
    assert (k1 = 0%nat) as -> by lia. cbn in K1. congruence.
  - destruct H1 as [(i & j & A & B) _]. by destruct (H2 i j c1 A B).
  - destruct H2 as [(i & j & A & B) _]. by destruct (H1 i j c2 A B).
Qed.

(** ** Locators *)

(** The heights a locator mentions, from the start down to zero: one by one
    ten times, then with doubling steps. *)
Fixpoint locator_heights (fuel count : nat) (step x : Z) : list Z :=
  match fuel with
  | O => []
  | S fuel' =>
      x :: (if x =? 0 then []
            else locator_heights fuel' (S count) (if (10 <? S count)%nat then step * 2 else step) (Z.max (x - step) 0))
  end.

Lemma locator_heights_spec fuel count step x :
  0 ≤ x < Z.of_nat fuel → 1 ≤ step →
  head (locator_heights fuel count step x) = Some x ∧ last (locator_heights fuel count step x) = Some 0 ∧
  StronglySorted Z.gt (locator_heights fuel count step x) ∧ Forall (λ y, 0 ≤ y ≤ x) (locator_heights fuel count step x).
Proof.
  revert count step x. induction fuel as [|fuel IH]; intros count step x Hx Hs; [lia|]. cbn [locator_heights].
  split; [done|]. destruct (Z.eqb_spec x 0) as [->|Hne].
  { split_and!; [done|by repeat constructor|constructor; [lia|constructor]]. }
  destruct (IH (S count) (if (10 <? S count)%nat then step * 2 else step) (Z.max (x - step) 0)) as (E1 & E2 & E3 & E4);
    [lia|destruct (10 <? S count)%nat; lia|].
  set (l := locator_heights _ _ _ _) in *. split_and!.
  - destruct l; [done|]. exact E2.
  - constructor; [done|]. revert E4. apply List.Forall_impl. intros y Hy. lia.
  - constructor; [lia|]. revert E4. apply List.Forall_impl. intros y Hy. lia.
Qed.

Section Locator.
Context (h : heap) (Hh : linked h) (c : chain) (Hc : chain_ok h c).
Context (Hhash : ∀ p n, h !! p = Some n → is_Some (phashBlock n)).
Context (p0 : ptr) (n0 : CBlockIndex) (Hp0 : h !! p0 = Some n0) (Hmax : nHeight n0 < 536870912).

Definition hash_at (x : Z) : option bytes :=
  q ← up h (Z.to_nat (nHeight n0 - x)) p0; n ← h !! q; phashBlock n.

(** One round's jump, by the chain or by the skip list, is to the ancestor. *)
Lemma locator_jump p n x :
  h !! p = Some n → 0 ≤ x ≤ nHeight n →
  ∃ b, Contains h c p = Some b ∧
    (if b : bool then Some (at_height c x) else GetAncestor h p x) = Some (up h (Z.to_nat (nHeight n - x)) p).
Proof.
  intros Hp Hx.
  assert (Hanc : GetAncestor h p x = Some (up h (Z.to_nat (nHeight n - x)) p)).
  { rewrite (GetAncestor_spec h Hh p n x Hp). by replace ((0 <=? x) && (x <=? nHeight n)) with true by lia. }
  destruct Hc as [->|(tip & nt & Ht & ->)].
  - exists false. split; [|done]. unfold Contains. rewrite Hp. cbn [mbind option_bind]. f_equal.
    apply bool_decide_eq_false. unfold at_height. cbn [length]. pose proof (nl_height _ _ _ (Hh p n Hp)).
    by replace (_ || _) with true by lia.
  - destruct (Contains_full h Hh tip nt Ht p n Hp) as (b & Eb & Hb). exists b. split; [done|]. destruct b; [|done].
    destruct (proj1 Hb eq_refl) as [k Hk]. pose proof (up_height_of h tip nt k p n Hh Ht Hk Hp).
    rewrite (at_height_full h Hh tip nt Ht). replace (_ && _) with true by lia.
    replace (Z.to_nat (nHeight nt - x)) with (k + Z.to_nat (nHeight n - x))%nat by lia. by rewrite up_add, Hk.
Qed.

Lemma GetLocator_loop_spec fuel vHave step p n :
  h !! p = Some n → up h (Z.to_nat (nHeight n0 - nHeight n)) p0 = Some p → nHeight n ≤ nHeight n0 →
  nHeight n < Z.of_nat fuel → 1 ≤ step → nHeight n = 0 ∨ step < 1073741824 →
  GetLocator_loop h fuel c vHave step (Some p) =
  (l ← mapM hash_at (locator_heights fuel (length vHave) step (nHeight n)); Some (vHave ++ l)).
Proof.
  revert vHave step p n. induction fuel as [|fuel IH]; intros vHave step p n Hp Hup Hle Hf Hs Hb;
    pose proof (nl_height _ _ _ (Hh p n Hp)); [lia|]. cbn [GetLocator_loop locator_heights mapM].
  destruct (Hhash p n Hp) as [hash Eh].
  assert (E0 : hash_at (nHeight n) = Some hash) by (unfold hash_at; rewrite Hup; cbn [mbind option_bind]; by rewrite Hp).
  rewrite Hp, E0. cbn [mbind option_bind]. rewrite Eh. cbn [mbind option_bind].
  destruct (Z.eqb_spec (nHeight n) 0) as [Ez|Hne]; [done|].
  set (x := Z.max (nHeight n - step) 0).
  destruct (locator_jump p n x Hp ltac:(lia)) as (b & -> & Ej). cbn [mbind option_bind]. rewrite Ej. cbn [mbind option_bind].
  destruct (up_height h Hh (Z.to_nat (nHeight n - x)) p n Hp ltac:(lia)) as (q & m & Eq & Hq & Hqh). rewrite Eq.
  assert (Em : nHeight m = x) by lia.
  rewrite length_app. cbn [length]. replace (length vHave + 1)%nat with (S (length vHave)) by lia.
  rewrite i32_small by lia. rewrite (IH _ _ q m Hq).
  - rewrite Em, length_app. cbn [length]. replace (length vHave + 1)%nat with (S (length vHave)) by lia.
    destruct (mapM hash_at _) as [l|]; [|done]. cbn [mbind option_bind]. by rewrite <- app_assoc.
  - replace (Z.to_nat (nHeight n0 - nHeight m)) with (Z.to_nat (nHeight n0 - nHeight n) + Z.to_nat (nHeight n - x))%nat by lia.
    by rewrite up_add, Hup.
  - lia.
  - lia.
  - destruct (10 <? S (length vHave))%nat; lia.
  - destruct (10 <? S (length vHave))%nat; lia.
Qed.

Lemma GetLocator_spec :
  GetLocator h c (Some p0) = mapM hash_at (locator_heights (Z.to_nat (nHeight n0 + 1)) 0 1 (nHeight n0)) ∧
  is_Some (GetLocator h c (Some p0)).
Proof.
  pose proof (nl_height _ _ _ (Hh p0 n0 Hp0)). unfold GetLocator. rewrite Hp0. cbn [mbind option_bind].
  rewrite (GetLocator_loop_spec _ [] 1 p0 n0) by (done || lia || (by replace (Z.to_nat _) with 0%nat by lia)).
  cbn [length app]. destruct (locator_heights_spec (Z.to_nat (nHeight n0 + 1)) 0 1 (nHeight n0)) as (_ & _ & _ & Hf); [lia..|].
  assert (Hm : is_Some (mapM hash_at (locator_heights (Z.to_nat (nHeight n0 + 1)) 0 1 (nHeight n0)))).
  { apply mapM_is_Some. revert Hf. apply List.Forall_impl. intros x Hx. change (is_Some (hash_at x)). unfold hash_at.
    destruct (up_height h Hh (Z.to_nat (nHeight n0 - x)) p0 n0 Hp0 ltac:(lia)) as (q & m & -> & Hq & _).
    cbn [mbind option_bind]. rewrite Hq. by eapply Hhash. }
  destruct Hm as [l ->]. by cbn.
Qed.
End Locator.

(** ** Properties *)

(** Switching the tip.  [SetTip] stops copying at the first entry that is
    already right; when the old chain is the path to its tip (or empty), the
    result is nevertheless the whole path from the genesis block to the new
    tip, so the chain stays a path; no index is out of range.  On that chain
    the tip, the height, the entries, membership and the successor are what the
    path says. *)
Theorem SetTip_correct (h : heap) (c : chain) (p : ptr) (n : CBlockIndex) :
  linked h → chain_ok h c → h !! p = Some n →
  ∃ c', SetTip h c (Some p) = Some c' ∧ SetTip h c None = Some [] ∧
    chain_ok h c' ∧ c' = full_chain h p n ∧ Tip c' = Some p ∧ Height c' = nHeight n ∧
    (∀ x, at_height c' x = if (0 <=? x) && (x <=? nHeight n) then up h (Z.to_nat (nHeight n - x)) p else None) ∧
    ∀ q m, h !! q = Some m →
      (Contains h c' q = Some true ↔ ∃ k, up h k p = Some q) ∧
      (∀ k r, up h (S k) p = Some q → up h k p = Some r → Next h c' q = Some (Some r)).
Proof.
  intros Hh Hc Hp. exists (full_chain h p n). split_and!; try done.
  - by apply SetTip_spec.
  - right. by exists p, n.
  - by apply Tip_full.
  - by apply Height_full.
  - intros x. by apply at_height_full.
  - intros q m Hq. destruct (Contains_full h Hh p n Hp q m Hq) as (b & Eb & Hb). split.
    + rewrite Eb, <- Hb. by destruct b.
    + intros k r Hk Hr. unfold Next. rewrite Hq, Eb. cbn [mbind option_bind].
      rewrite (proj2 Hb) by (by exists (S k)). rewrite (at_height_full h Hh p n Hp).
      pose proof (up_height_of h p n (S k) q m Hh Hp Hk Hq). pose proof (nl_height _ _ _ (Hh q m Hq)).
      replace (_ && _) with true by lia. replace (Z.to_nat (nHeight n - (nHeight m + 1))) with k by lia. by rewrite Hr.
Qed.

(** A side branch of the example: block 5 on top of block 2. *)
Definition fork_example : heap := <[5%positive := node_at 2 (Some 2%positive) (Some 1%positive) 25]> heap_example.
Lemma fork_example_linked : linked fork_example.
Proof.
  exact (leaf_linked _ 5 2 (node_at 2 (Some 2%positive) (Some 1%positive) 25) _ heap_example_linked
    eq_refl eq_refl eq_refl eq_refl ltac:(by intros s [= <-])).
Qed.
Definition chain_example : chain := [Some 1%positive; Some 2%positive; Some 5%positive].
Lemma chain_example_ok : chain_ok fork_example chain_example.
Proof. right. exists 5%positive, (node_at 2 (Some 2%positive) (Some 1%positive) 25). split; reflexivity. Qed.

Lemma SetTip_correct_witness :
  SetTip fork_example chain_example (Some 4%positive)
  = Some [Some 1%positive; Some 2%positive; Some 3%positive; Some 4%positive] ∧
  ∃ c', SetTip fork_example chain_example (Some 4%positive) = Some c' ∧ SetTip fork_example chain_example None = Some [] ∧
    chain_ok fork_example c' ∧ c' = full_chain fork_example 4 (node_at 3 (Some 3%positive) (Some 2%positive) 40) ∧
    Tip c' = Some 4%positive ∧ Height c' = 3 ∧
    (∀ x, at_height c' x = if (0 <=? x) && (x <=? 3) then up fork_example (Z.to_nat (3 - x)) 4 else None) ∧
    ∀ q m, fork_example !! q = Some m →
      (Contains fork_example c' q = Some true ↔ ∃ k, up fork_example k 4 = Some q) ∧
      (∀ k r, up fork_example (S k) 4 = Some q → up fork_example k 4 = Some r → Next fork_example c' q = Some (Some r)).
Proof.
  split; [reflexivity|].
  apply (SetTip_correct fork_example chain_example 4 (node_at 3 (Some 3%positive) (Some 2%positive) 40)
    fork_example_linked chain_example_ok eq_refl).
Defined.

(** The fork point.  On a chain that is the path to its tip, [FindFork] of
    a block, which tests membership by height, is the last common ancestor of
    the block and the tip computed by walking both branches. *)
Theorem FindFork_correct (h : heap) (p tip : ptr) (nt : CBlockIndex) :
  linked h → is_Some (h !! p) → h !! tip = Some nt →
  FindFork h (full_chain h tip nt) (Some p) = LastCommonAncestor h p tip ∧
  (∃ r, FindFork h (full_chain h tip nt) (Some p) = Some r ∧ is_lca h p tip r) ∧
  FindFork h (full_chain h tip nt) None = Some None.
Proof.
  intros Hh [n Hp] Ht. destruct (FindFork_spec h Hh tip nt Ht p n Hp) as (r & E & Hr).
  destruct (LastCommonAncestor_spec h p tip Hh ltac:(by exists n) ltac:(by exists nt)) as (r' & E' & Hr').
  rewrite E, E'. split; [|split; [by exists r|done]]. f_equal. apply (is_lca_unique h p tip); (done || by exists n).
Qed.

Lemma FindFork_correct_witness :
  let c := full_chain fork_example 5 (node_at 2 (Some 2%positive) (Some 1%positive) 25) in
  FindFork fork_example c (Some 4%positive) = Some (Some 2%positive) ∧
  (FindFork fork_example c (Some 4%positive) = LastCommonAncestor fork_example 4 5 ∧
   (∃ r, FindFork fork_example c (Some 4%positive) = Some r ∧ is_lca fork_example 4 5 r) ∧
   FindFork fork_example c None = Some None).
Proof.
  intros c. split; [reflexivity|].
  apply (FindFork_correct fork_example 4 5 _ fork_example_linked); [eexists; reflexivity|reflexivity].
Defined.

(** Locators.  For a block below height [2^29] whose ancestors all have
    their hashes, [GetLocator] terminates and lists the hashes of its ancestors
    at the heights [locator_heights], whether the jumps go through the active
    chain or the skip list: these heights start at the block's own, fall
    strictly, and end at the genesis block. *)
Theorem GetLocator_correct (h : heap) (c : chain) (p : ptr) (n : CBlockIndex) :
  linked h → chain_ok h c → (∀ p n, h !! p = Some n → is_Some (phashBlock n)) →
  h !! p = Some n → nHeight n < 536870912 →
  let heights := locator_heights (Z.to_nat (nHeight n + 1)) 0 1 (nHeight n) in
  GetLocator h c (Some p) = mapM (hash_at h p n) heights ∧ is_Some (GetLocator h c (Some p)) ∧
  head heights = Some (nHeight n) ∧ last heights = Some 0 ∧ StronglySorted Z.gt heights.
Proof.
  intros Hh Hc Hhash Hp Hmax heights. destruct (GetLocator_spec h Hh c Hc Hhash p n Hp Hmax) as [E1 E2].
  pose proof (nl_height _ _ _ (Hh p n Hp)).
  destruct (locator_heights_spec (Z.to_nat (nHeight n + 1)) 0 1 (nHeight n)) as (F1 & F2 & F3 & _); [lia..|].
  by split_and!.
Qed.

Definition hashed_example : heap := (λ n, set_hash n [IndexTime n]) <$> heap_example.
Lemma hashed_example_linked : linked hashed_example.
Proof.
  assert (Hlk : ∀ p, hashed_example !! p = (λ n, set_hash n [IndexTime n]) <$> heap_example !! p) by (intros; apply lookup_fmap).
  assert (Hup : ∀ k p, up hashed_example k p = up heap_example k p).
  { induction k as [|k IH]; intros p; [done|]. cbn [up]. rewrite Hlk. destruct (heap_example !! p) as [n|]; [|done].
    cbn. destruct (pprev n); [|done]. cbn. apply IH. }
  intros p n. rewrite Hlk. destruct (heap_example !! p) as [n'|] eqn:E; [|done]. intros [= <-].
  destruct (heap_example_linked p n' E) as [H1 H2 H3 H4]. split; cbn; [done..| |].
  - intros q Hq. destruct (H3 q Hq) as (m & Hm & Hmh). exists (set_hash m [IndexTime m]). by rewrite Hlk, Hm.
  - intros s Hs. rewrite Hup. by apply H4.
Qed.

Lemma GetLocator_correct_witness :
  let n := set_hash (node_at 3 (Some 3%positive) (Some 2%positive) 40) [40] in
  let heights := locator_heights 4 0 1 3 in
  GetLocator hashed_example [] (Some 4%positive) = Some [[40]; [20]; [30]; [10]] ∧
  (GetLocator hashed_example [] (Some 4%positive) = mapM (hash_at hashed_example 4 n) heights ∧
   is_Some (GetLocator hashed_example [] (Some 4%positive)) ∧
   head heights = Some 3 ∧ last heights = Some 0 ∧ StronglySorted Z.gt heights).
Proof.
  intros n heights. split; [reflexivity|].
  apply (GetLocator_correct hashed_example [] 4 n hashed_example_linked).
  - by left.
  - intros p m. unfold hashed_example. rewrite lookup_fmap. destruct (heap_example !! p); [|done]. intros [= <-]. by eexists.
  - reflexivity.
  - reflexivity.
Defined.
