(* ===== verification/TicketPool.v ===== *)
(** * The ticket pool (src/src/ticketpool.h, ticketpool.cpp)

    Tickets are bought by transactions and wait in a pool.  The hash of a block
    draws five of them; their owners sign a later block.  This file holds
    the tickets, the pool and the draw, the update of the pool when a block is
    connected ([updateTicketpool], src/src/validation.cpp), and the check of the five
    signatures of a new block ([ProcessNewBlock], validation.cpp, and
    [CheckSigwithAddress], net_processing.cpp).

    The pool is a [boost::multi_index_container]: the container is an interface,
    [TicketSet], whose laws are its documented behaviour; sorted lists satisfy it. *)

From stdpp Require Import base numbers list option gmap sorting.
From Stdlib Require Import ZArith Lia ZifyNat ZifyBool.
From Stdlib Require String.
Import String.StringSyntax.
From S2P Require Import Prelude BlockStream Endian StrEncodings Hash Fips202 Script Serialize Transaction Coins Compressor.
From S2P Require Import Interpreter VerifyScript Standard Base58 Block BlockIndex Chain.

(** ** Constants (src/src/util.h) *)
Definition TICKETPOOL_HEIGHT_LATENCY : Z := 64.
Definition TICKET_VALVE : Z := 5000.
Definition TICKET_POOL_MAX_SIZE : Z := 2048.
Definition TICKET_PRICE : Z := 30000.
Definition MIN_TICKET_SIZE : Z := 40.

(** ** Tickets *)
Record Ticket := mkTicket { ticketHeight : Z; ticketTxHash : bytes; ticketPrice : Z; ticketAddress : CBase58Data }.
#[export] Instance Ticket_eq_dec : EqDecision Ticket.
Proof. solve_decision. Defined.
Definition Ticket_eq (a b : Ticket) : bool :=
  Base58_eq (ticketAddress a) (ticketAddress b) && (ticketHeight a =? ticketHeight b)
  && bool_decide (ticketTxHash a = ticketTxHash b) && (ticketPrice a =? ticketPrice b).

(** The ticket of a transaction.  [None] is an access past the end, or a price that
    is left uninitialised. *)
Definition Ticket_of (params : Base58Prefixes) (tx : CTransaction) (height : Z) : option Ticket :=
  hash ← GetHash tx;
  out0 ← vout tx !! 0%nat;
  buys ← HasOpSStx (scriptPubKey out0);
  price ← (if buys : bool then Some (nValue out0) else None);
  out1 ← vout tx !! 1%nat;
  '(address, _) ← ExtractDestination (scriptPubKey out1);
  Some (mkTicket height hash price (CBitcoinAddress params (default CNoDestination address))).

(** ** The container

    [by_hash] and [by_height] are the tickets from [begin()] to [end()] of the two
    indices, the unique one on the hash and the one on the height. *)
Definition hash_lt (a b : bytes) : bool := blob_Compare a b <? 0.
Definition before (a b : Ticket) : Prop := hash_lt (ticketTxHash a) (ticketTxHash b) = true.
Class TicketSet (S : Type) := {
  ts_empty : S;
  by_hash : S → list Ticket;
  by_height : S → list Ticket;
  ts_insert : Ticket → S → S;
  ts_erase : bytes → S → S;
  ts_erase_height : Z → S → S }.
Class TicketSetLaws (S : Type) `{TicketSet S} := {
  ts_hashes s : Forall (λ t, length (ticketTxHash t) = 32%nat) (by_hash s);
  ts_sorted s : StronglySorted before (by_hash s);
  ts_heights s : by_height s ≡ₚ by_hash s;
  ts_heights_sorted s : StronglySorted (λ a b, ticketHeight a ≤ ticketHeight b) (by_height s);
  ts_empty_spec : by_hash ts_empty = [];
  ts_insert_old t s : ticketTxHash t ∈ map ticketTxHash (by_hash s) → by_hash (ts_insert t s) = by_hash s;
  ts_insert_new t s : length (ticketTxHash t) = 32%nat → ticketTxHash t ∉ map ticketTxHash (by_hash s) → by_hash (ts_insert t s) ≡ₚ t :: by_hash s;
  ts_erase_spec h s : by_hash (ts_erase h s) = filter (λ t, ticketTxHash t ≠ h) (by_hash s);
  ts_erase_height_spec h s : by_hash (ts_erase_height h s) = filter (λ t, ticketHeight t ≠ h) (by_hash s) }.

Section Pool.
Context {T : Type} `{TicketSet T}.

(** ** [ticketPool] *)
Record ticketPool := mkPool { ticket_pool : T; load_height : Z }.
Definition new_ticketPool : ticketPool := mkPool ts_empty 0.
(** The copy constructor copies the tickets only. *)
Definition copy_ticketPool (p : ticketPool) (load : Z) : ticketPool := mkPool (ticket_pool p) load.
Definition updateLoadHeight (p : ticketPool) (height : Z) : ticketPool := mkPool (ticket_pool p) height.
Definition pool_size (p : ticketPool) : Z := Z.of_nat (length (by_hash (ticket_pool p))).
Definition getTicketpoolSize (p : ticketPool) : Z := i32 (pool_size p).
Definition ticketPush (p : ticketPool) (ticket : Ticket) : ticketPool := mkPool (ts_insert ticket (ticket_pool p)) (load_height p).
Definition ticketDel (p : ticketPool) (ticket : Ticket) : bool * ticketPool :=
  if bool_decide (ticketTxHash ticket ∈ map ticketTxHash (by_hash (ticket_pool p)))
  then (true, mkPool (ts_erase (ticketTxHash ticket) (ticket_pool p)) (load_height p)) else (false, p).
(** [lower_bound] and [upper_bound] of the height index. *)
Fixpoint drop_below (height : Z) (l : list Ticket) : list Ticket :=
  match l with t :: r => if ticketHeight t <? height then drop_below height r else l | [] => [] end.
Fixpoint take_upto (height : Z) (l : list Ticket) : list Ticket :=
  match l with t :: r => if ticketHeight t <=? height then t :: take_upto height r else [] | [] => [] end.
Definition ticketDelByHeight (p : ticketPool) (height : Z) : ticketPool :=
  match drop_below height (by_height (ticket_pool p)) with
  | [] => p
  | pbegin :: _ => if height <? ticketHeight pbegin then p else mkPool (ts_erase_height height (ticket_pool p)) (load_height p)
  end.
Definition getTicketByHeight (p : ticketPool) (height : Z) : list Ticket :=
  take_upto height (drop_below height (by_height (ticket_pool p))).
(** [None] is the exception; a ticket of a negative height is not given out. *)
Definition ticketAt (p : ticketPool) (index : Z) : option Ticket :=
  if pool_size p <=? index then None
  else
    ticket ← by_hash (ticket_pool p) !! Z.to_nat index;
    if ticketHeight ticket <? 0 then head (by_hash (ticket_pool p)) else Some ticket.

(** ** [luckyTicket] *)

(** [memcpy(t, p, 4)] from the characters of a string and the zero after them. *)
Definition copy4 (u : bytes) (p : Z) : option bytes :=
  if (p <? 0) || (Z.of_nat (length u) + 1 <? p + 4) then None else Some (take 4 (drop (Z.to_nat p) (u ++ [0]))).
(** [sscanf(t, "%x", &data)] of hexadecimal digits; without one, the variable stays uninitialised. *)
Definition sscanf_x (t : bytes) : option Z :=
  match take_while (λ c, negb (HexDigit c =? -1)) (c_str t) with
  | [] => None
  | digits => Some (from_digits 16 (rev (map HexDigit digits)))
  end.
Definition lucky_number (u1 : bytes) (p k : Z) : option Z := t ← copy4 u1 (p - k); sscanf_x t.
Definition lucky_offsets : list Z := [4; 8; 12; 16; 20].
(** [None] is a null block, an access out of the string or an uninitialised number. *)
Definition getLuckyIndex (h : heap) (chainActive : chain) (pool : ticketPool) (height seed : Z) : option (list Z) :=
  pblockindex ← at_height chainActive (height - TICKETPOOL_HEIGHT_LATENCY);
  n ← h !! pblockindex;
  hash ← phashBlock n;
  let u1 := GetHex hash in
  let seed := Z.rem seed 24 in
  let p := 63 - seed in
  idata ← mapM (lucky_number u1 p) lucky_offsets;
  Some (if 5 <? pool_size pool then map (λ i, u32 (i mod (pool_size pool - 5))) idata else []).

(** The loop of the callers: each ticket drawn is taken out of a copy of the pool. *)
Fixpoint draw (temppool : ticketPool) (luckyindex : list Z) : option (list Ticket * ticketPool) :=
  match luckyindex with
  | [] => Some ([], temppool)
  | index :: luckyindex =>
      lucky_ticket ← ticketAt temppool index;
      '(l, temppool) ← draw (snd (ticketDel temppool lucky_ticket)) luckyindex;
      Some (lucky_ticket :: l, temppool)
  end.

(** ** The update of the pool (src/src/validation.cpp)

    [ReadBlockFromDisk] reads the block of an index entry. *)
Definition delete_tickets (p : ticketPool) (l : list Ticket) : ticketPool := foldl (λ p t, snd (ticketDel p t)) p l.
(** [None] is an access past the end of the outputs. *)
Fixpoint push_tickets (params : Base58Prefixes) (p : ticketPool) (vtx : list CTransaction) (ticket_height : Z) : option ticketPool :=
  match vtx with
  | [] => Some p
  | tx :: vtx =>
      out0 ← vout tx !! 0%nat;
      buys ← HasOpSStx (scriptPubKey out0);
      p ← (if buys : bool then temp_ticket ← Ticket_of params tx ticket_height; Some (ticketPush p temp_ticket) else Some p);
      push_tickets params p vtx ticket_height
  end.
(** [None] is a null block that is read, or what the parts leave undefined. *)
Definition updateTicketpool (params : Base58Prefixes) (ReadBlockFromDisk : ptr → option CBlock) (h : heap) (chainActive : chain)
    (ticketpool : ticketPool) (block_height : Z) : option ticketPool :=
  let ticket_height := block_height - TICKETPOOL_HEIGHT_LATENCY in
  if ticket_height <=? load_height ticketpool then
    Some (if block_height <=? load_height ticketpool then ticketDelByHeight ticketpool block_height else ticketpool)
  else
    ticketBlockIndex ← at_height chainActive ticket_height;
    match ReadBlockFromDisk ticketBlockIndex with
    | None => Some ticketpool
    | Some block =>
        ticketpool ←
          (if TICKET_VALVE <? block_height then
             luckyindex ← getLuckyIndex h chainActive ticketpool (block_height - 1) (i32 (seed (old (header block))));
             '(vlucky_ticket, _) ← draw (copy_ticketPool ticketpool 0) luckyindex;
             Some (delete_tickets ticketpool vlucky_ticket)
           else Some ticketpool);
        let ticketpool :=
          if TICKET_POOL_MAX_SIZE <=? ticket_height then ticketDelByHeight ticketpool (block_height - TICKET_POOL_MAX_SIZE) else ticketpool in
        ticketpool ← push_tickets params ticketpool (vtx block) ticket_height;
        Some (updateLoadHeight ticketpool ticket_height)
    end.

(** The loop of [LoadTicketpool], which fills an empty pool when the program starts. *)
Fixpoint LoadTicketpool_loop (params : Base58Prefixes) (ReadBlockFromDisk : ptr → option CBlock) (h : heap) (chainActive : chain)
    (ticketpool : ticketPool) (n : nat) (i : Z) : option ticketPool :=
  match n with
  | O => Some ticketpool
  | Datatypes.S n =>
      ticketpool ← updateTicketpool params ReadBlockFromDisk h chainActive ticketpool i;
      LoadTicketpool_loop params ReadBlockFromDisk h chainActive ticketpool n (i + 1)
  end.

(** ** The signatures of a block *)
Definition strMessageMagic : bytes := str "Tsc Signed Message:" ++ [10].

Section Signatures.
(** libsecp256k1: the key that made a signature of 64 bytes, from a recovery number
    and a hash, serialized compressed or not. *)
Context (ecdsa_recover : bytes → Z → bytes → bool → option bytes) (params : Base58Prefixes).

(** The object when the function returns true. *)
Definition RecoverCompact (hash vchSig : bytes) : option bytes :=
  if negb (length vchSig =? 65)%nat then None
  else
    let c := char_at vchSig 0 - 27 in
    pub ← ecdsa_recover (drop 1 vchSig) (Z.land c 3) hash (negb (Z.land c 4 =? 0));
    Some (pubkey_Set pub).
Definition block_sig (b : CBlock) (index : Z) : option bytes :=
  if index =? 1 then Some (sig1 (header b)) else if index =? 2 then Some (sig2 (header b)) else if index =? 3 then Some (sig3 (header b))
  else if index =? 4 then Some (sig4 (header b)) else if index =? 5 then Some (sig5 (header b)) else None.
(** The hash that the owner of a ticket signs. *)
Definition message_hash (needsignblock : CBlock) : option bytes :=
  hash ← Block_GetHash needsignblock;
  Hashes.SerializeHash [ser_string strMessageMagic; ser_string (GetHex hash)].
Definition CheckSigwithAddress (needsignblock : CBlock) (strAddress : bytes) (index : Z) : option bool :=
  match block_sig needsignblock index with
  | None => Some false
  | Some strSign =>
      addr ← CBitcoinAddress_string strAddress;
      if negb (Address_IsValid params addr) then Some false
      else
        match GetKeyID params addr with
        | None => Some false
        | Some keyID =>
            let '(vchSig, fInvalid) := DecodeBase64 (c_str strSign) in
            if fInvalid then Some false
            else
              hash ← message_hash needsignblock;
              Some (match RecoverCompact hash vchSig with
                    | None => false
                    | Some pubkey => bool_decide (CPubKey_GetID pubkey = keyID)
                    end)
        end
  end.
(** The loop of [ProcessNewBlock]: the tickets are drawn and checked one by one. *)
Fixpoint check_lucky (temp_block : CBlock) (temppool : ticketPool) (luckyindex : list Z) (i : Z) : option bool :=
  match luckyindex with
  | [] => Some true
  | index :: luckyindex =>
      lucky_ticket ← ticketAt temppool index;
      let temppool := snd (ticketDel temppool lucky_ticket) in
      strAddress ← ToString (ticketAddress lucky_ticket);
      ok ← CheckSigwithAddress temp_block strAddress i;
      if ok : bool then check_lucky temp_block temppool luckyindex (i + 1) else Some false
  end.
(** What [ProcessNewBlock] does before it looks at the block itself. *)
Definition CheckLuckySignatures (h : heap) (chainActive : chain) (ticketpool : ticketPool) (pblock : CBlock) : option bool :=
  if TICKET_VALVE <=? Height chainActive then
    luckyindex ← getLuckyIndex h chainActive ticketpool (Height chainActive) (i32 (seed (old (header pblock))));
    check_lucky pblock (copy_ticketPool ticketpool 0) luckyindex 1
  else Some true.
End Signatures.
End Pool.
Arguments ticketPool T : clear implicits.

(** ** Proofs: the container *)
Lemma blob_Compare_refl a : blob_Compare a a = 0.
Proof. induction a as [|x a IH]; [done|]. cbn [blob_Compare]. by rewrite Z.eqb_refl. Qed.

Lemma filter_all {A} (P : A → Prop) `{∀ x, Decision (P x)} (l : list A) : (∀ x, x ∈ l → P x) → filter P l = l.
Proof.
  induction l as [|x l IH]; intros Hl; [done|]. rewrite filter_cons_True by (apply Hl; left). f_equal. apply IH. intros y Hy. apply Hl. by right.
Qed.

Section PoolProofs.
Context {T : Type} `{TicketSetLaws T}.
Implicit Types p : ticketPool T.
Abbreviation tickets p := (by_hash (ticket_pool p)).
Abbreviation hashes p := (map ticketTxHash (tickets p)).

Lemma tickets_nodup p : NoDup (hashes p).
Proof.
  induction (ts_sorted (ticket_pool p)) as [|t l _ IH Hall]; cbn [map]; constructor; [|done].
  intros Hin. apply list_elem_of_fmap in Hin as (t' & E & Hin'). rewrite Forall_forall in Hall. specialize (Hall t' Hin').
  unfold before, hash_lt in Hall. rewrite E, blob_Compare_refl in Hall. done.
Qed.
Lemma same_hash p t t' : t ∈ tickets p → t' ∈ tickets p → ticketTxHash t = ticketTxHash t' → t = t'.
Proof.
  pose proof (tickets_nodup p) as Hn. revert Hn. generalize (tickets p). intros l. induction l as [|x l IH]; intros Hn; [by intros ?%not_elem_of_nil|].
  cbn [map] in Hn. apply NoDup_cons in Hn as [Hx Hn]. intros Ht Ht' E. apply elem_of_cons in Ht, Ht'.
  destruct Ht as [->|Ht], Ht' as [->|Ht']; try done.
  - destruct Hx. rewrite E. by apply list_elem_of_fmap_2.
  - destruct Hx. rewrite <- E. by apply list_elem_of_fmap_2.
  - by apply IH.
Qed.

(** [l] is the list [l0] without the tickets [gone]. *)
Definition without (gone l0 : list Ticket) : list Ticket := filter (λ t, ticketTxHash t ∉ map ticketTxHash gone) l0.
Lemma without_nil l : without [] l = l.
Proof. unfold without. induction l as [|t l IH]; [done|]. rewrite filter_cons_True by (cbn; apply not_elem_of_nil). by rewrite IH. Qed.
Lemma without_cons t gone l : without (t :: gone) l = without gone (filter (λ t', ticketTxHash t' ≠ ticketTxHash t) l).
Proof.
  unfold without. rewrite list_filter_filter. apply list_filter_iff. intros t'. cbn [map]. rewrite not_elem_of_cons. tauto.
Qed.
(** The tickets at the given places, each taken out before the next is looked up. *)
Inductive picks : list Ticket → list Z → list Ticket → Prop :=
  | picks_nil l : picks l [] []
  | picks_cons l i js t ts : l !! Z.to_nat i = Some t → picks (delete (Z.to_nat i) l) js ts → picks l (i :: js) (t :: ts).
Lemma without_lookup l i t : NoDup (map ticketTxHash l) → l !! i = Some t → without [t] l = delete i l.
Proof.
  rewrite without_cons, without_nil. revert i. induction l as [|x l IH]; intros [|i] Hn E; [done..| |]; cbn [map] in Hn; apply NoDup_cons in Hn as [Hx Hn].
  - injection E as ->. rewrite filter_cons_False by (by intros ?). apply filter_all. intros t' Ht' E'. apply Hx. rewrite <- E'. by apply list_elem_of_fmap_2.
  - rewrite filter_cons_True; [cbn [delete list_delete]; f_equal; by apply IH|]. intros E'. apply Hx. rewrite E'. apply list_elem_of_fmap_2. by eapply list_elem_of_lookup_2.
Qed.
Lemma picks_spec l js ts : picks l js ts → NoDup (map ticketTxHash l) →
  length ts = length js ∧ NoDup (map ticketTxHash ts) ∧ ∀ t, t ∈ ts → t ∈ l.
Proof.
  induction 1 as [l|l i js t ts Ht _ IH]; intros Hn; [split_and!; [done|constructor|by intros t ?%not_elem_of_nil]|].
  rewrite <- (without_lookup l (Z.to_nat i) t Hn Ht) in IH. destruct IH as (I1 & I2 & I3).
  { rewrite without_cons, without_nil. eapply sublist_NoDup; [exact Hn|]. apply fmap_sublist, sublist_filter. }
  assert (Hsub : ∀ t', t' ∈ ts → t' ∈ l ∧ ticketTxHash t' ≠ ticketTxHash t).
  { intros t' Ht'%I3. rewrite without_cons, without_nil in Ht'. by apply list_elem_of_filter in Ht' as [? ?]. }
  split_and!; [cbn [length]; lia| |].
  - cbn [map]. apply NoDup_cons. split; [|done]. intros (t' & E & Ht')%list_elem_of_fmap. by destruct (Hsub t' Ht').
  - intros t' [->|Ht']%elem_of_cons; [by eapply list_elem_of_lookup_2|by apply Hsub].
Qed.
Lemma ticketDel_spec p t : t ∈ tickets p →
  let p' := snd (ticketDel p t) in
  fst (ticketDel p t) = true ∧ tickets p' = without [t] (tickets p) ∧ pool_size p' = pool_size p - 1 ∧ load_height p' = load_height p.
Proof.
  intros Ht. unfold ticketDel. rewrite bool_decide_true by (by apply list_elem_of_fmap_2). cbn [fst snd ticket_pool load_height].
  split; [done|]. rewrite ts_erase_spec. split; [by rewrite without_cons, without_nil|]. split; [|done].
  unfold pool_size. cbn [ticket_pool]. rewrite ts_erase_spec. pose proof (tickets_nodup p) as Hn. revert Ht Hn. generalize (tickets p). intros l.
  induction l as [|x l IH]; [by intros ?%not_elem_of_nil|]. cbn [map]. intros Hin [Hx Hn]%NoDup_cons.
  destruct (decide (ticketTxHash x = ticketTxHash t)) as [E|E].
  - rewrite filter_cons_False by (by intros ?). rewrite filter_all; [cbn [length]; lia|]. intros t' Ht' E'. apply Hx. rewrite E, <- E'. by apply list_elem_of_fmap_2.
  - rewrite filter_cons_True by done. apply elem_of_cons in Hin as [->|Hin]; [done|]. specialize (IH Hin Hn). cbn [length]. lia.
Qed.
Lemma ticketAt_spec p i : Forall (λ t, 0 ≤ ticketHeight t) (tickets p) → 0 ≤ i < pool_size p →
  ∃ t, ticketAt p i = Some t ∧ tickets p !! Z.to_nat i = Some t.
Proof.
  intros Hh Hi. unfold ticketAt. replace (pool_size p <=? i) with false by lia. unfold pool_size in Hi.
  destruct (lookup_lt_is_Some_2 (tickets p) (Z.to_nat i) ltac:(lia)) as [t E]. rewrite E. cbn [mbind option_bind]. exists t. split; [|done].
  rewrite Forall_forall in Hh. specialize (Hh t (list_elem_of_lookup_2 _ _ _ E)). by replace (ticketHeight t <? 0) with false by lia.
Qed.
Lemma draw_spec l p : Forall (λ t, 0 ≤ ticketHeight t) (tickets p) → Forall (λ i, 0 ≤ i ≤ pool_size p - Z.of_nat (length l)) l →
  ∃ drawn p', draw p l = Some (drawn, p') ∧ picks (tickets p) l drawn.
Proof.
  revert p. induction l as [|i l IH]; intros p Hh Hi; cbn [draw]; [exists [], p; by split; [|constructor]|].
  apply list.Forall_cons in Hi as [Hi Hl]. cbn [length] in Hi, Hl. destruct (ticketAt_spec p i Hh ltac:(lia)) as (t & -> & Et). cbn [mbind option_bind].
  pose proof (list_elem_of_lookup_2 _ _ _ Et) as Hin. destruct (ticketDel_spec p t Hin) as (_ & Hp & Hs & _). set (p1 := snd (ticketDel p t)) in *.
  destruct (IH p1) as (drawn & p' & -> & Hd).
  { rewrite Hp. apply Forall_forall. intros t' [_ Ht']%list_elem_of_filter. rewrite Forall_forall in Hh. by apply Hh. }
  { eapply List.Forall_impl; [|exact Hl]. cbv beta. intros j. lia. }
  cbn [mbind option_bind]. exists (t :: drawn), p'. split; [done|]. apply picks_cons; [done|].
  rewrite Hp, (without_lookup _ _ _ (tickets_nodup p) Et) in Hd. done.
Qed.
End PoolProofs.

(** ** Proofs: the numbers drawn *)
Lemma to_digits_drop B n j x : 1 < B → (j ≤ n)%nat → drop j (to_digits B n x) = to_digits B (n - j) (x / B ^ Z.of_nat j).
Proof.
  intros HB. revert n x. induction j as [|j IH]; intros n x Hj; cbn [drop].
  - by rewrite Z.pow_0_r, Z.div_1_r, Nat.sub_0_r.
  - destruct n as [|n]; [lia|]. cbn [to_digits drop Nat.sub]. rewrite IH by lia. f_equal.
    rewrite Nat2Z.inj_succ, Z.pow_succ_r, Z.div_div by (try apply Z.pow_pos_nonneg; lia). done.
Qed.
Lemma to_digits_take B n m x : (m ≤ n)%nat → take m (to_digits B n x) = to_digits B m x.
Proof.
  revert n x. induction m as [|m IH]; intros n x Hm; [done|]. destruct n as [|n]; [lia|]. cbn [to_digits take]. by rewrite IH by lia.
Qed.
Definition hexc (d : Z) : Z := nth (Z.to_nat d) hexmap 0.
Lemma GetHex_digits data : bytes_ok data →
  GetHex data = map hexc (rev (to_digits 16 (2 * length data) (from_digits 256 data))).
Proof.
  intros Hd. unfold GetHex, HexStr. rewrite HexStr_pairs. induction Hd as [|b data Hb Hd IH]; [done|].
  cbn [rev length]. rewrite map_app, concat_app, IH. cbn [map concat].
  replace (2 * S (length data))%nat with (S (S (2 * length data))) by lia. cbn [to_digits from_digits rev].
  rewrite !map_app. cbn [map].
  assert (E : (b + 256 * from_digits 256 data) / 16 / 16 = from_digits 256 data) by zlin. rewrite E, <- app_assoc. f_equal.
  rewrite app_nil_r. unfold pair, hexc. cbn [app]. repeat f_equal.
  - rewrite Z.shiftr_div_pow2 by lia. change (2 ^ 4) with 16. zlin.
  - change 15 with (Z.ones 4). rewrite Z.land_ones by lia. change (2 ^ 4) with 16. zlin.
Qed.
Lemma sscanf_digits l : l ≠ [] → digits_ok 16 l → sscanf_x (map hexc l) = Some (from_digits 16 (rev l)).
Proof.
  intros Hn Hl. assert (Hc : Forall (λ c, HexDigit c ≠ -1 ∧ c ≠ 0) (map hexc l) ∧ map HexDigit (map hexc l) = l).
  { clear Hn. induction Hl as [|d l Hd _ [IH1 IH2]]; [by split; constructor|]. destruct (HexDigit_hexmap d Hd) as (E & _ & H0). cbn [map]. split.
    - apply list.Forall_cons. split; [|done]. unfold hexc. rewrite E. split; [lia|done].
    - f_equal; [exact E|exact IH2]. }
  destruct Hc as [Hc Hm]. unfold sscanf_x, c_str. rewrite !take_while_all.
  - destruct l as [|d l]; [done|]. cbn [map] in *. by rewrite Hm.
  - eapply List.Forall_impl; [|exact Hc]. cbv beta. intros c. lia.
  - rewrite take_while_all; eapply List.Forall_impl; [|exact Hc| |exact Hc]; cbv beta; intros c; lia.
Qed.
(** The number that a draw reads [s + k - 3] digits from the end of a hash: its sixteen bits, or
    twelve when the last digit that is read is the end of the string. *)
Definition lucky_value (hash : bytes) (s k : Z) : Z :=
  if s + k - 3 <? 0 then from_digits 256 hash mod 4096 else (from_digits 256 hash / 16 ^ (s + k - 3)) mod 65536.
Lemma lucky_value_range hash s k : 0 ≤ lucky_value hash s k < 65536.
Proof. unfold lucky_value. destruct (_ <? 0); lia. Qed.
Lemma sscanf_zero t : Forall (λ c, c ≠ 0) t → sscanf_x (t ++ [0]) = sscanf_x t.
Proof.
  intros Ht. unfold sscanf_x, c_str. replace (take_while _ (t ++ [0])) with (take_while (λ c : Z, negb (c =? 0)) t); [done|].
  induction Ht as [|c t Hc _ IH]; [done|]. cbn [app take_while]. by rewrite IH.
Qed.
(** The [n] digits of a hash before the last [j]. *)
Lemma hash_digits hash j n : length hash = 32%nat → bytes_ok hash → (0 < n)%nat → (n + j ≤ 64)%nat →
  sscanf_x (take n (drop (64 - n - j) (GetHex hash))) = Some (from_digits 256 hash / 16 ^ Z.of_nat j mod 16 ^ Z.of_nat n) ∧
  Forall (λ c, c ≠ 0) (take n (drop (64 - n - j) (GetHex hash))).
Proof.
  intros Hl Hok Hn Hj. rewrite (GetHex_digits hash Hok), Hl. change (2 * 32)%nat with 64%nat.
  set (D := to_digits 16 64 (from_digits 256 hash)). assert (HD : length D = 64%nat) by apply length_to_digits.
  rewrite List.skipn_map, List.firstn_map.
  assert (E : take n (drop (64 - n - j) (rev D)) = rev (take n (drop j D))).
  { rewrite List.skipn_rev, HD, List.firstn_rev. f_equal. rewrite List.firstn_skipn_comm, length_take, HD.
    replace ((64 - (64 - n - j)) `min` 64 - n)%nat with j by lia. by replace (j + n)%nat with (64 - (64 - n - j))%nat by lia. }
  rewrite E. unfold D. rewrite to_digits_drop, to_digits_take by lia.
  assert (Hd : digits_ok 16 (to_digits 16 n (from_digits 256 hash / 16 ^ Z.of_nat j))) by (apply to_digits_ok; lia). split.
  - rewrite sscanf_digits; [by rewrite rev_involutive, from_to_digits by lia| |by apply Forall_rev].
    intros E'. apply (f_equal length) in E'. rewrite length_rev, length_to_digits in E'. cbn in E'. lia.
  - apply Forall_forall. intros c (d & -> & Hin)%list_elem_of_fmap. apply list_elem_of_In, in_rev, list_elem_of_In in Hin.
    unfold digits_ok in Hd. rewrite Forall_forall in Hd. unfold hexc. destruct (HexDigit_hexmap d (Hd d Hin)) as (_ & _ & H0). exact H0.
Qed.
Lemma length_GetHex hash : length hash = 32%nat → bytes_ok hash → length (GetHex hash) = 64%nat.
Proof. intros Hl Hok. by rewrite (GetHex_digits hash Hok), length_map, length_rev, length_to_digits, Hl. Qed.
Lemma lucky_number_spec hash s k : length hash = 32%nat → bytes_ok hash → -3 < s < 24 → 4 ≤ k ≤ 20 →
  lucky_number (GetHex hash) (63 - s) k = Some (lucky_value hash s k).
Proof.
  intros Hl Hok Hs Hk. pose proof (length_GetHex hash Hl Hok) as Hx. unfold lucky_number, copy4, lucky_value. rewrite Hx.
  replace ((63 - s - k <? 0) || (Z.of_nat 64 + 1 <? 63 - s - k + 4)) with false by lia. cbn [mbind option_bind].
  destruct (Z.ltb_spec (s + k - 3) 0).
  - assert (s = -2 ∧ k = 4) as [-> ->] by lia. change (Z.to_nat (63 - -2 - 4)) with (64 - 3 - 0)%nat.
    destruct (hash_digits hash 0 3 Hl Hok) as [E1 E2]; [lia..|].
    rewrite drop_app_le by lia.
    assert (E : take 4 (drop (64 - 3 - 0) (GetHex hash) ++ [0]) = take 3 (drop (64 - 3 - 0) (GetHex hash)) ++ [0]).
    { rewrite !take_ge; [done|rewrite length_drop; lia|rewrite length_app, length_drop; cbn; lia]. }
    rewrite E, sscanf_zero, E1 by done. by rewrite Z.pow_0_r, Z.div_1_r.
  - set (j := Z.to_nat (s + k - 3)). replace (Z.to_nat (63 - s - k)) with (64 - 4 - j)%nat by lia.
    rewrite drop_app_le, take_app_le by (rewrite ?length_drop; lia). destruct (hash_digits hash j 4 Hl Hok) as [-> _]; [lia..|].
    do 2 f_equal. unfold j. by rewrite Z2Nat.id by lia.
Qed.
Lemma lucky_number_outside hash s : length hash = 32%nat → bytes_ok hash → s ≤ -3 → lucky_number (GetHex hash) (63 - s) 4 = None.
Proof.
  intros Hl Hok Hs. unfold lucky_number, copy4. rewrite (length_GetHex hash Hl Hok).
  by replace ((63 - s - 4 <? 0) || (Z.of_nat 64 + 1 <? 63 - s - 4 + 4)) with true by lia.
Qed.
(** The places of the five tickets, and the seeds with which they are read within the string. *)
Definition lucky_indices (hash : bytes) (seed size : Z) : list Z :=
  if 5 <? size then map (λ k, lucky_value hash (Z.rem seed 24) k mod (size - 5)) lucky_offsets else [].
Definition seed_in_bounds (b : CBlock) : Prop := -3 < Z.rem (i32 (seed (old (header b)))) 24.
(** The hash of the block of the active chain at a height. *)
Definition hash_at (h : heap) (c : chain) (height : Z) (hash : bytes) : Prop :=
  ∃ q n, at_height c height = Some q ∧ h !! q = Some n ∧ phashBlock n = Some hash ∧ length hash = 32%nat ∧ bytes_ok hash.

(** ** Proofs: the signatures *)
Section LuckyIndex.
Context {T : Type} `{TicketSet T}.
Implicit Types p : ticketPool T.

Lemma lucky_index_spec h c p hash height sd : hash_at h c (height - TICKETPOOL_HEIGHT_LATENCY) hash →
  getLuckyIndex h c p height sd = if Z.rem sd 24 <=? -3 then None else Some (lucky_indices hash sd (pool_size p)).
Proof.
  intros (q & n & Hq & Hn & Hh & Hl & Hok). unfold getLuckyIndex. rewrite Hq. cbn [mbind option_bind]. rewrite Hn. cbn [mbind option_bind]. rewrite Hh. cbn [mbind option_bind].
  pose proof (Z.rem_bound_abs sd 24 ltac:(lia)) as Hs. set (s := Z.rem sd 24) in *. destruct (Z.leb_spec s (-3)).
  { assert (E : mapM (lucky_number (GetHex hash) (63 - s)) lucky_offsets = None).
    { change lucky_offsets with (4 :: [8; 12; 16; 20]). unfold mapM. cbn [list_rect]. by rewrite lucky_number_outside. }
    by rewrite E. }
  assert (E : mapM (lucky_number (GetHex hash) (63 - s)) lucky_offsets = Some (map (lucky_value hash s) lucky_offsets)).
  { apply mapM_Some. unfold lucky_offsets. cbn [map]. repeat constructor; apply lucky_number_spec; done || lia. }
  rewrite E. cbn [mbind option_bind]. unfold lucky_indices. fold s. destruct (Z.ltb_spec 5 (pool_size p)); [|done]. f_equal. rewrite map_map. apply map_ext. intros k.
  pose proof (lucky_value_range hash s k). apply u32_small. unfold is_u32. split; [apply Z.mod_pos_bound; lia|].
  apply Z.le_lt_trans with (lucky_value hash s k); [apply Z.mod_le|]; lia.
Qed.
Lemma lucky_indices_range hash sd p :
  Forall (λ i, 0 ≤ i ≤ pool_size p - Z.of_nat (length (lucky_indices hash sd (pool_size p)))) (lucky_indices hash sd (pool_size p)).
Proof.
  unfold lucky_indices. destruct (Z.ltb_spec 5 (pool_size p)) as [H5|]; [|constructor]. rewrite length_map.
  apply Forall_forall. intros i (k & -> & _)%list_elem_of_fmap. cbn [length lucky_offsets].
  assert (Hm : 0 ≤ lucky_value hash (Z.rem sd 24) k mod (pool_size p - 5) < pool_size p - 5) by (apply Z.mod_pos_bound; lia). lia.
Qed.
End LuckyIndex.

Section LuckyProofs.
Context {T : Type} `{TicketSetLaws T} (ecdsa_recover : bytes → Z → bytes → bool → option bytes) (params : Base58Prefixes) (Hparams : prefixes_ok params).
Implicit Types p : ticketPool T.
Abbreviation tickets p := (by_hash (ticket_pool p)).

Definition address_ok (a : CBase58Data) : Prop :=
  ∃ dest, a = CBitcoinAddress params dest ∧ bytes_ok (dest_hash dest) ∧ (dest = CNoDestination ∨ length (dest_hash dest) = 20%nat).
(** The [i]-th signature of the block is made by the owner of the ticket. *)
Definition ticket_signed (b : CBlock) (mh : bytes) (i : Z) (t : Ticket) : Prop :=
  ∃ sig vchSig key, block_sig b i = Some sig ∧ DecodeBase64 (c_str sig) = (vchSig, false) ∧
    RecoverCompact ecdsa_recover mh vchSig = Some key ∧ Address_Get params (ticketAddress t) = CKeyID (CPubKey_GetID key).

Lemma address_string_roundtrip a : address_ok a → ∃ s a', ToString a = Some s ∧ CBitcoinAddress_string s = Some a' ∧
  (a' = a ∨ Address_IsValid params a' = false ∧ Address_Get params a = CNoDestination).
Proof.
  intros (dest & -> & Hok & Hd).
  assert (Hver : (length (vchVersion (CBitcoinAddress params dest)) ≤ 1)%nat ∧ bytes_ok (vchVersion (CBitcoinAddress params dest)) ∧
      vchData (CBitcoinAddress params dest) = dest_hash dest ∧ (dest ≠ CNoDestination → length (vchVersion (CBitcoinAddress params dest)) = 1%nat)).
  { destruct Hparams. destruct dest; cbn; split_and!; try done; try lia; apply bytes_ok_nil. }
  destruct Hver as (H1 & H2 & H3 & H4). unfold ToString.
  destruct (check_decode_encode (vchVersion (CBitcoinAddress params dest) ++ vchData (CBitcoinAddress params dest))) as (e & E & Hle & HD).
  { apply bytes_ok_app. by rewrite H3. } { rewrite H3, length_app. destruct Hd as [->|Hd]; [cbn; lia|]. rewrite Hd. lia. }
  specialize (HD [] []). rewrite app_nil_r in HD. cbn [app] in HD. exists e. rewrite E.
  unfold CBitcoinAddress_string, SetString. rewrite HD; [|constructor..|].
  2:{ rewrite length_app, H3 in Hle. destruct Hd as [->|Hd]; [cbn in Hle|rewrite Hd in Hle]; lia. }
  clear E HD Hle. cbn [mbind option_bind]. destruct Hd as [->|Hd].
  - cbn. eexists. split; [done|]. split; [done|]. right. split; [|done]. unfold Address_IsValid. done.
  - assert (Hne : dest ≠ CNoDestination) by (intros ->; discriminate Hd). rewrite length_app, (H4 Hne).
    destruct (Nat.ltb_spec (1 + length (vchData (CBitcoinAddress params dest))) 1); [lia|]. cbn [mbind option_bind].
    rewrite take_app_length', drop_app_length' by (symmetry; by apply H4). eexists. split; [done|]. split; [done|]. left. by destruct (CBitcoinAddress params dest).
Qed.
Lemma GetKeyID_spec a id : GetKeyID params a = Some id ↔ Address_Get params a = CKeyID id.
Proof.
  unfold GetKeyID, Address_Get. destruct (Address_IsValid params a); cbn [negb orb]; [|done].
  destruct (bool_decide (vchVersion a = PUBKEY_ADDRESS params)); cbn [negb]; [split; congruence|].
  destruct (bool_decide (vchVersion a = SCRIPT_ADDRESS params)); done.
Qed.
Lemma check_signature_spec b mh i t : message_hash b = Some mh → address_ok (ticketAddress t) →
  ∃ s r, ToString (ticketAddress t) = Some s ∧ CheckSigwithAddress ecdsa_recover params b s i = Some r ∧ (r = true ↔ ticket_signed b mh i t).
Proof.
  intros Hm Ha. destruct (address_string_roundtrip _ Ha) as (s & a' & Hs & Ha' & Hor). exists s. unfold CheckSigwithAddress, ticket_signed. rewrite Ha'.
  destruct (block_sig b i) as [sig|]; [|exists false; split_and!; try done; split; [done|]; by intros (? & ? & ? & ? & _)].
  cbn [mbind option_bind]. rewrite Hm. destruct Hor as [->|[-> Hg]]; cbn [negb].
  2:{ exists false. split_and!; try done. split; [done|]. intros (? & ? & ? & _ & _ & _ & E). congruence. }
  destruct (GetKeyID params (ticketAddress t)) as [id|] eqn:Eid.
  - assert (Hv : Address_IsValid params (ticketAddress t) = true) by (unfold GetKeyID in Eid; destruct (Address_IsValid params (ticketAddress t)); done).
    rewrite Hv. cbn [negb]. apply GetKeyID_spec in Eid. rewrite Eid. destruct (DecodeBase64 (c_str sig)) as [vchSig []] eqn:Ed.
    + exists false. split_and!; try done. split; [done|]. intros (? & ? & ? & [= <-] & E & _). rewrite Ed in E. done.
    + cbn [mbind option_bind]. destruct (RecoverCompact ecdsa_recover mh vchSig) as [key|] eqn:Er; eexists; (split; [done|]; split; [done|]).
      * rewrite bool_decide_eq_true. split; [intros <-; by exists sig, vchSig, key|]. intros (? & ? & ? & [= <-] & E & E2 & E3). rewrite Ed in E. injection E as <-.
        rewrite Er in E2. congruence.
      * split; [done|]. intros (? & ? & ? & [= <-] & E & E2 & E3). rewrite Ed in E. injection E as <-. by rewrite Er in E2.
  - assert (Hno : ¬ ∃ key, Address_Get params (ticketAddress t) = CKeyID key).
    { intros (key & E). apply GetKeyID_spec in E. congruence. }
    exists false. split; [done|]. split; [by destruct (Address_IsValid params (ticketAddress t))|]. split; [done|].
    intros (? & ? & ? & _ & _ & _ & E). destruct Hno. by eexists.
Qed.
Lemma check_lucky_spec b mh l p drawn p' i : message_hash b = Some mh → Forall (λ t, address_ok (ticketAddress t)) (tickets p) →
  draw p l = Some (drawn, p') →
  ∃ r, check_lucky ecdsa_recover params b p l i = Some r ∧ (r = true ↔ ∀ j t, drawn !! j = Some t → ticket_signed b mh (i + Z.of_nat j) t).
Proof.
  intros Hm. revert p drawn i. induction l as [|x l IH]; intros p drawn i Ha; cbn [draw check_lucky].
  { intros [= <- <-]. exists true. split; [done|]. split; [|done]. intros _ j t Hj. done. }
  destruct (ticketAt p x) as [t|] eqn:Et; [|done]. cbn [mbind option_bind].
  destruct (draw (snd (ticketDel p t)) l) as [[drawn' p1]|] eqn:Ed; [|done]. cbn [mbind option_bind]. intros [= <- <-].
  assert (Hin : t ∈ tickets p).
  { unfold ticketAt in Et. destruct (pool_size p <=? x); [done|]. destruct (tickets p !! Z.to_nat x) as [t0|] eqn:E0; [|done]. cbn [mbind option_bind] in Et.
    destruct (ticketHeight t0 <? 0); [by apply head_Some_elem_of|]. injection Et as <-. by eapply list_elem_of_lookup_2. }
  rewrite Forall_forall in Ha. destruct (check_signature_spec b mh i t Hm (Ha t Hin)) as (s & r & -> & Hc & Hr). cbn [mbind option_bind]. rewrite Hc. cbn [mbind option_bind].
  destruct r.
  - destruct (IH (snd (ticketDel p t)) drawn' (i + 1)) as (r' & -> & Hr'); [|done|].
    { apply Forall_forall. intros t' Ht'. apply Ha. destruct (ticketDel_spec p t Hin) as (_ & E & _). rewrite E in Ht'. unfold without in Ht'.
      by apply list_elem_of_filter in Ht' as [_ Ht']. }
    exists r'. split; [done|]. rewrite Hr'. split.
    + intros Hall [|j] t' Hj; cbn in Hj; [injection Hj as <-; rewrite Z.add_0_r; by apply Hr|]. replace (i + Z.of_nat (S j)) with (i + 1 + Z.of_nat j) by lia. by apply Hall.
    + intros Hall j t' Hj. replace (i + 1 + Z.of_nat j) with (i + Z.of_nat (S j)) by lia. by apply Hall.
  - exists false. split; [done|]. split; [done|]. intros Hall. apply Hr. specialize (Hall 0%nat t eq_refl). by rewrite Z.add_0_r in Hall.
Qed.
End LuckyProofs.

(** ** Proofs: the update of the pool *)
Lemma GetHash_total tx : tx_ok tx → Z.of_nat (length (basic tx)) < 2 ^ 32 → ∃ h, GetHash tx = Some h ∧ length h = 32%nat.
Proof.
  intros Hok Hl. unfold GetHash. rewrite SerializeTransaction_eq. cbn [andb]. rewrite Hashes.SerializeHash_eq.
  destruct (Fips202Refinement.SHA3_of_bytes (basic tx) Hl (basic_ok tx Hok)) as (h & E & L & _). by exists h.
Qed.
Lemma Hash160_ok p : length (Hashes.Hash160 p) = 20%nat ∧ bytes_ok (Hashes.Hash160 p).
Proof.
  unfold Hashes.Hash160, Hashes.CHash160_Finalize. split.
  - unfold Ripemd160.Ripemd160.Finalize. cbv zeta. by rewrite !length_app, !WriteLE32_length.
  - apply (elem_ripemd160 MAX_SCRIPT_ELEMENT_SIZE). unfold MAX_SCRIPT_ELEMENT_SIZE. lia.
Qed.
Lemma ExtractDestination_total script : bytes_ok script → script ≠ [] →
  ∃ d t, ExtractDestination script = Some (d, t) ∧ bytes_ok (dest_hash (default CNoDestination d)) ∧
    (default CNoDestination d = CNoDestination ∨ length (dest_hash (default CNoDestination d)) = 20%nat).
Proof.
  intros Hb Hne. unfold ExtractDestination. destruct (Solver_total false script TX_NONSTANDARD Hb Hne) as [[[ok t] sols] E]. rewrite E.
  cbn [mbind option_bind]. destruct ok; cbn [negb]; [|by eexists _, _; split; [done|split; [apply bytes_ok_nil|by left]]].
  apply Solver_sound in E; [|done].
  assert (H : match t with TX_PUBKEY => ∃ v, sols = [v] | TX_PUBKEYHASH | TX_SCRIPTHASH => ∃ h, sols = [h] ∧ length h = 20%nat ∧ bytes_ok h | _ => True end).
  { destruct E as [h Hh| | | | |t l sols F]; try done.
    - exists h. split; [done|]. split; [done|]. apply bytes_ok_cons in Hb as [_ [_ [? _]%bytes_ok_app]%bytes_ok_cons]. done.
    - destruct F as [op key|op h Ho Hh| | |]; try done; [by exists key|]. exists h. split; [done|]. split; [done|]. apply Ho. }
  destruct t; try (by eexists _, _; split; [done|split; [apply bytes_ok_nil|by left]]).
  - destruct H as [v ->]. cbn [head mbind option_bind]. destruct (pubkey_IsValid _); cbn [negb]; eexists _, _; (split; [done|]); cbn [default dest_hash].
    + unfold CPubKey_GetID. destruct (Hash160_ok (CPubKey_bytes (pubkey_Set v))). split; [done|by right].
    + split; [apply bytes_ok_nil|by left].
  - destruct H as (h & -> & Hl & Hh). cbn [head mbind option_bind]. unfold uint160_of. rewrite Hl. cbn [Nat.eqb mbind option_bind].
    eexists _, _. split; [done|]. cbn. split; [done|by right].
  - destruct H as (h & -> & Hl & Hh). cbn [head mbind option_bind]. unfold uint160_of. rewrite Hl. cbn [Nat.eqb mbind option_bind].
    eexists _, _. split; [done|]. cbn. split; [done|by right].
Qed.

(** What the loop over the transactions of a block buys. *)
Definition ticket_bought (params : Base58Prefixes) (tx : CTransaction) (height : Z) : option (option Ticket) :=
  out0 ← vout tx !! 0%nat;
  buys ← HasOpSStx (scriptPubKey out0);
  if buys : bool then t ← Ticket_of params tx height; Some (Some t) else Some None.
(** The scripts that are read are there and are not empty. *)
Definition readable (tx : CTransaction) : Prop :=
  tx_ok tx ∧ Z.of_nat (length (basic tx)) < 2 ^ 32 ∧
  ∃ out0, vout tx !! 0%nat = Some out0 ∧ scriptPubKey out0 ≠ [] ∧
    (HasOpSStx (scriptPubKey out0) = Some true → ∃ out1, vout tx !! 1%nat = Some out1 ∧ scriptPubKey out1 ≠ [] ∧ bytes_ok (scriptPubKey out1)).
Lemma readable_bought params tx height : readable tx → ∃ o, ticket_bought params tx height = Some o ∧
  ∀ t, o = Some t → ticketHeight t = height ∧ length (ticketTxHash t) = 32%nat ∧ GetHash tx = Some (ticketTxHash t) ∧ address_ok params (ticketAddress t).
Proof.
  intros (Hok & Hlen & out0 & E0 & Hne & Hbuys). unfold ticket_bought, Ticket_of. destruct (GetHash_total tx Hok Hlen) as (hash & Eh & Hl).
  rewrite Eh, E0. cbn [mbind option_bind]. destruct (scriptPubKey out0) as [|a s]; [done|]. cbn [HasOpSStx mbind option_bind] in *.
  destruct (a =? OP_BUYTICKET); [|by exists None]. destruct (Hbuys eq_refl) as (out1 & E1 & Hne1 & Hb1). rewrite E1. cbn [mbind option_bind].
  destruct (ExtractDestination_total _ Hb1 Hne1) as (d & t & Ed & Hd & Hd'). rewrite Ed. cbn [mbind option_bind].
  eexists. split; [done|]. intros t' [= <-]. cbn [ticketHeight ticketTxHash ticketAddress]. split_and!; try done. by exists (default CNoDestination d).
Qed.

Section UpdateProofs.
Context {T : Type} `{TicketSetLaws T} (params : Base58Prefixes).
Implicit Types p : ticketPool T.
Abbreviation tickets p := (by_hash (ticket_pool p)).
Abbreviation hashes p := (map ticketTxHash (tickets p)).

Lemma ticketPush_spec p t : length (ticketTxHash t) = 32%nat →
  let p' := ticketPush p t in
  load_height p' = load_height p ∧ (∀ t', t' ∈ tickets p' → t' ∈ tickets p ∨ t' = t) ∧ (∀ t', t' ∈ tickets p → t' ∈ tickets p') ∧ ticketTxHash t ∈ hashes p'.
Proof.
  intros Hl p'. split; [done|]. unfold p', ticketPush. cbn [ticket_pool]. destruct (decide (ticketTxHash t ∈ hashes p)) as [Hin|Hni].
  - rewrite ts_insert_old by done. split_and!; [by left|done|done].
  - pose proof (ts_insert_new t (ticket_pool p) Hl Hni) as E. split_and!.
    + intros t' Ht'. rewrite E in Ht'. apply elem_of_cons in Ht' as [->|Ht']; [by right|by left].
    + intros t' Ht'. rewrite E. by right.
    + apply list_elem_of_fmap_2. rewrite E. by left.
Qed.
Lemma push_tickets_spec vtx p height : Forall readable vtx → ∃ p', push_tickets params p vtx height = Some p' ∧ load_height p' = load_height p ∧
  (∀ t, t ∈ tickets p' → t ∈ tickets p ∨ ∃ tx, tx ∈ vtx ∧ ticket_bought params tx height = Some (Some t)) ∧
  (∀ t, t ∈ tickets p → t ∈ tickets p') ∧
  (∀ tx t, tx ∈ vtx → ticket_bought params tx height = Some (Some t) → ticketTxHash t ∈ hashes p').
Proof.
  intros Hr. revert p. induction Hr as [|tx vtx Htx _ IH]; intros p.
  { exists p. split_and!; try done; [by left|]. intros tx t Hin. by apply not_elem_of_nil in Hin. }
  destruct (readable_bought params tx height Htx) as (o & Eo & Ho). cbn [push_tickets].
  assert (E : ∃ p1, (out0 ← vout tx !! 0%nat; buys ← HasOpSStx (scriptPubKey out0);
    p1 ← (if buys : bool then t ← Ticket_of params tx height; Some (ticketPush p t) else Some p); push_tickets params p1 vtx height) = push_tickets params p1 vtx height ∧
    p1 = match o with Some t => ticketPush p t | None => p end).
  { unfold ticket_bought in Eo. destruct (vout tx !! 0%nat) as [out0|]; [|done]. cbn [mbind option_bind] in *.
    destruct (HasOpSStx (scriptPubKey out0)) as [[]|]; [..|done]; cbn [mbind option_bind] in *.
    - destruct (Ticket_of params tx height) as [t|]; [|done]. cbn [mbind option_bind] in *. injection Eo as <-. by eexists.
    - injection Eo as <-. by eexists. }
  destruct E as (p1 & -> & Hp1). destruct (IH p1) as (p' & -> & Hload & H1 & H2 & H3). exists p'. split; [done|].
  destruct o as [t|]; subst p1.
  - destruct (Ho t eq_refl) as (_ & Hl & _). destruct (ticketPush_spec p t Hl) as (L & P1 & P2 & P3). split_and!.
    + by rewrite Hload.
    + intros t' [Ht'|(tx' & ? & ?)]%H1; [|right; exists tx'; split; [by right|done]].
      apply P1 in Ht' as [Ht'| ->]; [by left|]. right. exists tx. split; [by left|done].
    + intros t' Ht'. by apply H2, P2.
    + intros tx' t' [->|Hin]%elem_of_cons Et'; [|by eapply H3]. rewrite Eo in Et'. injection Et' as <-.
      apply list_elem_of_fmap in P3 as (t2 & E2 & Hin2). rewrite E2. by apply list_elem_of_fmap_2, H2.
  - split_and!; [done| |done|].
    + intros t' [Ht'|(tx' & ? & ?)]%H1; [by left|right; exists tx'; split; [by right|done]].
    + intros tx' t' [->|Hin]%elem_of_cons Et'; [|by eapply H3]. rewrite Eo in Et'. done.
Qed.
End UpdateProofs.

Section UpdateTheorem.
Context {T : Type} `{TicketSetLaws T} (params : Base58Prefixes) (ReadBlockFromDisk : ptr → option CBlock) (h : heap) (c : chain).
Implicit Types p : ticketPool T.
Abbreviation tickets p := (by_hash (ticket_pool p)).
Abbreviation hashes p := (map ticketTxHash (tickets p)).

Lemma delete_tickets_spec l p : tickets (delete_tickets p l) = without l (tickets p) ∧ load_height (delete_tickets p l) = load_height p.
Proof.
  revert p. induction l as [|t l IH]; intros p; [by rewrite without_nil|]. change (delete_tickets p (t :: l)) with (delete_tickets (snd (ticketDel p t)) l). destruct (IH (snd (ticketDel p t))) as [-> ->].
  assert (E : tickets (snd (ticketDel p t)) = filter (λ t', ticketTxHash t' ≠ ticketTxHash t) (tickets p) ∧ load_height (snd (ticketDel p t)) = load_height p).
  { unfold ticketDel. destruct (bool_decide_reflect (ticketTxHash t ∈ hashes p)) as [Hin|Hni]; cbn [snd ticket_pool load_height]; [by rewrite ts_erase_spec|].
    split; [|done]. symmetry. apply filter_all. intros t' Ht' E. apply Hni. rewrite <- E. by apply list_elem_of_fmap_2. }
  destruct E as [-> ->]. by rewrite without_cons.
Qed.
Lemma drop_below_spec height l : StronglySorted (λ a b, ticketHeight a ≤ ticketHeight b) l →
  (∀ t, t ∈ l → ticketHeight t < height ∨ t ∈ drop_below height l) ∧
  match drop_below height l with [] => True | b :: r => height ≤ ticketHeight b ∧ ∀ t, t ∈ b :: r → ticketHeight b ≤ ticketHeight t end.
Proof.
  induction 1 as [|t l Hs [IH1 IH2] Hall]; cbn [drop_below]; [by split; [intros t ?%not_elem_of_nil|]|]. destruct (Z.ltb_spec (ticketHeight t) height).
  - split; [|done]. intros t' [->|Ht']%elem_of_cons; [by left|by apply IH1].
  - split; [by right|]. split; [done|]. rewrite Forall_forall in Hall. intros t' [->|Ht']%elem_of_cons; [lia|by apply Hall].
Qed.
Lemma ticketDelByHeight_spec p height : tickets (ticketDelByHeight p height) = filter (λ t, ticketHeight t ≠ height) (tickets p) ∧
  load_height (ticketDelByHeight p height) = load_height p.
Proof.
  unfold ticketDelByHeight. destruct (drop_below_spec height _ (ts_heights_sorted (ticket_pool p))) as [H1 H2].
  assert (Hin : ∀ t, t ∈ tickets p → t ∈ by_height (ticket_pool p)) by (intros t; by rewrite ts_heights).
  destruct (drop_below height (by_height (ticket_pool p))) as [|b r] eqn:E.
  - split; [|done]. symmetry. apply filter_all. intros t Ht. destruct (H1 t (Hin t Ht)) as [|Hn]; [lia|by apply not_elem_of_nil in Hn].
  - destruct H2 as [Hb Hall]. destruct (Z.ltb_spec height (ticketHeight b)); [|cbn [ticket_pool load_height]; by rewrite ts_erase_height_spec].
    split; [|done]. symmetry. apply filter_all. intros t Ht. destruct (H1 t (Hin t Ht)) as [|Hd%Hall]; lia.
Qed.

(** A block of the active chain that can be read. *)
Record block_at (height : Z) (q : ptr) (b : CBlock) : Prop := {
  ba_chain : at_height c height = Some q;
  ba_read : ReadBlockFromDisk q = Some b;
  ba_txs : Forall readable (vtx b) }.
(** The tickets expire 2048 blocks after their block, but for those of the first 63 blocks. *)
Definition expired (block_height : Z) (t : Ticket) : Prop :=
  TICKET_POOL_MAX_SIZE + TICKETPOOL_HEIGHT_LATENCY ≤ block_height ∧ ticketHeight t = block_height - TICKET_POOL_MAX_SIZE.
#[local] Instance expired_dec block_height t : Decision (expired block_height t).
Proof. unfold expired. apply _. Defined.
(** The tickets that the update takes out before the expired ones: those at the places that the hash of the block
    before [b] and the seed of [b] give.  They are different tickets of the pool. *)
Definition lucky_at (p : ticketPool T) (block_height : Z) (b : CBlock) (hash : bytes) (drawn : list Ticket) : Prop :=
  if TICKET_VALVE <? block_height then
    picks (tickets p) (lucky_indices hash (i32 (seed (old (header b)))) (pool_size p)) drawn ∧
    length drawn = (if (5 <? pool_size p)%Z then 5%nat else 0%nat) ∧ NoDup (map ticketTxHash drawn) ∧ ∀ t, t ∈ drawn → t ∈ tickets p
  else drawn = [].
Record update_effect (p : ticketPool T) (block_height : Z) (b : CBlock) (hash : bytes) (drawn : list Ticket) (p' : ticketPool T) : Prop := {
  ue_load : load_height p' = block_height - TICKETPOOL_HEIGHT_LATENCY;
  ue_lucky : lucky_at p block_height b hash drawn;
  ue_old t : t ∈ tickets p → ticketTxHash t ∉ map ticketTxHash drawn → ¬ expired block_height t → t ∈ tickets p';
  ue_from t : t ∈ tickets p' →
    (t ∈ tickets p ∧ ticketTxHash t ∉ map ticketTxHash drawn ∧ ¬ expired block_height t) ∨
    (∃ tx, tx ∈ vtx b ∧ ticket_bought params tx (block_height - TICKETPOOL_HEIGHT_LATENCY) = Some (Some t));
  ue_new tx t : tx ∈ vtx b → ticket_bought params tx (block_height - TICKETPOOL_HEIGHT_LATENCY) = Some (Some t) → ticketTxHash t ∈ hashes p' }.
(** The hash that the draw of a height reads. *)
Definition draw_hash (block_height : Z) (hash : bytes) : Prop :=
  TICKET_VALVE < block_height → hash_at h c (block_height - 1 - TICKETPOOL_HEIGHT_LATENCY) hash.

Lemma lucky_draw p height hash sd : hash_at h c (height - TICKETPOOL_HEIGHT_LATENCY) hash → -3 < Z.rem sd 24 →
  Forall (λ t, 0 ≤ ticketHeight t) (tickets p) →
  getLuckyIndex h c p height sd = Some (lucky_indices hash sd (pool_size p)) ∧
  ∃ drawn p', draw (copy_ticketPool p 0) (lucky_indices hash sd (pool_size p)) = Some (drawn, p') ∧
    picks (tickets p) (lucky_indices hash sd (pool_size p)) drawn ∧
    length drawn = (if (5 <? pool_size p)%Z then 5%nat else 0%nat) ∧ NoDup (map ticketTxHash drawn) ∧ ∀ t, t ∈ drawn → t ∈ tickets p.
Proof.
  intros Hb Hs Hh. rewrite (lucky_index_spec h c p hash height sd Hb). replace (Z.rem sd 24 <=? -3) with false by lia. split; [done|].
  destruct (draw_spec (lucky_indices hash sd (pool_size p)) (copy_ticketPool p 0) Hh) as (drawn & p' & Ed & Hp).
  { exact (lucky_indices_range hash sd p). }
  destruct (picks_spec _ _ _ Hp (tickets_nodup p)) as (Hl & Hn & Hin). exists drawn, p'. split_and!; try done.
  rewrite Hl. unfold lucky_indices. by destruct (5 <? pool_size p).
Qed.
Lemma update_out_of_bounds p block_height q b hash : load_height p < block_height - TICKETPOOL_HEIGHT_LATENCY →
  block_at (block_height - TICKETPOOL_HEIGHT_LATENCY) q b → draw_hash block_height hash → TICKET_VALVE < block_height → ¬ seed_in_bounds b →
  updateTicketpool params ReadBlockFromDisk h c p block_height = None.
Proof.
  intros Hload Hb Hh Hv Hs. unfold updateTicketpool. cbv zeta. replace (block_height - TICKETPOOL_HEIGHT_LATENCY <=? load_height p) with false by lia.
  rewrite (ba_chain _ _ _ Hb). cbn [mbind option_bind]. rewrite (ba_read _ _ _ Hb). replace (TICKET_VALVE <? block_height) with true by lia.
  rewrite (lucky_index_spec h c p hash (block_height - 1) _ (Hh Hv)). unfold seed_in_bounds in Hs.
  by replace (Z.rem (i32 (seed (old (header b)))) 24 <=? -3) with true by lia.
Qed.
Lemma update_spec p block_height q b hash : load_height p < block_height - TICKETPOOL_HEIGHT_LATENCY →
  block_at (block_height - TICKETPOOL_HEIGHT_LATENCY) q b → Forall (λ t, 0 ≤ ticketHeight t) (tickets p) →
  draw_hash block_height hash → (TICKET_VALVE < block_height → seed_in_bounds b) →
  ∃ drawn p', updateTicketpool params ReadBlockFromDisk h c p block_height = Some p' ∧ update_effect p block_height b hash drawn p'.
Proof.
  intros Hload Hb Hh Hlucky Hseed. unfold updateTicketpool. cbv zeta. replace (block_height - TICKETPOOL_HEIGHT_LATENCY <=? load_height p) with false by lia.
  rewrite (ba_chain _ _ _ Hb). cbn [mbind option_bind]. rewrite (ba_read _ _ _ Hb).
  assert (Hdel : ∃ drawn, lucky_at p block_height b hash drawn ∧
    (if TICKET_VALVE <? block_height then
       luckyindex ← getLuckyIndex h c p (block_height - 1) (i32 (seed (old (header b))));
       '(vlucky_ticket, _) ← draw (copy_ticketPool p 0) luckyindex;
       Some (delete_tickets p vlucky_ticket)
     else Some p) = Some (delete_tickets p drawn)).
  { unfold lucky_at. destruct (Z.ltb_spec TICKET_VALVE block_height) as [Hv|]; [|by exists []].
    destruct (lucky_draw p (block_height - 1) hash _ (Hlucky Hv) (Hseed Hv) Hh) as (-> & drawn & p1 & E & Hd).
    exists drawn. split; [done|]. cbn [mbind option_bind]. by rewrite E. }
  destruct Hdel as (drawn & Hl & ->). cbn [mbind option_bind]. destruct (delete_tickets_spec drawn p) as [D1 D2]. set (p1 := delete_tickets p drawn) in *.
  set (p2 := if TICKET_POOL_MAX_SIZE <=? block_height - TICKETPOOL_HEIGHT_LATENCY then ticketDelByHeight p1 (block_height - TICKET_POOL_MAX_SIZE) else p1).
  assert (E2 : ∀ t, t ∈ tickets p2 ↔ t ∈ tickets p ∧ ticketTxHash t ∉ map ticketTxHash drawn ∧ ¬ expired block_height t).
  { intros t. unfold p2, expired. destruct (Z.leb_spec TICKET_POOL_MAX_SIZE (block_height - TICKETPOOL_HEIGHT_LATENCY)).
    - destruct (ticketDelByHeight_spec p1 (block_height - TICKET_POOL_MAX_SIZE)) as [-> _]. rewrite list_elem_of_filter, D1. unfold without. rewrite list_elem_of_filter.
      split; [intros (? & ? & ?); split_and!; [done|done|tauto]|]. intros (? & ? & Hn). split; [|done]. intros E. apply Hn. split; [lia|done].
    - rewrite D1. unfold without. rewrite list_elem_of_filter. split; [intros (? & ?); split_and!; [done|done|lia]|tauto]. }
  destruct (push_tickets_spec params (vtx b) p2 (block_height - TICKETPOOL_HEIGHT_LATENCY) (ba_txs _ _ _ Hb)) as (p3 & -> & _ & P1 & P2 & P3).
  cbn [mbind option_bind]. exists drawn, (updateLoadHeight p3 (block_height - TICKETPOOL_HEIGHT_LATENCY)). split; [done|]. split.
  - done.
  - done.
  - intros t Ht Hd He. apply P2, E2. done.
  - intros t [Ht|Ht]%P1; [left; by apply E2|by right].
  - exact P3.
Qed.
End UpdateTheorem.

(** ** Sorted lists of tickets *)
Fixpoint insert_sorted (t : Ticket) (l : list Ticket) : list Ticket :=
  match l with
  | [] => [t]
  | t' :: r =>
      if hash_lt (ticketTxHash t) (ticketTxHash t') then t :: l
      else if hash_lt (ticketTxHash t') (ticketTxHash t) then t' :: insert_sorted t r
      else l
  end.
Definition sorted_tickets (l : list Ticket) : list Ticket :=
  foldr (λ t s, if (length (ticketTxHash t) =? 32)%nat then insert_sorted t s else s) [] l.
Fixpoint insert_height (t : Ticket) (l : list Ticket) : list Ticket :=
  match l with
  | [] => [t]
  | t' :: r => if ticketHeight t <=? ticketHeight t' then t :: l else t' :: insert_height t r
  end.
#[export] Instance list_tickets : TicketSet (list Ticket) := {|
  ts_empty := [];
  by_hash := sorted_tickets;
  by_height s := foldr insert_height [] (sorted_tickets s);
  ts_insert t s := t :: s;
  ts_erase h s := filter (λ t, ticketTxHash t ≠ h) (sorted_tickets s);
  ts_erase_height h s := filter (λ t, ticketHeight t ≠ h) (sorted_tickets s) |}.

Lemma blob_Compare_antisym a b : length a = length b → (blob_Compare a b <? 0) = (0 <? blob_Compare b a) ∧ (blob_Compare a b = 0 → a = b).
Proof.
  revert b. induction a as [|x a IH]; intros [|y b]; cbn [length]; try done. intros [= Hl]. destruct (IH b Hl) as [IH1 IH2]. cbn [blob_Compare].
  rewrite (Z.eqb_sym y x). destruct (Z.eqb_spec x y) as [->|]; [split; [done|by intros ->%IH2]|]. split; [|lia]. destruct (Z.ltb_spec (x - y) 0), (Z.ltb_spec 0 (y - x)); done || lia.
Qed.
Lemma hash_lt_total a b : length a = length b → hash_lt a b = false → hash_lt b a = false → a = b.
Proof. unfold hash_lt. intros Hl H1 H2. destruct (blob_Compare_antisym a b Hl) as [E1 E2], (blob_Compare_antisym b a (eq_sym Hl)) as [E3 _]. apply E2. lia. Qed.
Lemma hash_lt_trans a b d : length a = length b → length b = length d → hash_lt a b = true → hash_lt b d = true → hash_lt a d = true.
Proof.
  unfold hash_lt. revert b d. induction a as [|x a IH]; intros [|y b] [|z d]; cbn [length]; try done. intros [= H1] [= H2]. cbn [blob_Compare].
  destruct (Z.eqb_spec x y) as [->|], (Z.eqb_spec y z) as [->|]; [by apply IH| |rewrite (proj2 (Z.eqb_neq x z)) by done; lia|].
  - lia.
  - destruct (Z.eqb_spec x z) as [->|]; lia.
Qed.

Abbreviation sized := (Forall (λ t, length (ticketTxHash t) = 32%nat)).
Lemma insert_sorted_spec t l : length (ticketTxHash t) = 32%nat → sized l → StronglySorted before l →
  sized (insert_sorted t l) ∧ StronglySorted before (insert_sorted t l) ∧
  (ticketTxHash t ∈ map ticketTxHash l → insert_sorted t l = l) ∧ (ticketTxHash t ∉ map ticketTxHash l → insert_sorted t l ≡ₚ t :: l).
Proof.
  intros Ht. induction l as [|x l IH]; intros Hz Hs; cbn [insert_sorted].
  { split_and!; [by apply Forall_singleton|by repeat constructor|by intros ?%not_elem_of_nil|done]. }
  pose proof Hz as Hz0. apply list.Forall_cons in Hz as [Hx Hz]. inversion Hs as [|? ? Hs' Hall]; subst. destruct (IH Hz Hs') as (I1 & I2 & I3 & I4).
  destruct (hash_lt (ticketTxHash t) (ticketTxHash x)) eqn:E1; [|destruct (hash_lt (ticketTxHash x) (ticketTxHash t)) eqn:E2].
  - assert (Hb : Forall (before t) (x :: l)).
    { apply list.Forall_cons. split; [done|]. rewrite Forall_forall in Hall, Hz |- *. intros y Hy. unfold before in *. eapply hash_lt_trans; [| |exact E1|by apply Hall]; [congruence|]. rewrite Hx. symmetry. by apply Hz. }
    split_and!; [by apply list.Forall_cons|by constructor| |done].
    intros (y & Ey & Hy)%list_elem_of_fmap. rewrite Forall_forall in Hb. specialize (Hb y Hy). unfold before, hash_lt in Hb. rewrite Ey, blob_Compare_refl in Hb. done.
  - split_and!; [by apply list.Forall_cons| |..].
    + constructor; [done|]. destruct (decide (ticketTxHash t ∈ map ticketTxHash l)) as [Hin|Hni]; [by rewrite I3|]. rewrite I4 by done. apply list.Forall_cons. split; [exact E2|done].
    + intros Hin. cbn [map] in Hin. apply elem_of_cons in Hin as [E|Hin]; [|by rewrite I3]. unfold hash_lt in E2. rewrite E, blob_Compare_refl in E2. done.
    + intros Hni. cbn [map] in Hni. apply not_elem_of_cons in Hni as [_ Hni]. rewrite I4 by done. apply Permutation_swap.
  - assert (E : ticketTxHash t = ticketTxHash x) by (apply hash_lt_total; [congruence|done..]).
    split_and!; [done|done|done|]. cbn [map]. rewrite E. intros []%not_elem_of_cons. done.
Qed.
Lemma sorted_tickets_spec l : sized (sorted_tickets l) ∧ StronglySorted before (sorted_tickets l).
Proof.
  induction l as [|t l [IH1 IH2]]; cbn [sorted_tickets foldr]; [by split; constructor|]. destruct (Nat.eqb_spec (length (ticketTxHash t)) 32); [|done].
  destruct (insert_sorted_spec t _ e IH1 IH2) as (? & ? & _). done.
Qed.
Lemma sorted_tickets_id l : sized l → StronglySorted before l → sorted_tickets l = l.
Proof.
  intros Hz Hs. induction Hs as [|t l Hs IH Hall]; [done|]. apply list.Forall_cons in Hz as [Ht Hz]. cbn [sorted_tickets foldr]. rewrite Ht. cbn [Nat.eqb].
  change (foldr _ [] l) with (sorted_tickets l). rewrite (IH Hz). destruct Hall as [|x l Hx _]; [done|]. cbn [insert_sorted]. unfold before in Hx. by rewrite Hx.
Qed.
Lemma filter_sorted (P : Ticket → Prop) `{∀ t, Decision (P t)} l : sized l → StronglySorted before l → sized (filter P l) ∧ StronglySorted before (filter P l).
Proof.
  intros Hz Hs. split; [apply Forall_forall; intros t [_ Ht]%list_elem_of_filter; rewrite Forall_forall in Hz; by apply Hz|]. clear Hz.
  induction Hs as [|t l Hs IH Hall]; [constructor|]. destruct (decide (P t)); [rewrite filter_cons_True by done|by rewrite filter_cons_False by done].
  constructor; [done|]. rewrite Forall_forall in Hall |- *. intros t' [_ Ht']%list_elem_of_filter. by apply Hall.
Qed.
Lemma insert_height_perm t l : insert_height t l ≡ₚ t :: l.
Proof. induction l as [|x l IH]; [done|]. cbn [insert_height]. destruct (_ <=? _); [done|]. rewrite IH. apply Permutation_swap. Qed.
Lemma insert_height_sorted t l : StronglySorted (λ a b, ticketHeight a ≤ ticketHeight b) l → StronglySorted (λ a b, ticketHeight a ≤ ticketHeight b) (insert_height t l).
Proof.
  induction 1 as [|x l Hs IH Hall]; cbn [insert_height]; [by repeat constructor|]. destruct (Z.leb_spec (ticketHeight t) (ticketHeight x)).
  - constructor; [by constructor|]. apply list.Forall_cons. split; [done|]. eapply List.Forall_impl; [|exact Hall]. cbv beta. lia.
  - constructor; [done|]. rewrite insert_height_perm. apply list.Forall_cons. split; [lia|done].
Qed.
#[export] Instance list_tickets_laws : TicketSetLaws (list Ticket).
Proof.
  split; cbn [by_hash by_height ts_empty ts_insert ts_erase ts_erase_height list_tickets].
  - intros s. apply sorted_tickets_spec.
  - intros s. apply sorted_tickets_spec.
  - intros s. induction (sorted_tickets s) as [|t l IH]; [done|]. cbn [foldr]. by rewrite insert_height_perm, IH.
  - intros s. induction (sorted_tickets s) as [|t l IH]; [constructor|]. by apply insert_height_sorted.
  - done.
  - intros t s Hin. cbn [sorted_tickets foldr]. change (foldr _ [] s) with (sorted_tickets s). destruct (Nat.eqb_spec (length (ticketTxHash t)) 32); [|done].
    destruct (sorted_tickets_spec s). by apply insert_sorted_spec.
  - intros t s Hl Hni. cbn [sorted_tickets foldr]. change (foldr _ [] s) with (sorted_tickets s). rewrite Hl. cbn [Nat.eqb].
    destruct (sorted_tickets_spec s). by apply insert_sorted_spec.
  - intros h s. destruct (sorted_tickets_spec s). apply sorted_tickets_id; by apply filter_sorted.
  - intros h s. destruct (sorted_tickets_spec s). apply sorted_tickets_id; by apply filter_sorted.
Qed.

(** ** Properties *)
Section Theorems.
Context {T : Type} `{TicketSetLaws T} (params : Base58Prefixes) (ReadBlockFromDisk : ptr → option CBlock) (h : heap) (c : chain).
Implicit Types p : ticketPool T.
Abbreviation tickets p := (by_hash (ticket_pool p)).
Abbreviation bought := (ticket_bought params).
Abbreviation block_at := (block_at ReadBlockFromDisk c).
Abbreviation draw_hash := (draw_hash h c).

(** Every ticket was bought in the block of its height, and none is older than the
    blocks that have expired, but for those of the first 63 blocks. *)
Record pool_ok (p : ticketPool T) : Prop := {
  po_load : 0 ≤ load_height p;
  po_range t : t ∈ tickets p → 1 ≤ ticketHeight t ≤ load_height p ∧
    (ticketHeight t < TICKETPOOL_HEIGHT_LATENCY ∨ load_height p + TICKETPOOL_HEIGHT_LATENCY - TICKET_POOL_MAX_SIZE < ticketHeight t);
  po_bought t : t ∈ tickets p → ∃ q b tx, block_at (ticketHeight t) q b ∧ tx ∈ vtx b ∧ bought tx (ticketHeight t) = Some (Some t) }.

Lemma pool_heights p : pool_ok p → Forall (λ t, 0 ≤ ticketHeight t) (tickets p).
Proof. intros Hp. apply Forall_forall. intros t Ht. destruct (po_range p Hp t Ht). lia. Qed.
Lemma bought_height height q b tx t : block_at height q b → tx ∈ vtx b → bought tx height = Some (Some t) → ticketHeight t = height.
Proof.
  intros Hb Htx Eb. pose proof (ba_txs _ _ _ _ _ Hb) as Hr. rewrite Forall_forall in Hr. destruct (readable_bought params tx height (Hr tx Htx)) as (o & Eo & Ho).
  rewrite Eb in Eo. injection Eo as <-. by destruct (Ho t eq_refl).
Qed.
Lemma update_pool_ok p block_height q b hash drawn p' : pool_ok p → block_height = load_height p + TICKETPOOL_HEIGHT_LATENCY + 1 →
  block_at (block_height - TICKETPOOL_HEIGHT_LATENCY) q b → update_effect params p block_height b hash drawn p' → pool_ok p'.
Proof.
  intros Hp -> Hb U. pose proof (ue_load _ _ _ _ _ _ _ U) as HL. pose proof (po_load p Hp) as H0'. split; [lia|..].
  - intros t [(Ht & _ & He)|(tx & Htx & Eb)]%(ue_from _ _ _ _ _ _ _ U).
    + destruct (po_range p Hp t Ht) as [H1 H2]. unfold expired, TICKETPOOL_HEIGHT_LATENCY, TICKET_POOL_MAX_SIZE in *. lia.
    + pose proof (bought_height _ _ _ _ _ Hb Htx Eb). unfold TICKETPOOL_HEIGHT_LATENCY, TICKET_POOL_MAX_SIZE in *. lia.
  - intros t [(Ht & _)|(tx & Htx & Eb)]%(ue_from _ _ _ _ _ _ _ U); [by apply (po_bought p)|]. exists q, b, tx. by rewrite (bought_height _ _ _ _ _ Hb Htx Eb).
Qed.

(** C7. When a block is connected, [updateTicketpool] has this effect on the pool, whatever
    container holds the tickets.  With the next height it ends, reading within bounds, provided that
    above the threshold of 5000 the seed of the block 64 below is in bounds (its remainder by 24, as an
    [int], is at least -2; with another seed the model fails, the code reads past the end of a string).
    Above the threshold and with more than five tickets it takes out the five
    different tickets at the places that the hash of the block 65 below and that seed give, each taken out before the next
    is looked up; it takes out the tickets that were bought 2048
    blocks before; it adds a ticket for each transaction of the block 64 below that
    buys one, unless its hash is in the pool; and nothing else changes.  The pool stays correct: each of its tickets was
    bought in the block of its height, and none has expired, but the tickets of the first 63 blocks, which never expire.
    A height that is not ahead of the pool only deletes the tickets of that height. *)
Theorem ticket_pool_update p block_height q b hash :
  pool_ok p → block_at (block_height - TICKETPOOL_HEIGHT_LATENCY) q b → draw_hash block_height hash →
  (block_height = load_height p + TICKETPOOL_HEIGHT_LATENCY + 1 →
     ((TICKET_VALVE < block_height → seed_in_bounds b) →
      ∃ drawn p', updateTicketpool params ReadBlockFromDisk h c p block_height = Some p' ∧ update_effect params p block_height b hash drawn p' ∧ pool_ok p') ∧
     (TICKET_VALVE < block_height → ¬ seed_in_bounds b → updateTicketpool params ReadBlockFromDisk h c p block_height = None)) ∧
  (block_height ≤ load_height p + TICKETPOOL_HEIGHT_LATENCY →
     ∃ p', updateTicketpool params ReadBlockFromDisk h c p block_height = Some p' ∧ load_height p' = load_height p ∧
       tickets p' = if block_height <=? load_height p then filter (λ t, ticketHeight t ≠ block_height) (tickets p) else tickets p).
Proof.
  intros Hp Hb Hl. split; [intros E; split|].
  - intros Hs. destruct (update_spec params ReadBlockFromDisk h c p block_height q b hash ltac:(lia) Hb (pool_heights p Hp) Hl Hs) as (drawn & p' & Eu & U).
    exists drawn, p'. split; [done|]. split; [done|]. by apply (update_pool_ok p block_height q b hash drawn).
  - intros Hv Hs. apply (update_out_of_bounds params ReadBlockFromDisk h c p block_height q b hash); try done. lia.
  - intros Hle. unfold updateTicketpool. cbv zeta. replace (block_height - TICKETPOOL_HEIGHT_LATENCY <=? load_height p) with true by lia.
    eexists. split; [done|]. destruct (block_height <=? load_height p); [|done]. by destruct (ticketDelByHeight_spec p block_height) as [-> ->].
Qed.

(** The pools that the updates of the heights after [i0], one after the other, make of a pool. *)
Inductive history (i0 : Z) (p0 : ticketPool T) : Z → ticketPool T → Prop :=
  | history_start : history i0 p0 i0 p0
  | history_step i p q b hash drawn p' : history i0 p0 i p → block_at (i + 1 - TICKETPOOL_HEIGHT_LATENCY) q b → draw_hash (i + 1) hash →
      update_effect params p (i + 1) b hash drawn p' → history i0 p0 (i + 1) p'.
(** What the update of a height reads: a block, and above the threshold a seed in bounds and a hash. *)
Definition update_readable (block_height : Z) : Prop :=
  ∃ q b hash, block_at (block_height - TICKETPOOL_HEIGHT_LATENCY) q b ∧ draw_hash block_height hash ∧ (TICKET_VALVE < block_height → seed_in_bounds b).
Lemma load_loop_spec i0 p0 n i p : 1 ≤ i → pool_ok p → load_height p = Z.max 0 (i - 1 - TICKETPOOL_HEIGHT_LATENCY) →
  history i0 p0 (Z.max TICKETPOOL_HEIGHT_LATENCY (i - 1)) p →
  (∀ k, Z.max TICKETPOOL_HEIGHT_LATENCY (i - 1) < k ≤ i - 1 + Z.of_nat n → update_readable k) →
  ∃ p', LoadTicketpool_loop params ReadBlockFromDisk h c p n i = Some p' ∧ pool_ok p' ∧
    load_height p' = Z.max 0 (i - 1 + Z.of_nat n - TICKETPOOL_HEIGHT_LATENCY) ∧
    history i0 p0 (Z.max TICKETPOOL_HEIGHT_LATENCY (i - 1 + Z.of_nat n)) p'.
Proof.
  revert i p. induction n as [|n IH]; intros i p Hi Hp HL Hy Hc; cbn [LoadTicketpool_loop].
  { exists p. rewrite Z.add_0_r. done. }
  assert (Hstep : ∃ p1, updateTicketpool params ReadBlockFromDisk h c p i = Some p1 ∧ pool_ok p1 ∧ load_height p1 = Z.max 0 (i - TICKETPOOL_HEIGHT_LATENCY) ∧
    history i0 p0 (Z.max TICKETPOOL_HEIGHT_LATENCY i) p1).
  { destruct (decide (i ≤ TICKETPOOL_HEIGHT_LATENCY)).
    - exists p. rewrite (Z.max_l TICKETPOOL_HEIGHT_LATENCY) in Hy |- * by lia. unfold updateTicketpool, TICKETPOOL_HEIGHT_LATENCY in *. cbv zeta. replace (i - 64 <=? load_height p) with true by lia.
      replace (i <=? load_height p) with false by lia. split_and!; [done|done|lia|done].
    - destruct (Hc i) as (q & b & hash & Hb & Hh & Hs); [lia|].
      destruct (update_spec params ReadBlockFromDisk h c p i q b hash ltac:(lia) Hb (pool_heights p Hp) Hh Hs) as (drawn & p' & Eu & U).
      exists p'. split; [done|]. split; [apply (update_pool_ok p i q b hash drawn); [done|lia|done..]|]. split; [rewrite (ue_load _ _ _ _ _ _ _ U); lia|].
      rewrite (Z.max_r TICKETPOOL_HEIGHT_LATENCY) in Hy |- * by lia. replace i with (i - 1 + 1) in * by lia. replace (i - 1 + 1 - 1) with (i - 1) in Hy by lia.
      by eapply history_step. }
  destruct Hstep as (p1 & -> & Hp1 & HL1 & Hy1). cbn [mbind option_bind]. replace (i - 1 + Z.of_nat (S n)) with (i + 1 - 1 + Z.of_nat n) in * by lia.
  apply IH; [lia|done|rewrite HL1; f_equal; lia|by replace (i + 1 - 1) with i by lia|].
  intros k Hk. apply Hc. lia.
Qed.
Lemma empty_pool_ok load : 0 ≤ load → pool_ok (mkPool ts_empty load).
Proof. intros Hl. split; cbn [ticket_pool load_height]; [done|..]; rewrite ts_empty_spec; by intros t ?%not_elem_of_nil. Qed.

(** C8. Loading the pool when the program starts ends, for a chain of any height whose
    blocks can be read and where the seeds of the blocks at 5001 - 64 and above are in bounds, and gives the pool
    that the updates of the heights from 65 on make of an empty one, each with the effect stated for [updateTicketpool]: the tickets of the
    block 64 below are added, and those drawn and expired are taken out.  The pool is correct and 64 blocks behind the tip:
    each ticket was bought in the block of its height, at most 64 below the tip and not
    2048 below it or more, but for the tickets of the first 63 blocks, which never
    expire. *)
Theorem ticket_pool_loaded (n : nat) : (∀ k, TICKETPOOL_HEIGHT_LATENCY < k ≤ Z.of_nat n → update_readable k) →
  ∃ p, LoadTicketpool_loop params ReadBlockFromDisk h c (new_ticketPool (T := T)) n 1 = Some p ∧
    history TICKETPOOL_HEIGHT_LATENCY new_ticketPool (Z.max TICKETPOOL_HEIGHT_LATENCY (Z.of_nat n)) p ∧
    load_height p = Z.max 0 (Z.of_nat n - TICKETPOOL_HEIGHT_LATENCY) ∧
    ∀ t, t ∈ tickets p → 1 ≤ ticketHeight t ≤ Z.of_nat n - TICKETPOOL_HEIGHT_LATENCY ∧
      (ticketHeight t < TICKETPOOL_HEIGHT_LATENCY ∨ Z.of_nat n - TICKET_POOL_MAX_SIZE < ticketHeight t) ∧
      ∃ q b tx, block_at (ticketHeight t) q b ∧ tx ∈ vtx b ∧ bought tx (ticketHeight t) = Some (Some t).
Proof.
  intros Hc. destruct (load_loop_spec TICKETPOOL_HEIGHT_LATENCY new_ticketPool n 1 new_ticketPool) as (p & E & Hp & HL & Hy).
  - lia.
  - by apply empty_pool_ok.
  - done.
  - constructor.
  - intros k Hk. apply Hc. lia.
  - replace (1 - 1 + Z.of_nat n) with (Z.of_nat n) in * by lia. exists p. split_and!; try done.
    intros t Ht. destruct (po_range p Hp t Ht). split; [|split; [|by apply (po_bought p)]]; rewrite HL in *; lia.
Qed.

End Theorems.

Section Signed.
Context {T : Type} `{TicketSetLaws T} (params : Base58Prefixes) (h : heap) (c : chain).
Implicit Types p : ticketPool T.
Abbreviation tickets p := (by_hash (ticket_pool p)).

(** C6. Above the threshold of 5000 blocks a new block must be signed by five
    tickets.  When the seed of the block, as an [int], has a remainder by 24 of -2 or more, the check ends and never reads out of bounds;
    the five tickets are those at the places that five 16-bit groups of the hash of the block 64 below the tip, shifted by that
    remainder, give modulo the size of the pool less five (with the remainder -2 the first group has twelve bits),
    each taken out before the next is looked up, so that they
    are five different tickets of the pool; and the check passes exactly when the five
    signatures in the header recover, from the hash of the header, the keys of their
    five addresses, in order.  With five tickets or fewer nothing is checked.  With a remainder below -2 the model fails:
    the code reads past the end of the string of the hash. *)
Theorem block_signed_by_tickets (ecdsa_recover : bytes → Z → bytes → bool → option bytes) p (b : CBlock) mh hash :
  prefixes_ok params → Forall (λ t, 0 ≤ ticketHeight t ∧ address_ok params (ticketAddress t)) (tickets p) → TICKET_VALVE ≤ Height c →
  hash_at h c (Height c - TICKETPOOL_HEIGHT_LATENCY) hash → message_hash b = Some mh →
  let l := lucky_indices hash (i32 (seed (old (header b)))) (pool_size p) in
  (seed_in_bounds b → ∃ drawn r,
    picks (tickets p) l drawn ∧ CheckLuckySignatures ecdsa_recover params h c p b = Some r ∧
    (r = true ↔ ∀ j t, drawn !! j = Some t → ticket_signed ecdsa_recover params b mh (1 + Z.of_nat j) t) ∧
    length drawn = (if (5 <? pool_size p)%Z then 5%nat else 0%nat) ∧ NoDup (map ticketTxHash drawn) ∧ ∀ t, t ∈ drawn → t ∈ tickets p) ∧
  (¬ seed_in_bounds b → CheckLuckySignatures ecdsa_recover params h c p b = None).
Proof.
  intros Hparams Hall Hv Hh Hm l. unfold CheckLuckySignatures, seed_in_bounds. replace (TICKET_VALVE <=? Height c) with true by lia. split; intros Hs.
  - destruct (lucky_draw h c p (Height c) hash _ Hh Hs) as (-> & drawn & p' & Ed & Hp & Hd).
    { apply Forall_forall. intros t Ht. rewrite Forall_forall in Hall. by apply Hall. }
    cbn [mbind option_bind]. destruct (check_lucky_spec ecdsa_recover params Hparams b mh l (copy_ticketPool p 0) drawn p' 1 Hm) as (r & Er & Hr).
    + apply Forall_forall. intros t Ht. rewrite Forall_forall in Hall. by apply Hall.
    + done.
    + exists drawn, r. split_and!; try done; apply Hd.
  - rewrite (lucky_index_spec h c p hash _ _ Hh). by replace (Z.rem (i32 (seed (old (header b)))) 24 <=? -3) with true by lia.
Qed.
End Signed.

(** ** Examples *)
Definition owner_key : bytes := key_example 7.
Definition owner : CTxDestination := CKeyID (Hashes.Hash160 owner_key).
Definition ticket_tx (n : Z) : CTransaction :=
  mkCTransaction 2 [mkCTxIn (mkCOutPoint (replicate 32 n) 0) [0x51] 0xffffffff []]
    [mkCTxOut (TICKET_PRICE * COIN) [OP_BUYTICKET]; mkCTxOut 0 (GetScriptForDestination owner)] 0.
(** A signature that [recover_example] attributes to [owner_key]: 65 bytes in base 64. *)
Definition recover_example (sig : bytes) (recid : Z) (hash : bytes) (compressed : bool) : option bytes :=
  if (recid =? 0) && compressed then Some owner_key else None.
Definition sig_example : bytes := EncodeBase64 (31 :: replicate 64 9).
Definition ticket_block_of (sd n : Z) : CBlock :=
  mkBlock (mkHeader (mkOldHeader 4 (replicate 32 7) (replicate 32 8) 1577836800 0x1e00ffff (replicate 32 9) (replicate 32 10) sd 5 6)
    sig_example sig_example sig_example sig_example sig_example) [ticket_tx n; ticket_tx (n + 1)].
Definition ticket_block (sd : Z) : CBlock := ticket_block_of sd 1.
Definition entry_example (hash : bytes) : CBlockIndex := set_hash (node_at 1 None None 10) hash.
Definition lucky_hash : bytes := [0x12; 0xf3; 0x74; 0x95; 0xb6; 0xd7; 0x18; 0x39; 0x5a; 0x7b; 0x9c; 0xbd; 0xde] ++ replicate 19 1.
Definition ticket_heap : heap := {[1%positive := entry_example lucky_hash]}.
Definition ticket_chain (height at_ : Z) : chain :=
  replicate (Z.to_nat at_) None ++ [Some 1%positive] ++ replicate (Z.to_nat (height - at_)) None.
Definition read_example (sd : Z) (q : ptr) : option CBlock := Some (ticket_block sd).
(** Four blocks from a height on, with two tickets each. *)
Definition four_heap : heap := let n := entry_example lucky_hash in {[1%positive := n; 2%positive := n; 3%positive := n; 4%positive := n]}.
Definition four_chain (at_ : Z) : chain := replicate (Z.to_nat at_) None ++ [Some 1%positive; Some 2%positive; Some 3%positive; Some 4%positive].
Definition read_four (q : ptr) : option CBlock := Some (ticket_block_of (-1) (2 * Z.pos q)).
Definition some_ticket (n : Z) : Ticket := mkTicket n (replicate 32 n) (TICKET_PRICE * COIN) (CBitcoinAddress main_prefixes owner).
Definition ten_tickets : ticketPool (list Ticket) := mkPool (map some_ticket [1; 2; 3; 4; 5; 6; 7; 8; 9; 10]) 4936.

Lemma main_prefixes_ok : prefixes_ok main_prefixes.
Proof. split; [done|done|by apply bytes_ok_compute|by apply bytes_ok_compute|done]. Qed.
Lemma Forall_compute {A} (P : A → bool) (l : list A) : forallb P l = true → Forall (λ x, P x = true) l.
Proof. induction l as [|x l IH]; cbn [forallb]; [constructor|]. intros [H1 H2]%andb_true_iff. constructor; auto. Qed.
Ltac readable_block :=
  repeat (apply list.Forall_cons; split); [..|constructor]; (split; [apply tx_okb_ok; vm_compute; reflexivity|]; split; [vm_compute; reflexivity|];
    eexists; split; [reflexivity|]; split; [discriminate|]; intros _; eexists; split; [reflexivity|]; split; [discriminate|apply bytes_ok_compute; vm_compute; reflexivity]).
Lemma four_block_at at_ height q : q ∈ [1%positive; 2%positive; 3%positive; 4%positive] → at_height (four_chain at_) height = Some q →
  block_at read_four (four_chain at_) height q (ticket_block_of (-1) (2 * Z.pos q)).
Proof.
  intros Hq Hc. split; [exact Hc|reflexivity|].
  repeat (apply elem_of_cons in Hq as [->|Hq]; [readable_block|]). by apply not_elem_of_nil in Hq.
Qed.
Lemma four_hash_at at_ height q : q ∈ [1%positive; 2%positive; 3%positive; 4%positive] → at_height (four_chain at_) height = Some q →
  hash_at four_heap (four_chain at_) height lucky_hash.
Proof.
  intros Hq Hc. exists q, (entry_example lucky_hash). split; [exact Hc|].
  split; [repeat (apply elem_of_cons in Hq as [->|Hq]; [reflexivity|]); by apply not_elem_of_nil in Hq|].
  split; [reflexivity|]. split; [reflexivity|]. by apply bytes_ok_compute.
Qed.
Lemma four_elem q : (q <= 4)%positive → q ∈ [1%positive; 2%positive; 3%positive; 4%positive].
Proof. intros Hq. assert (q = 1 ∨ q = 2 ∨ q = 3 ∨ q = 4)%positive as [->|[->|[->| ->]]] by lia; repeat (left || right). Qed.
(** A seed of -1 is in bounds. *)
Lemma four_readable at_ k q : (q <= 4)%positive → at_height (four_chain at_) (k - TICKETPOOL_HEIGHT_LATENCY) = Some q → k ≤ TICKET_VALVE →
  update_readable read_four four_heap (four_chain at_) k.
Proof.
  intros Hq Hc Hk. exists q, (ticket_block_of (-1) (2 * Z.pos q)), lucky_hash. split; [apply four_block_at; [by apply four_elem|done]|]. split; intros ?; lia.
Qed.

(** Two blocks are loaded, with two tickets each. *)
Lemma ticket_pool_loaded_witness : ∃ p, LoadTicketpool_loop main_prefixes read_four four_heap (four_chain 1) (new_ticketPool (T := list Ticket)) 66 1 = Some p ∧
  map ticketHeight (by_height (ticket_pool p)) = [1; 1; 2; 2] ∧ load_height p = 2.
Proof.
  destruct (ticket_pool_loaded (T := list Ticket) main_prefixes read_four four_heap (four_chain 1) 66) as (p & E & _ & HL & _).
  - intros k Hk. assert (k = 65 ∨ k = 66) as [->| ->] by (unfold TICKETPOOL_HEIGHT_LATENCY in Hk; lia).
    + by apply (four_readable 1 65 1).
    + by apply (four_readable 1 66 2).
  - exists p. split; [exact E|]. split; [|exact HL]. clear HL. vm_compute in E. injection E as <-. vm_compute. reflexivity.
Defined.
Definition pool_4933 : ticketPool (list Ticket) := mkPool ts_empty 4933.
(** The pool of the six tickets of three blocks loses five of them and gets two of the next block. *)
Lemma ticket_pool_update_witness : ∃ p p', LoadTicketpool_loop main_prefixes read_four four_heap (four_chain 4934) pool_4933 3 4998 = Some p ∧
  map ticketHeight (by_height (ticket_pool p)) = [4934; 4934; 4935; 4935; 4936; 4936] ∧
  updateTicketpool main_prefixes read_four four_heap (four_chain 4934) p 5001 = Some p' ∧ map ticketHeight (by_height (ticket_pool p')) = [4936; 4937; 4937] ∧ load_height p' = 4937.
Proof.
  destruct (load_loop_spec (T := list Ticket) main_prefixes read_four four_heap (four_chain 4934) 4997 pool_4933 3 4998 pool_4933) as (p & E & Hp & HL & _).
  - lia.
  - by apply (empty_pool_ok (T := list Ticket)).
  - reflexivity.
  - constructor.
  - intros k Hk. assert (k = 4998 ∨ k = 4999 ∨ k = 5000) as [->|[->| ->]] by (unfold TICKETPOOL_HEIGHT_LATENCY in Hk; lia).
    + by apply (four_readable 4934 4998 1).
    + by apply (four_readable 4934 4999 2).
    + by apply (four_readable 4934 5000 3).
  - destruct (ticket_pool_update (T := list Ticket) main_prefixes read_four four_heap (four_chain 4934) p 5001 4%positive (ticket_block_of (-1) 8) lucky_hash Hp) as [H _].
    + apply (four_block_at 4934 4937 4%positive); [by apply four_elem|by vm_compute].
    + intros _. apply (four_hash_at 4934 4936 3%positive); [by apply four_elem|by vm_compute].
    + destruct H as [H _]; [rewrite HL; reflexivity|]. destruct H as (drawn & p' & Eu & U & _); [intros _; by vm_compute|].
      exists p, p'. split; [exact E|]. clear U HL Hp. vm_compute in E. injection E as <-. split; [vm_compute; reflexivity|]. split; [exact Eu|].
      vm_compute in Eu. injection Eu as <-. split; vm_compute; reflexivity.
Defined.
Lemma block_signed_by_tickets_witness :
  CheckLuckySignatures recover_example main_prefixes ticket_heap (ticket_chain 5000 4936) ten_tickets (ticket_block 1) = Some true.
Proof.
  destruct (message_hash (ticket_block 1)) as [mh|] eqn:Em; [|vm_compute in Em; discriminate Em].
  destruct (block_signed_by_tickets (T := list Ticket) main_prefixes ticket_heap (ticket_chain 5000 4936) recover_example ten_tickets (ticket_block 1) mh
    lucky_hash main_prefixes_ok) as [H _].
  - replace (by_hash (ticket_pool ten_tickets)) with (map some_ticket [1; 2; 3; 4; 5; 6; 7; 8; 9; 10]) by (vm_compute; reflexivity).
    assert (Ho : address_ok main_prefixes (CBitcoinAddress main_prefixes owner)).
    { exists owner. split; [done|]. destruct (Hash160_ok owner_key). split; [done|by right]. }
    cbn [map]. repeat (apply list.Forall_cons; split; [split; [unfold some_ticket; cbn [ticketHeight]; lia|exact Ho]|]). constructor.
  - by vm_compute.
  - exists 1%positive, (entry_example lucky_hash). split; [reflexivity|]. split; [reflexivity|]. split; [reflexivity|]. split; [reflexivity|]. by apply bytes_ok_compute.
  - exact Em.
  - destruct H as (drawn & r & _ & Er & _); [by vm_compute|]. pose proof Er as Er'. vm_compute in Er'. injection Er' as <-. exact Er.
Defined.

(** The seed of a header has 32 bits and the parameter is an [int]: for half of the
    seeds it is negative, and for most of these the numbers are read past the end
    of the string. *)
Lemma negative_seed_out_of_bounds (p : ticketPool (list Ticket)) (sd : Z) : sd < 0 → Z.rem sd 24 ≤ -3 →
  getLuckyIndex ticket_heap (ticket_chain 5000 4936) p 5000 sd = None.
Proof.
  intros _ Hr. rewrite (lucky_index_spec _ _ _ lucky_hash); [by replace (Z.rem sd 24 <=? -3) with true by lia|].
  exists 1%positive, (entry_example lucky_hash). split; [by vm_compute|]. split; [reflexivity|]. split; [reflexivity|]. split; [reflexivity|]. by apply bytes_ok_compute.
Qed.

(** The tickets that sign a block are drawn with the seed of that block; the ones that
    are taken out of the pool when it is connected are drawn with the seed of the block
    64 below. *)
Lemma signers_stay_in_the_pool :
  (l ← getLuckyIndex ticket_heap (ticket_chain 5001 4936) ten_tickets 5000 (i32 (seed (old (header (ticket_block 1)))));
   '(signers, _) ← draw ten_tickets l; Some (map ticketHeight signers)) = Some [5; 2; 7; 4; 9] ∧
  (p' ← updateTicketpool main_prefixes (read_example 0) ticket_heap (<[4937%nat := Some 1%positive]> (ticket_chain 5001 4936)) ten_tickets 5001;
   Some (map ticketHeight (by_hash (ticket_pool p')))) = Some [2; 5; 8; 9; 10; 4937; 4937].
Proof. split; vm_compute; reflexivity. Qed.
