(* ===== verification/CoinsUpdate.v ===== *)
(** * Applying and undoing blocks on the set of coins (src/src/validation.cpp)

    [UpdateCoins] spends the inputs of a transaction and adds its outputs,
    keeping the spent coins as undo information; [DisconnectBlock] reverses a
    block with it.  Both work on the coin cache of Coins.v.  The other effects of
    disconnecting, on the contract state and on the indexes, are recorded as
    a list of events; reading the undo file is a parameter. *)

From stdpp Require Import base numbers list option gmap.
From Stdlib Require Import ZArith Lia ZifyNat ZifyBool Setoid Morphisms.
From S2P Require Import Prelude Script Serialize Transaction Coins Compressor Block BlockIndex.

Section Update.
Context {V : Type} `{CoinsView V} (DynamicMemoryUsage : Coin → Z).
Implicit Types (view : CCoinsViewCache V).
Abbreviation usage := DynamicMemoryUsage.

(** ** Applying *)
Fixpoint spend_inputs (v : list CTxIn) view : option (CTxUndo * CCoinsViewCache V) :=
  match v with
  | [] => Some ([], view)
  | txin :: v =>
      match SpendCoin usage (prevout txin) view with
      | (None, _) => None
      | (Some c, view) => '(l, view) ← spend_inputs v view; Some (c :: l, view)
      end
  end.
(** The undo information and the view; [None] is the failed assertion. *)
Definition UpdateCoins (tx : CTransaction) (nHeight : Z) view : option (CTxUndo * CCoinsViewCache V) :=
  '(txundo, view) ← (if negb (IsCoinBase tx) then spend_inputs (vin tx) view else Some ([], view));
  view ← AddCoins usage tx nHeight false view; Some (txundo, view).

(** The part of the loop of [ConnectBlock] that changes the view; the undo
    information of the first transaction is dropped. *)
Fixpoint connect_txs (i : nat) (vtx : list CTransaction) (nHeight : Z) view : option (list CTxUndo * CCoinsViewCache V) :=
  match vtx with
  | [] => Some ([], view)
  | tx :: vtx =>
      '(u, view) ← UpdateCoins tx nHeight view;
      '(l, view) ← connect_txs (S i) vtx nHeight view;
      Some (if (0 <? i)%nat then u :: l else l, view)
  end.

(** What connecting a block does to the coins, and its undo information. *)
Definition connect_coins (block : CBlock) (hash : bytes) (nHeight : Z) view : option (list CTxUndo * CCoinsViewCache V) :=
  '(vtxundo, view) ← connect_txs 0 (vtx block) nHeight view;
  Some (vtxundo, SetBestBlock hash view).

(** ** Undoing *)
Inductive DisconnectResult := DISCONNECT_OK | DISCONNECT_UNCLEAN | DISCONNECT_FAILED.

Definition ApplyTxInUndo (undo : Coin) (o : COutPoint) view : option (DisconnectResult * CCoinsViewCache V) :=
  let '(have, view) := HaveCoin usage o view in
  let fClean := negb have in
  '(undo, view) ←
    (if coin_nHeight undo =? 0 then
       '(alternate, view) ← AccessByTxid usage (op_hash o) view;
       Some (if negb (IsSpent alternate)
             then Some (mkCoin (out undo) (fCoinBase alternate) (fCoinStake undo) (coin_nHeight alternate)) else None, view)
     else Some (Some undo, view));
  match undo with
  | None => Some (DISCONNECT_FAILED, view)
  | Some undo => view ← AddCoin usage o undo (negb fClean) view; Some (if fClean then DISCONNECT_OK else DISCONNECT_UNCLEAN, view)
  end.

Fixpoint disconnect_outputs (hash : bytes) (is_coinbase is_coinstake : bool) (nHeight o : Z) (v : list CTxOut)
    (fClean : bool) view : bool * CCoinsViewCache V :=
  match v with
  | [] => (fClean, view)
  | txout :: v =>
      let '(fClean, view) :=
        if negb (IsUnspendable (scriptPubKey txout)) then
          let '(r, view) := SpendCoin usage (mkCOutPoint hash (u32 o)) view in
          let ok := match r with
                    | None => false
                    | Some c => bool_decide (txout = out c) && (nHeight =? coin_nHeight c)
                                && eqb is_coinbase (fCoinBase c) && eqb is_coinstake (fCoinStake c)
                    end in
          (if ok then fClean else false, view)
        else (fClean, view) in
      disconnect_outputs hash is_coinbase is_coinstake nHeight (o + 1) v fClean view
  end.
(** The inputs with their undo records, last first; [None] inside is the
    early return. *)
Fixpoint disconnect_inputs (l : list (CTxIn * Coin)) (fClean : bool) view : option (option bool * CCoinsViewCache V) :=
  match l with
  | [] => Some (Some fClean, view)
  | (txin, undo) :: l =>
      '(res, view) ← ApplyTxInUndo undo (prevout txin) view;
      match res with
      | DISCONNECT_FAILED => Some (None, view)
      | DISCONNECT_UNCLEAN => disconnect_inputs l false view
      | DISCONNECT_OK => disconnect_inputs l fClean view
      end
  end.
(** [i] counts down; [vtxundo] are the records of the transactions before the
    current one, last first. *)
Definition disconnect_tx (i : nat) (tx : CTransaction) (txundo : option CTxUndo) (nHeight : Z) (fClean : bool) view :
    option (option bool * CCoinsViewCache V) :=
  hash ← GetHash tx;
  let '(fClean, view) := disconnect_outputs hash (IsCoinBase tx) (IsCoinStake tx) nHeight 0 (vout tx) fClean view in
  if (0 <? i)%nat then
    match txundo with
    | None => None
    | Some vprevout =>
        if negb (length vprevout =? length (vin tx))%nat then Some (None, view)
        else disconnect_inputs (rev (combine (vin tx) vprevout)) fClean view
    end
  else Some (Some fClean, view).
Fixpoint disconnect_txs (l : list (nat * CTransaction)) (vtxundo : list CTxUndo) (nHeight : Z) (fClean : bool) view :
    option (option bool * CCoinsViewCache V) :=
  match l with
  | [] => Some (Some fClean, view)
  | (i, tx) :: l =>
      '(r, view) ← disconnect_tx i tx (vtxundo !! (i - 1)%nat) nHeight fClean view;
      match r with
      | None => Some (None, view)
      | Some fClean => disconnect_txs l vtxundo nHeight fClean view
      end
  end.

(** What else disconnecting changes. *)
Inductive disconnect_event :=
  | EvSetRoot (root : bytes) | EvSetRootUTXO (root : bytes)
  | EvDeleteResults (vtx : list CTransaction) | EvEraseHeightIndex (h : Z) | EvEraseStakeIndex (h : Z).

Definition GetUndoPos (n : CBlockIndex) : Z * Z :=
  if negb (Z.land (nStatus n) BLOCK_HAVE_UNDO =? 0) then (nFile n, nUndoPos n) else (-1, 0).

(** The undo file. *)
Context (UndoReadFromDisk : Z * Z → bytes → option (list CTxUndo)).

Definition DisconnectBlock (block : CBlock) (pindex prev : CBlockIndex) (fLogEvents : bool) (pfClean : bool) view :
    option (DisconnectResult * list disconnect_event * CCoinsViewCache V) :=
  hash ← phashBlock pindex;
  prevHash ← phashBlock prev;
  let '(best, view) := GetBestBlock view in
  if negb (bool_decide (hash = best)) then None
  else if fst (GetUndoPos pindex) =? -1 then Some (DISCONNECT_FAILED, [], view)
  else
    match UndoReadFromDisk (GetUndoPos pindex) prevHash with
    | None => Some (DISCONNECT_FAILED, [], view)
    | Some vtxundo =>
        if negb (length vtxundo + 1 =? length (vtx block))%nat then Some (DISCONNECT_FAILED, [], view)
        else
          '(r, view) ← disconnect_txs (rev (combine (seq 0 (length (vtx block))) (vtx block))) vtxundo (nHeight pindex) true view;
          match r with
          | None => Some (DISCONNECT_FAILED, [], view)
          | Some fClean =>
              let view := SetBestBlock prevHash view in
              let events :=
                [EvSetRoot (ih_hashStateRoot (bi_header prev)); EvSetRootUTXO (ih_hashUTXORoot (bi_header prev))]
                ++ (if negb pfClean && fLogEvents then [EvDeleteResults (vtx block); EvEraseHeightIndex (nHeight pindex)] else [])
                ++ [EvEraseStakeIndex (nHeight pindex)] in
              Some (if (fClean : bool) then DISCONNECT_OK else DISCONNECT_UNCLEAN, events, view)
          end
    end.
End Update.

(** ** The same on the abstract set of coins *)
Abbreviation coins := (COutPoint → option Coin).
Definition spend_all (v : list CTxIn) (C : coins) : coins := foldl (λ C i, set_coin C (prevout i) None) C v.
Fixpoint add_all (txid : bytes) (mk : CTxOut → Coin) (i : Z) (v : list CTxOut) (C : coins) : coins :=
  match v with
  | [] => C
  | o :: v => add_all txid mk (i + 1) v
                (if IsUnspendable (scriptPubKey o) then C else set_coin C (mkCOutPoint txid (u32 i)) (Some (mk o)))
  end.
Definition tx_coin (tx : CTransaction) (nHeight : Z) (o : CTxOut) : Coin := new_Coin o nHeight (IsCoinBase tx) (IsCoinStake tx).
Definition apply_tx (tx : CTransaction) (txid : bytes) (nHeight : Z) (C : coins) : coins :=
  add_all txid (tx_coin tx nHeight) 0 (vout tx) (if IsCoinBase tx then C else spend_all (vin tx) C).

(** What makes a transaction applicable: distinct inputs that are there, with their
    height known, and outputs that are new. *)
Record tx_applies (tx : CTransaction) (txid : bytes) (C : coins) : Prop := {
  ta_hash : GetHash tx = Some txid;
  ta_inputs : IsCoinBase tx = false → NoDup (map prevout (vin tx)) ∧
    Forall (λ i, ∃ c, C (prevout i) = Some c ∧ coin_nHeight c ≠ 0 ∧ IsUnspendable (scriptPubKey (out c)) = false) (vin tx);
  ta_size : Z.of_nat (length (vout tx)) < 2 ^ 32;
  ta_values : Forall (λ o, nValue o ≠ -1) (vout tx);
  ta_new n : (if IsCoinBase tx then C else spend_all (vin tx) C) (mkCOutPoint txid n) = None }.
(** The transactions of a block: a coinbase, then others, each applicable after
    those before it. *)
Fixpoint block_applies (i : nat) (vtx : list CTransaction) (nHeight : Z) (C : coins) : Prop :=
  match vtx with
  | [] => True
  | tx :: vtx => ∃ txid, IsCoinBase tx = (i =? 0)%nat ∧ tx_applies tx txid C ∧
                   block_applies (S i) vtx nHeight (apply_tx tx txid nHeight C)
  end.

(** ** Sets of coins up to extensionality *)
Definition coins_eq : relation coins := pointwise_relation COutPoint eq.
#[global] Instance coins_eq_equiv : Equivalence coins_eq.
Proof. unfold coins_eq. apply _. Qed.
Infix "≡c" := coins_eq (at level 70).
#[global] Instance set_coin_proper : Proper (coins_eq ==> eq ==> eq ==> coins_eq) set_coin.
Proof. intros C C' HC o _ <- r _ <- o'. unfold set_coin. case_decide; [done|apply HC]. Qed.
#[global] Instance spend_all_proper v : Proper (coins_eq ==> coins_eq) (spend_all v).
Proof.
  unfold spend_all. induction v as [|i v IH]; intros C C' HC; [done|]. cbn [foldl]. apply IH. by rewrite HC.
Qed.

(** An addition acts on each outpoint separately. *)
Lemma add_all_at txid mk i v (C C' : coins) o : C o = C' o → add_all txid mk i v C o = add_all txid mk i v C' o.
Proof.
  revert i C C'. induction v as [|x v IH]; intros i C C' HC; [done|]. cbn [add_all]. apply IH.
  destruct (IsUnspendable _); [done|]. unfold set_coin. by case_decide.
Qed.
#[global] Instance add_all_proper txid mk i v : Proper (coins_eq ==> coins_eq) (add_all txid mk i v).
Proof. intros C C' HC o. apply add_all_at, HC. Qed.
Lemma add_all_other txid mk i v (C : coins) o :
  (∀ k, i ≤ k < i + Z.of_nat (length v) → o ≠ mkCOutPoint txid (u32 k)) → add_all txid mk i v C o = C o.
Proof.
  revert i C. induction v as [|x v IH]; intros i C Ho; [done|]. cbn [add_all length] in *. rewrite IH by (intros k Hk; apply Ho; lia).
  destruct (IsUnspendable _); [done|]. unfold set_coin. case_decide as Hd; [|done]. destruct (Ho i ltac:(lia) Hd).
Qed.
Lemma outpoint_neq txid i k : 0 ≤ i < 2 ^ 32 → 0 ≤ k < 2 ^ 32 → i ≠ k → mkCOutPoint txid (u32 i) ≠ mkCOutPoint txid (u32 k).
Proof. intros Hi Hk Hne [= E]. rewrite !u32_small in E by (unfold is_u32; lia). done. Qed.
Lemma add_all_set txid mk i k v (C : coins) r : 0 ≤ k < i → i + Z.of_nat (length v) ≤ 2 ^ 32 →
  set_coin (add_all txid mk i v C) (mkCOutPoint txid (u32 k)) r ≡c add_all txid mk i v (set_coin C (mkCOutPoint txid (u32 k)) r).
Proof.
  intros Hk Hi o. unfold set_coin at 1. case_decide as Hd.
  - subst o. rewrite add_all_other; [unfold set_coin; by case_decide|]. intros j Hj. apply outpoint_neq; lia.
  - apply add_all_at. unfold set_coin. by case_decide.
Qed.
Lemma set_coin_undo (C : coins) o c : C o = None → set_coin (set_coin C o c) o None ≡c C.
Proof. intros Hn o'. unfold set_coin. repeat case_decide; congruence. Qed.
Lemma set_coin_redo (C : coins) o c : C o = Some c → set_coin (set_coin C o None) o (Some c) ≡c C.
Proof. intros Hn o'. unfold set_coin. repeat case_decide; congruence. Qed.
Lemma spend_all_notin v (C : coins) o : o ∉ map prevout v → spend_all v C o = C o.
Proof.
  unfold spend_all. revert C. induction v as [|i v IH]; intros C Hn; [done|]. cbn [foldl map] in *.
  apply not_elem_of_cons in Hn as [Hne Hn]. rewrite IH by done. unfold set_coin. by case_decide.
Qed.

(** ** Applying *)
Section Proofs.
Context {V : Type} `{CoinsViewLaws V} (usage : Coin → Z) (usage_cleared : usage coinEmpty = 0).
Implicit Types (s : CCoinsViewCache V) (C : coins).

(** The cache is well formed, stands for [C] and has the best block [h]. *)
Definition stands s C (h : bytes) : Prop := cache_ok usage s ∧ cache_coins s ≡c C ∧ cache_best s = h.

Lemma stands_eq s C C' h : stands s C h → C ≡c C' → stands s C' h.
Proof. intros (H1 & H2 & H3) HC. split_and!; [done|by rewrite H2|done]. Qed.
Lemma stands_unspent s C h o c : stands s C h → C o = Some c → IsSpent c = false.
Proof.
  intros (Hok & HC & _) Ho. rewrite <- (HC o) in Ho. exact (view_unspent (CoinsViewLaws := cache_laws usage) s o c Hok Ho).
Qed.

Lemma SpendCoin_stands o s C h : stands s C h →
  ∃ r s', SpendCoin usage o s = (r, s') ∧ stands s' (set_coin C o None) h ∧ (∀ c, C o = Some c → r = Some c).
Proof.
  intros (Hok & HC & Hb). destruct (SpendCoin_spec usage usage_cleared o s Hok) as (r & s' & E & Hr & Hok' & Hb' & HC').
  exists r, s'. split; [done|]. split.
  - split_and!; [done| |by rewrite Hb']. intros o'. rewrite HC'. unfold set_coin. case_decide; [done|apply HC].
  - intros c Hc. rewrite (HC o), Hc in Hr. destruct r as [c'|]; [|done]. cbn in Hr. unfold unspent in Hr.
    by destruct (IsSpent c').
Qed.
Lemma AddCoin_stands o c ov s C h : stands s C h → IsSpent c = false → (ov = false → C o = None) →
  ∃ s', AddCoin usage o c ov s = Some s' ∧
    stands s' (if IsUnspendable (scriptPubKey (out c)) then C else set_coin C o (Some c)) h.
Proof.
  intros (Hok & HC & Hb) Hs Hov.
  destruct (AddCoin_spec usage o c ov s Hok Hs) as (s' & E & Hok' & Hb' & HC'); [intros E; rewrite (HC o); by apply Hov|].
  exists s'. split; [done|]. split_and!; [done| |by rewrite Hb']. intros o'. rewrite HC'.
  destruct (IsUnspendable _); unfold set_coin; case_decide as Hd; try apply HC; [|done]. subst o'. apply HC.
Qed.

Lemma spend_inputs_stands v s C h :
  stands s C h → NoDup (map prevout v) → Forall (λ i, ∃ c, C (prevout i) = Some c) v →
  ∃ u s', spend_inputs usage v s = Some (u, s') ∧ stands s' (spend_all v C) h ∧ Forall2 (λ i c, C (prevout i) = Some c) v u.
Proof.
  revert s C. induction v as [|i v IH]; intros s C Hs Hnd HC; [by exists [], s|].
  cbn [map] in Hnd. apply NoDup_cons in Hnd as [Hin Hnd]. apply Forall_cons in HC as [[c Hc] HC].
  destruct (SpendCoin_stands (prevout i) s C h Hs) as (r & s1 & E & Hs1 & Hr). specialize (Hr c Hc) as ->.
  assert (Hkeep : ∀ j, j ∈ v → set_coin C (prevout i) None (prevout j) = C (prevout j)).
  { intros j Hj. unfold set_coin. case_decide as Hd; [|done]. destruct Hin. rewrite <- Hd. by apply list_elem_of_fmap_2. }
  destruct (IH s1 _ Hs1 Hnd) as (u & s' & E' & Hs' & Hu).
  { rewrite Forall_forall in HC |- *. intros j Hj. rewrite Hkeep by done. by apply HC. }
  exists (c :: u), s'. cbn [spend_inputs]. rewrite E, E'. split_and!; [done|done|]. constructor; [done|].
  apply Forall2_same_length_lookup. split; [by apply (Forall2_length _ _ _ Hu)|]. intros k j c' Hj Hc'.
  rewrite <- Hkeep by (eapply list_elem_of_lookup_2; exact Hj). exact (Forall2_lookup_lr _ _ _ _ _ _ Hu Hj Hc').
Qed.

Lemma AddCoins_loop_stands cb cs txid nHeight i v s C h :
  stands s C h → Forall (λ o, nValue o ≠ -1) v → 0 ≤ i → i + Z.of_nat (length v) ≤ 2 ^ 32 →
  (∀ n, i ≤ n < 2 ^ 32 → C (mkCOutPoint txid (u32 n)) = None) →
  ∃ s', AddCoins_loop usage cb cs txid nHeight false i v s = Some s' ∧
    stands s' (add_all txid (λ o, new_Coin o nHeight cb cs) i v C) h.
Proof.
  revert i s C. induction v as [|o v IH]; intros i s C Hs Hv Hi Hn HC; [by exists s|].
  apply Forall_cons in Hv as [Ho Hv]. cbn [AddCoins_loop add_all length] in *.
  destruct (AddCoin_stands (mkCOutPoint txid (u32 i)) (new_Coin o nHeight cb cs) cb s C h Hs) as (s1 & -> & Hs1).
  { unfold IsSpent, CTxOut_IsNull. cbn. lia. }
  { intros _. apply HC. lia. }
  cbn [mbind option_bind]. apply IH; [exact Hs1|done|lia|lia|]. intros n Hn'. cbn [new_Coin out].
  destruct (IsUnspendable _); [apply HC; lia|]. unfold set_coin. case_decide as Hd; [|apply HC; lia].
  destruct (outpoint_neq txid n i) with (4 := Hd); lia.
Qed.

Lemma UpdateCoins_stands tx txid nHeight s C h : stands s C h → tx_applies tx txid C →
  ∃ u s', UpdateCoins usage tx nHeight s = Some (u, s') ∧ stands s' (apply_tx tx txid nHeight C) h ∧
    (if IsCoinBase tx then u = [] else Forall2 (λ i c, C (prevout i) = Some c) (vin tx) u).
Proof.
  intros Hs [Hh Hin Hsz Hval Hnew]. unfold UpdateCoins, apply_tx, AddCoins. rewrite Hh.
  assert (Hspend : ∃ u s1, (if negb (IsCoinBase tx) then spend_inputs usage (vin tx) s else Some ([], s)) = Some (u, s1) ∧
    stands s1 (if IsCoinBase tx then C else spend_all (vin tx) C) h ∧
    (if IsCoinBase tx then u = [] else Forall2 (λ i c, C (prevout i) = Some c) (vin tx) u)).
  { destruct (IsCoinBase tx); cbn [negb]; [by exists [], s|]. destruct (Hin eq_refl) as [Hnd Hall].
    apply spend_inputs_stands; [done|done|]. eapply Forall_impl; [exact Hall|]. intros i (c & Hc & _). by exists c. }
  destruct Hspend as (u & s1 & -> & Hs1 & Hu). cbn [mbind option_bind].
  destruct (AddCoins_loop_stands (IsCoinBase tx) (IsCoinStake tx) txid nHeight 0 (vout tx) s1 _ h Hs1 Hval ltac:(lia) ltac:(lia))
    as (s' & -> & Hs'); [intros n _; apply Hnew|].
  cbn [mbind option_bind]. by exists u, s'.
Qed.

(** ** Undoing *)
Lemma ApplyTxInUndo_stands o c s C h : stands s C h → C o = None → IsSpent c = false → coin_nHeight c ≠ 0 →
  IsUnspendable (scriptPubKey (out c)) = false →
  ∃ s', ApplyTxInUndo usage c o s = Some (DISCONNECT_OK, s') ∧ stands s' (set_coin C o (Some c)) h.
Proof.
  intros (Hok & HC & Hb) Hn Hs Hh Hu. unfold ApplyTxInUndo. destruct (HaveCoin_spec usage o s Hok) as (s1 & -> & Hok1 & Hc1 & Hb1).
  rewrite (bool_decide_eq_false_2 (is_Some _)) by (rewrite (HC o), Hn; apply is_Some_None).
  rewrite (proj2 (Z.eqb_neq _ _) Hh). cbn [mbind option_bind negb].
  destruct (AddCoin_stands o c false s1 C h) as (s' & -> & Hs'); [|done|done|].
  - split_and!; [done| |by rewrite Hb1]. intros o'. by rewrite Hc1.
  - rewrite Hu in Hs'. by exists s'.
Qed.

Lemma disconnect_inputs_app l1 l2 b b' s s' :
  disconnect_inputs usage l1 b s = Some (Some b', s') → disconnect_inputs usage (l1 ++ l2) b s = disconnect_inputs usage l2 b' s'.
Proof.
  revert b s. induction l1 as [|[i c] l1 IH]; intros b s E; [by injection E as -> ->|]. cbn [disconnect_inputs app] in *.
  destruct (ApplyTxInUndo usage c (prevout i) s) as [[[] s1]|]; [| |discriminate E|discriminate E]; by apply IH.
Qed.
(** A coin that can come back from undo information. *)
Definition undoable C (i : CTxIn) (c : Coin) : Prop :=
  C (prevout i) = Some c ∧ coin_nHeight c ≠ 0 ∧ IsUnspendable (scriptPubKey (out c)) = false ∧ IsSpent c = false.
Lemma disconnect_inputs_stands v u s C h : stands s (spend_all v C) h → NoDup (map prevout v) → Forall2 (undoable C) v u →
  ∃ s', disconnect_inputs usage (rev (combine v u)) true s = Some (Some true, s') ∧ stands s' C h.
Proof.
  intros Hs Hnd Hu. revert s C Hs Hu. revert u. induction v as [|i v IH]; intros u s C Hs Hu.
  { apply Forall2_nil_inv_l in Hu as ->. by exists s. }
  apply Forall2_cons_inv_l in Hu as (c & u' & (Hc & Hh & Hun & Hsp) & Hu & ->). cbn [map] in Hnd. apply NoDup_cons in Hnd as [Hin Hnd].
  destruct (IH Hnd u' s (set_coin C (prevout i) None) Hs) as (s1 & E1 & Hs1).
  { apply Forall2_same_length_lookup. split; [by apply (Forall2_length _ _ _ Hu)|]. intros k j c' Hj Hc'.
    destruct (Forall2_lookup_lr _ _ _ _ _ _ Hu Hj Hc') as (H1 & H2 & H3 & H4). split_and!; [|done..].
    unfold set_coin. case_decide as Hd; [|done]. destruct Hin. rewrite <- Hd. apply list_elem_of_fmap_2.
    eapply list_elem_of_lookup_2. exact Hj. }
  cbn [combine rev]. rewrite (disconnect_inputs_app _ _ _ _ _ _ E1). cbn [disconnect_inputs].
  destruct (ApplyTxInUndo_stands (prevout i) c s1 _ h Hs1) as (s' & -> & Hs'); [unfold set_coin; by case_decide|done..|].
  exists s'. split; [done|]. by apply (stands_eq _ _ _ _ Hs'), set_coin_redo.
Qed.

Lemma disconnect_outputs_stands cb cs txid nHeight i v s C h :
  0 ≤ nHeight < 2 ^ 30 → 0 ≤ i → i + Z.of_nat (length v) ≤ 2 ^ 32 → (∀ n, C (mkCOutPoint txid n) = None) →
  stands s (add_all txid (λ o, new_Coin o nHeight cb cs) i v C) h →
  ∃ s', disconnect_outputs usage txid cb cs nHeight i v true s = (true, s') ∧ stands s' C h.
Proof.
  intros Hh. revert i s C. induction v as [|x v IH]; intros i s C Hi Hn HC Hs; [by exists s|].
  cbn [disconnect_outputs add_all length] in *.
  destruct (IsUnspendable (scriptPubKey x)); cbn [negb]; [apply IH; [lia|lia|done|exact Hs]|].
  set (o := mkCOutPoint txid (u32 i)) in *. set (c := new_Coin x nHeight cb cs) in *.
  assert (Hc : add_all txid (λ o, new_Coin o nHeight cb cs) (i + 1) v (set_coin C o (Some c)) o = Some c).
  { rewrite add_all_other; [unfold set_coin; by case_decide|]. intros k Hk. apply outpoint_neq; lia. }
  destruct (SpendCoin_stands o s _ h Hs) as (r & s1 & -> & Hs1 & Hr). specialize (Hr c Hc) as ->.
  rewrite bool_decide_eq_true_2 by done. cbn [new_Coin coin_nHeight fCoinBase fCoinStake c].
  rewrite (Z.mod_small nHeight) by lia. rewrite Z.eqb_refl, !eqb_reflx. cbn [andb].
  apply IH; [lia|lia|done|]. apply (stands_eq _ _ _ _ Hs1). unfold o. etransitivity; [apply add_all_set; lia|].
  apply add_all_proper, set_coin_undo, HC.
Qed.

Lemma disconnect_tx_stands i tx txid u nHeight s C h :
  0 ≤ nHeight < 2 ^ 30 → tx_applies tx txid C → IsCoinBase tx = (i =? 0)%nat →
  (if IsCoinBase tx then True else ∃ l, u = Some l ∧ Forall2 (undoable C) (vin tx) l) →
  stands s (apply_tx tx txid nHeight C) h →
  ∃ s', disconnect_tx usage i tx u nHeight true s = Some (Some true, s') ∧ stands s' C h.
Proof.
  intros Hh [Hhash Hin Hsz _ Hnew] Hi Hu Hs. unfold disconnect_tx. rewrite Hhash. cbn [mbind option_bind].
  destruct (disconnect_outputs_stands (IsCoinBase tx) (IsCoinStake tx) txid nHeight 0 (vout tx) s _ h Hh ltac:(lia) ltac:(lia) Hnew Hs)
    as (s1 & -> & Hs1).
  destruct (IsCoinBase tx).
  - symmetry in Hi. apply Nat.eqb_eq in Hi as ->. by exists s1.
  - symmetry in Hi. apply Nat.eqb_neq in Hi. destruct (Nat.ltb_spec 0 i) as [_|Hle]; [|lia].
    destruct Hu as (l & -> & Hl). rewrite (Forall2_length _ _ _ Hl), Nat.eqb_refl. cbn [negb].
    destruct (Hin eq_refl) as [Hnd _]. by apply disconnect_inputs_stands.
Qed.

(** ** Blocks *)

(** The run of a block over the abstract set, with the undo information of
    each transaction. *)
Inductive block_path (nHeight : Z) : nat → list CTransaction → coins → list CTxUndo → coins → Prop :=
  | path_nil i C : block_path nHeight i [] C [] C
  | path_cons i tx txid u vtx C us C' :
      IsCoinBase tx = (i =? 0)%nat → tx_applies tx txid C → (if IsCoinBase tx then u = [] else Forall2 (undoable C) (vin tx) u) →
      block_path nHeight (S i) vtx (apply_tx tx txid nHeight C) us C' →
      block_path nHeight i (tx :: vtx) C (u :: us) C'.

Lemma undoable_inputs tx txid u s C h : stands s C h → tx_applies tx txid C → IsCoinBase tx = false →
  Forall2 (λ i c, C (prevout i) = Some c) (vin tx) u → Forall2 (undoable C) (vin tx) u.
Proof.
  intros Hs [_ Hin _ _ _] Hcb Hu. destruct (Hin Hcb) as [_ Hall]. apply Forall2_same_length_lookup.
  split; [by apply (Forall2_length _ _ _ Hu)|]. intros k i c Hi Hc. pose proof (Forall2_lookup_lr _ _ _ _ _ _ Hu Hi Hc) as E.
  destruct (Forall_lookup_1 _ _ _ _ Hall Hi) as (c' & E' & H1 & H2). cbn in E. rewrite E in E'. injection E' as <-.
  split_and!; [done..|]. exact (stands_unspent s C h _ c Hs E).
Qed.

Lemma connect_txs_stands i vtx nHeight s C h : stands s C h → block_applies i vtx nHeight C →
  ∃ us s' C', connect_txs usage i vtx nHeight s = Some (if (0 <? i)%nat then us else tail us, s') ∧
    stands s' C' h ∧ block_path nHeight i vtx C us C'.
Proof.
  revert i s C. induction vtx as [|tx vtx IH]; intros i s C Hs Hb.
  { exists [], s, C. split_and!; [by destruct (0 <? i)%nat|done|constructor]. }
  destruct Hb as (txid & Hcb & Hta & Hb). destruct (UpdateCoins_stands tx txid nHeight s C h Hs Hta) as (u & s1 & E1 & Hs1 & Hu).
  destruct (IH (S i) s1 _ Hs1 Hb) as (us & s' & C' & E2 & Hs' & Hp). exists (u :: us), s', C'. cbn [connect_txs].
  rewrite E1. cbn [mbind option_bind]. rewrite E2. cbn [mbind option_bind tail Nat.ltb Nat.leb].
  split_and!; [done|done|]. apply path_cons with txid; [done|done| |done].
  destruct (IsCoinBase tx) eqn:E; [done|]. by apply (undoable_inputs tx txid u s C h).
Qed.

Lemma disconnect_txs_app l1 l2 us nHeight b b' s s' :
  disconnect_txs usage l1 us nHeight b s = Some (Some b', s') →
  disconnect_txs usage (l1 ++ l2) us nHeight b s = disconnect_txs usage l2 us nHeight b' s'.
Proof.
  revert b s. induction l1 as [|[i tx] l1 IH]; intros b s E; [by injection E as -> ->|]. cbn [disconnect_txs app] in *.
  destruct (disconnect_tx usage i tx _ nHeight b s) as [[[] s1]|]; cbn [mbind option_bind] in *; [|discriminate E|discriminate E]. by apply IH.
Qed.
Lemma disconnect_txs_stands i vtx nHeight vtxundo us s C C' h :
  0 ≤ nHeight < 2 ^ 30 → block_path nHeight i vtx C us C' →
  (∀ k u, us !! k = Some u → (0 < i + k)%nat → vtxundo !! (i + k - 1)%nat = Some u) → stands s C' h →
  ∃ s', disconnect_txs usage (rev (combine (seq i (length vtx)) vtx)) vtxundo nHeight true s = Some (Some true, s') ∧ stands s' C h.
Proof.
  intros Hh Hp. revert s. induction Hp as [i C|i tx txid u vtx C us C' Hcb Hta Hu Hp IH]; intros s Hus Hs; [by exists s|].
  destruct (IH s) as (s1 & E1 & Hs1); [|done|].
  { intros k u' Hk _. replace (S i + k - 1)%nat with (i + S k - 1)%nat by lia. apply Hus; [done|lia]. }
  cbn [length seq combine rev]. rewrite (disconnect_txs_app _ _ _ _ _ _ _ _ E1). cbn [disconnect_txs].
  destruct (disconnect_tx_stands i tx txid (vtxundo !! (i - 1)%nat) nHeight s1 C h Hh Hta Hcb) as (s' & -> & Hs'); [|done|by exists s'].
  destruct (IsCoinBase tx); [done|]. symmetry in Hcb. apply Nat.eqb_neq in Hcb. exists u. split; [|done].
  replace (i - 1)%nat with (i + 0 - 1)%nat by lia. apply Hus; [done|lia].
Qed.

Lemma block_path_length nHeight i vtx C us C' : block_path nHeight i vtx C us C' → length us = length vtx.
Proof. induction 1; cbn [length]; lia. Qed.

Lemma SetBestBlock_stands s C h h' : stands s C h → IsNull256 h' = false → stands (SetBestBlock h' s) C h'.
Proof.
  intros ([H1 H2 H3] & HC & _) Hn. split_and!; [by split|exact HC|]. unfold cache_best. cbn [SetBestBlock hashBlock]. by rewrite Hn.
Qed.

(** What is left of the other effects when a block is disconnected. *)
Definition disconnect_events (block : CBlock) (pindex prev : CBlockIndex) (log : bool) : list disconnect_event :=
  [EvSetRoot (ih_hashStateRoot (bi_header prev)); EvSetRootUTXO (ih_hashUTXORoot (bi_header prev))]
  ++ (if log then [EvDeleteResults (vtx block); EvEraseHeightIndex (nHeight pindex)] else [])
  ++ [EvEraseStakeIndex (nHeight pindex)].

Lemma DisconnectBlock_stands read block pindex prev fLogEvents pfClean hash prevHash us C C' s :
  phashBlock pindex = Some hash → phashBlock prev = Some prevHash → IsNull256 prevHash = false →
  fst (GetUndoPos pindex) ≠ -1 → 0 ≤ nHeight pindex < 2 ^ 30 → vtx block ≠ [] →
  block_path (nHeight pindex) 0 (vtx block) C us C' → read (GetUndoPos pindex) prevHash = Some (tail us) → stands s C' hash →
  ∃ s', DisconnectBlock usage read block pindex prev fLogEvents pfClean s =
    Some (DISCONNECT_OK, disconnect_events block pindex prev (negb pfClean && fLogEvents), s') ∧ stands s' C prevHash.
Proof.
  intros Hh Hph Hpn Hpos Hht Hne Hp Hread Hs. unfold DisconnectBlock. rewrite Hh, Hph. cbn [mbind option_bind].
  pose proof Hs as (Hok & HC & Hb). destruct (GetBestBlock_spec usage s Hok) as (s1 & -> & (Hok1 & Hc1 & Hb1) & _).
  rewrite bool_decide_eq_true_2 by done. cbn [negb]. rewrite (proj2 (Z.eqb_neq _ _) Hpos), Hread.
  pose proof (block_path_length _ _ _ _ _ _ Hp) as Hlen.
  assert (Hl : (length (tail us) + 1 = length (vtx block))%nat).
  { destruct us, (vtx block); cbn [length tail] in *; [done|done|done|lia]. }
  rewrite Hl, Nat.eqb_refl. cbn [negb].
  destruct (disconnect_txs_stands 0 (vtx block) (nHeight pindex) (tail us) us s1 C C' hash Hht Hp) as (s2 & -> & Hs2).
  - intros k u Hk Hpos'. destruct us as [|u0 us]; [done|]. destruct k as [|k]; [lia|]. by replace (0 + S k - 1)%nat with k by lia.
  - split_and!; [done| |by rewrite Hb1]. intros o. by rewrite Hc1.
  - cbn [mbind option_bind]. eexists. split; [reflexivity|]. by apply (SetBestBlock_stands _ _ hash).
Qed.

(** C21. Connecting a block and disconnecting it again gives back the set of coins.
    On any cache, for a block whose transactions spend distinct existing coins
    and create new ones, the part of [ConnectBlock] that works on the coins
    succeeds; with the undo information it returns, [DisconnectBlock] reports
    a clean result and leaves a well-formed cache with every coin, spent ones with their height and
    flags included, and the best block as they were before, after removing
    the block's index entries and resetting the contract roots. *)
Theorem connect_disconnect read block pindex prev hash prevHash s fLogEvents pfClean :
  cache_ok usage s → cache_best s = prevHash → phashBlock pindex = Some hash → phashBlock prev = Some prevHash →
  IsNull256 hash = false → IsNull256 prevHash = false → fst (GetUndoPos pindex) ≠ -1 → 0 ≤ nHeight pindex < 2 ^ 30 →
  vtx block ≠ [] → block_applies 0 (vtx block) (nHeight pindex) (cache_coins s) →
  ∃ vtxundo s1, connect_coins usage block hash (nHeight pindex) s = Some (vtxundo, s1) ∧ cache_ok usage s1 ∧ cache_best s1 = hash ∧
    (read (GetUndoPos pindex) prevHash = Some vtxundo →
     ∃ s2, DisconnectBlock usage read block pindex prev fLogEvents pfClean s1 =
             Some (DISCONNECT_OK, disconnect_events block pindex prev (negb pfClean && fLogEvents), s2) ∧
           cache_ok usage s2 ∧ (∀ o, cache_coins s2 o = cache_coins s o) ∧ cache_best s2 = cache_best s).
Proof.
  intros Hok Hbest Hh Hph Hn Hpn Hpos Hht Hne Hb.
  destruct (connect_txs_stands 0 (vtx block) (nHeight pindex) s (cache_coins s) prevHash) as (us & s' & C' & E & Hs' & Hp);
    [by split_and!|done|]. cbn [Nat.ltb Nat.leb] in E.
  pose proof (SetBestBlock_stands _ _ _ hash Hs' Hn) as Hs1.
  exists (tail us), (SetBestBlock hash s'). unfold connect_coins. rewrite E. split_and!; [done|apply Hs1|apply Hs1|].
  intros Hread.
  destruct (DisconnectBlock_stands read block pindex prev fLogEvents pfClean hash prevHash us _ C' _ Hh Hph Hpn Hpos Hht Hne Hp Hread Hs1)
    as (s2 & E2 & Hok2 & Hc2 & Hb2).
  exists s2. by rewrite Hbest.
Qed.
End Proofs.

(** ** A block with a coinbase and one spending transaction *)
Definition coinbase_example : CTransaction :=
  mkCTransaction 1 [mkCTxIn COutPoint_null [OP_1] 0xffffffff []] [mkCTxOut 50 [OP_1]; mkCTxOut 0 [OP_RETURN]] 0.
Definition spend_example : CTransaction :=
  mkCTransaction 1 [mkCTxIn (outpoint_example 0) [] 0xffffffff []] [mkCTxOut 4 [OP_1]; mkCTxOut 6 [OP_1]] 0.
Definition update_block_example : CBlock := mkBlock Header_null [coinbase_example; spend_example].
Definition txid_of (tx : CTransaction) : bytes := default [] (GetHash tx).
Definition index_of (hash : bytes) (height status : Z) : CBlockIndex :=
  mkIndex (Some hash) None None height 3 8 8 [] 2 2 status
    (mkIndexHeader 0 uint256_null 0 0 uint256_null uint256_null 0 0 0 [] [] [] [] []) uint256_null uint256_null 0 0 0.

Lemma txids_example :
  GetHash coinbase_example = Some (txid_of coinbase_example) ∧ GetHash spend_example = Some (txid_of spend_example) ∧
  txid_of spend_example ≠ txid_of coinbase_example ∧ txid_of spend_example ≠ replicate 32 7 ∧
  txid_of coinbase_example ≠ replicate 32 7.
Proof.
  assert (H : is_Some (GetHash coinbase_example) ∧ is_Some (GetHash spend_example)) by (vm_compute; split; by eexists).
  destruct H as [[h1 H1] [h2 H2]]. unfold txid_of. rewrite H1, H2. cbn [default].
  split; [done|]. split; [done|]. revert H1 H2. vm_compute. intros [= <-] [= <-]. done.
Qed.
Lemma update_block_applies : block_applies 0 (vtx update_block_example) 9 (plain_coins base_example).
Proof.
  destruct txids_example as (H1 & H2 & Hne & Hb2 & Hb1). revert H1 H2 Hne Hb2 Hb1.
  generalize (txid_of coinbase_example) (txid_of spend_example). intros t1 t2 H1 H2 Hne Hb2 Hb1. cbn [vtx update_block_example block_applies].
  exists (t1). split; [reflexivity|]. split.
  { split; [exact H1|by intros [=]|vm_compute; reflexivity|by apply (bool_decide_unpack _)|].
    - intros n. cbn. case_decide as Hd; [|done]. injection Hd as E _. by destruct Hb1. }
  exists (t2). split; [reflexivity|]. split; [|exact I].
  split; [exact H2| |vm_compute; reflexivity|by apply (bool_decide_unpack _)|].
  - intros _. split; [apply NoDup_singleton|]. constructor; [|constructor]. exists (coin_example 10).
    split; [|by split].
    unfold apply_tx. rewrite add_all_other; [reflexivity|]. intros k _ [= E _]. by destruct Hb1.
  - intros n. assert (Hn : plain_coins base_example (mkCOutPoint t2 n) = None).
    { cbn [plain_coins base_example]. case_decide as Hd; [|done]. injection Hd as E _. by destruct Hb2. }
    rewrite <- Hn. cbn [IsCoinBase]. etransitivity; [apply spend_all_notin|].
    + intros [E|[]%elem_of_nil]%elem_of_cons. injection E as E _. by destruct Hb2.
    + unfold apply_tx. rewrite add_all_other; [reflexivity|]. intros k _ [= E _]. by destruct Hne.
Qed.
Lemma connect_disconnect_witness :
  ∃ vtxundo s1 s2, connect_coins usage_example update_block_example (replicate 32 2) 9 (new_CCoinsViewCache base_example) = Some (vtxundo, s1) ∧
    vtxundo = [[coin_example 10]] ∧
    DisconnectBlock usage_example (λ _ _, Some [[coin_example 10]]) update_block_example (index_of (replicate 32 2) 9 BLOCK_HAVE_UNDO)
      (index_of (replicate 32 1) 8 0) true false s1
    = Some (DISCONNECT_OK, [EvSetRoot uint256_null; EvSetRootUTXO uint256_null; EvDeleteResults (vtx update_block_example);
              EvEraseHeightIndex 9; EvEraseStakeIndex 9], s2) ∧
    ∀ o, cache_coins s2 o = plain_coins base_example o.
Proof.
  assert (Hb : view_ok base_example) by (intros o c; cbn; case_decide; [by intros [= <-]|done]).
  pose proof (new_cache_represents usage_example base_example Hb) as (Hok & _).
  destruct (connect_disconnect usage_example eq_refl (λ _ _, Some [[coin_example 10]]) update_block_example
    (index_of (replicate 32 2) 9 BLOCK_HAVE_UNDO) (index_of (replicate 32 1) 8 0) (replicate 32 2) (replicate 32 1)
    (new_CCoinsViewCache base_example) true false Hok eq_refl eq_refl eq_refl eq_refl eq_refl ltac:(done) ltac:(by cbn) ltac:(done)
    update_block_applies) as (us & s1 & E & _ & _ & Hd).
  assert (Hus : us = [[coin_example 10]]).
  { assert (E' : fst <$> connect_coins usage_example update_block_example (replicate 32 2) 9 (new_CCoinsViewCache base_example)
      = Some [[coin_example 10]]) by (vm_compute; reflexivity).
    change 9 with (nHeight (index_of (replicate 32 2) 9 BLOCK_HAVE_UNDO)) in E'. rewrite E in E'. by injection E'. }
  destruct Hd as (s2 & E2 & _ & Hc & _); [by rewrite Hus|].
  exists us, s1, s2. split; [exact E|]. split; [exact Hus|]. split; [exact E2|exact Hc].
Defined.
