(* ===== verification/Pow.v ===== *)
(** * Consensus parameters and proof of work (src/src/consensus/params.h,
    chainparams.cpp, pow.cpp) *)

From stdpp Require Import base numbers list option gmap.
From Stdlib Require Import ZArith Lia ZifyNat ZifyBool.
From Stdlib Require String.
Import String.StringSyntax.
From S2P Require Import Prelude Endian StrEncodings ArithUint256 Compact Transaction Block BlockIndex.
Import Arith256.

(** ** Parameters *)
Inductive DeploymentPos := DEPLOYMENT_TESTDUMMY | DEPLOYMENT_CSV | DEPLOYMENT_SEGWIT.
Record BIP9Deployment := mkDeployment { bit : Z; nStartTime : Z; nTimeout : Z }.
Record Params := mkParams {
  hashGenesisBlock : bytes;
  nSubsidyHalvingInterval : Z;
  BIP34Height : Z;
  BIP34Hash : bytes;
  BIP65Height : Z;
  BIP66Height : Z;
  nRuleChangeActivationThreshold : Z;
  nMinerConfirmationWindow : Z;
  vDeployments : DeploymentPos → BIP9Deployment;
  powLimit : bytes;
  posLimit : bytes;
  fPowAllowMinDifficultyBlocks : bool;
  fPowNoRetargeting : bool;
  fPoSNoRetargeting : option bool;  (* [None]: left uninitialised *)
  nPowTargetSpacing : Z;
  nPowTargetTimespan : Z;
  nMinimumChainWork : bytes;
  defaultAssumeValid : bytes;
  nLastPOWBlock : Z;
  nFirstMPoSBlock : Z;
  nMPoSRewardRecipients : Z;
  nFixUTXOCacheHFHeight : Z }.
Definition DifficultyAdjustmentInterval (params : Params) : Z :=
  Z.quot (nPowTargetTimespan params) (nPowTargetSpacing params).

Definition COINBASE_MATURITY : Z := 500.

Definition main_deployments (d : DeploymentPos) : BIP9Deployment :=
  match d with
  | DEPLOYMENT_TESTDUMMY => mkDeployment 28 1199145601 1230767999
  | DEPLOYMENT_CSV => mkDeployment 0 0 999999999999
  | DEPLOYMENT_SEGWIT => mkDeployment 1 0 999999999999
  end.
Definition CMainParams : Params := {|
  nSubsidyHalvingInterval := 985500;
  BIP34Height := 0;
  BIP34Hash := uint256S (str "0x000018234c5e94f9df19e2f85b6354c0b9eff3d4b4a4a45418bc9712999d1dfc");
  BIP65Height := 0;
  BIP66Height := 0;
  powLimit := uint256S (str "0000ffffffffffffffffffffffffffffffffffffffffffffffffffffffffffff");
  posLimit := uint256S (str "00000000ffffffffffffffffffffffffffffffffffffffffffffffffffffffff");
  nPowTargetTimespan := 2 * 5 * 2016;
  nPowTargetSpacing := 2 * 5;
  fPowAllowMinDifficultyBlocks := false;
  fPowNoRetargeting := false;
  fPoSNoRetargeting := None;
  nRuleChangeActivationThreshold := 1916;
  nMinerConfirmationWindow := 2016;
  vDeployments := main_deployments;
  nMinimumChainWork := uint256S (str "0x00000000000000000000000000000000000000000000000000000000000000c5");
  defaultAssumeValid := uint256S (str "0xbfbbfc2c3be3d4e085082aff2e4e73a4e21dbf6205bc41b84b38ffac0a8bc114");
  hashGenesisBlock := uint256S (str "0x000018234c5e94f9df19e2f85b6354c0b9eff3d4b4a4a45418bc9712999d1dfc");
  nLastPOWBlock := 5000;
  nMPoSRewardRecipients := 10;
  nFirstMPoSBlock := 5000 + 10 + COINBASE_MATURITY;
  nFixUTXOCacheHFHeight := 100000 |}.
Definition CTestNetParams : Params := {|
  nSubsidyHalvingInterval := 985500;
  BIP34Height := 0;
  BIP34Hash := uint256S (str "0x000018234c5e94f9df19e2f85b6354c0b9eff3d4b4a4a45418bc9712999d1dfc");
  BIP65Height := 0;
  BIP66Height := 0;
  powLimit := uint256S (str "0000ffffffffffffffffffffffffffffffffffffffffffffffffffffffffffff");
  posLimit := uint256S (str "0000ffffffffffffffffffffffffffffffffffffffffffffffffffffffffffff");
  nPowTargetTimespan := 16 * 60;
  nPowTargetSpacing := 2 * 64;
  fPowAllowMinDifficultyBlocks := false;
  fPowNoRetargeting := true;
  fPoSNoRetargeting := Some false;
  nRuleChangeActivationThreshold := 1512;
  nMinerConfirmationWindow := 2016;
  vDeployments := main_deployments;
  nMinimumChainWork := uint256S (str "0x00000000000000000000000000000000000000000000000000000000000000c5");
  defaultAssumeValid := uint256S (str "0x39ffa0c5924550db0e75030ff8513c3145d491dff2e17b8e3ea1cea7b4662ff0");
  hashGenesisBlock := uint256S (str "0x000018234c5e94f9df19e2f85b6354c0b9eff3d4b4a4a45418bc9712999d1dfc");
  nLastPOWBlock := 5000;
  nMPoSRewardRecipients := 10;
  nFirstMPoSBlock := 5000 + 10 + COINBASE_MATURITY;
  nFixUTXOCacheHFHeight := 84500 |}.
Definition regtest_deployments (d : DeploymentPos) : BIP9Deployment :=
  match d with
  | DEPLOYMENT_TESTDUMMY => mkDeployment 28 0 999999999999
  | DEPLOYMENT_CSV => mkDeployment 0 0 999999999999
  | DEPLOYMENT_SEGWIT => mkDeployment 1 0 999999999999
  end.
Definition CRegTestParams : Params := {|
  nSubsidyHalvingInterval := 150;
  BIP34Height := 0;
  BIP34Hash := uint256S (str "0x000018234c5e94f9df19e2f85b6354c0b9eff3d4b4a4a45418bc9712999d1dfc");
  BIP65Height := 0;
  BIP66Height := 0;
  powLimit := uint256S (str "7fffffffffffffffffffffffffffffffffffffffffffffffffffffffffffffff");
  posLimit := uint256S (str "7fffffffffffffffffffffffffffffffffffffffffffffffffffffffffffffff");
  nPowTargetTimespan := 16 * 60;
  nPowTargetSpacing := 2 * 64;
  fPowAllowMinDifficultyBlocks := true;
  fPowNoRetargeting := true;
  fPoSNoRetargeting := Some true;
  nRuleChangeActivationThreshold := 108;
  nMinerConfirmationWindow := 144;
  vDeployments := regtest_deployments;
  nMinimumChainWork := uint256S (str "0x00");
  defaultAssumeValid := uint256S (str "0x00");
  hashGenesisBlock := uint256S (str "0x000018234c5e94f9df19e2f85b6354c0b9eff3d4b4a4a45418bc9712999d1dfc");
  nLastPOWBlock := 0x7fffffff;
  nMPoSRewardRecipients := 10;
  nFirstMPoSBlock := 5000;
  nFixUTXOCacheHFHeight := 0 |}.

(** ** pow.cpp *)

(** No entry is proof of stake. *)
Definition Index_IsProofOfStake (n : CBlockIndex) : bool := false.
Definition Index_IsProofOfWork (n : CBlockIndex) : bool := negb (Index_IsProofOfStake n).

Fixpoint GetLastBlockIndex_loop (h : heap) (fuel : nat) (pindex : ptr) (fProofOfStake : bool) : option ptr :=
  n ← h !! pindex;
  match pprev n with
  | None => Some pindex
  | Some q =>
      if eqb (Index_IsProofOfStake n) fProofOfStake then Some pindex
      else match fuel with O => None | S fuel' => GetLastBlockIndex_loop h fuel' q fProofOfStake end
  end.
Definition GetLastBlockIndex (h : heap) (pindex : option ptr) (fProofOfStake : bool) : option (option ptr) :=
  match pindex with
  | None => Some None
  | Some p => n ← h !! p; r ← GetLastBlockIndex_loop h (Z.to_nat (nHeight n)) p fProofOfStake; Some (Some r)
  end.

Definition GetLimit (params : Params) (fProofOfStake : bool) : list Z :=
  if fProofOfStake then UintToArith256 (posLimit params) else UintToArith256 (powLimit params).

Definition clamp_timespan (nTargetTimeSpacing nActualTimeSpacing : Z) : Z :=
  let t := if nActualTimeSpacing <? Z.quot nTargetTimeSpacing 4 then Z.quot nTargetTimeSpacing 4 else nActualTimeSpacing in
  if t >? nTargetTimeSpacing * 4 then nTargetTimeSpacing * 4 else t.

(** [bnNew *= nActualTimeSpacing] is the 32-bit multiplication, the division
    goes through the constructor from 64 bits. *)
Definition CalculateNextWorkRequired (last : CBlockIndex) (nFirstBlockTime : Z) (params : Params) : option Z :=
  if fPowNoRetargeting params then Some (IndexBits last)
  else
    let nTargetTimeSpacing := nPowTargetTimespan params in
    let nActualTimeSpacing := clamp_timespan nTargetTimeSpacing (IndexTime last - nFirstBlockTime) in
    let bnTargetLimit := UintToArith256 (powLimit params) in
    let bnNew := fst (fst (SetCompact (IndexBits last))) in
    let bnNew := mul32 bnNew (u32 nActualTimeSpacing) in
    bnNew ← div bnNew (of_uint64 (u64 nTargetTimeSpacing));
    let bnNew := if (CompareTo bnNew (of_uint64 0) <=? 0) || (0 <? CompareTo bnNew bnTargetLimit)
                 then bnTargetLimit else bnNew in
    GetCompact bnNew false.

Fixpoint last_non_min (h : heap) (fuel : nat) (interval nTargetLimit : Z) (pindex : ptr) : option Z :=
  n ← h !! pindex;
  match pprev n with
  | Some q =>
      if negb (Z.rem (nHeight n) interval =? 0) && (IndexBits n =? nTargetLimit) then
        match fuel with O => None | S fuel' => last_non_min h fuel' interval nTargetLimit q end
      else Some (IndexBits n)
  | None => Some (IndexBits n)
  end.

Definition GetNextWorkRequired (h : heap) (pindexLast : ptr) (block : CBlockHeader) (params : Params) : option Z :=
  nTargetLimit ← GetCompact (UintToArith256 (powLimit params)) false;
  n ← h !! pindexLast;
  let interval := DifficultyAdjustmentInterval params in
  if negb (Z.rem (nHeight n + 1) interval =? 0) then
    if fPowAllowMinDifficultyBlocks params then
      if nTime (old block) >? IndexTime n + nPowTargetSpacing params * 2 then Some nTargetLimit
      else last_non_min h (Z.to_nat (nHeight n)) interval nTargetLimit pindexLast
    else Some (IndexBits n)
  else
    let nChangeFirst := i32 (nHeight n - (interval - 1)) in
    if negb (nChangeFirst >=? 0) then None
    else
      first ← GetAncestor h pindexLast nChangeFirst;
      match first with
      | None => None
      | Some f => nf ← h !! f; CalculateNextWorkRequired n (IndexTime nf) params
      end.

Definition CheckProofOfWork (hash : bytes) (nBits : Z) (params : Params) : bool :=
  let '(bnTarget, fNegative, fOverflow) := SetCompact nBits in
  if fNegative || EqualTo bnTarget 0 || fOverflow || (0 <? CompareTo bnTarget (UintToArith256 (powLimit params)))
  then false
  else if 0 <? CompareTo (UintToArith256 hash) bnTarget then false
  else true.

(** ** Proofs *)

(** A 32-byte blob as a number. *)
Definition number (b : bytes) : Z := from_digits 256 b.
Definition blob (b : bytes) : Prop := bytes_ok b ∧ length b = 32%nat.

Lemma number_bound b : blob b → 0 ≤ number b < 2 ^ 256.
Proof.
  intros [Hb Hl]. pose proof (from_digits_bound 256 ltac:(lia) b Hb) as H. rewrite Hl in H. exact H.
Qed.

Lemma limit_spec b : blob b → ok (UintToArith256 b) ∧ val (UintToArith256 b) = number b.
Proof. intros [Hb Hl]. by apply UintToArith256_spec. Qed.

Lemma clamp_timespan_spec T a :
  0 < T → clamp_timespan T a = Z.max (T / 4) (Z.min a (T * 4)).
Proof.
  intros HT. unfold clamp_timespan. rewrite Z.quot_div_nonneg by lia.
  assert (T / 4 ≤ T * 4) by zlin.
  set (q := T / 4) in *. clearbody q. cbv zeta.
  destruct (Z.ltb_spec a q); [destruct (q >? T * 4) eqn:E|destruct (a >? T * 4) eqn:E]; lia.
Qed.

Lemma GetCompact_of a : ok a → GetCompact a false = Some (Compact.compact_of (val a)).
Proof. intros Ha. rewrite Compact.GetCompact_closed by done. f_equal. cbn [andb]. lia. Qed.

(** The retargeting rule on numbers. *)
Definition retarget (limit target span T : Z) : Z :=
  let t := target * span mod 2 ^ 256 / T in
  if (t =? 0) || (limit <? t) then limit else t.

Lemma CalculateNextWorkRequired_spec last first params :
  fPowNoRetargeting params = false → is_u32 (IndexBits last) → blob (powLimit params) →
  0 < nPowTargetTimespan params < 2 ^ 30 →
  CalculateNextWorkRequired last first params =
  Some (Compact.compact_of (retarget (number (powLimit params)) (Compact.compact_value (IndexBits last) mod 2 ^ 256)
    (clamp_timespan (nPowTargetTimespan params) (IndexTime last - first)) (nPowTargetTimespan params))).
Proof.
  intros Hn Hb Hl HT. unfold CalculateNextWorkRequired. rewrite Hn.
  pose proof (Compact.SetCompact_closed _ Hb) as HS.
  destruct (SetCompact (IndexBits last)) as [[t fN] fO]. destruct HS as (Hok & Hv & _). cbn [fst].
  set (T := nPowTargetTimespan params) in *. set (span := clamp_timespan T (IndexTime last - first)).
  assert (Hspan : is_u32 span).
  { unfold span. rewrite clamp_timespan_spec by lia. unfold is_u32. zlin. }
  rewrite (u32_small span), (u64_small T) by (done || word_lia).
  pose proof (mul32_ok t span Hok) as Hmok. pose proof (mul32_val t span Hok Hspan) as Hmv. rewrite Hv in Hmv.
  pose proof (of_uint64_ok T) as HTok. assert (HTv : val (of_uint64 T) = T) by (apply val_of_uint64; word_lia).
  pose proof (div_spec _ _ Hmok HTok) as Hd. destruct (div (mul32 t span) (of_uint64 T)) as [q|]; [|lia].
  destruct Hd as (Hqok & _ & Hq). cbn [mbind option_bind]. destruct (limit_spec _ Hl) as [Hlok Hlv].
  rewrite HTv, Hmv in Hq. pose proof (of_uint64_ok 0) as H0ok.
  assert (H0v : val (of_uint64 0) = 0) by (apply val_of_uint64; word_lia).
  rewrite CompareTo_le, CompareTo_gt, H0v, Hlv by done. pose proof (ok_bound q Hqok) as Hqb.
  unfold retarget. rewrite <- Hq.
  replace (val q <=? 0) with (val q =? 0) by lia.
  destruct (_ || _); rewrite GetCompact_of by done; by rewrite ?Hlv.
Qed.

Lemma retarget_no_overflow limit target span T :
  0 ≤ target * span < 2 ^ 256 →
  retarget limit target span T =
  (let t := target * span / T in if (t =? 0) || (limit <? t) then limit else t).
Proof. intros H. unfold retarget. by rewrite (Z.mod_small (target * span)) by done. Qed.

Lemma retarget_range limit target span T :
  0 < limit → 0 < T → 0 < retarget limit target span T ≤ limit.
Proof.
  intros Hl HT. unfold retarget. set (p := (target * span) mod 2 ^ 256).
  assert (0 ≤ p / T) by (apply Z.div_pos; [apply Z.mod_pos_bound; lia|done]).
  destruct (Z.eqb_spec (p / T) 0); cbn [orb]; [lia|]. destruct (Z.ltb_spec limit (p / T)); lia.
Qed.

(** Truncation to the compact precision lowers a positive target, not to zero. *)
Lemma compact_truncated v :
  0 < v → 0 < Compact.compact_value (Compact.compact_of v) ≤ v.
Proof.
  intros Hv. rewrite Compact.compact_value_of by lia.
  assert (Hu : 0 < Compact.compact_ulp v ≤ v).
  { unfold Compact.compact_ulp. destruct (Z.leb_spec (Compact.compact_size v) 3) as [H3|H3]; [lia|].
    rewrite Compact.pow256 by lia. split; [apply Z.pow_pos_nonneg; lia|].
    destruct (bit_length_pos v Hv) as [Hb _]. etrans; [|exact Hb]. apply Z.pow_le_mono_r; [lia|].
    unfold Compact.compact_size in *. destruct (v =? 0); zlin. }
  pose proof (Z.mod_pos_bound v (Compact.compact_ulp v) ltac:(lia)).
  pose proof (Z.mod_le v (Compact.compact_ulp v) ltac:(lia) ltac:(lia)).
  assert (v mod Compact.compact_ulp v ≠ v) by lia. lia.
Qed.

Lemma GetLastBlockIndex_pow h p n :
  h !! p = Some n → GetLastBlockIndex h (Some p) false = Some (Some p).
Proof.
  intros Hp. unfold GetLastBlockIndex. rewrite Hp. cbn [mbind option_bind].
  destruct (Z.to_nat (nHeight n)); cbn [GetLastBlockIndex_loop]; rewrite Hp; cbn; by destruct (pprev n).
Qed.

(** The walk over minimum-difficulty blocks: the first ancestor that is the
    root, starts an interval or has another target. *)
Lemma last_non_min_spec h fuel interval limit p n :
  linked h → h !! p = Some n → (Z.to_nat (nHeight n) ≤ fuel)%nat →
  ∃ k q m, last_non_min h fuel interval limit p = Some (IndexBits m) ∧ up h k p = Some q ∧ h !! q = Some m ∧
    (pprev m = None ∨ Z.rem (nHeight m) interval = 0 ∨ IndexBits m ≠ limit) ∧
    ∀ j r l, (j < k)%nat → up h j p = Some r → h !! r = Some l →
      pprev l ≠ None ∧ Z.rem (nHeight l) interval ≠ 0 ∧ IndexBits l = limit.
Proof.
  intros Hh. revert p n. induction fuel as [|fuel IH]; intros p n Hp Hf; cbn [last_non_min]; rewrite Hp; cbn [mbind option_bind];
    pose proof (nl_height _ _ _ (Hh p n Hp));
    (destruct (pprev n) as [q|] eqn:Eq; [|exists 0%nat, p, n; split_and!; try done; [by left|lia]]);
    destruct (nl_parent _ _ _ (Hh p n Hp) q Eq) as (m & Hm & Hmh); pose proof (nl_height _ _ _ (Hh q m Hm)); [lia|].
  destruct (negb (Z.rem (nHeight n) interval =? 0) && (IndexBits n =? limit)) eqn:Ec.
  2:{ exists 0%nat, p, n. split_and!; try done; [lia|lia]. }
  destruct (IH q m Hm ltac:(lia)) as (k & r & l & E1 & E2 & E3 & E4 & E5).
  assert (Hup : ∀ j, up h (S j) p = up h j q) by (intros j; cbn [up]; rewrite Hp; cbn [mbind option_bind]; by rewrite Eq).
  exists (S k), r, l. rewrite Hup. split_and!; try done.
  intros [|j] r' l' Hj Hr Hl; [|rewrite Hup in Hr; apply (E5 j r' l'); (done || lia)].
  cbn [up] in Hr. injection Hr as <-. replace l' with n by congruence. split; [congruence|lia].
Qed.

(** ** Properties *)

(** The proof-of-work check.  For a 32-byte hash and limit, the check
    accepts exactly when the compact target has no sign bit, decodes to a
    positive number within the limit, and the hash read as a little-endian
    number is at most that target: overflowing encodings are rejected. *)
Theorem CheckProofOfWork_correct (hash : bytes) (c : Z) (params : Params) :
  is_u32 c → blob hash → blob (powLimit params) →
  let target := Compact.compact_value c in
  CheckProofOfWork hash c params = true ↔
  Z.testbit c 23 = false ∧ 0 < target ≤ number (powLimit params) ∧ number hash ≤ target.
Proof.
  intros Hc Hh Hl target. unfold CheckProofOfWork. pose proof (Compact.SetCompact_closed c Hc) as HS.
  destruct (SetCompact c) as [[t fN] fO]. destruct HS as (Hok & Hv & HN & HO). fold target in Hv, HN, HO.
  destruct (limit_spec _ Hh) as [Hhok Hhv]. destruct (limit_spec _ Hl) as [Hlok Hlv].
  pose proof (compact_value_range c Hc) as H0. fold target in H0. pose proof (number_bound _ Hl).
  rewrite EqualTo_spec, !CompareTo_gt, Hhv, Hlv by (done || word_lia). rewrite HN, HO, Hv.
  destruct (Z.leb_spec (2 ^ 256) target).
  { rewrite orb_true_r. cbn [orb]. split; [done|lia]. }
  rewrite Z.mod_small by lia. destruct (Z.testbit c 23); cbn [negb andb orb].
  - destruct (Z.eqb_spec target 0); cbn [negb andb orb]; (split; [done|lia]).
  - rewrite andb_false_r, orb_false_r. cbn [orb]. destruct (Z.eqb_spec target 0); cbn [orb]; [split; [done|lia]|].
    destruct (Z.ltb_spec (number (powLimit params)) target); [split; [done|lia]|].
    destruct (Z.ltb_spec target (number hash)); (split; [done || lia|done || lia]).
Qed.

Lemma blob_uint256S x : blob (uint256S x).
Proof. destruct (SetHex_value 32 x) as (Hl & Hb & _). by split. Qed.

Lemma CheckProofOfWork_correct_witness :
  let hash := uint256S (str "0x000018234c5e94f9df19e2f85b6354c0b9eff3d4b4a4a45418bc9712999d1dfc") in
  CheckProofOfWork hash 0x1f00ffff CMainParams = true ∧
  (CheckProofOfWork hash 0x1f00ffff CMainParams = true ↔
   Z.testbit 0x1f00ffff 23 = false ∧
   0 < Compact.compact_value 0x1f00ffff ≤ number (powLimit CMainParams) ∧
   number hash ≤ Compact.compact_value 0x1f00ffff).
Proof.
  intros hash. split; [vm_compute; reflexivity|].
  apply (CheckProofOfWork_correct hash 0x1f00ffff CMainParams); [word_lia|apply blob_uint256S|apply blob_uint256S].
Defined.

(** C29. The required work.  Off the adjustment boundary the next target is the
    last one (on networks with minimum-difficulty blocks: the limit after a
    long delay, otherwise the target of the nearest block that is the first of the chain, starts an interval or has another
    target than the limit).  On the boundary, without retargeting it is the last one; otherwise it is computed from the time
    since the first block of the interval, clamped to a factor four; when the
    product of target and time fits 256 bits it is the exactly scaled target,
    capped by the limit, in compact form: positive and within the limit. *)
Theorem GetNextWorkRequired_correct (h : heap) (p : ptr) (n : CBlockIndex) (block : CBlockHeader) (params : Params) :
  linked h → h !! p = Some n → nHeight n < 2147483647 → is_u32 (IndexBits n) → blob (powLimit params) →
  0 < number (powLimit params) → 0 < nPowTargetTimespan params < 2 ^ 30 →
  0 < nPowTargetSpacing params ≤ nPowTargetTimespan params →
  let limit := number (powLimit params) in
  let interval := nPowTargetTimespan params / nPowTargetSpacing params in
  (Z.rem (nHeight n + 1) interval ≠ 0 → fPowAllowMinDifficultyBlocks params = false →
   GetNextWorkRequired h p block params = Some (IndexBits n)) ∧
  (Z.rem (nHeight n + 1) interval ≠ 0 → fPowAllowMinDifficultyBlocks params = true →
   if IndexTime n + nPowTargetSpacing params * 2 <? nTime (old block)
   then GetNextWorkRequired h p block params = Some (Compact.compact_of limit)
   else ∃ k q m, GetNextWorkRequired h p block params = Some (IndexBits m) ∧ up h k p = Some q ∧ h !! q = Some m ∧
     (pprev m = None ∨ Z.rem (nHeight m) interval = 0 ∨ IndexBits m ≠ Compact.compact_of limit) ∧
     ∀ j r l, (j < k)%nat → up h j p = Some r → h !! r = Some l →
       pprev l ≠ None ∧ Z.rem (nHeight l) interval ≠ 0 ∧ IndexBits l = Compact.compact_of limit) ∧
  (Z.rem (nHeight n + 1) interval = 0 → fPowNoRetargeting params = true →
   GetNextWorkRequired h p block params = Some (IndexBits n)) ∧
  (Z.rem (nHeight n + 1) interval = 0 → fPowNoRetargeting params = false →
   ∃ f nf c, up h (Z.to_nat (interval - 1)) p = Some f ∧ h !! f = Some nf ∧
     GetNextWorkRequired h p block params = Some c ∧
     (let target := Compact.compact_value (IndexBits n) in
      let span := Z.max (nPowTargetTimespan params / 4)
                    (Z.min (IndexTime n - IndexTime nf) (nPowTargetTimespan params * 4)) in
      target < 2 ^ 256 → target * span < 2 ^ 256 →
      let scaled := target * span / nPowTargetTimespan params in
      c = Compact.compact_of (if (scaled =? 0) || (limit <? scaled) then limit else scaled)) ∧
     0 < Compact.compact_value c ≤ limit).
Proof.
  intros Hh Hp Hheight Hbits Hl Hpos HT HS limit interval. destruct (limit_spec _ Hl) as [Hlok Hlv].
  pose proof (nl_height _ _ _ (Hh p n Hp)) as Hn0.
  unfold GetNextWorkRequired. rewrite GetCompact_of, Hlv, Hp by done. cbn [mbind option_bind].
  unfold DifficultyAdjustmentInterval. rewrite Z.quot_div_nonneg by lia. fold interval. fold limit.
  assert (Hi : 1 ≤ interval ≤ nPowTargetTimespan params).
  { unfold interval. split; [apply Z.div_le_lower_bound; lia|]. apply Z.div_le_upper_bound; nia. }
  assert (Hboundary : Z.rem (nHeight n + 1) interval = 0 → ∃ f nf, up h (Z.to_nat (interval - 1)) p = Some f ∧ h !! f = Some nf ∧
    (if negb (Z.rem (nHeight n + 1) interval =? 0) then
       if fPowAllowMinDifficultyBlocks params then
         if nTime (old block) >? IndexTime n + nPowTargetSpacing params * 2 then Some (Compact.compact_of limit)
         else last_non_min h (Z.to_nat (nHeight n)) interval (Compact.compact_of limit) p
       else Some (IndexBits n)
     else if negb (i32 (nHeight n - (interval - 1)) >=? 0) then None
     else first ← GetAncestor h p (i32 (nHeight n - (interval - 1)));
       match first with None => None | Some f => nf ← h !! f; CalculateNextWorkRequired n (IndexTime nf) params end) =
    CalculateNextWorkRequired n (IndexTime nf) params).
  { intros Hr. rewrite Hr. cbn [Z.eqb negb].
    assert (Hge : interval ≤ nHeight n + 1).
    { rewrite Z.rem_mod_nonneg in Hr by lia. apply Z.divide_pos_le; [lia|]. by apply Z.mod_divide; [lia|]. }
    rewrite i32_small by lia. replace (nHeight n - (interval - 1) >=? 0) with true by lia. cbn [negb].
    rewrite (GetAncestor_spec h Hh p n _ Hp). replace (_ && _) with true by lia. cbn [mbind option_bind].
    replace (nHeight n - (nHeight n - (interval - 1))) with (interval - 1) by lia.
    destruct (up_height h Hh (Z.to_nat (interval - 1)) p n Hp ltac:(lia)) as (f & nf & E1 & E2 & _).
    exists f, nf. rewrite E1. cbn [mbind option_bind]. by rewrite E2. }
  split_and!.
  - intros Hr Hm. rewrite (proj2 (Z.eqb_neq _ _) Hr), Hm. done.
  - intros Hr Hm. rewrite (proj2 (Z.eqb_neq _ _) Hr), Hm. cbn [negb]. rewrite Z.gtb_ltb.
    destruct (_ <? _); [done|].
    destruct (last_non_min_spec h (Z.to_nat (nHeight n)) interval (Compact.compact_of limit) p n Hh Hp ltac:(lia))
      as (k & q & m & E1 & E2 & E3 & E4 & E5). exists k, q, m. by rewrite E1.
  - intros Hr Hm. destruct (Hboundary Hr) as (f & nf & _ & _ & ->). unfold CalculateNextWorkRequired. by rewrite Hm.
  - intros Hr Hm. destruct (Hboundary Hr) as (f & nf & E1 & E2 & ->). rewrite CalculateNextWorkRequired_spec, clamp_timespan_spec by (done || lia).
    exists f, nf. eexists. split; [done|]. split; [done|]. split; [done|]. split.
    + intros Hov1 Hov2. pose proof (compact_value_range _ Hbits) as H0.
      set (target := Compact.compact_value (IndexBits n)) in *. set (span := Z.max _ _) in *.
      rewrite Z.mod_small by lia. rewrite retarget_no_overflow; [done|]. split; [|done].
      apply Z.mul_nonneg_nonneg; [lia|]. unfold span. pose proof (Z.div_pos (nPowTargetTimespan params) 4). lia.
    + set (r := retarget _ _ _ _). assert (Hr' : 0 < r ≤ limit) by (apply retarget_range; [done|lia]).
      pose proof (compact_truncated r ltac:(lia)). lia.
Qed.

(** The fifteenth block of a regtest-like interval of two blocks. *)
Definition set_spacing (params : Params) (limit : bytes) (window threshold : Z) (d : DeploymentPos → BIP9Deployment) : Params :=
  mkParams (hashGenesisBlock params) 150 0 (BIP34Hash params) 0 0 threshold window d limit (posLimit params)
    false false None 64 128 (nMinimumChainWork params) (defaultAssumeValid params) 5000 5000 10 0.
Definition params_example : Params :=
  set_spacing CRegTestParams (uint256S (str "ffffffffffffffffffffffffffffffffffffffffffffffffffffffff")) 144 108 regtest_deployments.

Lemma GetNextWorkRequired_correct_witness :
  GetNextWorkRequired heap_example 4 header_example params_example = Some 0x1d00ffff ∧
  ∃ f nf c, up heap_example 1 4 = Some f ∧ heap_example !! f = Some nf ∧ GetNextWorkRequired heap_example 4 header_example params_example = Some c ∧
    0 < Compact.compact_value c ≤ number (powLimit params_example).
Proof.
  split; [vm_compute; reflexivity|].
  destruct (GetNextWorkRequired_correct heap_example 4 (node_at 3 (Some 3%positive) (Some 2%positive) 40) header_example params_example) as (_ & _ & _ & H).
  - exact heap_example_linked.
  - reflexivity.
  - reflexivity.
  - cbn. word_lia.
  - apply blob_uint256S.
  - vm_compute. reflexivity.
  - cbn. lia.
  - cbn. lia.
  - destruct (H eq_refl eq_refl) as (f & nf & c & H1 & H2 & H3 & _ & H4). exists f, nf, c. split; [exact H1|]. split; [exact H2|]. split; [exact H3|exact H4].
Defined.

(** C40. On the main network the product overflows 256 bits: after an interval
    at the easiest target that took 65538 seconds or more, over three times the
    20160 intended, the new target is smaller than the old one, so the
    difficulty rises where the rule means it to stay at its minimum. *)
Theorem mainnet_retarget_overflow (last : CBlockIndex) (first : Z) :
  IndexBits last = 0x1f00ffff → 65538 ≤ IndexTime last - first →
  ∃ c, CalculateNextWorkRequired last first CMainParams = Some c ∧
    Compact.compact_value c < Compact.compact_value 0x1f00ffff.
Proof.
  intros Hb Ht. rewrite CalculateNextWorkRequired_spec.
  - eexists. split; [done|]. rewrite Hb. set (T := nPowTargetTimespan CMainParams). change T with 20160.
    rewrite clamp_timespan_spec by lia. set (span := Z.max _ _).
    assert (Hspan : 65538 ≤ span ≤ 80640) by (unfold span; change (20160 / 4) with 5040; lia).
    change (Compact.compact_value 0x1f00ffff mod 2 ^ 256) with (65535 * 2 ^ 224).
    change (Compact.compact_value 0x1f00ffff) with (65535 * 2 ^ 224).
    assert (Hmod : (65535 * 2 ^ 224 * span) mod 2 ^ 256 = (65535 * span - 2 ^ 32) * 2 ^ 224).
    { symmetry. apply (Z.mod_unique_pos _ _ 1); lia. }
    unfold retarget. rewrite Hmod. set (t := (65535 * span - 2 ^ 32) * 2 ^ 224 / 20160).
    assert (Htb : 0 < t < 65535 * 2 ^ 224).
    { unfold t. split; [apply Z.div_str_pos; lia|]. apply Z.div_lt_upper_bound; lia. }
    change (number (powLimit CMainParams)) with (2 ^ 240 - 1).
    destruct (Z.eqb_spec t 0); [lia|]. cbn [orb]. destruct (Z.ltb_spec (2 ^ 240 - 1) t); [lia|].
    pose proof (compact_truncated t ltac:(lia)). lia.
  - done.
  - rewrite Hb. word_lia.
  - apply blob_uint256S.
  - cbn. lia.
Qed.

Lemma mainnet_retarget_overflow_witness :
  IndexTime (node_at 2015 None None 65538) = 65538 ∧
  ∃ c, CalculateNextWorkRequired (node_at 2015 None None 65538) 0 CMainParams = Some c ∧
    Compact.compact_value c < Compact.compact_value 0x1f00ffff.
Proof. split; [reflexivity|]. apply (mainnet_retarget_overflow (node_at 2015 None None 65538) 0); cbn; (reflexivity || lia). Defined.
