(* ===== verification/VersionBits.v ===== *)
(** * Version bits (src/src/versionbits.h and .cpp, ComputeBlockVersion of
    validation.cpp)

    The BIP 9 state machine over confirmation periods, with its cache.  The
    abstract checker class of the source is a type class; the deployments of
    the consensus parameters are its instances.  The reference is the uncached
    state machine, one step per period from the genesis block. *)

From stdpp Require Import base numbers list option gmap sorting.
From Stdlib Require Import ZArith Lia ZifyNat ZifyBool.
From S2P Require Import Prelude Block BlockIndex Pow.

Definition VERSIONBITS_TOP_BITS : Z := 0x20000000.
Definition VERSIONBITS_TOP_MASK : Z := i32 0xE0000000.

Inductive ThresholdState :=
  | THRESHOLD_DEFINED | THRESHOLD_STARTED | THRESHOLD_LOCKED_IN | THRESHOLD_ACTIVE | THRESHOLD_FAILED.
#[global] Instance ThresholdState_eq_dec : EqDecision ThresholdState.
Proof. solve_decision. Defined.

(** [AbstractThresholdConditionChecker]: the virtual functions. *)
Class ThresholdConditionChecker := {
  Condition : CBlockIndex → bool;
  BeginTime : Z;
  EndTime : Z;
  Period : Z;
  Threshold : Z;
}.

(** Keyed by the parent of the first block of a period; [None] is the null
    pointer, the parent of the genesis block. *)
Abbreviation ThresholdConditionCache := (gmap (option ptr) ThresholdState).

Section Checker.
Context {TC : ThresholdConditionChecker}.

(** The parent of the first block of the period of [p]'s successor. *)
Definition period_parent (h : heap) (p : ptr) : option (option ptr) :=
  n ← h !! p; GetAncestor h p (nHeight n - Z.rem (nHeight n + 1) Period).

Fixpoint walk_back (h : heap) (fuel : nat) (cache : ThresholdConditionCache) (pindexPrev : option ptr) (vToCompute : list ptr)
    : option (ThresholdConditionCache * option ptr * list ptr) :=
  match cache !! pindexPrev with
  | Some _ => Some (cache, pindexPrev, vToCompute)
  | None =>
      match pindexPrev with
      | None => Some (<[None := THRESHOLD_DEFINED]> cache, None, vToCompute)
      | Some b =>
          med ← GetMedianTimePast h b;
          if med <? BeginTime then Some (<[Some b := THRESHOLD_DEFINED]> cache, Some b, vToCompute)
          else match fuel with
               | O => None
               | S fuel' =>
                   n ← h !! b;
                   prev ← GetAncestor h b (nHeight n - Period);
                   walk_back h fuel' cache prev (b :: vToCompute)
               end
      end
  end.

(** The counting loop; a null pointer is a crash. *)
Fixpoint count_conditions (h : heap) (k : nat) (pindexCount : option ptr) : option Z :=
  match k with
  | O => Some 0
  | S k' =>
      p ← pindexCount; n ← h !! p;
      count ← count_conditions h k' (pprev n);
      Some ((if Condition n then 1 else 0) + count)
  end.

Definition next_state (h : heap) (state : ThresholdState) (pindexPrev : ptr) : option ThresholdState :=
  match state with
  | THRESHOLD_DEFINED =>
      med ← GetMedianTimePast h pindexPrev;
      Some (if med >=? EndTime then THRESHOLD_FAILED
            else if med >=? BeginTime then THRESHOLD_STARTED else THRESHOLD_DEFINED)
  | THRESHOLD_STARTED =>
      med ← GetMedianTimePast h pindexPrev;
      if med >=? EndTime then Some THRESHOLD_FAILED
      else count ← count_conditions h (Z.to_nat Period) (Some pindexPrev);
           Some (if count >=? Threshold then THRESHOLD_LOCKED_IN else THRESHOLD_STARTED)
  | THRESHOLD_LOCKED_IN => Some THRESHOLD_ACTIVE
  | THRESHOLD_FAILED => Some THRESHOLD_FAILED
  | THRESHOLD_ACTIVE => Some THRESHOLD_ACTIVE
  end.

Fixpoint walk_forward (h : heap) (cache : ThresholdConditionCache) (state : ThresholdState) (vToCompute : list ptr)
    : option (ThresholdState * ThresholdConditionCache) :=
  match vToCompute with
  | [] => Some (state, cache)
  | b :: rest =>
      stateNext ← next_state h state b;
      walk_forward h (<[Some b := stateNext]> cache) stateNext rest
  end.

Definition GetStateFor (h : heap) (pindexPrev : option ptr) (cache : ThresholdConditionCache)
    : option (ThresholdState * ThresholdConditionCache) :=
  start ← (match pindexPrev with Some p => period_parent h p | None => Some None end);
  let fuel := match start with Some b => match h !! b with Some n => Z.to_nat (nHeight n + 1) | None => 0%nat end | None => 0%nat end in
  '(cache, q, vToCompute) ← walk_back h fuel cache start [];
  state ← cache !! q;
  walk_forward h cache state vToCompute.

Record BIP9Stats := mkStats { st_period : Z; st_threshold : Z; st_elapsed : Z; st_count : Z; st_possible : bool }.
Fixpoint count_since (h : heap) (fuel : nat) (endHeight : Z) (currentIndex : option ptr) : option Z :=
  p ← currentIndex; n ← h !! p;
  if nHeight n =? endHeight then Some 0
  else match fuel with
       | O => None
       | S fuel' => count ← count_since h fuel' endHeight (pprev n); Some ((if Condition n then 1 else 0) + count)
       end.
Definition GetStateStatisticsFor (h : heap) (pindex : option ptr) : option BIP9Stats :=
  match pindex with
  | None => Some (mkStats Period Threshold 0 0 false)
  | Some p =>
      n ← h !! p;
      e ← period_parent h p;
      pe ← e; ne ← h !! pe;
      let elapsed := nHeight n - nHeight ne in
      count ← count_since h (Z.to_nat elapsed) (nHeight ne) (Some p);
      Some (mkStats Period Threshold elapsed count (Period - Threshold >=? elapsed - count))
  end.

Fixpoint since_loop (h : heap) (fuel : nat) (initialState : ThresholdState) (pindexPrev : ptr)
    (previousPeriodParent : option ptr) (cache : ThresholdConditionCache) : option (Z * ThresholdConditionCache) :=
  match previousPeriodParent with
  | None => n ← h !! pindexPrev; Some (nHeight n + 1, cache)
  | Some q =>
      '(s, cache) ← GetStateFor h (Some q) cache;
      if decide (s = initialState) then
        match fuel with
        | O => None
        | S fuel' => nq ← h !! q; next ← GetAncestor h q (nHeight nq - Period); since_loop h fuel' initialState q next cache
        end
      else n ← h !! pindexPrev; Some (nHeight n + 1, cache)
  end.
Definition GetStateSinceHeightFor (h : heap) (pindexPrev : option ptr) (cache : ThresholdConditionCache)
    : option (Z * ThresholdConditionCache) :=
  '(initialState, cache) ← GetStateFor h pindexPrev cache;
  if decide (initialState = THRESHOLD_DEFINED) then Some (0, cache)
  else
    p ← pindexPrev;
    start ← period_parent h p;
    b ← start; n ← h !! b;
    prev ← GetAncestor h b (nHeight n - Period);
    since_loop h (Z.to_nat (nHeight n)) initialState b prev cache.

(** ** Reference: one step per period, no cache *)

Fixpoint ref_state (h : heap) (shortcut : bool) (k : nat) (p : option ptr) : option ThresholdState :=
  match p with
  | None => Some THRESHOLD_DEFINED
  | Some b =>
      match k with
      | O => None
      | S k' =>
          med ← GetMedianTimePast h b;
          if shortcut && (med <? BeginTime) then Some THRESHOLD_DEFINED
          else s ← ref_state h shortcut k' (up h (Z.to_nat Period) b); next_state h s b
      end
  end.

(** The state of the blocks after the period boundary [p]: the number of steps
    is the number of whole periods up to [p]. *)
Definition boundary_state (h : heap) (shortcut : bool) (p : option ptr) : option ThresholdState :=
  match p with
  | None => Some THRESHOLD_DEFINED
  | Some b => n ← h !! b; ref_state h shortcut (Z.to_nat ((nHeight n + 1) / Period)) p
  end.
End Checker.

(** ** The deployments *)
Definition VersionBitsMask (params : Params) (pos : DeploymentPos) : Z :=
  u32 (Z.shiftl 1 (bit (vDeployments params pos))).

#[global] Instance VersionBitsConditionChecker (params : Params) (pos : DeploymentPos) : ThresholdConditionChecker := {
  Condition n := (Z.land (ih_nVersion (bi_header n)) VERSIONBITS_TOP_MASK =? VERSIONBITS_TOP_BITS)
                 && negb (Z.land (u32 (ih_nVersion (bi_header n))) (VersionBitsMask params pos) =? 0);
  BeginTime := nStartTime (vDeployments params pos);
  EndTime := nTimeout (vDeployments params pos);
  Period := i32 (nMinerConfirmationWindow params);
  Threshold := i32 (nRuleChangeActivationThreshold params);
}.

Abbreviation VersionBitsCache := (DeploymentPos → ThresholdConditionCache).
Definition VersionBitsCache_Clear : VersionBitsCache := λ _, ∅.
#[global] Instance DeploymentPos_eq_dec : EqDecision DeploymentPos.
Proof. solve_decision. Defined.
Definition set_cache (c : VersionBitsCache) (pos : DeploymentPos) (x : ThresholdConditionCache) : VersionBitsCache :=
  λ d, if decide (d = pos) then x else c d.

Definition VersionBitsState (h : heap) (pindexPrev : option ptr) (params : Params) (pos : DeploymentPos) (cache : VersionBitsCache)
    : option (ThresholdState * VersionBitsCache) :=
  '(s, x) ← GetStateFor (TC := VersionBitsConditionChecker params pos) h pindexPrev (cache pos);
  Some (s, set_cache cache pos x).
Definition VersionBitsStatistics (h : heap) (pindexPrev : option ptr) (params : Params) (pos : DeploymentPos) : option BIP9Stats :=
  GetStateStatisticsFor (TC := VersionBitsConditionChecker params pos) h pindexPrev.
Definition VersionBitsStateSinceHeight (h : heap) (pindexPrev : option ptr) (params : Params) (pos : DeploymentPos)
    (cache : VersionBitsCache) : option (Z * VersionBitsCache) :=
  '(r, x) ← GetStateSinceHeightFor (TC := VersionBitsConditionChecker params pos) h pindexPrev (cache pos);
  Some (r, set_cache cache pos x).

Fixpoint version_loop (h : heap) (pindexPrev : option ptr) (params : Params) (ps : list DeploymentPos)
    (nVersion : Z) (cache : VersionBitsCache) : option (Z * VersionBitsCache) :=
  match ps with
  | [] => Some (nVersion, cache)
  | pos :: ps =>
      '(state, cache) ← VersionBitsState h pindexPrev params pos cache;
      let nVersion := if decide (state = THRESHOLD_LOCKED_IN ∨ state = THRESHOLD_STARTED)
                      then i32 (Z.lor (u32 nVersion) (VersionBitsMask params pos)) else nVersion in
      version_loop h pindexPrev params ps nVersion cache
  end.
Definition ComputeBlockVersion (h : heap) (pindexPrev : option ptr) (params : Params) (cache : VersionBitsCache)
    : option (Z * VersionBitsCache) :=
  version_loop h pindexPrev params [DEPLOYMENT_TESTDUMMY; DEPLOYMENT_CSV; DEPLOYMENT_SEGWIT] VERSIONBITS_TOP_BITS cache.

(** ** Median times along the chain *)

(** A block later than the median of its predecessors.  The check of headers no
    longer enforces it ([AcceptHeader.header_time_unchecked]): it is a hypothesis of what relies on it. *)
Definition times_ok (h : heap) : Prop :=
  ∀ p n q med, h !! p = Some n → pprev n = Some q → GetMedianTimePast h q = Some med → med < IndexTime n.

Lemma filter_length_mono {A} (P Q : A → Prop) `{!∀ x, Decision (P x), !∀ x, Decision (Q x)} l :
  (∀ x, P x → Q x) → (length (filter P l) ≤ length (filter Q l))%nat.
Proof.
  intros HPQ. induction l as [|x l IH]; [done|]. rewrite !filter_cons.
  destruct (decide (P x)), (decide (Q x)); cbn [length]; try lia. exfalso. auto.
Qed.
Lemma filter_length_compl (l : list Z) m :
  (length (filter (λ x, (x ≤ m)%Z) l) + length (filter (λ x, (m < x)%Z) l) = length l)%nat.
Proof.
  induction l as [|x l IH]; [done|]. rewrite !filter_cons.
  destruct (decide (x ≤ m)%Z), (decide (m < x)%Z); cbn [length]; lia.
Qed.

Lemma recent_times_take h k p : recent_times h k p = take k (recent_times h (S k) p).
Proof.
  revert p. induction k as [|k IH]; intros p; [done|].
  destruct p as [q|]; [|done]. cbn [recent_times]. destruct (h !! q) as [n|]; [|done].
  cbn [take]. f_equal. by rewrite IH at 1.
Qed.

(** Counting around a median. *)
Lemma median_counts h p med :
  GetMedianTimePast h p = Some med →
  let l := recent_times h nMedianTimeSpan (Some p) in
  (length (filter (λ x, (x < med)%Z) l) ≤ length l / 2)%nat ∧
  (length l / 2 + 1 ≤ length (filter (λ x, (x ≤ med)%Z) l))%nat.
Proof.
  unfold GetMedianTimePast. intros Hm. set (l := recent_times h nMedianTimeSpan (Some p)) in *. cbv zeta. pose proof (merge_sort_Permutation Z.le l) as Hperm.
  pose proof (lookup_lt_Some _ _ _ Hm) as Hlt.
  destruct (sorted_middle _ _ _ (StronglySorted_merge_sort Z.le l) Hm) as [L1 L2].
  rewrite Hperm in L1, L2, Hlt. pose proof (filter_length_compl l med). lia.
Qed.

Lemma median_monotone_step h p n q m m' :
  times_ok h → h !! p = Some n → pprev n = Some q →
  GetMedianTimePast h q = Some m → GetMedianTimePast h p = Some m' → m ≤ m'.
Proof.
  intros Ht Hp Hq Hm Hm'. pose proof (Ht p n q m Hp Hq Hm) as Htime.
  destruct (Z.le_gt_cases m m') as [|Hlt]; [done|exfalso].
  destruct (median_counts h q m Hm) as [C1 _]. destruct (median_counts h p m' Hm') as [_ C2].
  set (W := recent_times h nMedianTimeSpan (Some q)) in *.
  assert (EW : recent_times h nMedianTimeSpan (Some p) = IndexTime n :: take 10 W).
  { unfold W. change nMedianTimeSpan with 11%nat. rewrite <- (recent_times_take h 10).
    generalize 10%nat as k. intros k. cbn [recent_times]. by rewrite Hp, Hq. }
  rewrite EW in C2. rewrite filter_cons_False in C2 by lia. cbn [length] in C2. rewrite length_take in C2.
  assert (Hlen : (length W ≤ 11)%nat).
  { unfold W. change nMedianTimeSpan with 11%nat. clear. generalize (Some q) as o. generalize 11%nat as k.
    induction k as [|k IH]; intros o; [done|]. destruct o as [q'|]; cbn [recent_times length]; [|lia].
    destruct (h !! q') as [n'|]; cbn [length]; [|lia]. specialize (IH (pprev n')). lia. }
  assert (H1 : (length (filter (λ x, (x ≤ m')%Z) (take 10 W)) ≤ length (filter (λ x, (x < m)%Z) W))%nat).
  { etrans; [apply (filter_length_mono _ (λ x, (x < m)%Z)); intros; lia|].
    rewrite <- (take_drop 10 W) at 2. rewrite filter_app, length_app. lia. }
  pose proof (Nat.Div0.div_le_mono (length W) (S (10 `min` length W)) 2 ltac:(lia)). lia.
Qed.

Lemma median_monotone h k p q m m' :
  linked h → times_ok h → is_Some (h !! p) → up h k p = Some q →
  GetMedianTimePast h q = Some m → GetMedianTimePast h p = Some m' → m ≤ m'.
Proof.
  intros Hh Ht. revert p m'. induction k as [|k IH]; intros p m' [n Hp] Hup Hm Hm'.
  - cbn in Hup. simplify_eq. done.
  - cbn [up] in Hup. rewrite Hp in Hup. cbn [mbind option_bind] in Hup.
    destruct (pprev n) as [r|] eqn:Er; [|done]. cbn [mbind option_bind] in Hup.
    destruct (nl_parent _ _ _ (Hh p n Hp) r Er) as (l & Hl & _).
    destruct (recent_times_spec h nMedianTimeSpan r l Hh Hl) as [Hlen _].
    assert (is_Some (GetMedianTimePast h r)) as [mr Hmr].
    { unfold GetMedianTimePast. apply lookup_lt_is_Some_2. rewrite (Permutation_length (merge_sort_Permutation Z.le _)), Hlen.
      change nMedianTimeSpan with 11%nat. apply Nat.div_lt; lia. }
    pose proof (IH r mr ltac:(by exists l) Hup Hm Hmr). pose proof (median_monotone_step h p n r mr m' Ht Hp Er Hmr Hm'). lia.
Qed.

(** ** Proofs *)
Section CheckerProofs.
Context {TC : ThresholdConditionChecker} (HP : 0 < Period).
Context (h : heap) (Hh : linked h).

(** [b] is the last block of a period (the parent of the next one's first). *)
Definition boundary (b : ptr) (n : CBlockIndex) : Prop :=
  h !! b = Some n ∧ (nHeight n + 1) mod Period = 0.
Definition boundary_opt (p : option ptr) : Prop :=
  match p with Some b => ∃ n, boundary b n | None => True end.

Definition cache_ok (cache : ThresholdConditionCache) : Prop :=
  ∀ p s, cache !! p = Some s → boundary_opt p ∧ boundary_state h true p = Some s.

Lemma cache_ok_insert cache p s :
  cache_ok cache → boundary_opt p → boundary_state h true p = Some s → cache_ok (<[p := s]> cache).
Proof.
  intros Hc Hp Hs p' s'. destruct (decide (p = p')) as [<-|Hne].
  - rewrite lookup_insert_eq. by intros [= <-].
  - rewrite lookup_insert_ne by done. apply Hc.
Qed.
Lemma cache_ok_empty : cache_ok ∅.
Proof. intros p s. by rewrite lookup_empty. Qed.

(** A boundary height plus one is a positive multiple of the period. *)
Lemma boundary_multiple b n :
  boundary b n → ∃ k, 1 ≤ k ∧ nHeight n + 1 = k * Period ∧ (nHeight n + 1) / Period = k ∧ Period ≤ nHeight n + 1.
Proof.
  intros [Hb Hm]. pose proof (nl_height _ _ _ (Hh b n Hb)). apply Z.mod_divide in Hm as [k Hk]; [|lia].
  assert (0 < k) by nia. exists k. rewrite Hk, Z.div_mul by lia. split_and!; [lia|done|done|nia].
Qed.

(** The ancestor one period down. *)
Lemma period_back b n :
  boundary b n →
  GetAncestor h b (nHeight n - Period) = Some (up h (Z.to_nat Period) b) ∧
  boundary_opt (up h (Z.to_nat Period) b) ∧
  match up h (Z.to_nat Period) b with
  | Some q => ∃ m, boundary q m ∧ nHeight m = nHeight n - Period
  | None => nHeight n + 1 = Period
  end.
Proof.
  intros [Hb Hm]. pose proof (nl_height _ _ _ (Hh b n Hb)) as H0.
  rewrite (GetAncestor_spec h Hh b n _ Hb). apply Z.mod_divide in Hm as [k Hk]; [|lia].
  destruct (decide (nHeight n < Period)) as [Hlt|Hge].
  - rewrite (up_beyond h Hh (Z.to_nat Period) b n Hb) by lia. replace (_ && _) with false by lia.
    split_and!; [done|done|]. assert (0 < k) by nia. assert (k < 2) by nia. nia.
  - replace (_ && _) with true by lia. replace (nHeight n - (nHeight n - Period)) with Period by lia.
    destruct (up_height h Hh (Z.to_nat Period) b n Hb ltac:(lia)) as (q & m & -> & Hq & Hqh).
    assert (Hqb : boundary q m).
    { split; [done|]. rewrite Hqh. replace (nHeight n - Z.of_nat (Z.to_nat Period) + 1) with ((k - 1) * Period) by lia.
      apply Z.mod_mul. lia. }
    split_and!; [done|by exists m|]. exists m. split; [done|lia].
Qed.

Lemma period_parent_spec p n :
  h !! p = Some n →
  let r := Z.to_nat ((nHeight n + 1) mod Period) in
  period_parent h p = Some (up h r p) ∧ boundary_opt (up h r p).
Proof.
  intros Hp r. pose proof (nl_height _ _ _ (Hh p n Hp)) as H0. unfold period_parent. rewrite Hp. cbn [mbind option_bind].
  rewrite Z.rem_mod_nonneg by lia. rewrite (GetAncestor_spec h Hh p n _ Hp).
  pose proof (Z.mod_pos_bound (nHeight n + 1) Period HP) as Hr. unfold r. set (x := (nHeight n + 1) mod Period) in *.
  replace (nHeight n - (nHeight n - x)) with x by lia.
  destruct (decide (nHeight n < x)) as [Hlt|Hge].
  - rewrite (up_beyond h Hh (Z.to_nat x) p n Hp) by lia. by replace (_ && _) with false by lia.
  - replace (_ && _) with true by lia. split; [done|].
    destruct (up_height h Hh (Z.to_nat x) p n Hp ltac:(lia)) as (q & m & -> & Hq & Hqh). exists m. split; [done|].
    rewrite Hqh. replace (nHeight n - Z.of_nat (Z.to_nat x) + 1) with (nHeight n + 1 - x) by lia.
    unfold x. rewrite Zminus_mod_idemp_r, Z.sub_diag. by apply Z.mod_0_l; lia.
Qed.

(** Everything the reference reads exists. *)
Lemma MedianTime_total b n : h !! b = Some n → is_Some (GetMedianTimePast h b).
Proof.
  intros Hb. destruct (recent_times_spec h nMedianTimeSpan b n Hh Hb) as [Hl _]. unfold GetMedianTimePast.
  apply lookup_lt_is_Some_2. rewrite (Permutation_length (merge_sort_Permutation Z.le _)), Hl.
  change nMedianTimeSpan with 11%nat. apply Nat.div_lt; lia.
Qed.

Lemma count_total k b n :
  h !! b = Some n → Z.of_nat k ≤ nHeight n + 1 → is_Some (count_conditions h k (Some b)).
Proof.
  revert b n. induction k as [|k IH]; intros b n Hb Hk; [done|]. cbn [count_conditions mbind option_bind].
  rewrite Hb. cbn [mbind option_bind]. pose proof (Hh b n Hb) as Hn.
  destruct k as [|k']; [by destruct (pprev n)|].
  destruct (pprev n) as [q|] eqn:E; [|pose proof (nl_root _ _ _ Hn E); lia].
  destruct (nl_parent _ _ _ Hn q E) as (m & Hm & Hmh). destruct (IH q m Hm ltac:(lia)) as [c ->]. done.
Qed.

Lemma next_state_total s b n :
  boundary b n → is_Some (next_state h s b).
Proof.
  intros [Hb Hm]. destruct (MedianTime_total b n Hb) as [med Hmed]. pose proof (nl_height _ _ _ (Hh b n Hb)).
  destruct s; cbn [next_state]; rewrite ?Hmed; cbn [mbind option_bind]; try done.
  destruct (med >=? EndTime); [done|].
  destruct (boundary_multiple b n (conj Hb Hm)) as (k & _ & _ & _ & Hk).
  destruct (count_total (Z.to_nat Period) b n Hb ltac:(lia)) as [c ->]. done.
Qed.

Lemma ref_state_total sc k p :
  boundary_opt p → match p with Some b => ∀ n, h !! b = Some n → nHeight n + 1 = Z.of_nat k * Period | None => True end →
  is_Some (ref_state h sc k p).
Proof.
  revert p. induction k as [|k IH]; intros [b|] Hp Hk; try done; destruct Hp as [n Hn].
  - pose proof (nl_height _ _ _ (Hh b n (proj1 Hn))). specialize (Hk n (proj1 Hn)). lia.
  - specialize (Hk n (proj1 Hn)). cbn [ref_state]. destruct (MedianTime_total b n (proj1 Hn)) as [med ->]. cbn [mbind option_bind].
    destruct (sc && _); [done|]. destruct (period_back b n Hn) as (_ & Hq & Hq').
    destruct (IH (up h (Z.to_nat Period) b) Hq) as [s ->].
    { destruct (up h (Z.to_nat Period) b) as [q|]; [|done]. destruct Hq' as (m & [Hm _] & Hmh). intros m' Hm'. simplify_eq. lia. }
    cbn [mbind option_bind]. by apply (next_state_total s b n).
Qed.

(** The reference one period at a time. *)
Lemma boundary_state_step sc b n med :
  boundary b n → GetMedianTimePast h b = Some med →
  boundary_state h sc (Some b) =
  if sc && (med <? BeginTime) then Some THRESHOLD_DEFINED
  else s ← boundary_state h sc (up h (Z.to_nat Period) b); next_state h s b.
Proof.
  intros Hn Hmed. destruct (period_back b n Hn) as (_ & Hq & Hq'). destruct Hn as [Hb Hm].
  pose proof (nl_height _ _ _ (Hh b n Hb)). apply Z.mod_divide in Hm as [k Hk]; [|lia].
  unfold boundary_state at 1. rewrite Hb. cbn [mbind option_bind].
  assert (Hk1 : 1 ≤ k) by nia. rewrite Hk, Z.div_mul by lia.
  replace (Z.to_nat k) with (S (Z.to_nat (k - 1))) by lia. cbn [ref_state]. rewrite Hmed. cbn [mbind option_bind].
  destruct (sc && _); [done|].
  destruct (up h (Z.to_nat Period) b) as [q|]; cbn [boundary_state]; [|by destruct (Z.to_nat (k - 1))].
  destruct Hq' as (m & [Hmq _] & Hmh). rewrite Hmq. cbn [mbind option_bind].
  replace (nHeight m + 1) with ((k - 1) * Period) by lia. by rewrite Z.div_mul by lia.
Qed.

Lemma boundary_state_total sc p : boundary_opt p → is_Some (boundary_state h sc p).
Proof.
  destruct p as [b|]; [|done]. intros [n Hn]. unfold boundary_state. rewrite (proj1 Hn). cbn [mbind option_bind].
  apply ref_state_total; [by exists n|]. intros n' Hn'. destruct Hn as [Hb Hm]. simplify_eq.
  pose proof (nl_height _ _ _ (Hh b n Hb)). apply Z.mod_divide in Hm as [k Hk]; [|lia].
  rewrite Hk, Z.div_mul by lia. assert (0 ≤ k) by nia. lia.
Qed.

Lemma walk_forward_app cache s l1 l2 :
  walk_forward h cache s (l1 ++ l2) = ('(s', c') ← walk_forward h cache s l1; walk_forward h c' s' l2).
Proof.
  revert cache s. induction l1 as [|b l1 IH]; intros cache s; [done|]. cbn [app walk_forward].
  destruct (next_state h s b); [|done]. cbn [mbind option_bind]. apply IH.
Qed.

(** The two walks: the cache stays right, only grows, and the state computed
    is the reference's. *)
Lemma walk_spec fuel cache p v :
  cache_ok cache → boundary_opt p →
  match p with Some b => ∀ n, h !! b = Some n → (Z.to_nat (nHeight n + 1) ≤ fuel)%nat | None => True end →
  ∃ c1 q v1 s c2 r, walk_back h fuel cache p v = Some (c1, q, v1 ++ v) ∧ c1 !! q = Some s ∧
    walk_forward h c1 s v1 = Some (r, c2) ∧ boundary_state h true p = Some r ∧ cache_ok c2.
Proof.
  revert cache p v. induction fuel as [|fuel IH]; intros cache p v Hc Hp Hf.
  all: destruct (cache !! p) as [s|] eqn:Ec.
  1,3: exists cache, p, [], s, cache, s; unfold walk_back; rewrite Ec; split_and!; try done; by apply Hc.
  all: destruct p as [b|].
  2,4: exists (<[None := THRESHOLD_DEFINED]> cache), None, [], THRESHOLD_DEFINED, (<[None := THRESHOLD_DEFINED]> cache), THRESHOLD_DEFINED;
    unfold walk_back; rewrite Ec, lookup_insert_eq; split_and!; try done; by apply cache_ok_insert.
  all: destruct Hp as [n Hn]; pose proof (nl_height _ _ _ (Hh b n (proj1 Hn))); specialize (Hf n (proj1 Hn)).
  1: lia.
  destruct (MedianTime_total b n (proj1 Hn)) as [med Hmed]. cbn [walk_back]. rewrite Ec, Hmed. cbn [mbind option_bind].
  pose proof (boundary_state_step true b n med Hn Hmed) as Hstep. cbn [andb] in Hstep.
  destruct (med <? BeginTime).
  { exists (<[Some b := THRESHOLD_DEFINED]> cache), (Some b), [], THRESHOLD_DEFINED, (<[Some b := THRESHOLD_DEFINED]> cache), THRESHOLD_DEFINED.
    rewrite lookup_insert_eq. split_and!; try done. apply cache_ok_insert; [done|by exists n|done]. }
  destruct (period_back b n Hn) as (EA & Hq & Hq'). rewrite (proj1 Hn). cbn [mbind option_bind]. rewrite EA. cbn [mbind option_bind].
  destruct (IH cache (up h (Z.to_nat Period) b) (b :: v) Hc Hq) as (c1 & q & v1 & s & c2 & r & E1 & E2 & E3 & E4 & E5).
  { destruct (up h (Z.to_nat Period) b) as [q|]; [|done]. destruct Hq' as (m & [Hm _] & Hmh). intros m' Hm'. simplify_eq. lia. }
  rewrite E4 in Hstep. cbn [mbind option_bind] in Hstep. destruct (next_state_total r b n Hn) as [r' Er].
  exists c1, q, (v1 ++ [b]), s, (<[Some b := r']> c2), r'. rewrite <- app_assoc. cbn [app]. split_and!; try done.
  - rewrite walk_forward_app, E3. cbn [mbind option_bind walk_forward]. by rewrite Er.
  - by rewrite Hstep.
  - apply cache_ok_insert; [done|by exists n|by rewrite Hstep].
Qed.

(** The parent of the first block of the current period. *)
Definition period_start (pindexPrev : option ptr) : option ptr :=
  match pindexPrev with
  | Some p => match h !! p with Some n => up h (Z.to_nat ((nHeight n + 1) mod Period)) p | None => None end
  | None => None
  end.

Lemma GetStateFor_spec pindexPrev cache :
  cache_ok cache → match pindexPrev with Some p => is_Some (h !! p) | None => True end →
  ∃ s cache', GetStateFor h pindexPrev cache = Some (s, cache') ∧
    boundary_state h true (period_start pindexPrev) = Some s ∧ cache_ok cache'.
Proof.
  intros Hc Hp. unfold GetStateFor.
  assert (Hs : (match pindexPrev with Some p => period_parent h p | None => Some None end) = Some (period_start pindexPrev)
               ∧ boundary_opt (period_start pindexPrev)).
  { destruct pindexPrev as [p|]; [|done]. destruct Hp as [n Hn]. cbn [period_start]. rewrite Hn. by apply period_parent_spec. }
  destruct Hs as [-> Hb]. cbn [mbind option_bind].
  destruct (walk_spec (match period_start pindexPrev with Some b => match h !! b with Some n => Z.to_nat (nHeight n + 1) | None => 0%nat end | None => 0%nat end)
    cache (period_start pindexPrev) [] Hc Hb) as (c1 & q & v1 & s & c2 & r & E1 & E2 & E3 & E4 & E5).
  { destruct (period_start pindexPrev) as [b|]; [|done]. intros n Hn. by rewrite Hn. }
  rewrite E1. cbn [mbind option_bind]. rewrite E2, app_nil_r. cbn [mbind option_bind]. by exists r, c2.
Qed.

(** The shortcut for early blocks is sound when medians grow along the chain. *)
Lemma early_defined N b n med :
  times_ok h → BeginTime ≤ EndTime → (Z.to_nat (nHeight n) < N)%nat →
  boundary b n → GetMedianTimePast h b = Some med → med < BeginTime →
  boundary_state h false (Some b) = Some THRESHOLD_DEFINED.
Proof.
  intros Ht Hbe. revert b n med. induction N as [|N IH]; intros b n med HN Hn Hmed Hlt; [lia|].
  rewrite (boundary_state_step false b n med Hn Hmed). cbn [andb].
  destruct (period_back b n Hn) as (_ & Hq & Hq').
  assert (E : boundary_state h false (up h (Z.to_nat Period) b) = Some THRESHOLD_DEFINED).
  { destruct (up h (Z.to_nat Period) b) as [q|] eqn:Eu; [|done]. destruct Hq' as (m & Hm & Hmh).
    destruct (MedianTime_total q m (proj1 Hm)) as [medq Hmedq].
    pose proof (nl_height _ _ _ (Hh q m (proj1 Hm))).
    pose proof (median_monotone h _ b q medq med Hh Ht ltac:(by exists n; apply Hn) Eu Hmedq Hmed).
    apply (IH q m medq); (done || lia). }
  rewrite E. cbn [mbind option_bind next_state]. rewrite Hmed. cbn [mbind option_bind].
  replace (med >=? EndTime) with false by lia. by replace (med >=? BeginTime) with false by lia.
Qed.

Lemma shortcut_sound p :
  times_ok h → BeginTime ≤ EndTime → boundary_opt p → boundary_state h true p = boundary_state h false p.
Proof.
  intros Ht Hbe. destruct p as [b|]; [|done]. intros [n Hn].
  remember (Z.to_nat (nHeight n)) as N eqn:HN. revert b n Hn HN.
  induction (lt_wf N) as [N _ IH]; intros b n Hn HN.
  destruct (MedianTime_total b n (proj1 Hn)) as [med Hmed].
  rewrite (boundary_state_step true b n med Hn Hmed), (boundary_state_step false b n med Hn Hmed). cbn [andb].
  destruct (Z.ltb_spec med BeginTime) as [Hlt|Hge].
  - pose proof (early_defined (S N) b n med Ht Hbe ltac:(lia) Hn Hmed Hlt) as E.
    rewrite (boundary_state_step false b n med Hn Hmed) in E. by rewrite <- E.
  - destruct (period_back b n Hn) as (_ & Hq & Hq'). destruct (up h (Z.to_nat Period) b) as [q|]; [|done].
    destruct Hq' as (m & Hm & Hmh). pose proof (nl_height _ _ _ (Hh q m (proj1 Hm))).
    by rewrite (IH (Z.to_nat (nHeight m)) ltac:(lia) q m Hm eq_refl).
Qed.

(** *** The rules of BIP 9

    Stated for the last block of each period, independently of the code's
    transition: how many of the period's blocks signal, and the state that
    follows from the state one period earlier. *)
Definition period_blocks (k : nat) (b : ptr) : list CBlockIndex :=
  omap (λ i, up h i b ≫= (h !!.)) (seq 0 k).
Definition signals (b : ptr) : Z := Z.of_nat (length (filter (λ n, Condition n = true) (period_blocks (Z.to_nat Period) b))).
Inductive bip9 : option ptr → ThresholdState → Prop :=
  | bip9_genesis : bip9 None THRESHOLD_DEFINED
  | bip9_timeout b s med : bip9 (up h (Z.to_nat Period) b) s → s = THRESHOLD_DEFINED ∨ s = THRESHOLD_STARTED →
      GetMedianTimePast h b = Some med → EndTime ≤ med → bip9 (Some b) THRESHOLD_FAILED
  | bip9_wait b med : bip9 (up h (Z.to_nat Period) b) THRESHOLD_DEFINED →
      GetMedianTimePast h b = Some med → med < EndTime → med < BeginTime → bip9 (Some b) THRESHOLD_DEFINED
  | bip9_start b med : bip9 (up h (Z.to_nat Period) b) THRESHOLD_DEFINED →
      GetMedianTimePast h b = Some med → med < EndTime → BeginTime ≤ med → bip9 (Some b) THRESHOLD_STARTED
  | bip9_count b med : bip9 (up h (Z.to_nat Period) b) THRESHOLD_STARTED →
      GetMedianTimePast h b = Some med → med < EndTime → signals b < Threshold → bip9 (Some b) THRESHOLD_STARTED
  | bip9_lock_in b med : bip9 (up h (Z.to_nat Period) b) THRESHOLD_STARTED →
      GetMedianTimePast h b = Some med → med < EndTime → Threshold ≤ signals b → bip9 (Some b) THRESHOLD_LOCKED_IN
  | bip9_activate b : bip9 (up h (Z.to_nat Period) b) THRESHOLD_LOCKED_IN → bip9 (Some b) THRESHOLD_ACTIVE
  | bip9_final b s : bip9 (up h (Z.to_nat Period) b) s → s = THRESHOLD_ACTIVE ∨ s = THRESHOLD_FAILED → bip9 (Some b) s.

Lemma count_conditions_spec k b n :
  h !! b = Some n → Z.of_nat k ≤ nHeight n + 1 →
  count_conditions h k (Some b) = Some (Z.of_nat (length (filter (λ n, Condition n = true) (period_blocks k b)))).
Proof.
  revert b n. induction k as [|k IH]; intros b n Hb Hk; [done|]. unfold period_blocks. cbn [count_conditions seq omap list_omap mbind option_bind up].
  rewrite Hb. cbn [mbind option_bind]. rewrite <- (fmap_S_seq 0 k), filter_cons.
  assert (Hrest : count_conditions h k (pprev n)
    = Some (Z.of_nat (length (filter (λ n, Condition n = true) (omap (λ i, up h i b ≫= (h !!.)) (S <$> seq 0 k)))))).
  { pose proof (Hh b n Hb) as Hn. destruct k as [|k']; [by destruct (pprev n)|]. destruct (pprev n) as [q|] eqn:E; [|pose proof (nl_root _ _ _ Hn E); lia].
    destruct (nl_parent _ _ _ Hn q E) as (m & Hm & Hmh). rewrite (IH q m Hm) by lia. unfold period_blocks. do 4 f_equal.
    apply list_omap_ext, Forall2_fmap_r, Forall_Forall2_diag, Forall_forall. intros i _.
    unfold compose. cbn [up]. rewrite Hb. cbn [mbind option_bind]. by rewrite E. }
  rewrite Hrest. cbn [mbind option_bind]. destruct (Condition n); [rewrite decide_True by done|rewrite decide_False by done]; cbn [length]; f_equal; lia.
Qed.

Lemma boundary_bip9 p s : boundary_opt p → boundary_state h false p = Some s → bip9 p s.
Proof.
  destruct p as [b|]; [|by intros _ [= <-]; constructor]. intros [n Hn].
  remember (Z.to_nat (nHeight n)) as N eqn:HN. revert b n s Hn HN.
  induction (lt_wf N) as [N _ IH]; intros b n s Hn HN E. destruct (MedianTime_total b n (proj1 Hn)) as [med Hmed].
  rewrite (boundary_state_step false b n med Hn Hmed) in E. cbn [andb] in E. destruct (period_back b n Hn) as (_ & Hq & Hq').
  destruct (boundary_state h false (up h (Z.to_nat Period) b)) as [r|] eqn:Er; cbn [mbind option_bind] in E; [|done].
  assert (Hprev : bip9 (up h (Z.to_nat Period) b) r).
  { destruct (up h (Z.to_nat Period) b) as [q|]; [|injection Er as <-; constructor]. destruct Hq' as (m & Hm & Hmh).
    pose proof (nl_height _ _ _ (Hh q m (proj1 Hm))). exact (IH (Z.to_nat (nHeight m)) ltac:(lia) q m r Hm eq_refl Er). }
  destruct (boundary_multiple b n Hn) as (_ & _ & _ & _ & Hk).
  assert (Hc : count_conditions h (Z.to_nat Period) (Some b) = Some (signals b)) by (apply (count_conditions_spec _ b n); [apply Hn|lia]).
  destruct r; cbn [next_state] in E; rewrite ?Hmed in E; cbn [mbind option_bind] in E;
    try (injection E as <-; first [by apply bip9_activate|by eapply bip9_final; [exact Hprev|auto]]).
  - destruct (Z.geb_spec med EndTime); [injection E as <-; by eapply bip9_timeout; eauto|].
    destruct (Z.geb_spec med BeginTime); injection E as <-; [by eapply bip9_start; eauto|by eapply bip9_wait; eauto].
  - destruct (Z.geb_spec med EndTime); [injection E as <-; by eapply bip9_timeout; eauto|].
    rewrite Hc in E. cbn [mbind option_bind] in E.
    destruct (Z.geb_spec (signals b) Threshold); injection E as <-; [by eapply bip9_lock_in; eauto|by eapply bip9_count; eauto].
Qed.

Lemma period_start_boundary b n : boundary b n → period_start (Some b) = Some b.
Proof. intros [Hb Hm]. cbn [period_start]. by rewrite Hb, Hm. Qed.

Lemma up_periods b n i :
  boundary b n → boundary_opt (up h (i * Z.to_nat Period) b) ∧
  up h (S i * Z.to_nat Period) b = (q ← up h (i * Z.to_nat Period) b; up h (Z.to_nat Period) q).
Proof.
  intros Hn. split.
  - induction i as [|i IH]; [by exists n|]. replace (S i * Z.to_nat Period)%nat with (i * Z.to_nat Period + Z.to_nat Period)%nat by lia.
    rewrite up_add. destruct (up h (i * Z.to_nat Period) b) as [q|]; [|done]. cbn [mbind option_bind].
    destruct IH as [m Hm]. apply (period_back q m Hm).
  - replace (S i * Z.to_nat Period)%nat with (i * Z.to_nat Period + Z.to_nat Period)%nat by lia. apply up_add.
Qed.

Lemma since_loop_spec fuel s b n j q m cache :
  s ≠ THRESHOLD_DEFINED → boundary b n → up h (j * Z.to_nat Period) b = Some q → boundary q m →
  (Z.to_nat (nHeight m) ≤ fuel)%nat → cache_ok cache →
  (∀ i, (i ≤ j)%nat → boundary_state h true (up h (i * Z.to_nat Period) b) = Some s) →
  ∃ j' q' m' cache', since_loop h fuel s q (up h (Z.to_nat Period) q) cache = Some (nHeight m' + 1, cache') ∧
    cache_ok cache' ∧ up h (j' * Z.to_nat Period) b = Some q' ∧ boundary q' m' ∧
    (∀ i, (i ≤ j')%nat → boundary_state h true (up h (i * Z.to_nat Period) b) = Some s) ∧
    boundary_state h true (up h (S j' * Z.to_nat Period) b) ≠ Some s.
Proof.
  intros Hs Hb. revert j q m cache. induction fuel as [|fuel IH]; intros j q m cache Hq Hm Hf Hc Hall;
    destruct (period_back q m Hm) as (_ & Hr & Hr'); destruct (up_periods b n j Hb) as [_ Eup];
    rewrite Hq in Eup; cbn [mbind option_bind] in Eup;
    (destruct (up h (Z.to_nat Period) q) as [r|] eqn:Er; cbn [since_loop];
      [|exists j, q, m, cache; rewrite (proj1 Hm), Eup; split_and!; try done; cbn; congruence]).
  - destruct Hr' as (l & Hl & Hlh). pose proof (nl_height _ _ _ (Hh r l (proj1 Hl))). lia.
  - destruct Hr' as (l & Hl & Hlh). pose proof (nl_height _ _ _ (Hh r l (proj1 Hl))).
    destruct (GetStateFor_spec (Some r) cache Hc ltac:(by exists l; apply Hl)) as (s' & cache1 & E1 & E2 & E3).
    rewrite E1. cbn [mbind option_bind]. rewrite (period_start_boundary r l Hl) in E2.
    destruct (decide (s' = s)) as [->|Hne].
    + rewrite (proj1 Hl). cbn [mbind option_bind]. destruct (period_back r l Hl) as (EA & _ & _). rewrite EA. cbn [mbind option_bind].
      apply (IH (S j) r l cache1); try done; [lia|].
      intros i Hi. destruct (decide (i = S j)) as [->|]; [by rewrite Eup|apply Hall; lia].
    + exists j, q, m, cache1. rewrite (proj1 Hm), Eup. split_and!; try done. congruence.
Qed.
End CheckerProofs.

(** ** Properties *)

(** C25. The BIP 9 state.  From any cache whose entries agree with the uncached
    state machine, [GetStateFor] terminates and returns the state of the
    period, leaving such a cache; the shortcut for blocks before the start time
    does not change it when blocks are later than the median of their
    predecessors and the deployment starts before it times out, and then the
    state is the one the rules of BIP 9 give. *)
Theorem GetStateFor_correct (TC : ThresholdConditionChecker) (h : heap) (pindexPrev : option ptr) (cache : ThresholdConditionCache) :
  0 < Period → linked h → cache_ok h cache → match pindexPrev with Some p => is_Some (h !! p) | None => True end →
  ∃ s cache', GetStateFor h pindexPrev cache = Some (s, cache') ∧ cache_ok h cache' ∧
    boundary_state h true (period_start h pindexPrev) = Some s ∧
    (times_ok h → BeginTime ≤ EndTime → boundary_state h false (period_start h pindexPrev) = Some s ∧
       bip9 h (period_start h pindexPrev) s).
Proof.
  intros HP Hh Hc Hp. destruct (GetStateFor_spec HP h Hh pindexPrev cache Hc Hp) as (s & c' & E1 & E2 & E3).
  exists s, c'. split_and!; try done. intros Ht Hbe.
  assert (Hb : boundary_opt h (period_start h pindexPrev)).
  { destruct pindexPrev as [p|]; [|done]. destruct Hp as [n Hn]. cbn [period_start]. rewrite Hn. by apply period_parent_spec. }
  rewrite (shortcut_sound HP h Hh _ Ht Hbe Hb) in E2. split; [done|]. by apply boundary_bip9.
Qed.

(** Periods of two blocks, one signal enough, starting at time 15. *)
Definition params_bip9 : Params :=
  set_spacing CRegTestParams (powLimit CRegTestParams) 2 1 (λ _, mkDeployment 0 15 999999999999).

Lemma GetStateFor_correct_witness :
  let TC := VersionBitsConditionChecker params_bip9 DEPLOYMENT_CSV in
  fst <$> GetStateFor heap_example (Some 4%positive) ∅ = Some THRESHOLD_STARTED ∧
  ∃ s cache', GetStateFor heap_example (Some 4%positive) ∅ = Some (s, cache') ∧ cache_ok heap_example cache' ∧
    boundary_state heap_example true (period_start heap_example (Some 4%positive)) = Some s ∧
    (times_ok heap_example → BeginTime ≤ EndTime →
     boundary_state heap_example false (period_start heap_example (Some 4%positive)) = Some s ∧
     bip9 heap_example (period_start heap_example (Some 4%positive)) s).
Proof.
  intros TC. split; [vm_compute; reflexivity|].
  apply (GetStateFor_correct TC heap_example (Some 4%positive) ∅).
  - reflexivity.
  - exact heap_example_linked.
  - apply cache_ok_empty.
  - eexists. reflexivity.
Defined.

(** Since when.  [GetStateSinceHeightFor] terminates and returns 0 for
    DEFINED; for any other state it returns the height of the first block of the
    earliest period from which on every period up to the current one has that
    state. *)
Theorem GetStateSinceHeight_correct (TC : ThresholdConditionChecker) (h : heap) (p : ptr) (cache : ThresholdConditionCache) :
  0 < Period → linked h → cache_ok h cache → is_Some (h !! p) →
  ∃ s r cache', boundary_state h true (period_start h (Some p)) = Some s ∧
    GetStateSinceHeightFor h (Some p) cache = Some (r, cache') ∧ cache_ok h cache' ∧
    (s = THRESHOLD_DEFINED → r = 0) ∧
    (s ≠ THRESHOLD_DEFINED → ∃ b j q m, period_start h (Some p) = Some b ∧
       up h (j * Z.to_nat Period) b = Some q ∧ h !! q = Some m ∧ r = nHeight m + 1 ∧
       (∀ i, (i ≤ j)%nat → boundary_state h true (up h (i * Z.to_nat Period) b) = Some s) ∧
       boundary_state h true (up h (S j * Z.to_nat Period) b) ≠ Some s).
Proof.
  intros HP Hh Hc [n Hn]. unfold GetStateSinceHeightFor.
  destruct (GetStateFor_spec HP h Hh (Some p) cache Hc ltac:(by exists n)) as (s & c1 & E1 & E2 & E3).
  rewrite E1. cbn [mbind option_bind]. exists s. destruct (decide (s = THRESHOLD_DEFINED)) as [->|Hs].
  { exists 0, c1. by split_and!. }
  destruct (period_parent_spec HP h Hh p n Hn) as [E4 Hb0]. rewrite E4. cbn [mbind option_bind].
  assert (Eps : period_start h (Some p) = up h (Z.to_nat ((nHeight n + 1) mod Period)) p) by (cbn [period_start]; by rewrite Hn).
  rewrite <- Eps in Hb0 |- *. destruct (period_start h (Some p)) as [b|]; [|cbn in E2; congruence].
  destruct Hb0 as [nb Hb]. cbn [mbind option_bind]. rewrite (proj1 Hb). cbn [mbind option_bind].
  destruct (period_back HP h Hh b nb Hb) as (EA & _ & _). rewrite EA. cbn [mbind option_bind].
  destruct (since_loop_spec HP h Hh (Z.to_nat (nHeight nb)) s b nb 0 b nb c1 Hs Hb eq_refl Hb ltac:(lia) E3)
    as (j & q & m & c2 & F1 & F2 & F3 & F4 & F5 & F6).
  { intros i Hi. by replace i with 0%nat by lia. }
  exists (nHeight m + 1), c2. split_and!; try done. intros _. exists b, j, q, m. split_and!; try done. apply F4.
Qed.

Lemma GetStateSinceHeight_correct_witness :
  let TC := VersionBitsConditionChecker params_bip9 DEPLOYMENT_CSV in
  fst <$> GetStateSinceHeightFor heap_example (Some 4%positive) ∅ = Some 2 ∧
  ∃ s r cache', boundary_state heap_example true (period_start heap_example (Some 4%positive)) = Some s ∧
    GetStateSinceHeightFor heap_example (Some 4%positive) ∅ = Some (r, cache') ∧ cache_ok heap_example cache' ∧
    (s = THRESHOLD_DEFINED → r = 0) ∧
    (s ≠ THRESHOLD_DEFINED → ∃ b j q m, period_start heap_example (Some 4%positive) = Some b ∧
       up heap_example (j * Z.to_nat Period) b = Some q ∧ heap_example !! q = Some m ∧ r = nHeight m + 1 ∧
       (∀ i, (i ≤ j)%nat → boundary_state heap_example true (up heap_example (i * Z.to_nat Period) b) = Some s) ∧
       boundary_state heap_example true (up heap_example (S j * Z.to_nat Period) b) ≠ Some s).
Proof.
  intros TC. split; [vm_compute; reflexivity|].
  apply (GetStateSinceHeight_correct TC heap_example 4 ∅).
  - reflexivity.
  - exact heap_example_linked.
  - apply cache_ok_empty.
  - eexists. reflexivity.
Defined.
