(* ===== verification/Validation.v ===== *)
(** * The state of a validation (src/src/consensus/validation.h)

    [CValidationState] records why a transaction or a block was refused, and how
    much the peer that sent it is to be punished. *)

From stdpp Require Import base numbers list option strings.
From Stdlib Require Import ZArith Lia.
From S2P Require Import Prelude BlockStream Endian Serialize Transaction.

Definition REJECT_MALFORMED : Z := 0x01.
Definition REJECT_INVALID : Z := 0x10.
Definition REJECT_OBSOLETE : Z := 0x11.
Definition REJECT_DUPLICATE : Z := 0x12.
Definition REJECT_NONSTANDARD : Z := 0x40.
Definition REJECT_INSUFFICIENTFEE : Z := 0x42.
Definition REJECT_CHECKPOINT : Z := 0x43.

Inductive mode_state := MODE_VALID | MODE_INVALID | MODE_ERROR.
#[export] Instance mode_state_eq_dec : EqDecision mode_state.
Proof. solve_decision. Defined.

(** The debug messages that the modelled code formats, by their arguments. *)
Inductive debug_message :=
  | NoDebugMessage
  | CoinbaseDepth (depth : Z)
  | ValueBelowOut (nValueIn nValueOut : Z)
  | Message (s : string)
  | TransactionCheckFailed (hash : bytes) (debug : debug_message).

Record CValidationState := mkState {
  mode : mode_state; nDoS : Z; strRejectReason : string; chRejectCode : Z; corruptionPossible : bool; strDebugMessage : debug_message }.
Definition new_CValidationState : CValidationState := mkState MODE_VALID 0 "" 0 false NoDebugMessage.

(** [DoS] and [Invalid] return the state; their result is their argument [ret]. *)
Definition DoS (level chRejectCodeIn : Z) (strRejectReasonIn : string) (corruptionIn : bool) (strDebugMessageIn : debug_message)
  (s : CValidationState) : CValidationState :=
  match mode s with
  | MODE_ERROR => mkState MODE_ERROR (nDoS s) strRejectReasonIn chRejectCodeIn corruptionIn strDebugMessageIn
  | _ => mkState MODE_INVALID (i32 (nDoS s + level)) strRejectReasonIn chRejectCodeIn corruptionIn strDebugMessageIn
  end.
Definition Invalid (chRejectCodeIn : Z) (strRejectReasonIn : string) (strDebugMessageIn : debug_message) (s : CValidationState) : CValidationState :=
  DoS 0 chRejectCodeIn strRejectReasonIn false strDebugMessageIn s.
(** [Error] returns false. *)
Definition Error (strRejectReasonIn : string) (s : CValidationState) : CValidationState :=
  mkState MODE_ERROR (nDoS s) (if bool_decide (mode s = MODE_VALID) then strRejectReasonIn else strRejectReason s)
    (chRejectCode s) (corruptionPossible s) (strDebugMessage s).
Definition IsValid (s : CValidationState) : bool := bool_decide (mode s = MODE_VALID).
Definition IsInvalid (s : CValidationState) : bool := bool_decide (mode s = MODE_INVALID).
Definition IsError (s : CValidationState) : bool := bool_decide (mode s = MODE_ERROR).
(** The score of the peer, when the state is invalid. *)
Definition IsInvalid_DoS (s : CValidationState) : option Z := if IsInvalid s then Some (nDoS s) else None.
Definition SetCorruptionPossible (s : CValidationState) : CValidationState :=
  mkState (mode s) (nDoS s) (strRejectReason s) (chRejectCode s) true (strDebugMessage s).

(** ** Sizes of consensus (src/src/consensus/consensus.h, consensus.cpp)

    The limits that the contracts of the governance protocol can change are
    global variables of the program. *)
Definition COINBASE_MATURITY : Z := 500.
Definition MAX_TRANSACTION_BASE_SIZE : Z := 1000000.
Definition WITNESS_SCALE_FACTOR : Z := 4.
Definition MIN_TRANSACTION_WEIGHT : Z := WITNESS_SCALE_FACTOR * 60.
Definition MIN_SERIALIZABLE_TRANSACTION_WEIGHT : Z := WITNESS_SCALE_FACTOR * 10.
Definition LOCKTIME_VERIFY_SEQUENCE : Z := 1.
Definition LOCKTIME_MEDIAN_TIME_PAST : Z := 2.
Record BlockSizeParams := mkSizes {
  dgpMaxBlockSerSize : Z; dgpMaxBlockWeight : Z; dgpMaxBlockSize : Z; dgpMaxBlockSigOps : Z; dgpMaxProtoMsgLength : Z; dgpMaxTxSigOps : Z }.
Definition default_sizes : BlockSizeParams := mkSizes 8000000 8000000 2000000 80000 8000000 16000.
Definition updateBlockSizeParams (newBlockSize : Z) (p : BlockSizeParams) : BlockSizeParams :=
  let newSizeForParams := u32 (WITNESS_SCALE_FACTOR * newBlockSize) in
  let sigops := newSizeForParams / 100 in
  mkSizes newSizeForParams newSizeForParams (dgpMaxBlockSize p) sigops newSizeForParams (u32 (Z.quot sigops 5)).

Definition stripped_size (tx : CTransaction) : Z := Z.of_nat (length (SerializeTransaction false tx)).
Definition GetTransactionWeight (tx : CTransaction) : Z :=
  stripped_size tx * (WITNESS_SCALE_FACTOR - 1) + GetTotalSize tx.
