(* ===== verification/TxVerify.v ===== *)
(** * Checking transactions (src/src/consensus/tx_verify.cpp)

    The checks of a transaction on its own ([CheckTransaction]), against the coins
    it spends ([CheckTxInputs], the signature operation counts) and against the
    chain ([IsFinalTx], the sequence locks of BIP 68).  The coins are read through the
    cache of [Coins], the chain through the heap of [BlockIndex]. *)

From stdpp Require Import base numbers list option gmap strings.
From Stdlib Require Import ZArith Lia ZifyNat ZifyBool.
From S2P Require Import Prelude BlockStream Endian Script Serialize Transaction Coins Compressor Interpreter SigHash.
From S2P Require Import VerifyScript Standard BlockIndex CoinsUpdate VersionBits Validation.

(** ** Lock times *)
Definition IsFinalTx (tx : CTransaction) (nBlockHeight nBlockTime : Z) : bool :=
  if nLockTime tx =? 0 then true
  else if nLockTime tx <? (if nLockTime tx <? LOCKTIME_THRESHOLD then nBlockHeight else nBlockTime) then true
  else forallb (λ txin, nSequence txin =? SEQUENCE_FINAL) (vin tx).

(** One input of [CalculateSequenceLocks]: the heights of the spent outputs are
    written where the input has no relative lock.  [None] is a failed assertion, or
    a null pointer that is followed. *)
Fixpoint sequence_locks_loop (h : heap) (block : ptr) (v : list CTxIn) (prevHeights : list Z) (nMinHeight nMinTime : Z)
  : option (Z * Z * list Z) :=
  match v, prevHeights with
  | [], _ => Some (nMinHeight, nMinTime, prevHeights)
  | txin :: v, nCoinHeight :: prevHeights =>
      '(nMinHeight, nMinTime, nCoinHeight') ←
        (if negb (Z.land (nSequence txin) SEQUENCE_LOCKTIME_DISABLE_FLAG =? 0) then Some (nMinHeight, nMinTime, 0)
         else if negb (Z.land (nSequence txin) SEQUENCE_LOCKTIME_TYPE_FLAG =? 0) then
           a ← GetAncestor h block (Z.max (nCoinHeight - 1) 0);
           p ← a;
           nCoinTime ← GetMedianTimePast h p;
           Some (nMinHeight,
                 Z.max nMinTime (nCoinTime + Z.shiftl (Z.land (nSequence txin) SEQUENCE_LOCKTIME_MASK) SEQUENCE_LOCKTIME_GRANULARITY - 1),
                 nCoinHeight)
         else Some (Z.max nMinHeight (nCoinHeight + Z.land (nSequence txin) SEQUENCE_LOCKTIME_MASK - 1), nMinTime, nCoinHeight));
      '(r, prevHeights) ← sequence_locks_loop h block v prevHeights nMinHeight nMinTime;
      Some (r, nCoinHeight' :: prevHeights)
  | _ :: _, [] => None
  end.
Definition CalculateSequenceLocks (h : heap) (tx : CTransaction) (flags : Z) (prevHeights : list Z) (block : ptr) : option (Z * Z * list Z) :=
  if negb (length prevHeights =? length (vin tx))%nat then None
  else if negb ((u32 (nVersion tx) >=? 2) && negb (Z.land flags LOCKTIME_VERIFY_SEQUENCE =? 0)) then Some (-1, -1, prevHeights)
  else sequence_locks_loop h block (vin tx) prevHeights (-1) (-1).
Definition EvaluateSequenceLocks (h : heap) (block : ptr) (lockPair : Z * Z) : option bool :=
  n ← h !! block;
  q ← pprev n;
  nBlockTime ← GetMedianTimePast h q;
  Some (negb ((fst lockPair >=? nHeight n) || (snd lockPair >=? nBlockTime))).
(** The answer, and the heights as they are left. *)
Definition SequenceLocks (h : heap) (tx : CTransaction) (flags : Z) (prevHeights : list Z) (block : ptr) : option (bool * list Z) :=
  '(lockPair, prevHeights) ← CalculateSequenceLocks h tx flags prevHeights block;
  b ← EvaluateSequenceLocks h block lockPair;
  Some (b, prevHeights).

(** ** The transaction on its own *)
Fixpoint legacy_sigops (scripts : list bytes) (nSigOps : Z) : option Z :=
  match scripts with
  | [] => Some nSigOps
  | s :: scripts => n ← GetSigOpCount s false; legacy_sigops scripts (u32 (nSigOps + n))
  end.
Definition GetLegacySigOpCount (tx : CTransaction) : option Z :=
  n ← legacy_sigops (map scriptSig (vin tx)) 0; legacy_sigops (map scriptPubKey (vout tx)) n.

(** The check of the outputs: [inl] is the refusal. *)
Fixpoint check_outputs (is_coinbase is_coinstake : bool) (v : list CTxOut) (nValueOut : Z) : option (string + Z) :=
  match v with
  | [] => Some (inr nValueOut)
  | txout :: v =>
      if CTxOut_IsEmpty txout && negb is_coinbase && negb is_coinstake then Some (inl "bad-txns-vout-empty"%string)
      else if nValue txout <? 0 then Some (inl "bad-txns-vout-negative"%string)
      else if nValue txout >? MAX_MONEY then Some (inl "bad-txns-vout-toolarge"%string)
      else
        let nValueOut := i64 (nValueOut + nValue txout) in
        if negb (MoneyRange nValueOut) then Some (inl "bad-txns-txouttotal-toolarge"%string)
        else
          call ← HasOpCall (scriptPubKey txout);
          contract ← (if (call : bool) then Some true else HasOpCreate (scriptPubKey txout));
          standard ← (if (contract : bool) then '(b, _, _) ← Solver (scriptPubKey txout) TX_NONSTANDARD true; Some b else Some true);
          if negb standard then Some (inl "bad-txns-contract-nonstandard"%string)
          else check_outputs is_coinbase is_coinstake v nValueOut
  end.
Fixpoint distinct_inputs (v : list CTxIn) (vInOutPoints : gset COutPoint) : bool :=
  match v with
  | [] => true
  | txin :: v => if decide (prevout txin ∈ vInOutPoints) then false else distinct_inputs v ({[prevout txin]} ∪ vInOutPoints)
  end.

Definition refuse (level : Z) (reason : string) (state : CValidationState) : option (bool * CValidationState) :=
  Some (false, DoS level REJECT_INVALID reason false NoDebugMessage state).
Definition CheckTransaction (sizes : BlockSizeParams) (tx : CTransaction) (fCheckDuplicateInputs : bool) (state : CValidationState)
  : option (bool * CValidationState) :=
  if (length (vin tx) =? 0)%nat then refuse 10 "bad-txns-vin-empty" state
  else if (length (vout tx) =? 0)%nat then refuse 10 "bad-txns-vout-empty" state
  else if (stripped_size tx >? MAX_TRANSACTION_BASE_SIZE) || (stripped_size tx * WITNESS_SCALE_FACTOR >? dgpMaxBlockWeight sizes)
  then refuse 100 "bad-txns-oversize" state
  else
    r ← check_outputs (IsCoinBase tx) (IsCoinStake tx) (vout tx) 0;
    match r with
    | inl reason => refuse 100 reason state
    | inr _ =>
        if fCheckDuplicateInputs && negb (distinct_inputs (vin tx) ∅) then refuse 100 "bad-txns-inputs-duplicate" state
        else if IsCoinBase tx then
          i ← head (vin tx);
          if (length (scriptSig i) <? 2)%nat || (100 <? length (scriptSig i))%nat then refuse 100 "bad-cb-length" state
          else Some (true, state)
        else if existsb (λ txin, COutPoint_IsNull (prevout txin)) (vin tx) then refuse 10 "bad-txns-prevout-null" state
        else Some (true, state)
    end.

(** ** The transaction and the coins it spends *)
Section Inputs.
Context {V : Type} `{CoinsView V} (usage : Coin → Z).
Abbreviation cache := (CCoinsViewCache V).

(** [nSigOps] is an [unsigned int]; a spent coin fails an assertion. *)
Fixpoint p2sh_sigops (v : list CTxIn) (nSigOps : Z) (inputs : cache) : option (Z * cache) :=
  match v with
  | [] => Some (nSigOps, inputs)
  | txin :: v =>
      let '(coin, inputs) := AccessCoin usage (prevout txin) inputs in
      if IsSpent coin then None
      else if IsPayToScriptHash (scriptPubKey (out coin)) then
        n ← GetSigOpCount_p2sh (scriptPubKey (out coin)) (scriptSig txin); p2sh_sigops v (u32 (nSigOps + n)) inputs
      else p2sh_sigops v nSigOps inputs
  end.
Definition GetP2SHSigOpCount (tx : CTransaction) (inputs : cache) : option (Z * cache) :=
  if IsCoinBase tx then Some (0, inputs) else p2sh_sigops (vin tx) 0 inputs.

Fixpoint witness_sigops (flags : Z) (v : list CTxIn) (nSigOps : Z) (inputs : cache) : option (Z * cache) :=
  match v with
  | [] => Some (nSigOps, inputs)
  | txin :: v =>
      let '(coin, inputs) := AccessCoin usage (prevout txin) inputs in
      if IsSpent coin then None
      else
        n ← CountWitnessSigOps flags (scriptSig txin) (scriptPubKey (out coin)) (scriptWitness txin);
        witness_sigops flags v (nSigOps + n) inputs
  end.
(** The products are of an [unsigned int] and an [int]. *)
Definition GetTransactionSigOpCost (tx : CTransaction) (flags : Z) (inputs : cache) : option (Z * cache) :=
  n ← GetLegacySigOpCount tx;
  let nSigOps := u32 (n * WITNESS_SCALE_FACTOR) in
  if IsCoinBase tx then Some (nSigOps, inputs)
  else
    '(nSigOps, inputs) ←
      (if has_flag flags SCRIPT_VERIFY_P2SH then
         '(n, inputs) ← GetP2SHSigOpCount tx inputs; Some (nSigOps + u32 (n * WITNESS_SCALE_FACTOR), inputs)
       else Some (nSigOps, inputs));
    witness_sigops flags (vin tx) nSigOps inputs.

End Inputs.

(** ** Proofs: relative locks *)

(** What BIP 68 asks of an input that spends an output of height [coinHeight], in a
    block [n] whose predecessor has the median time [mtp]. *)
Definition lock_value (txin : CTxIn) : Z := Z.land (nSequence txin) SEQUENCE_LOCKTIME_MASK.
Definition lock_disabled (txin : CTxIn) : bool := negb (Z.land (nSequence txin) SEQUENCE_LOCKTIME_DISABLE_FLAG =? 0).
Definition lock_by_time (txin : CTxIn) : bool := negb (Z.land (nSequence txin) SEQUENCE_LOCKTIME_TYPE_FLAG =? 0).
Definition relative_lock_ok (h : heap) (block : ptr) (n : CBlockIndex) (mtp : Z) (txin : CTxIn) (coinHeight : Z) : Prop :=
  lock_disabled txin = false →
  if lock_by_time txin then
    ∃ a t, GetAncestor h block (Z.max (coinHeight - 1) 0) = Some (Some a) ∧ GetMedianTimePast h a = Some t ∧ t + lock_value txin * 512 ≤ mtp
  else coinHeight + lock_value txin ≤ nHeight n.
(** The heights that the calculation leaves. *)
Definition heights_left (v : list CTxIn) (heights : list Z) : list Z :=
  zip_with (λ txin hc, if lock_disabled txin then 0 else hc) v heights.

Section Bip68.
Context (h : heap) (Hh : linked h) (block : ptr) (n : CBlockIndex) (Hblock : h !! block = Some n).

Lemma sequence_locks_spec (mtp : Z) v heights mh mt : length heights = length v → Forall (λ hc, hc - 1 ≤ nHeight n) heights →
  ∃ mh' mt', sequence_locks_loop h block v heights mh mt = Some (mh', mt', heights_left v heights) ∧
    (mh' < nHeight n ∧ mt' < mtp ↔ (mh < nHeight n ∧ mt < mtp) ∧ Forall2 (relative_lock_ok h block n mtp) v heights).
Proof.
  pose proof (nl_height _ _ _ (Hh block n Hblock)) as Hpos.
  revert heights mh mt. induction v as [|txin v IH]; intros [|hc heights] mh mt Hl Hf; try done.
  { exists mh, mt. split; [done|]. split; [by intros H; split|by intros [H _]]. }
  injection Hl as Hl. apply list.Forall_cons in Hf as [Hhc Hf]. cbn [sequence_locks_loop heights_left zip_with].
  fold (lock_disabled txin) (lock_by_time txin) (lock_value txin).
  assert (E : ∃ mh1 mt1, (if lock_disabled txin then Some (mh, mt, 0)
      else if lock_by_time txin then
        a ← GetAncestor h block (Z.max (hc - 1) 0); p ← a; nCoinTime ← GetMedianTimePast h p;
        Some (mh, Z.max mt (nCoinTime + Z.shiftl (lock_value txin) SEQUENCE_LOCKTIME_GRANULARITY - 1), hc)
      else Some (Z.max mh (hc + lock_value txin - 1), mt, hc)) = Some (mh1, mt1, if lock_disabled txin then 0 else hc) ∧
      (mh1 < nHeight n ∧ mt1 < mtp ↔ (mh < nHeight n ∧ mt < mtp) ∧ relative_lock_ok h block n mtp txin hc)).
  { unfold relative_lock_ok. destruct (lock_disabled txin); [exists mh, mt; split; [done|]; split; [by intros H; split|by intros [H _]]|].
    destruct (lock_by_time txin).
    - rewrite (GetAncestor_spec h Hh block n _ Hblock). replace (_ && _) with true by lia.
      destruct (up_height h Hh (Z.to_nat (nHeight n - Z.max (hc - 1) 0)) block n Hblock ltac:(lia)) as (a & m & -> & Ha & _).
      destruct (MedianTime_total h Hh a m Ha) as [t Et]. cbn [mbind option_bind]. rewrite Et. cbn [mbind option_bind].
      eexists _, _. split; [done|]. change SEQUENCE_LOCKTIME_GRANULARITY with 9. rewrite Z.shiftl_mul_pow2 by lia. change (2 ^ 9) with 512. split.
      + intros [H1 H2]. split; [lia|]. intros _. exists a, t. split_and!; [done..|lia].
      + intros [H1 H2]. destruct (H2 eq_refl) as (a' & t' & [= <-] & Et' & Ht). assert (t' = t) as -> by congruence. lia.
    - eexists _, _. split; [done|]. split; [intros H; split; [lia|intros _; lia]|intros [H1 H2]; specialize (H2 eq_refl); lia]. }
  destruct E as (mh1 & mt1 & -> & E1). cbn [mbind option_bind]. destruct (IH heights mh1 mt1 Hl Hf) as (mh' & mt' & -> & E2).
  exists mh', mt'. split; [done|]. rewrite E2, E1. split; [intros [[H1 H2] H3]; split; [done|by constructor]|].
  intros [H1 H2]. inversion H2; subst. done.
Qed.
End Bip68.
(** The part of a sequence number that is compared: the kind of the lock and its value. *)
Lemma land_bit y k : 0 ≤ k → Z.land y (2 ^ k) = 0 ∨ Z.land y (2 ^ k) = 2 ^ k.
Proof.
  intros Hk. destruct (Z.testbit y k) eqn:E; [right|left]; apply Z.bits_inj'; intros i Hi; rewrite Z.land_spec, ?Z.bits_0;
    (destruct (Z.eq_dec k i) as [<-|Hne]; [rewrite E, ?Z.pow2_bits_true by done; done|rewrite Z.pow2_bits_false by done; by rewrite andb_false_r]).
Qed.
Lemma lock_masked y :
  Z.land y (Z.lor SEQUENCE_LOCKTIME_TYPE_FLAG SEQUENCE_LOCKTIME_MASK) = Z.land y SEQUENCE_LOCKTIME_TYPE_FLAG + Z.land y SEQUENCE_LOCKTIME_MASK ∧
  (Z.land y SEQUENCE_LOCKTIME_TYPE_FLAG = 0 ∨ Z.land y SEQUENCE_LOCKTIME_TYPE_FLAG = 2 ^ 22) ∧ 0 ≤ Z.land y SEQUENCE_LOCKTIME_MASK < 65536.
Proof.
  assert (Hm : Z.land y SEQUENCE_LOCKTIME_MASK = y mod 2 ^ 16) by (apply (land_ones_mod y 16); lia).
  split; [|split; [apply land_bit; lia|rewrite Hm; lia]].
  rewrite Z.land_lor_distr_r, Z.lor_comm, Hm, Z.add_comm. destruct (land_bit y 22 ltac:(lia)) as [E|E];
    unfold SEQUENCE_LOCKTIME_TYPE_FLAG in *; rewrite E; [by rewrite Z.lor_0_r, Z.add_0_r|].
  change (2 ^ 22) with (Z.shiftl 64 16) at 1. rewrite lor_add_disjoint by lia. done.
Qed.
Lemma check_sequence_spec tx nIn x : TransactionSignatureChecker_CheckSequence tx nIn x = Some true →
  ∃ i, vin tx !! nIn = Some i ∧ 2 ≤ u32 (nVersion tx) ∧ lock_disabled i = false ∧
    lock_by_time i = negb (Z.land x SEQUENCE_LOCKTIME_TYPE_FLAG =? 0) ∧ Z.land x SEQUENCE_LOCKTIME_MASK ≤ lock_value i.
Proof.
  unfold TransactionSignatureChecker_CheckSequence, lock_disabled, lock_by_time, lock_value.
  destruct (vin tx !! nIn) as [i|]; [|done]. cbn [mbind option_bind]. destruct (Z.ltb_spec (u32 (nVersion tx)) 2); [done|].
  destruct (negb (Z.land (nSequence i) SEQUENCE_LOCKTIME_DISABLE_FLAG =? 0)) eqn:Ed; [done|].
  destruct (lock_masked (nSequence i)) as (-> & H1 & H2), (lock_masked x) as (-> & H3 & H4).
  set (a := Z.land (nSequence i) SEQUENCE_LOCKTIME_TYPE_FLAG) in *. set (b := Z.land x SEQUENCE_LOCKTIME_TYPE_FLAG) in *.
  set (c := Z.land (nSequence i) SEQUENCE_LOCKTIME_MASK) in *. set (d := Z.land x SEQUENCE_LOCKTIME_MASK) in *.
  assert (F : SEQUENCE_LOCKTIME_TYPE_FLAG = 2 ^ 22) by done. destruct (negb (_ || _)) eqn:E; [done|]. intros [= E2].
  exists i. fold a c. split_and!; try done; lia.
Qed.
Lemma IsFinalTx_spec tx height time : IsFinalTx tx height time = true ↔
  nLockTime tx = 0 ∨ nLockTime tx < (if nLockTime tx <? LOCKTIME_THRESHOLD then height else time) ∨
  Forall (λ txin, nSequence txin = SEQUENCE_FINAL) (vin tx).
Proof.
  unfold IsFinalTx. destruct (Z.eqb_spec (nLockTime tx) 0); [split; [by left|done]|].
  destruct (Z.ltb_spec (nLockTime tx) (if nLockTime tx <? LOCKTIME_THRESHOLD then height else time)); [split; [by right; left|done]|].
  rewrite forallb_forall, List.Forall_forall. split.
  - intros Hf. right. right. intros i Hi. specialize (Hf i Hi). lia.
  - intros [?|[?|Hf]]; [lia|lia|]. intros i Hi. specialize (Hf i Hi). cbn in Hf. lia.
Qed.

Lemma sequence_locks_accept (h : heap) (tx : CTransaction) (flags : Z) (heights : list Z) (block q : ptr) (n : CBlockIndex) (mtp : Z)
  (Hh : linked h) (Hblock : h !! block = Some n) (Hprev : pprev n = Some q) (Hmtp : GetMedianTimePast h q = Some mtp) (Hpos : 0 ≤ mtp)
  (Hl : length heights = length (vin tx)) (Hf : Forall (λ hc, hc - 1 ≤ nHeight n) heights) :
  ∃ b, SequenceLocks h tx flags heights block =
         Some (b, if (u32 (nVersion tx) >=? 2) && negb (Z.land flags LOCKTIME_VERIFY_SEQUENCE =? 0) then heights_left (vin tx) heights else heights) ∧
    (b = true ↔ (2 ≤ u32 (nVersion tx) → Z.land flags LOCKTIME_VERIFY_SEQUENCE ≠ 0 →
                 Forall2 (relative_lock_ok h block n mtp) (vin tx) heights)).
Proof.
  unfold SequenceLocks, CalculateSequenceLocks, EvaluateSequenceLocks. rewrite Hl, Nat.eqb_refl. cbn [negb]. rewrite Hblock.
  pose proof (nl_height _ _ _ (Hh block n Hblock)) as Hn.
  destruct ((u32 (nVersion tx) >=? 2) && negb (Z.land flags LOCKTIME_VERIFY_SEQUENCE =? 0)) eqn:E; cbn [negb].
  - destruct (sequence_locks_spec h Hh block n Hblock mtp (vin tx) heights (-1) (-1) Hl Hf) as (mh & mt & -> & Hiff). cbn [mbind option_bind].
    rewrite Hprev. cbn [mbind option_bind]. rewrite Hmtp. cbn [mbind option_bind fst snd]. eexists. split; [done|].
    rewrite negb_true_iff, orb_false_iff. split.
    + intros [H1 H2] _ _. apply Hiff. lia.
    + intros H. destruct Hiff as [_ Hiff]. destruct Hiff as [H1 H2]; [|lia]. split; [lia|]. apply H; lia.
  - cbn [mbind option_bind]. rewrite Hprev. cbn [mbind option_bind]. rewrite Hmtp. cbn [mbind option_bind fst snd]. eexists. split; [done|].
    split; [intros _ H1 H2; lia|]. intros _. lia.
Qed.

(** C18. [SequenceLocks] is BIP 68: for a block of the tree with a predecessor it ends,
    and it accepts exactly when each input without the disable flag is old enough,
    by the height of the block when its type flag is clear, by the median time of
    the predecessor, in units of 512 seconds since the median time before the spent
    output, when it is set; the height of an input with the flag is cleared. A
    transaction of version 0 or 1, or a call without the flag, is not constrained. *)
Theorem sequence_locks_bip68 (h : heap) (tx : CTransaction) (flags : Z) (heights : list Z) (block q : ptr) (n : CBlockIndex) (mtp : Z)
  (Hh : linked h) (Hblock : h !! block = Some n) (Hprev : pprev n = Some q) (Hmtp : GetMedianTimePast h q = Some mtp) (Hpos : 0 ≤ mtp)
  (Hl : length heights = length (vin tx)) (Hf : Forall (λ hc, hc - 1 ≤ nHeight n) heights) :
  ∃ b, SequenceLocks h tx flags heights block =
         Some (b, if (u32 (nVersion tx) >=? 2) && negb (Z.land flags LOCKTIME_VERIFY_SEQUENCE =? 0) then heights_left (vin tx) heights else heights) ∧
    (b = true ↔ (2 ≤ u32 (nVersion tx) → Z.land flags LOCKTIME_VERIFY_SEQUENCE ≠ 0 →
                 Forall2 (relative_lock_ok h block n mtp) (vin tx) heights)).
Proof. by apply (sequence_locks_accept h tx flags heights block q n mtp). Qed.

(** C14. The script instructions and the checks of the chain agree on lock times.  When
    OP_CHECKLOCKTIMEVERIFY passes for the operand [x] in some input of a transaction,
    and the transaction is final for a block, then [x] lies below the height of that
    block, or below its time, by its kind; and the answer of [IsFinalTx] is monotone.
    When OP_CHECKSEQUENCEVERIFY passes for [x], and [SequenceLocks] accepts, the output
    that the input spends is [x] blocks, or [x] times 512 seconds, old. *)
Theorem lock_times_enforced (h : heap) (tx : CTransaction) (nIn : nat) (x : Z) (height time : Z) (Hheight : 0 < height) (Htime : 0 < time) :
  (TransactionSignatureChecker_CheckLockTime tx nIn x = Some true → IsFinalTx tx height time = true →
     x < (if x <? LOCKTIME_THRESHOLD then height else time)) ∧
  (∀ height' time', height ≤ height' → time ≤ time' → IsFinalTx tx height time = true → IsFinalTx tx height' time' = true) ∧
  (∀ flags heights heights' hc block q n mtp, linked h → h !! block = Some n → pprev n = Some q → GetMedianTimePast h q = Some mtp → 0 ≤ mtp →
     length heights = length (vin tx) → Forall (λ hc, hc - 1 ≤ nHeight n) heights → heights !! nIn = Some hc →
     Z.land flags LOCKTIME_VERIFY_SEQUENCE ≠ 0 →
     TransactionSignatureChecker_CheckSequence tx nIn x = Some true → SequenceLocks h tx flags heights block = Some (true, heights') →
     if Z.land x SEQUENCE_LOCKTIME_TYPE_FLAG =? 0 then hc + Z.land x SEQUENCE_LOCKTIME_MASK ≤ nHeight n
     else ∃ a t, GetAncestor h block (Z.max (hc - 1) 0) = Some (Some a) ∧ GetMedianTimePast h a = Some t ∧
                 t + Z.land x SEQUENCE_LOCKTIME_MASK * 512 ≤ mtp).
Proof.
  split_and!.
  - unfold TransactionSignatureChecker_CheckLockTime. intros Hc [H|[H|H]]%IsFinalTx_spec; revert Hc.
    + rewrite H. change (0 <? LOCKTIME_THRESHOLD) with true. change (0 >=? LOCKTIME_THRESHOLD) with false. cbn [andb orb].
      destruct (x <? LOCKTIME_THRESHOLD) eqn:E; [|done]. cbn [negb orb]. destruct (x >? 0) eqn:E1; [done|]. lia.
    + destruct (negb _) eqn:E; [done|]. destruct (x >? nLockTime tx) eqn:E1; [done|]. intros _.
      destruct (Z.ltb_spec (nLockTime tx) LOCKTIME_THRESHOLD), (Z.ltb_spec x LOCKTIME_THRESHOLD); lia.
    + destruct (negb _); [done|]. destruct (x >? nLockTime tx); [done|]. destruct (vin tx !! nIn) as [i|] eqn:Ei; [|done]. cbn [mbind option_bind].
      rewrite Forall_forall in H. rewrite (H i) by (by eapply list_elem_of_lookup_2). by rewrite Z.eqb_refl.
  - intros height' time' H1 H2. rewrite !IsFinalTx_spec. intros [H|[H|H]]; [by left| |by right; right]. right. left. case_match; lia.
  - intros flags heights heights' hc block q n mtp Hh Hblock Hprev Hmtp Hpos Hl Hf Hhc Hflag Hc Hs.
    destruct (check_sequence_spec tx nIn x Hc) as (i & Hi & Hv & Hd & Ht & Hval).
    destruct (sequence_locks_accept h tx flags heights block q n mtp Hh Hblock Hprev Hmtp Hpos Hl Hf) as (b & E & Hiff).
    rewrite Hs in E. injection E as <- _. destruct Hiff as [Hiff _]. specialize (Hiff eq_refl Hv Hflag).
    pose proof (Forall2_lookup_lr _ _ _ _ _ _ Hiff Hi Hhc Hd) as Hr. rewrite Ht in Hr. destruct (_ =? 0); cbn [negb] in Hr.
    + lia.
    + destruct Hr as (a & t & ? & ? & ?). exists a, t. split_and!; [done..|lia].
Qed.
Definition lock_tx_example : CTransaction :=
  mkCTransaction 2 [mkCTxIn (outpoint_example 0) [] 1 []; mkCTxIn (outpoint_example 1) [] (2 ^ 22) []; mkCTxIn (outpoint_example 2) [] (2 ^ 31 + 9) []]
    [mkCTxOut 5 [OP_1]] 2.
Lemma sequence_locks_bip68_witness :
  SequenceLocks heap_example lock_tx_example 1 [1; 0; 3] 4 = Some (true, [1; 0; 0]) ∧
  Forall2 (relative_lock_ok heap_example 4 (node_at 3 (Some 3%positive) (Some 2%positive) 40) 20) (vin lock_tx_example) [1; 0; 3].
Proof.
  split; [vm_compute; reflexivity|].
  destruct (sequence_locks_bip68 heap_example lock_tx_example 1 [1; 0; 3] 4 3 (node_at 3 (Some 3%positive) (Some 2%positive) 40) 20
    heap_example_linked eq_refl eq_refl eq_refl ltac:(lia) eq_refl) as (b & E & H).
  - repeat (apply list.Forall_cons; split); try (cbn; lia). constructor.
  - apply H; [|vm_compute; intros E1; discriminate E1|vm_compute; intros E1; discriminate E1].
    assert (E2 : SequenceLocks heap_example lock_tx_example 1 [1; 0; 3] 4 = Some (true, [1; 0; 0])) by (vm_compute; reflexivity).
    rewrite E2 in E. injection E as E. symmetry. exact E.
Defined.
Lemma lock_times_enforced_witness :
  TransactionSignatureChecker_CheckLockTime lock_tx_example 0 2 = Some true ∧ IsFinalTx lock_tx_example 3 1500000000 = true ∧ 2 < 3.
Proof.
  assert (E1 : TransactionSignatureChecker_CheckLockTime lock_tx_example 0 2 = Some true) by (vm_compute; reflexivity).
  assert (E2 : IsFinalTx lock_tx_example 3 1500000000 = true) by (vm_compute; reflexivity).
  split; [exact E1|split; [exact E2|]].
  exact (proj1 (lock_times_enforced heap_example lock_tx_example 0 2 3 1500000000 ltac:(lia) ltac:(lia)) E1 E2).
Defined.

(** ** Proofs: the transaction on its own *)

(** An output that calls or creates a contract. *)
Definition contract_script (script : bytes) : Prop := HasOpCall script = Some true ∨ HasOpCreate script = Some true.
Definition output_ok (may_be_empty : Prop) (o : CTxOut) : Prop :=
  0 ≤ nValue o ≤ MAX_MONEY ∧ (CTxOut_IsEmpty o = true → may_be_empty) ∧
  (contract_script (scriptPubKey o) → ∃ t sols, standard_form true (scriptPubKey o) t sols).
Definition input_ok (tx : CTransaction) : Prop :=
  if IsCoinBase tx then ∀ i, head (vin tx) = Some i → (2 ≤ length (scriptSig i) ≤ 100)%nat
  else Forall (λ i, COutPoint_IsNull (prevout i) = false) (vin tx).
Record transaction_valid (sizes : BlockSizeParams) (tx : CTransaction) (fCheckDuplicateInputs : bool) : Prop := {
  tv_vin : vin tx ≠ [];
  tv_vout : vout tx ≠ [];
  tv_size : stripped_size tx ≤ MAX_TRANSACTION_BASE_SIZE ∧ 4 * stripped_size tx ≤ dgpMaxBlockWeight sizes;
  tv_outputs : Forall (output_ok (IsCoinBase tx = true ∨ IsCoinStake tx = true)) (vout tx);
  tv_total : sum_values (vout tx) ≤ MAX_MONEY;
  tv_distinct : fCheckDuplicateInputs = true → NoDup (map prevout (vin tx));
  tv_inputs : input_ok tx }.

Lemma Find_total s op : ∃ n, Find s op = Some n.
Proof. unfold Find. rewrite Find_loop_spec by lia. by eexists. Qed.
Lemma contract_spec s : bytes_ok s → ∃ contract standard, 
  (call ← HasOpCall s; (if (call : bool) then Some true else HasOpCreate s)) = Some contract ∧
  (if (contract : bool) then '(b, _, _) ← Solver s TX_NONSTANDARD true; Some b else Some true) = Some standard ∧
  (standard = true ↔ (contract_script s → ∃ t sols, standard_form true s t sols)).
Proof.
  intros Hb. unfold contract_script, HasOpCall, HasOpCreate. destruct (Find_total s OP_CALL) as [n1 E1], (Find_total s OP_CREATE) as [n2 E2].
  rewrite E1, E2. cbn [mbind option_bind].
  assert (Hc : (if n1 =? 1 then Some true else Some (n2 =? 1)) = Some ((n1 =? 1) || (n2 =? 1))) by (by destruct (n1 =? 1)).
  rewrite Hc. exists ((n1 =? 1) || (n2 =? 1)). destruct ((n1 =? 1) || (n2 =? 1)) eqn:E.
  - assert (Hne : s ≠ []) by (intros ->; cbn in E1, E2; injection E1 as <-; injection E2 as <-; done).
    destruct (Solver_total true s TX_NONSTANDARD Hb Hne) as [[[b t] sols] Es]. rewrite Es. cbn [mbind option_bind]. exists b. split_and!; [done|done|].
    split.
    + intros -> _. exists t, sols. by apply (Solver_sound _ _ _ _ _ Hb) in Es.
    + intros H. destruct H as (t' & sols' & Hf).
      { apply orb_true_iff in E as [E|E]; [left|right]; by rewrite E. }
      apply (Solver_complete _ _ TX_NONSTANDARD _ _ Hb) in Hf. congruence.
  - apply orb_false_iff in E as [Ea Eb]. exists true. split_and!; [done|done|]. split; [|done]. intros _ [H|H]; congruence.
Qed.
Lemma check_outputs_spec cb cs v acc : Forall (λ o, bytes_ok (scriptPubKey o)) v → 0 ≤ acc ≤ MAX_MONEY →
  ∃ r, check_outputs cb cs v acc = Some r ∧
    ((∃ total, r = inr total) ↔ Forall (output_ok (cb = true ∨ cs = true)) v ∧ acc + sum_values v ≤ MAX_MONEY) ∧
    (∀ reason, r = inl reason → reason ≠ ""%string).
Proof.
  intros Hb. revert acc. induction Hb as [|o v Ho _ IH]; intros acc Hacc; cbn [check_outputs].
  { exists (inr acc). split; [done|]. split; [|done]. split; [intros _; split; [constructor|cbn; lia]|by eexists]. }
  assert (Hbad : ∀ reason : string, reason ≠ ""%string → ¬ (Forall (output_ok (cb = true ∨ cs = true)) (o :: v) ∧ acc + sum_values (o :: v) ≤ MAX_MONEY) →
    ∃ r, Some (inl reason) = Some r ∧ ((∃ total : Z, r = inr total) ↔ Forall (output_ok (cb = true ∨ cs = true)) (o :: v) ∧ acc + sum_values (o :: v) ≤ MAX_MONEY) ∧
      (∀ reason', r = inl reason' → reason' ≠ ""%string)).
  { intros reason Hr Hn. exists (inl reason). split; [done|]. split; [split; [by intros [? ?]|done]|by intros ? [= <-]]. }
  destruct (CTxOut_IsEmpty o && negb cb && negb cs) eqn:E1.
  { apply Hbad; [done|]. intros [[(_ & H & _) _]%list.Forall_cons _]. destruct (CTxOut_IsEmpty o), cb, cs; try done. by destruct (H eq_refl). }
  destruct (Z.ltb_spec (nValue o) 0); [apply Hbad; [done|]; intros [[(? & _) _]%list.Forall_cons _]; lia|].
  destruct (Z.gtb_spec (nValue o) MAX_MONEY); [apply Hbad; [done|]; intros [[(? & _) _]%list.Forall_cons _]; lia|].
  assert (Hi : i64 (acc + nValue o) = acc + nValue o) by (apply i64_small; unfold MAX_MONEY, COIN, CENT in *; lia). rewrite Hi.
  destruct (MoneyRange (acc + nValue o)) eqn:Em; cbn [negb].
  2:{ apply Hbad; [done|]. intros [[_ Hv]%list.Forall_cons Hs]. cbn [sum_values foldr] in Hs.
      assert (0 ≤ sum_values v) by (apply sum_values_nonneg; eapply list.Forall_impl; [exact Hv|]; intros x Hx; apply Hx).
      unfold MoneyRange in Em. unfold sum_values in *. lia. }
  apply MoneyRange_spec in Em.
  destruct (contract_spec (scriptPubKey o) Ho) as (contract & standard & Hc & Hst & Hiff).
  destruct (HasOpCall (scriptPubKey o)) as [call|] eqn:Ecall; [|done]. cbn [mbind option_bind] in Hc |- *. rewrite Hc. cbn [mbind option_bind].
  rewrite Hst. cbn [mbind option_bind]. destruct standard; cbn [negb].
  - destruct (IH _ Em) as (r & -> & H1 & H2). exists r. split; [done|]. split; [|done]. rewrite H1, list.Forall_cons. cbn [sum_values foldr]. fold (sum_values v).
    replace (acc + nValue o + sum_values v) with (acc + (nValue o + sum_values v)) by lia.
    split; [intros [? ?]; split; [split; [|done]|done]|by intros [[_ ?] ?]]. split; [lia|]. split; [|by apply Hiff].
    intros E. rewrite E in E1. destruct cb; [by left|]. destruct cs; [by right|done].
  - apply Hbad; [done|]. intros [[(_ & _ & H3) _]%list.Forall_cons _]. by apply Hiff in H3.
Qed.
Lemma distinct_inputs_spec v seen : distinct_inputs v seen = true ↔ NoDup (map prevout v) ∧ ∀ i, i ∈ v → prevout i ∉ seen.
Proof.
  revert seen. induction v as [|i v IH]; intros seen; cbn [distinct_inputs map].
  { split; [intros _; split; [constructor|]|done]. intros i Hi. by apply elem_of_nil in Hi. }
  rewrite NoDup_cons. case_decide as Hd.
  - split; [done|]. intros [_ H]. by destruct (H i (list_elem_of_here _ _)).
  - rewrite IH. split.
    + intros [Hn Hs]. split_and!; [|done|].
      * intros (j & E & Hj)%list_elem_of_fmap. apply (Hs j Hj). rewrite E. set_solver.
      * intros j [->|Hj]%elem_of_cons; [done|]. specialize (Hs j Hj). set_solver.
    + intros [[Hi Hn] Hs]. split; [done|]. intros j Hj. rewrite elem_of_union, elem_of_singleton. intros [E|E]; [|by apply (Hs j); [by right|]].
      apply Hi. rewrite <- E. by apply list_elem_of_fmap_2.
Qed.

Lemma DoS_spec level reason state : let s' := DoS level REJECT_INVALID reason false NoDebugMessage state in
  chRejectCode s' = REJECT_INVALID ∧ strRejectReason s' = reason ∧
  (mode state ≠ MODE_ERROR → mode s' = MODE_INVALID ∧ nDoS s' = i32 (nDoS state + level)).
Proof. unfold DoS. destruct (mode state); done. Qed.
(** How a refused transaction leaves the state. *)
Definition refused (state s' : CValidationState) : Prop :=
  chRejectCode s' = REJECT_INVALID ∧ strRejectReason s' ≠ ""%string ∧
  (mode state ≠ MODE_ERROR → mode s' = MODE_INVALID ∧ (nDoS s' = i32 (nDoS state + 10) ∨ nDoS s' = i32 (nDoS state + 100))).
Lemma refuse_refused level reason state : level = 10 ∨ level = 100 → reason ≠ ""%string →
  ∃ s', refuse level reason state = Some (false, s') ∧ refused state s'.
Proof.
  intros Hl Hr. unfold refuse. eexists. split; [done|]. destruct (DoS_spec level reason state) as (H1 & H2 & H3). split; [done|].
  split; [by rewrite H2|]. intros Hm. destruct (H3 Hm) as [-> ->]. split; [done|]. destruct Hl as [->| ->]; [by left|by right].
Qed.
Lemma null_inputs v : existsb (λ txin, COutPoint_IsNull (prevout txin)) v = false ↔ Forall (λ i, COutPoint_IsNull (prevout i) = false) v.
Proof.
  induction v as [|i v IH]; [split; [constructor|done]|]. cbn [existsb]. rewrite orb_false_iff, IH, list.Forall_cons. done.
Qed.
Lemma check_transaction_spec sizes tx dup state : Forall (λ o, bytes_ok (scriptPubKey o)) (vout tx) →
  (transaction_valid sizes tx dup ∧ CheckTransaction sizes tx dup state = Some (true, state)) ∨
  (¬ transaction_valid sizes tx dup ∧ ∃ s', CheckTransaction sizes tx dup state = Some (false, s') ∧ refused state s').
Proof.
  intros Hb. unfold CheckTransaction.
  assert (Hno : ∀ level reason, level = 10 ∨ level = 100 → reason ≠ ""%string → ¬ transaction_valid sizes tx dup → 
    (transaction_valid sizes tx dup ∧ refuse level reason state = Some (true, state)) ∨
    (¬ transaction_valid sizes tx dup ∧ ∃ s', refuse level reason state = Some (false, s') ∧ refused state s')).
  { intros. right. split; [done|]. by apply refuse_refused. }
  destruct (Nat.eqb_spec (length (vin tx)) 0) as [E|Hvin]; [apply Hno; [by left|done|]; intros [H]; by apply nil_length_inv in E|].
  destruct (Nat.eqb_spec (length (vout tx)) 0) as [E|Hvout]; [apply Hno; [by left|done|]; intros [_ H]; by apply nil_length_inv in E|].
  destruct (_ || _) eqn:Esz; [apply Hno; [by right|done|]; intros [_ _ H]; unfold WITNESS_SCALE_FACTOR in *; lia|].
  destruct (check_outputs_spec (IsCoinBase tx) (IsCoinStake tx) (vout tx) 0 Hb ltac:(done)) as (r & -> & Hr & Hreason). cbn [mbind option_bind].
  destruct r as [reason|total].
  { apply Hno; [by right|by apply Hreason|]. intros Hv. destruct Hr as [_ Hr]. destruct Hr as [? ?]; [|done]. split; [apply Hv|]. rewrite Z.add_0_l. apply Hv. }
  destruct Hr as [Hr _]. destruct Hr as [Hout Htot]; [by eexists|]. rewrite Z.add_0_l in Htot.
  destruct (dup && negb (distinct_inputs (vin tx) ∅)) eqn:Ed.
  { apply Hno; [by right|done|]. intros Hv. apply andb_true_iff in Ed as [-> Ed]. destruct (distinct_inputs_spec (vin tx) ∅) as [_ H].
    rewrite H in Ed; [done|]. split; [by apply Hv|set_solver]. }
  assert (Hd : dup = true → NoDup (map prevout (vin tx))).
  { intros ->. apply (distinct_inputs_spec (vin tx) ∅). by destruct (distinct_inputs (vin tx) ∅). }
  assert (Hyes : input_ok tx → transaction_valid sizes tx dup).
  { intros Hi. constructor; try done; [by intros E; rewrite E in Hvin|by intros E; rewrite E in Hvout|unfold WITNESS_SCALE_FACTOR in *; lia]. }
  unfold input_ok in Hyes. destruct (IsCoinBase tx) eqn:Ecb.
  - destruct (vin tx) as [|i v] eqn:Ev; [done|]. cbn [head mbind option_bind].
    destruct ((length (scriptSig i) <? 2)%nat || (100 <? length (scriptSig i))%nat) eqn:El.
    + apply Hno; [by right|done|]. intros Hv. pose proof (tv_inputs _ _ _ Hv) as Hi. unfold input_ok in Hi. rewrite Ecb, Ev in Hi. specialize (Hi i eq_refl). lia.
    + left. split; [|done]. apply Hyes. intros j [= <-]. lia.
  - destruct (existsb _ (vin tx)) eqn:En.
    + apply Hno; [by left|done|]. intros Hv. pose proof (tv_inputs _ _ _ Hv) as Hi. unfold input_ok in Hi. rewrite Ecb in Hi.
      apply null_inputs in Hi. congruence.
    + left. split; [|done]. apply Hyes. by apply null_inputs.
Qed.
Lemma valid_value_out sizes tx dup : transaction_valid sizes tx dup → GetValueOut tx = Some (sum_values (vout tx)) ∧ 0 ≤ sum_values (vout tx) ≤ MAX_MONEY.
Proof.
  intros Hv. pose proof (tv_outputs _ _ _ Hv) as Ho. pose proof (tv_total _ _ _ Hv) as Ht.
  assert (Hpos : Forall (λ o, 0 ≤ nValue o) (vout tx)) by (eapply list.Forall_impl; [exact Ho|]; intros o Hx; apply Hx).
  assert (Hok : Forall (λ o, enc_ok i64_codec (nValue o)) (vout tx)).
  { eapply list.Forall_impl; [exact Ho|]. intros o [Hx _]. cbn. unfold MAX_MONEY, COIN, CENT in Hx. lia. }
  unfold GetValueOut. destruct (GetValueOut_loop_spec (vout tx) 0 ltac:(done) Hok) as [H _]. rewrite H by (split; [done|lia]).
  split; [done|]. split; [by apply sum_values_nonneg|done].
Qed.

(** C16. [CheckTransaction] ends, and accepts exactly the transactions that are valid on their
    own: with inputs and outputs, within the sizes, with outputs in the range of money
    whose sum is in that range, that are empty only in a coinbase or a coinstake and
    standard when they call or create a contract, with distinct inputs when that is
    asked, and with a first input of 2 to 100 bytes in a coinbase, and no null
    input in another transaction.  Accepting leaves the state as it was, and
    [GetValueOut] then does not throw; refusing names a reason and raises the
    score of the peer by 10 or 100. *)
Theorem check_transaction_correct (sizes : BlockSizeParams) (tx : CTransaction) (dup : bool) (state : CValidationState)
  (Hb : Forall (λ o, bytes_ok (scriptPubKey o)) (vout tx)) :
  (transaction_valid sizes tx dup ∧ CheckTransaction sizes tx dup state = Some (true, state) ∧
   GetValueOut tx = Some (sum_values (vout tx))) ∨
  (¬ transaction_valid sizes tx dup ∧ ∃ s', CheckTransaction sizes tx dup state = Some (false, s') ∧ refused state s').
Proof.
  destruct (check_transaction_spec sizes tx dup state Hb) as [[H1 H2]|?]; [left|by right].
  split_and!; [done..|]. by apply (valid_value_out _ _ _ H1).
Qed.
Lemma check_transaction_correct_witness :
  transaction_valid default_sizes spend_example true ∧
  CheckTransaction default_sizes spend_example true new_CValidationState = Some (true, new_CValidationState).
Proof.
  assert (E : CheckTransaction default_sizes spend_example true new_CValidationState = Some (true, new_CValidationState)) by (vm_compute; reflexivity).
  destruct (check_transaction_correct default_sizes spend_example true new_CValidationState) as [(H & _)|(_ & s' & E' & _)].
  - apply list.Forall_cons; split; [apply u8sb_ok; vm_compute; reflexivity|].
    apply list.Forall_cons; split; [apply u8sb_ok; vm_compute; reflexivity|constructor].
  - split; [exact H|exact E].
  - rewrite E in E'. discriminate E'.
Defined.

(** ** Proofs: the transaction and its coins *)
Definition coin_value (r : option Coin) : Z := match r with Some c => nValue (out c) | None => 0 end.
Definition total_in (C : coins) (v : list CTxIn) : Z := foldr (λ i acc, coin_value (C (prevout i)) + acc) 0 v.
(** An input may be spent in a block of the given height. *)
Definition mature (nSpendHeight : Z) (c : Coin) : Prop := fCoinBase c = true ∨ fCoinStake c = true → COINBASE_MATURITY ≤ nSpendHeight - coin_nHeight c.
Definition input_spendable (nSpendHeight : Z) (C : coins) (i : CTxIn) : Prop :=
  ∃ c, C (prevout i) = Some c ∧ mature nSpendHeight c ∧ 0 ≤ nValue (out c) ≤ MAX_MONEY.

Section InputProofs.
Context {V : Type} `{CoinsViewLaws V} (usage : Coin → Z) (usage_cleared : usage coinEmpty = 0).
Implicit Types (s : CCoinsViewCache V) (C : coins).


End InputProofs.
(** ** The supply of coins *)

(** A finite set of coins, and the value in it. *)
Definition coins_of (m : gmap COutPoint Coin) : coins := λ o, m !! o.
Definition total_value (m : gmap COutPoint Coin) : Z := map_fold (λ _ c n, nValue (out c) + n) 0 m.
(** The outputs that enter the set of coins. *)
Definition spendable_value (v : list CTxOut) : Z :=
  foldr (λ o acc, (if IsUnspendable (scriptPubKey o) then 0 else nValue o) + acc) 0 v.
(** What a transaction may add to the supply: the outputs of a coinbase, the gain of a
    coinstake, nothing otherwise. *)
Definition minted (C : coins) (tx : CTransaction) : Z :=
  if IsCoinBase tx then sum_values (vout tx)
  else if IsCoinStake tx then sum_values (vout tx) - total_in C (vin tx) else 0.
(** The transactions of a block, in order, on a set of coins. *)
Definition txid_default (tx : CTransaction) : bytes := default [] (GetHash tx).
Fixpoint apply_block (vtx : list CTransaction) (nHeight : Z) (C : coins) : coins :=
  match vtx with [] => C | tx :: vtx => apply_block vtx nHeight (apply_tx tx (txid_default tx) nHeight C) end.
Fixpoint block_minted (vtx : list CTransaction) (nHeight : Z) (C : coins) : Z :=
  match vtx with [] => 0 | tx :: vtx => minted C tx + block_minted vtx nHeight (apply_tx tx (txid_default tx) nHeight C) end.
(** Each transaction passes both checks on the coins that are there at its turn. *)
Fixpoint block_checked (sizes : BlockSizeParams) (vtx : list CTransaction) (nHeight : Z) (C : coins) : Prop :=
  match vtx with
  | [] => True
  | tx :: vtx => transaction_valid sizes tx false ∧
      (IsCoinBase tx = false → Forall (input_spendable nHeight C) (vin tx) ∧ total_in C (vin tx) ≤ MAX_MONEY ∧
         (IsCoinStake tx = false → sum_values (vout tx) ≤ total_in C (vin tx))) ∧
      block_checked sizes vtx nHeight (apply_tx tx (txid_default tx) nHeight C)
  end.

Lemma total_value_insert m o c : m !! o = None → total_value (<[o := c]> m) = nValue (out c) + total_value m.
Proof. intros Ho. unfold total_value. rewrite map_fold_insert_L; [done|intros; lia|done]. Qed.
Lemma total_value_delete m o c : m !! o = Some c → total_value (delete o m) = total_value m - nValue (out c).
Proof. intros Ho. rewrite <- (insert_delete_id m o c Ho) at 2. rewrite total_value_insert by apply lookup_delete_eq. lia. Qed.
Lemma coins_of_delete m o : coins_of (delete o m) ≡c set_coin (coins_of m) o None.
Proof. intros o'. unfold coins_of, set_coin. case_decide as E; [subst; apply lookup_delete_eq|by apply lookup_delete_ne]. Qed.
Lemma coins_of_insert m o c : coins_of (<[o := c]> m) ≡c set_coin (coins_of m) o (Some c).
Proof. intros o'. unfold coins_of, set_coin. case_decide as E; [subst; apply lookup_insert_eq|by apply lookup_insert_ne]. Qed.
Lemma total_in_eq C C' v : (∀ i, i ∈ v → C (prevout i) = C' (prevout i)) → total_in C v = total_in C' v.
Proof.
  unfold total_in. induction v as [|i v IH]; intros H; [done|]. cbn [foldr]. rewrite (H i) by (by left). rewrite IH; [done|]. intros j Hj. apply H. by right.
Qed.
Lemma spend_all_total v m : NoDup (map prevout v) → Forall (λ i, is_Some (m !! prevout i)) v →
  ∃ m', coins_of m' ≡c spend_all v (coins_of m) ∧ total_value m' = total_value m - total_in (coins_of m) v.
Proof.
  revert m. induction v as [|i v IH]; intros m Hn Hv; [exists m; split; [done|cbn; lia]|].
  cbn [map] in Hn. apply NoDup_cons in Hn as [Hi Hn]. apply list.Forall_cons in Hv as [[c Hc] Hv].
  assert (Hkeep : ∀ j, j ∈ v → prevout j ≠ prevout i) by (intros j Hj E; apply Hi; rewrite <- E; by apply list_elem_of_fmap_2).
  destruct (IH (delete (prevout i) m) Hn) as (m' & E & Ht).
  { rewrite Forall_forall in Hv |- *. intros j Hj. rewrite lookup_delete_ne by (intros E; by apply (Hkeep j Hj)). by apply Hv. }
  exists m'. split.
  - rewrite E. change (spend_all (i :: v) (coins_of m)) with (spend_all v (set_coin (coins_of m) (prevout i) None)). by rewrite coins_of_delete.
  - rewrite Ht, (total_value_delete m _ c Hc). unfold total_in at 2. cbn [foldr]. unfold coins_of at 2. rewrite Hc. cbn [coin_value]. fold (total_in (coins_of m) v).
    rewrite (total_in_eq (coins_of (delete (prevout i) m)) (coins_of m)); [lia|]. intros j Hj. apply lookup_delete_ne. intros E'. by apply (Hkeep j Hj).
Qed.
Lemma add_all_total txid mk i v m : (∀ o, nValue (out (mk o)) = nValue o) → 0 ≤ i → i + Z.of_nat (length v) ≤ 2 ^ 32 →
  (∀ n, i ≤ n < 2 ^ 32 → m !! mkCOutPoint txid (u32 n) = None) →
  ∃ m', coins_of m' ≡c add_all txid mk i v (coins_of m) ∧ total_value m' = total_value m + spendable_value v.
Proof.
  intros Hmk. revert i m. induction v as [|o v IH]; intros i m Hi Hl Hm; [exists m; split; [done|cbn; lia]|].
  cbn [length add_all spendable_value foldr] in *. fold (spendable_value v). destruct (IsUnspendable (scriptPubKey o)).
  - destruct (IH (i + 1) m ltac:(lia) ltac:(lia)) as (m' & E & Ht); [intros n Hn; apply Hm; lia|]. exists m'. split; [done|lia].
  - destruct (IH (i + 1) (<[mkCOutPoint txid (u32 i) := mk o]> m) ltac:(lia) ltac:(lia)) as (m' & E & Ht).
    { intros n Hn. rewrite lookup_insert_ne by (apply outpoint_neq; lia). apply Hm. lia. }
    exists m'. split; [rewrite E; by rewrite coins_of_insert|]. rewrite Ht, total_value_insert, Hmk by (apply Hm; lia). lia.
Qed.
Lemma spendable_bound v : Forall (λ o, 0 ≤ nValue o) v → 0 ≤ spendable_value v ≤ sum_values v.
Proof. induction 1 as [|o v Ho _ IH]; [done|]. cbn [spendable_value sum_values foldr]. fold (spendable_value v) (sum_values v). destruct (IsUnspendable _); lia. Qed.

(** One transaction moves the supply by what it spends and what it creates. *)
Lemma apply_tx_total tx txid nHeight m C : C ≡c coins_of m → tx_applies tx txid C →
  ∃ m', apply_tx tx txid nHeight C ≡c coins_of m' ∧
    total_value m' = total_value m + spendable_value (vout tx) - (if IsCoinBase tx then 0 else total_in C (vin tx)).
Proof.
  intros HC [_ Hin Hsz _ Hnew]. unfold apply_tx.
  assert (Hspend : ∃ m1, (if IsCoinBase tx then C else spend_all (vin tx) C) ≡c coins_of m1 ∧
    total_value m1 = total_value m - (if IsCoinBase tx then 0 else total_in C (vin tx))).
  { destruct (IsCoinBase tx); [exists m; split; [done|lia]|]. destruct (Hin eq_refl) as [Hnd Hall].
    destruct (spend_all_total (vin tx) m Hnd) as (m1 & E1 & Ht).
    - eapply list.Forall_impl; [exact Hall|]. intros i (c & Hc & _). exists c. rewrite <- Hc. symmetry. apply HC.
    - exists m1. split; [by rewrite E1, HC|]. rewrite Ht. f_equal. apply total_in_eq. intros i _. symmetry. apply HC. }
  destruct Hspend as (m1 & E1 & Ht1).
  destruct (add_all_total txid (tx_coin tx nHeight) 0 (vout tx) m1 ltac:(done) ltac:(lia) ltac:(lia)) as (m' & E & Ht).
  { intros n _. change (coins_of m1 (mkCOutPoint txid (u32 n)) = None). rewrite <- (E1 _). apply Hnew. }
  exists m'. split; [rewrite E; by rewrite E1|lia].
Qed.
Lemma block_supply sizes vtx i nHeight C m : C ≡c coins_of m → block_applies i vtx nHeight C → block_checked sizes vtx nHeight C →
  ∃ m', apply_block vtx nHeight C ≡c coins_of m' ∧ total_value m' ≤ total_value m + block_minted vtx nHeight C.
Proof.
  revert i C m. induction vtx as [|tx vtx IH]; intros i C m HC Ha Hc; [exists m; split; [done|cbn; lia]|].
  cbn [block_applies block_checked apply_block block_minted] in *. destruct Ha as (txid & _ & Ha & Hrest), Hc as (Hv & Hin & Hc).
  assert (Et : txid_default tx = txid) by (unfold txid_default; by rewrite (ta_hash _ _ _ Ha)). rewrite Et in *.
  destruct (apply_tx_total tx txid nHeight m C HC Ha) as (m1 & E1 & Ht1).
  destruct (IH (S i) _ m1 E1 Hrest Hc) as (m' & E' & Ht'). exists m'. split; [done|].
  assert (Hpos : Forall (λ o, 0 ≤ nValue o) (vout tx)).
  { eapply list.Forall_impl; [exact (tv_outputs _ _ _ Hv)|]. intros o Ho. apply Ho. }
  pose proof (spendable_bound (vout tx) Hpos) as Hb. unfold minted in *. destruct (IsCoinBase tx); [lia|]. destruct (Hin eq_refl) as (_ & _ & Hle).
  destruct (IsCoinStake tx); [lia|]. specialize (Hle eq_refl). lia.
Qed.

(** No transaction but a coinbase or a coinstake creates money.  From any finite set of
    coins, a block whose transactions apply in order and pass the two checks at
    their turn leaves a finite set of coins whose value is at most the value before,
    plus the outputs of its coinbase and the gain of its coinstake. *)
Theorem supply_conserved (sizes : BlockSizeParams) (vtx : list CTransaction) (nHeight : Z) (m : gmap COutPoint Coin)
  (Ha : block_applies 0 vtx nHeight (coins_of m)) (Hc : block_checked sizes vtx nHeight (coins_of m)) :
  ∃ m', apply_block vtx nHeight (coins_of m) ≡c coins_of m' ∧
    total_value m' ≤ total_value m + block_minted vtx nHeight (coins_of m).
Proof. by apply (block_supply sizes vtx 0). Qed.


(** A block with a coinbase and a transaction that spends the one coin there is. *)
Definition supply_coinbase : CTransaction :=
  mkCTransaction 1 [mkCTxIn COutPoint_null [OP_1; OP_1] 0xffffffff []] [mkCTxOut 50 [OP_1]; mkCTxOut 0 [OP_RETURN]] 0.
Definition supply_coins : gmap COutPoint Coin := {[outpoint_example 0 := coin_example 10]}.
Lemma supply_txids : ∃ t1 t2, GetHash supply_coinbase = Some t1 ∧ GetHash spend_example = Some t2 ∧
  t2 ≠ t1 ∧ t2 ≠ replicate 32 7 ∧ t1 ≠ replicate 32 7.
Proof.
  assert (E : is_Some (GetHash supply_coinbase) ∧ is_Some (GetHash spend_example)) by (vm_compute; split; by eexists).
  destruct E as [[t1 H1] [t2 H2]]. exists t1, t2. split; [exact H1|split; [exact H2|]]. revert H1 H2. vm_compute. intros [= <-] [= <-]. done.
Qed.
Lemma supply_coins_at o : o ≠ outpoint_example 0 → coins_of supply_coins o = None.
Proof. intros Ho. unfold coins_of, supply_coins. by apply lookup_singleton_ne. Qed.
Lemma supply_applies : block_applies 0 [supply_coinbase; spend_example] 9 (coins_of supply_coins).
Proof.
  destruct supply_txids as (t1 & t2 & H1 & H2 & Hne & Hb2 & Hb1). exists t1. split; [reflexivity|]. split.
  { split; [exact H1|by intros [=]|vm_compute; reflexivity|by apply (bool_decide_unpack _)|]. intros n. apply supply_coins_at. by intros [= E _]. }
  exists t2. split; [reflexivity|]. split; [|exact I]. split; [exact H2| |vm_compute; reflexivity|by apply (bool_decide_unpack _)|].
  - intros _. split; [apply NoDup_singleton|]. apply Forall_singleton. exists (coin_example 10). split; [|by split].
    unfold apply_tx. rewrite add_all_other; [reflexivity|]. intros k _ [= E _]. by destruct Hb1.
  - intros n. assert (Hn : coins_of supply_coins (mkCOutPoint t2 n) = None) by (apply supply_coins_at; by intros [= E _]).
    rewrite <- Hn. etransitivity; [apply spend_all_notin|].
    + intros [E|[]%elem_of_nil]%elem_of_cons. injection E as E _. by destruct Hb2.
    + unfold apply_tx. rewrite add_all_other; [reflexivity|]. intros k _ [= E _]. by destruct Hne.
Qed.
Lemma valid_by_check tx : Forall (λ o, bytes_ok (scriptPubKey o)) (vout tx) →
  CheckTransaction default_sizes tx false new_CValidationState = Some (true, new_CValidationState) → transaction_valid default_sizes tx false.
Proof.
  intros Hb E. destruct (check_transaction_spec default_sizes tx false new_CValidationState Hb) as [[Hv _]|(_ & s' & E' & _)]; [exact Hv|].
  rewrite E in E'. discriminate E'.
Qed.
Lemma scripts_by_bool v : forallb (λ o, u8sb (scriptPubKey o)) v = true → Forall (λ o, bytes_ok (scriptPubKey o)) v.
Proof. intros E. revert E. apply forallb_Forall. intros o Ho. by apply u8sb_ok. Qed.
Lemma supply_checked : block_checked default_sizes [supply_coinbase; spend_example] 9 (coins_of supply_coins).
Proof.
  split; [apply valid_by_check; [apply scripts_by_bool; reflexivity|vm_compute; reflexivity]|]. split; [by intros [=]|].
  split; [apply valid_by_check; [apply scripts_by_bool; reflexivity|vm_compute; reflexivity]|]. split; [|exact I]. intros _.
  destruct supply_txids as (t1 & t2 & H1 & _ & _ & _ & Hb1).
  assert (Hc : apply_tx supply_coinbase (txid_default supply_coinbase) 9 (coins_of supply_coins) (outpoint_example 0) = Some (coin_example 10)).
  { unfold txid_default. rewrite H1. cbn [default]. unfold apply_tx. rewrite add_all_other; [reflexivity|]. intros k _ [= E _]. by destruct Hb1. }
  split_and!.
  - apply Forall_singleton. exists (coin_example 10). split; [exact Hc|]. split; [by intros [|]|vm_compute; split; intros E; discriminate E].
  - unfold total_in, spend_example. cbn [vin foldr prevout]. rewrite Hc. vm_compute. intros E. discriminate E.
  - intros _. unfold total_in, spend_example. cbn [vin vout foldr prevout]. rewrite Hc. vm_compute. intros E. discriminate E.
Qed.
Lemma supply_conserved_witness : total_value supply_coins = 10 ∧
  ∃ m', apply_block [supply_coinbase; spend_example] 9 (coins_of supply_coins) ≡c coins_of m' ∧
    total_value m' ≤ 10 + block_minted [supply_coinbase; spend_example] 9 (coins_of supply_coins).
Proof.
  split; [reflexivity|].
  exact (supply_conserved default_sizes [supply_coinbase; spend_example] 9 supply_coins supply_applies supply_checked).
Defined.
