(* ===== verification/BlockCheck.v ===== *)
(** * Checking blocks (src/src/validation.cpp)

    The checks of a header and of a block on their own ([CheckBlock]) and against the
    block they follow ([ContextualCheckBlockHeader], [ContextualCheckBlock]), and the witness
    commitment of the coinbase. *)

From stdpp Require Import base numbers list option gmap strings.
From Stdlib Require Import ZArith Lia ZifyNat ZifyBool.
From S2P Require Import Prelude Endian Sha256 Fips202 Hash BlockStream StrEncodings Script Serialize Transaction ArithUint256 Coins Standard Block Merkle.
From S2P Require Import BlockIndex TicketPool CoinsUpdate Pow VersionBits Validation TxVerify.

(** ** Contract instructions of a transaction (src/src/primitives/transaction.cpp) *)
Fixpoint has_create_or_call (v : list CTxOut) : option bool :=
  match v with
  | [] => Some false
  | o :: v =>
      create ← HasOpCreate (scriptPubKey o);
      if create : bool then Some true
      else call ← HasOpCall (scriptPubKey o); if call : bool then Some true else has_create_or_call v
  end.
Definition tx_HasCreateOrCall (tx : CTransaction) : option bool := has_create_or_call (vout tx).
Definition tx_HasOpSpend (tx : CTransaction) : bool := existsb (λ i, HasOpSpend (scriptSig i)) (vin tx).

(** ** The header on its own *)
Definition CheckHeaderPoW (block : CBlockHeader) (params : Params) : option bool :=
  hash ← Header_GetHash block; Some (CheckProofOfWork hash (nBits (old block)) params).
Definition CheckBlockHeader (block : CBlockHeader) (params : Params) (fCheckPOW : bool) (state : CValidationState) : option (bool * CValidationState) :=
  ok ← (if fCheckPOW && IsProofOfWork (old block) then CheckHeaderPoW block params else Some true);
  Some (if ok : bool then (true, state) else (false, DoS 50 REJECT_INVALID "high-hash" false (Message "proof of work failed") state)).
(** Signatures of blocks by stake: none are checked any more. *)
Definition CheckBlockSignature (block : CBlock) : bool := IsProofOfWork (old (header block)).
Definition IsCanonicalBlockSignature (pblock : CBlock) (checkLowS : bool) : bool := IsProofOfWork (old (header pblock)).
Definition CheckCanonicalBlockSignature (pblock : CBlock) : bool :=
  let ret := IsCanonicalBlockSignature pblock false in
  if ret then IsCanonicalBlockSignature pblock true else ret.

(** ** The block on its own *)
Definition fail (level : Z) (reason : string) (corruption : bool) (debug : string) (state : CValidationState) : bool * CValidationState :=
  (false, DoS level REJECT_INVALID reason corruption (Message debug) state).
Fixpoint check_transactions (sizes : BlockSizeParams) (vtx : list CTransaction) (lastWasContract : bool) (state : CValidationState)
  : option (bool * CValidationState) :=
  match vtx with
  | [] => Some (true, state)
  | tx :: vtx =>
      '(ok, state) ← CheckTransaction sizes tx true state;
      if negb ok then
        hash ← GetHash tx;
        Some (false, Invalid (chRejectCode state) (strRejectReason state) (TransactionCheckFailed hash (strDebugMessage state)) state)
      else if tx_HasOpSpend tx && negb lastWasContract then
        Some (fail 100 "bad-opspend-tx" false "OP_SPEND transaction without corresponding contract transaction" state)
      else
        contract ← tx_HasCreateOrCall tx;
        check_transactions sizes vtx (contract || tx_HasOpSpend tx) state
  end.
Fixpoint block_sigops (vtx : list CTransaction) (nSigOps : Z) : option Z :=
  match vtx with
  | [] => Some nSigOps
  | tx :: vtx => n ← GetLegacySigOpCount tx; block_sigops vtx (u32 (nSigOps + n))
  end.
Definition block_size (block : CBlock) : Z := Z.of_nat (length (SerializeBlock false block)).

(** The Merkle root, when it is asked for: the refusal, if there is one. *)
Definition check_merkle_root (block : CBlock) (fCheckMerkleRoot : bool) (state : CValidationState) : option (option (bool * CValidationState)) :=
  if fCheckMerkleRoot then
    '(hashMerkleRoot2, mutated) ← BlockMerkleRoot block;
    if negb (bool_decide (hashMerkleRoot (old (header block)) = hashMerkleRoot2)) then
      Some (Some (fail 100 "bad-txnmrklroot" true "hashMerkleRoot mismatch" state))
    else if (mutated : bool) then Some (Some (fail 100 "bad-txns-duplicate" true "duplicate transaction" state))
    else Some None
  else Some None.
(** The transactions and the signature operations, after the checks of the coinbase. *)
Definition check_body (sizes : BlockSizeParams) (block : CBlock) (state : CValidationState) : option (bool * CValidationState) :=
  '(ok, state) ← check_transactions sizes (vtx block) false state;
  if negb ok then Some (false, state)
  else
    nSigOps ← block_sigops (vtx block) 0;
    if u32 (nSigOps * WITNESS_SCALE_FACTOR) >? dgpMaxBlockSigOps sizes
    then Some (fail 100 "bad-blk-sigops" false "out-of-bounds SigOpCount" state)
    else Some (true, state).
Definition check_contents (sizes : BlockSizeParams) (block : CBlock) (state : CValidationState) : option (bool * CValidationState) :=
  match vtx block with
  | [] => Some (fail 100 "bad-blk-length" false "size limits failed" state)
  | coinbase :: rest =>
      if (Z.of_nat (length (vtx block)) >? dgpMaxBlockSize sizes) || (block_size block >? dgpMaxBlockSize sizes)
      then Some (fail 100 "bad-blk-length" false "size limits failed" state)
      else if negb (IsCoinBase coinbase) then Some (fail 100 "bad-cb-missing" false "first tx is not coinbase" state)
      else if existsb IsCoinBase rest then Some (fail 100 "bad-cb-multiple" false "more than one coinbase" state)
      else
        contract ← (if tx_HasOpSpend coinbase then Some true else tx_HasCreateOrCall coinbase);
        if contract : bool then Some (fail 100 "bad-cb-contract" false "coinbase must not contain OP_SPEND, OP_CALL, or OP_CREATE" state)
        else check_body sizes block state
  end.
(** The result, the state and the mark [fChecked] that the block keeps in memory. *)
Definition CheckBlock (sizes : BlockSizeParams) (params : Params) (block : CBlock) (fChecked : bool) (state : CValidationState)
    (fCheckPOW fCheckMerkleRoot : bool) : option (bool * CValidationState * bool) :=
  if fChecked then Some (true, state, fChecked)
  else
    '(ok, state) ← CheckBlockHeader (header block) params fCheckPOW state;
    if negb ok then Some (false, state, fChecked)
    else
      r ← check_merkle_root block fCheckMerkleRoot state;
      match r with
      | Some (_, state) => Some (false, state, fChecked)
      | None =>
          '(ok, state) ← check_contents sizes block state;
          Some (ok, state, if (ok : bool) then fCheckPOW && fCheckMerkleRoot || fChecked else fChecked)
      end.

(** ** The witness commitment *)
Definition is_commitment (s : bytes) : bool :=
  (38 <=? length s)%nat && (char_at s 0 =? OP_RETURN) && (char_at s 1 =? 0x24) && (char_at s 2 =? 0xaa)
  && (char_at s 3 =? 0x21) && (char_at s 4 =? 0xa9) && (char_at s 5 =? 0xed).
Fixpoint commitment_loop (v : list CTxOut) (o commitpos : Z) : Z :=
  match v with
  | [] => commitpos
  | out :: v => commitment_loop v (o + 1) (if is_commitment (scriptPubKey out) then i32 o else commitpos)
  end.
Definition GetWitnessCommitmentIndex (block : CBlock) : Z :=
  match vtx block with [] => -1 | tx :: _ => commitment_loop (vout tx) 0 (-1) end.
(** A proof-of-stake block must have an empty coinbase, but for the commitment. *)
Definition CheckFirstCoinstakeOutput (block : CBlock) : option bool :=
  tx ← head (vtx block);
  if GetWitnessCommitmentIndex block <? 0 then
    Some (match vout tx with [o] => CTxOut_IsEmpty o | _ => false end)
  else Some (match vout tx with [o; c] => CTxOut_IsEmpty o && (nValue c =? 0) | _ => false end).
Definition IsWitnessEnabled (h : heap) (pindexPrev : option ptr) (params : Params) (cache : VersionBitsCache) : option (bool * VersionBitsCache) :=
  '(s, cache) ← VersionBitsState h pindexPrev params DEPLOYMENT_SEGWIT cache;
  Some (bool_decide (s = THRESHOLD_ACTIVE), cache).
Definition zero_nonce : bytes := replicate 32 0.
(** The first transaction of a block replaced. *)
Definition set_coinbase (block : CBlock) (tx : CTransaction) : CBlock := mkBlock (header block) (tx :: drop 1 (vtx block)).
Definition UpdateUncommittedBlockStructures (h : heap) (block : CBlock) (pindexPrev : option ptr) (params : Params) (cache : VersionBitsCache)
  : option (CBlock * VersionBitsCache) :=
  let commitpos := GetWitnessCommitmentIndex block in
  if commitpos =? -1 then Some (block, cache)
  else
    '(enabled, cache) ← IsWitnessEnabled h pindexPrev params cache;
    if negb enabled then Some (block, cache)
    else
      tx ← head (vtx block);
      if HasWitness tx then Some (block, cache)
      else
        match vin tx with
        | [] => None
        | i :: v =>
            let i := mkCTxIn (prevout i) (scriptSig i) (nSequence i) [zero_nonce] in
            Some (set_coinbase block (mkCTransaction (nVersion tx) (i :: v) (vout tx) (nLockTime tx)), cache)
        end.
Definition commitment_script (witnessroot : bytes) : bytes := [OP_RETURN; 0x24; 0xaa; 0x21; 0xa9; 0xed] ++ witnessroot.
(** The script of the commitment, when one is added, and the block. *)
Definition GenerateCoinbaseCommitment (h : heap) (block : CBlock) (pindexPrev : option ptr) (params : Params) (fProofOfStake : bool) (cache : VersionBitsCache)
  : option (bytes * CBlock * VersionBitsCache) :=
  let commitpos := GetWitnessCommitmentIndex block in
  '(commitment, block) ←
    (if negb (nTimeout (vDeployments params DEPLOYMENT_SEGWIT) =? 0) && (commitpos =? -1) then
       '(witnessroot, _) ← BlockWitnessMerkleRoot block (Some fProofOfStake);
       let out := mkCTxOut 0 (commitment_script (CombineHash witnessroot zero_nonce)) in
       tx ← head (vtx block);
       Some (scriptPubKey out, set_coinbase block (mkCTransaction (nVersion tx) (vin tx) (vout tx ++ [out]) (nLockTime tx)))
     else Some ([], block));
  '(block, cache) ← UpdateUncommittedBlockStructures h block pindexPrev params cache;
  Some (commitment, block, cache).

(** ** The header in its context *)

(** [strprintf("%08x", n)] of 32 bits. *)
Definition hex8 (n : Z) : bytes := HexStr (rev (to_digits 256 4 (u32 n))) false.
Definition string_of_bytes (b : bytes) : string := String.string_of_list_ascii (map (λ c, Ascii.ascii_of_N (Z.to_N c)) b).
Definition bad_version (n : Z) : string := "bad-version(0x" +:+ string_of_bytes (hex8 n) +:+ ")".
Definition rejected_version (n : Z) : string := "rejected nVersion=0x" +:+ string_of_bytes (hex8 n) +:+ " block".

(** [MapCheckpoints], in the order of its keys; the greatest that is in the index. *)
Definition GetLastCheckpoint (mapCheckpoints : list (Z * bytes)) (mapBlockIndex : gmap bytes ptr) : option ptr :=
  head (omap (λ i : Z * bytes, mapBlockIndex !! snd i) (rev mapCheckpoints)).
Definition FutureDrift (nTime : Z) : Z := u32 (nTime + 15).
(** A block below the last checkpoint is off the main chain. *)
Definition before_checkpoint (h : heap) (pcheckpoint : option ptr) (nHeight : Z) : option bool :=
  match pcheckpoint with
  | None => Some false
  | Some p => n ← h !! p; Some (nHeight <? BlockIndex.nHeight n)
  end.
Definition time_too_old (h : heap) (block : CBlockHeader) (pindexPrev : ptr) : option bool :=
  if IsProofOfStake (old block) then t ← GetMedianTimePast h pindexPrev; Some (GetBlockTime (old block) <=? t) else Some false.
Definition ContextualCheckBlockHeader (t : BlockTree) (params : Params) (fCheckpointsEnabled : bool) (mapCheckpoints : list (Z * bytes))
    (block : CBlockHeader) (state : CValidationState) (pindexPrev : ptr) (nAdjustedTime : Z) : option (bool * CValidationState) :=
  n ← nodes t !! pindexPrev;
  let nHeight := i32 (BlockIndex.nHeight n + 1) in
  work ← GetNextWorkRequired (nodes t) pindexPrev block params;
  if negb (nBits (old block) =? work) then Some (fail 100 "bad-diffbits" false "incorrect difficulty value" state)
  else
    forked ← (if fCheckpointsEnabled then before_checkpoint (nodes t) (GetLastCheckpoint mapCheckpoints (mapBlockIndex t)) nHeight else Some false);
    if forked : bool then Some (false, DoS 100 REJECT_CHECKPOINT "bad-fork-prior-to-checkpoint" false NoDebugMessage state)
    else
      old_ ← time_too_old (nodes t) block pindexPrev;
      if old_ : bool then Some (false, Invalid REJECT_INVALID "time-too-old" (Message "block's timestamp is too early") state)
      else if IsProofOfStake (old block) && (GetBlockTime (old block) >? FutureDrift nAdjustedTime)
      then Some (false, Invalid REJECT_INVALID "time-too-new" (Message "block timestamp too far in the future") state)
      else
        let nVersion := bh_nVersion (old block) in
        if (nVersion <? 2) && (BIP34Height params <=? nHeight) || (nVersion <? 3) && (BIP66Height params <=? nHeight)
           || (nVersion <? 4) && (BIP65Height params <=? nHeight)
        then Some (false, Invalid REJECT_OBSOLETE (bad_version nVersion) (Message (rejected_version nVersion)) state)
        else Some (true, state).

(** ** The block in its context *)

(** The coinbase starts with the height, when that is asked for. *)
Definition starts_with_height (block : CBlock) (nHeight : Z) : option bool :=
  let expect := push_int64 [] nHeight in
  tx ← head (vtx block);
  i ← head (vin tx);
  Some (bool_decide (take (length expect) (scriptSig i) = expect)).
(** The witness commitment at [commitpos]: the refusal, if there is one. *)
Definition check_commitment (block : CBlock) (commitpos : Z) (state : CValidationState) : option (option (bool * CValidationState)) :=
  '(hashWitness, _) ← BlockWitnessMerkleRoot block None;
  tx ← head (vtx block);
  i ← head (vin tx);
  match scriptWitness i with
  | [nonce] =>
      if negb (length nonce =? 32)%nat then Some (Some (fail 100 "bad-witness-nonce-size" true "ContextualCheckBlock : invalid witness nonce size" state))
      else
        out ← vout tx !! Z.to_nat commitpos;
        if bool_decide (CombineHash hashWitness nonce = take 32 (drop 6 (scriptPubKey out))) then Some None
        else Some (Some (fail 100 "bad-witness-merkle-match" true "ContextualCheckBlock : witness merkle commitment mismatch" state))
  | _ => Some (Some (fail 100 "bad-witness-nonce-size" true "ContextualCheckBlock : invalid witness nonce size" state))
  end.
(** The end of the check: without a commitment no transaction has a witness. *)
Definition check_witness (block : CBlock) (active : bool) (state : CValidationState) : option (bool * CValidationState) :=
  let commitpos := GetWitnessCommitmentIndex block in
  if active && negb (commitpos =? -1) then
    r ← check_commitment block commitpos state;
    Some (match r with Some r => r | None => (true, state) end)
  else if existsb HasWitness (vtx block)
  then Some (fail 100 "unexpected-witness" true "ContextualCheckBlock : unexpected witness data found" state)
  else Some (true, state).
Definition ContextualCheckBlock (h : heap) (params : Params) (block : CBlock) (state : CValidationState) (pindexPrev : option ptr) (cache : VersionBitsCache)
  : option (bool * CValidationState * VersionBitsCache) :=
  nHeight ← (match pindexPrev with None => Some 0 | Some p => n ← h !! p; Some (i32 (BlockIndex.nHeight n + 1)) end);
  '(csv, cache) ← VersionBitsState h pindexPrev params DEPLOYMENT_CSV cache;
  nLockTimeCutoff ← (if bool_decide (csv = THRESHOLD_ACTIVE) then p ← pindexPrev; GetMedianTimePast h p
                     else Some (GetBlockTime (old (header block))));
  if negb (forallb (λ tx, IsFinalTx tx nHeight nLockTimeCutoff) (vtx block))
  then Some (fail 10 "bad-txns-nonfinal" false "non-final transaction" state, cache)
  else
    ok ← (if BIP34Height params <=? nHeight then starts_with_height block nHeight else Some true);
    if negb ok then Some (fail 100 "bad-cb-height" false "block height mismatch in coinbase" state, cache)
    else
      '(segwit, cache) ← VersionBitsState h pindexPrev params DEPLOYMENT_SEGWIT cache;
      r ← check_witness block (bool_decide (segwit = THRESHOLD_ACTIVE)) state;
      Some (r, cache).

(** ** Proofs: signature operations *)
Definition sum_map {A} (f : A → Z) (l : list A) : Z := foldr (λ x acc, f x + acc) 0 l.
(** The signature operations of a block, counted without wrapping. *)
Definition script_sigops (s : bytes) : Z := sigops false OP_INVALIDOPCODE (fst (script_ops (length s) s)).
Definition tx_sigops (tx : CTransaction) : Z := sum_map script_sigops (map scriptSig (vin tx) ++ map scriptPubKey (vout tx)).
Definition total_sigops (block : CBlock) : Z := sum_map tx_sigops (vtx block).

Section SigOps.
Context {A : Type}.
Implicit Types (l : list A) (f g : A → Z).
Lemma sum_map_app f l l' : sum_map f (l ++ l') = sum_map f l + sum_map f l'.
Proof. unfold sum_map. induction l as [|x l IH]; cbn [foldr app]; [done|]. rewrite IH. lia. Qed.
Lemma sum_map_le f g l : (∀ x, f x ≤ g x) → sum_map f l ≤ sum_map g l.
Proof. intros H. induction l as [|x l IH]; cbn [sum_map foldr]; [done|]. specialize (H x). unfold sum_map in IH. lia. Qed.
Lemma sum_map_nonneg f l : (∀ x, 0 ≤ f x) → 0 ≤ sum_map f l.
Proof. intros H. induction l as [|x l IH]; cbn [sum_map foldr]; [done|]. specialize (H x). unfold sum_map in IH. lia. Qed.
Lemma sum_map_scale c f l : sum_map (λ x, c * f x) l = c * sum_map f l.
Proof. induction l as [|x l IH]; cbn [sum_map foldr]; [lia|]. unfold sum_map in IH. lia. Qed.
End SigOps.
Lemma sum_map_map {A B} (f : B → Z) (g : A → B) l : sum_map f (map g l) = sum_map (λ x, f (g x)) l.
Proof. unfold sum_map. induction l as [|x l IH]; cbn [foldr map]; [done|]. by rewrite IH. Qed.
Lemma length_concat_sum {A} (l : list (list A)) : Z.of_nat (length (concat l)) = sum_map (λ x, Z.of_nat (length x)) l.
Proof. induction l as [|x l IH]; cbn [sum_map foldr concat]; [done|]. rewrite length_app, Nat2Z.inj_add, IH. done. Qed.

Lemma length_script_ops fuel pc : (length (fst (script_ops fuel pc)) ≤ length pc)%nat.
Proof.
  revert pc. induction fuel as [|fuel IH]; intros pc; cbn [script_ops].
  - destruct (GetOp2 pc) as [[[? ?] ?]|]; cbn [fst length]; lia.
  - destruct (GetOp2 pc) as [[[op data] rest]|] eqn:E; [|cbn [fst length]; lia]. pose proof (GetOp2_shorter _ _ _ _ E).
    specialize (IH rest). destruct (script_ops fuel rest) as [l r]. cbn [fst length] in *. lia.
Qed.
Lemma sigops_bounds last l : 0 ≤ sigops false last l ≤ 20 * Z.of_nat (length l).
Proof.
  revert last. induction l as [|[op data] l IH]; intros last; cbn [sigops length]; [lia|]. specialize (IH op). cbn [andb]. repeat case_match; lia.
Qed.
Lemma script_sigops_bounds s : 0 ≤ script_sigops s ≤ 20 * Z.of_nat (length s).
Proof. unfold script_sigops. pose proof (sigops_bounds OP_INVALIDOPCODE (fst (script_ops (length s) s))). pose proof (length_script_ops (length s) s). lia. Qed.
Lemma tx_sigops_bounds tx : 0 ≤ tx_sigops tx ≤ 20 * sum_map (λ s, Z.of_nat (length s)) (map scriptSig (vin tx) ++ map scriptPubKey (vout tx)).
Proof.
  unfold tx_sigops. rewrite <- sum_map_scale. split; [apply sum_map_nonneg|apply sum_map_le]; intros s; apply script_sigops_bounds.
Qed.
Lemma legacy_sigops_spec v n : is_u32 n → legacy_sigops v n = Some (u32 (n + sum_map script_sigops v)).
Proof.
  revert n. induction v as [|s v IH]; intros n Hn; cbn [legacy_sigops sum_map foldr]; [by rewrite Z.add_0_r, u32_small|].
  unfold GetSigOpCount. rewrite GetSigOpCount_loop_spec by (done || lia). cbn [mbind option_bind].
  rewrite IH, u32_add_r, u32_add_l by apply u32_range. unfold sum_map, script_sigops. do 2 f_equal. lia.
Qed.
Lemma GetLegacySigOpCount_spec tx : GetLegacySigOpCount tx = Some (u32 (tx_sigops tx)).
Proof.
  unfold GetLegacySigOpCount. rewrite legacy_sigops_spec by done. cbn [mbind option_bind].
  rewrite legacy_sigops_spec, u32_add_l by apply u32_range. unfold tx_sigops. rewrite sum_map_app. done.
Qed.
Lemma block_sigops_spec v n : is_u32 n → block_sigops v n = Some (u32 (n + sum_map tx_sigops v)).
Proof.
  revert n. induction v as [|tx v IH]; intros n Hn; cbn [block_sigops sum_map foldr]; [by rewrite Z.add_0_r, u32_small|].
  rewrite GetLegacySigOpCount_spec. cbn [mbind option_bind].
  rewrite IH, u32_add_r, u32_add_l by apply u32_range. unfold sum_map. do 2 f_equal. lia.
Qed.

(** A block holds its scripts: no count of its signature operations wraps. *)
Lemma vector_holds {A} (c : codec A) (f : A → Z) v : (∀ x, f x ≤ Z.of_nat (length (enc c x))) →
  sum_map f v ≤ Z.of_nat (length (enc (vector_codec c) v)).
Proof.
  intros H. cbn [enc vector_codec]. unfold ser_vector. rewrite length_app, Nat2Z.inj_add, length_concat_sum, sum_map_map.
  pose proof (sum_map_le f (λ x, Z.of_nat (length (enc c x))) v H). lia.
Qed.
Lemma blob_holds s : Z.of_nat (length s) ≤ Z.of_nat (length (enc blob_codec s)).
Proof. cbn [enc blob_codec]. unfold ser_blob, ser_string. rewrite length_app. lia. Qed.
Lemma tx_holds tx : sum_map (λ s, Z.of_nat (length s)) (map scriptSig (vin tx) ++ map scriptPubKey (vout tx)) ≤ stripped_size tx.
Proof.
  unfold stripped_size. rewrite SerializeTransaction_eq. cbn [andb]. unfold basic. rewrite !length_app, sum_map_app, !sum_map_map.
  assert (H1 : sum_map (λ x, Z.of_nat (length (scriptSig x))) (vin tx) ≤ Z.of_nat (length (enc vin_codec (vin tx)))).
  { apply vector_holds. intros i. unfold CTxIn_codec, pair_codec, iso_codec. cbn [enc fst snd]. rewrite !length_app. pose proof (blob_holds (scriptSig i)). lia. }
  assert (H2 : sum_map (λ x, Z.of_nat (length (scriptPubKey x))) (vout tx) ≤ Z.of_nat (length (enc vout_codec (vout tx)))).
  { apply vector_holds. intros i. unfold CTxOut_codec, pair_codec, iso_codec. cbn [enc fst snd]. rewrite !length_app. pose proof (blob_holds (scriptPubKey i)). lia. }
  lia.
Qed.
Lemma block_holds block : 0 ≤ total_sigops block ≤ 20 * block_size block.
Proof.
  unfold total_sigops. split; [apply sum_map_nonneg; intros; apply tx_sigops_bounds|].
  transitivity (sum_map (λ tx, 20 * stripped_size tx) (vtx block)).
  { apply sum_map_le. intros tx. pose proof (tx_sigops_bounds tx). pose proof (tx_holds tx). lia. }
  rewrite sum_map_scale. unfold block_size, SerializeBlock. rewrite length_app, Nat2Z.inj_add.
  pose proof (vector_holds (tx_codec false) stripped_size (vtx block) ltac:(done)) as H. cbn [enc vector_codec] in H. lia.
Qed.

(** ** Proofs: [CheckBlock] *)
Definition contract_tx (tx : CTransaction) : Prop := ∃ o, o ∈ vout tx ∧ contract_script (scriptPubKey o).
(** A transaction that spends from a contract follows one of a contract. *)
Definition spends_after_contracts (last : Prop) (vtx : list CTransaction) : Prop :=
  ∀ i tx, vtx !! i = Some tx → tx_HasOpSpend tx = true →
    match i with O => last | S j => ∃ prev, vtx !! j = Some prev ∧ (contract_tx prev ∨ tx_HasOpSpend prev = true) end.
Definition tx_wf (tx : CTransaction) : Prop :=
  tx_ok tx ∧ Z.of_nat (length (basic tx)) < 2 ^ 32 ∧ Forall (λ o, bytes_ok (scriptPubKey o)) (vout tx).
Definition block_wf (block : CBlock) : Prop :=
  header_ok (old (header block)) ∧ Forall tx_wf (vtx block) ∧ Z.of_nat (length (vtx block)) ≤ 2 ^ 31.
(** The root commits to the transactions, and no other list of transactions with that root is the same
    tree with a part repeated. *)
Definition root_ok (block : CBlock) : Prop :=
  ∃ txids, mapM GetHash (vtx block) = Some txids ∧
    hashMerkleRoot (old (header block)) = tree_root uint256_null CombineHash (length txids) txids ∧ ¬ duplicated CombineHash txids.
Definition work_ok (params : Params) (h : CBlockHeader) : Prop :=
  ∃ hash, Header_GetHash h = Some hash ∧ CheckProofOfWork hash (nBits (old h)) params = true.
Record contents_ok (sizes : BlockSizeParams) (block : CBlock) : Prop := {
  co_size : Z.of_nat (length (vtx block)) ≤ dgpMaxBlockSize sizes ∧ block_size block ≤ dgpMaxBlockSize sizes;
  co_coinbase : ∃ coinbase rest, vtx block = coinbase :: rest ∧ IsCoinBase coinbase = true ∧ Forall (λ tx, IsCoinBase tx = false) rest ∧
    tx_HasOpSpend coinbase = false ∧ ¬ contract_tx coinbase;
  co_txs : Forall (λ tx, transaction_valid sizes tx true) (vtx block);
  co_spends : spends_after_contracts False (vtx block);
  co_sigops : total_sigops block * WITNESS_SCALE_FACTOR ≤ dgpMaxBlockSigOps sizes }.

(** How a refused block leaves the state. *)
Definition block_refused (corruption : Prop) (state s' : CValidationState) : Prop :=
  strRejectReason s' ≠ ""%string ∧ chRejectCode s' = REJECT_INVALID ∧ (corruptionPossible s' = true ↔ corruption) ∧
  (mode state ≠ MODE_ERROR → mode s' = MODE_INVALID ∧ ∃ d, d ∈ [10; 50; 100] ∧ nDoS s' = i32 (nDoS state + d)).
Lemma DoS_refused level reason (corruption : bool) (P : Prop) debug state : level ∈ [10; 50; 100] → reason ≠ ""%string → (corruption = true ↔ P) →
  block_refused P state (DoS level REJECT_INVALID reason corruption debug state).
Proof.
  intros Hl Hr Hc. unfold block_refused, DoS. destruct (mode state); cbn [strRejectReason chRejectCode corruptionPossible mode nDoS]; split_and!; try done.
  1-2: intros _; split; [done|]; by exists level.
Qed.
Lemma refused_invalid state s' debug : refused state s' →
  block_refused False state (Invalid (chRejectCode s') (strRejectReason s') debug s').
Proof.
  intros (Hc & Hr & Hs). unfold block_refused, Invalid, DoS. destruct (mode s') eqn:Em; cbn [strRejectReason chRejectCode corruptionPossible mode nDoS].
  all: split_and!; try done; intros Hm; destruct (Hs Hm) as [Em' Hd]; try congruence.
  split; [done|]. assert (E : ∀ x, i32 (i32 x + 0) = i32 x).
  { intros x. rewrite Z.add_0_r. apply i32_small. unfold i32. pose proof (Z.mod_pos_bound (x + 2147483648) 4294967296 eq_refl). lia. }
  destruct Hd as [-> | ->]; rewrite E; [exists 10|exists 100]; (split; [set_solver|done]).
Qed.

Lemma has_create_or_call_spec v : ∃ b, has_create_or_call v = Some b ∧ (b = true ↔ ∃ o, o ∈ v ∧ contract_script (scriptPubKey o)).
Proof.
  induction v as [|o v (b & Eb & IH)]; cbn [has_create_or_call].
  { exists false. split; [done|]. split; [done|]. intros (o & Ho & _). by apply elem_of_nil in Ho. }
  unfold HasOpCreate, HasOpCall. destruct (Find_total (scriptPubKey o) OP_CREATE) as [n1 E1], (Find_total (scriptPubKey o) OP_CALL) as [n2 E2].
  rewrite E1, E2. cbn [mbind option_bind].
  assert (Hc : contract_script (scriptPubKey o) ↔ (n2 =? 1) = true ∨ (n1 =? 1) = true).
  { unfold contract_script, HasOpCreate, HasOpCall. rewrite E1, E2. cbn [mbind option_bind]. split; intros [H|H]; [left|right|left|right]; congruence. }
  exists ((n1 =? 1) || (n2 =? 1) || b). split; [by destruct (n1 =? 1), (n2 =? 1)|]. rewrite !orb_true_iff, IH. split.
  - intros [[H|H]|(o' & Ho & H)]; [exists o; split; [by left|]; apply Hc; tauto..|]. exists o'. split; [by right|done].
  - intros (o' & [->|Ho]%elem_of_cons & H); [left; apply Hc in H; tauto|]. right. by exists o'.
Qed.
Lemma tx_contract_spec tx : ∃ b, tx_HasCreateOrCall tx = Some b ∧ (b = true ↔ contract_tx tx).
Proof. apply has_create_or_call_spec. Qed.

Lemma spends_after_cons last tx v : spends_after_contracts last (tx :: v) ↔
  (tx_HasOpSpend tx = true → last) ∧ spends_after_contracts (contract_tx tx ∨ tx_HasOpSpend tx = true) v.
Proof.
  split.
  - intros H. split; [by apply (H 0%nat)|]. intros [|i] tx' E Hs; destruct (H (S _) tx' E Hs) as (prev & Ep & Hp).
    + cbn in Ep. injection Ep as <-. done.
    + by exists prev.
  - intros [H0 H] [|[|i]] tx' E Hs; cbn in E.
    + injection E as <-. by apply H0.
    + exists tx. split; [done|]. by apply (H 0%nat tx' E).
    + by apply (H (S i) tx' E).
Qed.
Lemma spends_after_iff P Q v : (P ↔ Q) → spends_after_contracts P v ↔ spends_after_contracts Q v.
Proof. intros H. split; intros Hs [|i] tx E Ht; apply (Hs _ tx E) in Ht; (by apply H) || done. Qed.
Lemma check_transactions_spec sizes v last state : Forall tx_wf v →
  (Forall (λ tx, transaction_valid sizes tx true) v ∧ spends_after_contracts (last = true) v ∧ check_transactions sizes v last state = Some (true, state)) ∨
  (¬ (Forall (λ tx, transaction_valid sizes tx true) v ∧ spends_after_contracts (last = true) v) ∧
   ∃ s', check_transactions sizes v last state = Some (false, s') ∧ block_refused False state s').
Proof.
  intros Hv. revert last. induction Hv as [|tx v (Hok & Hlen & Hb) _ IH]; intros last; cbn [check_transactions].
  { left. split_and!; [constructor| |done]. intros i tx E. by rewrite lookup_nil in E. }
  rewrite spends_after_cons, list.Forall_cons.
  destruct (check_transaction_spec sizes tx true state Hb) as [[Htx E]|(Htx & s' & E & Hr)]; rewrite E; cbn [mbind option_bind negb].
  2:{ right. split; [tauto|]. destruct (GetHash_total tx Hok Hlen) as (hash & Eh & _). rewrite Eh. cbn [mbind option_bind].
      eexists. split; [done|]. by apply refused_invalid. }
  destruct (tx_HasOpSpend tx && negb last) eqn:Es.
  { apply andb_true_iff in Es as [Es El]. right. split.
    - intros [_ [H _]]. destruct last; [done|]. by specialize (H Es).
    - eexists. split; [done|]. apply DoS_refused; [set_solver|done|done]. }
  assert (Hs : tx_HasOpSpend tx = true → last = true) by (intros Ht; rewrite Ht in Es; by destruct last).
  destruct (tx_contract_spec tx) as (c & Ec & Hc). rewrite Ec. cbn [mbind option_bind].
  rewrite (spends_after_iff _ (c || tx_HasOpSpend tx = true)) by (by rewrite orb_true_iff, Hc). destruct (IH (c || tx_HasOpSpend tx)) as [(H1 & H2 & ->)|(H & s' & -> & Hr)].
  - left. done.
  - right. split; [tauto|]. by exists s'.
Qed.

Lemma check_body_spec sizes block state : Forall tx_wf (vtx block) → block_size block ≤ dgpMaxBlockSize sizes → dgpMaxBlockSize sizes ≤ 50000000 →
  let P := Forall (λ tx, transaction_valid sizes tx true) (vtx block) ∧ spends_after_contracts False (vtx block) ∧
    total_sigops block * WITNESS_SCALE_FACTOR ≤ dgpMaxBlockSigOps sizes in
  (P ∧ check_body sizes block state = Some (true, state)) ∨
  (¬ P ∧ ∃ s', check_body sizes block state = Some (false, s') ∧ block_refused False state s').
Proof.
  intros Hv Hs Hd P. unfold check_body.
  assert (Hf : spends_after_contracts False (vtx block) ↔ spends_after_contracts (false = true) (vtx block)) by (by apply spends_after_iff).
  destruct (check_transactions_spec sizes (vtx block) false state Hv) as [(H1 & H2 & ->)|(H & s' & -> & Hr)]; cbn [mbind option_bind negb].
  2:{ right. split; [unfold P; tauto|by exists s']. }
  rewrite block_sigops_spec by done. cbn [mbind option_bind]. fold (total_sigops block). rewrite Z.add_0_l.
  pose proof (block_holds block) as Hb. unfold WITNESS_SCALE_FACTOR in *.
  rewrite (u32_small (total_sigops block)) by (unfold is_u32; lia). rewrite u32_small by (unfold is_u32; lia).
  destruct (Z.gtb_spec (total_sigops block * 4) (dgpMaxBlockSigOps sizes)).
  - right. split; [unfold P; lia|]. eexists. split; [done|]. apply DoS_refused; [set_solver|done|done].
  - left. split; [|done]. unfold P. tauto.
Qed.
Lemma check_contents_spec sizes block state : Forall tx_wf (vtx block) → dgpMaxBlockSize sizes ≤ 50000000 →
  (contents_ok sizes block ∧ check_contents sizes block state = Some (true, state)) ∨
  (¬ contents_ok sizes block ∧ ∃ s', check_contents sizes block state = Some (false, s') ∧ block_refused False state s').
Proof.
  intros Hv Hd. unfold check_contents.
  assert (Hno : ∀ reason debug, reason ≠ ""%string → ¬ contents_ok sizes block →
    (contents_ok sizes block ∧ Some (fail 100 reason false debug state) = Some (true, state)) ∨
    (¬ contents_ok sizes block ∧ ∃ s', Some (fail 100 reason false debug state) = Some (false, s') ∧ block_refused False state s')).
  { intros reason debug Hr Hn. right. split; [done|]. eexists. split; [done|]. apply DoS_refused; [set_solver|done|done]. }
  destruct (vtx block) as [|coinbase rest] eqn:Ev.
  { apply Hno; [done|]. intros [_ (cb & r & E & _)]. congruence. }
  destruct (_ || _) eqn:Es.
  { apply Hno; [done|]. intros [[? ?]]. apply orb_true_iff in Es. rewrite Ev in *. lia. }
  apply orb_false_iff in Es. destruct (IsCoinBase coinbase) eqn:Ec; cbn [negb].
  2:{ apply Hno; [done|]. intros [_ (cb & r & E & E2 & _)]. congruence. }
  destruct (existsb IsCoinBase rest) eqn:Ee.
  { apply Hno; [done|]. intros [_ (cb & r & E & _ & Hr & _)]. rewrite Ev in E. injection E as <- <-. apply existsb_exists in Ee as (tx & Hin & Ht).
    rewrite List.Forall_forall in Hr. rewrite Hr in Ht by done. done. }
  assert (Hrest : Forall (λ tx, IsCoinBase tx = false) rest).
  { apply List.Forall_forall. intros tx Hin. destruct (IsCoinBase tx) eqn:Et; [|done]. rewrite (proj2 (existsb_exists IsCoinBase rest)) in Ee by (by exists tx). done. }
  destruct (tx_contract_spec coinbase) as (c & Ecc & Hc).
  assert (Hcon : (if tx_HasOpSpend coinbase then Some true else tx_HasCreateOrCall coinbase) = Some (tx_HasOpSpend coinbase || c)) by (by destruct (tx_HasOpSpend coinbase)).
  rewrite Hcon. cbn [mbind option_bind]. destruct (tx_HasOpSpend coinbase || c) eqn:Eo.
  { apply Hno; [done|]. intros [_ (cb & r & E & _ & _ & Hs & Hn)]. rewrite Ev in E. injection E as <- <-. rewrite Hs in Eo. apply Hn, Hc. done. }
  apply orb_false_iff in Eo as [Eo ->]. rewrite <- Ev in *.
  destruct (check_body_spec sizes block state Hv ltac:(lia) Hd) as [[(H1 & H2 & H3) ->]|(H & s' & -> & Hr)].
  - left. split; [|done]. constructor; try done; [lia|]. exists coinbase, rest. split_and!; try done. intros H%Hc. done.
  - right. split; [|by exists s']. intros [_ _ H1 H2 H3]. by apply H.
Qed.

Lemma Header_GetHash_total h : header_ok (old h) → ∃ hash, Header_GetHash h = Some hash ∧ length hash = 32%nat ∧ bytes_ok hash.
Proof.
  intros H. unfold Header_GetHash, OldHeader_GetHash. rewrite hash_format. fold (hash_preimage (old h)). rewrite Hashes.SerializeHash_eq.
  destruct (Fips202Refinement.SHA3_of_bytes (hash_preimage (old h))) as (d1 & E1 & L1 & B1 & _).
  { unfold hash_preimage. rewrite length_fields by apply H. reflexivity. }
  { by apply preimage_ok. }
  rewrite E1. cbn [mbind option_bind]. destruct (GetHash2_spec (old h) d1 L1 B1 H) as (d2 & E2 & L2 & B2 & _). by exists d2.
Qed.
Lemma check_work_spec block params (pow : bool) : header_ok (old (header block)) →
  ∃ ok, (if pow && IsProofOfWork (old (header block)) then CheckHeaderPoW (header block) params else Some true) = Some ok ∧
    (ok = true ↔ (pow = true → work_ok params (header block))).
Proof.
  intros Hh. destruct (Header_GetHash_total (header block) Hh) as (hash & Eh & _). destruct pow; cbn [andb].
  - change (IsProofOfWork _) with true. unfold CheckHeaderPoW. rewrite Eh. cbn [mbind option_bind]. eexists. split; [done|].
    split; [intros H _; by exists hash|]. intros H. destruct (H eq_refl) as (hash' & E & Hw). congruence.
  - exists true. done.
Qed.
Lemma check_root_spec block (root : bool) state : Forall tx_wf (vtx block) → Z.of_nat (length (vtx block)) ≤ 2 ^ 31 →
  ((root = true → root_ok block) ∧ check_merkle_root block root state = Some None) ∨
  (root = true ∧ ¬ root_ok block ∧ ∃ b s', check_merkle_root block root state = Some (Some (b, s')) ∧ block_refused True state s').
Proof.
  intros Hv Hl. destruct root; [|by left]. unfold check_merkle_root, BlockMerkleRoot.
  assert (E : is_Some (mapM GetHash (vtx block))).
  { apply mapM_is_Some. eapply list.Forall_impl; [exact Hv|]. intros tx (Hok & Hlen & _). destruct (GetHash_total tx Hok Hlen) as (h & Eh & _). exists h. exact Eh. }
  destruct E as [txids E]. pose proof (length_mapM _ _ _ E) as Ht. unfold root_ok. rewrite E. cbn [mbind option_bind].
  destruct (ComputeMerkleRoot_spec txids) as (mutated & Em & Hm).
  { rewrite <- Ht. apply Nat2Z.inj_le. rewrite Nat2Z.inj_pow. exact Hl. }
  rewrite Em. cbn [mbind option_bind]. case_bool_decide as Hr; cbn [negb].
  - destruct mutated.
    + right. split; [done|]. split; [intros (t & [= <-] & _ & Hd); apply Hd, Hm; done|]. eexists _, _. split; [done|]. apply DoS_refused; [set_solver|done|done].
    + left. split; [|done]. intros _. exists txids. split_and!; [done|done|]. rewrite <- Hm. done.
  - right. split; [done|]. split; [intros (t & [= <-] & Hd & _); done|]. eexists _, _. split; [done|]. apply DoS_refused; [set_solver|done|done].
Qed.

(** ** Properties *)

Definition block_valid (sizes : BlockSizeParams) (params : Params) (pow root : bool) (block : CBlock) : Prop :=
  (pow = true → work_ok params (header block)) ∧ (root = true → root_ok block) ∧ contents_ok sizes block.
(** C1. [CheckBlock] of a block that is not marked yet ends, and accepts exactly the blocks that
    are valid on their own: with the work claimed by the header, when that is asked; with the
    Merkle root of their transactions, none of them repeated, when that is asked; within the
    sizes; with a coinbase first and nowhere else, that calls, creates and spends no
    contract; with transactions that are valid on their own, those that spend
    from a contract after those of a contract; and within the limit of
    signature operations, counted without wrapping.  Accepting leaves the state as it was
    and marks the block when both checks were asked; refusing marks nothing and
    raises the score of the peer, and the block may be a corrupted copy of a
    valid one exactly when its root was the reason. *)
Theorem check_block_correct (sizes : BlockSizeParams) (params : Params) (block : CBlock) (state : CValidationState) (pow root : bool)
  (Hwf : block_wf block) (Hsize : dgpMaxBlockSize sizes ≤ 50000000) :
  (block_valid sizes params pow root block ∧ CheckBlock sizes params block false state pow root = Some (true, state, pow && root)) ∨
  (¬ block_valid sizes params pow root block ∧ ∃ s', CheckBlock sizes params block false state pow root = Some (false, s', false) ∧
   block_refused ((pow = true → work_ok params (header block)) ∧ root = true ∧ ¬ root_ok block) state s').
Proof.
  destruct Hwf as (Hh & Hv & Hl). unfold block_valid, CheckBlock, CheckBlockHeader.
  destruct (check_work_spec block params pow Hh) as (ok & -> & Hok). cbn [mbind option_bind]. destruct ok; cbn [negb mbind option_bind].
  2:{ right. split; [by intros [H%Hok _]|]. eexists. split; [done|]. apply DoS_refused; [set_solver|done|]. split; [discriminate|intros [H _]; by apply Hok in H]. }
  destruct (check_root_spec block root state Hv Hl) as [[Hroot ->]|(Er & Hroot & b & s' & -> & Hr)]; cbn [mbind option_bind].
  2:{ right. split; [intros (_ & H & _); by apply Hroot, H|]. exists s'. split; [done|]. destruct Hr as (H1 & H2 & H3 & H4). unfold block_refused. split_and!; try done.
      rewrite H3. split; [|done]. intros _. split_and!; [by apply Hok|done|done]. }
  destruct (check_contents_spec sizes block state Hv Hsize) as [[Hc ->]|(Hc & s' & -> & Hr)]; cbn [mbind option_bind].
  - left. split; [split; [by apply Hok|done]|]. by rewrite orb_false_r.
  - right. split; [by intros (_ & _ & ?)|]. exists s'. split; [done|]. destruct Hr as (H1 & H2 & H3 & H4). unfold block_refused. split_and!; try done.
    rewrite H3. split; [done|]. intros (_ & Er & Hn). by apply Hn, Hroot.
Qed.
Definition checked_vtx : list CTransaction := [supply_coinbase; spend_example].
Definition checked_root : bytes := default [] (fst <$> (mapM GetHash checked_vtx ≫= ComputeMerkleRoot)).
Definition checked_header (nonce : Z) : CBlockHeader :=
  mkHeader (mkOldHeader 4 (replicate 32 7) checked_root 1577836800 0x207fffff (replicate 32 9) (replicate 32 10) 3 nonce 5) [] [] [] [] [].
Definition checked_block (nonce : Z) : CBlock := mkBlock (checked_header nonce) checked_vtx.

Lemma checked_wf n : is_u64 n → block_wf (checked_block n).
Proof.
  intros Hn. split; [|split].
  - assert (Er : u8sb checked_root && (length checked_root =? 32)%nat = true) by (vm_compute; reflexivity).
    apply header_ok_of; [lia|reflexivity|exact Hn|word_lia|]. repeat (constructor; [exact Er || reflexivity|]). constructor.
  - unfold checked_block, checked_vtx, tx_wf. cbn [vtx]. repeat (apply list.Forall_cons; split); [..|constructor].
    all: split; [apply tx_okb_ok; reflexivity|]; (split; [reflexivity|apply scripts_by_bool; reflexivity]).
  - unfold checked_block, checked_vtx. cbn [vtx length]. lia.
Qed.
Lemma check_block_correct_witness :
  block_valid default_sizes CRegTestParams true true (checked_block 1) ∧
  ¬ block_valid (mkSizes 8000000 8000000 100 80000 8000000 16000) CRegTestParams true true (checked_block 1).
Proof.
  assert (E : CheckBlock default_sizes CRegTestParams (checked_block 1) false new_CValidationState true true = Some (true, new_CValidationState, true)) by (vm_compute; reflexivity).
  assert (E2 : (λ r, fst (fst r)) <$> CheckBlock (mkSizes 8000000 8000000 100 80000 8000000 16000) CRegTestParams (checked_block 1) false new_CValidationState true true = Some false) by (vm_compute; reflexivity).
  assert (Hwf : block_wf (checked_block 1)) by (apply checked_wf; split; [discriminate|reflexivity]). split.
  - destruct (check_block_correct default_sizes CRegTestParams (checked_block 1) new_CValidationState true true Hwf) as [(H & _)|(_ & s' & E' & _)]; [discriminate|exact H|].
    rewrite E in E'. discriminate E'.
  - destruct (check_block_correct (mkSizes 8000000 8000000 100 80000 8000000 16000) CRegTestParams (checked_block 1) new_CValidationState true true Hwf) as [(_ & E')|(H & _)]; [discriminate| |exact H].
    rewrite E' in E2. discriminate E2.
Defined.

Lemma checked_root_ok sizes params block state pow s' : block_wf block → dgpMaxBlockSize sizes ≤ 50000000 →
  CheckBlock sizes params block false state pow true = Some (true, s', pow) → root_ok block ∧ vtx block ≠ [].
Proof.
  intros (Hh & Hv & Hl) Hs. unfold CheckBlock, CheckBlockHeader.
  destruct (check_work_spec block params pow Hh) as (ok & -> & Hok). cbn [mbind option_bind]. destruct ok; cbn [negb mbind option_bind]; [|discriminate].
  destruct (check_root_spec block true state Hv Hl) as [[Hroot ->]|(_ & Hroot & b & s'' & -> & Hr)]; cbn [mbind option_bind]; [|discriminate].
  destruct (check_contents_spec sizes block state Hv Hs) as [[Hc ->]|(Hc & s'' & -> & Hr)]; cbn [mbind option_bind]; [|discriminate].
  intros _. split; [by apply Hroot|]. destruct (co_coinbase _ _ Hc) as (cb & r & -> & _). discriminate.
Qed.
Lemma root_ok_spec block : Z.of_nat (length (vtx block)) ≤ 2 ^ 31 → vtx block ≠ [] → root_ok block →
  ∃ txids, mapM GetHash (vtx block) = Some txids ∧ (0 < length txids ≤ 2 ^ 31)%nat ∧ length txids = length (vtx block) ∧
    ComputeMerkleRoot txids = Some (hashMerkleRoot (old (header block)), false).
Proof.
  intros Hl Hn (txids & E & Hr & Hd). exists txids. assert (Ht : length txids = length (vtx block)) by (symmetry; eapply length_mapM; exact E).
  assert (Hle : (length txids ≤ 2 ^ 31)%nat) by (rewrite Ht; apply Nat2Z.inj_le; rewrite Nat2Z.inj_pow; exact Hl).
  destruct (ComputeMerkleRoot_spec txids Hle) as ([] & Em & Hm); [destruct Hd; by apply Hm|]. split; [done|]. split; [|split; [done|congruence]].
  split; [|done]. destruct (vtx block); [done|]. rewrite Ht. cbn [length]. apply Nat.lt_0_succ.
Qed.
Lemma same_hashes l l' txids : mapM GetHash l = Some txids → mapM GetHash l' = Some txids → Forall tx_wf l → Forall tx_wf l' →
  map strip l = map strip l' ∨
  ∃ tx tx', tx ∈ l ∧ tx' ∈ l' ∧ SerializeTransaction false tx ≠ SerializeTransaction false tx' ∧ GetHash tx = GetHash tx'.
Proof.
  intros E E' Hl. apply mapM_Some in E, E'. revert l' E'. induction E as [|tx h l txids Eh _ IH]; intros l' E' Hl'.
  { inversion E'; subst. by left. }
  inversion E' as [|tx' ? l'' ? Eh' E'']; subst. apply list.Forall_cons in Hl as [(Hok & _) Hl], Hl' as [(Hok' & _) Hl'].
  destruct (decide (SerializeTransaction false tx = SerializeTransaction false tx')) as [Es|Es].
  - rewrite !SerializeTransaction_eq in Es. cbn [andb] in Es. destruct (IH Hl l'' E'' Hl') as [IH'|(t & t' & H1 & H2 & H3)].
    + left. cbn [map]. f_equal; [by apply basic_inj|done].
    + right. exists t, t'. split; [by right|]. split; [by right|done].
  - right. exists tx, tx'. split_and!; [by left|by left|done|congruence].
Qed.
(** The pairs that are hashed for the Merkle root of a block. *)
Definition root_pairs (block : CBlock) : list (bytes * bytes) :=
  match mapM GetHash (vtx block) with Some txids => hashed_pairs CombineHash txids | None => [] end.
(** C11. A header fixes the transactions.  When [CheckBlock] accepts two blocks with the same header, checking
    their roots, and their trees have the same height, then they hold the same transactions up to
    witnesses, or a collision is at hand: of SHA3-256 on two of their
    transactions, or of double SHA-256 on two different pairs of nodes that are hashed in their trees. *)
Theorem header_fixes_transactions (sizes : BlockSizeParams) (params : Params) (b1 b2 : CBlock) (s1 s2 s1' s2' : CValidationState) (pow1 pow2 : bool)
  (Hwf1 : block_wf b1) (Hwf2 : block_wf b2) (Hsize : dgpMaxBlockSize sizes ≤ 50000000)
  (Hheader : hashMerkleRoot (old (header b1)) = hashMerkleRoot (old (header b2)))
  (Hheight : Nat.log2_up (length (vtx b1)) = Nat.log2_up (length (vtx b2)))
  (H1 : CheckBlock sizes params b1 false s1 pow1 true = Some (true, s1', pow1))
  (H2 : CheckBlock sizes params b2 false s2 pow2 true = Some (true, s2', pow2)) :
  map strip (vtx b1) = map strip (vtx b2) ∨
  (∃ tx tx', tx ∈ vtx b1 ∧ tx' ∈ vtx b2 ∧ SerializeTransaction false tx ≠ SerializeTransaction false tx' ∧ GetHash tx = GetHash tx') ∨
  collision CombineHash (root_pairs b1 ++ root_pairs b2).
Proof.
  destruct (checked_root_ok _ _ _ _ _ _ Hwf1 Hsize H1) as [R1 N1]. destruct (checked_root_ok _ _ _ _ _ _ Hwf2 Hsize H2) as [R2 N2].
  destruct Hwf1 as (_ & V1 & L1), Hwf2 as (_ & V2 & L2).
  destruct (root_ok_spec b1 L1 N1 R1) as (t1 & E1 & B1 & T1 & M1). destruct (root_ok_spec b2 L2 N2 R2) as (t2 & E2 & B2 & T2 & M2).
  rewrite Hheader in M1. assert (Hl : Nat.log2_up (length t1) = Nat.log2_up (length t2)) by congruence.
  unfold root_pairs. rewrite E1, E2. destruct (merkle_binding t1 t2 _ B1 B2 Hl M1 M2) as [->|]; [|by right; right].
  destruct (same_hashes _ _ _ E1 E2 V1 V2) as [|]; [by left|by right; left].
Qed.
Lemma header_fixes_transactions_witness :
  map strip (vtx (checked_block 1)) = map strip (vtx (checked_block 2)) ∨
  (∃ tx tx', tx ∈ vtx (checked_block 1) ∧ tx' ∈ vtx (checked_block 2) ∧ SerializeTransaction false tx ≠ SerializeTransaction false tx' ∧ GetHash tx = GetHash tx') ∨
  collision CombineHash (root_pairs (checked_block 1) ++ root_pairs (checked_block 2)).
Proof.
  apply (header_fixes_transactions default_sizes CRegTestParams (checked_block 1) (checked_block 2) new_CValidationState new_CValidationState new_CValidationState
    new_CValidationState true true).
  - apply checked_wf; split; [discriminate|reflexivity].
  - apply checked_wf; split; [discriminate|reflexivity].
  - discriminate.
  - reflexivity.
  - reflexivity.
  - vm_compute. reflexivity.
  - vm_compute. reflexivity.
Defined.

(** ** Proofs: the witness commitment *)
Lemma length_CombineHash a b : length (CombineHash a b) = 32%nat.
Proof. unfold CombineHash, Hashes.CHash256_Finalize. unfold Sha256.Sha256.Finalize at 1. cbv zeta. by rewrite !length_app, !length_WriteBE32. Qed.
Definition witness_hashable (tx : CTransaction) : Prop := tx_ok tx ∧ Z.of_nat (length (SerializeTransaction true tx)) < 2 ^ 32.
Lemma GetWitnessHash_total tx : witness_hashable tx → is_Some (GetWitnessHash tx).
Proof.
  intros [Hok Hl]. unfold GetWitnessHash, GetHash. rewrite !SerializeTransaction_eq in *. cbn [andb] in *. rewrite !Hashes.SerializeHash_eq.
  destruct (HasWitness tx); cbn [negb].
  - destruct (Fips202Refinement.SHA3_of_bytes (extended tx) Hl (extended_ok tx Hok)) as (h & E & _). by exists h.
  - destruct (Fips202Refinement.SHA3_of_bytes (basic tx) Hl (basic_ok tx Hok)) as (h & E & _). by exists h.
Qed.
Lemma witness_root_total block tx rest : vtx block = tx :: rest → Forall witness_hashable rest → Z.of_nat (length rest) < 2 ^ 31 →
  ∃ r, ∀ block' tx' o, vtx block' = tx' :: rest → (o = Some false ∨ o = None) → BlockWitnessMerkleRoot block' o = Some r.
Proof.
  intros Ev Hr Hl. assert (E : is_Some (mapM GetWitnessHash rest)).
  { apply mapM_is_Some. eapply list.Forall_impl; [exact Hr|]. intros x Hx. exact (GetWitnessHash_total x Hx). }
  destruct E as [hs E]. pose proof (length_mapM _ _ _ E) as Ht.
  destruct (ComputeMerkleRoot_spec (uint256_null :: hs)) as (m & Em & _).
  { cbn [length]. rewrite <- Ht. apply Nat2Z.inj_le. rewrite Nat2Z.inj_pow, Nat2Z.inj_succ. change (Z.of_nat 2) with 2. change (Z.of_nat 31) with 31. lia. }
  eexists. intros block' tx' o Ev' Ho. unfold BlockWitnessMerkleRoot.
  assert (Hd : default (IsProofOfStake (old (header block'))) o = false) by (by destruct Ho as [-> | ->]). rewrite Hd, Ev'. cbn [length Nat.ltb Nat.leb drop].
  rewrite drop_0, E. cbn [mbind option_bind replicate app]. exact Em.
Qed.
Lemma commitment_loop_snoc v out o c : is_commitment (scriptPubKey out) = true →
  commitment_loop (v ++ [out]) o c = i32 (o + Z.of_nat (length v)).
Proof.
  intros H. revert o c. induction v as [|x v IH]; intros o c; cbn [commitment_loop app length].
  - rewrite H. f_equal. lia.
  - rewrite IH. f_equal. lia.
Qed.
Lemma is_commitment_script r : length r = 32%nat → is_commitment (commitment_script r) = true.
Proof. intros H. unfold is_commitment, commitment_script. rewrite length_app, H. reflexivity. Qed.

(** C12. The witness commitment round trip.  For a block with a coinbase that has an input, no commitment and no witness,
    when the deployment is configured and active, [GenerateCoinbaseCommitment] ends; the block
    it makes has the same header and the same other transactions, its coinbase
    the same inputs' outpoints and one more output, worth nothing, that holds the script
    returned; and the block passes the check of its witnesses. *)
Theorem commitment_roundtrip (h : heap) (block : CBlock) (pindexPrev : option ptr) (params : Params) (cache cache' : VersionBitsCache)
    (state : CValidationState) (tx : CTransaction) (i : CTxIn) (v : list CTxIn) (rest : list CTransaction)
  (Hvtx : vtx block = tx :: rest) (Hvin : vin tx = i :: v) (Hnone : GetWitnessCommitmentIndex block = -1) (Hwit : HasWitness tx = false)
  (Hlen : Z.of_nat (length (vout tx)) < 2 ^ 31 - 1) (Hrest : Forall witness_hashable rest) (Hcount : Z.of_nat (length rest) < 2 ^ 31)
  (Htimeout : nTimeout (vDeployments params DEPLOYMENT_SEGWIT) ≠ 0)
  (Hactive : IsWitnessEnabled h pindexPrev params cache = Some (true, cache')) :
  ∃ script block' tx', GenerateCoinbaseCommitment h block pindexPrev params false cache = Some (script, block', cache') ∧
    header block' = header block ∧ vtx block' = tx' :: rest ∧ map prevout (vin tx') = map prevout (vin tx) ∧
    vout tx' = vout tx ++ [mkCTxOut 0 script] ∧ is_commitment script = true ∧
    check_witness block' true state = Some (true, state).
Proof.
  destruct (witness_root_total block tx rest Hvtx Hrest Hcount) as ((root & m) & Hroot).
  set (script := commitment_script (CombineHash root zero_nonce)). set (out := mkCTxOut 0 script).
  assert (Hs : is_commitment script = true) by (apply is_commitment_script, length_CombineHash).
  set (tx1 := mkCTransaction (nVersion tx) (vin tx) (vout tx ++ [out]) (nLockTime tx)).
  set (tx2 := mkCTransaction (nVersion tx) (mkCTxIn (prevout i) (scriptSig i) (nSequence i) [zero_nonce] :: v) (vout tx ++ [out]) (nLockTime tx)).
  assert (Hidx : ∀ b t, vtx b = t :: rest → vout t = vout tx ++ [out] → GetWitnessCommitmentIndex b = Z.of_nat (length (vout tx))).
  { intros b t Eb Et. unfold GetWitnessCommitmentIndex. rewrite Eb, Et, commitment_loop_snoc by done. rewrite Z.add_0_l. apply i32_small. lia. }
  exists script, (set_coinbase (set_coinbase block tx1) tx2), tx2.
  assert (Ev : vtx (set_coinbase (set_coinbase block tx1) tx2) = tx2 :: rest) by (unfold set_coinbase; cbn [vtx drop]; by rewrite Hvtx).
  assert (Ev1 : vtx (set_coinbase block tx1) = tx1 :: rest) by (unfold set_coinbase; cbn [vtx]; by rewrite Hvtx).
  split; [|split_and!; [reflexivity|exact Ev|by rewrite Hvin|reflexivity|exact Hs|]].
  - unfold GenerateCoinbaseCommitment. rewrite Hnone, (proj2 (Z.eqb_neq _ _) Htimeout). cbn [negb andb Z.eqb Pos.eqb].
    rewrite (Hroot block tx (Some false) Hvtx) by (by left). cbn [mbind option_bind]. rewrite Hvtx. cbn [head mbind option_bind scriptPubKey].
    fold script out tx1. unfold UpdateUncommittedBlockStructures. rewrite (Hidx _ tx1 Ev1 eq_refl).
    destruct (Z.eqb_spec (Z.of_nat (length (vout tx))) (-1)); [lia|]. rewrite Hactive. cbn [mbind option_bind negb]. rewrite Ev1. cbn [head mbind option_bind].
    assert (Hw1 : HasWitness tx1 = false) by exact Hwit. rewrite Hw1. cbn [vin tx1]. rewrite Hvin. reflexivity.
  - unfold check_witness. rewrite (Hidx _ tx2 Ev eq_refl). destruct (Z.eqb_spec (Z.of_nat (length (vout tx))) (-1)); [lia|]. cbn [andb negb].
    unfold check_commitment. rewrite (Hroot _ tx2 None Ev) by (by right). cbn [mbind option_bind]. rewrite Ev. cbn [head mbind option_bind vin tx2 scriptWitness].
    change (length zero_nonce =? 32)%nat with true. cbn [negb vout tx2]. rewrite Nat2Z.id, list_lookup_middle by done. cbn [mbind option_bind scriptPubKey out].
    unfold script, commitment_script. rewrite drop_app_length' by reflexivity. rewrite take_ge by (by rewrite length_CombineHash).
    by rewrite bool_decide_true.
Qed.
(** Periods of one block, at the end of which no signal is needed. *)
Definition params_segwit : Params :=
  set_spacing CRegTestParams (powLimit CRegTestParams) 1 0 (λ _, mkDeployment 0 0 999999999999).
Lemma commitment_roundtrip_witness :
  ∃ script block' tx' cache', GenerateCoinbaseCommitment heap_example (checked_block 1) (Some 4%positive) params_segwit false VersionBitsCache_Clear =
      Some (script, block', cache') ∧
    header block' = header (checked_block 1) ∧ vtx block' = tx' :: [spend_example] ∧ map prevout (vin tx') = map prevout (vin supply_coinbase) ∧
    vout tx' = vout supply_coinbase ++ [mkCTxOut 0 script] ∧ is_commitment script = true ∧
    check_witness block' true new_CValidationState = Some (true, new_CValidationState).
Proof.
  assert (E : ∃ cache', IsWitnessEnabled heap_example (Some 4%positive) params_segwit VersionBitsCache_Clear = Some (true, cache'))
    by (eexists; vm_compute; reflexivity).
  destruct E as [cache' E].
  destruct (commitment_roundtrip heap_example (checked_block 1) (Some 4%positive) params_segwit VersionBitsCache_Clear cache' new_CValidationState
    supply_coinbase (mkCTxIn COutPoint_null [OP_1; OP_1] 0xffffffff []) [] [spend_example]) as (script & block' & tx' & H).
  - reflexivity.
  - reflexivity.
  - reflexivity.
  - reflexivity.
  - reflexivity.
  - constructor; [|constructor]. split; [apply tx_okb_ok; reflexivity|reflexivity].
  - reflexivity.
  - discriminate.
  - exact E.
  - exists script, block', tx', cache'. exact H.
Defined.
