(* ===== verification/Bloom.v ===== *)
(** * Bloom filters (src/src/bloom.h, bloom.cpp, MurmurHash3 of hash.cpp)

    [CBloomFilter] is the filter by which a light client names the transactions it wants;
    [CRollingBloomFilter] remembers the last keys that a node has seen.  Neither forgets: a filter
    contains what was inserted, and the rolling filter the last keys.  The sizes and the numbers of
    hash functions that the constructors compute in floating point are arguments, and so is the tweak
    that [reset] draws at random; the private constructor that nothing calls is left out.  Division by
    zero and an index out of range are [None]. *)

From stdpp Require Import base numbers list option.
From Stdlib Require Import ZArith Lia ZifyNat ZifyBool.
From S2P Require Import Prelude StrEncodings Endian Fips202 Hash Serialize Script Transaction Standard Block Merkle PartialMerkle TxVerify BlockCheck.

(** ** MurmurHash3 *)
Definition ROTL32 (x r : Z) : Z := Z.lor (u32 (Z.shiftl x r)) (Z.shiftr x (32 - r)).
Definition mix_k1 (k1 : Z) : Z := u32 (ROTL32 (u32 (k1 * 0xcc9e2d51)) 15 * 0x1b873593).
Fixpoint murmur_body (nblocks : nat) (blocks : bytes) (h1 : Z) : Z :=
  match nblocks with
  | O => h1
  | S nblocks => murmur_body nblocks (drop 4 blocks) (u32 (ROTL32 (Z.lxor h1 (mix_k1 (ReadLE32 blocks))) 13 * 5 + 0xe6546b64))
  end.
(** The [switch] falls through from 3 to 1. *)
Definition murmur_tail (size : nat) (tail : bytes) (h1 : Z) : Z :=
  let k3 := if (size =? 3)%nat then Z.shiftl (char_at tail 2) 16 else 0 in
  let k2 := if (2 <=? size)%nat then Z.lxor k3 (Z.shiftl (char_at tail 1) 8) else k3 in
  if (1 <=? size)%nat then Z.lxor h1 (mix_k1 (Z.lxor k2 (char_at tail 0))) else h1.
Definition MurmurHash3 (nHashSeed : Z) (vDataToHash : bytes) : Z :=
  let nblocks := (length vDataToHash / 4)%nat in
  let h1 := murmur_body nblocks vDataToHash nHashSeed in
  let h1 := murmur_tail (length vDataToHash mod 4) (drop (4 * nblocks) vDataToHash) h1 in
  let h1 := u32 (Z.lxor h1 (Z.of_nat (length vDataToHash))) in
  let h1 := Z.lxor h1 (Z.shiftr h1 16) in
  let h1 := u32 (h1 * 0x85ebca6b) in
  let h1 := Z.lxor h1 (Z.shiftr h1 13) in
  let h1 := u32 (h1 * 0xc2b2ae35) in
  Z.lxor h1 (Z.shiftr h1 16).

(** ** The filter of a light client *)
Definition MAX_BLOOM_FILTER_SIZE : Z := 36000.
Definition MAX_HASH_FUNCS : Z := 50.
Definition BLOOM_UPDATE_NONE : Z := 0.
Definition BLOOM_UPDATE_ALL : Z := 1.
Definition BLOOM_UPDATE_P2PUBKEY_ONLY : Z := 2.
Definition BLOOM_UPDATE_MASK : Z := 3.
Record CBloomFilter := mkBloom { vData : bytes; isFull : bool; isEmpty : bool; nHashFuncs : Z; nTweak : Z; nFlags : Z }.
(** The constructor, given the number of bits and of functions. *)
Definition new_CBloomFilter (nBits nFuncs nTweakIn nFlagsIn : Z) : CBloomFilter :=
  mkBloom (replicate (Z.to_nat (Z.min nBits (MAX_BLOOM_FILTER_SIZE * 8) / 8)) 0) false true (Z.min nFuncs MAX_HASH_FUNCS) nTweakIn nFlagsIn.
Definition default_CBloomFilter : CBloomFilter := mkBloom [] true false 0 0 0.
Definition set_data (f : CBloomFilter) (v : bytes) (full empty : bool) : CBloomFilter := mkBloom v full empty (nHashFuncs f) (nTweak f) (nFlags f).

(** The seed of the [nHashNum]-th function; a filter without bytes divides by zero. *)
Definition hash_seed (nTweak nHashNum : Z) : Z := u32 (u32 (nHashNum * 0xFBA4C795) + nTweak).
Definition Bloom_Hash (f : CBloomFilter) (nHashNum : Z) (vDataToHash : bytes) : option Z :=
  if (length (vData f) =? 0)%nat then None
  else Some (MurmurHash3 (hash_seed (nTweak f) nHashNum) vDataToHash mod (Z.of_nat (length (vData f)) * 8)).
(** [vData[nIndex >> 3] |= (1 << (7 & nIndex))] and its test. *)
Definition set_index (v : bytes) (nIndex : Z) : bytes :=
  alter (λ b, u8 (Z.lor b (Z.shiftl 1 (Z.land 7 nIndex)))) (Z.to_nat (Z.shiftr nIndex 3)) v.
Definition test_index (v : bytes) (nIndex : Z) : bool := negb (Z.land (nth (Z.to_nat (Z.shiftr nIndex 3)) v 0) (Z.shiftl 1 (Z.land 7 nIndex)) =? 0).
(** The loop from the function number [i], [n] of them. *)
Fixpoint insert_loop (n : nat) (i : Z) (f : CBloomFilter) (vKey : bytes) (v : bytes) : option bytes :=
  match n with
  | O => Some v
  | S n => nIndex ← Bloom_Hash f i vKey; insert_loop n (i + 1) f vKey (set_index v nIndex)
  end.
Definition insert (f : CBloomFilter) (vKey : bytes) : option CBloomFilter :=
  if isFull f then Some f
  else v ← insert_loop (Z.to_nat (nHashFuncs f)) 0 f vKey (vData f); Some (set_data f v (isFull f) false).
Fixpoint contains_loop (n : nat) (i : Z) (f : CBloomFilter) (vKey : bytes) : option bool :=
  match n with
  | O => Some true
  | S n => nIndex ← Bloom_Hash f i vKey; if negb (test_index (vData f) nIndex) then Some false else contains_loop n (i + 1) f vKey
  end.
Definition contains (f : CBloomFilter) (vKey : bytes) : option bool :=
  if isFull f then Some true else if isEmpty f then Some false else contains_loop (Z.to_nat (nHashFuncs f)) 0 f vKey.
Definition outpoint_key (o : COutPoint) : bytes := enc COutPoint_codec o.
Definition insert_outpoint (f : CBloomFilter) (o : COutPoint) : option CBloomFilter := insert f (outpoint_key o).
Definition contains_outpoint (f : CBloomFilter) (o : COutPoint) : option bool := contains f (outpoint_key o).
Definition clear (f : CBloomFilter) : CBloomFilter := set_data f (replicate (length (vData f)) 0) false true.
Definition reset (f : CBloomFilter) (nNewTweak : Z) : CBloomFilter :=
  let f := clear f in mkBloom (vData f) (isFull f) (isEmpty f) (nHashFuncs f) nNewTweak (nFlags f).
Definition IsWithinSizeConstraints (f : CBloomFilter) : bool :=
  (Z.of_nat (length (vData f)) <=? MAX_BLOOM_FILTER_SIZE) && (nHashFuncs f <=? MAX_HASH_FUNCS).
Definition UpdateEmptyFull (f : CBloomFilter) : CBloomFilter :=
  set_data f (vData f) (forallb (λ b, b =? 0xff) (vData f)) (forallb (λ b, b =? 0) (vData f)).
(** The wire format leaves out the two flags. *)
Definition CBloomFilter_codec : codec (bytes * (Z * (Z * Z))) := pair_codec blob_codec (pair_codec u32_codec (pair_codec u32_codec u8_codec)).
Definition Bloom_Serialize (f : CBloomFilter) : bytes := enc CBloomFilter_codec (vData f, (nHashFuncs f, (nTweak f, nFlags f))).
Definition Bloom_Unserialize (f : CBloomFilter) : reader CBloomFilter := λ s,
  '(v, (n, (t, fl)), s) ← dec CBloomFilter_codec s; Some (mkBloom v (isFull f) (isEmpty f) n t fl, s).

(** ** Matching transactions *)

(** [while (pc < end)]: whether the filter contains a data element of the script. *)
Fixpoint match_script (fuel : nat) (f : CBloomFilter) (pc : bytes) : option bool :=
  match pc with
  | [] => Some false
  | _ =>
      match GetOp2 pc with
      | None => Some false
      | Some (_, data, pc) =>
          found ← (if negb (length data =? 0)%nat then contains f data else Some false);
          if found : bool then Some true
          else match fuel with O => None | S fuel => match_script fuel f pc end
      end
  end.
(** The outpoint of an output that matched. *)
Definition update_output (f : CBloomFilter) (hash : bytes) (i : Z) (script : bytes) : option CBloomFilter :=
  if Z.land (nFlags f) BLOOM_UPDATE_MASK =? BLOOM_UPDATE_ALL then insert_outpoint f (mkCOutPoint hash i)
  else if Z.land (nFlags f) BLOOM_UPDATE_MASK =? BLOOM_UPDATE_P2PUBKEY_ONLY then
    '(ok, type, _) ← Solver script TX_NONSTANDARD false;
    if (ok : bool) && (bool_decide (type = TX_PUBKEY) || bool_decide (type = TX_MULTISIG)) then insert_outpoint f (mkCOutPoint hash i) else Some f
  else Some f.
Fixpoint match_outputs (f : CBloomFilter) (hash : bytes) (i : Z) (outs : list CTxOut) (fFound : bool) : option (bool * CBloomFilter) :=
  match outs with
  | [] => Some (fFound, f)
  | out :: outs =>
      found ← match_script (length (scriptPubKey out)) f (scriptPubKey out);
      if found : bool then f ← update_output f hash i (scriptPubKey out); match_outputs f hash (u32 (i + 1)) outs true
      else match_outputs f hash (u32 (i + 1)) outs fFound
  end.
Fixpoint match_inputs (f : CBloomFilter) (ins : list CTxIn) : option bool :=
  match ins with
  | [] => Some false
  | txin :: ins =>
      spends ← contains_outpoint f (prevout txin);
      if spends : bool then Some true
      else
        found ← match_script (length (scriptSig txin)) f (scriptSig txin);
        if found : bool then Some true else match_inputs f ins
  end.
Definition IsRelevantAndUpdate (f : CBloomFilter) (tx : CTransaction) : option (bool * CBloomFilter) :=
  if isFull f then Some (true, f)
  else if isEmpty f then Some (false, f)
  else
    hash ← GetHash tx;
    fFound ← contains f hash;
    '(fFound, f) ← match_outputs f hash 0 (vout tx) fFound;
    if fFound : bool then Some (true, f)
    else found ← match_inputs f (vin tx); Some (found, f).
(** [CMerkleBlock(block, filter)]: the block, the matched transactions and the filter after it. *)
Fixpoint match_block (f : CBloomFilter) (i : Z) (txs : list CTransaction) : option (list bytes * list bool * list (Z * bytes) * CBloomFilter) :=
  match txs with
  | [] => Some ([], [], [], f)
  | tx :: txs =>
      hash ← GetHash tx;
      '(m, f) ← IsRelevantAndUpdate f tx;
      '(hashes, ms, matched, f) ← match_block f (u32 (i + 1)) txs;
      Some (hash :: hashes, m :: ms, if (m : bool) then (i, hash) :: matched else matched, f)
  end.
Definition merkle_block_filter (block : CBlock) (f : CBloomFilter) : option (CMerkleBlock * list (Z * bytes) * CBloomFilter) :=
  '(vHashes, vMatch, vMatchedTxn, f) ← match_block f 0 (vtx block);
  txn ← new_CPartialMerkleTree PartialHash vHashes vMatch;
  Some (mkMerkleBlock (GetBlockHeader block) txn, vMatchedTxn, f).

(** ** The rolling filter *)
Record CRollingBloomFilter := mkRolling {
  nEntriesPerGeneration : Z; nEntriesThisGeneration : Z; nGeneration : Z; rdata : list Z; rTweak : Z; rHashFuncs : Z }.
(** [reset], with the tweak that it draws. *)
Definition rolling_reset (r : CRollingBloomFilter) (tweak : Z) : CRollingBloomFilter :=
  mkRolling (nEntriesPerGeneration r) 0 1 (map (λ _, 0) (rdata r)) tweak (rHashFuncs r).
(** The constructor, given the number of functions and of bits. *)
Definition new_CRollingBloomFilter (nElements nFuncs nFilterBits tweak : Z) : CRollingBloomFilter :=
  rolling_reset (mkRolling (u32 (nElements + 1) / 2) 0 0
    (replicate (Z.to_nat (u32 (Z.shiftl (u32 (nFilterBits + 63) / 64) 1))) 0) 0 (Z.max 1 (Z.min nFuncs 50))) tweak.
(** Pairs of words: [None] where the second one is out of range. *)
Fixpoint wipe (nGenerationMask1 nGenerationMask2 : Z) (data : list Z) : option (list Z) :=
  match data with
  | [] => Some []
  | [_] => None
  | p1 :: p2 :: data =>
      let mask := Z.lor (Z.lxor p1 nGenerationMask1) (Z.lxor p2 nGenerationMask2) in
      data ← wipe nGenerationMask1 nGenerationMask2 data; Some (Z.land p1 mask :: Z.land p2 mask :: data)
  end.
Definition next_generation (r : CRollingBloomFilter) : option CRollingBloomFilter :=
  let g := if nGeneration r + 1 =? 4 then 1 else nGeneration r + 1 in
  data ← wipe (u64 (0 - Z.land g 1)) (u64 (0 - Z.shiftr g 1)) (rdata r);
  Some (mkRolling (nEntriesPerGeneration r) 0 g data (rTweak r) (rHashFuncs r)).
(** The bit and the position of a key; a filter without data divides by zero. *)
Definition rolling_pos (r : CRollingBloomFilter) (n : Z) (vKey : bytes) : option (Z * Z) :=
  let h := MurmurHash3 (hash_seed (rTweak r) n) vKey in
  if (length (rdata r) =? 0)%nat then None
  else Some (Z.land h 0x3F, u32 (Z.shiftr h 6 mod Z.of_nat (length (rdata r)))).
Definition even_pos (pos : Z) : nat := Z.to_nat (Z.land pos (u32 (Z.lnot 1))).
Definition odd_pos (pos : Z) : nat := Z.to_nat (Z.lor pos 1).
Definition put_bit (bit b : Z) (word : Z) : Z := Z.lor (Z.land word (u64 (Z.lnot (Z.shiftl 1 bit)))) (u64 (Z.shiftl b bit)).
(** An element read and written: [None] when it is out of range. *)
Definition update_at (i : nat) (f : Z → Z) (data : list Z) : option (list Z) := x ← data !! i; Some (<[i := f x]> data).
Fixpoint rolling_insert_loop (count : nat) (n : Z) (r : CRollingBloomFilter) (vKey : bytes) (data : list Z) : option (list Z) :=
  match count with
  | O => Some data
  | S count =>
      '(bit, pos) ← rolling_pos r n vKey;
      data ← update_at (even_pos pos) (put_bit bit (Z.land (nGeneration r) 1)) data;
      data ← update_at (odd_pos pos) (put_bit bit (Z.shiftr (nGeneration r) 1)) data;
      rolling_insert_loop count (n + 1) r vKey data
  end.
Definition rolling_insert (r : CRollingBloomFilter) (vKey : bytes) : option CRollingBloomFilter :=
  r ← (if nEntriesThisGeneration r =? nEntriesPerGeneration r then next_generation r else Some r);
  data ← rolling_insert_loop (Z.to_nat (rHashFuncs r)) 0 r vKey (rdata r);
  Some (mkRolling (nEntriesPerGeneration r) (nEntriesThisGeneration r + 1) (nGeneration r) data (rTweak r) (rHashFuncs r)).
Fixpoint rolling_contains_loop (count : nat) (n : Z) (r : CRollingBloomFilter) (vKey : bytes) : option bool :=
  match count with
  | O => Some true
  | S count =>
      '(bit, pos) ← rolling_pos r n vKey;
      a ← rdata r !! even_pos pos; b ← rdata r !! odd_pos pos;
      if Z.land (Z.shiftr (Z.lor a b) bit) 1 =? 0 then Some false else rolling_contains_loop count (n + 1) r vKey
  end.
Definition rolling_contains (r : CRollingBloomFilter) (vKey : bytes) : option bool :=
  rolling_contains_loop (Z.to_nat (rHashFuncs r)) 0 r vKey.
Fixpoint rolling_insert_all (r : CRollingBloomFilter) (keys : list bytes) : option CRollingBloomFilter :=
  match keys with [] => Some r | k :: keys => r ← rolling_insert r k; rolling_insert_all r keys end.


(** ** Proofs: the hash *)
Lemma xorshift_u32 x k : is_u32 x → 0 ≤ k → is_u32 (Z.lxor x (Z.shiftr x k)).
Proof.
  intros Hx Hk. change (is_u32 (Z.lxor x (Z.shiftr x k))) with (0 ≤ Z.lxor x (Z.shiftr x k) < 2 ^ 32). apply lxor_bounded; [lia|done|].
  rewrite Z.shiftr_div_pow2 by lia. unfold is_u32 in Hx. pose proof (Z.pow_pos_nonneg 2 k ltac:(lia) Hk). split; [apply Z.div_pos; lia|].
  apply Z.div_lt_upper_bound; [lia|]. nia.
Qed.
Lemma MurmurHash3_u32 seed data : is_u32 (MurmurHash3 seed data).
Proof. unfold MurmurHash3. apply xorshift_u32; [|lia]. apply u32_range. Qed.

(** ** Proofs: cells of the rolling filter *)
Definition word (data : list Z) (i : nat) : Z := default 0 (data !! i).
Definition cell (data : list Z) (j : nat) (bit : Z) : bool * bool := (Z.testbit (word data (2 * j)) bit, Z.testbit (word data (2 * j + 1)) bit).
Definition generation_bits (g : Z) : bool * bool := (Z.testbit g 0, Z.testbit g 1).

Lemma u64_bit x i : 0 ≤ i < 64 → Z.testbit (u64 x) i = Z.testbit x i.
Proof. intros Hi. unfold u64. change 18446744073709551616 with (2 ^ 64). apply Z.mod_pow2_bits_low. lia. Qed.
Lemma put_bit_spec bit b w i : 0 ≤ bit < 64 → 0 ≤ i < 64 → Z.testbit (put_bit bit (Z.b2z b) w) i = if decide (i = bit) then b else Z.testbit w i.
Proof.
  intros Hb Hi. unfold put_bit. rewrite Z.lor_spec, Z.land_spec, !u64_bit, Z.lnot_spec, !Z.shiftl_spec by lia. case_decide as E.
  - subst i. rewrite Z.sub_diag. change (Z.testbit 1 0) with true. rewrite andb_false_r. apply Z.b2z_bit0.
  - assert (Hz : ∀ c : bool, Z.testbit (Z.b2z c) (i - bit) = false).
    { intros c. destruct (Z.ltb_spec (i - bit) 0); [by apply Z.testbit_neg_r|]. apply (testbit_high _ 1); [destruct c; done|lia|lia]. }
    rewrite Hz, orb_false_r. change 1 with (Z.b2z true). rewrite Hz. apply andb_true_r.
Qed.
Lemma generation_cases g : 1 ≤ g ≤ 3 → Z.land g 1 = Z.b2z (Z.testbit g 0) ∧ Z.shiftr g 1 = Z.b2z (Z.testbit g 1) ∧ generation_bits g ≠ (false, false).
Proof. intros Hg. assert (g = 1 ∨ g = 2 ∨ g = 3) as [-> | [-> | ->]] by lia; done. Qed.
Lemma generation_bits_inj g g' : 1 ≤ g ≤ 3 → 1 ≤ g' ≤ 3 → generation_bits g = generation_bits g' → g = g'.
Proof. intros Hg Hg'. assert (g = 1 ∨ g = 2 ∨ g = 3) as [-> | [-> | ->]] by lia; assert (g' = 1 ∨ g' = 2 ∨ g' = 3) as [-> | [-> | ->]] by lia; done. Qed.

(** The masks are all ones or all zeros. *)
Lemma mask_bit (b : bool) i : 0 ≤ i < 64 → Z.testbit (u64 (0 - Z.b2z b)) i = b.
Proof. intros Hi. rewrite u64_bit by done. destruct b; [rewrite Z.bits_m1; [reflexivity|lia]|apply Z.bits_0]. Qed.
Lemma wipe_spec g data k : 1 ≤ g ≤ 3 → length data = (2 * k)%nat →
  ∃ data', wipe (u64 (0 - Z.land g 1)) (u64 (0 - Z.shiftr g 1)) data = Some data' ∧ length data' = length data ∧
    ∀ j bit, (j < k)%nat → 0 ≤ bit < 64 → cell data' j bit = if decide (cell data j bit = generation_bits g) then (false, false) else cell data j bit.
Proof.
  intros Hg. destruct (generation_cases g Hg) as (-> & -> & _). revert data. induction k as [|k IH]; intros data Hk.
  { apply nil_length_inv in Hk as ->. exists []. split_and!; [done..|]. intros j bit Hj. lia. }
  destruct data as [|p1 [|p2 data]]; [done|cbn in Hk; lia|]. destruct (IH data ltac:(cbn in Hk; lia)) as (data' & E & El & Hc).
  cbn [wipe]. rewrite E. cbn [mbind option_bind]. eexists. split; [done|]. split; [cbn; by rewrite El|]. intros [|j] bit Hj Hbit.
  - unfold cell, word. cbn [Nat.mul Nat.add lookup list_lookup default from_option id].
    rewrite !Z.land_spec, Z.lor_spec, !Z.lxor_spec, !mask_bit by done. unfold generation_bits.
    destruct (Z.testbit p1 bit), (Z.testbit p2 bit), (Z.testbit g 0), (Z.testbit g 1); done.
  - specialize (Hc j bit ltac:(lia) Hbit). unfold cell, word in *. replace (2 * S j)%nat with (S (S (2 * j))) by lia. cbn [lookup list_lookup Nat.add]. exact Hc.
Qed.

(** The two words of a position. *)
Lemma positions pos : 0 ≤ pos < 2 ^ 32 → even_pos pos = (2 * Z.to_nat (pos / 2))%nat ∧ odd_pos pos = (2 * Z.to_nat (pos / 2) + 1)%nat.
Proof.
  intros Hp. assert (E0 : ∀ i, 0 ≤ i → Z.testbit pos (Z.succ i) = Z.testbit (pos / 2) i).
  { intros i Hi. change (pos / 2) with (pos / 2 ^ 1). by rewrite Z.div_pow2_bits by lia. }
  pose proof (Z.div_pos pos 2 ltac:(lia) ltac:(lia)). split.
  - assert (E : Z.land pos (u32 (Z.lnot 1)) = 2 * (pos / 2)); [|unfold even_pos; rewrite E; lia].
    apply Z.bits_inj'. intros i Hi. rewrite Z.land_spec. destruct (decide (i = 0)) as [->|Hne].
    + rewrite Z.testbit_even_0. apply andb_false_r.
    + replace i with (Z.succ (i - 1)) by lia. rewrite Z.testbit_even_succ, E0 by lia. destruct (Z.ltb_spec i 32).
      * replace (Z.testbit (u32 (Z.lnot 1)) (Z.succ (i - 1))) with true; [apply andb_true_r|].
        unfold u32. change 4294967296 with (2 ^ 32). rewrite Z.mod_pow2_bits_low, Z.lnot_spec by lia. by rewrite (testbit_high 1 1) by lia.
      * rewrite <- E0 by lia. rewrite (testbit_high pos 32) by lia. done.
  - assert (E : Z.lor pos 1 = 2 * (pos / 2) + 1); [|unfold odd_pos; rewrite E; lia].
    apply Z.bits_inj'. intros i Hi. rewrite Z.lor_spec. destruct (decide (i = 0)) as [->|Hne].
    + rewrite Z.testbit_odd_0. change (Z.testbit 1 0) with true. apply orb_true_r.
    + replace i with (Z.succ (i - 1)) by lia. rewrite Z.testbit_odd_succ, E0 by lia. rewrite (testbit_high 1 1) by lia. apply orb_false_r.
Qed.

Lemma update_cell data k j bit (b0 b1 : bool) : length data = (2 * k)%nat → (j < k)%nat → 0 ≤ bit < 64 →
  ∃ data', (d ← update_at (2 * j) (put_bit bit (Z.b2z b0)) data; update_at (2 * j + 1) (put_bit bit (Z.b2z b1)) d) = Some data' ∧ length data' = length data ∧
    ∀ j' bit', 0 ≤ bit' < 64 → cell data' j' bit' = if decide (j' = j ∧ bit' = bit) then (b0, b1) else cell data j' bit'.
Proof.
  intros Hl Hj Hbit. unfold update_at. destruct (lookup_lt_is_Some_2 data (2 * j)) as [x Hx]; [lia|]. rewrite Hx. cbn [mbind option_bind].
  set (d := <[(2 * j)%nat := _]> data). assert (Hd : length d = length data) by apply length_insert.
  destruct (lookup_lt_is_Some_2 d (2 * j + 1)) as [y Hy]; [lia|]. rewrite Hy. cbn [mbind option_bind]. eexists. split; [done|]. split; [by rewrite length_insert|].
  assert (Hy' : data !! (2 * j + 1)%nat = Some y) by (unfold d in Hy; by rewrite list_lookup_insert_ne in Hy by lia).
  intros j' bit' Hbit'. unfold cell, word. destruct (decide (j' = j)) as [->|Hne].
  - rewrite (list_lookup_insert_ne d) by lia. unfold d at 1. rewrite list_lookup_insert_eq by lia. rewrite (list_lookup_insert_eq d) by lia. cbn [default from_option id].
    rewrite !put_bit_spec by done. rewrite Hx, Hy'. cbn [default from_option id]. destruct (decide (bit' = bit)); [rewrite decide_True by done|rewrite decide_False by tauto]; done.
  - rewrite decide_False by tauto. rewrite (list_lookup_insert_ne d) by lia. rewrite (list_lookup_insert_ne d) by lia. unfold d. by rewrite !list_lookup_insert_ne by lia.
Qed.

(** The cell of the [n]-th function. *)
Definition location (tweak : Z) (k : nat) (n : Z) (vKey : bytes) : nat * Z :=
  let h := MurmurHash3 (hash_seed tweak n) vKey in (Z.to_nat (Z.shiftr h 6 mod Z.of_nat (2 * k) / 2), Z.land h 0x3F).
Section Cells.
Context (k : nat) (Hk : (0 < k)%nat) (Hk32 : Z.of_nat (2 * k) ≤ 2 ^ 32).
Lemma location_range tweak n vKey : (fst (location tweak k n vKey) < k)%nat ∧ 0 ≤ snd (location tweak k n vKey) < 64.
Proof.
  unfold location. cbn [fst snd]. set (h := MurmurHash3 _ _). split.
  - pose proof (Z.mod_pos_bound (Z.shiftr h 6) (Z.of_nat (2 * k)) ltac:(lia)). set (m := Z.shiftr h 6 mod _) in *.
    assert (m / 2 < Z.of_nat k) by (apply Z.div_lt_upper_bound; lia). lia.
  - change 0x3F with (Z.ones 6). rewrite Z.land_ones by lia. apply Z.mod_pos_bound. lia.
Qed.
Lemma rolling_pos_spec r n vKey : length (rdata r) = (2 * k)%nat → ∃ pos, rolling_pos r n vKey = Some (snd (location (rTweak r) k n vKey), pos) ∧
  even_pos pos = (2 * fst (location (rTweak r) k n vKey))%nat ∧ odd_pos pos = (2 * fst (location (rTweak r) k n vKey) + 1)%nat.
Proof.
  intros Hl. unfold rolling_pos. rewrite Hl. destruct (Nat.eqb_spec (2 * k) 0); [lia|]. eexists. split; [reflexivity|]. unfold location. cbn [fst].
  set (h := MurmurHash3 _ _). pose proof (Z.mod_pos_bound (Z.shiftr h 6) (Z.of_nat (2 * k)) ltac:(lia)). rewrite u32_small by (unfold is_u32; lia). apply positions. lia.
Qed.
Lemma rolling_insert_loop_spec count n r vKey data : 1 ≤ nGeneration r ≤ 3 → length (rdata r) = (2 * k)%nat → length data = (2 * k)%nat →
  ∃ data', rolling_insert_loop count n r vKey data = Some data' ∧ length data' = length data ∧
    ∀ j bit, 0 ≤ bit < 64 →
      ((∃ m, n ≤ m < n + Z.of_nat count ∧ location (rTweak r) k m vKey = (j, bit)) → cell data' j bit = generation_bits (nGeneration r)) ∧
      (cell data' j bit = generation_bits (nGeneration r) ∨ cell data' j bit = cell data j bit).
Proof.
  intros Hg Hr. destruct (generation_cases _ Hg) as (E0 & E1 & _). revert n data. induction count as [|count IH]; intros n data Hl.
  { exists data. split_and!; [done..|]. intros j bit _. split; [|by right]. intros (m & Hm & _). lia. }
  cbn [rolling_insert_loop]. destruct (rolling_pos_spec r n vKey Hr) as (pos & Ep & Ee & Eo). rewrite Ep. cbn [mbind option_bind]. rewrite Ee, Eo.
  destruct (location_range (rTweak r) n vKey) as [Hj Hbit]. destruct (location (rTweak r) k n vKey) as [j0 bit0] eqn:Eloc. cbn [fst snd] in *.
  destruct (update_cell data k j0 bit0 (Z.testbit (nGeneration r) 0) (Z.testbit (nGeneration r) 1) Hl Hj Hbit) as (d2 & Ed & Hd2 & Hc2).
  rewrite <- E0, <- E1 in Ed. destruct (update_at (2 * j0) _ data) as [d1|]; [|done]. cbn [mbind option_bind] in *. rewrite Ed. cbn [mbind option_bind].
  destruct (IH (n + 1) d2 ltac:(lia)) as (d3 & -> & Hd3 & Hc3). exists d3. split; [done|]. split; [lia|]. intros j bit Hb. destruct (Hc3 j bit Hb) as [H1 H2].
  specialize (Hc2 j bit Hb). split.
  - intros (m & Hm & Em). destruct (decide (m = n)) as [->|Hne]; [|apply H1; exists m; split; [lia|done]]. rewrite Eloc in Em. injection Em as <- <-.
    destruct H2 as [H2|H2]; [done|]. rewrite H2, Hc2. by rewrite decide_True.
  - destruct H2 as [H2|H2]; [by left|]. rewrite H2, Hc2. case_decide; [left|right]; done.
Qed.
Lemma rolling_contains_loop_spec count n r vKey : length (rdata r) = (2 * k)%nat →
  (∀ m, n ≤ m < n + Z.of_nat count → cell (rdata r) (fst (location (rTweak r) k m vKey)) (snd (location (rTweak r) k m vKey)) ≠ (false, false)) →
  rolling_contains_loop count n r vKey = Some true.
Proof.
  intros Hr. revert n. induction count as [|count IH]; intros n Hc; [done|]. cbn [rolling_contains_loop].
  destruct (rolling_pos_spec r n vKey Hr) as (pos & Ep & Ee & Eo). rewrite Ep. cbn [mbind option_bind]. rewrite Ee, Eo.
  destruct (location_range (rTweak r) n vKey) as [Hj Hbit]. specialize (Hc n ltac:(lia)) as Hn. unfold cell, word in Hn. set (j := fst _) in *. set (bit := snd _) in *.
  destruct (lookup_lt_is_Some_2 (rdata r) (2 * j)) as [a Ha]; [lia|]. destruct (lookup_lt_is_Some_2 (rdata r) (2 * j + 1)) as [b Hb]; [lia|].
  rewrite Ha, Hb in *. cbn [mbind option_bind default from_option id] in *.
  assert (E : Z.land (Z.shiftr (Z.lor a b) bit) 1 = Z.b2z (Z.testbit a bit || Z.testbit b bit)).
  { change 1 with (Z.ones 1). rewrite Z.land_ones, Z.pow_1_r, <- Z.bit0_mod, Z.shiftr_spec, Z.lor_spec by lia. done. }
  rewrite E. destruct (Z.testbit a bit), (Z.testbit b bit); cbn [orb Z.b2z Z.eqb]; [apply IH; intros m Hm; apply Hc; lia..|done].
Qed.
End Cells.

(** *** The keys that are remembered *)
Section Recent.
Context (E k : nat) (nf tweak : Z) (HE : (0 < E)%nat) (Hk : (0 < k)%nat) (Hk32 : Z.of_nat (2 * k) ≤ 2 ^ 32).
(** Generations counted from the start, which the filter knows modulo three. *)
Definition generation_of (i : nat) : nat := (i / E)%nat.
Definition generation_number (v : nat) : Z := Z.of_nat (v mod 3) + 1.
Lemma generation_number_range v : 1 ≤ generation_number v ≤ 3.
Proof. unfold generation_number. pose proof (Nat.mod_upper_bound v 3). lia. Qed.
Lemma generation_number_neq v w : (v < w)%nat → (w ≤ v + 2)%nat → generation_bits (generation_number v) ≠ generation_bits (generation_number w).
Proof.
  intros H1 H2 Eg. apply generation_bits_inj in Eg; [|apply generation_number_range..]. unfold generation_number in Eg.
  pose proof (Nat.div_mod_eq v 3). pose proof (Nat.div_mod_eq w 3). pose proof (Nat.mod_upper_bound v 3). pose proof (Nat.mod_upper_bound w 3). lia.
Qed.
Lemma next_number v : (if generation_number v + 1 =? 4 then 1 else generation_number v + 1) = generation_number (S v).
Proof.
  unfold generation_number. pose proof (Nat.div_mod_eq v 3). pose proof (Nat.div_mod_eq (S v) 3). pose proof (Nat.mod_upper_bound v 3). pose proof (Nat.mod_upper_bound (S v) 3).
  destruct (Z.eqb_spec (Z.of_nat (v mod 3) + 1 + 1) 4); lia.
Qed.

(** The state after the insertion of [keys]. *)
Record remembers (keys : list bytes) (G : nat) (r : CRollingBloomFilter) : Prop := {
  rm_entries : nEntriesPerGeneration r = Z.of_nat E;
  rm_count : (G * E + Z.to_nat (nEntriesThisGeneration r) = length keys)%nat ∧ 0 ≤ nEntriesThisGeneration r ≤ Z.of_nat E;
  rm_generation : nGeneration r = generation_number G;
  rm_length : length (rdata r) = (2 * k)%nat; rm_tweak : rTweak r = tweak; rm_funcs : rHashFuncs r = nf;
  rm_keys : ∀ i key, keys !! i = Some key → (G ≤ generation_of i + 2)%nat → ∀ m, 0 ≤ m < nf → ∃ v, (generation_of i ≤ v ≤ G)%nat ∧
    cell (rdata r) (fst (location tweak k m key)) (snd (location tweak k m key)) = generation_bits (generation_number v) }.

Lemma generation_le keys G r i key : remembers keys G r → keys !! i = Some key → (generation_of i ≤ G)%nat.
Proof.
  intros [_ [Hc Hr] _ _ _ _ _] Hi. apply lookup_lt_Some in Hi. unfold generation_of.
  assert (i / E < S G)%nat; [|lia]. apply Nat.Div0.div_lt_upper_bound. nia.
Qed.
Lemma next_generation_spec keys G r : remembers keys G r → nEntriesThisGeneration r = nEntriesPerGeneration r →
  ∃ r', next_generation r = Some r' ∧ remembers keys (S G) r'.
Proof.
  intros Hr Hfull. pose proof (generation_le keys G r) as Hle. pose proof Hr as [He [Hc Hcr] Hg Hl Ht Hf Hkeys]. unfold next_generation. rewrite Hg, next_number.
  destruct (wipe_spec (generation_number (S G)) (rdata r) k (generation_number_range _) Hl) as (data' & -> & Hl' & Hcell). cbn [mbind option_bind].
  eexists. split; [done|]. split; cbn [nEntriesPerGeneration nEntriesThisGeneration nGeneration rdata rTweak rHashFuncs]; try done; [nia|lia|]. intros i key Hi HG m Hm. specialize (Hle i key Hr Hi).
  destruct (Hkeys i key Hi ltac:(lia) m Hm) as (v & Hv & Ev). exists v. split; [lia|].
  destruct (location_range k Hk Hk32 tweak m key) as [Hj Hb]. rewrite (Hcell _ _ Hj Hb), Ev, decide_False; [done|]. apply generation_number_neq; lia.
Qed.
Lemma insert_remembers keys G r key : remembers keys G r → nEntriesThisGeneration r < Z.of_nat E →
  ∃ data, rolling_insert_loop (Z.to_nat (rHashFuncs r)) 0 r key (rdata r) = Some data ∧
    remembers (keys ++ [key]) G (mkRolling (nEntriesPerGeneration r) (nEntriesThisGeneration r + 1) (nGeneration r) data (rTweak r) (rHashFuncs r)).
Proof.
  intros Hr Hlt. pose proof (generation_le keys G r) as Hle. pose proof Hr as [He [Hc Hcr] Hg Hl Ht Hf Hkeys].
  destruct (rolling_insert_loop_spec k Hk Hk32 (Z.to_nat (rHashFuncs r)) 0 r key (rdata r)) as (data & Ed & Hld & Hcell); [rewrite Hg; apply generation_number_range|done|done|].
  exists data. split; [done|]. split; cbn [nEntriesPerGeneration nEntriesThisGeneration nGeneration rdata rTweak rHashFuncs]; try done; [rewrite length_app; cbn; lia|lia|]. rewrite Ht, Hf, Hg in Hcell.
  intros i key' Hi HG m Hm. destruct (location_range k Hk Hk32 tweak m key') as [Hj Hb]. destruct (Hcell (fst (location tweak k m key')) (snd (location tweak k m key')) Hb) as [H1 H2].
  apply lookup_app_Some in Hi as [Hi|[Hi1 Hi2]].
  - specialize (Hle i key' Hr Hi). destruct H2 as [->|H2]; [by exists G|]. destruct (Hkeys i key' Hi HG m Hm) as (v & Hv & Ev). exists v. split; [done|]. by rewrite H2.
  - destruct (i - length keys)%nat eqn:Ei; [|done]. injection Hi2 as <-. assert (i = length keys) as -> by lia. exists G. split.
    + split; [|lia]. unfold generation_of. assert (length keys / E < S G)%nat; [|lia]. apply Nat.Div0.div_lt_upper_bound. nia.
    + apply H1. exists m. split; [lia|]. by destruct (location tweak k m key).
Qed.
Lemma rolling_insert_spec keys G r key : remembers keys G r → ∃ r' G', rolling_insert r key = Some r' ∧ remembers (keys ++ [key]) G' r'.
Proof.
  intros Hr. unfold rolling_insert. destruct (Z.eqb_spec (nEntriesThisGeneration r) (nEntriesPerGeneration r)) as [Hfull|Hnot].
  - destruct (next_generation_spec keys G r Hr Hfull) as (r1 & E1 & Hr1). rewrite E1. cbn [mbind option_bind].
    assert (Hz : nEntriesThisGeneration r1 = 0). { unfold next_generation in E1. destruct (wipe _ _ _); [|done]. by injection E1 as <-. }
    destruct (insert_remembers keys (S G) r1 key Hr1 ltac:(lia)) as (data & -> & H). cbn [mbind option_bind]. by eexists _, (S G).
  - cbn [mbind option_bind]. destruct Hr as [He [Hc Hcr] Hg Hl Ht Hf Hkeys] eqn:Er. clear Er.
    destruct (insert_remembers keys G r key ltac:(by split) ltac:(lia)) as (data & -> & H). cbn [mbind option_bind]. by eexists _, G.
Qed.
Lemma rolling_insert_all_spec new keys G r : remembers keys G r → ∃ r' G', rolling_insert_all r new = Some r' ∧ remembers (keys ++ new) G' r'.
Proof.
  revert keys G r. induction new as [|key new IH]; intros keys G r Hr; [exists r, G; by rewrite app_nil_r|]. cbn [rolling_insert_all].
  destruct (rolling_insert_spec keys G r key Hr) as (r1 & G1 & -> & Hr1). cbn [mbind option_bind]. destruct (IH _ G1 r1 Hr1) as (r2 & G2 & -> & Hr2).
  exists r2, G2. by rewrite <- app_assoc in Hr2.
Qed.
Lemma remembered keys G r i key : remembers keys G r → keys !! i = Some key → (length keys ≤ i + 2 * E)%nat → rolling_contains r key = Some true.
Proof.
  intros Hr Hi Hage. pose proof Hr as [He [Hc Hcr] Hg Hl Ht Hf Hkeys]. unfold rolling_contains. apply (rolling_contains_loop_spec k Hk Hk32); [done|]. intros m Hm.
  assert (HG : (G ≤ generation_of i + 2)%nat).
  { unfold generation_of. pose proof (Nat.div_mod_eq i E). pose proof (Nat.mod_upper_bound i E ltac:(lia)). set (q := (i / E)%nat) in *. nia. }
  rewrite Ht. destruct (Hkeys i key Hi HG m ltac:(lia)) as (v & _ & ->). apply (generation_cases _ (generation_number_range v)).
Qed.
Lemma fresh_remembers r : nEntriesPerGeneration r = Z.of_nat E → length (rdata r) = (2 * k)%nat → rHashFuncs r = nf → remembers [] 0 (rolling_reset r tweak).
Proof. intros He Hl Hf. unfold rolling_reset. split; cbn [nEntriesPerGeneration nEntriesThisGeneration nGeneration rdata rTweak rHashFuncs]; try done; [cbn; lia|by rewrite length_map]. Qed.
End Recent.

(** The filter remembers. *)
Lemma new_rolling_remembers nElements nFuncs nFilterBits tw : 0 < nElements < 2147483648 → 0 < nFilterBits ≤ 4294967232 →
  remembers (Z.to_nat ((nElements + 1) / 2)) (Z.to_nat ((nFilterBits + 63) / 64)) (Z.max 1 (Z.min nFuncs 50)) tw [] 0
    (new_CRollingBloomFilter nElements nFuncs nFilterBits tw).
Proof.
  intros He Hb. pose proof (Z.div_pos (nElements + 1) 2 ltac:(lia) ltac:(lia)). pose proof (Z.div_pos (nFilterBits + 63) 64 ltac:(lia) ltac:(lia)).
  assert ((nFilterBits + 63) / 64 < 67108864) by (apply Z.div_lt_upper_bound; lia).
  unfold new_CRollingBloomFilter. apply fresh_remembers; cbn [nEntriesPerGeneration rdata rHashFuncs]; try done; try lia.
  - rewrite u32_small by (unfold is_u32; lia). lia.
  - rewrite length_replicate, (u32_small (nFilterBits + 63)), Z.shiftl_mul_pow2 by (unfold is_u32; lia). rewrite u32_small by (unfold is_u32; lia). lia.
Qed.

(** ** Proofs: the filter of a client *)
Lemma bit_test x i : 0 ≤ i → negb (Z.land x (Z.shiftl 1 i) =? 0) = Z.testbit x i.
Proof.
  intros Hi. rewrite Z.shiftl_1_l. destruct (Z.testbit x i) eqn:E.
  - destruct (Z.eqb_spec (Z.land x (2 ^ i)) 0) as [E0|]; [|done]. exfalso. assert (H : Z.testbit (Z.land x (2 ^ i)) i = false) by (by rewrite E0, Z.bits_0).
    rewrite Z.land_spec, E, Z.pow2_bits_true in H by done. done.
  - replace (Z.land x (2 ^ i)) with 0; [done|]. symmetry. apply Z.bits_inj'. intros j Hj. rewrite Z.bits_0, Z.land_spec, Z.pow2_bits_eqb by done.
    destruct (Z.eqb_spec i j) as [->|]; [by rewrite E|apply andb_false_r].
Qed.
Lemma index_parts i : 0 ≤ i → Z.shiftr i 3 = i / 8 ∧ Z.land 7 i = i mod 8.
Proof. intros Hi. split; [by rewrite Z.shiftr_div_pow2 by lia|]. rewrite Z.land_comm. change 7 with (Z.ones 3). by rewrite Z.land_ones by lia. Qed.
Lemma test_set_index v i j : bytes_ok v → 0 ≤ i < 8 * Z.of_nat (length v) → 0 ≤ j → test_index (set_index v i) j = bool_decide (i = j) || test_index v j.
Proof.
  intros Hv Hi Hj. unfold test_index, set_index. destruct (index_parts i ltac:(lia)) as [-> ->]. destruct (index_parts j Hj) as [-> ->].
  pose proof (Z.mod_pos_bound i 8 ltac:(lia)). pose proof (Z.mod_pos_bound j 8 ltac:(lia)). pose proof (Z.div_mod i 8 ltac:(lia)). pose proof (Z.div_mod j 8 ltac:(lia)).
  pose proof (Z.div_pos i 8 ltac:(lia) ltac:(lia)). pose proof (Z.div_pos j 8 ltac:(lia) ltac:(lia)).
  rewrite !bit_test, !nth_lookup, list_lookup_alter by lia. destruct (decide (Z.to_nat (i / 8) = Z.to_nat (j / 8))) as [E|Hne].
  - rewrite E. destruct (lookup_lt_is_Some_2 v (Z.to_nat (j / 8))) as [x Hx]; [apply Nat2Z.inj_lt; rewrite <- E, Z2Nat.id by lia; apply Z.div_lt_upper_bound; lia|].
    rewrite Hx. cbn [fmap option_fmap option_map default from_option id]. unfold u8. change 256 with (2 ^ 8).
    rewrite Z.mod_pow2_bits_low, Z.lor_spec, Z.shiftl_1_l, Z.pow2_bits_eqb by lia. rewrite orb_comm. f_equal. case_bool_decide; lia.
  - case_bool_decide; [subst; done|done].
Qed.
Lemma length_set_index v i : length (set_index v i) = length v.
Proof. apply length_alter. Qed.
Lemma set_index_ok v i : bytes_ok v → bytes_ok (set_index v i).
Proof. intros Hv. apply Forall_alter; [done|]. intros x _ _. apply u8_range. Qed.

(** A filter that answers: it is full or has bytes. *)
Record filter_ok (f : CBloomFilter) : Prop := {
  fk_bytes : bytes_ok (vData f); fk_size : isFull f = true ∨ (0 < length (vData f))%nat }.
(** The second filter contains all that the first one does. *)
Record filter_le (f f' : CBloomFilter) : Prop := {
  fl_length : length (vData f') = length (vData f); fl_full : isFull f' = isFull f; fl_empty : isEmpty f' = true → isEmpty f = true;
  fl_funcs : nHashFuncs f' = nHashFuncs f; fl_tweak : nTweak f' = nTweak f; fl_flags : nFlags f' = nFlags f;
  fl_bits : ∀ i, 0 ≤ i → test_index (vData f) i = true → test_index (vData f') i = true }.
#[global] Instance filter_le_preorder : PreOrder filter_le.
Proof.
  split; [by split|]. intros f1 f2 f3 [] []. split; try congruence; auto.
Qed.
Lemma Bloom_Hash_spec f n key : (0 < length (vData f))%nat → ∃ i, Bloom_Hash f n key = Some i ∧ 0 ≤ i < 8 * Z.of_nat (length (vData f)).
Proof.
  intros Hl. unfold Bloom_Hash. destruct (Nat.eqb_spec (length (vData f)) 0); [lia|]. eexists. split; [done|]. rewrite (Z.mul_comm 8). apply Z.mod_pos_bound. lia.
Qed.
Lemma insert_loop_spec n i f key v : (0 < length (vData f))%nat → bytes_ok v → length v = length (vData f) →
  ∃ v', insert_loop n i f key v = Some v' ∧ bytes_ok v' ∧ length v' = length v ∧ (∀ j, 0 ≤ j → test_index v j = true → test_index v' j = true) ∧
    ∀ m, i ≤ m < i + Z.of_nat n → ∃ x, Bloom_Hash f m key = Some x ∧ test_index v' x = true.
Proof.
  intros Hl. revert i v. induction n as [|n IH]; intros i v Hv Hlv; [exists v; split_and!; try done; lia|]. cbn [insert_loop].
  destruct (Bloom_Hash_spec f i key Hl) as (x & Ex & Hx). rewrite Ex. cbn [mbind option_bind].
  destruct (IH (i + 1) (set_index v x) (set_index_ok _ _ Hv) ltac:(by rewrite length_set_index)) as (v' & -> & Hv' & Hl' & Hmon & Hall).
  exists v'. split; [done|]. split; [done|]. split; [by rewrite Hl', length_set_index|]. split.
  - intros j Hj Ht. apply Hmon; [done|]. rewrite test_set_index, Ht by (done || lia). apply orb_true_r.
  - intros m Hm. destruct (decide (m = i)) as [->|Hne]; [|apply Hall; lia]. exists x. split; [done|]. apply Hmon; [lia|].
    rewrite test_set_index by (done || lia). by rewrite bool_decide_true.
Qed.
Lemma contains_loop_spec n i f key : (0 < length (vData f))%nat → ∃ b, contains_loop n i f key = Some b ∧
  (b = true ↔ ∀ m x, i ≤ m < i + Z.of_nat n → Bloom_Hash f m key = Some x → test_index (vData f) x = true).
Proof.
  intros Hl. revert i. induction n as [|n IH]; intros i; [exists true; split; [done|]; split; [lia|done]|]. cbn [contains_loop].
  destruct (Bloom_Hash_spec f i key Hl) as (x & Ex & _). rewrite Ex. cbn [mbind option_bind]. destruct (test_index (vData f) x) eqn:Et; cbn [negb].
  - destruct (IH (i + 1)) as (b & -> & Hb). exists b. split; [done|]. rewrite Hb. split; intros H m y Hm Ey; [|apply (H m y); [lia|done]].
    destruct (decide (m = i)) as [->|Hne]; [congruence|apply (H m y); [lia|done]].
  - exists false. split; [done|]. split; [done|]. intros H. specialize (H i x ltac:(lia) Ex). congruence.
Qed.
Lemma contains_total f key : filter_ok f → ∃ b, contains f key = Some b.
Proof.
  intros [_ Hs]. unfold contains. destruct (isFull f); [by eexists|]. destruct (isEmpty f); [by eexists|]. destruct Hs as [|Hs]; [done|].
  destruct (contains_loop_spec (Z.to_nat (nHashFuncs f)) 0 f key Hs) as (b & E & _). by exists b.
Qed.
Lemma Bloom_Hash_le f f' n key : filter_le f f' → Bloom_Hash f' n key = Bloom_Hash f n key.
Proof. intros [El _ _ _ Et _ _]. unfold Bloom_Hash. by rewrite El, Et. Qed.
(** What is contained stays. *)
Lemma contains_le f f' key : filter_ok f → filter_le f f' → contains f key = Some true → contains f' key = Some true.
Proof.
  intros [_ Hs] Hle. pose proof Hle as [El Ef Ee En Et _ Hb]. unfold contains. rewrite Ef. destruct (isFull f); [done|]. destruct Hs as [|Hs]; [done|].
  destruct (isEmpty f) eqn:E1; [done|]. destruct (isEmpty f') eqn:E2; [by specialize (Ee eq_refl)|]. rewrite En.
  destruct (contains_loop_spec (Z.to_nat (nHashFuncs f)) 0 f key Hs) as (b & -> & Hb1). destruct (contains_loop_spec (Z.to_nat (nHashFuncs f)) 0 f' key ltac:(lia)) as (b' & -> & Hb2).
  intros [= ->]. f_equal. apply Hb2. intros m x Hm Ex. rewrite (Bloom_Hash_le f f') in Ex by done.
  destruct (Bloom_Hash_spec f m key Hs) as (y & Ey & Hy). apply Hb; [replace x with y by congruence; lia|]. by apply (proj1 Hb1 eq_refl m).
Qed.
Lemma insert_spec f key : filter_ok f → ∃ f', insert f key = Some f' ∧ filter_ok f' ∧ filter_le f f' ∧ contains f' key = Some true.
Proof.
  intros Hf. pose proof Hf as [Hv Hs]. unfold insert. destruct (isFull f) eqn:Efull; [exists f; unfold contains; rewrite Efull; by split_and!|].
  destruct Hs as [|Hs]; [done|]. destruct (insert_loop_spec (Z.to_nat (nHashFuncs f)) 0 f key (vData f) Hs Hv eq_refl) as (v' & -> & Hv' & Hl' & Hmon & Hall).
  cbn [mbind option_bind]. set (f' := set_data f v' false false). exists f'.
  assert (Hle : filter_le f f') by (split; try done; by rewrite Efull). split; [done|]. split; [split; [done|right; cbn; lia]|]. split; [done|].
  unfold contains. cbn [f' set_data isFull isEmpty nHashFuncs]. destruct (contains_loop_spec (Z.to_nat (nHashFuncs f)) 0 f' key ltac:(cbn; lia)) as (b & -> & Hb).
  f_equal. apply Hb. intros m x Hm Ex. rewrite (Bloom_Hash_le f f') in Ex by done. destruct (Hall m Hm) as (y & Ey & Hy). cbn. by replace x with y by congruence.
Qed.


(** ** Proofs: matching *)

(** The data elements of a script, up to an instruction that cannot be read. *)
Fixpoint data_elements (fuel : nat) (pc : bytes) : list bytes :=
  match GetOp2 pc, fuel with
  | Some (_, data, pc), S fuel => data :: data_elements fuel pc
  | Some (_, data, _), O => [data]
  | None, _ => []
  end.
Definition script_matches (f : CBloomFilter) (script : bytes) : Prop :=
  ∃ data, data ∈ data_elements (length script) script ∧ data ≠ [] ∧ contains f data = Some true.
Lemma match_script_spec fuel f pc : filter_ok f → (length pc ≤ fuel)%nat → ∃ b, match_script fuel f pc = Some b ∧
  (b = true ↔ ∃ data, data ∈ data_elements fuel pc ∧ data ≠ [] ∧ contains f data = Some true).
Proof.
  intros Hf. revert pc. induction fuel as [|fuel IH]; intros pc Hl.
  { destruct pc; [|cbn in Hl; lia]. exists false. split; [done|]. split; [done|]. intros (d & Hd & _). by apply elem_of_nil in Hd. }
  destruct pc as [|x pc]; [exists false; split; [done|]; split; [done|]; intros (d & Hd & _); by apply elem_of_nil in Hd|].
  cbn [match_script data_elements]. destruct (GetOp2 (x :: pc)) as [[[op data] rest]|] eqn:E.
  2: { exists false. split; [done|]. split; [done|]. intros (d & Hd & _). by apply elem_of_nil in Hd. }
  pose proof (GetOp2_shorter _ _ _ _ E). destruct (IH rest ltac:(lia)) as (b & Eb & Hb).
  assert (Hc : ∃ found, (if negb (length data =? 0)%nat then contains f data else Some false) = Some found ∧ (found = true ↔ data ≠ [] ∧ contains f data = Some true)).
  { destruct data as [|y data]; [exists false; split; [done|]; split; [done|]; by intros [? _]|]. cbn [length Nat.eqb negb].
    destruct (contains_total f (y :: data) Hf) as [c Ec]. exists c. rewrite Ec. split; [done|]. split; [by intros ->|]. by intros [_ [= ->]]. }
  destruct Hc as (found & -> & Hfound). cbn [mbind option_bind]. destruct found.
  - exists true. split; [done|]. split; [|done]. intros _. exists data. split; [by left|]. by apply Hfound.
  - rewrite Eb. exists b. split; [done|]. rewrite Hb. split; intros (d & Hd & H1); [exists d; split; [by right|done]|].
    apply elem_of_cons in Hd as [->|Hd]; [by apply Hfound in H1|by exists d].
Qed.
Lemma script_matches_le f f' script : filter_ok f → filter_le f f' → script_matches f script → script_matches f' script.
Proof. intros Hf Hle (d & Hd & Hne & Hc). exists d. split_and!; [done..|by apply (contains_le f)]. Qed.
Lemma script_matches_nonempty f script : script_matches f script → script ≠ [].
Proof. intros (d & Hd & _) ->. by apply elem_of_nil in Hd. Qed.

(** The output's outpoint goes into the filter. *)
Definition follows (f : CBloomFilter) (script : bytes) : Prop :=
  Z.land (nFlags f) BLOOM_UPDATE_MASK = BLOOM_UPDATE_ALL ∨
  (Z.land (nFlags f) BLOOM_UPDATE_MASK = BLOOM_UPDATE_P2PUBKEY_ONLY ∧
   ∃ type sols, Solver script TX_NONSTANDARD false = Some (true, type, sols) ∧ (type = TX_PUBKEY ∨ type = TX_MULTISIG)).
Lemma update_output_spec f hash i script : filter_ok f → bytes_ok script → script ≠ [] →
  ∃ f', update_output f hash i script = Some f' ∧ filter_ok f' ∧ filter_le f f' ∧
    (follows f script → contains_outpoint f' (mkCOutPoint hash i) = Some true).
Proof.
  intros Hf Hs Hne. destruct (insert_spec f (outpoint_key (mkCOutPoint hash i)) Hf) as (f' & E & Hf' & Hle & Hc).
  unfold update_output, insert_outpoint, follows. destruct (Z.eqb_spec (Z.land (nFlags f) BLOOM_UPDATE_MASK) BLOOM_UPDATE_ALL) as [E1|E1].
  { rewrite E. by exists f'. }
  destruct (Z.eqb_spec (Z.land (nFlags f) BLOOM_UPDATE_MASK) BLOOM_UPDATE_P2PUBKEY_ONLY) as [E2|E2].
  - destruct (Solver_total false script TX_NONSTANDARD Hs Hne) as [[[ok type] sols] Es]. rewrite Es. cbn [mbind option_bind].
    destruct (ok && _) eqn:Ec; [rewrite E; by exists f'|]. exists f. split_and!; try done. intros [|(_ & t & so & [= -> -> ->] & Ht)]; [done|].
    exfalso. destruct Ht as [-> | ->]; done.
  - exists f. split_and!; try done. intros [|[? _]]; done.
Qed.
Lemma match_outputs_spec f hash i outs found : filter_ok f → Forall (λ o, bytes_ok (scriptPubKey o)) outs → 0 ≤ i → i + Z.of_nat (length outs) ≤ 4294967296 →
  ∃ b f', match_outputs f hash i outs found = Some (b, f') ∧ filter_ok f' ∧ filter_le f f' ∧
    (b = true ↔ found = true ∨ ∃ o, o ∈ outs ∧ script_matches f (scriptPubKey o)) ∧ (b = false → f' = f) ∧
    ∀ k o, outs !! k = Some o → script_matches f (scriptPubKey o) → follows f (scriptPubKey o) →
      contains_outpoint f' (mkCOutPoint hash (i + Z.of_nat k)) = Some true.
Proof.
  revert f i found. induction outs as [|o outs IH]; intros f i found Hf Hb Hi Hn.
  { exists found, f. cbn. split_and!; try done. split; [by left|]. intros [|(o & Ho & _)]; [done|by apply elem_of_nil in Ho]. }
  apply list.Forall_cons in Hb as [Hbo Hb]. cbn [match_outputs length] in *.
  destruct (match_script_spec (length (scriptPubKey o)) f (scriptPubKey o) Hf ltac:(lia)) as (m & -> & Hm). cbn [mbind option_bind].
  change (m = true ↔ script_matches f (scriptPubKey o)) in Hm. destruct m.
  - pose proof (proj1 Hm eq_refl) as Hmatch. destruct (update_output_spec f hash i _ Hf Hbo (script_matches_nonempty _ _ Hmatch)) as (f1 & -> & Hf1 & Hle1 & Hc1). cbn [mbind option_bind].
    assert (Hrec : ∃ b f', match_outputs f1 hash (u32 (i + 1)) outs true = Some (b, f') ∧ filter_ok f' ∧ filter_le f1 f' ∧
      (b = true ↔ true = true ∨ ∃ o, o ∈ outs ∧ script_matches f1 (scriptPubKey o)) ∧ (b = false → f' = f1) ∧
      ∀ k o, outs !! k = Some o → script_matches f1 (scriptPubKey o) → follows f1 (scriptPubKey o) → contains_outpoint f' (mkCOutPoint hash (i + 1 + Z.of_nat k)) = Some true).
    { destruct outs as [|o2 outs]; [cbn; exists true, f1; split_and!; try done; split; [by left|done]|]. rewrite u32_small by (unfold is_u32; cbn [length] in *; lia). apply IH; try done; lia. }
    destruct Hrec as (b & f' & -> & Hf' & Hle' & Hb' & _ & Hk). assert (b = true) as -> by (apply Hb'; by left).
    exists true, f'. split_and!; try done; [by transitivity f1| |].
    + split; [|done]. intros _. right. exists o. split; [by left|done].
    + intros [|k] o' Ho' Hs' Hfol; cbn in Ho'.
      * injection Ho' as <-. rewrite Z.add_0_r. apply (contains_le f1); [done..|]. by apply Hc1.
      * replace (i + Z.of_nat (S k)) with (i + 1 + Z.of_nat k) by lia. apply (Hk k o'); [done|by apply (script_matches_le f)|].
        unfold follows in *. by rewrite (fl_flags _ _ Hle1).
  - assert (Hno : ¬ script_matches f (scriptPubKey o)) by (intros H; by apply Hm in H).
    assert (Hrec : ∃ b f', match_outputs f hash (u32 (i + 1)) outs found = Some (b, f') ∧ filter_ok f' ∧ filter_le f f' ∧
      (b = true ↔ found = true ∨ ∃ o, o ∈ outs ∧ script_matches f (scriptPubKey o)) ∧ (b = false → f' = f) ∧
      ∀ k o, outs !! k = Some o → script_matches f (scriptPubKey o) → follows f (scriptPubKey o) → contains_outpoint f' (mkCOutPoint hash (i + 1 + Z.of_nat k)) = Some true).
    { destruct outs as [|o2 outs]; [cbn; exists found, f; split_and!; try done; split; [by left|]; intros [|(x & Hx & _)]; [done|by apply elem_of_nil in Hx]|].
      rewrite u32_small by (unfold is_u32; cbn [length] in *; lia). apply IH; try done; lia. }
    destruct Hrec as (b & f' & -> & Hf' & Hle' & Hb' & Hsame & Hk). exists b, f'. split_and!; try done.
    + rewrite Hb'. split; (intros [|(x & Hx & Hsx)]; [by left|]); [right; exists x; split; [by right|done]|].
      apply elem_of_cons in Hx as [->|Hx]; [done|right; by exists x].
    + intros [|k] o' Ho' Hs' Hfol; cbn in Ho'; [injection Ho' as <-; done|]. replace (i + Z.of_nat (S k)) with (i + 1 + Z.of_nat k) by lia. by apply (Hk k o').
Qed.
Lemma match_inputs_spec f ins : filter_ok f → ∃ b, match_inputs f ins = Some b ∧
  (b = true ↔ ∃ i, i ∈ ins ∧ (contains_outpoint f (prevout i) = Some true ∨ script_matches f (scriptSig i))).
Proof.
  intros Hf. induction ins as [|i ins IH].
  { exists false. split; [done|]. split; [done|]. intros (i & Hi & _). by apply elem_of_nil in Hi. }
  destruct IH as (b & Eb & Hb). cbn [match_inputs]. destruct (contains_total f (outpoint_key (prevout i)) Hf) as [c Ec].
  fold (contains_outpoint f (prevout i)) in Ec. rewrite Ec. cbn [mbind option_bind]. destruct c.
  { exists true. split; [done|]. split; [|done]. intros _. exists i. split; [by left|by left]. }
  destruct (match_script_spec (length (scriptSig i)) f (scriptSig i) Hf ltac:(lia)) as (m & -> & Hm). cbn [mbind option_bind].
  change (m = true ↔ script_matches f (scriptSig i)) in Hm. destruct m.
  - exists true. split; [done|]. split; [|done]. intros _. exists i. split; [by left|right; by apply Hm].
  - rewrite Eb. exists b. split; [done|]. rewrite Hb. split; intros (j & Hj & H); [exists j; split; [by right|done]|].
    apply elem_of_cons in Hj as [->|Hj]; [|by exists j]. exfalso. destruct H as [H|H]; [congruence|by apply Hm in H].
Qed.

(** What makes a transaction relevant for a filter. *)
Definition relevant (f : CBloomFilter) (tx : CTransaction) (hash : bytes) : Prop :=
  contains f hash = Some true ∨ (∃ o, o ∈ vout tx ∧ script_matches f (scriptPubKey o)) ∨
  (∃ i, i ∈ vin tx ∧ (contains_outpoint f (prevout i) = Some true ∨ script_matches f (scriptSig i))).
Lemma relevant_le f f' tx hash : filter_ok f → filter_le f f' → relevant f tx hash → relevant f' tx hash.
Proof.
  intros Hf Hle [H|[(o & Ho & H)|(i & Hi & [H|H])]].
  - left. by apply (contains_le f).
  - right. left. exists o. split; [done|by apply (script_matches_le f)].
  - right. right. exists i. split; [done|]. left. by apply (contains_le f).
  - right. right. exists i. split; [done|]. right. by apply (script_matches_le f).
Qed.
Lemma empty_contains f key : isFull f = false → isEmpty f = true → contains f key = Some false.
Proof. intros E1 E2. unfold contains. by rewrite E1, E2. Qed.
Lemma empty_irrelevant f tx hash : isFull f = false → isEmpty f = true → ¬ relevant f tx hash.
Proof.
  intros E1 E2. unfold relevant, contains_outpoint, script_matches.
  intros [H|[(o & _ & d & _ & _ & H)|(i & _ & [H|(d & _ & _ & H)])]]; rewrite (empty_contains f _ E1 E2) in H; done.
Qed.

(** The outputs of a transaction that the filter follows. *)
Definition follows_outputs (f f' : CBloomFilter) (tx : CTransaction) (hash : bytes) : Prop :=
  ∀ k o, vout tx !! k = Some o → script_matches f (scriptPubKey o) → follows f (scriptPubKey o) →
    contains_outpoint f' (mkCOutPoint hash (Z.of_nat k)) = Some true.
Lemma tx_outputs_bound tx : tx_ok tx → Z.of_nat (length (vout tx)) ≤ 4294967296.
Proof. intros (_ & _ & _ & [_ Hl] & _). unfold MAX_SIZE in Hl. lia. Qed.
Lemma IsRelevantAndUpdate_spec f tx : filter_ok f → tx_wf tx → ∃ hash b f', GetHash tx = Some hash ∧ enc_ok uint256_codec hash ∧
  IsRelevantAndUpdate f tx = Some (b, f') ∧ filter_ok f' ∧ filter_le f f' ∧
  (relevant f tx hash → b = true) ∧ (b = true → isFull f = true ∨ relevant f tx hash) ∧ follows_outputs f f' tx hash.
Proof.
  intros Hf (Hok & Hlen & Hscripts). destruct (Fips202Refinement.SHA3_of_bytes (basic tx) Hlen (basic_ok tx Hok)) as (hash & Eh & Lh & Bh & _).
  assert (EH : GetHash tx = Some hash).
  { unfold GetHash. rewrite SerializeTransaction_eq in *. cbn [andb]. by rewrite Hashes.SerializeHash_eq. }
  exists hash. unfold IsRelevantAndUpdate. destruct (isFull f) eqn:Efull.
  { exists true, f. split_and!; try done; [by left|]. intros k o _ _ _. unfold contains_outpoint, contains. by rewrite Efull. }
  destruct (isEmpty f) eqn:Eempty.
  { exists false, f. split_and!; try done; [intros H; by apply (empty_irrelevant f) in H|]. intros k o _ (d & _ & _ & H). by rewrite (empty_contains f) in H. }
  rewrite EH. cbn [mbind option_bind]. destruct (contains_total f hash Hf) as [c Ec]. rewrite Ec. cbn [mbind option_bind].
  destruct (match_outputs_spec f hash 0 (vout tx) c Hf Hscripts ltac:(lia) ltac:(pose proof (tx_outputs_bound tx Hok); lia)) as (b & f1 & -> & Hf1 & Hle & Hb & Hsame & Hk).
  cbn [mbind option_bind]. destruct b.
  - exists true, f1. split_and!; try done. intros _. right. destruct (proj1 Hb eq_refl) as [->|H]; [by left|right; by left].
  - rewrite (Hsame eq_refl) in *. destruct (match_inputs_spec f (vin tx) Hf) as (b & -> & Hin). cbn [mbind option_bind]. exists b, f. split_and!; try done.
    + intros [H|[H|H]]; [|exfalso; assert (false = true) by (apply Hb; by right); done|by apply Hin].
      exfalso. assert (false = true) by (apply Hb; left; congruence). done.
    + intros Hbt. right. right. right. by apply Hin.
Qed.


(** What the filter did with the transaction at the position [k] of a block. *)
Definition matched_at (f f' : CBloomFilter) (txs : list CTransaction) (hashes : list bytes) (ms : list bool) (k : nat) : Prop :=
  ∀ tx hash, txs !! k = Some tx → hashes !! k = Some hash → ∃ f1 f2,
    filter_ok f1 ∧ filter_ok f2 ∧ filter_le f f1 ∧ filter_le f1 f2 ∧ filter_le f2 f' ∧
    (relevant f1 tx hash → ms !! k = Some true) ∧ (ms !! k = Some true → isFull f = true ∨ relevant f1 tx hash) ∧ follows_outputs f1 f2 tx hash ∧
    ∀ k' tx' hash', (k < k')%nat → txs !! k' = Some tx' → hashes !! k' = Some hash' → relevant f2 tx' hash' → ms !! k' = Some true.
Lemma select_shift {B} i (xs : list B) bs : select (S i) xs bs = map (λ o, (fst o, S (snd o))) (select i xs bs).
Proof.
  revert i bs. induction xs as [|x xs IH]; intros i [|b bs]; try done. cbn [select]. rewrite map_app, IH. by destruct b.
Qed.
Lemma match_block_spec f i txs : filter_ok f → Forall tx_wf txs → 0 ≤ i → i + Z.of_nat (length txs) ≤ 4294967295 →
  ∃ hashes ms matched f', match_block f i txs = Some (hashes, ms, matched, f') ∧ mapM GetHash txs = Some hashes ∧
    length ms = length hashes ∧ Forall (enc_ok uint256_codec) hashes ∧ filter_ok f' ∧ filter_le f f' ∧
    matched = map (λ o, (i + Z.of_nat (snd o), fst o)) (select 0 hashes ms) ∧ ∀ k, matched_at f f' txs hashes ms k.
Proof.
  revert f i. induction txs as [|tx txs IH]; intros f i Hf Hwf Hi Hn; [exists [], [], [], f; by split_and!|].
  apply list.Forall_cons in Hwf as [Htx Hwf]. cbn [match_block length] in *.
  destruct (IsRelevantAndUpdate_spec f tx Hf Htx) as (hash & b & f1 & Eh & Hh & Eb & Hf1 & Hle & Hrel & Hmatch & Hfol). rewrite Eh, Eb. cbn [mbind option_bind].
  rewrite u32_small by (unfold is_u32; lia).
  destruct (IH f1 (i + 1) Hf1 Hwf ltac:(lia) ltac:(lia)) as (hashes & ms & matched & f' & -> & EM & El & Hok & Hf' & Hle' & -> & Hk). cbn [mbind option_bind].
  do 4 eexists. split; [done|]. split; [cbn [mapM]; by rewrite Eh, EM|]. split; [cbn; by rewrite El|]. split; [by constructor|]. split; [done|].
  split; [by transitivity f1|]. split.
  { cbn [select]. rewrite select_shift, map_app, map_map. cbn [fst snd]. assert (E : ∀ n, i + Z.of_nat (S n) = i + 1 + Z.of_nat n) by lia.
    destruct b; cbn [map app fst snd]; [rewrite Z.add_0_r; f_equal|]; apply map_ext; intros [x y]; cbn [fst snd]; by rewrite E. }
  intros [|k] tx0 hash0 Etx Ehash; cbn [lookup list_lookup] in Etx, Ehash.
  - injection Etx as <-. injection Ehash as <-. exists f, f1. split_and!; try done; cbn [lookup list_lookup]; [by intros ->%Hrel|by intros [= ->]; apply Hmatch|].
    intros [|k'] tx' hash' Hlt Etx' Eh' H; [lia|]. cbn [lookup list_lookup] in *. destruct (Hk k' tx' hash' Etx' Eh') as (g1 & g2 & _ & _ & Hg & _ & _ & Hm & _).
    apply Hm. by apply (relevant_le f1).
  - destruct (Hk k tx0 hash0 Etx Ehash) as (g1 & g2 & Hg1 & Hg2 & L1 & L2 & L3 & R1 & R2 & R3 & R4). exists g1, g2. split_and!; try done; [by transitivity f1| |].
    + intros H. destruct (R2 H) as [H1|]; [left|by right]. by rewrite <- (fl_full _ _ Hle).
    + intros [|k'] tx' hash' Hlt Etx' Eh' H; [lia|]. cbn [lookup list_lookup] in *. apply (R4 k' tx' hash'); [lia|done..].
Qed.

(** ** Proofs: the promises of the filters *)
Fixpoint insert_all (f : CBloomFilter) (keys : list bytes) : option CBloomFilter :=
  match keys with [] => Some f | k :: keys => f ← insert f k; insert_all f keys end.
Lemma insert_all_spec f keys : filter_ok f → ∃ f', insert_all f keys = Some f' ∧ filter_ok f' ∧ filter_le f f' ∧ ∀ key, key ∈ keys → contains f' key = Some true.
Proof.
  revert f. induction keys as [|k keys IH]; intros f Hf.
  { exists f. split_and!; try done. intros key H. by apply elem_of_nil in H. }
  cbn [insert_all]. destruct (insert_spec f k Hf) as (f1 & -> & Hf1 & Hle & Hc). cbn [mbind option_bind]. destruct (IH f1 Hf1) as (f' & -> & Hf' & Hle' & Hk).
  exists f'. split_and!; [done..|by transitivity f1|]. intros key [->|H]%elem_of_cons; [by apply (contains_le f1)|by apply Hk].
Qed.
Lemma new_filter_ok nBits nFuncs tw fl : 8 ≤ nBits → filter_ok (new_CBloomFilter nBits nFuncs tw fl).
Proof.
  intros Hb. unfold new_CBloomFilter, MAX_BLOOM_FILTER_SIZE. split; cbn [vData isFull].
  - by apply Forall_replicate.
  - right. rewrite length_replicate. assert (1 ≤ Z.min nBits (36000 * 8) / 8) by (apply Z.div_le_lower_bound; lia). lia.
Qed.
(** The flags may be computed anew. *)
Lemma UpdateEmptyFull_contains f g key : filter_ok f → vData g = vData f → nHashFuncs g = nHashFuncs f → nTweak g = nTweak f → isFull f = false →
  1 ≤ nHashFuncs f → contains f key = Some true → contains (UpdateEmptyFull g) key = Some true.
Proof.
  intros [_ Hs] Ev En Et Efull Hn. destruct Hs as [|Hs]; [congruence|]. unfold contains. rewrite Efull. unfold UpdateEmptyFull, set_data. cbn [isFull isEmpty nHashFuncs]. rewrite Ev, En.
  destruct (isEmpty f); [done|]. destruct (forallb _ (vData f)); [done|].
  destruct (contains_loop_spec (Z.to_nat (nHashFuncs f)) 0 f key Hs) as (b & -> & Hb). intros [= ->]. pose proof (proj1 Hb eq_refl) as Hall.
  destruct (forallb (λ b, b =? 0) (vData f)) eqn:Ez.
  - exfalso. destruct (Bloom_Hash_spec f 0 key Hs) as (x & Ex & Hx). specialize (Hall 0 x ltac:(lia) Ex). unfold test_index in Hall.
    rewrite nth_lookup in Hall. destruct (vData f !! Z.to_nat (Z.shiftr x 3)) as [y|] eqn:Ey; [|done]. cbn [default from_option id] in Hall.
    apply Is_true_true_2, forallb_True in Ez. apply (Forall_lookup_1 _ _ _ _ Ez), Is_true_true_1, Z.eqb_eq in Ey as ->. done.
  - match goal with |- contains_loop _ _ ?f' _ = _ => destruct (contains_loop_spec (Z.to_nat (nHashFuncs f)) 0 f' key) as (b & -> & Hb') end; [done|].
    f_equal. apply Hb'. intros m x Hm Ex. apply (Hall m x Hm). unfold Bloom_Hash in *. cbn [vData nTweak] in Ex. by rewrite Et in Ex.
Qed.

(** A filter has no false negatives.  Whatever is inserted into a filter with at least one
    byte and one hash function, the filter contains it; the filter passes the limits of the
    protocol, its wire form is read back, and the filter that a node has read, whose flags it computes
    from the bytes, contains it too. *)
Theorem filter_no_false_negatives (nBits nFuncs nTweakIn nFlagsIn : Z) (keys : list bytes) (r : bytes)
  (Hbits : 8 ≤ nBits) (Hfuncs : 1 ≤ nFuncs) (Htweak : is_u32 nTweakIn) (Hflags : is_u8 nFlagsIn) :
  ∃ f f', insert_all (new_CBloomFilter nBits nFuncs nTweakIn nFlagsIn) keys = Some f ∧ IsWithinSizeConstraints f = true ∧
    Bloom_Unserialize default_CBloomFilter (Bloom_Serialize f ++ r) = Some (f', r) ∧
    ∀ key, key ∈ keys → contains f key = Some true ∧ contains (UpdateEmptyFull f') key = Some true.
Proof.
  destruct (insert_all_spec _ keys (new_filter_ok nBits nFuncs nTweakIn nFlagsIn Hbits)) as (f & E & Hf & Hle & Hk).
  assert (Hl : Z.of_nat (length (vData f)) ≤ 36000).
  { rewrite (fl_length _ _ Hle). unfold new_CBloomFilter, MAX_BLOOM_FILTER_SIZE. cbn [vData]. rewrite length_replicate.
    assert (Z.min nBits (36000 * 8) / 8 ≤ 36000) by (apply Z.div_le_upper_bound; lia). lia. }
  assert (En : nHashFuncs f = Z.min nFuncs 50) by apply (fl_funcs _ _ Hle).
  exists f, (mkBloom (vData f) true false (nHashFuncs f) (nTweak f) (nFlags f)). split; [done|]. split; [|split].
  - unfold IsWithinSizeConstraints, MAX_BLOOM_FILTER_SIZE, MAX_HASH_FUNCS. apply andb_true_iff. lia.
  - unfold Bloom_Unserialize, Bloom_Serialize. rewrite (enc_dec (c := CBloomFilter_codec)); [done|].
    split; [split; [apply Hf|unfold MAX_SIZE; cbn [fst]; lia]|]. cbn [fst snd]. rewrite (fl_tweak _ _ Hle), (fl_flags _ _ Hle), En.
    split; [|split; done]. change (is_u32 (Z.min nFuncs 50)). unfold is_u32. lia.
  - intros key Hin. split; [by apply Hk|]. apply (UpdateEmptyFull_contains f); try done; [by rewrite (fl_full _ _ Hle)|lia|by apply Hk].
Qed.
Lemma filter_no_false_negatives_witness :
  ∃ f f', insert_all (new_CBloomFilter 28 5 0 1) [[1; 2; 3]; [4]] = Some f ∧ IsWithinSizeConstraints f = true ∧
    Bloom_Unserialize default_CBloomFilter (Bloom_Serialize f ++ [7]) = Some (f', [7]) ∧
    ∀ key, key ∈ [[1; 2; 3]; [4]] → contains f key = Some true ∧ contains (UpdateEmptyFull f') key = Some true.
Proof. apply (filter_no_false_negatives 28 5 0 1 [[1; 2; 3]; [4]] [7]); [lia|lia|split; [lia|reflexivity]|split; [lia|reflexivity]]. Defined.

(** C26. The rolling filter remembers the last [nElements] keys.  Whatever was inserted before and after it,
    a key that is among the last [nElements] of those inserted is contained; inserting never fails. *)
Theorem rolling_filter_remembers (nElements nFuncs nFilterBits tweak : Z) (older newer : list bytes) (key : bytes)
  (Helements : 0 < nElements < 2147483648) (Hbits : 0 < nFilterBits ≤ 4294967232) (Hrecent : Z.of_nat (length newer) < nElements) :
  ∃ r, rolling_insert_all (new_CRollingBloomFilter nElements nFuncs nFilterBits tweak) (older ++ key :: newer) = Some r ∧
    rolling_contains r key = Some true.
Proof.
  pose proof (new_rolling_remembers nElements nFuncs nFilterBits tweak Helements Hbits) as Hnew.
  assert (1 ≤ (nElements + 1) / 2) by (apply Z.div_le_lower_bound; lia). assert (1 ≤ (nFilterBits + 63) / 64) by (apply Z.div_le_lower_bound; lia).
  assert ((nFilterBits + 63) / 64 < 67108864) by (apply Z.div_lt_upper_bound; lia).
  pose proof (Z.div_mod (nElements + 1) 2 ltac:(lia)). pose proof (Z.mod_pos_bound (nElements + 1) 2 ltac:(lia)).
  set (E := Z.to_nat ((nElements + 1) / 2)) in *. set (k := Z.to_nat ((nFilterBits + 63) / 64)) in *.
  assert (HE : (0 < E)%nat) by lia. assert (Hk : (0 < k)%nat) by lia. assert (Hk32 : Z.of_nat (2 * k) ≤ 2 ^ 32) by lia.
  destruct (rolling_insert_all_spec E k _ _ HE Hk Hk32 (older ++ key :: newer) [] 0 _ Hnew) as (r & G & Er & Hr). exists r. split; [exact Er|].
  apply (remembered E k _ _ HE Hk Hk32 ([] ++ older ++ key :: newer) G r (length older) key Hr).
  - cbn [app]. by rewrite lookup_app_r, Nat.sub_diag by lia.
  - cbn [app]. rewrite length_app. cbn [length]. lia.
Qed.
Lemma rolling_filter_remembers_witness :
  ∃ r, rolling_insert_all (new_CRollingBloomFilter 4 3 100 7) ([[1]; [2]; [3]] ++ [4] :: [[5]; [6]; [7]]) = Some r ∧ rolling_contains r [4] = Some true.
Proof. apply (rolling_filter_remembers 4 3 100 7 [[1]; [2]; [3]] [[5]; [6]; [7]] [4]); [lia|lia|reflexivity]. Defined.

Lemma elem_of_select {B} (x : B) n xs bs : xs !! n = Some x → bs !! n = Some true → (x, n) ∈ select 0 xs bs.
Proof.
  revert n bs. induction xs as [|y xs IH]; intros [|n] [|b bs] Hx Hb; try done; cbn [lookup list_lookup] in *; cbn [select].
  - injection Hx as ->. injection Hb as ->. by left.
  - apply elem_of_app. right. rewrite select_shift. apply list_elem_of_fmap. exists (x, n). split; [done|by apply IH].
Qed.
Lemma select_elem {B} (x : B) n xs bs : (x, n) ∈ select 0 xs bs → xs !! n = Some x ∧ bs !! n = Some true.
Proof.
  revert n bs. induction xs as [|y xs IH]; intros n [|b bs] H; try by apply elem_of_nil in H. cbn [select] in H. apply elem_of_app in H as [H|H].
  - destruct b; [|by apply elem_of_nil in H]. apply list_elem_of_singleton in H as [= -> ->]. done.
  - rewrite select_shift in H. apply list_elem_of_fmap in H as ([x' n'] & [= -> ->] & H). by apply IH in H.
Qed.
Lemma matched_elem k hash hashes ms : (Z.of_nat k, hash) ∈ map (λ o : bytes * nat, (0 + Z.of_nat (snd o), fst o)) (select 0 hashes ms) ↔ hashes !! k = Some hash ∧ ms !! k = Some true.
Proof.
  rewrite list_elem_of_fmap. split.
  - intros ([x n] & [= E ->] & H). cbn [fst snd] in *. assert (n = k) as -> by lia. by apply select_elem.
  - intros [H1 H2]. exists (hash, k). split; [done|by apply elem_of_select].
Qed.

(** C24. A light client misses nothing.  When a node answers with a block of distinct transactions
    through the client's filter, the tree that the client reads from the wire
    gives the Merkle root of the block and exactly the matched transactions; the matched ones include every transaction that is
    relevant for the filter, and every one that spends, in the same block, an
    output that matches the filter and that it follows; the filter afterwards contains the outpoints of those outputs,
    and all that it did.  A transaction is matched only if it is relevant for the filter
    afterwards, unless the filter is full.  The alternative is that two different pairs that are hashed in the tree
    of the block have the same hash. *)
Theorem light_client_follows (dgpMaxBlockSize : Z) (block : CBlock) (f : CBloomFilter) (hashes : list bytes) (r : bytes)
  (Hf : filter_ok f) (Hwf : Forall tx_wf (vtx block)) (Hne : vtx block ≠ []) (Hmax : Z.of_nat (length (vtx block)) ≤ max_transactions dgpMaxBlockSize)
  (Hhashes : mapM GetHash (vtx block) = Some hashes) (Hdistinct : NoDup hashes) :
  (∃ mb matched f' t' root mutated, merkle_block_filter block f = Some (mb, matched, f') ∧
     mb_header mb = GetBlockHeader block ∧ filter_ok f' ∧ filter_le f f' ∧
     ComputeMerkleRoot hashes = Some (root, mutated) ∧ partial_Unserialize (partial_Serialize (mb_txn mb) ++ r) = Some (t', r) ∧
     ExtractMatches uint256_null PartialHash dgpMaxBlockSize t' [] = Some (root, map snd matched, map fst matched, t') ∧
     ∀ k tx hash, vtx block !! k = Some tx → hashes !! k = Some hash →
       (relevant f tx hash → (Z.of_nat k, hash) ∈ matched) ∧
       ((Z.of_nat k, hash) ∈ matched → isFull f = true ∨ relevant f' tx hash) ∧
       ∀ n o, vout tx !! n = Some o → script_matches f (scriptPubKey o) → follows f (scriptPubKey o) →
         contains_outpoint f' (mkCOutPoint hash (Z.of_nat n)) = Some true ∧
         ∀ k' tx' hash' txin, (k < k')%nat → vtx block !! k' = Some tx' → hashes !! k' = Some hash' →
           txin ∈ vin tx' → prevout txin = mkCOutPoint hash (Z.of_nat n) → (Z.of_nat k', hash') ∈ matched) ∨
  collision PartialHash (hashed_pairs PartialHash hashes).
Proof.
  pose proof (max_transactions_bound dgpMaxBlockSize).
  destruct (match_block_spec f 0 (vtx block) Hf Hwf ltac:(lia) ltac:(lia)) as (hashes' & ms & matched & f' & Eb & EM & El & Hok & Hf' & Hle & -> & Hk).
  assert (hashes' = hashes) as -> by congruence. assert (Hlen : length hashes = length (vtx block)) by (symmetry; by apply (length_mapM GetHash)).
  destruct (partial_tree_roundtrip dgpMaxBlockSize hashes ms [] r) as [(t & t' & root & mutated & Et & Er & Ew & _ & Ex)|]; try done; [by destruct hashes, (vtx block)|lia|left|by right].
  do 3 eexists. exists t', root, mutated. unfold merkle_block_filter. rewrite Eb. cbn [mbind option_bind]. rewrite Et. cbn [mbind option_bind].
  split; [done|]. cbn [mb_header mb_txn]. split_and!; try done.
  { rewrite Ex. cbn [app]. rewrite !map_map. cbn [fst snd]. do 2 f_equal. }
  intros k tx hash Etx Ehash. destruct (Hk k tx hash Etx Ehash) as (f1 & f2 & Hf1 & Hf2 & L1 & L2 & L3 & R1 & R2 & R3 & R4). rewrite matched_elem. split_and!.
  - intros H1. split; [done|]. apply R1. by apply (relevant_le f).
  - intros [_ H1]. destruct (R2 H1) as [|H2]; [by left|right]. apply (relevant_le f1); [done|by transitivity f2|done].
  - intros n o Eo Hs Hfol. assert (Hc : contains_outpoint f2 (mkCOutPoint hash (Z.of_nat n)) = Some true).
    { apply (R3 n o Eo); [by apply (script_matches_le f)|]. unfold follows in *. by rewrite (fl_flags _ _ L1). }
    split; [by apply (contains_le f2)|]. intros k' tx' hash' txin Hlt Etx' Eh' Hin Ep. apply matched_elem. split; [done|].
    apply (R4 k' tx' hash' Hlt Etx' Eh'). right. right. exists txin. split; [done|]. left. by rewrite Ep.
Qed.

(** A payment to a key hash that the client asked for, and a transaction that spends it. *)
Definition client_key : bytes := replicate 20 0x5a.
Definition client_payment : CTransaction :=
  mkCTransaction 1 [mkCTxIn (mkCOutPoint (replicate 32 8) 0) [] 0xffffffff []]
    [mkCTxOut 4 [OP_1]; mkCTxOut 6 (OP_DUP :: OP_HASH160 :: 20 :: client_key ++ [OP_EQUALVERIFY; OP_CHECKSIG])] 0.
Definition client_spend : CTransaction :=
  mkCTransaction 1 [mkCTxIn (mkCOutPoint (default [] (GetHash client_payment)) 1) [] 0xffffffff []] [mkCTxOut 6 [OP_1]] 0.
Definition client_block : CBlock := mkBlock (checked_header 1) [supply_coinbase; client_payment; client_spend].
Definition client_filter (nFlags : Z) : CBloomFilter := default default_CBloomFilter (insert (new_CBloomFilter 1000 5 9 nFlags) client_key).
Definition client_hashes : list bytes := default [] (mapM GetHash (vtx client_block)).
Lemma client_matches :
  (λ res, map fst (snd (fst res))) <$> merkle_block_filter client_block (client_filter BLOOM_UPDATE_ALL) = Some [1; 2] ∧
  (λ res, map fst (snd (fst res))) <$> merkle_block_filter client_block (client_filter BLOOM_UPDATE_NONE) = Some [1].
Proof. split; vm_compute; reflexivity. Qed.
Lemma client_wf : Forall tx_wf (vtx client_block).
Proof.
  unfold client_block, tx_wf. cbn [vtx]. repeat (apply list.Forall_cons; split); [..|constructor].
  all: split; [apply tx_okb_ok; vm_compute; reflexivity|]; (split; [vm_compute; reflexivity|apply scripts_by_bool; reflexivity]).
Qed.
Lemma light_client_follows_witness :
  (∃ mb matched f' t' root mutated, merkle_block_filter client_block (client_filter BLOOM_UPDATE_ALL) = Some (mb, matched, f') ∧
     mb_header mb = GetBlockHeader client_block ∧ filter_ok f' ∧ filter_le (client_filter BLOOM_UPDATE_ALL) f' ∧
     ComputeMerkleRoot client_hashes = Some (root, mutated) ∧ partial_Unserialize (partial_Serialize (mb_txn mb) ++ [7]) = Some (t', [7]) ∧
     ExtractMatches uint256_null PartialHash 2000000 t' [] = Some (root, map snd matched, map fst matched, t') ∧
     ∀ k tx hash, vtx client_block !! k = Some tx → client_hashes !! k = Some hash →
       (relevant (client_filter BLOOM_UPDATE_ALL) tx hash → (Z.of_nat k, hash) ∈ matched) ∧
       ((Z.of_nat k, hash) ∈ matched → isFull (client_filter BLOOM_UPDATE_ALL) = true ∨ relevant f' tx hash) ∧
       ∀ n o, vout tx !! n = Some o → script_matches (client_filter BLOOM_UPDATE_ALL) (scriptPubKey o) → follows (client_filter BLOOM_UPDATE_ALL) (scriptPubKey o) →
         contains_outpoint f' (mkCOutPoint hash (Z.of_nat n)) = Some true ∧
         ∀ k' tx' hash' txin, (k < k')%nat → vtx client_block !! k' = Some tx' → client_hashes !! k' = Some hash' →
           txin ∈ vin tx' → prevout txin = mkCOutPoint hash (Z.of_nat n) → (Z.of_nat k', hash') ∈ matched) ∨
  collision PartialHash (hashed_pairs PartialHash client_hashes).
Proof.
  apply (light_client_follows 2000000 client_block (client_filter BLOOM_UPDATE_ALL) client_hashes [7]).
  - split; [apply bytes_ok_compute; vm_compute; reflexivity|right; apply Nat.ltb_lt; vm_compute; reflexivity].
  - exact client_wf.
  - discriminate.
  - vm_compute. discriminate.
  - assert (H : is_Some (mapM GetHash (vtx client_block))) by (vm_compute; by eexists). unfold client_hashes. destruct H as [h Hh]. rewrite Hh. reflexivity.
  - apply (bool_decide_eq_true_1 (NoDup client_hashes)). vm_compute. reflexivity.
Defined.

(** The vectors of hash_tests.cpp and bloom_tests.cpp. *)
Lemma murmur_vectors :
  MurmurHash3 0xFBA4C795 [] = 0x6a396f08 ∧ MurmurHash3 0xffffffff [] = 0x81f16f39 ∧ MurmurHash3 0 [0xff] = 0xfd6cf10d ∧
  MurmurHash3 0 [0; 0x11; 0x22] = 0x8eb51c3d ∧ MurmurHash3 0 [0; 0x11; 0x22; 0x33; 0x44; 0x55; 0x66; 0x77; 0x88] = 0xb4698def.
Proof. vm_compute. done. Qed.
Definition bloom_key1 : bytes := [0x99;0x10;0x8a;0xd8;0xed;0x9b;0xb6;0x27;0x4d;0x39;0x80;0xba;0xb5;0xa8;0x5c;0x04;0x8f;0x09;0x50;0xc8].
Definition bloom_key2 : bytes := [0xb5;0xa2;0xc7;0x86;0xd9;0xef;0x46;0x58;0x28;0x7c;0xed;0x59;0x14;0xb3;0x7a;0x1b;0x4a;0xa3;0x2e;0xee].
Definition bloom_key3 : bytes := [0xb9;0x30;0x06;0x70;0xb4;0xc5;0x36;0x6e;0x95;0xb2;0x69;0x9e;0x8b;0x18;0xbc;0x75;0xe5;0xf7;0x29;0xc5].
Lemma bloom_vector : Bloom_Serialize <$> insert_all (new_CBloomFilter 28 5 0 BLOOM_UPDATE_ALL) [bloom_key1; bloom_key2; bloom_key3] =
  Some [0x03; 0x61; 0x4e; 0x9b; 0x05; 0; 0; 0; 0; 0; 0; 0; 0x01].
Proof. vm_compute. reflexivity. Qed.

(** A filter for so many keys that it gets no hash function contains everything where it was
    built, and nothing where it was received: its bytes stay zero, from which
    [UpdateEmptyFull] concludes that it is empty. *)
Lemma filter_without_functions (nBits nTweakIn nFlagsIn : Z) (key : bytes) : 8 ≤ nBits → is_u32 nTweakIn → is_u8 nFlagsIn →
  ∃ f f', insert (new_CBloomFilter nBits 0 nTweakIn nFlagsIn) key = Some f ∧ Bloom_Unserialize default_CBloomFilter (Bloom_Serialize f) = Some (f', []) ∧
    contains f key = Some true ∧ contains (UpdateEmptyFull f') key = Some false.
Proof.
  intros Hb Ht Hfl. unfold new_CBloomFilter, MAX_BLOOM_FILTER_SIZE. change (Z.min 0 MAX_HASH_FUNCS) with 0.
  assert (1 ≤ Z.min nBits (36000 * 8) / 8) by (apply Z.div_le_lower_bound; lia). assert (Z.min nBits (36000 * 8) / 8 ≤ 36000) by (apply Z.div_le_upper_bound; lia).
  set (n := Z.to_nat (Z.min nBits (36000 * 8) / 8)). assert (Hn : (0 < n)%nat ∧ Z.of_nat n ≤ 36000) by lia. clearbody n.
  exists (mkBloom (replicate n 0) false false 0 nTweakIn nFlagsIn), (mkBloom (replicate n 0) true false 0 nTweakIn nFlagsIn). split; [done|]. split; [|split; [done|]].
  - unfold Bloom_Unserialize, Bloom_Serialize. rewrite <- (app_nil_r (enc _ _)). rewrite (enc_dec (c := CBloomFilter_codec)); [done|].
    split; [split; cbn [fst vData]; [by apply Forall_replicate|rewrite length_replicate; unfold MAX_SIZE; lia]|done].
  - unfold contains, UpdateEmptyFull, set_data. cbn [isFull isEmpty vData]. replace (forallb (λ b, b =? 0) (replicate n 0)) with true.
    + destruct n; [lia|done].
    + symmetry. apply Is_true_true_1, forallb_True. by apply Forall_replicate.
Qed.
