(* ===== verification/AcceptHeader.v ===== *)
(** * Accepting headers (src/src/validation.cpp)

    [AcceptBlockHeader] and [ProcessNewBlockHeaders]: the checks of a header that
    is not known yet, the marks left on the descendants of a failed block, and
    the growth of the tree of blocks. *)

From stdpp Require Import base numbers list option gmap strings.
From Stdlib Require Import ZArith Lia ZifyNat ZifyBool.
From S2P Require Import Prelude BlockStream StrEncodings Transaction ArithUint256 Compact Block Merkle BlockIndex Pow VersionBits.
From S2P Require Import Validation BlockCheck.

(** ** Accepting a header *)

(** [while (invalid_walk != failedit)]: the entries down to the failed one are marked.
    [None] is the null pointer. *)
Fixpoint mark_failed_child (fuel : nat) (t : BlockTree) (invalid_walk : option ptr) (failedit : ptr) : option BlockTree :=
  if bool_decide (invalid_walk = Some failedit) then Some t
  else
    match fuel with
    | O => None
    | S fuel =>
        p ← invalid_walk;
        n ← nodes t !! p;
        let n := set_status n (Z.lor (nStatus n) BLOCK_FAILED_CHILD) in
        mark_failed_child fuel (mkTree (<[p := n]> (nodes t)) (mapBlockIndex t) (pindexBestHeader t) ({[p]} ∪ setDirtyBlockIndex t))
          (pprev n) failedit
    end.
(** The loop over [g_failed_blocks]: the tree, when one of them is an ancestor.
    [None] is a failed assertion. *)
Fixpoint failed_ancestor (t : BlockTree) (pindexPrev : ptr) (g_failed_blocks : list ptr) : option (option BlockTree) :=
  match g_failed_blocks with
  | [] => Some None
  | failedit :: rest =>
      nf ← nodes t !! failedit;
      a ← GetAncestor (nodes t) pindexPrev (BlockIndex.nHeight nf);
      if bool_decide (a = Some failedit) then
        if Z.land (nStatus nf) BLOCK_FAILED_VALID =? 0 then None
        else
          n ← nodes t !! pindexPrev;
          t ← mark_failed_child (Z.to_nat (BlockIndex.nHeight n + 1)) t (Some pindexPrev) failedit;
          Some (Some t)
      else failed_ancestor t pindexPrev rest
  end.
Definition failed (n : CBlockIndex) : bool := negb (Z.land (nStatus n) BLOCK_FAILED_MASK =? 0).
Definition prev_invalid (state : CValidationState) : CValidationState := DoS 100 REJECT_INVALID "bad-prevblk" false NoDebugMessage state.
(** The checks of a header that is not known yet, before it is added. *)
Definition check_new_header (t : BlockTree) (params : Params) (fCheckpointsEnabled : bool) (mapCheckpoints : list (Z * bytes)) (g_failed_blocks : list ptr)
    (nAdjustedTime : Z) (block : CBlockHeader) (state : CValidationState) : option (bool * CValidationState * BlockTree) :=
  '(ok, state) ← CheckBlockHeader block params true state;
  if negb ok then Some (false, state, t)
  else
    match mapBlockIndex t !! hashPrevBlock (old block) with
    | None => Some (false, DoS 10 0 "prev-blk-not-found" false NoDebugMessage state, t)
    | Some pindexPrev =>
        n ← nodes t !! pindexPrev;
        if failed n then Some (false, prev_invalid state, t)
        else
          '(ok, state) ← ContextualCheckBlockHeader t params fCheckpointsEnabled mapCheckpoints block state pindexPrev nAdjustedTime;
          if negb ok then Some (false, state, t)
          else
            r ← (if BlockIndex.IsValid n BLOCK_VALID_SCRIPTS then Some None else failed_ancestor t pindexPrev g_failed_blocks);
            Some (match r with Some t => (false, prev_invalid state, t) | None => (true, state, t) end)
    end.
Definition add_header (t : BlockTree) (block : CBlockHeader) (state : CValidationState) : option (bool * CValidationState * BlockTree * option ptr) :=
  '(t, p) ← AddToBlockIndex t block; Some (true, state, t, Some p).
(** The result, the state, the tree and [*ppindex], when it is set. *)
Definition AcceptBlockHeader (t : BlockTree) (params : Params) (fCheckpointsEnabled : bool) (mapCheckpoints : list (Z * bytes)) (g_failed_blocks : list ptr)
    (nAdjustedTime : Z) (block : CBlockHeader) (state : CValidationState) : option (bool * CValidationState * BlockTree * option ptr) :=
  hash ← Header_GetHash block;
  if bool_decide (hash = hashGenesisBlock params) then add_header t block state
  else
    match mapBlockIndex t !! hash with
    | Some p =>
        n ← nodes t !! p;
        if failed n then Some (false, Invalid 0 "duplicate" NoDebugMessage state, t, Some p) else Some (true, state, t, Some p)
    | None =>
        '(ok, state, t) ← check_new_header t params fCheckpointsEnabled mapCheckpoints g_failed_blocks nAdjustedTime block state;
        if negb ok then Some (false, state, t, None)
        else add_header t block state
    end.
(** The result, the state, the tree, [*ppindex] and [*first_invalid]. *)
Fixpoint ProcessNewBlockHeaders (t : BlockTree) (params : Params) (fCheckpointsEnabled : bool) (mapCheckpoints : list (Z * bytes)) (g_failed_blocks : list ptr)
    (nAdjustedTime : Z) (headers : list CBlockHeader) (state : CValidationState) (ppindex : option ptr)
  : option (bool * CValidationState * BlockTree * option ptr * option CBlockHeader) :=
  match headers with
  | [] => Some (true, state, t, ppindex, None)
  | header :: headers =>
      '(ok, state, t, pindex) ← AcceptBlockHeader t params fCheckpointsEnabled mapCheckpoints g_failed_blocks nAdjustedTime header state;
      if negb ok then Some (false, state, t, ppindex, Some header)
      else ProcessNewBlockHeaders t params fCheckpointsEnabled mapCheckpoints g_failed_blocks nAdjustedTime headers state pindex
  end.

(** ** Proofs: marks *)

(** Two trees that differ in the marks of failed ancestors. *)
Definition marked (t t' : BlockTree) : Prop :=
  mapBlockIndex t' = mapBlockIndex t ∧ pindexBestHeader t' = pindexBestHeader t ∧
  ∀ p, match nodes t !! p with
       | None => nodes t' !! p = None
       | Some n => ∃ s, nodes t' !! p = Some (set_status n s) ∧ (s = nStatus n ∨ s = Z.lor (nStatus n) BLOCK_FAILED_CHILD)
       end.
Lemma set_status_id n : set_status n (nStatus n) = n.
Proof. by destruct n. Qed.
Lemma set_status_twice n a b : set_status (set_status n a) b = set_status n b.
Proof. done. Qed.
Lemma marked_refl t : marked t t.
Proof.
  split_and!; [done..|]. intros p. destruct (nodes t !! p) as [n|]; [|done]. exists (nStatus n). rewrite set_status_id. split; [done|by left].
Qed.
Lemma marked_trans t1 t2 t3 : marked t1 t2 → marked t2 t3 → marked t1 t3.
Proof.
  intros (M1 & B1 & N1) (M2 & B2 & N2). split_and!; [congruence..|]. intros p. specialize (N1 p). specialize (N2 p).
  destruct (nodes t1 !! p) as [n|]; [|by rewrite N1 in N2]. destruct N1 as (s & E & Hs). rewrite E in N2. destruct N2 as (s' & -> & Hs').
  cbn [set_status nStatus] in Hs'. exists s'. rewrite set_status_twice. split; [done|].
  destruct Hs as [-> | ->], Hs' as [-> | ->]; [by left|by right..|]. right. by rewrite <- Z.lor_assoc, Z.lor_diag.
Qed.
Lemma marked_step t p n dirty : nodes t !! p = Some n →
  marked t (mkTree (<[p := set_status n (Z.lor (nStatus n) BLOCK_FAILED_CHILD)]> (nodes t)) (mapBlockIndex t) (pindexBestHeader t) dirty).
Proof.
  intros Hp. split_and!; [done..|]. intros p'. cbn [nodes]. destruct (decide (p = p')) as [<-|Hne].
  - rewrite Hp, lookup_insert_eq. eexists. split; [done|by right].
  - rewrite lookup_insert_ne by done. destruct (nodes t !! p') as [n'|]; [|done]. exists (nStatus n'). rewrite set_status_id. split; [done|by left].
Qed.

Section Marked.
Context (t t' : BlockTree) (Hm : marked t t').
Lemma marked_fwd p n : nodes t !! p = Some n → ∃ s, nodes t' !! p = Some (set_status n s) ∧ (s = nStatus n ∨ s = Z.lor (nStatus n) BLOCK_FAILED_CHILD).
Proof. intros E. destruct Hm as (_ & _ & H). specialize (H p). by rewrite E in H. Qed.
Lemma marked_bwd p n' : nodes t' !! p = Some n' →
  ∃ n s, nodes t !! p = Some n ∧ n' = set_status n s ∧ (s = nStatus n ∨ s = Z.lor (nStatus n) BLOCK_FAILED_CHILD).
Proof.
  intros E. destruct Hm as (_ & _ & H). specialize (H p). destruct (nodes t !! p) as [n|]; [|congruence].
  destruct H as (s & E' & Hs). exists n, s. split_and!; [done|congruence|done].
Qed.
Lemma marked_up k p : up (nodes t') k p = up (nodes t) k p.
Proof.
  revert p. induction k as [|k IH]; intros p; [done|]. cbn [up]. destruct (nodes t !! p) as [n|] eqn:E.
  - destruct (marked_fwd p n E) as (s & -> & _). cbn [mbind option_bind pprev set_status]. destruct (pprev n); [apply IH|done].
  - destruct Hm as (_ & _ & H). specialize (H p). rewrite E in H. by rewrite H.
Qed.
Lemma marked_tree_ok : tree_ok t → tree_ok t'.
Proof.
  intros [Hl Ha Hmap Hb]. pose proof Hm as (EM & EB & _). split.
  - intros p n' (n & s & E & -> & _)%marked_bwd. destruct (Hl p n E) as [H1 H2 H3 H4]. split; cbn [set_status nHeight pprev pskip]; [done|done| |].
    + intros q Eq. destruct (H3 q Eq) as (m & Hq & Hh). destruct (marked_fwd q m Hq) as (s' & E' & _). by eexists.
    + intros s' Es. rewrite marked_up. by apply H4.
  - intros p n' (n & s & E & -> & _)%marked_bwd. destruct (Ha p n E) as [H1 H2]. split; [done|]. cbn [set_status pprev]. destruct (pprev n) as [q|]; [|done].
    destruct H2 as (m & Hq & Hr). destruct (marked_fwd q m Hq) as (s' & E' & _). by eexists.
  - intros h p. rewrite EM, Hmap. split.
    + intros (n & E & Eh). destruct (marked_fwd p n E) as (s & E' & _). by eexists.
    + intros (n' & (n & s & E & -> & _)%marked_bwd & Eh). by exists n.
  - rewrite EB. destruct (pindexBestHeader t) as [b|].
    + destruct Hb as (nb & Eb & Hmax). destruct (marked_fwd b nb Eb) as (s & E' & _). eexists. split; [done|].
      intros p n' (n & s' & E & -> & _)%marked_bwd. by apply (Hmax p n).
    + apply map_eq. intros p. rewrite lookup_empty. destruct (nodes t' !! p) as [n'|] eqn:E; [|done].
      apply marked_bwd in E as (n & s & E & _). by rewrite Hb in E.
Qed.
End Marked.

Lemma mark_failed_child_spec fuel t k p f : up (nodes t) k p = Some f → (k ≤ fuel)%nat → (∀ j q, (j < k)%nat → up (nodes t) j p = Some q → q ≠ f) →
  ∃ t', mark_failed_child fuel t (Some p) f = Some t' ∧ marked t t' ∧
    ∀ j q, (j < k)%nat → up (nodes t) j p = Some q → ∃ n, nodes t' !! q = Some n ∧ failed n = true.
Proof.
  revert fuel t p. induction k as [|k IH]; intros fuel t p Hup Hf Hne.
  { injection Hup as ->. exists t. split; [|split; [apply marked_refl|lia]]. destruct fuel; cbn [mark_failed_child]; by rewrite bool_decide_true. }
  destruct fuel as [|fuel]; [lia|]. cbn [mark_failed_child]. rewrite bool_decide_false by (intros [= ->]; by apply (Hne 0%nat f (Nat.lt_0_succ k) eq_refl)).
  cbn [up mbind option_bind] in Hup |- *. destruct (nodes t !! p) as [n|] eqn:Ep; [|discriminate]. cbn [mbind option_bind] in Hup |- *.
  destruct (pprev n) as [q|] eqn:Eq; [|discriminate]. cbn [mbind option_bind] in Hup.
  set (t1 := mkTree _ _ _ _). assert (Hm : marked t t1) by (by apply marked_step). cbn [pprev set_status]. rewrite Eq.
  assert (Hback : ∀ j, up (nodes t) (S j) p = up (nodes t) j q) by (intros j; cbn [up]; by rewrite Ep; cbn [mbind option_bind]; rewrite Eq).
  destruct (IH fuel t1 q) as (t' & E & Hm' & Hall).
  { by rewrite (marked_up t t1 Hm). }
  { lia. }
  { intros j r Hj. rewrite (marked_up t t1 Hm), <- Hback. apply Hne. lia. }
  exists t'. split; [exact E|]. split; [by eapply marked_trans|]. intros [|j] r Hj Er.
  - injection Er as <-. destruct (marked_fwd t1 t' Hm' p (set_status n (Z.lor (nStatus n) BLOCK_FAILED_CHILD))) as (s & Es & Hs).
    { cbn [nodes t1]. by rewrite lookup_insert_eq. }
    eexists. split; [done|]. unfold failed. apply negb_true_iff, Z.eqb_neq. cbn [set_status nStatus] in *.
    assert (Hbit : Z.testbit s 6 = true).
    { destruct Hs as [-> | ->]; rewrite ?Z.lor_spec; by rewrite ?orb_true_r. }
    intros E0. assert (Hz : Z.testbit (Z.land s BLOCK_FAILED_MASK) 6 = true) by (by rewrite Z.land_spec, Hbit). by rewrite E0 in Hz.
  - apply (Hall j r); [lia|]. by rewrite (marked_up t t1 Hm), <- Hback.
Qed.

(** The blocks known to have failed are in the tree, and marked. *)
Definition failures_ok (t : BlockTree) (g_failed_blocks : list ptr) : Prop :=
  Forall (λ f, ∃ nf, nodes t !! f = Some nf ∧ Z.land (nStatus nf) BLOCK_FAILED_VALID ≠ 0) g_failed_blocks.
Definition descends (t : BlockTree) (p f : ptr) : Prop := ∃ k, up (nodes t) k p = Some f.
Lemma GetAncestor_descends t p n f nf : linked (nodes t) → nodes t !! p = Some n → nodes t !! f = Some nf →
  ∃ a, GetAncestor (nodes t) p (BlockIndex.nHeight nf) = Some a ∧ (a = Some f ↔ descends t p f) ∧
    (a = Some f → ∃ k, up (nodes t) k p = Some f ∧ Z.of_nat k = BlockIndex.nHeight n - BlockIndex.nHeight nf).
Proof.
  intros Hl Hp Hf. rewrite (GetAncestor_spec (nodes t) Hl p n _ Hp). pose proof (nl_height _ _ _ (Hl f nf Hf)) as H0.
  assert (Hk : ∀ k, up (nodes t) k p = Some f → Z.of_nat k = BlockIndex.nHeight n - BlockIndex.nHeight nf).
  { intros k Ek. destruct (Z.le_gt_cases (Z.of_nat k) (BlockIndex.nHeight n)) as [Hle|Hgt].
    - destruct (up_height (nodes t) Hl k p n Hp Hle) as (q & m & Eq & Em & Hh). rewrite Ek in Eq. injection Eq as <-. replace m with nf in Hh by congruence. lia.
    - rewrite (up_beyond (nodes t) Hl k p n Hp) in Ek by lia. discriminate. }
  eexists. split; [done|]. destruct (Z.leb_spec (BlockIndex.nHeight nf) (BlockIndex.nHeight n)) as [Hle|Hgt].
  - replace (0 <=? BlockIndex.nHeight nf) with true by lia. cbn [andb]. split.
    + split; [intros E; by eexists|]. intros [k Ek]. rewrite <- (Hk k Ek), Nat2Z.id. done.
    + intros E. eexists. split; [done|]. lia.
  - rewrite andb_false_r. split; [|done]. split; [done|]. intros [k Ek]. specialize (Hk k Ek). lia.
Qed.
Lemma failed_ancestor_spec t p n l : linked (nodes t) → nodes t !! p = Some n → failures_ok t l →
  ∃ r, failed_ancestor t p l = Some r ∧
    ((r = None ∧ Forall (λ f, ¬ descends t p f) l) ∨ (∃ t', r = Some t' ∧ marked t t' ∧ Exists (λ f, descends t p f) l)).
Proof.
  intros Hl Hp. induction 1 as [|f l (nf & Hf & Hst) _ IH]; cbn [failed_ancestor]; [exists None; split; [done|by left]|].
  rewrite Hf. cbn [mbind option_bind]. destruct (GetAncestor_descends t p n f nf Hl Hp Hf) as (a & -> & Ha & Hk). cbn [mbind option_bind].
  case_bool_decide as Ea.
  - rewrite (proj2 (Z.eqb_neq _ _) Hst), Hp. cbn [mbind option_bind]. destruct (Hk Ea) as (k & Ek & Hkh).
    pose proof (nl_height _ _ _ (Hl f nf Hf)).
    destruct (mark_failed_child_spec (Z.to_nat (BlockIndex.nHeight n + 1)) t k p f Ek ltac:(lia)) as (t' & -> & Hm & _).
    { intros j q Hj Ej ->. destruct (up_height (nodes t) Hl j p n Hp ltac:(lia)) as (q' & m & E1 & E2 & E3).
      rewrite Ej in E1. injection E1 as <-. replace m with nf in E3 by congruence. lia. }
    cbn [mbind option_bind]. eexists. split; [done|]. right. exists t'. split_and!; [done|done|]. left. by apply Ha.
  - destruct IH as (r & -> & [[-> Hn]|(t' & -> & Hm & He)]).
    + eexists. split; [done|]. left. split; [done|]. constructor; [by rewrite <- Ha|done].
    + eexists. split; [done|]. right. exists t'. split_and!; [done|done|by right].
Qed.

(** ** Proofs: the checks of a new header *)
Record params_ok (params : Params) : Prop := {
  po_limit : blob (powLimit params) ∧ 0 < number (powLimit params);
  po_timespan : 0 < nPowTargetTimespan params < 2 ^ 30;
  po_spacing : 0 < nPowTargetSpacing params ≤ nPowTargetTimespan params }.
Definition version_ok (params : Params) (nHeight nVersion : Z) : Prop :=
  (BIP34Height params ≤ nHeight → 2 ≤ nVersion) ∧ (BIP66Height params ≤ nHeight → 3 ≤ nVersion) ∧ (BIP65Height params ≤ nHeight → 4 ≤ nVersion).
Definition above_checkpoint (t : BlockTree) (mapCheckpoints : list (Z * bytes)) (nHeight : Z) : Prop :=
  ∀ p n, GetLastCheckpoint mapCheckpoints (mapBlockIndex t) = Some p → nodes t !! p = Some n → BlockIndex.nHeight n ≤ nHeight.
(** What is asked of a header that follows the entry [m], at [q]. *)
Record context_ok (t : BlockTree) (params : Params) (fCheckpointsEnabled : bool) (mapCheckpoints : list (Z * bytes)) (block : CBlockHeader)
    (q : ptr) (m : CBlockIndex) : Prop := {
  cx_bits : GetNextWorkRequired (nodes t) q block params = Some (nBits (old block));
  cx_checkpoint : fCheckpointsEnabled = true → above_checkpoint t mapCheckpoints (BlockIndex.nHeight m + 1);
  cx_version : version_ok params (BlockIndex.nHeight m + 1) (bh_nVersion (old block)) }.
Record header_follows (t : BlockTree) (params : Params) (fCheckpointsEnabled : bool) (mapCheckpoints : list (Z * bytes)) (g_failed_blocks : list ptr)
    (block : CBlockHeader) (q : ptr) (m : CBlockIndex) : Prop := {
  hf_known : mapBlockIndex t !! hashPrevBlock (old block) = Some q ∧ nodes t !! q = Some m;
  hf_parent : failed m = false;
  hf_context : context_ok t params fCheckpointsEnabled mapCheckpoints block q m;
  hf_ancestors : BlockIndex.IsValid m BLOCK_VALID_SCRIPTS = true ∨ Forall (λ f, ¬ descends t q f) g_failed_blocks }.
Definition tree_bits (t : BlockTree) : Prop := ∀ p n, nodes t !! p = Some n → is_u32 (IndexBits n).
Definition tree_below (t : BlockTree) (height : Z) : Prop := ∀ p n, nodes t !! p = Some n → BlockIndex.nHeight n < height.

(** How a refused header leaves the state. *)
Definition header_refused (state s' : CValidationState) : Prop :=
  strRejectReason s' ≠ ""%string ∧ (mode state ≠ MODE_ERROR → mode s' = MODE_INVALID).
Lemma DoS_header level code reason corruption debug state : reason ≠ ""%string → header_refused state (DoS level code reason corruption debug state).
Proof. intros Hr. unfold header_refused, DoS. by destruct (mode state). Qed.

Lemma GetNextWorkRequired_total t p n block params : linked (nodes t) → nodes t !! p = Some n → BlockIndex.nHeight n < 2147483647 → tree_bits t → params_ok params →
  ∃ c, GetNextWorkRequired (nodes t) p block params = Some c.
Proof.
  intros Hl Hp Hh Hb [[Hlim Hpos] HT HS]. destruct (limit_spec _ Hlim) as [Hlok Hlv]. pose proof (nl_height _ _ _ (Hl p n Hp)) as H0.
  unfold GetNextWorkRequired. rewrite GetCompact_of, Hlv, Hp by done. cbn [mbind option_bind].
  unfold DifficultyAdjustmentInterval. rewrite Z.quot_div_nonneg by lia. set (interval := nPowTargetTimespan params / nPowTargetSpacing params).
  assert (Hi : 1 ≤ interval ≤ nPowTargetTimespan params).
  { unfold interval. split; [apply Z.div_le_lower_bound; lia|]. apply Z.div_le_upper_bound; nia. }
  destruct (Z.eqb_spec (Z.rem (BlockIndex.nHeight n + 1) interval) 0) as [Hr|Hr]; cbn [negb].
  - assert (Hge : interval ≤ BlockIndex.nHeight n + 1).
    { rewrite Z.rem_mod_nonneg in Hr by lia. apply Z.divide_pos_le; [lia|]. by apply Z.mod_divide; [lia|]. }
    rewrite i32_small by lia. replace (BlockIndex.nHeight n - (interval - 1) >=? 0) with true by lia. cbn [negb].
    rewrite (GetAncestor_spec (nodes t) Hl p n _ Hp). replace (_ && _) with true by lia. cbn [mbind option_bind].
    destruct (up_height (nodes t) Hl (Z.to_nat (BlockIndex.nHeight n - (BlockIndex.nHeight n - (interval - 1)))) p n Hp ltac:(lia)) as (f & nf & E1 & E2 & _).
    rewrite E1, E2. cbn [mbind option_bind]. destruct (fPowNoRetargeting params) eqn:En.
    + unfold CalculateNextWorkRequired. rewrite En. by eexists.
    + rewrite CalculateNextWorkRequired_spec by (done || by eapply Hb). by eexists.
  - destruct (fPowAllowMinDifficultyBlocks params); [|by eexists]. destruct (_ >? _); [by eexists|].
    destruct (last_non_min_spec (nodes t) (Z.to_nat (BlockIndex.nHeight n)) interval (Compact.compact_of (number (powLimit params))) p n Hl Hp ltac:(lia))
      as (k & q & m & E1 & _). by eexists.
Qed.
Lemma before_checkpoint_spec t cps height : tree_ok t →
  ∃ b, before_checkpoint (nodes t) (GetLastCheckpoint cps (mapBlockIndex t)) height = Some b ∧ (b = false ↔ above_checkpoint t cps height).
Proof.
  intros Ht. unfold before_checkpoint, above_checkpoint. destruct (GetLastCheckpoint cps (mapBlockIndex t)) as [p|] eqn:E.
  - assert (Hin : ∃ h, mapBlockIndex t !! h = Some p).
    { unfold GetLastCheckpoint in E. assert (Hl : p ∈ omap (λ i : Z * bytes, mapBlockIndex t !! snd i) (rev cps)).
      { destruct (omap _ _) as [|x l]; [done|]. injection E as ->. by left. }
      apply list_elem_of_omap in Hl as ([z h] & _ & H). by exists h. }
    destruct Hin as [h Hh]. apply (to_map t Ht) in Hh as (n & Hn & _). rewrite Hn. cbn [mbind option_bind]. eexists. split; [done|]. split.
    + intros Hb p' n' [= <-] Hn'. replace n' with n by congruence. lia.
    + intros H. specialize (H p n eq_refl Hn). lia.
  - exists false. split; [done|]. by split.
Qed.
Lemma ContextualCheckBlockHeader_spec t params cpon cps block state q m adjusted : tree_ok t → tree_bits t → params_ok params →
  nodes t !! q = Some m → BlockIndex.nHeight m < 2147483647 →
  (context_ok t params cpon cps block q m ∧ ContextualCheckBlockHeader t params cpon cps block state q adjusted = Some (true, state)) ∨
  (¬ context_ok t params cpon cps block q m ∧
   ∃ s', ContextualCheckBlockHeader t params cpon cps block state q adjusted = Some (false, s') ∧ header_refused state s').
Proof.
  intros Ht Hb Hpar Hq Hh. unfold ContextualCheckBlockHeader. rewrite Hq. cbn [mbind option_bind].
  pose proof (nl_height _ _ _ (to_linked t Ht q m Hq)) as H0. rewrite i32_small by lia.
  destruct (GetNextWorkRequired_total t q m block params (to_linked t Ht) Hq Hh Hb Hpar) as [c Ec]. rewrite Ec. cbn [mbind option_bind].
  assert (Hno : ∀ s', ¬ context_ok t params cpon cps block q m → header_refused state s' →
    (context_ok t params cpon cps block q m ∧ Some (false, s') = Some (true, state)) ∨
    (¬ context_ok t params cpon cps block q m ∧ ∃ s'', Some (false, s') = Some (false, s'') ∧ header_refused state s'')).
  { intros s' Hn Hs. right. split; [done|]. by exists s'. }
  destruct (Z.eqb_spec (nBits (old block)) c) as [Ebits|Hne]; cbn [negb].
  2:{ apply Hno; [|by apply DoS_header]. intros [H _ _]. congruence. }
  destruct (before_checkpoint_spec t cps (BlockIndex.nHeight m + 1) Ht) as (b & Eb & Hcp).
  assert (Hforked : ∃ b', (if cpon then before_checkpoint (nodes t) (GetLastCheckpoint cps (mapBlockIndex t)) (BlockIndex.nHeight m + 1) else Some false) = Some b' ∧
    (b' = false ↔ (cpon = true → above_checkpoint t cps (BlockIndex.nHeight m + 1)))).
  { destruct cpon; [|by exists false]. exists b. split; [done|]. rewrite Hcp. split; [done|]. intros H. by apply H. }
  destruct Hforked as (b' & -> & Hb'). cbn [mbind option_bind]. destruct b'.
  { apply Hno; [|by apply DoS_header]. intros [_ H _]. by apply Hb' in H. }
  cbn [time_too_old IsProofOfStake mbind option_bind andb]. unfold time_too_old. cbn [IsProofOfStake mbind option_bind andb].
  destruct (_ || _) eqn:Ev.
  - apply Hno; [|by apply DoS_header]. intros [_ _ (V1 & V2 & V3)]. lia.
  - left. split; [|done]. apply orb_false_iff in Ev as [Ev1 Ev3]. apply orb_false_iff in Ev1 as [Ev1 Ev2]. constructor; [congruence|by apply Hb'|].
    unfold version_ok. split_and!; intros; lia.
Qed.

Lemma check_new_header_spec t params cpon cps l adjusted block state : tree_ok t → tree_bits t → tree_below t 2147483647 → failures_ok t l → params_ok params →
  header_ok (old block) →
  ((∃ q m, work_ok params block ∧ header_follows t params cpon cps l block q m) ∧
   check_new_header t params cpon cps l adjusted block state = Some (true, state, t)) ∨
  (¬ (∃ q m, work_ok params block ∧ header_follows t params cpon cps l block q m) ∧
   ∃ s' t', check_new_header t params cpon cps l adjusted block state = Some (false, s', t') ∧ header_refused state s' ∧ marked t t').
Proof.
  intros Ht Hb Hh Hf Hpar Hok. unfold check_new_header, CheckBlockHeader.
  assert (Hno : ∀ s' t', ¬ (∃ q m, work_ok params block ∧ header_follows t params cpon cps l block q m) → header_refused state s' → marked t t' →
    ((∃ q m, work_ok params block ∧ header_follows t params cpon cps l block q m) ∧ Some (false, s', t') = Some (true, state, t)) ∨
    (¬ (∃ q m, work_ok params block ∧ header_follows t params cpon cps l block q m) ∧
     ∃ s'' t'', Some (false, s', t') = Some (false, s'', t'') ∧ header_refused state s'' ∧ marked t t'')).
  { intros s' t' Hn Hs Hm. right. split; [done|]. by exists s', t'. }
  destruct (check_work_spec (mkBlock block []) params true Hok) as (ok & E & Hwork). cbn [header] in E. rewrite E. cbn [mbind option_bind]. destruct ok; cbn [negb].
  2:{ apply Hno; [|by apply DoS_header|by apply marked_refl]. intros (q & m & Hw & _). by destruct Hwork as [_ H]; discriminate (H (λ _, Hw)). }
  assert (Hw : work_ok params block) by (by apply Hwork). clear Hwork E.
  destruct (mapBlockIndex t !! hashPrevBlock (old block)) as [q|] eqn:Eq.
  2:{ apply Hno; [|by apply DoS_header|by apply marked_refl]. intros (q & m & _ & [[H _] _ _ _]). congruence. }
  pose proof Eq as Eq'. apply (to_map t Ht) in Eq' as (m & Hm & _). rewrite Hm. cbn [mbind option_bind].
  assert (Huniq : ∀ q' m', header_follows t params cpon cps l block q' m' → q' = q ∧ m' = m).
  { intros q' m' [[H1 H2] _ _ _]. assert (q' = q) as -> by congruence. split; congruence. }
  destruct (failed m) eqn:Efail.
  { apply Hno; [|by apply DoS_header|by apply marked_refl]. intros (q' & m' & _ & H). destruct (Huniq _ _ H) as [-> ->]. pose proof (hf_parent _ _ _ _ _ _ _ _ H). congruence. }
  destruct (ContextualCheckBlockHeader_spec t params cpon cps block state q m adjusted Ht Hb Hpar Hm (Hh q m Hm)) as [[Hc ->]|(Hc & s' & -> & Hs)]; cbn [mbind option_bind negb].
  2:{ apply Hno; [|done|by apply marked_refl]. intros (q' & m' & _ & H). destruct (Huniq _ _ H) as [-> ->]. apply Hc, H. }
  destruct (failed_ancestor_spec t q m l (to_linked t Ht) Hm Hf) as (r & Er & Hr).
  assert (Hyes : BlockIndex.IsValid m BLOCK_VALID_SCRIPTS = true ∨ Forall (λ f, ¬ descends t q f) l → ∃ q m, work_ok params block ∧ header_follows t params cpon cps l block q m).
  { intros H. exists q, m. split; [done|]. by constructor. }
  destruct (BlockIndex.IsValid m BLOCK_VALID_SCRIPTS) eqn:Ev; cbn [mbind option_bind]; [left; split; [by apply Hyes; left|done]|].
  rewrite Er. cbn [mbind option_bind]. destruct Hr as [[-> Hn]|(t' & -> & Hmk & He)].
  - left. split; [by apply Hyes; right|done].
  - apply Hno; [|by apply DoS_header|done]. intros (q' & m' & _ & H). destruct (Huniq _ _ H) as [-> ->].
    destruct (hf_ancestors _ _ _ _ _ _ _ _ H) as [H'|H']; [congruence|]. apply Exists_exists in He as (f & Hin & Hd). rewrite Forall_forall in H'. by apply (H' f Hin).
Qed.

(** ** Proofs: the tree after a header *)

(** The state between two headers: a well-formed tree, rooted at the genesis block, whose
    other blocks all have the work that their target asks for. *)
Record tree_good (params : Params) (g_failed_blocks : list ptr) (t : BlockTree) : Prop := {
  tg_ok : tree_ok t;
  tg_bits : tree_bits t;
  tg_failures : failures_ok t g_failed_blocks;
  tg_work : ∀ p n hash, nodes t !! p = Some n → phashBlock n = Some hash → hash ≠ hashGenesisBlock params →
    CheckProofOfWork hash (IndexBits n) params = true ∧ is_Some (pprev n) }.
Lemma marked_good params l t t' : marked t t' → tree_good params l t → tree_good params l t'.
Proof.
  intros Hm [H1 H2 H3 H4]. split; [by apply (marked_tree_ok t)| | |].
  - intros p n' (n & s & E & -> & _)%(marked_bwd t t' Hm). exact (H2 p n E).
  - eapply list.Forall_impl; [exact H3|]. intros f (nf & E & Hs). destruct (marked_fwd t t' Hm f nf E) as (s & E' & Hs').
    eexists. split; [done|]. cbn [set_status nStatus]. destruct Hs' as [-> | ->]; [done|].
    rewrite Z.land_lor_distr_l. change (Z.land BLOCK_FAILED_CHILD BLOCK_FAILED_VALID) with 0. by rewrite Z.lor_0_r.
  - intros p n' hash (n & s & E & -> & _)%(marked_bwd t t' Hm) Eh. exact (H4 p n hash E Eh).
Qed.
Lemma marked_below t t' b : marked t t' → tree_below t b → tree_below t' b.
Proof. intros Hm H p n' (n & s & E & -> & _)%(marked_bwd t t' Hm). exact (H p n E). Qed.
Lemma tree_below_weaken t b b' : b ≤ b' → tree_below t b → tree_below t b'.
Proof. intros Hle H p n Hp. specialize (H p n Hp). lia. Qed.

(** A new entry: the tree is the old one and that entry. *)
Record extended_by (t t' : BlockTree) (block : CBlockHeader) (hash : bytes) (p : ptr) : Prop := {
  eb_nodes : ∃ n, nodes t !! p = None ∧ nodes t' = <[p := n]> (nodes t) ∧ phashBlock n = Some hash ∧ bi_header n = copy_header block ∧
    pprev n = mapBlockIndex t !! hashPrevBlock (old block) ∧ nStatus n = BLOCK_VALID_TREE;
  eb_map : mapBlockIndex t' = <[hash := p]> (mapBlockIndex t) }.
Lemma add_header_spec params l t block hash state b : tree_good params l t → tree_below t b → 0 ≤ b ≤ 2147483647 → is_u32 (nBits (old block)) →
  Header_GetHash block = Some hash → mapBlockIndex t !! hash = None → hashPrevBlock (old block) ≠ hash →
  (hash ≠ hashGenesisBlock params → CheckProofOfWork hash (nBits (old block)) params = true ∧ is_Some (mapBlockIndex t !! hashPrevBlock (old block))) →
  ∃ t' p, add_header t block state = Some (true, state, t', Some p) ∧ extended_by t t' block hash p ∧ tree_good params l t' ∧ tree_below t' (b + 1).
Proof.
  intros [Ht Hb Hf Hw] Hbelow Hle Hbits Hhash Hnew Hself Hwork. unfold add_header.
  destruct (AddToBlockIndex_spec t block hash Ht Hbits Hhash Hself) as (t' & p & n & E & Ht' & Hsub & _ & Hp & Hph & Hn & _).
  { intros p n Hp. specialize (Hbelow p n Hp). lia. }
  rewrite E. cbn [mbind option_bind]. exists t', p. split; [done|]. destruct (Hn Hnew) as (E1 & E2 & E3 & E4 & E5 & E6).
  split; [split; [exists n; by split_and!|done]|]. 
  assert (Hcase : ∀ p' n', nodes t' !! p' = Some n' → n' = n ∨ nodes t !! p' = Some n').
  { intros p' n'. rewrite E5. destruct (decide (p = p')) as [<-|Hne]; [rewrite lookup_insert_eq; intros [= <-]; by left|rewrite lookup_insert_ne by done; by right]. }
  assert (Ebits : IndexBits n = nBits (old block)) by (unfold IndexBits; by rewrite E1).
  split; [split; [done| | |]|].
  - intros p' n' [->|H]%Hcase; [by rewrite Ebits|by apply (Hb p')].
  - eapply list.Forall_impl; [exact Hf|]. intros f (nf & Ef & Hs). exists nf. split; [by eapply lookup_weaken|done].
  - intros p' n' hash' [->|H]%Hcase Eh Hg; [|by apply (Hw p')]. assert (hash' = hash) as -> by congruence. rewrite Ebits, E2. by apply Hwork.
  - intros p' n' [->|H]%Hcase; [|specialize (Hbelow p' n' H); lia]. pose proof (to_linked t' Ht' p n Hp) as [H0 H1 H2 _].
    destruct (pprev n) as [q|] eqn:Eq.
    + destruct (H2 q eq_refl) as (m & Hm & Hh). destruct (Hcase q m Hm) as [->|Hm']; [lia|]. specialize (Hbelow q m Hm'). lia.
    + rewrite (H1 eq_refl). lia.
Qed.

Definition header_wf (params : Params) (block : CBlockHeader) : Prop :=
  header_ok (old block) ∧ (Header_GetHash block = Some (hashGenesisBlock params) → hashPrevBlock (old block) ≠ hashGenesisBlock params).
Lemma header_bits h : header_ok h → is_u32 (nBits h).
Proof. intros [(_ & _ & _ & _ & H & _) _]. exact H. Qed.

Section Accept.
Context (params : Params) (cpon : bool) (cps : list (Z * bytes)) (l : list ptr) (adjusted : Z) (Hpar : params_ok params).

Lemma accept_new t block hash state b : tree_good params l t → tree_below t b → 0 ≤ b ≤ 2147483647 → header_ok (old block) →
  Header_GetHash block = Some hash → mapBlockIndex t !! hash = None → hash ≠ hashGenesisBlock params →
  let follows := ∃ q m, work_ok params block ∧ header_follows t params cpon cps l block q m in
  (follows ∧ ∃ t' p, AcceptBlockHeader t params cpon cps l adjusted block state = Some (true, state, t', Some p) ∧
     extended_by t t' block hash p ∧ tree_good params l t' ∧ tree_below t' (b + 1)) ∨
  (¬ follows ∧ ∃ s' t', AcceptBlockHeader t params cpon cps l adjusted block state = Some (false, s', t', None) ∧
     header_refused state s' ∧ marked t t' ∧ tree_good params l t').
Proof.
  intros Hg Hbelow Hle Hok Hhash Hnew Hgen follows. unfold AcceptBlockHeader. rewrite Hhash. cbn [mbind option_bind].
  rewrite bool_decide_false, Hnew by done. 
  destruct (check_new_header_spec t params cpon cps l adjusted block state) as [[(q & m & Hw & Hf) ->]|(Hn & s' & t' & -> & Hs & Hm)];
    try apply Hg; try done; cbn [mbind option_bind negb].
  { intros p n Hp. specialize (Hbelow p n Hp). lia. }
  - left. split; [by exists q, m|]. destruct (hf_known _ _ _ _ _ _ _ _ Hf) as [Hq _].
    apply add_header_spec; try done; [by apply header_bits|congruence|].
    intros _. destruct Hw as (hash' & E & Hw). assert (hash' = hash) as -> by congruence. split; [done|by exists q].
  - right. split; [done|]. exists s', t'. split_and!; [done..|]. by apply (marked_good params l t).
Qed.
(** Any header: the call ends and keeps the tree good. *)
Lemma accept_good t block state b : tree_good params l t → tree_below t b → 0 ≤ b ≤ 2147483647 → header_wf params block →
  ∃ ok s' t' r, AcceptBlockHeader t params cpon cps l adjusted block state = Some (ok, s', t', r) ∧
    tree_good params l t' ∧ tree_below t' (b + 1) ∧ (ok = true → s' = state ∧ ∃ p hash, r = Some p ∧ Header_GetHash block = Some hash ∧ mapBlockIndex t' !! hash = Some p).
Proof.
  intros Hg Hbelow Hle [Hok Hself]. destruct (Header_GetHash_total block Hok) as (hash & Hhash & _).
  assert (Hb' : tree_below t (b + 1)) by (by apply (tree_below_weaken t b); [lia|]).
  destruct (mapBlockIndex t !! hash) as [p|] eqn:Em.
  - unfold AcceptBlockHeader. rewrite Hhash. cbn [mbind option_bind]. case_bool_decide as Eg.
    + unfold add_header, AddToBlockIndex. rewrite Hhash. cbn [mbind option_bind]. rewrite Em. cbn [mbind option_bind].
      eexists _, _, _, _. split; [done|]. split_and!; [done..|]. intros _. split; [done|]. by exists p, hash.
    + rewrite Em. pose proof Em as Em'. apply (to_map t (tg_ok _ _ _ Hg)) in Em' as (n & Hn & _). rewrite Hn. cbn [mbind option_bind].
      destruct (failed n); eexists _, _, _, _; (split; [done|]); split_and!; try done. intros _. split; [done|]. by exists p, hash.
  - destruct (decide (hash = hashGenesisBlock params)) as [Eg|Eg].
    + unfold AcceptBlockHeader. rewrite Hhash. cbn [mbind option_bind]. rewrite bool_decide_true by done.
      destruct (add_header_spec params l t block hash state b Hg Hbelow Hle (header_bits _ Hok) Hhash Em) as (t' & p & E & He & Hg' & Hb''); [|done|].
      { rewrite Eg. apply Hself. congruence. }
      rewrite E. eexists _, _, _, _. split; [done|]. split_and!; [done..|]. intros _. split; [done|]. exists p, hash. split_and!; [done..|].
      rewrite (eb_map _ _ _ _ _ He). apply lookup_insert_eq.
    + destruct (accept_new t block hash state b Hg Hbelow Hle Hok Hhash Em Eg) as [(_ & t' & p & E & He & Hg' & Hb'')|(_ & s' & t' & E & _ & Hm & Hg')].
      * rewrite E. eexists _, _, _, _. split; [done|]. split_and!; [done..|]. intros _. split; [done|]. exists p, hash. split_and!; [done..|].
        rewrite (eb_map _ _ _ _ _ He). apply lookup_insert_eq.
      * rewrite E. eexists _, _, _, _. split; [done|]. split_and!; [done| |done]. by apply (marked_below t).
Qed.
Lemma process_good headers t state r b : tree_good params l t → tree_below t b → 0 ≤ b → b + Z.of_nat (length headers) ≤ 2147483648 →
  Forall (header_wf params) headers →
  ∃ ok s' t' r' bad, ProcessNewBlockHeaders t params cpon cps l adjusted headers state r = Some (ok, s', t', r', bad) ∧
    tree_good params l t' ∧ tree_below t' (b + Z.of_nat (length headers)) ∧ (ok = true ↔ bad = None) ∧
    (∀ h, bad = Some h → h ∈ headers).
Proof.
  intros Hg Hb H0 Hle Hv. revert t state r b Hg Hb H0 Hle. induction Hv as [|h headers Hh Hv IH]; intros t state r b Hg Hb H0 Hle; cbn [ProcessNewBlockHeaders length] in *.
  { eexists _, _, _, _, _. split; [done|]. split_and!; [done| |done|done]. by rewrite Z.add_0_r. }
  destruct (accept_good t h state b Hg Hb ltac:(lia) Hh) as (ok & s' & t' & p & -> & Hg' & Hb' & _). cbn [mbind option_bind]. destruct ok; cbn [negb].
  - destruct (IH t' s' p (b + 1) Hg' Hb' ltac:(lia) ltac:(lia)) as (ok & s2 & t2 & r2 & bad & -> & H1 & H2 & H3 & H4).
    eexists _, _, _, _, _. split; [done|]. split_and!; [done| |done|]; [by replace (b + Z.of_nat (S (length headers))) with (b + 1 + Z.of_nat (length headers)) by lia|].
    intros h' E. right. by apply H4.
  - eexists _, _, _, _, _. split; [done|]. split_and!; [done| |done|]; [by apply (tree_below_weaken t' (b + 1)); [lia|]|]. intros h' [= <-]. by left.
Qed.
End Accept.

(** ** Properties *)

(** C9. [AcceptBlockHeader] of a header that is not known and is not the genesis block ends.  In a good tree
    (well formed, rooted at the genesis block, its blocks with the work they claim) it accepts exactly the
    headers with the work they claim that follow a known block: one that has not failed and
    that descends from no block known to have failed, unless its scripts were checked; with the target
    required after it; not below the last checkpoint that is known; and
    with a version that is not outdated at their height.  Accepting adds one entry, that copies the
    header and points to the parent's entry, and leaves the
    state as it was; refusing sets no entry, leaves a reason, and changes the tree only
    by marks on descendants of failed blocks.  In both cases the tree is good again. *)
Theorem accept_header_correct (params : Params) (fCheckpointsEnabled : bool) (mapCheckpoints : list (Z * bytes)) (g_failed_blocks : list ptr)
    (nAdjustedTime : Z) (t : BlockTree) (block : CBlockHeader) (hash : bytes) (state : CValidationState)
  (Hparams : params_ok params) (Hgood : tree_good params g_failed_blocks t) (Hheights : tree_below t 2147483647)
  (Hblock : header_ok (old block)) (Hhash : Header_GetHash block = Some hash)
  (Hnew : mapBlockIndex t !! hash = None) (Hgenesis : hash ≠ hashGenesisBlock params) :
  let follows := ∃ q m, work_ok params block ∧ header_follows t params fCheckpointsEnabled mapCheckpoints g_failed_blocks block q m in
  let result := AcceptBlockHeader t params fCheckpointsEnabled mapCheckpoints g_failed_blocks nAdjustedTime block state in
  (follows ∧ ∃ t' p, result = Some (true, state, t', Some p) ∧ extended_by t t' block hash p ∧ tree_good params g_failed_blocks t') ∨
  (¬ follows ∧ ∃ s' t', result = Some (false, s', t', None) ∧ header_refused state s' ∧ marked t t' ∧ tree_good params g_failed_blocks t').
Proof.
  intros follows result.
  destruct (accept_new params fCheckpointsEnabled mapCheckpoints g_failed_blocks nAdjustedTime Hparams t block hash state 2147483647 Hgood Hheights)
    as [(H & t' & p & H1 & H2 & H3 & _)|?]; [lia|done..|left|by right]. split; [exact H|by exists t', p].
Qed.

(** C2. Headers keep the tree good.  [ProcessNewBlockHeaders] of any list of headers ends, whatever they
    hold, and keeps the invariant of the tree: its structure (heights, skip pointers,
    cumulative work, best header, index by hash), that every block but the genesis block has a
    parent, and that its hash is below the target it claims.  It fails exactly when it names a first
    invalid header, which is one of the list. *)
Theorem headers_keep_tree_good (params : Params) (fCheckpointsEnabled : bool) (mapCheckpoints : list (Z * bytes)) (g_failed_blocks : list ptr)
    (nAdjustedTime : Z) (t : BlockTree) (headers : list CBlockHeader) (state : CValidationState) (ppindex : option ptr) (height : Z)
  (Hparams : params_ok params) (Hgood : tree_good params g_failed_blocks t) (Hheights : tree_below t height)
  (Hbound : 0 ≤ height ∧ height + Z.of_nat (length headers) ≤ 2147483648) (Hheaders : Forall (header_wf params) headers) :
  ∃ ok s' t' pindex first_invalid,
    ProcessNewBlockHeaders t params fCheckpointsEnabled mapCheckpoints g_failed_blocks nAdjustedTime headers state ppindex =
      Some (ok, s', t', pindex, first_invalid) ∧
    tree_good params g_failed_blocks t' ∧ tree_below t' (height + Z.of_nat (length headers)) ∧
    (ok = true ↔ first_invalid = None) ∧ (∀ h, first_invalid = Some h → h ∈ headers).
Proof. destruct Hbound. by apply process_good. Qed.

(** The time of a header plays no part. *)
Definition set_time (block : CBlockHeader) (time : Z) : CBlockHeader :=
  mkHeader (mkOldHeader (bh_nVersion (old block)) (hashPrevBlock (old block)) (hashMerkleRoot (old block)) time (nBits (old block))
    (hashStateRoot (old block)) (hashUTXORoot (old block)) (seed (old block)) (nNonce (old block)) (nNonce_ex (old block)))
    (sig1 block) (sig2 block) (sig3 block) (sig4 block) (sig5 block).
(** The time of a header is never checked.  Where no blocks of minimum difficulty are allowed, as on the main
    network, the contextual check gives the same answer whatever time the header claims: before the
    median of its ancestors' times or far in the future. *)
Theorem header_time_unchecked (t : BlockTree) (params : Params) (fCheckpointsEnabled : bool) (mapCheckpoints : list (Z * bytes)) (block : CBlockHeader)
    (state : CValidationState) (q : ptr) (nAdjustedTime nAdjustedTime' time : Z) (Hmin : fPowAllowMinDifficultyBlocks params = false) :
  ContextualCheckBlockHeader t params fCheckpointsEnabled mapCheckpoints (set_time block time) state q nAdjustedTime' =
  ContextualCheckBlockHeader t params fCheckpointsEnabled mapCheckpoints block state q nAdjustedTime.
Proof.
  unfold ContextualCheckBlockHeader. assert (E : GetNextWorkRequired (nodes t) q (set_time block time) params = GetNextWorkRequired (nodes t) q block params).
  { unfold GetNextWorkRequired. rewrite Hmin. done. }
  rewrite E. done.
Qed.

(** A tree of one block, and a header that follows it. *)
Definition set_genesis (params : Params) (genesis : bytes) : Params :=
  mkParams genesis (nSubsidyHalvingInterval params) (BIP34Height params) (BIP34Hash params) (BIP65Height params) (BIP66Height params)
    (nRuleChangeActivationThreshold params) (nMinerConfirmationWindow params) (vDeployments params) (powLimit params) (posLimit params)
    (fPowAllowMinDifficultyBlocks params) (fPowNoRetargeting params) (fPoSNoRetargeting params) (nPowTargetSpacing params) (nPowTargetTimespan params)
    (nMinimumChainWork params) (defaultAssumeValid params) (nLastPOWBlock params) (nFirstMPoSBlock params) (nMPoSRewardRecipients params)
    (nFixUTXOCacheHFHeight params).
Definition root_hash : bytes := default [] (Header_GetHash (checked_header 1)).
Definition params_tree : Params := set_genesis CRegTestParams root_hash.
Definition child_header (nonce : Z) : CBlockHeader :=
  mkHeader (mkOldHeader 4 root_hash checked_root 1577836801 0x207fffff (replicate 32 9) (replicate 32 10) 3 nonce 5) [] [] [] [] [].
Definition accepted_tree (t : BlockTree) (block : CBlockHeader) : BlockTree :=
  match AcceptBlockHeader t params_tree false [] [] 0 block new_CValidationState with Some (_, _, t, _) => t | None => t end.
Definition tree_example : BlockTree := accepted_tree empty_tree (checked_header 1).

Lemma params_tree_ok : params_ok params_tree.
Proof. split; [split; [apply blob_uint256S|reflexivity]|split; reflexivity|split; [reflexivity|discriminate]]. Qed.
Lemma hashes_example : Header_GetHash (checked_header 1) = Some root_hash ∧ hashPrevBlock (old (checked_header 1)) ≠ root_hash ∧
  ∃ hash, Header_GetHash (child_header 1) = Some hash ∧ hash ≠ root_hash.
Proof.
  assert (H : is_Some (Header_GetHash (child_header 1)) ∧ Header_GetHash (child_header 1) ≠ Some root_hash) by (split; [vm_compute; by eexists|vm_compute; discriminate]).
  destruct H as [[hash E] Hne]. split; [vm_compute; reflexivity|]. split; [vm_compute; discriminate|]. exists hash. split; [exact E|]. intros ->. exact (Hne E).
Qed.
Lemma empty_good params l : l = [] → tree_good params l empty_tree.
Proof. intros ->. split; [apply empty_tree_ok| |apply List.Forall_nil|]; intros p n; cbn [nodes empty_tree]; rewrite lookup_empty; discriminate. Qed.
Lemma tree_example_good : tree_good params_tree [] tree_example ∧ tree_below tree_example 1 ∧
  ∀ hash, hash ≠ root_hash → mapBlockIndex tree_example !! hash = None.
Proof.
  destruct hashes_example as (E & Hself & _).
  assert (Hok : header_ok (old (checked_header 1))) by (apply (checked_wf 1); split; [discriminate|reflexivity]).
  destruct (add_header_spec params_tree [] empty_tree (checked_header 1) root_hash new_CValidationState 0 (empty_good _ _ eq_refl)) as (t' & p & Ea & He & Hg & Hb).
  - intros p n. cbn [nodes empty_tree]. rewrite lookup_empty. discriminate.
  - lia.
  - exact (header_bits _ Hok).
  - exact E.
  - apply lookup_empty.
  - exact Hself.
  - intros Hne. destruct (Hne eq_refl).
  - assert (Et : tree_example = t').
    { unfold tree_example, accepted_tree, AcceptBlockHeader. rewrite E. cbn [mbind option_bind]. rewrite bool_decide_true by exact eq_refl. rewrite Ea. reflexivity. }
    rewrite Et. split; [exact Hg|]. split; [exact Hb|]. intros hash Hne. rewrite (eb_map _ _ _ _ _ He), lookup_insert_ne by congruence. apply lookup_empty.
Qed.
Lemma child_ok n : is_u64 n → header_ok (old (child_header n)).
Proof.
  intros Hn. assert (Er : u8sb checked_root && (length checked_root =? 32)%nat = true) by (vm_compute; reflexivity).
  assert (Eh : u8sb root_hash && (length root_hash =? 32)%nat = true) by (vm_compute; reflexivity).
  apply header_ok_of; [lia|reflexivity|exact Hn|word_lia|].
  apply list.Forall_cons; split; [exact Eh|]. apply list.Forall_cons; split; [exact Er|]. repeat (constructor; [reflexivity|]). constructor.
Qed.
Lemma accept_header_correct_witness :
  (∃ q m, work_ok params_tree (child_header 1) ∧ header_follows tree_example params_tree false [] [] (child_header 1) q m) ∧
  ¬ (∃ q m, work_ok params_tree (child_header 3) ∧ header_follows tree_example params_tree false [] [] (child_header 3) q m).
Proof.
  destruct tree_example_good as (Hg & Hb & Hnone).
  assert (Hb' : tree_below tree_example 2147483647) by (apply (tree_below_weaken _ 1); [discriminate|exact Hb]).
  assert (E1 : (λ r, fst (fst (fst r))) <$> AcceptBlockHeader tree_example params_tree false [] [] 0 (child_header 1) new_CValidationState = Some true)
    by (vm_compute; reflexivity).
  assert (E3 : (λ r, fst (fst (fst r))) <$> AcceptBlockHeader tree_example params_tree false [] [] 0 (child_header 3) new_CValidationState = Some false)
    by (vm_compute; reflexivity).
  split.
  - destruct hashes_example as (_ & _ & hash & Eh & Hne).
    destruct (accept_header_correct params_tree false [] [] 0 tree_example (child_header 1) hash new_CValidationState params_tree_ok Hg Hb'
      (child_ok 1 ltac:(split; [discriminate|reflexivity])) Eh (Hnone hash Hne) Hne) as [(H & _)|(_ & s' & t' & E & _)]; [exact H|].
    rewrite E in E1. discriminate E1.
  - assert (H : is_Some (Header_GetHash (child_header 3)) ∧ Header_GetHash (child_header 3) ≠ Some root_hash) by (split; [vm_compute; by eexists|vm_compute; discriminate]).
    destruct H as [[hash Eh] Hne']. assert (Hne : hash ≠ root_hash) by (intros ->; exact (Hne' Eh)).
    destruct (accept_header_correct params_tree false [] [] 0 tree_example (child_header 3) hash new_CValidationState params_tree_ok Hg Hb'
      (child_ok 3 ltac:(split; [discriminate|reflexivity])) Eh (Hnone hash Hne) Hne) as [(_ & t' & p & E & _)|(H & _)]; [|exact H].
    rewrite E in E3. discriminate E3.
Defined.
Lemma headers_keep_tree_good_witness :
  ∃ ok s' t' pindex first_invalid,
    ProcessNewBlockHeaders tree_example params_tree false [] [] 0 [child_header 1; child_header 3] new_CValidationState None =
      Some (ok, s', t', pindex, first_invalid) ∧
    tree_good params_tree [] t' ∧ tree_below t' 3 ∧ (ok = true ↔ first_invalid = None) ∧ (∀ h, first_invalid = Some h → h ∈ [child_header 1; child_header 3]).
Proof.
  destruct tree_example_good as (Hg & Hb & _).
  apply (headers_keep_tree_good params_tree false [] [] 0 tree_example [child_header 1; child_header 3] new_CValidationState None 1 params_tree_ok Hg Hb).
  - split; discriminate.
  - apply list.Forall_cons; split; [|apply list.Forall_cons; split; [|constructor]].
    + split; [apply child_ok; split; [discriminate|reflexivity]|]. intros E. revert E. vm_compute. discriminate.
    + split; [apply child_ok; split; [discriminate|reflexivity]|]. intros E. revert E. vm_compute. discriminate.
Defined.
Lemma header_time_unchecked_witness :
  ContextualCheckBlockHeader tree_example params_example false [] (set_time (child_header 1) 0) new_CValidationState 1 0 =
  ContextualCheckBlockHeader tree_example params_example false [] (child_header 1) new_CValidationState 1 4294967295.
Proof. apply (header_time_unchecked tree_example params_example false [] (child_header 1) new_CValidationState 1 4294967295 0 0). reflexivity. Defined.
