(* ===== verification/ForkChoice.v ===== *)
(** * The choice of the chain to follow: state and operations (src/src/validation.cpp)

    Blocks that arrive are linked to the tree ([ReceivedBlockTransactions]): an entry whose
    ancestors all have their transactions is a candidate for the tip, one
    that waits for an ancestor is unlinked.  [FindMostWorkChain] takes the best candidate
    and drops those that cannot be followed; [InvalidBlockFound] marks a block that could not be connected;
    [PruneBlockIndexCandidates] drops the candidates that a new tip has overtaken.  The invariant
    [blocks_ok] says what [CheckBlockIndex] asserts, for a node that does not prune.

    [std::set] is the list of its elements in order, under the comparator of the source, which reads the
    entries through the heap; [std::multimap] is the list of its pairs in the order of insertion.
    Linking.v and BestChain.v hold the theorems. *)

From stdpp Require Import base numbers list option gmap sorting.
From Stdlib Require Import ZArith Lia ZifyNat ZifyBool.
From S2P Require Import Prelude Transaction ArithUint256 Block BlockIndex Chain Pow VersionBits Validation BlockCheck.
Import Arith256.

(** ** State *)
Record ForkWarnings := mkWarnings {
  pindexBestForkTip : option ptr; pindexBestForkBase : option ptr; fLargeWorkForkFound : bool; fLargeWorkInvalidChainFound : bool }.
Record BlockState := mkBlocks {
  tree : BlockTree;
  chainActive : chain;
  setBlockIndexCandidates : list ptr;
  mapBlocksUnlinked : list (option ptr * ptr);
  nBlockSequenceId : Z;
  pindexBestInvalid : option ptr;
  g_failed_blocks : gset ptr;
  warnings : ForkWarnings }.
Record CDiskBlockPos := mkPos { pos_nFile : Z; nPos : Z }.
Definition BLOCK_OPT_WITNESS : Z := 128.

Definition set_tree (s : BlockState) (t : BlockTree) : BlockState :=
  mkBlocks t (chainActive s) (setBlockIndexCandidates s) (mapBlocksUnlinked s) (nBlockSequenceId s) (pindexBestInvalid s) (g_failed_blocks s) (warnings s).
Definition set_active (s : BlockState) (c : chain) : BlockState :=
  mkBlocks (tree s) c (setBlockIndexCandidates s) (mapBlocksUnlinked s) (nBlockSequenceId s) (pindexBestInvalid s) (g_failed_blocks s) (warnings s).
Definition set_candidates (s : BlockState) (c : list ptr) : BlockState :=
  mkBlocks (tree s) (chainActive s) c (mapBlocksUnlinked s) (nBlockSequenceId s) (pindexBestInvalid s) (g_failed_blocks s) (warnings s).
Definition set_unlinked (s : BlockState) (u : list (option ptr * ptr)) : BlockState :=
  mkBlocks (tree s) (chainActive s) (setBlockIndexCandidates s) u (nBlockSequenceId s) (pindexBestInvalid s) (g_failed_blocks s) (warnings s).
Definition set_sequence (s : BlockState) (i : Z) : BlockState :=
  mkBlocks (tree s) (chainActive s) (setBlockIndexCandidates s) (mapBlocksUnlinked s) i (pindexBestInvalid s) (g_failed_blocks s) (warnings s).
Definition set_best_invalid (s : BlockState) (p : option ptr) : BlockState :=
  mkBlocks (tree s) (chainActive s) (setBlockIndexCandidates s) (mapBlocksUnlinked s) (nBlockSequenceId s) p (g_failed_blocks s) (warnings s).
Definition add_failed (s : BlockState) (p : ptr) : BlockState :=
  mkBlocks (tree s) (chainActive s) (setBlockIndexCandidates s) (mapBlocksUnlinked s) (nBlockSequenceId s) (pindexBestInvalid s) ({[p]} ∪ g_failed_blocks s) (warnings s).
Definition set_warnings (s : BlockState) (w : ForkWarnings) : BlockState :=
  mkBlocks (tree s) (chainActive s) (setBlockIndexCandidates s) (mapBlocksUnlinked s) (nBlockSequenceId s) (pindexBestInvalid s) (g_failed_blocks s) w.
(** An entry written through a pointer, and its mark in [setDirtyBlockIndex]. *)
Definition update_entry (t : BlockTree) (p : ptr) (n : CBlockIndex) : BlockTree :=
  mkTree (<[p := n]> (nodes t)) (mapBlockIndex t) (pindexBestHeader t) (setDirtyBlockIndex t).
Definition mark_dirty (t : BlockTree) (p : ptr) : BlockTree :=
  mkTree (nodes t) (mapBlockIndex t) (pindexBestHeader t) ({[p]} ∪ setDirtyBlockIndex t).
Definition set_received (n : CBlockIndex) (ntx : Z) (pos : CDiskBlockPos) (status : Z) : CBlockIndex :=
  mkIndex (phashBlock n) (pprev n) (pskip n) (nHeight n) (pos_nFile pos) (nPos pos) 0 (nChainWork n) ntx 0 status (bi_header n) (nStakeModifier n)
    (hashProof n) (nMoneySupply n) (nSequenceId n) (nTimeMax n).
Definition set_chain (n : CBlockIndex) (chaintx sequence : Z) : CBlockIndex :=
  mkIndex (phashBlock n) (pprev n) (pskip n) (nHeight n) (nFile n) (nDataPos n) (nUndoPos n) (nChainWork n) (nTx n) chaintx (nStatus n) (bi_header n)
    (nStakeModifier n) (hashProof n) (nMoneySupply n) sequence (nTimeMax n).

(** ** The candidates, a [std::set] under [CBlockIndexWorkComparator] *)
Definition compare (h : heap) (a b : ptr) : option bool :=
  na ← h !! a; nb ← h !! b; Some (WorkComparator (a, na) (b, nb)).
Fixpoint set_insert (h : heap) (p : ptr) (l : list ptr) : option (list ptr) :=
  match l with
  | [] => Some [p]
  | q :: l' =>
      less ← compare h q p;
      if less : bool then l'' ← set_insert h p l'; Some (q :: l'')
      else greater ← compare h p q; Some (if (greater : bool) then p :: l else l)
  end.
Fixpoint set_erase (h : heap) (p : ptr) (l : list ptr) : option (list ptr) :=
  match l with
  | [] => Some []
  | q :: l' =>
      less ← compare h q p;
      if less : bool then l'' ← set_erase h p l'; Some (q :: l'')
      else greater ← compare h p q; Some (if (greater : bool) then l else l')
  end.
Definition insert_candidate (s : BlockState) (p : ptr) : option BlockState :=
  c ← set_insert (nodes (tree s)) p (setBlockIndexCandidates s); Some (set_candidates s c).
Definition erase_candidate (s : BlockState) (p : ptr) : option BlockState :=
  c ← set_erase (nodes (tree s)) p (setBlockIndexCandidates s); Some (set_candidates s c).

(** ** A block arrives *)
Definition parent_chain_tx (h : heap) (n : CBlockIndex) : option Z :=
  match pprev n with Some q => m ← h !! q; Some (nChainTx m) | None => Some 0 end.
(** The entry worse than the tip. *)
Definition worse_than_tip (h : heap) (c : chain) (p : ptr) : option bool :=
  match Tip c with None => Some false | Some tip => compare h p tip end.
(** The loop over the queue; overflow of the counter is [None]. *)
Fixpoint link_blocks (fuel : nat) (s : BlockState) (queue : list ptr) : option BlockState :=
  match queue with
  | [] => Some s
  | p :: queue =>
      match fuel with
      | O => None
      | S fuel =>
          n ← nodes (tree s) !! p;
          prev ← parent_chain_tx (nodes (tree s)) n;
          if nBlockSequenceId s =? 2147483647 then None
          else
            let s := set_tree s (update_entry (tree s) p (set_chain n (u32 (prev + nTx n)) (nBlockSequenceId s))) in
            let s := set_sequence s (nBlockSequenceId s + 1) in
            worse ← worse_than_tip (nodes (tree s)) (chainActive s) p;
            s ← (if (worse : bool) then Some s else insert_candidate s p);
            let children := map snd (filter (λ e, fst e = Some p) (mapBlocksUnlinked s)) in
            let s := set_unlinked s (filter (λ e, fst e ≠ Some p) (mapBlocksUnlinked s)) in
            link_blocks fuel s (queue ++ children)
      end
  end.
Definition received_entry (n : CBlockIndex) (block : CBlock) (pos : CDiskBlockPos) (witness : bool) : CBlockIndex :=
  let status := Z.lor (nStatus n) BLOCK_HAVE_DATA in
  let status := if witness then Z.lor status BLOCK_OPT_WITNESS else status in
  fst (RaiseValidity (set_received n (u32 (Z.of_nat (length (vtx block)))) pos status) BLOCK_VALID_TRANSACTIONS).
Definition ReceivedBlockTransactions (s : BlockState) (block : CBlock) (pindexNew : ptr) (pos : CDiskBlockPos) (params : Params) (cache : VersionBitsCache)
  : option (BlockState * VersionBitsCache) :=
  n ← nodes (tree s) !! pindexNew;
  '(witness, cache) ← IsWitnessEnabled (nodes (tree s)) (pprev n) params cache;
  let n := received_entry n block pos witness in
  let s := set_tree s (mark_dirty (update_entry (tree s) pindexNew n) pindexNew) in
  linked ← (match pprev n with None => Some true | Some q => m ← nodes (tree s) !! q; Some (negb (nChainTx m =? 0)) end);
  if linked : bool then
    s ← link_blocks (S (length (mapBlocksUnlinked s))) s [pindexNew]; Some (s, cache)
  else
    match pprev n with
    | None => Some (s, cache)
    | Some q =>
        m ← nodes (tree s) !! q;
        Some (if BlockIndex.IsValid m BLOCK_VALID_TREE then set_unlinked s (mapBlocksUnlinked s ++ [(pprev n, pindexNew)]) else s, cache)
    end.

(** ** The best chain *)
Definition better_work (h : heap) (p : ptr) (q : option ptr) : option bool :=
  match q with None => Some true | Some q => n ← h !! p; m ← h !! q; Some (0 <? CompareTo (nChainWork n) (nChainWork m)) end.
Definition fFailedChain (n : CBlockIndex) : bool := negb (Z.land (nStatus n) BLOCK_FAILED_MASK =? 0).
Definition fMissingData (n : CBlockIndex) : bool := Z.land (nStatus n) BLOCK_HAVE_DATA =? 0.
(** The walk down to the active chain: the first entry that cannot be followed, if there is one. *)
Fixpoint find_unusable (fuel : nat) (h : heap) (c : chain) (pindexTest : option ptr) : option (option ptr) :=
  match pindexTest with
  | None => Some None
  | Some p =>
      contained ← Contains h c p;
      if contained : bool then Some None
      else
        n ← h !! p;
        if (nChainTx n =? 0) && negb (nHeight n =? 0) then None
        else if fFailedChain n || fMissingData n then Some (Some p)
        else match fuel with O => None | S fuel => find_unusable fuel h c (pprev n) end
  end.
(** [while (pindexTest != pindexFailed)]. *)
Fixpoint drop_chain (fuel : nat) (s : BlockState) (failed : bool) (pindexTest : ptr) (pindexFailed : option ptr) : option BlockState :=
  if bool_decide (pindexFailed = Some pindexTest) then Some s
  else
    match fuel with
    | O => None
    | S fuel =>
        p ← pindexFailed;
        n ← nodes (tree s) !! p;
        let s := if failed then set_tree s (update_entry (tree s) p (set_status n (Z.lor (nStatus n) BLOCK_FAILED_CHILD)))
                 else set_unlinked s (mapBlocksUnlinked s ++ [(pprev n, p)]) in
        s ← erase_candidate s p;
        drop_chain fuel s failed pindexTest (pprev n)
    end.
Definition drop_candidate (s : BlockState) (pindexNew pindexTest : ptr) : option BlockState :=
  n ← nodes (tree s) !! pindexNew;
  m ← nodes (tree s) !! pindexTest;
  better ← better_work (nodes (tree s)) pindexNew (pindexBestInvalid s);
  let s := if fFailedChain m && better then set_best_invalid s (Some pindexNew) else s in
  s ← drop_chain (Z.to_nat (nHeight n + 1)) s (fFailedChain m) pindexTest (Some pindexNew);
  erase_candidate s pindexTest.
Fixpoint most_work_loop (fuel : nat) (s : BlockState) : option (option ptr * BlockState) :=
  match List.rev (setBlockIndexCandidates s) with
  | [] => Some (None, s)
  | pindexNew :: _ =>
      n ← nodes (tree s) !! pindexNew;
      r ← find_unusable (Z.to_nat (nHeight n + 1)) (nodes (tree s)) (chainActive s) (Some pindexNew);
      match r with
      | None => Some (Some pindexNew, s)
      | Some pindexTest =>
          s ← drop_candidate s pindexNew pindexTest;
          match fuel with O => None | S fuel => most_work_loop fuel s end
      end
  end.
Definition FindMostWorkChain (s : BlockState) : option (option ptr * BlockState) := most_work_loop (length (setBlockIndexCandidates s)) s.
(** Candidates worse than the tip go; the assertion is that one is left. *)
Fixpoint prune_loop (h : heap) (tip : ptr) (l : list ptr) : option (list ptr) :=
  match l with
  | [] => Some []
  | p :: l' => worse ← compare h p tip; if (worse : bool) then prune_loop h tip l' else Some l
  end.
Definition PruneBlockIndexCandidates (s : BlockState) : option BlockState :=
  tip ← Tip (chainActive s);
  c ← prune_loop (nodes (tree s)) tip (setBlockIndexCandidates s);
  match c with [] => None | _ => Some (set_candidates s c) end.

(** ** Invalid blocks and forks *)

(** The warnings of a fork with much work.  The alert and the log have no part in the state. *)
Definition CheckForkWarningConditions (s : BlockState) (IsInitialBlockDownload : bool) : option BlockState :=
  if IsInitialBlockDownload then Some s
  else
    let w := warnings s in
    stale ← (match pindexBestForkTip w with
             | None => Some false
             | Some f => n ← nodes (tree s) !! f; Some (Height (chainActive s) - nHeight n >=? 72)
             end);
    let w := if stale : bool then mkWarnings None (pindexBestForkBase w) (fLargeWorkForkFound w) (fLargeWorkInvalidChainFound w) else w in
    large ← (match pindexBestForkTip w, pindexBestInvalid s with
             | Some _, _ => Some true
             | None, None => Some false
             | None, Some b =>
                 m ← nodes (tree s) !! b; tip ← Tip (chainActive s); n ← nodes (tree s) !! tip; proof ← GetBlockProof (IndexBits n);
                 Some (0 <? CompareTo (nChainWork m) (add (nChainWork n) (mul32 proof 6)))
             end);
    Some (set_warnings s (
      if large : bool then
        match pindexBestForkTip w, pindexBestForkBase w with
        | Some f, Some b => mkWarnings (Some f) (Some b) true (fLargeWorkInvalidChainFound w)
        | f, b => mkWarnings f b (fLargeWorkForkFound w) true
        end
      else mkWarnings (pindexBestForkTip w) (pindexBestForkBase w) false false)).
(** [while (plonger && plonger->nHeight > pfork->nHeight)]. *)
Fixpoint walk_longer (fuel : nat) (h : heap) (plonger : option ptr) (height : Z) : option (option ptr) :=
  match plonger with
  | None => Some None
  | Some l =>
      n ← h !! l;
      if nHeight n >? height then match fuel with O => None | S fuel => walk_longer fuel h (pprev n) height end else Some (Some l)
  end.
(** [while (pfork && pfork != plonger)]. *)
Fixpoint find_fork_base (fuel : nat) (h : heap) (pfork plonger : option ptr) : option (option ptr) :=
  match pfork with
  | None => Some None
  | Some f =>
      if bool_decide (plonger = Some f) then Some (Some f)
      else
        n ← h !! f;
        plonger ← walk_longer (match plonger with Some l => match h !! l with Some m => Z.to_nat (nHeight m + 1) | None => 0 end | None => 0 end) h plonger (nHeight n);
        if bool_decide (plonger = Some f) then Some (Some f)
        else match fuel with O => None | S fuel => find_fork_base fuel h (pprev n) plonger end
  end.
Definition CheckForkWarningConditionsOnNewFork (s : BlockState) (pindexNewForkTip : ptr) (IsInitialBlockDownload : bool) : option BlockState :=
  n ← nodes (tree s) !! pindexNewForkTip;
  pfork ← find_fork_base (Z.to_nat (nHeight n + 1)) (nodes (tree s)) (Some pindexNewForkTip) (Tip (chainActive s));
  let w := warnings s in
  large ← (match pfork with
           | None => Some false
           | Some f =>
               higher ← (match pindexBestForkTip w with None => Some true | Some b => m ← nodes (tree s) !! b; Some (nHeight n >? nHeight m) end);
               m ← nodes (tree s) !! f;
               proof ← GetBlockProof (IndexBits m);
               Some (higher && (0 <? CompareTo (sub (nChainWork n) (nChainWork m)) (mul32 proof 7)) && (Height (chainActive s) - nHeight n <? 72))
           end);
  let s := if large : bool then set_warnings s (mkWarnings (Some pindexNewForkTip) pfork (fLargeWorkForkFound w) (fLargeWorkInvalidChainFound w)) else s in
  CheckForkWarningConditions s IsInitialBlockDownload.
(** A block that was found invalid when it was connected. *)
Definition InvalidChainFound (s : BlockState) (pindexNew : ptr) (IsInitialBlockDownload : bool) : option BlockState :=
  better ← better_work (nodes (tree s)) pindexNew (pindexBestInvalid s);
  let s := if better : bool then set_best_invalid s (Some pindexNew) else s in
  tip ← Tip (chainActive s);
  CheckForkWarningConditions s IsInitialBlockDownload.
Definition InvalidBlockFound (s : BlockState) (pindex : ptr) (state : CValidationState) (IsInitialBlockDownload : bool) : option BlockState :=
  if corruptionPossible state then Some s
  else
    n ← nodes (tree s) !! pindex;
    let s := set_tree s (update_entry (tree s) pindex (set_status n (Z.lor (nStatus n) BLOCK_FAILED_VALID))) in
    let s := add_failed s pindex in
    let s := set_tree s (mark_dirty (tree s) pindex) in
    s ← erase_candidate s pindex;
    InvalidChainFound s pindex IsInitialBlockDownload.


(** ** Proofs: entries that keep their place *)

(** The fields that make the tree: only the others differ. *)
Record same_place (n n' : CBlockIndex) : Prop := {
  sp_hash : phashBlock n = phashBlock n'; sp_prev : pprev n = pprev n'; sp_skip : pskip n = pskip n'; sp_height : nHeight n = nHeight n';
  sp_work : nChainWork n = nChainWork n'; sp_header : bi_header n = bi_header n'; sp_time : nTimeMax n = nTimeMax n' }.
#[global] Instance same_place_equivalence : Equivalence same_place.
Proof.
  split; [intros n; by constructor|intros n n' []; constructor; congruence|]. intros n1 n2 n3 [] []. constructor; congruence.
Qed.
Definition same_shape (h h' : heap) : Prop := ∀ p, option_Forall2 same_place (h !! p) (h' !! p).
#[global] Instance same_shape_equivalence : Equivalence same_shape.
Proof.
  split; [intros h p; reflexivity|intros h h' H p; symmetry; apply H|]. intros h1 h2 h3 H1 H2 p. etransitivity; [apply H1|apply H2].
Qed.
Lemma shape_fwd h h' p n : same_shape h h' → h !! p = Some n → ∃ n', h' !! p = Some n' ∧ same_place n n'.
Proof. intros H E. specialize (H p). rewrite E in H. inversion H; subst. by eexists. Qed.
Lemma shape_bwd h h' p n' : same_shape h h' → h' !! p = Some n' → ∃ n, h !! p = Some n ∧ same_place n n'.
Proof. intros H E. specialize (H p). rewrite E in H. inversion H; subst. by eexists. Qed.
Lemma shape_insert h p n n' : h !! p = Some n → same_place n n' → same_shape h (<[p := n']> h).
Proof.
  intros E Hs q. destruct (decide (p = q)) as [<-|Hne]; [rewrite E, lookup_insert_eq; by constructor|by rewrite lookup_insert_ne].
Qed.
#[global] Instance up_proper : Proper (same_shape ==> eq ==> eq ==> eq) up.
Proof.
  intros h h' H k ? <- p ? <-. revert p. induction k as [|k IH]; intros p; [done|]. cbn [up]. pose proof (H p) as Hp.
  inversion Hp as [n n' Hn E E'|E E']; [|done]. cbn [mbind option_bind]. rewrite (sp_prev _ _ Hn). destruct (pprev n'); [apply IH|done].
Qed.
Lemma shape_linked h h' : same_shape h h' → linked h → linked h'.
Proof.
  intros H Hl p n' E. destruct (shape_bwd _ _ _ _ H E) as (n & E0 & Hn). destruct (Hl p n E0) as [H1 H2 H3 H4].
  destruct Hn as [_ Hp Hs Hh _ _ _]. split; rewrite <- ?Hh, <- ?Hp, <- ?Hs; [done|done| |].
  - intros q Eq. destruct (H3 q Eq) as (m & Em & Hm). destruct (shape_fwd _ _ _ _ H Em) as (m' & Em' & Hs'). exists m'. split; [done|]. by rewrite <- (sp_height _ _ Hs').
  - intros s Es. rewrite <- (up_proper _ _ H _ _ eq_refl _ _ eq_refl). by apply H4.
Qed.
Lemma shape_tree_ok t t' : same_shape (nodes t) (nodes t') → mapBlockIndex t' = mapBlockIndex t → pindexBestHeader t' = pindexBestHeader t → tree_ok t → tree_ok t'.
Proof.
  intros H EM EB [Hl Ha Hm Hb]. split.
  - by apply (shape_linked (nodes t)).
  - intros p n' E. destruct (shape_bwd _ _ _ _ H E) as (n & E0 & [_ Hp _ _ Hw Hh Ht]). destruct (Ha p n E0) as [H1 H2]. unfold node_accounted, IndexBits, IndexTime in *.
    rewrite <- Hw, <- Hp, <- Hh, <- Ht. split; [done|]. destruct (pprev n) as [q|]; [|done]. destruct H2 as (m & Em & H2).
    destruct (shape_fwd _ _ _ _ H Em) as (m' & Em' & Hs). exists m'. by rewrite <- (sp_work _ _ Hs), <- (sp_time _ _ Hs).
  - intros hash p. rewrite EM, Hm. split.
    + intros (n & E & Eh). destruct (shape_fwd _ _ _ _ H E) as (n' & E' & Hs). exists n'. by rewrite <- (sp_hash _ _ Hs).
    + intros (n' & E & Eh). destruct (shape_bwd _ _ _ _ H E) as (n & E' & Hs). exists n. by rewrite (sp_hash _ _ Hs).
  - rewrite EB. destruct (pindexBestHeader t) as [b|].
    + destruct Hb as (nb & Eb & Hmax). destruct (shape_fwd _ _ _ _ H Eb) as (nb' & Eb' & Hs). exists nb'. split; [done|]. intros p n' E.
      destruct (shape_bwd _ _ _ _ H E) as (n & E' & Hs'). rewrite <- (sp_work _ _ Hs), <- (sp_work _ _ Hs'). by apply (Hmax p).
    + apply map_eq. intros p. rewrite lookup_empty. destruct (nodes t' !! p) as [n'|] eqn:E; [|done].
      destruct (shape_bwd _ _ _ _ H E) as (n & E' & _). by rewrite Hb in E'.
Qed.
Lemma shape_full_chain h h' p n n' : same_shape h h' → h !! p = Some n → h' !! p = Some n' → full_chain h p n = full_chain h' p n'.
Proof.
  intros H E E'. destruct (shape_fwd _ _ _ _ H E) as (n2 & E2 & Hs). replace n2 with n' in Hs by congruence. unfold full_chain. rewrite (sp_height _ _ Hs).
  apply map_ext. intros i. by apply up_proper.
Qed.

(** ** Proofs: the set of candidates *)
Definition before (h : heap) (a b : ptr) : Prop := compare h a b = Some true.
Definition ordered (h : heap) (l : list ptr) : Prop := StronglySorted (before h) l.
Definition present (h : heap) (l : list ptr) : Prop := ∀ p, p ∈ l → is_Some (h !! p).
Definition works_ok (h : heap) : Prop := ∀ p n, h !! p = Some n → ok (nChainWork n).

Lemma filter_keep {A} (P : A → Prop) `{!∀ x, Decision (P x)} (l : list A) : (∀ x, x ∈ l → P x) → filter P l = l.
Proof.
  intros Hall. induction l as [|x l IH]; [done|]. rewrite filter_cons, decide_True by (apply Hall; by left). f_equal. apply IH. intros y Hy. apply Hall. by right.
Qed.

Section Candidates.
Context (h : heap) (Hok : works_ok h).

Lemma compare_def a b : is_Some (h !! a) → is_Some (h !! b) → ∃ r, compare h a b = Some r.
Proof. intros [na Ea] [nb Eb]. unfold compare. rewrite Ea, Eb. by eexists. Qed.
Lemma before_irrefl a : ¬ before h a a.
Proof.
  unfold before, compare. destruct (h !! a) as [na|] eqn:E; [|done]. cbn [mbind option_bind]. intros H.
  destruct (WorkComparator_order (a, na) (a, na) (a, na)) as (H1 & _); [by eapply Hok..|]. rewrite H1 in H. discriminate.
Qed.
Lemma before_trans a b c : before h a b → before h b c → before h a c.
Proof.
  unfold before, compare. destruct (h !! a) as [na|] eqn:Ea; [|done]. destruct (h !! b) as [nb|] eqn:Eb; [|done].
  destruct (h !! c) as [nc|] eqn:Ec; [|done]. cbn [mbind option_bind]. intros H1 H2. f_equal.
  destruct (WorkComparator_order (a, na) (b, nb) (c, nc)) as (_ & H & _); [by eapply Hok..|]. apply H; congruence.
Qed.
Lemma before_total a b : is_Some (h !! a) → is_Some (h !! b) → a ≠ b → before h a b ∨ before h b a.
Proof.
  intros [na Ea] [nb Eb] Hne. unfold before, compare. rewrite Ea, Eb. cbn [mbind option_bind].
  destruct (WorkComparator_order (a, na) (b, nb) (b, nb)) as (_ & _ & H & _); [by eapply Hok..|]. destruct (H Hne) as [E|E]; rewrite E; [by left|by right].
Qed.
Lemma not_before a b : before h a b → compare h b a = Some false.
Proof.
  intros H. destruct (compare h b a) as [[]|] eqn:E; [|done|].
  - destruct (before_irrefl a). by apply (before_trans a b a).
  - unfold before, compare in *. destruct (h !! a), (h !! b); done.
Qed.

Lemma set_insert_spec p l : is_Some (h !! p) → present h l → ordered h l →
  ∃ l', set_insert h p l = Some l' ∧ ordered h l' ∧ ∀ x, x ∈ l' ↔ x = p ∨ x ∈ l.
Proof.
  intros Hp. unfold ordered. induction l as [|q l IH]; intros Hl Hs; cbn [set_insert].
  { exists [p]. split; [done|]. split; [by repeat constructor|]. intros x. rewrite list_elem_of_singleton. set_solver. }
  assert (Hq : is_Some (h !! q)) by (apply Hl; by left). assert (Hl' : present h l) by (intros x Hx; apply Hl; by right).
  apply StronglySorted_inv in Hs as [Hs Hall]. destruct (compare_def q p Hq Hp) as [less E]. rewrite E. cbn [mbind option_bind]. destruct less.
  - destruct (IH Hl' Hs) as (l' & -> & Hs' & Hin). cbn [mbind option_bind]. exists (q :: l'). split; [done|]. split.
    + constructor; [done|]. apply Forall_forall. intros x Hx. apply Hin in Hx as [->|Hx]; [done|]. rewrite Forall_forall in Hall. by apply Hall.
    + intros x. rewrite !elem_of_cons, Hin. tauto.
  - destruct (compare_def p q Hp Hq) as [gr E']. rewrite E'. cbn [mbind option_bind]. destruct gr.
    + eexists. split; [done|]. split; [|intros x; by rewrite elem_of_cons]. constructor; [by constructor|]. constructor; [done|].
      eapply list.Forall_impl; [exact Hall|]. intros x Hx. by apply (before_trans p q x).
    + eexists. split; [done|]. split; [by constructor|]. intros x. split; [by right|]. intros [->|]; [|done].
      destruct (decide (p = q)) as [->|Hne]; [by left|]. destruct (before_total p q Hp Hq Hne) as [H|H]; unfold before in H; congruence.
Qed.
Lemma set_erase_spec p l : is_Some (h !! p) → present h l → ordered h l → set_erase h p l = Some (filter (λ x, x ≠ p) l).
Proof.
  intros Hp. unfold ordered. induction l as [|q l IH]; intros Hl Hs; cbn [set_erase]; [done|].
  assert (Hq : is_Some (h !! q)) by (apply Hl; by left). assert (Hl' : present h l) by (intros x Hx; apply Hl; by right).
  apply StronglySorted_inv in Hs as [Hs Hall]. destruct (compare_def q p Hq Hp) as [less E]. rewrite E. cbn [mbind option_bind]. rewrite filter_cons.
  destruct less.
  - rewrite decide_True by (intros ->; by apply (before_irrefl p)). by rewrite (IH Hl' Hs).
  - destruct (compare_def p q Hp Hq) as [gr E']. rewrite E'. cbn [mbind option_bind]. destruct gr.
    + rewrite decide_True by (intros ->; by apply (before_irrefl p)). rewrite filter_keep; [done|]. intros x Hx ->. rewrite Forall_forall in Hall.
      apply (before_irrefl p), (before_trans p q p); [done|by apply Hall].
    + assert (q = p) as ->. { destruct (decide (q = p)) as [|Hne]; [done|]. destruct (before_total q p Hq Hp Hne) as [H|H]; unfold before in H; congruence. }
      rewrite decide_False by tauto. rewrite filter_keep; [done|]. intros x Hx ->. rewrite Forall_forall in Hall. by apply (before_irrefl p), Hall.
Qed.
Lemma ordered_filter P `{!∀ x, Decision (P x)} l : ordered h l → ordered h (filter P l).
Proof.
  unfold ordered. induction 1 as [|x l _ IH Hall]; [constructor|]. rewrite filter_cons. case_decide; [|done]. constructor; [done|].
  apply Forall_forall. intros y [_ Hy]%list_elem_of_filter. rewrite Forall_forall in Hall. by apply Hall.
Qed.
Lemma ordered_last l p r : ordered h l → List.rev l = p :: r → p ∈ l ∧ ∀ x, x ∈ l → x = p ∨ before h x p.
Proof.
  intros Hs E. assert (El : l = rev r ++ [p]) by (rewrite <- (rev_involutive l), E; done). rewrite El. split; [apply elem_of_app; right; by left|].
  intros x [Hx|Hx%list_elem_of_singleton]%elem_of_app; [|by left]. right. rewrite El in Hs. clear - Hs Hx. unfold ordered in Hs.
  induction (rev r) as [|y l IH]; [by apply elem_of_nil in Hx|]. cbn [app] in Hs. apply StronglySorted_inv in Hs as [Hs Hall].
  apply elem_of_cons in Hx as [->|Hx]; [|by apply IH]. rewrite Forall_forall in Hall. apply Hall, elem_of_app. right. by left.
Qed.
End Candidates.

(** Entries of the set that keep what the comparator reads. *)
Lemma ordered_frame h h' l : (∀ p, p ∈ l → ∃ n n', h !! p = Some n ∧ h' !! p = Some n' ∧ nChainWork n = nChainWork n' ∧ nSequenceId n = nSequenceId n') →
  ordered h l → ordered h' l.
Proof.
  intros Hf. unfold ordered. induction 1 as [|x l _ IH Hall]; constructor; [apply IH; intros p Hp; apply Hf; by right|].
  rewrite Forall_forall in Hall |- *. intros y Hy. specialize (Hall y Hy). destruct (Hf x (list_elem_of_here _ _)) as (n & n' & E1 & E2 & E3 & E4).
  destruct (Hf y ltac:(by right)) as (m & m' & F1 & F2 & F3 & F4). unfold before, compare in *. rewrite E1, F1 in Hall. rewrite E2, F2. cbn [mbind option_bind] in *.
  unfold WorkComparator in *. by rewrite <- E3, <- E4, <- F3, <- F4.
Qed.
Lemma tree_works t : tree_ok t → works_ok (nodes t).
Proof. intros Ht p n E. apply (to_accounted t Ht p n E). Qed.

(** ** The invariant *)

(** [nChainTx] is set when the entry and all before it have their transactions, and counts them. *)
Definition counted (h : heap) (n : CBlockIndex) : Prop :=
  0 ≤ nTx n < 4294967296 ∧
  nChainTx n = if nTx n =? 0 then 0 else
    match pprev n with
    | None => nTx n
    | Some q => match h !! q with Some m => if nChainTx m =? 0 then 0 else nChainTx m + nTx n | None => 0 end
    end.
(** An entry whose transactions are there and that waits for its parent. *)
Definition waits_for (h : heap) (p q : ptr) : Prop :=
  ∃ n m, h !! p = Some n ∧ pprev n = Some q ∧ nTx n ≠ 0 ∧ h !! q = Some m ∧ nChainTx m = 0.
(** No chain of the tree has 2^32 transactions. *)
Fixpoint path_txs (h : heap) (fuel : nat) (p : ptr) : Z :=
  match h !! p with
  | None => 0
  | Some n => nTx n + match pprev n, fuel with Some q, S fuel => path_txs h fuel q | _, _ => 0 end
  end.
Definition txs_fit (h : heap) : Prop := ∀ p n, h !! p = Some n → path_txs h (Z.to_nat (nHeight n)) p < 4294967296.
(** The targets are 32-bit words. *)
Definition bits_ok (h : heap) : Prop := ∀ p n, h !! p = Some n → is_u32 (IndexBits n).
(** An entry that will never be linked: it or an entry before it failed before its transactions came. *)
Definition blocked (h : heap) (p : ptr) : Prop :=
  ∃ k q m, up h k p = Some q ∧ h !! q = Some m ∧ fFailedChain m = true ∧ nTx m = 0.

(** The first entry of the queue comes after entries that are linked. *)
Record ready (h : heap) (n : CBlockIndex) : Prop := {
  rd_txs : 0 < nTx n < 4294967296; rd_unlinked : nChainTx n = 0; rd_sound : fFailedChain n = false;
  rd_parent : ∀ q, pprev n = Some q → ∃ m, h !! q = Some m ∧ nChainTx m ≠ 0 }.
(** The invariant while the entries of [queue] are about to be linked. *)
Record blocks_ok_but (queue : list ptr) (s : BlockState) : Prop := {
  bk_tree : tree_ok (tree s);
  bk_valid : ∀ p n, nodes (tree s) !! p = Some n → BLOCK_VALID_TREE ≤ Z.land (nStatus n) BLOCK_VALID_MASK;
  bk_data : ∀ p n, nodes (tree s) !! p = Some n → fMissingData n = true ↔ nTx n = 0;
  bk_active : chainActive s = [] ∨ ∃ tip n, nodes (tree s) !! tip = Some n ∧ chainActive s = full_chain (nodes (tree s)) tip n ∧ nChainTx n ≠ 0;
  bk_queue : NoDup queue ∧ ∀ p, p ∈ queue → is_Some (nodes (tree s) !! p);
  bk_txs : ∀ p n, nodes (tree s) !! p = Some n → (p ∈ queue ∧ ready (nodes (tree s)) n) ∨ (p ∉ queue ∧ counted (nodes (tree s)) n);
  bk_blocked : ∀ p n, nodes (tree s) !! p = Some n → fFailedChain n = true → nChainTx n = 0 → blocked (nodes (tree s)) p;
  bk_unlinked : ∀ k p, (k, p) ∈ mapBlocksUnlinked s → ∃ q, k = Some q ∧ waits_for (nodes (tree s)) p q;
  bk_once : NoDup (map snd (mapBlocksUnlinked s));
  bk_waiting : ∀ p q m, waits_for (nodes (tree s)) p q → nodes (tree s) !! q = Some m → fFailedChain m = false → (Some q, p) ∈ mapBlocksUnlinked s;
  bk_ordered : ordered (nodes (tree s)) (setBlockIndexCandidates s);
  bk_candidates : ∀ p, p ∈ setBlockIndexCandidates s → ∃ n, nodes (tree s) !! p = Some n ∧ nChainTx n ≠ 0 ∧
    worse_than_tip (nodes (tree s)) (chainActive s) p = Some false;
  bk_complete : ∀ p n, nodes (tree s) !! p = Some n → nChainTx n ≠ 0 → worse_than_tip (nodes (tree s)) (chainActive s) p = Some false →
    fFailedChain n = false → p ∈ setBlockIndexCandidates s }.
Definition blocks_ok : BlockState → Prop := blocks_ok_but [].

(** ** Proofs: counting *)
Lemma length_full_chain_pos h p n : length (full_chain h p n) ≠ 0%nat.
Proof. rewrite length_full_chain. lia. Qed.
Lemma Tip_full_chain h p n : 0 ≤ nHeight n → Tip (full_chain h p n) = Some p.
Proof.
  intros Hn. unfold Tip, at_height. rewrite length_full_chain. replace (0 <? Z.of_nat (S (Z.to_nat (nHeight n)))) with true by lia.
  replace (_ || _) with false by lia. rewrite full_chain_lookup by lia. by replace (Z.to_nat (nHeight n) - Z.to_nat (Z.of_nat (S (Z.to_nat (nHeight n))) - 1))%nat with 0%nat by lia.
Qed.

Section Counting.
Context (h : heap) (Hl : linked h).
(** Entries that are linked are counted, and so are those before them. *)
Context (Hc : ∀ p n, h !! p = Some n → nChainTx n ≠ 0 → counted h n).

Lemma linked_parent p n q : h !! p = Some n → nChainTx n ≠ 0 → pprev n = Some q →
  ∃ m, h !! q = Some m ∧ nChainTx m ≠ 0 ∧ nTx n ≠ 0 ∧ nChainTx n = nChainTx m + nTx n.
Proof.
  intros Hp Hn Hq. destruct (Hc p n Hp Hn) as [_ H]. rewrite Hq in H. destruct (Z.eqb_spec (nTx n) 0); [lia|].
  destruct (h !! q) as [m|]; [|lia]. destruct (Z.eqb_spec (nChainTx m) 0); [lia|]. by exists m.
Qed.
Lemma linked_has_txs p n : h !! p = Some n → nChainTx n ≠ 0 → nTx n ≠ 0.
Proof. intros Hp Hn. destruct (Hc p n Hp Hn) as [_ H]. destruct (Z.eqb_spec (nTx n) 0); lia. Qed.
Lemma linked_up k p n q : h !! p = Some n → nChainTx n ≠ 0 → up h k p = Some q → ∃ m, h !! q = Some m ∧ nChainTx m ≠ 0 ∧ nTx m ≠ 0.
Proof.
  revert p n. induction k as [|k IH]; intros p n Hp Hn; cbn [up].
  - intros [= <-]. exists n. split_and!; [done..|by eapply linked_has_txs].
  - rewrite Hp. cbn [mbind option_bind]. destruct (pprev n) as [r|] eqn:Er; [|done]. cbn [mbind option_bind].
    destruct (linked_parent p n r Hp Hn Er) as (m & Hm & Hm' & _). by apply (IH r m).
Qed.
Lemma linked_path p n : h !! p = Some n → nChainTx n ≠ 0 → nChainTx n = path_txs h (Z.to_nat (nHeight n)) p ∧ 0 < nChainTx n.
Proof.
  remember (Z.to_nat (nHeight n)) as k eqn:Ek. revert p n Ek. induction k as [|k IH]; intros p n Ek Hp Hn; cbn [path_txs]; rewrite Hp.
  - destruct (Hl p n Hp) as [H0 _ H2 _]. destruct (pprev n) as [q|] eqn:Eq.
    + destruct (H2 q eq_refl) as (m & Hm & Hh). pose proof (nl_height _ _ _ (Hl q m Hm)). lia.
    + destruct (Hc p n Hp Hn) as [Hr H]. rewrite Eq in H. destruct (Z.eqb_spec (nTx n) 0); lia.
  - destruct (Hl p n Hp) as [H0 H1 H2 _]. destruct (pprev n) as [q|] eqn:Eq; [|specialize (H1 eq_refl); lia].
    destruct (H2 q eq_refl) as (m & Hm & Hh). destruct (linked_parent p n q Hp Hn Eq) as (m' & Hm' & Hmc & _ & E). replace m' with m in * by congruence.
    destruct (IH q m ltac:(lia) Hm Hmc) as [E1 E2]. destruct (Hc p n Hp Hn) as [Hr _]. lia.
Qed.
End Counting.

(** The sum does not depend on what linking changes. *)
Lemma path_txs_frame h h' k p : (∀ q, option_Forall2 (λ n n', nTx n = nTx n' ∧ pprev n = pprev n') (h !! q) (h' !! q)) →
  path_txs h k p = path_txs h' k p.
Proof.
  intros H. revert p. induction k as [|k IH]; intros p; cbn [path_txs]; pose proof (H p) as Hp; inversion Hp as [n n' [E1 E2] E E'|E E']; try done.
  - rewrite E1, E2. done.
  - rewrite E1, E2. by destruct (pprev n'); [rewrite IH|].
Qed.

(** The comparison with the tip, when the fields that it reads stay. *)
Lemma worse_frame h h' c p : (∀ q, q = p ∨ Tip c = Some q → ∃ n n', h !! q = Some n ∧ h' !! q = Some n' ∧ nChainWork n = nChainWork n' ∧ nSequenceId n = nSequenceId n') →
  worse_than_tip h' c p = worse_than_tip h c p.
Proof.
  intros H. unfold worse_than_tip. destruct (Tip c) as [tip|]; [|done]. unfold compare.
  destruct (H p ltac:(by left)) as (n & n' & -> & -> & E1 & E2). destruct (H tip ltac:(by right)) as (m & m' & -> & -> & F1 & F2). cbn [mbind option_bind].
  unfold WorkComparator. by rewrite E1, E2, F1, F2.
Qed.

(** ** Proofs: entries whose links stay *)
Record kept_entry (n n' : CBlockIndex) : Prop := { ke_place : same_place n n'; ke_chain : nChainTx n = nChainTx n'; ke_sequence : nSequenceId n = nSequenceId n' }.
Definition kept (h h' : heap) : Prop := ∀ p, option_Forall2 kept_entry (h !! p) (h' !! p).
#[global] Instance kept_equivalence : Equivalence kept.
Proof.
  split; [intros h p|intros h h' H p; specialize (H p)|intros h1 h2 h3 H1 H2 p; specialize (H1 p); specialize (H2 p)].
  - destruct (h !! p); constructor. by split.
  - destruct H as [n n' []|]; constructor. by split; symmetry.
  - destruct H1 as [n n' []|]; inversion H2 as [m m' [P C S] E E'|E E']; subst; constructor. split; [by etransitivity|congruence..].
Qed.
Lemma kept_insert h p n n' : h !! p = Some n → kept_entry n n' → kept h (<[p := n']> h).
Proof.
  intros Hp Hk q. destruct (decide (p = q)) as [<-|Hne]; [rewrite Hp, lookup_insert_eq; by constructor|]. rewrite lookup_insert_ne by done.
  destruct (h !! q); constructor. by split.
Qed.
Lemma kept_shape h h' : kept h h' → same_shape h h'.
Proof. intros H p. specialize (H p). destruct H as [n n' []|]; by constructor. Qed.
Lemma kept_fwd h h' p n : kept h h' → h !! p = Some n → ∃ n', h' !! p = Some n' ∧ kept_entry n n'.
Proof. intros H E. specialize (H p). rewrite E in H. inversion H; subst. by eexists. Qed.
#[global] Instance compare_proper : Proper (kept ==> eq ==> eq ==> eq) compare.
Proof.
  intros h h' H a ? <- b ? <-. unfold compare. pose proof (H a) as Ha. pose proof (H b) as Hb.
  destruct Ha as [na na' [Pa _ Sa]|]; [|done]. destruct Hb as [nb nb' [Pb _ Sb]|]; [|done]. cbn [mbind option_bind]. unfold WorkComparator.
  by rewrite (sp_work _ _ Pa), (sp_work _ _ Pb), Sa, Sb.
Qed.
#[global] Instance worse_proper : Proper (kept ==> eq ==> eq ==> eq) worse_than_tip.
Proof. intros h h' H c ? <- p ? <-. unfold worse_than_tip. destruct (Tip c); [by rewrite H|done]. Qed.
Lemma kept_ordered h h' l : kept h h' → ordered h l → ordered h' l.
Proof. intros H. unfold ordered. induction 1 as [|a l _ IH Hall]; constructor; [done|]. eapply list.Forall_impl; [exact Hall|]. intros b Hb. unfold before in *. by rewrite <- H. Qed.
#[global] Instance counted_proper : Proper (kept ==> eq ==> iff) counted.
Proof.
  intros h h' H n ? <-. unfold counted. destruct (pprev n) as [q|]; [|done]. pose proof (H q) as Hq. destruct Hq as [m m' [_ C _]|]; [|done]. by rewrite C.
Qed.
Lemma works_shape h h' : same_shape h h' → works_ok h → works_ok h'.
Proof. intros H Hw p n' E. destruct (shape_bwd _ _ _ _ H E) as (n & E0 & Hs). rewrite <- (sp_work _ _ Hs). by apply (Hw p). Qed.

(** The invariant reads some parts of the state. *)
Lemma blocks_ok_ext queue s s' : nodes (tree s') = nodes (tree s) → mapBlockIndex (tree s') = mapBlockIndex (tree s) →
  pindexBestHeader (tree s') = pindexBestHeader (tree s) → chainActive s' = chainActive s → setBlockIndexCandidates s' = setBlockIndexCandidates s →
  mapBlocksUnlinked s' = mapBlocksUnlinked s → blocks_ok_but queue s → blocks_ok_but queue s'.
Proof.
  intros E1 E2 E3 E4 E5 E6 []. split; rewrite ?E1, ?E4, ?E5, ?E6; try done. apply (shape_tree_ok (tree s)); [by rewrite E1|done..].
Qed.

(** ** Proofs: the tip moves to a candidate *)
Lemma prune_loop_spec h tip l : works_ok h → is_Some (h !! tip) → present h l → ordered h l →
  prune_loop h tip l = Some (filter (λ p, compare h p tip = Some false) l).
Proof.
  intros Hw Ht. unfold ordered. induction l as [|p l IH]; intros Hl Hs; [done|]. cbn [prune_loop]. apply StronglySorted_inv in Hs as [Hs Hall].
  destruct (compare_def h p tip (Hl p ltac:(by left)) Ht) as [b E]. rewrite E. cbn [mbind option_bind]. rewrite filter_cons, E. destruct b.
  - rewrite decide_False by done. apply IH; [|done]. intros q Hq. apply Hl. by right.
  - rewrite decide_True by done. do 2 f_equal. symmetry. apply filter_keep. intros q Hq. rewrite Forall_forall in Hall.
    destruct (compare_def h q tip (Hl q ltac:(by right)) Ht) as [c Ec]. destruct c; [|done]. exfalso.
    assert (Hb : before h p tip) by (apply (before_trans h Hw p q tip); [by apply Hall|done]). unfold before in Hb. congruence.
Qed.
(** The tip moves to a candidate: those worse than it go, and the others are kept. *)
Lemma new_tip_spec s p n : blocks_ok s → p ∈ setBlockIndexCandidates s → nodes (tree s) !! p = Some n →
  let c := full_chain (nodes (tree s)) p n in
  let s' := set_candidates (set_active s c) (filter (λ q, compare (nodes (tree s)) q p = Some false) (setBlockIndexCandidates s)) in
  SetTip (nodes (tree s)) (chainActive s) (Some p) = Some c ∧ PruneBlockIndexCandidates (set_active s c) = Some s' ∧ blocks_ok s' ∧
  p ∈ setBlockIndexCandidates s'.
Proof.
  intros Hs Hin Hp c s'. pose proof (to_linked _ (bk_tree _ _ Hs)) as Hl. pose proof (tree_works _ (bk_tree _ _ Hs)) as Hw.
  assert (Htip : Tip c = Some p) by (apply Tip_full_chain, (nl_height _ _ _ (Hl p n Hp))).
  assert (Hpres : present (nodes (tree s)) (setBlockIndexCandidates s)).
  { intros q Hq. destruct (bk_candidates _ _ Hs q Hq) as (m & Hm & _). by exists m. }
  assert (Hself : compare (nodes (tree s)) p p = Some false).
  { destruct (compare_def _ p p (Hpres p Hin) (Hpres p Hin)) as [[] E]; [by destruct (before_irrefl _ Hw p)|done]. }
  assert (Hpin : p ∈ setBlockIndexCandidates s') by (apply list_elem_of_filter; done).
  destruct (bk_candidates _ _ Hs p Hin) as (m & Hm & Hc & Hworse). replace m with n in * by congruence. clear m Hm. split_and!.
  - apply SetTip_spec; [done| |done]. destruct (bk_active _ _ Hs) as [->|(t & m & Hm & -> & _)]; [by left|right; by exists t, m].
  - unfold PruneBlockIndexCandidates. cbn [set_active chainActive tree setBlockIndexCandidates]. rewrite Htip. cbn [mbind option_bind].
    rewrite prune_loop_spec by first [done | by exists n | exact (bk_ordered _ _ Hs)]. cbn [mbind option_bind].
    change (match setBlockIndexCandidates s' with [] => None | _ => Some (set_candidates (set_active s c) (setBlockIndexCandidates s')) end = Some s').
    destruct (setBlockIndexCandidates s') eqn:E; [by apply elem_of_nil in Hpin|by rewrite <- E].
  - destruct Hs as [B1 B2 B3 B4 B5 B6 B7 B8 B9 B10 B11 Bcand Bcomp]. split; try done.
    + right. by exists p, n.
    + by apply ordered_filter.
    + intros q [Hcmp Hq]%list_elem_of_filter. destruct (Bcand q Hq) as (m & Hm & Hmc & _). exists m. split_and!; [done..|].
      change (worse_than_tip (nodes (tree s)) c q = Some false). unfold worse_than_tip. by rewrite Htip.
    + intros q m Hm Hmc Hqw Hf. change (worse_than_tip (nodes (tree s)) c q = Some false) in Hqw. change (nodes (tree s) !! q = Some m) in Hm. unfold worse_than_tip in Hqw. rewrite Htip in Hqw. apply list_elem_of_filter. split; [done|].
      apply (Bcomp q m); try done. unfold worse_than_tip in *. destruct (Tip (chainActive s)) as [t|]; [|done].
      assert (Ht : is_Some (nodes (tree s) !! t)) by (unfold compare in Hworse; rewrite Hp in Hworse; destruct (nodes (tree s) !! t); [by eexists|done]).
      destruct (compare_def _ q t ltac:(by exists m) Ht) as [[] E]; [|done]. exfalso. destruct (decide (q = p)) as [->|Hqp]; [congruence|].
      destruct (before_total _ Hw q p ltac:(by exists m) ltac:(by exists n) Hqp) as [Hb|Hb]; [unfold before in Hb; congruence|].
      assert (Hb' : before (nodes (tree s)) p t) by (by apply (before_trans _ Hw p q t)). unfold before in Hb'. congruence.
  - done.
Qed.
