(* ===== verification/Linking.v ===== *)
(** * Blocks that arrive: [ReceivedBlockTransactions] (src/src/validation.cpp)

    The loop over the queue keeps the invariant of ForkChoice.v for all entries but those of the queue; it
    ends, since each round takes an entry of the queue or of those that wait.  The theorem says
    what an entry holds after its block arrived and which entries are then candidates. *)

From stdpp Require Import base numbers list option gmap sorting.
From Stdlib Require Import ZArith Lia ZifyNat ZifyBool.
From S2P Require Import Prelude Transaction ArithUint256 Block BlockIndex Chain Pow VersionBits Validation BlockCheck ForkChoice.
Import Arith256.

(** ** Proofs: linking *)
Record relinked_entry (n n' : CBlockIndex) : Prop := { rl_place : same_place n n'; rl_txs : nTx n = nTx n'; rl_status : nStatus n = nStatus n';
  rl_file : nFile n = nFile n'; rl_data : nDataPos n = nDataPos n'; rl_undo : nUndoPos n = nUndoPos n' }.
Definition relinked (h h' : heap) : Prop := ∀ p, option_Forall2 relinked_entry (h !! p) (h' !! p).
Lemma relinked_refl h : relinked h h.
Proof. intros p. destruct (h !! p); constructor. by split. Qed.
Lemma relinked_trans h1 h2 h3 : relinked h1 h2 → relinked h2 h3 → relinked h1 h3.
Proof.
  intros H1 H2 p. specialize (H1 p). specialize (H2 p). destruct H1 as [n n' [P1 T1 S1 ? ? ?]|]; inversion H2 as [m m' [P2 T2 S2 ? ? ?] E2 E2'|E2 E2']; subst; constructor.
  split; [by etransitivity|congruence..].
Qed.
Lemma relinked_shape h h' : relinked h h' → same_shape h h'.
Proof. intros H p. specialize (H p). destruct H as [n n' []|]; by constructor. Qed.
Lemma fit_frame h h' : (∀ q, option_Forall2 (λ n n', nTx n = nTx n' ∧ pprev n = pprev n' ∧ nHeight n = nHeight n') (h !! q) (h' !! q)) → txs_fit h → txs_fit h'.
Proof.
  intros H Hf p n' E. pose proof (H p) as Hp. rewrite E in Hp. inversion Hp as [n n2 [T [P S]] E0 E'|]; subst. rewrite <- S.
  rewrite <- (path_txs_frame h h'); [by apply Hf|]. intros q. specialize (H q). destruct H as [m m' (? & ? & ?)|]; by constructor.
Qed.
Lemma relinked_fit h h' : relinked h h' → txs_fit h → txs_fit h'.
Proof. intros H. apply fit_frame. intros q. specialize (H q). destruct H as [m m' [[] ? ? ? ? ?]|]; by constructor. Qed.
(** Parts of the state that linking leaves. *)
Record same_others (s s' : BlockState) : Prop := {
  so_map : mapBlockIndex (tree s') = mapBlockIndex (tree s); so_best : pindexBestHeader (tree s') = pindexBestHeader (tree s);
  so_dirty : setDirtyBlockIndex (tree s') = setDirtyBlockIndex (tree s); so_active : chainActive s' = chainActive s;
  so_invalid : pindexBestInvalid s' = pindexBestInvalid s; so_failed : g_failed_blocks s' = g_failed_blocks s; so_warnings : warnings s' = warnings s }.
#[global] Instance same_others_preorder : PreOrder same_others.
Proof. split; [by intros s|]. intros s1 s2 s3 [] []. split; congruence. Qed.

Section LinkStep.
Context (s : BlockState) (p : ptr) (queue : list ptr) (Hs : blocks_ok_but (p :: queue) s) (Hfit : txs_fit (nodes (tree s))).
Let h : heap := nodes (tree s).
Context (n : CBlockIndex) (Hp : h !! p = Some n).

Lemma step_ready : ready h n.
Proof. destruct (bk_txs _ _ Hs p n Hp) as [[_ H]|[H _]]; [done|]. destruct H. by left. Qed.
Lemma step_counted : ∀ r nr, h !! r = Some nr → nChainTx nr ≠ 0 → counted h nr.
Proof. intros r nr Hr Hc. destruct (bk_txs _ _ Hs r nr Hr) as [[_ H]|[_ H]]; [|done]. by destruct (rd_unlinked _ _ H). Qed.
Lemma step_linked : linked h.
Proof. apply (to_linked _ (bk_tree _ _ Hs)). Qed.
(** What the entry counts after it is linked. *)
Lemma step_prev : ∃ prev, parent_chain_tx h n = Some prev ∧ 0 ≤ prev ∧ prev + nTx n < 4294967296 ∧
  match pprev n with None => prev = 0 | Some q => q ≠ p ∧ ∃ m, h !! q = Some m ∧ prev = nChainTx m ∧ nChainTx m ≠ 0 end.
Proof.
  destruct step_ready as [Ht Hu _ Hpar]. unfold parent_chain_tx. pose proof (Hfit p n Hp) as Hf. pose proof (step_linked p n Hp) as [H0 H1 H2 _].
  destruct (pprev n) as [q|] eqn:Eq.
  - destruct (Hpar q eq_refl) as (m & Hm & Hmc). rewrite Hm. cbn [mbind option_bind]. exists (nChainTx m). split; [done|].
    destruct (linked_path h step_linked step_counted q m Hm Hmc) as [E Hpos]. destruct (H2 q eq_refl) as (m' & Hm' & Hh). replace m' with m in * by congruence.
    pose proof (nl_height _ _ _ (step_linked q m Hm)). replace (Z.to_nat (nHeight n)) with (S (Z.to_nat (nHeight m))) in Hf by lia.
    cbn [path_txs] in Hf. fold h in Hf. rewrite Hp, Eq in Hf. fold h in E. split; [lia|]. split; [lia|]. split; [congruence|]. by exists m.
  - exists 0. split_and!; [done|lia|lia|done].
Qed.

Context (prev : Z) (Hprev : parent_chain_tx h n = Some prev) (Hp0 : 0 ≤ prev) (Hp1 : prev + nTx n < 4294967296)
  (Hp2 : match pprev n with None => prev = 0 | Some q => q ≠ p ∧ ∃ m, h !! q = Some m ∧ prev = nChainTx m ∧ nChainTx m ≠ 0 end).
Let n' : CBlockIndex := set_chain n (u32 (prev + nTx n)) (nBlockSequenceId s).
Let h' : heap := <[p := n']> h.

Lemma step_chain_tx : nChainTx n' = prev + nTx n ∧ nChainTx n' ≠ 0.
Proof.
  destruct (rd_txs _ _ step_ready). unfold n'. cbn [nChainTx set_chain]. assert (u32 (prev + nTx n) = prev + nTx n) as -> by (apply u32_small; unfold is_u32; lia). lia.
Qed.
Lemma step_cases r m : h' !! r = Some m → (r = p ∧ m = n') ∨ (r ≠ p ∧ h !! r = Some m).
Proof. unfold h'. intros [[-> <-]|[Hne E]]%lookup_insert_Some; [by left|right; by split]. Qed.
Lemma step_other r : r ≠ p → h' !! r = h !! r.
Proof. intros Hne. by apply lookup_insert_ne. Qed.
Lemma step_relinked : relinked h h'.
Proof.
  intros r. destruct (decide (r = p)) as [->|Hne]; [unfold h'; rewrite Hp, lookup_insert_eq; by repeat constructor|].
  rewrite step_other by done. apply relinked_refl.
Qed.
Lemma step_unlinked r m : h !! r = Some m → nChainTx m ≠ 0 → r ≠ p.
Proof. intros Hr Hm ->. apply Hm. replace m with n by congruence. apply (rd_unlinked _ _ step_ready). Qed.
Lemma step_tip tip : Tip (chainActive s) = Some tip → tip ≠ p ∧ is_Some (h !! tip).
Proof.
  intros E. destruct (bk_active _ _ Hs) as [E'|(t & m & Hm & E' & Hc)]; rewrite E' in E; [done|].
  rewrite Tip_full_chain in E by (apply (nl_height _ _ _ (step_linked t m Hm))). injection E as <-. split; [by eapply step_unlinked|by exists m].
Qed.
Lemma step_worse r : r ≠ p → is_Some (h !! r) → worse_than_tip h' (chainActive s) r = worse_than_tip h (chainActive s) r.
Proof.
  intros Hne [m Hm]. apply worse_frame. intros q [->|Hq].
  - exists m, m. rewrite step_other by done. done.
  - destruct (step_tip q Hq) as [Hqp [mq Hmq]]. exists mq, mq. rewrite step_other by done. done.
Qed.
Lemma step_worse_def : ∃ b, worse_than_tip h' (chainActive s) p = Some b.
Proof.
  unfold worse_than_tip. destruct (Tip (chainActive s)) as [tip|] eqn:E; [|by eexists]. destruct (step_tip tip E) as [Hne Ht].
  apply compare_def; [unfold h'; rewrite lookup_insert_eq; by eexists|by rewrite step_other].
Qed.
Lemma step_waits r q : waits_for h' r q → q ≠ p ∧ waits_for h r q.
Proof.
  intros (nr & m & Hr & Hq & Ht & Hm & Hc). destruct (step_cases q m Hm) as [[-> ->]|[Hne Hm']]; [by destruct step_chain_tx|]. split; [done|].
  destruct (step_cases r nr Hr) as [[-> ->]|[Hne' Hr']]; [by exists n, m|by exists nr, m].
Qed.
Lemma step_waiting r q : waits_for h r q → r ≠ p.
Proof. intros (nr & m & Hr & Hq & Ht & Hm & Hc) ->. replace nr with n in * by congruence. destruct (rd_parent _ _ step_ready q Hq) as (m' & Hm' & Hc'). congruence. Qed.

(** The entries that waited for this one. *)
Let children : list ptr := map snd (filter (λ e, fst e = Some p) (mapBlocksUnlinked s)).
Lemma step_child r : r ∈ children → waits_for h r p.
Proof.
  intros ([k x] & -> & [Hk Hx]%list_elem_of_filter)%list_elem_of_fmap. cbn in Hk. subst k. destruct (bk_unlinked _ _ Hs _ _ Hx) as (q & E & Hw).
  cbn in E. by injection E as <-.
Qed.
Lemma step_child_in r : waits_for h r p → r ∈ children.
Proof.
  intros Hw. apply list_elem_of_fmap. exists (Some p, r). split; [done|]. apply list_elem_of_filter. split; [done|].
  apply (bk_waiting _ _ Hs r p n Hw Hp), (rd_sound _ _ step_ready).
Qed.
(** No entry that waits for a linked one is blocked. *)
Lemma step_not_blocked r : waits_for h r p → ¬ blocked h r.
Proof.
  intros (nr & m & Hr & Hq & Ht & Hm & Hc) (k & q & mq & Hup & Hmq & Hf & Hz). destruct k as [|k]; cbn [up] in Hup; [congruence|].
  rewrite Hr in Hup. cbn [mbind option_bind] in Hup. rewrite Hq in Hup. cbn [mbind option_bind] in Hup.
  destruct k as [|k]; cbn [up] in Hup; [injection Hup as <-; pose proof (rd_sound _ _ step_ready); congruence|].
  rewrite Hp in Hup. cbn [mbind option_bind] in Hup. destruct (pprev n) as [q'|] eqn:Eq; [|done]. cbn [mbind option_bind] in Hup.
  destruct (rd_parent _ _ step_ready q' Eq) as (m' & Hm' & Hc'). destruct (linked_up h step_counted k q' m' q Hm' Hc' Hup) as (x & Hx & _ & Hx'). congruence.
Qed.
Lemma step_queue : NoDup (queue ++ children) ∧ p ∉ queue ++ children.
Proof.
  destruct (bk_queue _ _ Hs) as [[Hpq Hnd]%NoDup_cons Hin].
  assert (Hd : ∀ r, r ∈ children → r ∉ p :: queue).
  { intros r Hr Hq. apply step_child in Hr as (nr & m & Hr & Hpar & _ & Hm & Hc). destruct (bk_txs _ _ Hs r nr Hr) as [[_ Hrd]|[Hn _]]; [|done].
    destruct (rd_parent _ _ Hrd p Hpar) as (m' & Hm' & Hc'). fold h in Hm'. congruence. }
  split; [|rewrite elem_of_app; intros [Hq|Hq]; [done|apply (Hd p Hq); by left]].
  apply NoDup_app. split; [done|]. split; [intros r Hr Hc; apply (Hd r Hc); by right|].
  unfold children. eapply sublist_NoDup; [apply (bk_once _ _ Hs)|]. apply fmap_sublist, sublist_filter.
Qed.

(** What the entries owe the set of candidates. *)
Lemma step_txs r m : h' !! r = Some m → (r ∈ queue ++ children ∧ ready h' m) ∨ (r ∉ queue ++ children ∧ counted h' m).
Proof.
  assert (Hkeep : ∀ m, ready h m → ready h' m).
  { intros m' [H1 H2 H3 H4]. split; [done..|]. intros q Hq. destruct (H4 q Hq) as (x & Hx & Hxc). exists x. rewrite step_other; [done|by eapply step_unlinked]. }
  intros [[-> ->]|[Hne Hm]]%step_cases.
  - right. split; [apply step_queue|]. destruct (rd_txs _ _ step_ready). split; [cbn; lia|]. destruct step_chain_tx as [-> _].
    unfold n'. cbn [nTx pprev set_chain]. destruct (Z.eqb_spec (nTx n) 0); [lia|]. destruct (pprev n) as [q|]; [|lia].
    destruct Hp2 as (Hqp & m & Hm & E & Hc). rewrite step_other, Hm by done. rewrite E. by destruct (Z.eqb_spec (nChainTx m) 0).
  - destruct (bk_txs _ _ Hs r m Hm) as [[Hin Hr]|[Hn Hc]].
    + left. split; [|by apply Hkeep]. apply elem_of_app. left. apply elem_of_cons in Hin as [->|]; done.
    + destruct (decide (r ∈ children)) as [Hch|Hch].
      * left. split; [apply elem_of_app; by right|]. pose proof (step_child r Hch) as Hw. pose proof (step_not_blocked r Hw) as Hnb.
        destruct Hw as (x & y & Hx & Hq & Ht & Hy & Hyc). replace x with m in * by congruence. destruct Hc as [Hr Hc]. fold h in Hc. rewrite Hq, Hy, Hyc in Hc.
        assert (Hm0 : nChainTx m = 0) by (destruct (nTx m =? 0); done). split; [lia|done| |].
        -- destruct (fFailedChain m) eqn:E; [|done]. destruct Hnb. by apply (bk_blocked _ _ Hs r m).
        -- intros q Eq. replace q with p in * by congruence. exists n'. unfold h'. rewrite lookup_insert_eq. split; [done|apply step_chain_tx].
      * right. split; [rewrite elem_of_app; intros [|]; [apply Hn; by right|done]|]. destruct Hc as [Hr Hc]. fold h in Hc. split; [done|]. rewrite Hc.
        destruct (Z.eqb_spec (nTx m) 0) as [|Ht]; [done|]. destruct (pprev m) as [q|] eqn:Eq; [|done]. destruct (decide (q = p)) as [->|Hqp].
        -- destruct Hch. apply step_child_in. exists m, n. split_and!; [done..|apply (rd_unlinked _ _ step_ready)].
        -- by rewrite step_other.
Qed.
Lemma step_blocked r m : h' !! r = Some m → fFailedChain m = true → nChainTx m = 0 → blocked h' r.
Proof.
  intros [[-> ->]|[Hne Hm]]%step_cases Hf Hz; [by destruct step_chain_tx|].
  destruct (bk_blocked _ _ Hs r m Hm Hf Hz) as (k & q & x & Hup & Hx & Hxf & Hxz). fold h in Hx. exists k, q, x.
  rewrite <- (up_proper _ _ (relinked_shape _ _ step_relinked) _ _ eq_refl _ _ eq_refl). split; [done|]. rewrite step_other; [done|].
  intros ->. replace x with n in * by congruence. pose proof (rd_txs _ _ step_ready). lia.
Qed.
Lemma step_unlinked_ok u : u = filter (λ e, fst e ≠ Some p) (mapBlocksUnlinked s) →
  (∀ k r, (k, r) ∈ u → ∃ q, k = Some q ∧ waits_for h' r q) ∧ NoDup (map snd u) ∧
  ∀ r q m, waits_for h' r q → h' !! q = Some m → fFailedChain m = false → (Some q, r) ∈ u.
Proof.
  intros ->. split_and!.
  - intros k r [Hk Hin]%list_elem_of_filter. destruct (bk_unlinked _ _ Hs k r Hin) as (q & -> & Hw). exists q. split; [done|]. cbn in Hk.
    pose proof (step_waiting r q Hw) as Hr. destruct Hw as (x & m & Hx & Hq & Ht & Hm & Hc). exists x, m. rewrite !step_other; [done|congruence|done].
  - eapply sublist_NoDup; [apply (bk_once _ _ Hs)|]. apply fmap_sublist, sublist_filter.
  - intros r q m [Hqp Hw]%step_waits Hm Hf. rewrite step_other in Hm by done. apply list_elem_of_filter. split; [cbn; congruence|]. by apply (bk_waiting _ _ Hs r q m).
Qed.
Lemma step_old_candidate r : r ∈ setBlockIndexCandidates s → ∃ m, h !! r = Some m ∧ nChainTx m ≠ 0 ∧ r ≠ p ∧ worse_than_tip h' (chainActive s) r = Some false.
Proof.
  intros Hr. destruct (bk_candidates _ _ Hs r Hr) as (m & Hm & Hc & Hw). pose proof (step_unlinked r m Hm Hc) as Hne. exists m.
  split_and!; [done..|]. rewrite step_worse; [done|done|by exists m].
Qed.
Lemma step_ordered : ordered h' (setBlockIndexCandidates s) ∧ present h' (setBlockIndexCandidates s).
Proof.
  split.
  - apply (ordered_frame h); [|apply (bk_ordered _ _ Hs)]. intros r Hr. destruct (step_old_candidate r Hr) as (m & Hm & _ & Hne & _).
    exists m, m. by rewrite step_other.
  - intros r Hr. destruct (step_old_candidate r Hr) as (m & Hm & _ & Hne & _). exists m. by rewrite step_other.
Qed.

Lemma step_candidates : ∃ b c, worse_than_tip h' (chainActive s) p = Some b ∧
  (if b : bool then Some (setBlockIndexCandidates s) else set_insert h' p (setBlockIndexCandidates s)) = Some c ∧ ordered h' c ∧
  (∀ r, r ∈ c → ∃ m, h' !! r = Some m ∧ nChainTx m ≠ 0 ∧ worse_than_tip h' (chainActive s) r = Some false) ∧
  (∀ r m, h' !! r = Some m → nChainTx m ≠ 0 → worse_than_tip h' (chainActive s) r = Some false → fFailedChain m = false → r ∈ c).
Proof.
  destruct step_worse_def as [b Hb]. exists b. destruct step_ordered as [Ho Hpr].
  assert (Hold : ∀ r, r ∈ setBlockIndexCandidates s → ∃ m, h' !! r = Some m ∧ nChainTx m ≠ 0 ∧ worse_than_tip h' (chainActive s) r = Some false).
  { intros r Hr. destruct (step_old_candidate r Hr) as (m & Hm & Hc & Hne & Hw). exists m. by rewrite step_other. }
  assert (Hall : ∀ r m, h' !! r = Some m → r ≠ p → nChainTx m ≠ 0 → worse_than_tip h' (chainActive s) r = Some false → fFailedChain m = false →
    r ∈ setBlockIndexCandidates s).
  { intros r m Hm Hne Hc Hw Hf. rewrite step_other in Hm by done. rewrite step_worse in Hw by (done || by exists m). by apply (bk_complete _ _ Hs r m). }
  destruct b.
  - exists (setBlockIndexCandidates s). split_and!; [done..|]. intros r m Hm Hc Hw. destruct (decide (r = p)) as [->|Hne]; [congruence|by apply Hall].
  - assert (Ht : works_ok h').
    { intros r m Hm. destruct (shape_bwd _ _ _ _ (relinked_shape _ _ step_relinked) Hm) as (m0 & Hm0 & Hsame). rewrite <- (sp_work _ _ Hsame).
      by apply (tree_works _ (bk_tree _ _ Hs) r). }
    assert (Hin : is_Some (h' !! p)) by (unfold h'; rewrite lookup_insert_eq; by eexists).
    destruct (set_insert_spec h' Ht p _ Hin Hpr Ho) as (c & Hc & Ho' & Hiff). exists c. split_and!; [done..| |].
    + intros r [->|Hr]%Hiff; [|by apply Hold]. exists n'. unfold h' at 1. rewrite lookup_insert_eq. split_and!; [done|apply step_chain_tx|done].
    + intros r m Hm Hc' Hw Hf. apply Hiff. destruct (decide (r = p)) as [->|Hne]; [by left|right; by apply (Hall r m)].
Qed.
Lemma step_active : chainActive s = [] ∨ ∃ tip m, h' !! tip = Some m ∧ chainActive s = full_chain h' tip m ∧ nChainTx m ≠ 0.
Proof.
  destruct (bk_active _ _ Hs) as [|(tip & m & Hm & E & Hc)]; [by left|right]. pose proof (step_unlinked tip m Hm Hc) as Hne. exists tip, m.
  rewrite step_other by done. split_and!; [done| |done]. rewrite E. apply shape_full_chain; [apply relinked_shape, step_relinked|done|by rewrite step_other].
Qed.
Lemma step_status r m : h' !! r = Some m → BLOCK_VALID_TREE ≤ Z.land (nStatus m) BLOCK_VALID_MASK ∧ (fMissingData m = true ↔ nTx m = 0).
Proof.
  intros [[-> ->]|[Hne Hm]]%step_cases; [|by split; [eapply (bk_valid _ _ Hs)|eapply (bk_data _ _ Hs)]]. cbn.
  split; [by eapply (bk_valid _ _ Hs)|by apply (bk_data _ _ Hs p n)].
Qed.
(** One round of the loop. *)
Lemma link_step fuel : nBlockSequenceId s < 2147483647 → ∃ s1, link_blocks (S fuel) s (p :: queue) = link_blocks fuel s1 (queue ++ children) ∧
  blocks_ok_but (queue ++ children) s1 ∧ relinked h (nodes (tree s1)) ∧ same_others s s1 ∧ nBlockSequenceId s1 = nBlockSequenceId s + 1 ∧
  (length (queue ++ children) + length (mapBlocksUnlinked s1) = length queue + length (mapBlocksUnlinked s))%nat.
Proof.
  intros Hseq. destruct step_candidates as (b & c & Hb & Hc & Ho & Hcand & Hcomp).
  set (s1 := mkBlocks (update_entry (tree s) p n') (chainActive s) c (filter (λ e, fst e ≠ Some p) (mapBlocksUnlinked s)) (nBlockSequenceId s + 1)
    (pindexBestInvalid s) (g_failed_blocks s) (warnings s)).
  exists s1. destruct (step_unlinked_ok _ eq_refl) as (Hu1 & Hu2 & Hu3). pose proof (relinked_shape _ _ step_relinked) as Hshape. split_and!.
  - cbn [link_blocks]. fold h. rewrite Hp. cbn [mbind option_bind]. rewrite Hprev. cbn [mbind option_bind]. replace (_ =? _) with false by lia. fold n'.
    cbn [set_sequence set_tree tree nodes update_entry chainActive]. fold h h'. rewrite Hb. cbn [mbind option_bind]. destruct b.
    + injection Hc as <-. done.
    + unfold insert_candidate. cbn [set_sequence set_tree tree nodes update_entry setBlockIndexCandidates]. fold h h'. by rewrite Hc.
  - split; cbn [s1 tree nodes update_entry chainActive setBlockIndexCandidates mapBlocksUnlinked]; fold h h'; try done.
    + by apply (shape_tree_ok (tree s)); [..|apply (bk_tree _ _ Hs)].
    + intros r m Hm. by apply (step_status r m).
    + intros r m Hm. by apply (step_status r m).
    + apply step_active.
    + split; [apply step_queue|]. intros r Hr. apply elem_of_app in Hr as [Hr|Hr].
      * destruct (bk_queue _ _ Hs) as [_ Hin]. destruct (Hin r ltac:(by right)) as [m Hm]. destruct (shape_fwd _ _ _ _ Hshape Hm) as (m' & Hm' & _). by exists m'.
      * destruct (step_child r Hr) as (m & _ & Hm & _). destruct (shape_fwd _ _ _ _ Hshape Hm) as (m' & Hm' & _). by exists m'.
    + apply step_txs.
    + apply step_blocked.
  - apply step_relinked.
  - by split.
  - done.
  - cbn [s1 mapBlocksUnlinked]. rewrite length_app. unfold children. rewrite length_map. clear. induction (mapBlocksUnlinked s) as [|e l IH]; [done|].
    rewrite !filter_cons. destruct (decide (fst e = Some p)) as [E|E]; [rewrite decide_False by tauto|rewrite decide_True by done]; cbn [length]; lia.
Qed.
End LinkStep.

(** The loop ends: each round takes an entry of the queue or of the unlinked ones. *)
Lemma link_blocks_spec fuel s queue : blocks_ok_but queue s → txs_fit (nodes (tree s)) →
  (length queue + length (mapBlocksUnlinked s) ≤ fuel)%nat →
  nBlockSequenceId s + Z.of_nat (length queue + length (mapBlocksUnlinked s)) ≤ 2147483647 →
  ∃ s', link_blocks fuel s queue = Some s' ∧ blocks_ok s' ∧ relinked (nodes (tree s)) (nodes (tree s')) ∧ same_others s s'.
Proof.
  revert s queue. induction fuel as [|fuel IH]; intros s [|p queue] Hs Hfit Hfuel Hseq; cbn [length] in *; try lia.
  1, 2: exists s; split; [done|]; split; [done|]; split; [apply relinked_refl|reflexivity].
  destruct (bk_queue _ _ Hs) as [_ Hin]. destruct (Hin p ltac:(by left)) as [n Hp].
  destruct (step_prev s p queue Hs Hfit n Hp) as (prev & Hprev & H0 & H1 & H2).
  destruct (link_step s p queue Hs n Hp prev Hprev H0 H1 H2 fuel ltac:(lia)) as (s1 & E & Hs1 & Hrel & Hoth & Hseq1 & Hlen).
  destruct (IH s1 _ Hs1 (relinked_fit _ _ Hrel Hfit) ltac:(lia) ltac:(lia)) as (s' & E' & Hs' & Hrel' & Hoth'). exists s'. rewrite E.
  split; [done|]. split; [done|]. split; [by eapply relinked_trans|by transitivity s1].
Qed.

(** ** Proofs: a block arrives *)
Section Receive.
Context (s : BlockState) (Hs : blocks_ok s).
Let h : heap := nodes (tree s).
Context (p : ptr) (n n1 : CBlockIndex) (Hp : h !! p = Some n) (Ht0 : nTx n = 0) (Hf0 : fFailedChain n = false) (Hk : kept_entry n n1)
  (Ht1 : 0 < nTx n1 < 4294967296) (Hf1 : fFailedChain n1 = false) (Hd1 : fMissingData n1 = false)
  (Hv1 : BLOCK_VALID_TREE ≤ Z.land (nStatus n1) BLOCK_VALID_MASK).
Let h1 : heap := <[p := n1]> h.

Lemma receive_kept : kept h h1.
Proof. by apply (kept_insert h p n n1). Qed.
Lemma receive_cases r m : h1 !! r = Some m → (r = p ∧ m = n1) ∨ (r ≠ p ∧ h !! r = Some m).
Proof. unfold h1. intros [[-> <-]|[Hne E]]%lookup_insert_Some; [by left|right; by split]. Qed.
Lemma receive_other r : r ≠ p → h1 !! r = h !! r.
Proof. intros Hne. by apply lookup_insert_ne. Qed.
Lemma blocks_counted r m : h !! r = Some m → counted h m.
Proof. intros Hr. destruct (bk_txs _ _ Hs r m Hr) as [[H _]|[_ H]]; [by apply elem_of_nil in H|done]. Qed.
Lemma receive_chain_tx : nChainTx n = 0 ∧ nChainTx n1 = 0.
Proof. rewrite <- (ke_chain _ _ Hk). destruct (blocks_counted p n Hp) as [_ E]. rewrite Ht0 in E. by split. Qed.
Lemma receive_waits r q : r ≠ p → waits_for h r q ↔ waits_for h1 r q.
Proof.
  intros Hne. unfold waits_for. rewrite receive_other by done. split; intros (m & y & Hm & Hq & Ht & Hy & Hc); exists m.
  - destruct (kept_fwd _ _ _ _ receive_kept Hy) as (y' & Hy' & Hk'). exists y'. split_and!; [done..|]. by rewrite <- (ke_chain _ _ Hk').
  - destruct (kept_fwd _ _ _ _ (symmetry receive_kept) Hy) as (y' & Hy' & Hk'). exists y'. split_and!; [done..|]. by rewrite <- (ke_chain _ _ Hk').
Qed.
Lemma receive_not_waiting q : ¬ waits_for h p q.
Proof. intros (m & y & Hm & _ & Ht & _). congruence. Qed.
Lemma receive_unlinked k r : (k, r) ∈ mapBlocksUnlinked s → r ≠ p ∧ ∃ q, k = Some q ∧ waits_for h1 r q.
Proof.
  intros Hin. destruct (bk_unlinked _ _ Hs k r Hin) as (q & -> & Hw). assert (r ≠ p) by (intros ->; by apply (receive_not_waiting q)).
  split; [done|]. exists q. by rewrite <- receive_waits.
Qed.
Lemma receive_waiting r q m : r ≠ p → waits_for h1 r q → h1 !! q = Some m → fFailedChain m = false → (Some q, r) ∈ mapBlocksUnlinked s.
Proof.
  intros Hne Hw Hm Hf. apply receive_waits in Hw; [|done]. destruct (receive_cases q m Hm) as [[-> ->]|[_ Hm']]; by eapply (bk_waiting _ _ Hs).
Qed.
(** What does not depend on the queue. *)
Lemma receive_ok queue u s1 : nodes (tree s1) = h1 → mapBlockIndex (tree s1) = mapBlockIndex (tree s) → pindexBestHeader (tree s1) = pindexBestHeader (tree s) →
  chainActive s1 = chainActive s → setBlockIndexCandidates s1 = setBlockIndexCandidates s → mapBlocksUnlinked s1 = u →
  queue = [] ∨ queue = [p] → (∀ r m, h1 !! r = Some m → (r ∈ queue ∧ ready h1 m) ∨ (r ∉ queue ∧ counted h1 m)) →
  (∀ k r, (k, r) ∈ u → ∃ q, k = Some q ∧ waits_for h1 r q) → NoDup (map snd u) →
  (∀ r q m, waits_for h1 r q → h1 !! q = Some m → fFailedChain m = false → (Some q, r) ∈ u) → blocks_ok_but queue s1.
Proof.
  intros E1 E2 E3 E4 E5 E6 Hq Htxs Hu1 Hu2 Hu3. pose proof receive_kept as Hkept. pose proof (kept_shape _ _ Hkept) as Hshape. destruct receive_chain_tx as [Hc0 Hc1].
  split; rewrite ?E1, ?E4, ?E5, ?E6; try done.
  - apply (shape_tree_ok (tree s)); [by rewrite E1|done..|apply (bk_tree _ _ Hs)].
  - intros r m [[-> ->]|[_ Hm]]%receive_cases; [done|by apply (bk_valid _ _ Hs r m)].
  - intros r m [[-> ->]|[_ Hm]]%receive_cases; [|by apply (bk_data _ _ Hs r m)]. rewrite Hd1. split; [done|lia].
  - destruct (bk_active _ _ Hs) as [|(tip & m & Hm & E & Hc)]; [by left|right]. destruct (kept_fwd _ _ _ _ Hkept Hm) as (m' & Hm' & Hk'). exists tip, m'.
    split_and!; [done| |by rewrite <- (ke_chain _ _ Hk')]. rewrite E. by apply shape_full_chain.
  - destruct Hq as [-> | ->]; (split; [repeat constructor; apply not_elem_of_nil|]); intros r Hr; [by apply elem_of_nil in Hr|].
    apply list_elem_of_singleton in Hr as ->. exists n1. by apply lookup_insert_eq.
  - intros r m [[-> ->]|[_ Hm]]%receive_cases Hf Hc; [congruence|]. destruct (bk_blocked _ _ Hs r m Hm Hf Hc) as (k & q & x & Hup & Hx & Hxf & Hxt).
    exists k, q, x. rewrite <- (up_proper _ _ Hshape _ _ eq_refl _ _ eq_refl). split_and!; try done. rewrite receive_other; [done|]. intros ->. fold h in Hx. congruence.
  - apply (kept_ordered h); [done|apply (bk_ordered _ _ Hs)].
  - intros r Hr. destruct (bk_candidates _ _ Hs r Hr) as (m & Hm & Hc & Hw). destruct (kept_fwd _ _ _ _ Hkept Hm) as (m' & Hm' & Hk'). exists m'.
    split_and!; [done|by rewrite <- (ke_chain _ _ Hk')|by rewrite <- Hkept].
  - intros r m [[-> ->]|[_ Hm]]%receive_cases Hc Hw Hf; [done|]. apply (bk_complete _ _ Hs r m Hm Hc); [|done]. fold h. by rewrite Hkept.
Qed.
End Receive.

(** *** The status bits *)
Lemma land_lor_other x b m : Z.land b m = 0 → Z.land (Z.lor x b) m = Z.land x m.
Proof. intros E. by rewrite Z.land_lor_distr_l, E, Z.lor_0_r. Qed.
Lemma land_lor_same x b : 0 ≤ b → b ≠ 0 → Z.land (Z.lor x b) b ≠ 0.
Proof.
  intros H0 Hb E. assert (Hbit : Z.testbit (Z.land (Z.lor x b) b) (Z.log2 b) = false) by (rewrite E; apply Z.bits_0).
  rewrite Z.land_spec, Z.lor_spec, Z.bit_log2 in Hbit by lia. rewrite orb_true_r in Hbit. discriminate.
Qed.
Lemma fFailedChain_false n : fFailedChain n = false ↔ Z.land (nStatus n) BLOCK_FAILED_MASK = 0.
Proof. unfold fFailedChain. rewrite negb_false_iff, Z.eqb_eq. done. Qed.
Lemma fMissingData_false n : fMissingData n = false ↔ Z.land (nStatus n) BLOCK_HAVE_DATA ≠ 0.
Proof. unfold fMissingData. apply Z.eqb_neq. Qed.
(** Raising the validity leaves the other bits. *)
Lemma RaiseValidity_bits n level : fFailedChain n = false → 0 ≤ level ≤ BLOCK_VALID_SCRIPTS →
  let n' := fst (RaiseValidity n level) in
  (∃ st, n' = set_status n st) ∧ Z.land (nStatus n') BLOCK_VALID_MASK = Z.max (Z.land (nStatus n) BLOCK_VALID_MASK) level ∧
  ∀ m, m = BLOCK_FAILED_MASK ∨ m = BLOCK_HAVE_DATA → Z.land (nStatus n') m = Z.land (nStatus n) m.
Proof.
  intros Hf Hlevel. unfold RaiseValidity. apply fFailedChain_false in Hf as ->. cbn [Z.eqb negb].
  destruct (Z.ltb_spec (Z.land (nStatus n) BLOCK_VALID_MASK) level) as [Hlt|Hge]; cbn [fst].
  2: { split; [exists (nStatus n); by destruct n|]. split; [lia|done]. }
  split; [by eexists|]. cbn [set_status nStatus]. unfold BLOCK_VALID_SCRIPTS in Hlevel.
  assert (Hl : level = 0 ∨ level = 1 ∨ level = 2 ∨ level = 3 ∨ level = 4 ∨ level = 5) by lia. split.
  - rewrite Z.land_lor_distr_l, <- Z.land_assoc. change (Z.land (u32 _) _) with 0. rewrite Z.land_0_r, Z.lor_0_l, Z.max_r by lia.
    by destruct Hl as [->|[->|[->|[->|[->| ->]]]]].
  - intros m Hm. rewrite land_lor_other, <- Z.land_assoc; [by destruct Hm as [-> | ->]|].
    by destruct Hm as [-> | ->]; destruct Hl as [->|[->|[->|[->|[->| ->]]]]].
Qed.

(** The entry of a block that arrived. *)
Lemma received_entry_spec n block pos w :
  fFailedChain n = false → nChainTx n = 0 → BLOCK_VALID_TREE ≤ Z.land (nStatus n) BLOCK_VALID_MASK → Z.of_nat (length (vtx block)) < 4294967296 →
  let n1 := received_entry n block pos w in
  kept_entry n n1 ∧ nTx n1 = Z.of_nat (length (vtx block)) ∧ nFile n1 = pos_nFile pos ∧ nDataPos n1 = nPos pos ∧ nUndoPos n1 = 0 ∧
  fFailedChain n1 = false ∧ fMissingData n1 = false ∧ BLOCK_VALID_TRANSACTIONS ≤ Z.land (nStatus n1) BLOCK_VALID_MASK.
Proof.
  intros Hf Hc Hv Hlen. unfold received_entry. set (st := if w then _ else _).
  assert (Hst : Z.land st BLOCK_FAILED_MASK = 0 ∧ Z.land st BLOCK_HAVE_DATA ≠ 0).
  { apply fFailedChain_false in Hf. assert (E : Z.land (Z.lor (nStatus n) BLOCK_HAVE_DATA) BLOCK_FAILED_MASK = 0) by by rewrite land_lor_other.
    pose proof (land_lor_same (nStatus n) BLOCK_HAVE_DATA ltac:(done) ltac:(done)). unfold st. destruct w; [|done]. by rewrite !(land_lor_other _ BLOCK_OPT_WITNESS). }
  set (n0 := set_received n _ _ _). destruct Hst as [Hst1 Hst2].
  destruct (RaiseValidity_bits n0 BLOCK_VALID_TRANSACTIONS) as ((st' & E) & Hm & Hb); [by apply fFailedChain_false|done|]. cbv zeta in Hm, Hb.
  assert (Hu : u32 (Z.of_nat (length (vtx block))) = Z.of_nat (length (vtx block))) by (apply u32_small; unfold is_u32; lia).
  cbv zeta. rewrite fFailedChain_false, fMissingData_false, (Hb _ (or_introl eq_refl)), (Hb _ (or_intror eq_refl)), Hm, E. split; [by repeat split|].
  cbn. split_and!; try done. apply Z.le_max_r.
Qed.

(** *** Blocks whose transactions are all there *)
Definition arrived (h : heap) (p : ptr) : Prop := ∀ k q m, up h k p = Some q → h !! q = Some m → nTx m ≠ 0.
Lemma blocks_arrived s p n : blocks_ok s → nodes (tree s) !! p = Some n → nChainTx n ≠ 0 ↔ arrived (nodes (tree s)) p.
Proof.
  intros Hs Hp. set (h := nodes (tree s)) in *. pose proof (to_linked _ (bk_tree _ _ Hs)) as Hl. fold h in Hl.
  assert (Hc : ∀ r m, h !! r = Some m → nChainTx m ≠ 0 → counted h m) by (intros r m Hr _; by apply (blocks_counted s Hs r m)). split.
  - intros Hn k q m Hup Hq. destruct (linked_up h Hc k p n q Hp Hn Hup) as (m' & Hm' & _ & Ht). congruence.
  - remember (Z.to_nat (nHeight n)) as k eqn:Ek. revert p n Ek Hp. induction k as [k IH] using lt_wf_ind. intros p n Ek Hp Ha.
    pose proof (Ha 0%nat p n eq_refl Hp) as Ht. destruct (blocks_counted s Hs p n Hp) as [Hr E]. fold h in E.
    destruct (Z.eqb_spec (nTx n) 0) as [|_]; [done|]. destruct (pprev n) as [q|] eqn:Eq; [|lia].
    destruct (nl_parent _ _ _ (Hl p n Hp) q Eq) as (m & Hm & Hh). pose proof (nl_height _ _ _ (Hl q m Hm)). rewrite Hm in E.
    assert (Hmc : nChainTx m ≠ 0).
    { apply (IH (Z.to_nat (nHeight m)) ltac:(lia) q m eq_refl Hm). intros j x y Hup Hy. apply (Ha (S j) x y); [|done]. cbn [up]. rewrite Hp. cbn [mbind option_bind]. by rewrite Eq. }
    destruct (linked_path h Hl Hc q m Hm Hmc) as [_ Hpos]. destruct (Z.eqb_spec (nChainTx m) 0); lia.
Qed.
(** The candidates among the entries that are not marked as failed. *)
Lemma blocks_candidates s p n : blocks_ok s → nodes (tree s) !! p = Some n → fFailedChain n = false →
  p ∈ setBlockIndexCandidates s ↔ arrived (nodes (tree s)) p ∧ worse_than_tip (nodes (tree s)) (chainActive s) p = Some false.
Proof.
  intros Hs Hp Hf. rewrite <- (blocks_arrived s p n Hs Hp). split.
  - intros Hin. destruct (bk_candidates _ _ Hs p Hin) as (m & Hm & Hc & Hw). by replace m with n in * by congruence.
  - intros [Hc Hw]. by apply (bk_complete _ _ Hs p n).
Qed.

Section Arrival.
Context (s : BlockState) (Hs : blocks_ok s) (block : CBlock) (p : ptr) (pos : CDiskBlockPos) (n : CBlockIndex).
Context (Hp : nodes (tree s) !! p = Some n) (Ht0 : nTx n = 0) (Hf0 : fFailedChain n = false) (Hlen : 0 < Z.of_nat (length (vtx block)) < 4294967296)
  (Hfit : txs_fit (<[p := received_entry n block pos false]> (nodes (tree s)))).

Lemma arrival_entry w : let n1 := received_entry n block pos w in
  kept_entry n n1 ∧ nTx n1 = Z.of_nat (length (vtx block)) ∧ nFile n1 = pos_nFile pos ∧ nDataPos n1 = nPos pos ∧ nUndoPos n1 = 0 ∧
  fFailedChain n1 = false ∧ fMissingData n1 = false ∧ BLOCK_VALID_TRANSACTIONS ≤ Z.land (nStatus n1) BLOCK_VALID_MASK.
Proof.
  apply received_entry_spec; [done| |by apply (bk_valid _ _ Hs p n)|lia]. destruct (blocks_counted s Hs p n Hp) as [_ E]. by rewrite Ht0 in E.
Qed.
Lemma arrival_fit w : txs_fit (<[p := received_entry n block pos w]> (nodes (tree s))).
Proof.
  revert Hfit. apply fit_frame. intros q. destruct (decide (p = q)) as [<-|Hne]; [|rewrite !lookup_insert_ne by done; by destruct (nodes (tree s) !! q); constructor].
  rewrite !lookup_insert_eq. destruct (arrival_entry w) as ([[] _ _] & T & _). destruct (arrival_entry false) as ([[] _ _] & T' & _). constructor.
  split_and!; congruence.
Qed.

Section Entry.
Context (w : bool).
Let n1 : CBlockIndex := received_entry n block pos w.
Let h1 : heap := <[p := n1]> (nodes (tree s)).
(** The block's ancestors are there. *)
Definition parent_linked : Prop := ∀ q, pprev n = Some q → ∃ m, nodes (tree s) !! q = Some m ∧ nChainTx m ≠ 0.
Lemma arrival_others r m : h1 !! r = Some m → r ≠ p → counted h1 m.
Proof.
  intros Hr Hne. destruct (arrival_entry w) as (Hk & _). unfold h1 in Hr. rewrite lookup_insert_ne in Hr by done.
  apply (counted_proper _ _ (kept_insert _ _ _ _ Hp Hk) _ _ eq_refl). by apply (blocks_counted s Hs r).
Qed.
Lemma arrival_queued s1 : parent_linked → nodes (tree s1) = h1 → mapBlockIndex (tree s1) = mapBlockIndex (tree s) →
  pindexBestHeader (tree s1) = pindexBestHeader (tree s) → chainActive s1 = chainActive s →
  setBlockIndexCandidates s1 = setBlockIndexCandidates s → mapBlocksUnlinked s1 = mapBlocksUnlinked s → blocks_ok_but [p] s1.
Proof.
  intros Hpar E1 E2 E3 E4 E5 E6. destruct (arrival_entry w) as (Hk & T & _ & _ & _ & F & D & V). fold n1 in Hk, T, F, D, V.
  assert (Hready : ready h1 n1).
  { split; [lia| |done|].
    - apply (receive_chain_tx s Hs p n n1 Hp Ht0 Hk).
    - intros q Hq. rewrite <- (sp_prev _ _ (ke_place _ _ Hk)) in Hq. destruct (Hpar q Hq) as (m & Hm & Hc). exists m. split; [|done]. unfold h1.
      rewrite lookup_insert_ne; [done|]. intros ->. replace m with n in * by congruence. by destruct (receive_chain_tx s Hs q n n1 Hp Ht0 Hk). }
  apply (receive_ok s Hs p n n1 Hp Ht0 Hf0 Hk ltac:(lia) F D ltac:(unfold BLOCK_VALID_TRANSACTIONS, BLOCK_VALID_TREE in *; lia) [p] (mapBlocksUnlinked s)); try done.
  - by right.
  - intros r m Hr. destruct (decide (r = p)) as [->|Hne].
    + left. split; [by left|]. rewrite lookup_insert_eq in Hr. by injection Hr as <-.
    + right. split; [rewrite list_elem_of_singleton; done|by apply (arrival_others r)].
  - intros k r Hin. by apply (receive_unlinked s Hs p n n1 Hp Ht0 Hk k r).
  - apply (bk_once _ _ Hs).
  - intros r q m Hw Hm Hf. destruct (decide (r = p)) as [->|Hne]; [|by apply (receive_waiting s Hs p n n1 Hp Hf0 Hk r q m)].
    destruct Hw as (x & y & Hx & Hq & _ & Hy & Hc). rewrite lookup_insert_eq in Hx. injection Hx as <-. destruct (rd_parent _ _ Hready q Hq) as (m' & Hm' & Hc').
    unfold h1 in Hm'. congruence.
Qed.
Lemma arrival_parent q : pprev n = Some q → q ≠ p ∧ ∃ m, nodes (tree s) !! q = Some m ∧ h1 !! q = Some m.
Proof.
  intros Hq. destruct (nl_parent _ _ _ (to_linked _ (bk_tree _ _ Hs) p n Hp) q Hq) as (m & Hm & Hh).
  assert (q ≠ p) by (intros ->; replace m with n in * by congruence; lia). split; [done|]. exists m. split; [done|]. unfold h1. by rewrite lookup_insert_ne.
Qed.
Lemma arrival_waiting s1 q m : pprev n = Some q → nodes (tree s) !! q = Some m → nChainTx m = 0 →
  nodes (tree s1) = h1 → mapBlockIndex (tree s1) = mapBlockIndex (tree s) → pindexBestHeader (tree s1) = pindexBestHeader (tree s) →
  chainActive s1 = chainActive s → setBlockIndexCandidates s1 = setBlockIndexCandidates s →
  mapBlocksUnlinked s1 = mapBlocksUnlinked s ++ (if fFailedChain m then [] else [(Some q, p)]) → blocks_ok s1.
Proof.
  intros Hq Hm Hc E1 E2 E3 E4 E5 E6. destruct (arrival_entry w) as (Hk & T & _ & _ & _ & F & D & V). fold n1 in Hk, T, F, D, V.
  destruct (arrival_parent q Hq) as (Hqp & m' & Hm' & Hm1). replace m' with m in * by congruence. clear m' Hm'.
  assert (Hp1 : h1 !! p = Some n1) by apply lookup_insert_eq. assert (Hprev : pprev n1 = Some q) by (by rewrite <- (sp_prev _ _ (ke_place _ _ Hk))).
  assert (Hcount : counted h1 n1) by (split; [lia|]; rewrite (proj2 (receive_chain_tx s Hs p n n1 Hp Ht0 Hk)), Hprev, Hm1, Hc; by destruct (nTx n1 =? 0)).
  assert (Hw : waits_for h1 p q) by (exists n1, m; split_and!; try done; lia).
  apply (receive_ok s Hs p n n1 Hp Ht0 Hf0 Hk ltac:(lia) F D ltac:(unfold BLOCK_VALID_TRANSACTIONS, BLOCK_VALID_TREE in *; lia) []
    (mapBlocksUnlinked s ++ (if fFailedChain m then [] else [(Some q, p)]))); try done.
  - by left.
  - intros r x Hr. right. split; [apply not_elem_of_nil|]. destruct (decide (r = p)) as [->|Hne]; [|by apply (arrival_others r)]. fold h1 in Hr. by replace x with n1 by congruence.
  - intros k r [Hin|Hin]%elem_of_app; [by apply (receive_unlinked s Hs p n n1 Hp Ht0 Hk k r)|].
    destruct (fFailedChain m); [by apply elem_of_nil in Hin|]. apply list_elem_of_singleton in Hin as [= -> ->]. by exists q.
  - rewrite map_app. apply NoDup_app. split; [apply (bk_once _ _ Hs)|]. split; [|destruct (fFailedChain m); [apply NoDup_nil_2|apply NoDup_singleton]].
    intros r Hr Hin. destruct (fFailedChain m); [by apply elem_of_nil in Hin|]. apply list_elem_of_singleton in Hin as ->.
    apply list_elem_of_fmap in Hr as ([k x] & Ex & Hin). cbn in Ex. subst x. by destruct (receive_unlinked s Hs p n n1 Hp Ht0 Hk k p Hin).
  - intros r q' m' Hw' Hm' Hf. apply elem_of_app. destruct (decide (r = p)) as [->|Hne]; [right|left; by apply (receive_waiting s Hs p n n1 Hp Hf0 Hk r q' m')].
    destruct Hw' as (x & y & Hx & Hq' & _). fold h1 in Hx, Hm'. assert (q' = q) as -> by congruence. replace m' with m in * by congruence. rewrite Hf. by left.
Qed.
End Entry.
End Arrival.

(** The rule of witnesses is looked up. *)
Definition segwit_ok (h : heap) (params : Params) (cache : VersionBitsCache) : Prop :=
  0 < i32 (nMinerConfirmationWindow params) ∧
  VersionBits.cache_ok (TC := VersionBitsConditionChecker params DEPLOYMENT_SEGWIT) h (cache DEPLOYMENT_SEGWIT).
Lemma IsWitnessEnabled_total h pindexPrev params cache : linked h → segwit_ok h params cache →
  match pindexPrev with Some p => is_Some (h !! p) | None => True end → ∃ w cache', IsWitnessEnabled h pindexPrev params cache = Some (w, cache').
Proof.
  intros Hl [HP Hc] Hp. destruct (VersionBits.GetStateFor_spec (TC := VersionBitsConditionChecker params DEPLOYMENT_SEGWIT) HP h Hl pindexPrev _ Hc Hp)
    as (st & cache' & E & _). unfold IsWitnessEnabled, VersionBitsState. rewrite E. by do 2 eexists.
Qed.

(** What holds after the block of [p] was received. *)
Record block_received (s s' : BlockState) (p : ptr) (block : CBlock) (pos : CDiskBlockPos) : Prop := {
  br_shape : same_shape (nodes (tree s)) (nodes (tree s'));
  br_entry : ∃ n, nodes (tree s') !! p = Some n ∧ nTx n = Z.of_nat (length (vtx block)) ∧ nFile n = pos_nFile pos ∧ nDataPos n = nPos pos ∧
    nUndoPos n = 0 ∧ fMissingData n = false ∧ BlockIndex.IsValid n BLOCK_VALID_TRANSACTIONS = true;
  br_others : ∀ r m, r ≠ p → nodes (tree s) !! r = Some m → ∃ m', nodes (tree s') !! r = Some m' ∧ nTx m' = nTx m ∧ nStatus m' = nStatus m;
  br_dirty : setDirtyBlockIndex (tree s') = {[p]} ∪ setDirtyBlockIndex (tree s);
  br_rest : mapBlockIndex (tree s') = mapBlockIndex (tree s) ∧ pindexBestHeader (tree s') = pindexBestHeader (tree s) ∧ chainActive s' = chainActive s ∧
    pindexBestInvalid s' = pindexBestInvalid s ∧ g_failed_blocks s' = g_failed_blocks s ∧ warnings s' = warnings s }.

Lemma ReceivedBlockTransactions_spec s block p pos params cache n : blocks_ok s → nodes (tree s) !! p = Some n → nTx n = 0 → fFailedChain n = false →
  0 < Z.of_nat (length (vtx block)) < 4294967296 → txs_fit (<[p := received_entry n block pos false]> (nodes (tree s))) →
  nBlockSequenceId s + 1 + Z.of_nat (length (mapBlocksUnlinked s)) ≤ 2147483647 → segwit_ok (nodes (tree s)) params cache →
  ∃ s' cache', ReceivedBlockTransactions s block p pos params cache = Some (s', cache') ∧ blocks_ok s' ∧ block_received s s' p block pos.
Proof.
  intros Hs Hp Ht0 Hf0 Hlen Hfit Hseq Hseg. pose proof (to_linked _ (bk_tree _ _ Hs)) as Hl.
  assert (Hprev : match pprev n with Some q => is_Some (nodes (tree s) !! q) | None => True end).
  { destruct (pprev n) as [q|] eqn:Eq; [|done]. destruct (nl_parent _ _ _ (Hl p n Hp) q Eq) as (m & Hm & _). by exists m. }
  destruct (IsWitnessEnabled_total _ (pprev n) params cache Hl Hseg Hprev) as (w & cache' & Ew).
  destruct (arrival_entry s Hs block p pos n Hp Ht0 Hf0 Hlen w) as (Hk & T & P1 & P2 & P3 & F & D & V).
  set (n1 := received_entry n block pos w) in *. set (h1 := <[p := n1]> (nodes (tree s))).
  set (s0 := set_tree s (mark_dirty (update_entry (tree s) p n1) p)).
  assert (Eprev : pprev n1 = pprev n) by (symmetry; apply (sp_prev _ _ (ke_place _ _ Hk))).
  assert (Hvalid : ∀ m, fFailedChain m = false → BLOCK_VALID_TRANSACTIONS ≤ Z.land (nStatus m) BLOCK_VALID_MASK → BlockIndex.IsValid m BLOCK_VALID_TRANSACTIONS = true).
  { intros m Hm Hv. unfold BlockIndex.IsValid. apply fFailedChain_false in Hm as ->. cbn. lia. }
  (* the state that the entry reaches, up to the links *)
  assert (Hrec : ∀ s', relinked h1 (nodes (tree s')) → same_others s0 s' → block_received s s' p block pos).
  { intros s' Hrel [O1 O2 O3 O4 O5 O6 O7]. split.
    - transitivity h1; [apply kept_shape, (kept_insert _ _ _ n1 Hp Hk)|by apply relinked_shape].
    - pose proof (Hrel p) as Hr. unfold h1 in Hr. rewrite lookup_insert_eq in Hr. inversion Hr as [x m [Pl Tx St ? ? ?] Ex Em|]; subst x. exists m.
      unfold fMissingData, fFailedChain in *. rewrite <- Tx, <- St in *. split_and!; try congruence. apply Hvalid; unfold fFailedChain; by rewrite <- St.
    - intros r m Hne Hm. pose proof (Hrel r) as Hr. unfold h1 in Hr. rewrite lookup_insert_ne, Hm in Hr by done.
      inversion Hr as [x m' [Pl Tx St ? ? ?] Ex Em|]; subst x. by exists m'.
    - by rewrite O3.
    - done. }
  unfold ReceivedBlockTransactions. rewrite Hp. cbn [mbind option_bind]. rewrite Ew. cbn [mbind option_bind]. fold n1 s0. rewrite Eprev.
  change (nodes (tree s0)) with h1. destruct (pprev n) as [q|] eqn:Eq.
  - destruct (arrival_parent s Hs block p pos n Hp Hf0 w q Eq) as (Hqp & m & Hm & Hm1). fold n1 h1 in Hm1. rewrite Hm1. cbn [mbind option_bind].
    destruct (Z.eqb_spec (nChainTx m) 0) as [Hc|Hc]; cbn [negb].
    + eexists _, cache'. split; [reflexivity|].
      assert (Ev : BlockIndex.IsValid m BLOCK_VALID_TREE = negb (fFailedChain m)).
      { unfold BlockIndex.IsValid, fFailedChain. destruct (negb _); [done|]. pose proof (bk_valid _ _ Hs q m Hm). cbn [negb]. lia. }
      rewrite Ev. split.
      * apply (arrival_waiting s Hs block p pos n Hp Ht0 Hf0 Hlen w _ q m Eq Hm Hc); destruct (fFailedChain m); try done. cbn. by rewrite app_nil_r.
      * destruct (fFailedChain m); (apply Hrec; [apply relinked_refl|by split]).
    + assert (Hpl : parent_linked s n) by (intros r Hr; replace r with q in * by congruence; by exists m).
      pose proof (arrival_queued s Hs block p pos n Hp Ht0 Hf0 Hlen Hfit w s0 Hpl eq_refl eq_refl eq_refl eq_refl eq_refl eq_refl) as Hq.
      destruct (link_blocks_spec (S (length (mapBlocksUnlinked s0))) s0 [p] Hq (arrival_fit s Hs block p pos n Hp Ht0 Hf0 Hlen Hfit w))
        as (s' & E & Hs' & Hrel & Hoth); [done|cbn; lia|]. rewrite E. exists s', cache'. split; [done|]. split; [done|]. by apply Hrec.
  - assert (Hpl : parent_linked s n) by (intros r Hr; congruence). cbn [mbind option_bind].
    pose proof (arrival_queued s Hs block p pos n Hp Ht0 Hf0 Hlen Hfit w s0 Hpl eq_refl eq_refl eq_refl eq_refl eq_refl eq_refl) as Hq.
    destruct (link_blocks_spec (S (length (mapBlocksUnlinked s0))) s0 [p] Hq (arrival_fit s Hs block p pos n Hp Ht0 Hf0 Hlen Hfit w))
      as (s' & E & Hs' & Hrel & Hoth); [done|cbn; lia|]. rewrite E. exists s', cache'. split; [done|]. split; [done|]. by apply Hrec.
Qed.

(** ** Theorem *)

(** C4. Receiving a block.  The entry gets its block: where it lies, the number of its transactions and the
    validity it has reached.  If the blocks before it are there, it and all that waited
    for it are linked, with a count of the transactions of their chain; otherwise it waits.  In the new state the invariant
    holds, so that an entry that is not marked as failed is a candidate for the tip exactly if all the blocks of its
    chain have arrived and it is not worse than the tip; the call always ends. *)
Theorem received_block_correct (s : BlockState) (block : CBlock) (p : ptr) (pos : CDiskBlockPos) (params : Params) (cache : VersionBitsCache) (n : CBlockIndex)
  (Hs : blocks_ok s) (Hp : nodes (tree s) !! p = Some n) (Hnew : nTx n = 0) (Hsound : fFailedChain n = false)
  (Hlen : 0 < Z.of_nat (length (vtx block)) < 4294967296) (Hfit : txs_fit (<[p := received_entry n block pos false]> (nodes (tree s))))
  (Hseq : nBlockSequenceId s + 1 + Z.of_nat (length (mapBlocksUnlinked s)) ≤ 2147483647) (Hsegwit : segwit_ok (nodes (tree s)) params cache) :
  ∃ s' cache', ReceivedBlockTransactions s block p pos params cache = Some (s', cache') ∧ blocks_ok s' ∧ block_received s s' p block pos ∧
    ∀ r m, nodes (tree s') !! r = Some m →
      (nChainTx m ≠ 0 ↔ arrived (nodes (tree s')) r) ∧
      (arrived (nodes (tree s')) r → nChainTx m = path_txs (nodes (tree s')) (Z.to_nat (nHeight m)) r) ∧
      (fFailedChain m = false → r ∈ setBlockIndexCandidates s' ↔
         arrived (nodes (tree s')) r ∧ worse_than_tip (nodes (tree s')) (chainActive s') r = Some false).
Proof.
  destruct (ReceivedBlockTransactions_spec s block p pos params cache n Hs Hp Hnew Hsound Hlen Hfit Hseq Hsegwit) as (s' & cache' & E & Hs' & Hr).
  exists s', cache'. split; [done|]. split; [done|]. split; [done|]. intros r m Hm. pose proof (blocks_arrived s' r m Hs' Hm) as Ha.
  split; [done|]. split; [|by apply blocks_candidates]. intros Har. apply Ha in Har.
  apply (linked_path (nodes (tree s')) (to_linked _ (bk_tree _ _ Hs'))); try done. intros x y Hx _. by apply (blocks_counted s' Hs' x).
Qed.

(** A tree of headers, before any block has come. *)
Lemma fresh_blocks_ok t seq w : tree_ok t → (∀ p n, nodes t !! p = Some n → nTx n = 0 ∧ nChainTx n = 0 ∧ nStatus n = BLOCK_VALID_TREE) →
  blocks_ok (mkBlocks t [] [] [] seq None ∅ w).
Proof.
  intros Ht H. split; cbn [tree chainActive setBlockIndexCandidates mapBlocksUnlinked].
  - done.
  - intros p n Hp. destruct (H p n Hp) as (_ & _ & ->). done.
  - intros p n Hp. destruct (H p n Hp) as (E & _ & E'). unfold fMissingData. rewrite E', E. done.
  - by left.
  - split; [apply NoDup_nil_2|]. intros p Hp. by apply elem_of_nil in Hp.
  - intros p n Hp. right. split; [apply not_elem_of_nil|]. destruct (H p n Hp) as (E & E' & _). unfold counted. rewrite E, E'. cbn. lia.
  - intros p n Hp Hf. destruct (H p n Hp) as (_ & _ & E). unfold fFailedChain in Hf. by rewrite E in Hf.
  - intros k p Hp. by apply elem_of_nil in Hp.
  - apply NoDup_nil_2.
  - intros p q m (n & x & Hn & _ & Hne & _). destruct (H p n Hn) as (E & _). congruence.
  - constructor.
  - intros p Hp. by apply elem_of_nil in Hp.
  - intros p n Hp Hne. destruct (H p n Hp) as (_ & E & _). congruence.
Qed.
(** Properties of a heap that are evaluated. *)
Definition heap_all (f : ptr → CBlockIndex → bool) (h : heap) : bool := forallb (λ e, f (fst e) (snd e)) (map_to_list h).
Lemma heap_all_spec f h : heap_all f h = true → ∀ p n, h !! p = Some n → f p n = true.
Proof.
  intros E p n Hp. unfold heap_all in E. rewrite forallb_forall in E. apply (E (p, n)). apply list_elem_of_In, elem_of_map_to_list, Hp.
Qed.
Lemma txs_fit_dec h : heap_all (λ p n, path_txs h (Z.to_nat (nHeight n)) p <? 4294967296) h = true → txs_fit h.
Proof. intros E p n Hp. apply (heap_all_spec _ _ E) in Hp. by apply Z.ltb_lt in Hp. Qed.
Lemma segwit_ok_clear h params : (0 <? i32 (nMinerConfirmationWindow params)) = true → segwit_ok h params VersionBitsCache_Clear.
Proof. intros E. split; [by apply Z.ltb_lt|]. intros p s Hp. unfold VersionBitsCache_Clear in Hp. by rewrite lookup_empty in Hp. Qed.

(** ** An example: a root, a chain of two blocks above it and a fork *)
Definition example_entry (hash : Z) (h : Z) (prev skip : option ptr) (work : Z) : CBlockIndex :=
  mkIndex (Some (replicate 32 hash)) prev skip h 0 0 0 (of_uint64 work) 0 0 BLOCK_VALID_TREE
    (mkIndexHeader 1 uint256_null 10 0x207fffff uint256_null uint256_null 0 0 0 [] [] [] [] []) uint256_null uint256_null 0 0 10.
Definition example_tree : BlockTree := mkTree
  (<[4%positive := example_entry 4 1 (Some 1%positive) (Some 1%positive) 4]>
   (<[3%positive := example_entry 3 2 (Some 2%positive) (Some 1%positive) 6]>
   (<[2%positive := example_entry 2 1 (Some 1%positive) (Some 1%positive) 4]>
   {[1%positive := example_entry 1 0 None None 2]})))
  (<[replicate 32 4 := 4%positive]> (<[replicate 32 3 := 3%positive]> (<[replicate 32 2 := 2%positive]> {[replicate 32 1 := 1%positive]})))
  (Some 3%positive) ∅.
Lemma example_cases p n : nodes example_tree !! p = Some n →
  (p = 4%positive ∧ n = example_entry 4 1 (Some 1%positive) (Some 1%positive) 4) ∨ (p = 3%positive ∧ n = example_entry 3 2 (Some 2%positive) (Some 1%positive) 6) ∨
  (p = 2%positive ∧ n = example_entry 2 1 (Some 1%positive) (Some 1%positive) 4) ∨ (p = 1%positive ∧ n = example_entry 1 0 None None 2).
Proof.
  cbn [nodes example_tree]. intros H. do 3 (apply lookup_insert_Some in H as [[<- <-]|[_ H]]; [tauto|]). apply lookup_singleton_Some in H as [<- <-]. tauto.
Qed.
Lemma example_tree_ok : tree_ok example_tree.
Proof.
  split.
  - cbn [nodes example_tree].
    assert (H1 : linked {[1%positive := example_entry 1 0 None None 2]}) by (rewrite <- insert_empty; by apply root_linked).
    assert (H2 := leaf_linked _ 2 1 (example_entry 2 1 (Some 1%positive) (Some 1%positive) 4) _ H1 eq_refl eq_refl eq_refl eq_refl ltac:(by intros s [= <-])).
    assert (H3 := leaf_linked _ 3 2 (example_entry 3 2 (Some 2%positive) (Some 1%positive) 6) _ H2 eq_refl eq_refl eq_refl eq_refl ltac:(by intros s [= <-])).
    exact (leaf_linked _ 4 1 (example_entry 4 1 (Some 1%positive) (Some 1%positive) 4) _ H3 eq_refl eq_refl eq_refl eq_refl ltac:(by intros s [= <-])).
  - intros p n H. apply example_cases in H as [[-> ->]|[[-> ->]|[[-> ->]|[-> ->]]]]; (split; [apply of_uint64_ok|]); cbn [pprev example_entry];
      try (eexists; split; [reflexivity|]); split; vm_compute; reflexivity.
  - intros hash p. cbn [mapBlockIndex example_tree]. split.
    + intros H. do 3 (apply lookup_insert_Some in H as [[<- <-]|[_ H]]; [eexists; split; reflexivity|]).
      apply lookup_singleton_Some in H as [<- <-]. eexists; split; reflexivity.
    + intros (n & H & E). apply example_cases in H as [[-> ->]|[[-> ->]|[[-> ->]|[-> ->]]]]; injection E as <-; vm_compute; reflexivity.
  - eexists. split; [reflexivity|]. intros p n H. apply example_cases in H as [[-> ->]|[[-> ->]|[[-> ->]|[-> ->]]]]; vm_compute; discriminate.
Qed.
Definition example_start : BlockState := mkBlocks example_tree [] [] [] 1 None ∅ (mkWarnings None None false false).
Lemma example_start_ok : blocks_ok example_start.
Proof.
  apply fresh_blocks_ok; [apply example_tree_ok|]. intros p n H. by apply example_cases in H as [[-> ->]|[[-> ->]|[[-> ->]|[-> ->]]]].
Qed.

(** Blocks of two transactions arrive. *)
Definition receive_check (s : BlockState) (p : ptr) : option CBlockIndex :=
  n ← nodes (tree s) !! p;
  if (nTx n =? 0) && negb (fFailedChain n) && (nBlockSequenceId s + 1 + Z.of_nat (length (mapBlocksUnlinked s)) <=? 2147483647)
     && heap_all (λ q m, path_txs (<[p := received_entry n (checked_block 1) (mkPos 0 8) false]> (nodes (tree s))) (Z.to_nat (nHeight m)) q <? 4294967296)
          (<[p := received_entry n (checked_block 1) (mkPos 0 8) false]> (nodes (tree s)))
  then Some n else None.
Definition receive (s : BlockState) (p : ptr) : option (BlockState * VersionBitsCache) :=
  ReceivedBlockTransactions s (checked_block 1) p (mkPos 0 8) CRegTestParams VersionBitsCache_Clear.
Definition receive_state (s : BlockState) (p : ptr) : BlockState := match receive s p with Some (s', _) => s' | None => s end.
Lemma receive_check_spec s p n : receive_check s p = Some n →
  nodes (tree s) !! p = Some n ∧ nTx n = 0 ∧ fFailedChain n = false ∧ 0 < Z.of_nat (length (vtx (checked_block 1))) < 4294967296 ∧
  txs_fit (<[p := received_entry n (checked_block 1) (mkPos 0 8) false]> (nodes (tree s))) ∧
  nBlockSequenceId s + 1 + Z.of_nat (length (mapBlocksUnlinked s)) ≤ 2147483647.
Proof.
  unfold receive_check. destruct (nodes (tree s) !! p) as [m|]; [|discriminate]. cbn [mbind option_bind]. destruct (_ && _) eqn:E; [|discriminate]. intros [= ->].
  rewrite !andb_true_iff, negb_true_iff, Z.eqb_eq, Z.leb_le in E. destruct E as [[[E1 E2] E3] E4]. split; [reflexivity|]. split; [exact E1|]. split; [exact E2|].
  split; [split; vm_compute; reflexivity|]. split; [apply txs_fit_dec; exact E4|exact E3].
Qed.
Lemma receive_state_ok s p : blocks_ok s → is_Some (receive_check s p) → blocks_ok (receive_state s p).
Proof.
  intros Hs [n E]. destruct (receive_check_spec s p n E) as (H1 & H2 & H3 & H4 & H5 & H6).
  destruct (ReceivedBlockTransactions_spec s (checked_block 1) p (mkPos 0 8) CRegTestParams VersionBitsCache_Clear n Hs H1 H2 H3 H4 H5 H6 (segwit_ok_clear _ CRegTestParams eq_refl))
    as (s' & cache' & E' & Hs' & _). unfold receive_state, receive. by rewrite E'.
Qed.
(** The root is the tip, block 3 waits for block 2, and block 4 is a candidate. *)
Definition example_root : BlockState :=
  let s := receive_state example_start 1 in set_candidates (set_active s [Some 1%positive]) [1%positive].
Definition example_waiting : BlockState := receive_state (receive_state example_root 3) 4.
Lemma example_root_ok : blocks_ok example_root.
Proof.
  assert (Hs : blocks_ok (receive_state example_start 1)) by (apply receive_state_ok; [apply example_start_ok|]; eexists; vm_compute; reflexivity).
  destruct (nodes (tree (receive_state example_start 1)) !! 1%positive) as [n|] eqn:E; [|vm_compute in E; discriminate].
  destruct (new_tip_spec _ 1%positive n Hs) as (_ & _ & H & _); [|exact E|].
  - assert (Hc : setBlockIndexCandidates (receive_state example_start 1) = [1%positive]) by (vm_compute; reflexivity). rewrite Hc. by left.
  - revert H. cbv zeta. replace (full_chain _ _ n) with [Some 1%positive]; [|vm_compute in E; injection E as <-; vm_compute; reflexivity].
    set (c := filter _ _). replace c with [1%positive] by (vm_compute; reflexivity). done.
Qed.
Lemma example_waiting_ok : blocks_ok example_waiting.
Proof.
  apply receive_state_ok; [apply receive_state_ok; [apply example_root_ok|]|]; (eexists; vm_compute; reflexivity).
Qed.
(** Block 2 arrives, and with it block 3 is linked. *)
Lemma received_block_correct_witness :
  mapBlocksUnlinked example_waiting = [(Some 2%positive, 3%positive)] ∧
  ∃ s' cache', receive example_waiting 2 = Some (s', cache') ∧ blocks_ok s' ∧ block_received example_waiting s' 2 (checked_block 1) (mkPos 0 8).
Proof.
  split; [vm_compute; reflexivity|].
  destruct (receive_check example_waiting 2) as [n|] eqn:E; [|vm_compute in E; discriminate]. destruct (receive_check_spec _ _ _ E) as (H1 & H2 & H3 & H4 & H5 & H6).
  destruct (received_block_correct example_waiting (checked_block 1) 2 (mkPos 0 8) CRegTestParams VersionBitsCache_Clear n example_waiting_ok H1 H2 H3 H4 H5 H6
    (segwit_ok_clear _ CRegTestParams eq_refl)) as (s' & cache' & E' & H & H' & _). exists s', cache'. split; [exact E'|split; [exact H|exact H']].
Defined.
