(* ===== verification/BestChain.v ===== *)
(** * The best chain and invalid blocks: [FindMostWorkChain], [InvalidBlockFound] (src/src/validation.cpp)

    The search ends and returns the best candidate that can be followed; a block that is found invalid is
    marked and never followed; a new tip drops the candidates that it has overtaken; the base of a fork is the last
    common ancestor.  Each operation keeps the invariant of ForkChoice.v. *)

From stdpp Require Import base numbers list option gmap sorting.
From Stdlib Require Import ZArith Lia ZifyNat ZifyBool.
From S2P Require Import Prelude Transaction ArithUint256 Block BlockIndex Chain Pow VersionBits Validation BlockCheck ForkChoice Linking.
Import Arith256.

(** ** Proofs: entries marked as failed *)
Definition unsound (h : heap) (p : ptr) : Prop := ∃ k q m, up h k p = Some q ∧ h !! q = Some m ∧ fFailedChain m = true.
Lemma set_status_kept n st : kept_entry n (set_status n st).
Proof. by repeat split. Qed.
Lemma lor_failed st f : f = BLOCK_FAILED_VALID ∨ f = BLOCK_FAILED_CHILD →
  Z.land (Z.lor st f) BLOCK_FAILED_MASK ≠ 0 ∧ Z.land (Z.lor st f) BLOCK_VALID_MASK = Z.land st BLOCK_VALID_MASK ∧
  Z.land (Z.lor st f) BLOCK_HAVE_DATA = Z.land st BLOCK_HAVE_DATA.
Proof.
  intros Hf. split; [|by split; apply land_lor_other; destruct Hf as [-> | ->]].
  intros E. apply (land_lor_same st f); [by destruct Hf as [-> | ->]..|].
  replace f with (Z.land BLOCK_FAILED_MASK f) at 2 by (by destruct Hf as [-> | ->]). by rewrite Z.land_assoc, E.
Qed.

(** What waiting reads. *)
Lemma waits_frame h h' r q : (∀ x, option_Forall2 (λ a b, nTx a = nTx b ∧ pprev a = pprev b ∧ nChainTx a = nChainTx b) (h !! x) (h' !! x)) →
  waits_for h r q → waits_for h' r q.
Proof.
  intros E (m & y & Hm & Hq & Ht & Hy & Hyc). pose proof (E r) as Er. pose proof (E q) as Eq. rewrite Hm in Er. rewrite Hy in Eq.
  inversion Er as [a b (? & ? & ?) Ea Eb|]; subst a. inversion Eq as [a' b' (? & ? & ?) Ea' Eb'|]; subst a'. exists b, b'. split_and!; congruence.
Qed.

Section Mark.
Context (s : BlockState) (Hs : blocks_ok s) (p : ptr) (n : CBlockIndex) (f : Z).
Context (Hp : nodes (tree s) !! p = Some n) (Hc : nChainTx n ≠ 0) (Hf : f = BLOCK_FAILED_VALID ∨ f = BLOCK_FAILED_CHILD).
Let h : heap := nodes (tree s).
Let n1 : CBlockIndex := set_status n (Z.lor (nStatus n) f).
Let h1 : heap := <[p := n1]> h.
Let c1 : list ptr := filter (λ x, x ≠ p) (setBlockIndexCandidates s).

Lemma mark_kept : kept h h1.
Proof. apply (kept_insert h p n); [done|apply set_status_kept]. Qed.
Lemma mark_failed : fFailedChain n1 = true.
Proof. unfold fFailedChain, n1. cbn [nStatus set_status]. destruct (lor_failed (nStatus n) f Hf) as (H & _). apply Z.eqb_neq in H. by rewrite H. Qed.
Lemma mark_erase : set_erase h1 p (setBlockIndexCandidates s) = Some c1.
Proof.
  apply set_erase_spec.
  - apply (works_shape h); [apply kept_shape, mark_kept|apply tree_works, (bk_tree _ _ Hs)].
  - exists n1. apply lookup_insert_eq.
  - intros r Hr. destruct (bk_candidates _ _ Hs r Hr) as (m & Hm & _). destruct (kept_fwd _ _ _ _ mark_kept Hm) as (m' & Hm' & _). by exists m'.
  - apply (kept_ordered h); [apply mark_kept|apply (bk_ordered _ _ Hs)].
Qed.
Lemma mark_waits r q : waits_for h r q ↔ waits_for h1 r q.
Proof.
  assert (E : ∀ x, option_Forall2 (λ a b, nTx a = nTx b ∧ pprev a = pprev b ∧ nChainTx a = nChainTx b) (h !! x) (h1 !! x)).
  { intros x. unfold h1. destruct (decide (p = x)) as [<-|Hne]; [rewrite lookup_insert_eq; fold h in Hp; rewrite Hp; by constructor|].
    rewrite lookup_insert_ne by done. destruct (h !! x); by constructor. }
  split; apply waits_frame; [done|]. intros x. specialize (E x). destruct E as [? ? (? & ? & ?)|]; by constructor.
Qed.
Lemma mark_ok s1 : nodes (tree s1) = h1 → mapBlockIndex (tree s1) = mapBlockIndex (tree s) → pindexBestHeader (tree s1) = pindexBestHeader (tree s) →
  chainActive s1 = chainActive s → setBlockIndexCandidates s1 = c1 → mapBlocksUnlinked s1 = mapBlocksUnlinked s → blocks_ok s1.
Proof.
  intros E1 E2 E3 E4 E5 E6. pose proof mark_kept as Hkept. pose proof (kept_shape _ _ Hkept) as Hshape. destruct (lor_failed (nStatus n) f Hf) as (_ & Bv & Bd).
  assert (Ht : nTx n ≠ 0) by (destruct (blocks_counted s Hs p n Hp) as [_ E]; intros Ht; rewrite Ht in E; done).
  assert (Hcases : ∀ r m, h1 !! r = Some m → (r = p ∧ m = n1) ∨ (r ≠ p ∧ h !! r = Some m)).
  { unfold h1. intros r m [[-> <-]|[Hne E]]%lookup_insert_Some; [by left|right; by split]. }
  split; rewrite ?E1, ?E4, ?E5, ?E6; try done.
  - apply (shape_tree_ok (tree s)); [by rewrite E1|done..|apply (bk_tree _ _ Hs)].
  - intros r m [[-> ->]|[_ Hm]]%Hcases; [|by apply (bk_valid _ _ Hs r m)]. cbn. rewrite Bv. by apply (bk_valid _ _ Hs p n).
  - intros r m [[-> ->]|[_ Hm]]%Hcases; [|by apply (bk_data _ _ Hs r m)]. unfold fMissingData. cbn. rewrite Bd. by apply (bk_data _ _ Hs p n).
  - destruct (bk_active _ _ Hs) as [|(tip & m & Hm & E & Hmc)]; [by left|right]. destruct (kept_fwd _ _ _ _ Hkept Hm) as (m' & Hm' & Hk'). exists tip, m'.
    split_and!; [done| |by rewrite <- (ke_chain _ _ Hk')]. rewrite E. by apply shape_full_chain.
  - split; [apply NoDup_nil_2|]. intros r Hr. by apply elem_of_nil in Hr.
  - intros r m Hm. right. split; [apply not_elem_of_nil|]. apply (counted_proper _ _ Hkept _ _ eq_refl).
    destruct (Hcases r m Hm) as [[-> ->]|[_ Hm']]; [apply (blocks_counted s Hs p n Hp)|by apply (blocks_counted s Hs r m)].
  - intros r m [[-> ->]|[_ Hm]]%Hcases Hmf Hmc; [done|]. destruct (bk_blocked _ _ Hs r m Hm Hmf Hmc) as (k & q & x & Hup & Hx & Hxf & Hxt).
    exists k, q, x. rewrite <- (up_proper _ _ Hshape _ _ eq_refl _ _ eq_refl). split_and!; try done. unfold h1. rewrite lookup_insert_ne; [done|]. intros ->. congruence.
  - intros k r Hin. destruct (bk_unlinked _ _ Hs k r Hin) as (q & -> & Hw). exists q. split; [done|by apply mark_waits].
  - apply (bk_once _ _ Hs).
  - intros r q m Hw Hm Hmf. apply mark_waits in Hw. destruct (Hcases q m Hm) as [[-> ->]|[_ Hm']]; [by rewrite mark_failed in Hmf|].
    by apply (bk_waiting _ _ Hs r q m).
  - apply (kept_ordered h); [done|]. apply ordered_filter, (bk_ordered _ _ Hs).
  - intros r [_ Hr]%list_elem_of_filter. destruct (bk_candidates _ _ Hs r Hr) as (m & Hm & Hmc & Hw). destruct (kept_fwd _ _ _ _ Hkept Hm) as (m' & Hm' & Hk').
    exists m'. split_and!; [done|by rewrite <- (ke_chain _ _ Hk')|by rewrite <- Hkept].
  - intros r m Hm Hmc Hw Hmf. destruct (Hcases r m Hm) as [[-> ->]|[Hne Hm']]; [by rewrite mark_failed in Hmf|]. apply list_elem_of_filter. split; [done|].
    apply (bk_complete _ _ Hs r m Hm' Hmc); [|done]. fold h. by rewrite Hkept.
Qed.
End Mark.
(** A failed entry is taken out of the candidates. *)
Lemma erase_ok s p n : blocks_ok s → nodes (tree s) !! p = Some n → fFailedChain n = true →
  let s1 := set_candidates s (filter (λ x, x ≠ p) (setBlockIndexCandidates s)) in erase_candidate s p = Some s1 ∧ blocks_ok s1.
Proof.
  intros Hs Hp Hf s1. split.
  - unfold erase_candidate. rewrite set_erase_spec; [done|apply tree_works, (bk_tree _ _ Hs)|by exists n| |apply (bk_ordered _ _ Hs)].
    intros r Hr. destruct (bk_candidates _ _ Hs r Hr) as (m & Hm & _). by exists m.
  - destruct Hs as [B1 B2 B3 B4 B5 B6 B7 B8 B9 B10 B11 Bcand Bcomp]. split; try done.
    + by apply ordered_filter.
    + intros r [_ Hr]%list_elem_of_filter. by apply Bcand.
    + intros r m Hm Hmc Hw Hmf. apply list_elem_of_filter. split; [|by apply (Bcomp r m)]. intros ->. cbn in Hm. congruence.
Qed.

(** ** Proofs: the best chain *)
Record entry_marked (h : heap) (p : ptr) (n n' : CBlockIndex) : Prop := {
  em_entry : ∃ st, n' = set_status n st; em_failed : fFailedChain n = true → fFailedChain n' = true; em_unsound : fFailedChain n' = true → unsound h p }.
Definition marks (h h' : heap) : Prop := ∀ p, option_Forall2 (entry_marked h p) (h !! p) (h' !! p).
Lemma marks_shape h h' : marks h h' → same_shape h h'.
Proof. intros H p. specialize (H p). destruct H as [n n' [(st & ->) _ _]|]; constructor. apply set_status_kept. Qed.
Lemma marks_refl h : marks h h.
Proof.
  intros p. destruct (h !! p) as [n|] eqn:E; constructor. split; [exists (nStatus n); by destruct n|done|]. intros Hf. exists 0%nat, p, n. done.
Qed.
Lemma marks_trans h1 h2 h3 : marks h1 h2 → marks h2 h3 → marks h1 h3.
Proof.
  intros H1 H2 p. pose proof (H1 p) as E1. pose proof (H2 p) as E2. pose proof (marks_shape _ _ H1) as Hs.
  destruct E1 as [n n' [(st & ->) F1 U1]|]; inversion E2 as [x m [(st' & ->) F2 U2] Ex Em|Ex Em]; [subst x|]; constructor.
  split; [by exists st'|auto|]. intros Hf. destruct (U2 Hf) as (k & q & y & Hup & Hy & Hyf). rewrite <- (up_proper _ _ Hs _ _ eq_refl _ _ eq_refl) in Hup.
  pose proof (H1 q) as Eq. rewrite Hy in Eq. inversion Eq as [z y' [_ _ U] Ez Ey|]; subst y'. destruct (U Hyf) as (k' & q' & z' & Hup' & Hz' & Hzf).
  exists (k + k')%nat, q', z'. split_and!; [|done..]. rewrite up_add, Hup. done.
Qed.
Lemma marks_unsound h h' p : marks h h' → unsound h' p → unsound h p.
Proof.
  intros H (k & q & m & Hup & Hm & Hf). rewrite <- (up_proper _ _ (marks_shape _ _ H) _ _ eq_refl _ _ eq_refl) in Hup. pose proof (H q) as Hq. rewrite Hm in Hq.
  inversion Hq as [x y [_ _ U] Ex Ey|]; subst y. destruct (U Hf) as (k' & q' & z & Hup' & Hz & Hzf). exists (k + k')%nat, q', z. split_and!; [|done..].
  rewrite up_add, Hup. done.
Qed.
(** Candidates that are dropped have an invalid block in their chain. *)
Record pruned (s s' : BlockState) : Prop := {
  pr_marks : marks (nodes (tree s)) (nodes (tree s'));
  pr_candidates : setBlockIndexCandidates s' `sublist_of` setBlockIndexCandidates s;
  pr_dropped : ∀ p, p ∈ setBlockIndexCandidates s → p ∉ setBlockIndexCandidates s' → unsound (nodes (tree s)) p;
  pr_active : chainActive s' = chainActive s; pr_map : mapBlockIndex (tree s') = mapBlockIndex (tree s);
  pr_best : pindexBestHeader (tree s') = pindexBestHeader (tree s); pr_dirty : setDirtyBlockIndex (tree s') = setDirtyBlockIndex (tree s);
  pr_unlinked : mapBlocksUnlinked s' = mapBlocksUnlinked s; pr_sequence : nBlockSequenceId s' = nBlockSequenceId s;
  pr_failed : g_failed_blocks s' = g_failed_blocks s; pr_warnings : warnings s' = warnings s }.
#[global] Instance pruned_preorder : PreOrder pruned.
Proof.
  split.
  - intros s. split; try done; apply marks_refl.
  - intros s1 s2 s3 [] []. split; try congruence; [by eapply marks_trans|by etransitivity|].
    intros p Hp Hn. destruct (decide (p ∈ setBlockIndexCandidates s2)) as [|Hn2]; [|by apply pr_dropped0]. by eapply marks_unsound, pr_dropped1.
Qed.

Lemma sublist_shorter {A} (l k : list A) x : l `sublist_of` k → x ∈ k → x ∉ l → (length l < length k)%nat.
Proof.
  intros Hs. induction Hs as [|y l k Hs IH|y l k Hs IH]; intros Hk Hl; [by apply elem_of_nil in Hk| |pose proof (sublist_length _ _ Hs); cbn; lia].
  apply not_elem_of_cons in Hl as [Hxy Hl]. apply elem_of_cons in Hk as [->|Hk]; [done|]. cbn. specialize (IH Hk Hl). lia.
Qed.
(** The chain above a failed entry goes. *)
Lemma drop_chain_spec fuel s j p n t m : blocks_ok s → nodes (tree s) !! t = Some m → fFailedChain m = true → up (nodes (tree s)) j p = Some t →
  nodes (tree s) !! p = Some n → nChainTx n ≠ 0 → (j ≤ fuel)%nat →
  ∃ s' m', drop_chain fuel s true t (Some p) = Some s' ∧ blocks_ok s' ∧ pruned s s' ∧ pindexBestInvalid s' = pindexBestInvalid s ∧
    (p = t ∨ p ∉ setBlockIndexCandidates s') ∧ nodes (tree s') !! t = Some m' ∧ fFailedChain m' = true.
Proof.
  revert s j p n m. induction fuel as [|fuel IH]; intros s j p n m Hs Ht Hf Hup Hp Hc Hj; cbn [drop_chain].
  all: case_bool_decide as E; [injection E as ->; exists s, m; split_and!; try done; by left|].
  all: destruct j as [|j]; [cbn [up] in Hup; congruence|].
  1: lia.
  cbn [mbind option_bind]. rewrite Hp. cbn [mbind option_bind]. unfold erase_candidate. cbn [set_tree tree nodes update_entry setBlockIndexCandidates].
  rewrite (mark_erase s Hs p n BLOCK_FAILED_CHILD Hp). cbn [mbind option_bind].
  set (n1 := set_status n _). set (s1 := set_candidates _ _).
  assert (Hpt : t ≠ p) by congruence.
  assert (Hs1 : blocks_ok s1) by (apply (mark_ok s Hs p n BLOCK_FAILED_CHILD Hp Hc (or_intror eq_refl)); done).
  pose proof (mark_kept s p n BLOCK_FAILED_CHILD Hp) as Hkept. fold n1 in Hkept.
  assert (Hpr : pruned s s1).
  { split; try done.
    - intros r. cbn [s1 set_candidates tree set_tree update_entry nodes]. destruct (decide (p = r)) as [<-|Hne]; [|rewrite lookup_insert_ne by done; apply marks_refl].
      rewrite Hp, lookup_insert_eq. constructor. split; [by eexists|intros _; apply mark_failed; by right|]. intros _. by exists (S j), t, m.
    - apply sublist_filter.
    - intros r Hr Hn. assert (r = p) as ->; [|by exists (S j), t, m]. destruct (decide (r = p)) as [|Hne]; [done|]. destruct Hn. by apply list_elem_of_filter. }
  cbn [up] in Hup. rewrite Hp in Hup. cbn [mbind option_bind] in Hup. destruct (pprev n) as [q|] eqn:Eq; [|done]. cbn [mbind option_bind] in Hup.
  destruct (linked_parent (nodes (tree s)) ltac:(intros r x Hr _; by apply (blocks_counted s Hs r x)) p n q Hp Hc Eq) as (y & Hy & Hyc & _).
  destruct (kept_fwd _ _ _ _ Hkept Hy) as (y' & Hy' & Hk').
  destruct (IH s1 j q y' m Hs1) as (s' & m' & E' & Hs' & Hpr' & Hb & _ & Hm' & Hf').
  - cbn. by rewrite lookup_insert_ne.
  - done.
  - rewrite <- (up_proper _ _ (kept_shape _ _ Hkept) _ _ eq_refl _ _ eq_refl). done.
  - done.
  - by rewrite <- (ke_chain _ _ Hk').
  - lia.
  - exists s', m'. split; [done|]. split; [done|]. split; [by transitivity s1|]. split_and!; [done| |done..]. right. intros Hin. pose proof (pr_candidates _ _ Hpr') as Hsub.
    apply (elem_of_sublist _ _ _ Hin), list_elem_of_filter in Hsub as [? _]. done.
Qed.

Definition best_invalid_ok (s : BlockState) : Prop := ∀ b, pindexBestInvalid s = Some b → is_Some (nodes (tree s) !! b).
Lemma better_work_total h p q : is_Some (h !! p) → (∀ b, q = Some b → is_Some (h !! b)) → ∃ b, better_work h p q = Some b.
Proof. intros [n Hn] Hq. unfold better_work. destruct q as [q|]; [|by eexists]. destruct (Hq q eq_refl) as [m Hm]. rewrite Hn, Hm. by eexists. Qed.
Lemma drop_candidate_spec s j p n t m : blocks_ok s → best_invalid_ok s → nodes (tree s) !! t = Some m → fFailedChain m = true →
  up (nodes (tree s)) j p = Some t → nodes (tree s) !! p = Some n → p ∈ setBlockIndexCandidates s →
  ∃ s', drop_candidate s p t = Some s' ∧ blocks_ok s' ∧ best_invalid_ok s' ∧ pruned s s' ∧
    (length (setBlockIndexCandidates s') < length (setBlockIndexCandidates s))%nat.
Proof.
  intros Hs Hb Ht Hf Hup Hp Hin. unfold drop_candidate. rewrite Hp. cbn [mbind option_bind]. rewrite Ht. cbn [mbind option_bind].
  destruct (better_work_total (nodes (tree s)) p (pindexBestInvalid s) ltac:(by eexists) Hb) as [b Eb]. rewrite Eb. cbn [mbind option_bind]. rewrite Hf. cbn [andb].
  set (s0 := if b then _ else _).
  assert (H0 : nodes (tree s0) = nodes (tree s) ∧ setBlockIndexCandidates s0 = setBlockIndexCandidates s ∧ blocks_ok s0 ∧ pruned s s0 ∧ best_invalid_ok s0).
  { unfold s0. destruct b; [|split_and!; try done; reflexivity]. split_and!; try done.
    - by apply (blocks_ok_ext [] s).
    - split; try done. apply marks_refl.
    - intros x [= <-]. by exists n. }
  destruct H0 as (En & Ec & Hs0 & Hpr0 & Hb0). destruct (bk_candidates _ _ Hs p Hin) as (x & Hx & Hc & _). replace x with n in * by congruence. clear x Hx.
  assert (Hj : (j ≤ Z.to_nat (nHeight n + 1))%nat).
  { pose proof (up_height_of _ _ _ _ _ _ (to_linked _ (bk_tree _ _ Hs)) Hp Hup Ht) as Hh. pose proof (nl_height _ _ _ (to_linked _ (bk_tree _ _ Hs) t m Ht)). lia. }
  destruct (drop_chain_spec _ s0 j p n t m Hs0 ltac:(by rewrite En) Hf ltac:(by rewrite En) ltac:(by rewrite En) Hc Hj)
    as (s1 & m1 & E & Hs1 & Hpr1 & Hb1 & Hgone & Hm1 & Hf1). rewrite E. cbn [mbind option_bind].
  destruct (erase_ok s1 t m1 Hs1 Hm1 Hf1) as [E2 Hs2]. rewrite E2. eexists. split; [reflexivity|]. split; [done|].
  assert (Hpr2 : pruned s1 (set_candidates s1 (filter (λ x, x ≠ t) (setBlockIndexCandidates s1)))).
  { split; try done; [apply marks_refl|apply sublist_filter|]. intros r Hr Hn. assert (r = t) as ->; [|by exists 0%nat, t, m1].
    destruct (decide (r = t)) as [|Hne]; [done|]. destruct Hn. by apply list_elem_of_filter. }
  split; [|split; [by etransitivity; [|etransitivity]|]].
  - intros y Ey. cbn in Ey. rewrite Hb1 in Ey. destruct (Hb0 y Ey) as [z Hz]. destruct (shape_fwd _ _ _ _ (marks_shape _ _ (pr_marks _ _ Hpr1)) Hz) as (z' & Hz' & _). by exists z'.
  - rewrite <- Ec. apply (sublist_shorter _ _ p); [|by rewrite Ec|].
    + etransitivity; [apply sublist_filter|]. apply (pr_candidates _ _ Hpr1).
    + cbn. intros [Hne Hin']%list_elem_of_filter. by destruct Hgone as [->|Hgone].
Qed.

(** The entries above the active chain are there and not marked. *)
Definition usable (h : heap) (c : chain) (p : ptr) : Prop := ∀ k q m, up h k p = Some q → h !! q = Some m →
  (∀ j x, (j ≤ k)%nat → up h j p = Some x → Contains h c x = Some false) → fFailedChain m = false ∧ fMissingData m = false.
Lemma find_unusable_spec fuel s p n : blocks_ok s → nodes (tree s) !! p = Some n → nChainTx n ≠ 0 → (Z.to_nat (nHeight n) < fuel)%nat →
  (find_unusable fuel (nodes (tree s)) (chainActive s) (Some p) = Some None ∧ usable (nodes (tree s)) (chainActive s) p) ∨
  ∃ k t m, find_unusable fuel (nodes (tree s)) (chainActive s) (Some p) = Some (Some t) ∧ up (nodes (tree s)) k p = Some t ∧
    nodes (tree s) !! t = Some m ∧ fFailedChain m = true.
Proof.
  intros Hs. set (h := nodes (tree s)). set (c := chainActive s). pose proof (to_linked _ (bk_tree _ _ Hs)) as Hl. fold h in Hl.
  assert (Hcount : ∀ r m, h !! r = Some m → nChainTx m ≠ 0 → counted h m) by (intros r m Hr _; by apply (blocks_counted s Hs r m)).
  revert p n. induction fuel as [|fuel IH]; intros p n Hp Hc Hfuel; [lia|]. cbn [find_unusable].
  assert (E : ∃ b, Contains h c p = Some b) by (unfold Contains; rewrite Hp; by eexists). destruct E as [b E]. rewrite E. cbn [mbind option_bind].
  destruct b; [left; split; [done|]; intros k q m _ _ H; specialize (H 0%nat p ltac:(lia) eq_refl); congruence|].
  rewrite Hp. cbn [mbind option_bind]. replace (nChainTx n =? 0) with false by lia. cbn [andb].
  assert (Hd : fMissingData n = false) by (destruct (fMissingData n) eqn:Ed; [|done]; apply (bk_data _ _ Hs p n Hp) in Ed; by destruct (linked_has_txs h Hcount p n Hp Hc)).
  rewrite Hd, orb_false_r. destruct (fFailedChain n) eqn:Ef; [right; by exists 0%nat, p, n|].
  assert (Hstep : ∀ k, up h (S k) p = match pprev n with Some q => up h k q | None => None end).
  { intros k. cbn [up]. rewrite Hp. cbn [mbind option_bind]. by destruct (pprev n). }
  destruct (pprev n) as [q|] eqn:Eq.
  - destruct (linked_parent h Hcount p n q Hp Hc Eq) as (m & Hm & Hmc & _). destruct (nl_parent _ _ _ (Hl p n Hp) q Eq) as (m' & Hm' & Hh).
    replace m' with m in * by congruence. pose proof (nl_height _ _ _ (Hl q m Hm)).
    destruct (IH q m Hm Hmc ltac:(lia)) as [[E' Hu]|(k & t & x & E' & Hup & Hx)].
    + left. split; [done|]. intros [|k] r x Hup Hx Hj; [cbn [up] in Hup; by replace x with n by congruence|]. rewrite Hstep in Hup. apply (Hu k r x Hup Hx).
      intros j y Hjk Hy. apply (Hj (S j) y); [lia|by rewrite Hstep].
    + right. exists (S k), t, x. split; [done|]. by rewrite Hstep.
  - left. split; [by destruct fuel|]. intros [|k] r x Hup Hx _; [cbn [up] in Hup; by replace x with n by congruence|]. by rewrite Hstep in Hup.
Qed.

(** What the search returns: the best of the candidates, if any. *)
Definition best_candidate (s : BlockState) (r : option ptr) : Prop :=
  match r with
  | None => setBlockIndexCandidates s = []
  | Some p => p ∈ setBlockIndexCandidates s ∧ (∀ q, q ∈ setBlockIndexCandidates s → q = p ∨ before (nodes (tree s)) q p) ∧
      usable (nodes (tree s)) (chainActive s) p
  end.
Lemma most_work_loop_spec fuel s : blocks_ok s → best_invalid_ok s → (length (setBlockIndexCandidates s) ≤ fuel)%nat →
  ∃ r s', most_work_loop fuel s = Some (r, s') ∧ blocks_ok s' ∧ best_invalid_ok s' ∧ pruned s s' ∧ best_candidate s' r.
Proof.
  revert s. induction fuel as [|fuel IH]; intros s Hs Hb Hfuel; cbn [most_work_loop].
  - destruct (setBlockIndexCandidates s) as [|p l] eqn:E; [|cbn in Hfuel; lia]. by exists None, s.
  - destruct (List.rev (setBlockIndexCandidates s)) as [|p l] eqn:E.
    { exists None, s. split_and!; try done. cbn. apply (f_equal (@List.rev ptr)) in E. by rewrite List.rev_involutive in E. }
    destruct (ordered_last (nodes (tree s)) _ p l (bk_ordered _ _ Hs) E) as [Hin Hbest].
    destruct (bk_candidates _ _ Hs p Hin) as (n & Hn & Hc & _). rewrite Hn. cbn [mbind option_bind].
    pose proof (nl_height _ _ _ (to_linked _ (bk_tree _ _ Hs) p n Hn)).
    destruct (find_unusable_spec (Z.to_nat (nHeight n + 1)) s p n Hs Hn Hc ltac:(lia)) as [[E' Hu]|(k & t & m & E' & Hup & Hm & Hf)]; rewrite E'; cbn [mbind option_bind].
    + by exists (Some p), s.
    + destruct (drop_candidate_spec s k p n t m Hs Hb Hm Hf Hup Hn Hin) as (s1 & E1 & Hs1 & Hb1 & Hpr & Hlen). rewrite E1. cbn [mbind option_bind].
      destruct (IH s1 Hs1 Hb1 ltac:(lia)) as (r & s' & E2 & Hs' & Hb' & Hpr' & Hr). exists r, s'. split_and!; try done. by transitivity s1.
Qed.

(** No chain that could be followed is better: [p] has all its blocks, none of them marked, and is not worse than the tip. *)
Definition eligible (s : BlockState) (p : ptr) : Prop :=
  is_Some (nodes (tree s) !! p) ∧ arrived (nodes (tree s)) p ∧ ¬ unsound (nodes (tree s)) p ∧
  worse_than_tip (nodes (tree s)) (chainActive s) p = Some false.
Lemma eligible_kept s s' p : blocks_ok s → pruned s s' → eligible s p → p ∈ setBlockIndexCandidates s'.
Proof.
  intros Hs Hpr ([n Hn] & Ha & Hu & Hw). assert (Hin : p ∈ setBlockIndexCandidates s).
  { apply (blocks_candidates s p n Hs Hn); [|done]. destruct (fFailedChain n) eqn:E; [|done]. destruct Hu. by exists 0%nat, p, n. }
  destruct (decide (p ∈ setBlockIndexCandidates s')) as [|Hnot]; [done|]. by destruct Hu; apply (pr_dropped _ _ Hpr).
Qed.

(** ** Proofs: invalid blocks *)
Definition fork_tip_ok (s : BlockState) : Prop := ∀ f, pindexBestForkTip (warnings s) = Some f → is_Some (nodes (tree s) !! f).
Lemma blocks_tip s : blocks_ok s → chainActive s ≠ [] → ∃ tip n, Tip (chainActive s) = Some tip ∧ nodes (tree s) !! tip = Some n ∧ nChainTx n ≠ 0.
Proof.
  intros Hs Hne. destruct (bk_active _ _ Hs) as [|(tip & n & Hn & E & Hc)]; [done|]. exists tip, n. rewrite E. split_and!; [|done..].
  apply Tip_full_chain, (nl_height _ _ _ (to_linked _ (bk_tree _ _ Hs) tip n Hn)).
Qed.
Lemma CheckForkWarningConditions_spec s ibd : blocks_ok s → bits_ok (nodes (tree s)) → chainActive s ≠ [] → best_invalid_ok s → fork_tip_ok s →
  ∃ w, CheckForkWarningConditions s ibd = Some (set_warnings s w) ∧ fork_tip_ok (set_warnings s w).
Proof.
  intros Hs Hbits Hne Hb Hf. destruct (blocks_tip s Hs Hne) as (tip & n & Etip & Hn & _). unfold CheckForkWarningConditions. destruct ibd; [exists (warnings s); by destruct s|].
  assert (E : ∃ b : bool, (match pindexBestForkTip (warnings s) with None => Some false | Some f => n ← nodes (tree s) !! f; Some (Height (chainActive s) - nHeight n >=? 72) end) = Some b).
  { destruct (pindexBestForkTip (warnings s)) as [f|] eqn:Ef; [|by eexists]. destruct (Hf f Ef) as [m Hm]. rewrite Hm. by eexists. }
  destruct E as [stale E]. rewrite E. cbn [mbind option_bind]. set (w := if stale then _ else _).
  assert (Hw : ∀ f, pindexBestForkTip w = Some f → is_Some (nodes (tree s) !! f)) by (intros f; unfold w; destruct stale; [done|apply Hf]).
  destruct (GetBlockProof_spec (IndexBits n) (Hbits tip n Hn)) as (proof & Eproof & _).
  destruct (pindexBestForkTip w) as [f|] eqn:Ef; cbn [mbind option_bind].
  - destruct (pindexBestForkBase w) as [b|]; eexists; (split; [reflexivity|]); intros x Ex; by apply Hw.
  - destruct (pindexBestInvalid s) as [b|] eqn:Eb; cbn [mbind option_bind].
    + destruct (Hb b Eb) as [m Hm]. rewrite Hm. cbn [mbind option_bind]. rewrite Etip. cbn [mbind option_bind]. rewrite Hn. cbn [mbind option_bind].
      rewrite Eproof. cbn [mbind option_bind]. destruct (0 <? _); eexists; (split; [reflexivity|]); intros x Ex; discriminate.
    + eexists. split; [reflexivity|]. intros x Ex. discriminate.
Qed.
Lemma InvalidChainFound_spec s p n ibd : blocks_ok s → bits_ok (nodes (tree s)) → chainActive s ≠ [] → best_invalid_ok s → fork_tip_ok s →
  nodes (tree s) !! p = Some n →
  ∃ s' b m, InvalidChainFound s p ibd = Some s' ∧ blocks_ok s' ∧ best_invalid_ok s' ∧ fork_tip_ok s' ∧ tree s' = tree s ∧ chainActive s' = chainActive s ∧
    setBlockIndexCandidates s' = setBlockIndexCandidates s ∧ g_failed_blocks s' = g_failed_blocks s ∧
    pindexBestInvalid s' = Some b ∧ nodes (tree s) !! b = Some m ∧ val (nChainWork n) ≤ val (nChainWork m).
Proof.
  intros Hs Hbits Hne Hb Hf Hp. unfold InvalidChainFound. pose proof (tree_works _ (bk_tree _ _ Hs)) as Hw.
  assert (E : ∃ better b m, better_work (nodes (tree s)) p (pindexBestInvalid s) = Some better ∧
    pindexBestInvalid (if better : bool then set_best_invalid s (Some p) else s) = Some b ∧ nodes (tree s) !! b = Some m ∧ val (nChainWork n) ≤ val (nChainWork m)).
  { unfold better_work. destruct (pindexBestInvalid s) as [b|] eqn:Eb; [|exists true, p, n; split_and!; done || lia].
    destruct (Hb b Eb) as [m Hm]. rewrite Hp, Hm. cbn [mbind option_bind]. rewrite CompareTo_gt by (by eapply Hw).
    destruct (Z.ltb_spec (val (nChainWork m)) (val (nChainWork n))); [exists true, p, n|exists false, b, m]; split_and!; done || lia. }
  destruct E as (better & b & m & E & Eb & Hm & Hle). rewrite E. cbn [mbind option_bind]. set (s0 := if better then _ else s) in *.
  destruct (blocks_tip s Hs Hne) as (tip & nt & Etip & _).
  assert (H0 : tree s0 = tree s ∧ chainActive s0 = chainActive s ∧ setBlockIndexCandidates s0 = setBlockIndexCandidates s ∧ mapBlocksUnlinked s0 = mapBlocksUnlinked s ∧
    g_failed_blocks s0 = g_failed_blocks s ∧ warnings s0 = warnings s) by (unfold s0; by destruct better).
  destruct H0 as (E1 & E2 & E3 & E4 & E5 & E6). rewrite E2, Etip. cbn [mbind option_bind].
  assert (Hs0 : blocks_ok s0) by (apply (blocks_ok_ext [] s); by rewrite ?E1).
  assert (Hb0 : best_invalid_ok s0) by (intros x Ex; rewrite E1; assert (x = b) as -> by congruence; by exists m).
  assert (Hf0 : fork_tip_ok s0) by (intros x Ex; rewrite E1; apply Hf; by rewrite <- E6).
  destruct (CheckForkWarningConditions_spec s0 ibd Hs0 ltac:(by rewrite E1) ltac:(by rewrite E2) Hb0 Hf0) as (w & -> & Hf'). exists (set_warnings s0 w), b, m.
  split; [done|]. split; [by apply (blocks_ok_ext [] s0)|]. by split_and!.
Qed.
Lemma InvalidBlockFound_spec s p n state ibd : blocks_ok s → bits_ok (nodes (tree s)) → chainActive s ≠ [] → best_invalid_ok s → fork_tip_ok s →
  nodes (tree s) !! p = Some n → nChainTx n ≠ 0 → corruptionPossible state = false →
  ∃ s' n' b m, InvalidBlockFound s p state ibd = Some s' ∧ blocks_ok s' ∧ best_invalid_ok s' ∧ fork_tip_ok s' ∧
    kept (nodes (tree s)) (nodes (tree s')) ∧ chainActive s' = chainActive s ∧
    n' = set_status n (Z.lor (nStatus n) BLOCK_FAILED_VALID) ∧ nodes (tree s') = <[p := n']> (nodes (tree s)) ∧ fFailedChain n' = true ∧
    p ∉ setBlockIndexCandidates s' ∧ p ∈ g_failed_blocks s' ∧ p ∈ setDirtyBlockIndex (tree s') ∧
    pindexBestInvalid s' = Some b ∧ nodes (tree s') !! b = Some m ∧ val (nChainWork n) ≤ val (nChainWork m).
Proof.
  intros Hs Hbits Hne Hb Hf Hp Hc Hcorr. unfold InvalidBlockFound. rewrite Hcorr, Hp. cbn [mbind option_bind]. unfold erase_candidate.
  cbn [set_tree tree nodes update_entry setBlockIndexCandidates mark_dirty add_failed]. rewrite (mark_erase s Hs p n BLOCK_FAILED_VALID Hp). cbn [mbind option_bind].
  pose proof (mark_kept s p n BLOCK_FAILED_VALID Hp) as Hkept. pose proof (mark_failed n BLOCK_FAILED_VALID (or_introl eq_refl)) as Hfail.
  set (n1 := set_status n _) in *. set (s1 := set_candidates _ _). assert (Hp1 : nodes (tree s1) !! p = Some n1) by apply lookup_insert_eq.
  assert (Hs1 : blocks_ok s1) by (apply (mark_ok s Hs p n BLOCK_FAILED_VALID Hp Hc (or_introl eq_refl)); done).
  assert (Hin : ∀ x, is_Some (nodes (tree s) !! x) → is_Some (nodes (tree s1) !! x)).
  { intros x [m Hm]. destruct (kept_fwd _ _ _ _ Hkept Hm) as (m' & Hm' & _). by exists m'. }
  destruct (InvalidChainFound_spec s1 p n1 ibd Hs1) as (s' & b & m & E & Hs' & Hb' & Hf' & E1 & E2 & E3 & E4 & E5 & Hm & Hle); [| | | |done|].
  - intros x m Hm. cbn in Hm. apply lookup_insert_Some in Hm as [[<- <-]|[_ Hm]]; [by apply (Hbits p n)|by apply (Hbits x m)].
  - done.
  - intros x Ex. by apply Hin, Hb.
  - intros x Ex. by apply Hin, Hf.
  - rewrite E. exists s', n1, b, m. split; [done|]. rewrite E1, E3, E4. split_and!; try done.
    + intros Hx. by apply list_elem_of_filter in Hx as [? _].
    + cbn. set_solver.
    + cbn. set_solver.
Qed.

(** ** Proofs: the base of a fork *)
Section ForkBase.
Context (h : heap) (Hl : linked h).
Lemma up_prev p n : h !! p = Some n → ∀ k, up h (S k) p = match pprev n with Some q => up h k q | None => None end.
Proof. intros Hp k. cbn [up]. rewrite Hp. cbn [mbind option_bind]. by destruct (pprev n). Qed.
Lemma walk_longer_spec fuel l nl height : h !! l = Some nl → 0 ≤ height → (Z.to_nat (nHeight nl) < fuel)%nat →
  ∃ l' n' i, walk_longer fuel h (Some l) height = Some (Some l') ∧ h !! l' = Some n' ∧ up h i l = Some l' ∧ nHeight n' ≤ height ∧
    ∀ j d e, up h j l = Some d → h !! d = Some e → nHeight e ≤ height → ∃ k, up h k l' = Some d.
Proof.
  intros Hn H0. revert l nl Hn. induction fuel as [|fuel IH]; intros l nl Hn Hfuel; [lia|]. cbn [walk_longer]. rewrite Hn. cbn [mbind option_bind].
  rewrite Z.gtb_ltb. destruct (Z.ltb_spec height (nHeight nl)) as [Hgt|Hle].
  - destruct (Hl l nl Hn) as [_ H1 H2 _]. destruct (pprev nl) as [q|] eqn:Eq; [|specialize (H1 eq_refl); lia].
    destruct (H2 q eq_refl) as (m & Hm & Hh). pose proof (nl_height _ _ _ (Hl q m Hm)). destruct (IH q m Hm ltac:(lia)) as (l' & n' & i & E & Hn' & Hi & Hle & Hd).
    exists l', n', (S i). rewrite (up_prev l nl Hn), Eq. split_and!; try done. intros [|j] d e Hj He Hle'.
    + cbn [up] in Hj. injection Hj as <-. replace e with nl in * by congruence. lia.
    + rewrite (up_prev l nl Hn), Eq in Hj. by apply (Hd j d e).
  - exists l, nl, 0%nat. split_and!; try done. intros j d e Hj _ _. by exists j.
Qed.
Lemma find_fork_base_spec fuel f nf l nl : h !! f = Some nf → h !! l = Some nl → (Z.to_nat (nHeight nf) < fuel)%nat →
  ∃ r, find_fork_base fuel h (Some f) (Some l) = Some r ∧ is_lca h f l r.
Proof.
  revert f nf l nl. induction fuel as [|fuel IH]; intros f nf l nl Hf Hn Hfuel; [lia|]. cbn [find_fork_base]. case_bool_decide as E.
  { injection E as ->. exists (Some f). split; [done|]. split; [by exists 0%nat, 0%nat|]. intros i j d Hi _. by exists i. }
  rewrite Hf. cbn [mbind option_bind]. rewrite Hn. pose proof (nl_height _ _ _ (Hl f nf Hf)). pose proof (nl_height _ _ _ (Hl l nl Hn)).
  destruct (walk_longer_spec (Z.to_nat (nHeight nl + 1)) l nl (nHeight nf) Hn ltac:(lia) ltac:(lia)) as (l' & n' & a & Ew & Hn' & Ha & Hle & Hd).
  rewrite Ew. cbn [mbind option_bind]. case_bool_decide as E'.
  { injection E' as ->. exists (Some f). split; [done|]. split; [by exists 0%nat, a|]. intros i j d Hi _. by exists i. }
  (* [f] is no ancestor of the other block *)
  assert (Hno : ∀ j, up h j l ≠ Some f).
  { intros j Hj. destruct (Hd j f nf Hj Hf ltac:(lia)) as [k Hk]. pose proof (up_height_of h l' n' k f nf Hl Hn' Hk Hf).
    destruct k as [|k]; [cbn [up] in Hk; congruence|lia]. }
  assert (Hcommon : ∀ i j d, up h i f = Some d → up h j l = Some d → ∃ i' k, i = S i' ∧ up h k l' = Some d).
  { intros [|i] j d Hi Hj; [cbn [up] in Hi; injection Hi as <-; by destruct (Hno j)|]. destruct (up_lookup h Hl (S i) f d ltac:(by exists nf) Hi) as [e He].
    pose proof (up_height_of h f nf (S i) d e Hl Hf Hi He). destruct (Hd j d e Hj He ltac:(lia)) as [k Hk]. by exists i, k. }
  pose proof (up_prev f nf Hf) as Hup. destruct (pprev nf) as [f'|] eqn:Ef.
  - destruct (nl_parent _ _ _ (Hl f nf Hf) f' Ef) as (m & Hm & Hh). pose proof (nl_height _ _ _ (Hl f' m Hm)).
    destruct (IH f' m l' n' Hm Hn' ltac:(lia)) as (r & -> & Hr). exists r. split; [done|]. destruct r as [c|]; cbn [is_lca] in *.
    + destruct Hr as [(i & j & Hi & Hj) Hmin]. split; [exists (S i), (a + j)%nat; by rewrite Hup, up_add, Ha|].
      intros i' j' d Hi' Hj'. destruct (Hcommon i' j' d Hi' Hj') as (i2 & k & -> & Hk). rewrite Hup in Hi'. by apply (Hmin i2 k).
    + intros i j d Hi Hj. destruct (Hcommon i j d Hi Hj) as (i2 & k & -> & Hk). rewrite Hup in Hi. by apply (Hr i2 k d).
  - exists None. split; [by destruct fuel|]. intros i j d Hi Hj. destruct (Hcommon i j d Hi Hj) as (i2 & k & -> & Hk). by rewrite Hup in Hi.
Qed.
End ForkBase.

(** ** Theorems *)

(** C3. The best chain.  [FindMostWorkChain] ends without a failed assertion.  It returns nothing exactly if no candidate is left, and otherwise
    the best of them, whose blocks down to the active chain are all there and not marked as failed; every chain that
    could be followed (all its blocks there, none marked, not worse than the tip) is still a candidate, hence
    not better than the result.  Only candidates with an invalid block in their chain are dropped, and the invariant is kept. *)
Theorem most_work_chain_correct (s : BlockState) (Hs : blocks_ok s) (Hb : best_invalid_ok s) :
  ∃ r s', FindMostWorkChain s = Some (r, s') ∧ blocks_ok s' ∧ best_invalid_ok s' ∧ pruned s s' ∧ best_candidate s' r ∧
    ∀ q, eligible s q → ∃ p, r = Some p ∧ (q = p ∨ before (nodes (tree s')) q p).
Proof.
  destruct (most_work_loop_spec _ s Hs Hb (le_n _)) as (r & s' & E & Hs' & Hb' & Hpr & Hr). exists r, s'. split; [exact E|]. do 4 (split; [done|]).
  intros q Hq. pose proof (eligible_kept s s' q Hs Hpr Hq) as Hin. destruct r as [p|]; cbn in Hr.
  - exists p. split; [done|]. by apply Hr.
  - rewrite Hr in Hin. by apply elem_of_nil in Hin.
Qed.

(** C5. An invalid block.  When a linked block fails as it is connected and may just be corrupt, [InvalidBlockFound] changes nothing.  Otherwise
    BLOCK_FAILED_VALID is set in the status of its entry, all else in the tree stays, the entry is to be written; the block leaves
    the candidates, and is remembered as failed and among the best invalid ones; the invariant is kept, so the search for
    the best chain succeeds and never returns a chain through the block, unless the block is below a block of the active chain. *)
Theorem invalid_block_not_followed (s : BlockState) (p : ptr) (n : CBlockIndex) (state : CValidationState) (ibd : bool)
  (Hs : blocks_ok s) (Hbits : bits_ok (nodes (tree s))) (Htip : chainActive s ≠ []) (Hb : best_invalid_ok s) (Hf : fork_tip_ok s)
  (Hp : nodes (tree s) !! p = Some n) (Hlinked : nChainTx n ≠ 0) :
  (corruptionPossible state = true → InvalidBlockFound s p state ibd = Some s) ∧
  (corruptionPossible state = false → ∃ s1, InvalidBlockFound s p state ibd = Some s1 ∧ blocks_ok s1 ∧ chainActive s1 = chainActive s ∧
    nodes (tree s1) = <[p := set_status n (Z.lor (nStatus n) BLOCK_FAILED_VALID)]> (nodes (tree s)) ∧
    p ∉ setBlockIndexCandidates s1 ∧ p ∈ g_failed_blocks s1 ∧ p ∈ setDirtyBlockIndex (tree s1) ∧
    (∃ b m, pindexBestInvalid s1 = Some b ∧ nodes (tree s1) !! b = Some m ∧ val (nChainWork n) ≤ val (nChainWork m)) ∧
    ∃ r s2, FindMostWorkChain s1 = Some (r, s2) ∧ blocks_ok s2 ∧
      ∀ q k, r = Some q → up (nodes (tree s2)) k q = Some p →
        ∃ j x, (j ≤ k)%nat ∧ up (nodes (tree s2)) j q = Some x ∧ Contains (nodes (tree s2)) (chainActive s2) x = Some true).
Proof.
  split; [intros Hstate; unfold InvalidBlockFound; by rewrite Hstate|]. intros Hstate.
  destruct (InvalidBlockFound_spec s p n state ibd Hs Hbits Htip Hb Hf Hp Hlinked Hstate)
    as (s1 & n1 & b & m & E & Hs1 & Hb1 & _ & _ & Hc & En1 & Et & Hf1 & Hout & Hg & Hd & Ebm & Hm & Hle).
  exists s1. do 3 (split; [done|]). split; [by rewrite <- En1|]. assert (Hp1 : nodes (tree s1) !! p = Some n1) by (rewrite Et; apply lookup_insert_eq). do 3 (split; [done|]). split; [by exists b, m|].
  destruct (most_work_loop_spec _ s1 Hs1 Hb1 (le_n _)) as (r & s2 & E2 & Hs2 & _ & Hpr & Hr). exists r, s2. split; [exact E2|]. split; [done|].
  intros q k -> Hup. destruct Hr as (_ & _ & Hu). pose proof (pr_marks _ _ Hpr p) as Hmark. rewrite Hp1 in Hmark. inversion Hmark as [x n2 [_ Hfail _] Ex En|]; subst x.
  set (act := λ j, match up (nodes (tree s2)) j q with Some x => bool_decide (Contains (nodes (tree s2)) (chainActive s2) x = Some true) | None => false end).
  destruct (existsb act (seq 0 (S k))) eqn:Eact.
  - apply existsb_exists in Eact as (j & Hj%in_seq & Hx). unfold act in Hx. destruct (up (nodes (tree s2)) j q) as [x|] eqn:Ex; [|done].
    exists j, x. split; [lia|]. split; [done|]. by apply bool_decide_eq_true in Hx.
  - exfalso. destruct (Hu k p n2 Hup (eq_sym En)) as [Hx _]; [|rewrite (Hfail Hf1) in Hx; discriminate]. intros j x Hj Hx.
    assert (Hin : act j = false).
    { apply not_true_is_false. intros Hact. assert (Hex : existsb act (seq 0 (S k)) = true) by (apply existsb_exists; exists j; split; [apply in_seq; lia|done]). congruence. }
    unfold act in Hin. rewrite Hx in Hin. apply bool_decide_eq_false in Hin.
    assert (Hq : is_Some (nodes (tree s2) !! q)) by (destruct k; cbn [up] in Hup; [injection Hup as ->; by exists n2|destruct (nodes (tree s2) !! q); [by eexists|done]]).
    destruct (up_lookup _ (to_linked _ (bk_tree _ _ Hs2)) j q x Hq Hx) as [y Hy]. unfold Contains in *. rewrite Hy in *. cbn [mbind option_bind] in *. by destruct (bool_decide _).
Qed.

(** C10. A new tip.  When the active chain moves to a candidate, [SetTip] makes it the chain of that candidate and [PruneBlockIndexCandidates]
    finds its assertion true: the new tip stays a candidate, exactly those worse than it go, and the invariant holds again. *)
Theorem new_tip_keeps_candidates (s : BlockState) (p : ptr) (n : CBlockIndex)
  (Hs : blocks_ok s) (Hin : p ∈ setBlockIndexCandidates s) (Hp : nodes (tree s) !! p = Some n) :
  ∃ c s', SetTip (nodes (tree s)) (chainActive s) (Some p) = Some c ∧ PruneBlockIndexCandidates (set_active s c) = Some s' ∧
    Tip (chainActive s') = Some p ∧ blocks_ok s' ∧ p ∈ setBlockIndexCandidates s' ∧ tree s' = tree s ∧
    ∀ q, q ∈ setBlockIndexCandidates s' ↔ q ∈ setBlockIndexCandidates s ∧ compare (nodes (tree s)) q p = Some false.
Proof.
  destruct (new_tip_spec s p n Hs Hin Hp) as (E1 & E2 & Hs' & Hp'). eexists _, _. split; [exact E1|]. split; [exact E2|]. split; [|split; [done|split; [done|split; [done|]]]].
  - apply Tip_full_chain, (nl_height _ _ _ (to_linked _ (bk_tree _ _ Hs) p n Hp)).
  - intros q. cbn. rewrite list_elem_of_filter. tauto.
Qed.

(** A fork tip that is not too far behind is kept, and the warning raised. *)
Lemma CheckForkWarningConditions_recent s p n f : nodes (tree s) !! p = Some n → pindexBestForkTip (warnings s) = Some p →
  pindexBestForkBase (warnings s) = Some f → Height (chainActive s) - nHeight n < 72 →
  CheckForkWarningConditions s false = Some (set_warnings s (mkWarnings (Some p) (Some f) true (fLargeWorkInvalidChainFound (warnings s)))).
Proof.
  intros Hp Ht Hb Hh. unfold CheckForkWarningConditions. rewrite Ht, Hp. cbn [mbind option_bind].
  replace (Height (chainActive s) - nHeight n >=? 72) with false by lia. rewrite Ht. cbn [mbind option_bind]. by rewrite Hb.
Qed.

(** A fork.  When the chain to a better tip turned out invalid, the fork's base is the last common ancestor of the
    fork and the tip; a fork that is the highest so far, with the work of seven blocks above its base and no more than 71 blocks behind, is remembered
    and the warning is raised. *)
Theorem new_fork_warned (s : BlockState) (p : ptr) (n : CBlockIndex) (ibd : bool)
  (Hs : blocks_ok s) (Hbits : bits_ok (nodes (tree s))) (Htip : chainActive s ≠ []) (Hb : best_invalid_ok s) (Hf : fork_tip_ok s)
  (Hp : nodes (tree s) !! p = Some n) :
  ∃ s' r tip, CheckForkWarningConditionsOnNewFork s p ibd = Some s' ∧ blocks_ok s' ∧ fork_tip_ok s' ∧
    Tip (chainActive s) = Some tip ∧ is_lca (nodes (tree s)) p tip r ∧
    ∀ f m, r = Some f → nodes (tree s) !! f = Some m → ibd = false →
      (∀ b mb, pindexBestForkTip (warnings s) = Some b → nodes (tree s) !! b = Some mb → nHeight mb < nHeight n) →
      (block_work (IndexBits m) * 7) mod 2 ^ 256 < (val (nChainWork n) - val (nChainWork m)) mod 2 ^ 256 →
      Height (chainActive s) - nHeight n < 72 →
      pindexBestForkTip (warnings s') = Some p ∧ pindexBestForkBase (warnings s') = Some f ∧ fLargeWorkForkFound (warnings s') = true.
Proof.
  destruct (blocks_tip s Hs Htip) as (tip & nt & Etip & Hnt & _). pose proof (to_linked _ (bk_tree _ _ Hs)) as Hl. pose proof (tree_works _ (bk_tree _ _ Hs)) as Hw.
  pose proof (nl_height _ _ _ (Hl p n Hp)). destruct (find_fork_base_spec _ Hl (Z.to_nat (nHeight n + 1)) p n tip nt Hp Hnt ltac:(lia)) as (r & Er & Hr).
  unfold CheckForkWarningConditionsOnNewFork. rewrite Hp. cbn [mbind option_bind]. rewrite Etip, Er. cbn [mbind option_bind].
  assert (E : ∃ large : bool, (match r with
      | None => Some false
      | Some f =>
          higher ← (match pindexBestForkTip (warnings s) with None => Some true | Some b => m ← nodes (tree s) !! b; Some (nHeight n >? nHeight m) end);
          m ← nodes (tree s) !! f;
          proof ← GetBlockProof (IndexBits m);
          Some (higher && (0 <? CompareTo (sub (nChainWork n) (nChainWork m)) (mul32 proof 7)) && (Height (chainActive s) - nHeight n <? 72))
      end) = Some large ∧ ∀ f m, r = Some f → nodes (tree s) !! f = Some m →
      (∀ b mb, pindexBestForkTip (warnings s) = Some b → nodes (tree s) !! b = Some mb → nHeight mb < nHeight n) →
      (block_work (IndexBits m) * 7) mod 2 ^ 256 < (val (nChainWork n) - val (nChainWork m)) mod 2 ^ 256 →
      Height (chainActive s) - nHeight n < 72 → large = true).
  { destruct r as [f|]; [|by eexists]. destruct Hr as [(i & j & Hi & _) _]. destruct (up_lookup _ Hl i p f ltac:(by exists n) Hi) as [m Hm].
    assert (Eh : ∃ higher, (match pindexBestForkTip (warnings s) with None => Some true | Some b => m ← nodes (tree s) !! b; Some (nHeight n >? nHeight m) end) = Some higher ∧
      ((∀ b mb, pindexBestForkTip (warnings s) = Some b → nodes (tree s) !! b = Some mb → nHeight mb < nHeight n) → higher = true)).
    { destruct (pindexBestForkTip (warnings s)) as [b|] eqn:Eb; [|by eexists]. destruct (Hf b Eb) as [mb Hmb]. rewrite Hmb. eexists. split; [reflexivity|].
      intros Hh. specialize (Hh b mb eq_refl Hmb). lia. }
    destruct Eh as (higher & -> & Hh). cbn [mbind option_bind]. rewrite Hm. cbn [mbind option_bind].
    destruct (GetBlockProof_spec (IndexBits m) (Hbits f m Hm)) as (proof & -> & Hok & Hv). cbn [mbind option_bind]. eexists. split; [reflexivity|].
    intros f' m' [= <-] Hm' Hhigh Hwork Hheight. replace m' with m in * by congruence. rewrite (Hh Hhigh).
    rewrite CompareTo_gt by (apply sub_ok || apply mul32_ok; try done; by eapply Hw).
    rewrite sub_val by (by eapply Hw). rewrite mul32_val by done. rewrite Hv. lia. }
  destruct E as (large & -> & Hlarge). cbn [mbind option_bind]. set (s0 := if large then _ else s).
  assert (H0 : tree s0 = tree s ∧ chainActive s0 = chainActive s ∧ pindexBestInvalid s0 = pindexBestInvalid s ∧ blocks_ok s0 ∧ fork_tip_ok s0).
  { unfold s0. destruct large; [|done]. split_and!; try done; [by apply (blocks_ok_ext [] s)|]. intros x [= <-]. by exists n. }
  destruct H0 as (E1 & E2 & E3 & Hs0 & Hf0).
  destruct (CheckForkWarningConditions_spec s0 ibd Hs0) as (w & E & Hf'); [by rewrite E1|by rewrite E2|intros x; rewrite E1, E3; apply Hb|done|].
  exists (set_warnings s0 w), r, tip. rewrite E. split_and!; try done; [by apply (blocks_ok_ext [] s0)|].
  intros f m Hrf Hm -> Hhigh Hwork Hheight. specialize (Hlarge f m Hrf Hm Hhigh Hwork Hheight) as ->. unfold s0 in E.
  subst r.
  rewrite (CheckForkWarningConditions_recent _ p n f) in E by done. injection E as <-. done.
Qed.

(** ** Witnesses *)
Lemma bits_ok_dec h : heap_all (λ _ n, (0 <=? IndexBits n) && (IndexBits n <? 4294967296)) h = true → bits_ok h.
Proof. intros E p n Hp. apply (heap_all_spec _ _ E) in Hp. unfold is_u32. lia. Qed.

(** Blocks 2 and 3 are linked above the root, which is the tip. *)
Definition example_linked : BlockState := receive_state example_waiting 2.
Definition example_failed : BlockState :=
  match InvalidBlockFound example_linked 2 new_CValidationState false with Some s => s | None => example_linked end.
Lemma example_linked_ok : blocks_ok example_linked ∧ bits_ok (nodes (tree example_linked)) ∧ chainActive example_linked ≠ [] ∧
  best_invalid_ok example_linked ∧ fork_tip_ok example_linked ∧ ∃ n, nodes (tree example_linked) !! 2%positive = Some n ∧ nChainTx n ≠ 0.
Proof.
  split; [apply receive_state_ok; [exact example_waiting_ok|eexists; vm_compute; reflexivity]|]. split; [apply bits_ok_dec; vm_compute; reflexivity|].
  split; [vm_compute; discriminate|]. split; [intros b E; vm_compute in E; discriminate|]. split; [intros b E; vm_compute in E; discriminate|].
  eexists. split; [vm_compute; reflexivity|]. vm_compute. discriminate.
Qed.
Lemma example_failed_ok : blocks_ok example_failed ∧ best_invalid_ok example_failed.
Proof.
  destruct example_linked_ok as (Hs & Hbits & Htip & Hb & Hf & n & Hn & Hc).
  destruct (InvalidBlockFound_spec example_linked 2 n new_CValidationState false Hs Hbits Htip Hb Hf Hn Hc eq_refl) as (s' & n' & b & m & E & Hs' & Hb' & _).
  unfold example_failed. rewrite E. split; [exact Hs'|exact Hb'].
Qed.
(** Block 2 is invalid: the search takes the fork, and block 3 is marked. *)
Lemma most_work_chain_correct_witness :
  (λ x, (fst x, setBlockIndexCandidates (snd x), nStatus <$> nodes (tree (snd x)) !! 3%positive)) <$> FindMostWorkChain example_failed =
    Some (Some 4%positive, [1; 4]%positive, Some 75) ∧
  ∃ r s', FindMostWorkChain example_failed = Some (r, s') ∧ blocks_ok s' ∧ best_invalid_ok s' ∧ pruned example_failed s' ∧ best_candidate s' r ∧
    ∀ q, eligible example_failed q → ∃ p, r = Some p ∧ (q = p ∨ before (nodes (tree s')) q p).
Proof.
  split; [vm_compute; reflexivity|]. destruct example_failed_ok as [Hs Hb]. exact (most_work_chain_correct example_failed Hs Hb).
Defined.
Lemma invalid_block_not_followed_witness :
  setBlockIndexCandidates example_linked = [1; 2; 4; 3]%positive ∧
  ∃ s1 r s2, InvalidBlockFound example_linked 2 new_CValidationState false = Some s1 ∧ FindMostWorkChain s1 = Some (r, s2) ∧
    2%positive ∉ setBlockIndexCandidates s1 ∧ 2%positive ∈ g_failed_blocks s1.
Proof.
  split; [vm_compute; reflexivity|]. destruct example_linked_ok as (Hs & Hbits & Htip & Hb & Hf & n & Hn & Hc).
  destruct (invalid_block_not_followed example_linked 2 n new_CValidationState false Hs Hbits Htip Hb Hf Hn Hc) as [_ Hvalid].
  destruct (Hvalid eq_refl) as (s1 & E1 & _ & _ & _ & H2 & H3 & _ & _ & r & s2 & E2 & _). exists s1, r, s2. split; [exact E1|]. split; [exact E2|]. split; [exact H2|exact H3].
Defined.
(** The fork becomes the tip: the root and block 2 go. *)
Lemma new_tip_keeps_candidates_witness :
  ∃ c s', SetTip (nodes (tree example_linked)) (chainActive example_linked) (Some 4%positive) = Some c ∧
    PruneBlockIndexCandidates (set_active example_linked c) = Some s' ∧ Tip (chainActive s') = Some 4%positive ∧ blocks_ok s' ∧
    4%positive ∈ setBlockIndexCandidates s' ∧ 2%positive ∉ setBlockIndexCandidates s'.
Proof.
  destruct example_linked_ok as (Hs & _). assert (Hc : setBlockIndexCandidates example_linked = [1; 2; 4; 3]%positive) by (vm_compute; reflexivity).
  destruct (nodes (tree example_linked) !! 4%positive) as [n|] eqn:E; [|vm_compute in E; discriminate].
  destruct (new_tip_keeps_candidates example_linked 4 n Hs) as (c & s' & H1 & H2 & H3 & H4 & H5 & _ & H6).
  - rewrite Hc. right. right. left.
  - exact E.
  - exists c, s'. split; [exact H1|]. split; [exact H2|]. split; [exact H3|]. split; [exact H4|]. split; [exact H5|]. intros H. apply H6 in H as [_ H].
    vm_compute in H. discriminate.
Defined.
Lemma new_fork_warned_witness :
  ∃ s' r tip, CheckForkWarningConditionsOnNewFork example_linked 3 false = Some s' ∧ blocks_ok s' ∧ Tip (chainActive example_linked) = Some tip ∧
    is_lca (nodes (tree example_linked)) 3 tip r.
Proof.
  destruct example_linked_ok as (Hs & Hbits & Htip & Hb & Hf & _).
  destruct (nodes (tree example_linked) !! 3%positive) as [n|] eqn:E; [|vm_compute in E; discriminate].
  destruct (new_fork_warned example_linked 3 n false Hs Hbits Htip Hb Hf E) as (s' & r & tip & H1 & H2 & _ & H3 & H4 & _).
  exists s', r, tip. split; [exact H1|]. split; [exact H2|]. split; [exact H3|exact H4].
Defined.
