(* ===== verification/Genesis.v ===== *)
(** * The genesis block (src/src/chainparams.cpp)

    [CreateGenesisBlock] with the constants of the three networks, which share
    one block, on top of the scripts, transactions, blocks, Merkle trees and
    hashes of the other files, and with the string encoding of RLP
    (src/src/cpp-ethereum/libdevcore/RLP.cpp) that gives the empty state root.
    The source asserts the hash and the Merkle root when a network is selected;
    here both assertions are evaluated. *)

From stdpp Require Import base numbers list option.
From Stdlib Require Import ZArith Lia.
From Stdlib Require String.
Import String.StringSyntax.
From S2P Require Import Prelude StrEncodings Keccak DevSha3 Hash Script Serialize Transaction Block Merkle BlockIndex Pow.

(** ** RLP strings *)
Definition rlpDataImmLenStart : Z := 0x80.
Definition rlpListStart : Z := 0xc0.
Definition rlpMaxLengthBytes : Z := 8.
Definition rlpDataImmLenCount : Z := rlpListStart - rlpDataImmLenStart - rlpMaxLengthBytes.
Definition rlpDataIndLenZero : Z := rlpDataImmLenStart + rlpDataImmLenCount - 1.

Fixpoint bytesRequired (fuel : nat) (i : Z) : nat :=
  match fuel with
  | O => 0%nat
  | S fuel' => if i =? 0 then 0%nat else S (bytesRequired fuel' (Z.shiftr i 8))
  end.
Definition pushInt (i : Z) (br : nat) : bytes := rev (to_digits 256 br i).
(** [None] is the exception. *)
Definition pushCount (count base : Z) : option bytes :=
  let br := bytesRequired 8 count in
  if Z.of_nat br + base >? 0xff then None else Some (u8 (Z.of_nat br + base) :: pushInt count br).
Definition rlp_string (s : bytes) : option bytes :=
  let n := Z.of_nat (length s) in
  if (n =? 1) && (char_at s 0 <? rlpDataImmLenStart) then Some [char_at s 0]
  else
    p ← (if n <? rlpDataImmLenCount then Some [u8 (n + rlpDataImmLenStart)] else pushCount n rlpDataIndLenZero);
    Some (p ++ s).

(** ** The block *)
Definition genesis_scriptSig (pszTimestamp : bytes) : bytes :=
  push_data (push_num (push_int64 (push_int64 [] 0) 488804799) 4) pszTimestamp.
Definition CreateGenesisBlock_from (pszTimestamp genesisOutputScript : bytes)
    (nTime nNonce nBits nVersion genesisReward : Z) : option CBlock :=
  let txNew := mkCTransaction 1
    [mkCTxIn COutPoint_null (genesis_scriptSig pszTimestamp) SEQUENCE_FINAL []]
    [mkCTxOut genesisReward genesisOutputScript] 0 in
  let header root state utxo := mkHeader (mkOldHeader nVersion uint256_null root nTime nBits state utxo 0 nNonce 0) [] [] [] [] [] in
  '(root, _) ← BlockMerkleRoot (mkBlock (header uint256_null uint256_null uint256_null) [txNew]);
  empty ← rlp_string [];
  utxo ← DevSha3.sha3 empty;
  Some (mkBlock (header root (ParseHex (str "e965ffd002cd6ad0e2dc402b8044de833e06b23127ea8c3d80aec91410771495")) utxo) [txNew]).
Definition CreateGenesisBlock (nTime nNonce nBits nVersion genesisReward : Z) : option CBlock :=
  let pszTimestamp := str "Time is Money ，Space is Life ，Time-Space is Future" in
  genesisOutputScript ← push_opcode (push_data [] (ParseHex (str
    "040d61d8653448c98731ee5fffd303c15e71ec2057b77f11ab3601979728cdaff2d68afbba14e4fa0bc44f2072b0b23ef63717f8cdfbe58dcd33f32b6afe98741a"))) OP_CHECKSIG;
  CreateGenesisBlock_from pszTimestamp genesisOutputScript nTime nNonce nBits nVersion genesisReward.

Definition genesis : option CBlock := CreateGenesisBlock 1542793196 17707 0x1f00ffff 1 (50 * COIN).
Definition hashGenesisBlock : bytes := uint256S (str "0x000018234c5e94f9df19e2f85b6354c0b9eff3d4b4a4a45418bc9712999d1dfc").
Definition genesisMerkleRoot : bytes := uint256S (str "0x9f8166a8e06a59a86b840ae21915439b234f8081b1b9b5a072d7dccbb4034d6c").

(** ** Properties *)

(** The block the three networks start from passes the source's own
    assertions: building it terminates, its hash and its Merkle root are the
    two constants, the root is the hash of its one transaction, a coinbase of 50
    coins, the state roots are the two Ethereum constants, and its proof of work
    meets the announced target, within the limit, on each network. *)
Theorem genesis_asserts_hold : ∃ b tx,
  genesis = Some b ∧ vtx b = [tx] ∧
  Header_GetHash (header b) = Some hashGenesisBlock ∧
  hashMerkleRoot (old (header b)) = genesisMerkleRoot ∧ GetHash tx = Some genesisMerkleRoot ∧
  IsCoinBase tx = true ∧ GetValueOut tx = Some (50 * COIN) ∧
  hashUTXORoot (old (header b)) = ParseHex (str "56e81f171bcc55a6ff8345e692c0f86e5b48e01b996cadc001622fb5e363b421") ∧
  Forall (λ params, CheckProofOfWork hashGenesisBlock (nBits (old (header b))) params = true)
    [CMainParams; CTestNetParams; CRegTestParams] ∧
  BIP34Hash CMainParams = hashGenesisBlock.
Proof.
  let v := eval vm_compute in genesis in
  match v with Some ?b => exists b; let t := eval cbv in (vtx b) in match t with [?tx] => exists tx end end.
  split; [vm_compute; reflexivity|]. split; [reflexivity|].
  repeat match goal with |- _ ∧ _ => split end; try (vm_compute; reflexivity).
  repeat (apply Forall_cons_2; [vm_compute; reflexivity|]). apply Forall_nil_2.
Qed.
